(* ===== verification/_CoqProject ===== *)
-Q . S2P
Prelude.v
Ordering.v
GoRuntime.v
Floats.v
GoText.v
GoNumbers.v
IndexTypes.v
IndexAccounting.v
IndexMetrics.v
IndexEviction.v
IndexRanking.v
IndexIngest.v
Samples.v
IndexSpec.v
IndexLookup.v
IndexSnapshot.v
IndexSystem.v
IndexTheorems.v
Calibration.v
K8s.v
Policy.v
Fingerprint.v
Service.v
ServerTheorems.v
Probe.v
ProbeTheorems.v
Server.v
Auth.v
ControlPlane.v
IndexPoller.v
IndexPollerTheorems.v
Admission.v
Subscriber.v
ReporterSpec.v
Pipeline.v
Scraper.v
Decode.v
CoreV1.v
BackendApi.v
Endpoints.v
Adapters.v
Renderer.v
EngineWire.v
EngineAdapters.v
LiveObjects.v
Doctor.v
HttpServer.v
ReadinessGate.v
ProbeGate.v
EngineHealth.v
ConnectorHealth.v
StatusPublish.v
ManagedWorkload.v
NodeLocalPods.v
NodeLocalServers.v
BackendSamples.v
StorageProviders.v
UpsertFacts.v
AdapterTheorems.v
Overrides.v
BackendAdmission.v
BackendValidator.v
PodInjector.v
PodEvents.v
NodeLocalFacts.v
NodeLocalTheorems.v
NodeLocalRoundtrip.v
BackendReconciler.v
StatusFacts.v
ReconcileTheorems.v
ConnectorTheorems.v
ReadinessTheorems.v
ReadinessRuns.v
BackendTheorems.v
HiCacheTheorems.v
InjectionTheorems.v
WiringTheorems.v
DoctorTheorems.v
HttpTheorems.v
ControllerWitnesses.v
