(* ===== verification/Prelude.v ===== *)
(** * Verification of the inference-cache cache plane

    inference-cache keeps, next to a fleet of LLM engine replicas, a soft-state index
    of which replica holds the KV cache of which token prefix, and answers a gateway's
    question "where should this prompt go".  The program modelled here is the data
    path of that system and the control loops around it, written in Go:

    - [internal/subscriber] runs beside each engine: it turns the engine's block
      events into prefix hashes of its own and reports them to the server;
    - [pkg/fingerprint] is that hash, shared by the reporting and the asking side;
    - [internal/index] is the index: ingest, events, TTL sweep, tenant quota and cap
      eviction (LRU and LFU), exact and chain lookup, ranking, affinity, snapshots;
    - [internal/server] puts the index behind gRPC and HTTP: the policy store that the
      controller pushes, the LookupRoute handler with its gates, floors and deadlines,
      the report and event handlers, the functional probe, and the token-review
      middleware in front of the HTTP endpoints;
    - [internal/controller] resolves CachePolicy and CacheTenant objects into the
      pushed snapshot and projects the server's snapshot back onto CacheIndex,
      CacheBackend and CacheTenant status; it reconciles every CacheBackend: the managed
      storage workload, the NodeLocal server pods and the cleanup of their shared memory,
      and the conditions that say whether the backend serves; [internal/webhook] admits
      those objects and injects the cache configuration of the owning CacheBackend into
      engine pods, with the runtime and storage adapters of [internal/adapters] and
      [pkg/adapters];
    - [internal/index/calibration] replays recorded traffic through the index to
      choose the ranker's parameters;
    - [internal/cli/doctor] and [cmd/inferencecache] check an installation from outside:
      the server's endpoints and the objects of the cluster.

    ** How the parts meet

    Engine events reach a subscriber, which sends CacheStateUpdate and CacheEvent
    messages; the service translates them into [Ingest] and [ApplyEvent] calls; the
    index reads TTLs, budgets and eviction algorithms from the policy store through
    its resolvers; LookupRoute resolves a request to block hashes, looks them up,
    applies the policy and, only when a response is delivered, credits the entries it
    used; the probe writes and reads a reserved tenant of the same index.  The
    controllers list the admitted objects, push their resolution to the policy handler
    and read the index snapshot the same server takes.  An engine pod is admitted
    through the injector: it finds the CacheBackend that owns the pod, lets the selected
    adapter render the configuration, merges the operator's overrides, and stamps what it
    did; the event controller turns the stamps into events.  The CacheBackend controller
    reads the stamps of the pods, the participation the poller publishes and the answer of
    the server's probe, and layers them into the backend's conditions.  The server's
    controller-facing listener puts the token review in front of the policy, snapshot and
    probe handlers; the doctor probes the same routes and reads the same conditions,
    stamps and events.

    ** Files

    - [Prelude]: sums over finite maps, list lemmas, notation, tactics, hint database.
    - [Ordering]: Go's sort.Slice as a sort whose result a total order determines.
    - [GoRuntime], [Floats]: machine integers with their wrap-around, time.Time and
      Duration, IEEE binary32/64 arithmetic (SpecFloat) with facts on rounding, strings and
      byte encodings; [GoText], [GoNumbers]: the parts of strings, encoding/json, net,
      strconv and time (the text of a Duration) the program uses.
    - [IndexTypes] (types.go, index.go): keys, entries behind pointers (a heap of
      locations, so that a lookup's pending credits alias the entries they were taken
      from), configuration and state.
    - [IndexAccounting], [IndexMetrics] (accounting.go): upsert, remove, the counters
      and secondary indexes, the exported gauge; the invariant [index_wf].
    - [IndexEviction] (eviction.go), [IndexRanking] (ranking.go), [IndexIngest]
      (ingest.go), [IndexLookup] (lookup.go and the result methods of types.go),
      [IndexSnapshot] (snapshot.go): one definition per operation, with its lemmas.
    - [IndexSpec]: the abstract contract of the index (two finite maps and relations
      on them) and the refinement of the code's operations to it.
    - [IndexSystem]: the index as a state machine over critical sections, with its
      reachable states, and what an operation leaves alone for others.
    - [IndexTheorems]: the properties of the index; [Samples]: inputs for witnesses.
    - [Calibration] (index/calibration/calibration.go).
    - [K8s]: objects by name and the least object by (namespace, name).
    - [Policy] (server/policy.go, controlplaneapi/policy.go), [Fingerprint]
      (pkg/fingerprint), [Service] (server/inferencecache_service.go),
      [ServerTheorems].
    - [Probe] (server/probe.go, controlplaneapi/probe.go) and [ProbeTheorems].
    - [Server] (server/server.go): the interface [ResolverLaws] between the index and
      its resolvers, the policy store as an instance of it, the running server and its
      properties; [Auth] (server/auth/middleware.go); [HttpServer] (server/server.go): the
      options, the routes of the two HTTP listeners, the handlers behind the authenticators
      with requests in flight, the listeners and the order of Serve; [HttpTheorems].
    - [Doctor] (cli/doctor/finding.go, checks, output, cmd/inferencecache): the findings,
      the nine checks, the report formats, endpoint discovery and the exit code;
      [DoctorTheorems].
    - [ControlPlane] (controller/controlplane_controller.go), [IndexPoller] and
      [IndexPollerTheorems] (controller/cacheindex_controller.go, cacheindex_metrics.go),
      [Admission] (webhook/v1alpha1/cachepolicy_webhook.go, cachetenant_webhook.go).
    - [Subscriber] (subscriber/config.go, events.go, positional.go, mapper.go,
      forwarder.go, stats_reporter.go), [ReporterSpec]: what the reporter's messages
      mean; [Pipeline]: from engine events to a routed prompt;
      [Scraper] (subscriber/metrics_scraper.go; internal/canary and pkg/engineclient),
      [Decode] (subscriber/events.go, ParseAdapterNames of config.go, and the socket loop of
      subscriber.go).
    - [CoreV1]: the part of the Kubernetes API the program reads and writes, with
      quantities and name validators as classes; [BackendApi] (api/v1alpha1
      cachebackend types and accessors, the defaulting webhook, enginebinding).
    - [Endpoints] (pkg/adapters/backend/endpoint.go, serviceDNSNamespace,
      splitLMCacheHostPort), [Adapters] (pkg/adapters), [Renderer]
      (lmcache_mp_renderer.go, runtime_helpers.go), [EngineWire]
      (lmcache_mp_nodelocal.go, subscriber.go, lmcachecheck.go), [EngineAdapters]
      (vllm_lmcache_mp.go, sglang_lmcache.go, sglang_hicache.go), [StorageProviders]
      (builtin/storage); [UpsertFacts], [AdapterTheorems]: why rendering is stable;
      [BackendSamples]: inputs for witnesses.
    - [LiveObjects]: pods, workloads and the status of a backend as the controller sees
      them; [ReadinessGate], [ProbeGate], [EngineHealth], [ConnectorHealth],
      [StatusPublish] (controller/cachebackend_status.go, _probe.go, _kernelcheck.go,
      _engine_compat.go, _lmcache_mp_status.go, _serverless.go, probe_client.go): the
      verdicts and the status they are written to; [ManagedWorkload]
      (cachebackend_workload.go), [NodeLocalPods] (lmcache_mp_nodelocal.go),
      [NodeLocalServers] (cachebackend_lmcache_nodelocal.go), [BackendReconciler]
      (cachebackend_reconciler.go, _dispatch.go, _managed.go, and the transition events of
      _status.go); [NodeLocalFacts], [NodeLocalTheorems], [NodeLocalRoundtrip],
      [StatusFacts], [ReconcileTheorems], [ConnectorTheorems], [ReadinessTheorems],
      [ReadinessRuns]: their properties; [ControllerWitnesses]: concrete runs.
    - [Overrides] (webhook/pod/overrides.go), [BackendAdmission],
      [BackendValidator], [BackendTheorems] (webhook/v1alpha1/cachebackend_*.go),
      [PodInjector] (webhook/pod/podinjector.go), [PodEvents]
      (controller/engine_pod_events_controller.go), [HiCacheTheorems],
      [InjectionTheorems], [WiringTheorems]: from an admitted backend to a wired pod.

    ** What the theorems show

    - State: in every state any interleaving of operations reaches, whatever the
      resolvers answer to each, each counter and secondary index equals the quantity
      recomputed from the prefix map and the exported gauge is exact.  For the whole
      server under policy pushes, malformed ones included, the same invariant and the
      global cap hold in every state, and a tenant holds at most the budget that was in
      force when its last report was processed: a budget lowered since then is enforced
      by its next report.
    - Contract: ingest, event and sweep refine an abstract contract that says itself
      which entries an event names and when an entry aged out; evictions and
      rankings do not depend on map iteration order; tenants are isolated up to the
      cap, reserved tenants entirely.
    - Lookup: exact lookup is sound and complete, chain lookup is the longest fresh
      leading run, the fallbacks and the miss diagnosis are exact, the handler's
      response respects every gate and floor, and credit goes only to what was
      delivered, even when entries were evicted in between.
    - Policy: the effect of a push, version by version; fingerprint: composition,
      stability, encodings.
    - Probe: closed to the public contract, passes under concurrent traffic, leaves no
      trace, reports the first failure only.
    - Pipeline: the subscriber's keys are the lookup's keys however the engine cuts
      its events; batching is transparent; the delivered hints are exactly those of
      the engine's events; a cached prompt is found.  A decoded batch is well typed and
      decoding inverts encoding in every wire form, integer, binary and text hashes
      included; a scraped hit rate is the growth of the counters; the
      socket loop delivers every message that decodes and closes what it opens.
    - Auth: in every interleaving a request is served only behind a recent review of its
      token, and the token cache is bounded; on the assembled server the review is for the
      endpoint's own audience, and the policies are what the admitted pushes made them.
    - Doctor: exit code 0 exactly on a healthy installation and 2 exactly when an endpoint or
      a read failed; the audit of a pod agrees with the injector's decision; its probes of a
      live server change nothing.
    - Control plane: after a push the server enforces exactly the least-named policy of
      each namespace and the first budget of each tenant; pushes in the order of their
      lock never take it back, unless the server handles a request late that the client
      gave up on; admitted policies are all in force; the published tenant status, backend
      participation (as far as the status patches are accepted), tier-2 series and index
      rows are exact, and a failed read erases nothing.
    - CacheBackend controller: Ready and ConnectorReady are published exactly when their
      documented conditions hold; a failed probe holds Ready down until a probe passes;
      probes are rate limited; a silent backend becomes Degraded in time; the first event
      is reported once over any run of reconciles; NodeLocal servers are created only
      where they are needed and safe, cleanup never runs beside a consumer, its retries
      end, the finalizer goes last, and the controller recognises every pod it renders.
    - Calibration: the reported point is the best of the grid.
    - Injection: backends admitted one after another own disjoint pods; stamps and events
      tell the decision taken; rendering is idempotent for every adapter on templates that
      leave the reserved mounts free and give SGLang's config flag a value; admitted
      overrides keep every spelling and every value of a reserved flag and every reserved
      variable, although a positional argument may come to stand behind a bare reserved
      toggle; the resource, HiCache and endpoint rules of admission accept exactly what
      their consumers need.

    ** Conventions and bounds

    Fixed-width integers are [Z] with wrap-around written out where the code adds at
    that width (int32 token counts, the int64 access counter); Go's [int] counters of
    map sizes are unbounded.  A critical section of [Index.mu] is one step; the three
    phases of LookupRoute read three separate states, because the code releases the
    lock between them.  Ranging over a map is a fold over its [map_to_list]; where the
    code's result could depend on the order, a theorem shows that it does not, or the
    enumeration is an argument ([takeSnapshot]).  Resolvers are fixed functions within
    one operation and may change between two: a push in the middle of an operation is not
    modelled.  Contexts,
    deadlines, selects and clocks are inputs of a call ([Env], [ProbeEnv]).  Floating
    point is unfused, as on amd64.  What a controller writes is a list of effects in
    order; what the apiserver, the file system and the peer answer are inputs.  Every
    recursion is structural or bounded by the length of its input ([dpWalk] takes the length of the slice as fuel, one group per
    step; [trimLoop] the length of the string, at least one byte per step), so no fuel
    can run out; [FormatFloat32] tries at most nine digits, which suffice for float32.

    ** Not modelled

    Third-party code is a parameter: XXH3, SHA-256, the tokenizer, the tier-2 client,
    the TokenReview API, msgpack (with the laws of its typed reads), the Prometheus text
    parser (its families are an input), meta.SetStatusCondition (with its laws),
    equality.Semantic.DeepEqual, JSON (as its result, or as a codec that round-trips),
    resource.Quantity and the name validators of apimachinery (with their laws), %q.
    Of a pod, the fields no modelled code reads are not represented.  Transport (gRPC,
    HTTP and TLS below the handlers, ZMQ), logging and Prometheus registration, the flag
    parsing of the commands, text/tabwriter and kubeconfig loading, the cgo tokenizer,
    the calibration and sizing commands and generated code are left out:
    they are library calls around the modelled parts.  Of the CacheBackend controller, the
    RFC 3339 text of a time is read by a parameter, DeepEqual on a status is equality of
    this representation, and the staleness of informer caches and SetupWithManager are not
    represented.  Of the HTTP servers, a request has its path unescaped, and a write to a
    client that went away is not represented.

    ** Plan

    Done: index, policy store, fingerprint, service, probe, server wiring, auth, HTTP
    listeners, subscriber, calibration, control plane, index poller, admission of the three
    kinds, pod injector, adapters, pod events, the CacheBackend controller with its NodeLocal
    pods, the doctor, the subscriber's socket loop, the engine client and its canary.  Left: a
    proof that the mean hit rate of a tenant's row is always finite. *)

From stdpp Require Export base gmap strings list fin_maps sorting.
From Stdlib Require Export ZArith Lia Ascii.

#[global] Open Scope Z_scope.

(** ** Notation and automation *)

Declare Scope go_scope.
Delimit Scope go_scope with go.

(** Lemmas that an operation preserves the index invariant. *)
Create HintDb index_wf.

(** Destructs the pair a step returns and reduces the projections around it. *)
Tactic Notation "step_pair" constr(t) "as" simple_intropattern(a) simple_intropattern(b) :=
  destruct t as [a b]; cbn [fst snd] in *.

(** ** Sums over finite maps *)

(** [msum f m] adds [f k v] over the bindings of [m]: the reference meaning of
    every counter the index keeps next to its prefix map. *)
Definition msum {K V : Type} `{Countable K} (f : K → V → Z) (m : gmap K V) : Z :=
  map_fold (λ k v acc, f k v + acc) 0 m.

(** [zcount P m] counts the bindings of [m] that satisfy [P]. *)
Definition zcount {K V : Type} `{Countable K} (P : K → V → bool) (m : gmap K V) : Z :=
  msum (λ k v, if P k v then 1 else 0) m.

(** The contribution of one key to a sum. *)
Definition mval {K V : Type} `{Countable K} (f : K → V → Z) (m : gmap K V) (k : K) : Z :=
  match m !! k with Some v => f k v | None => 0 end.

(** [go_get m k] is Go's [m[k]] on a map of integers: absent means 0. *)
Definition go_get {K : Type} `{Countable K} (m : gmap K Z) (k : K) : Z :=
  default 0 (m !! k).

Notation "m ![ k ]" := (go_get m k) (at level 9, k at level 200) : go_scope.
#[global] Open Scope go_scope.
#[global] Open Scope Z_scope.

(** [lsum f l] adds [f] over a list. *)
Definition lsum {A : Type} (f : A → Z) (l : list A) : Z :=
  foldr (λ x acc, f x + acc) 0 l.

Section msum.
Context {K V : Type} `{Countable K}.
Implicit Types (m : gmap K V) (f g : K → V → Z).

Lemma msum_empty f : msum f ∅ = 0.
Proof. apply map_fold_empty. Qed.

Lemma msum_insert f m k v :
  m !! k = None → msum f (<[k:=v]> m) = f k v + msum f m.
Proof.
  intros Hk. unfold msum.
  rewrite (map_fold_insert_L (λ k v acc, f k v + acc)); [done| |done]. intros; lia.
Qed.

Lemma msum_delete f m k v :
  m !! k = Some v → msum f m = f k v + msum f (delete k m).
Proof.
  intros Hk. rewrite <-(insert_delete_id m k v Hk) at 1.
  apply msum_insert, lookup_delete_eq.
Qed.

Lemma msum_delete_mval f m k : msum f (delete k m) = msum f m - mval f m k.
Proof.
  unfold mval. destruct (m !! k) as [v|] eqn:E.
  - rewrite (msum_delete f m k v E). lia.
  - rewrite delete_id by done. lia.
Qed.

Lemma msum_insert_mval f m k v :
  msum f (<[k:=v]> m) = msum f m - mval f m k + f k v.
Proof.
  rewrite <-insert_delete_eq, msum_insert by apply lookup_delete_eq.
  rewrite msum_delete_mval. lia.
Qed.

Lemma msum_ext f g m :
  (∀ k v, m !! k = Some v → f k v = g k v) → msum f m = msum g m.
Proof.
  induction m as [|k v m Hk IH] using map_ind; intros Hfg; [by rewrite !msum_empty|].
  rewrite !msum_insert by done. rewrite IH, Hfg; [done|by rewrite lookup_insert_eq|].
  intros k' v' Hk'. apply Hfg. rewrite lookup_insert_ne; [done|congruence].
Qed.

Lemma msum_nonneg f m :
  (∀ k v, m !! k = Some v → 0 ≤ f k v) → 0 ≤ msum f m.
Proof.
  induction m as [|k v m Hk IH] using map_ind; intros Hf; [by rewrite msum_empty|].
  rewrite msum_insert by done.
  pose proof (Hf k v (lookup_insert_eq _ _ _)).
  enough (0 ≤ msum f m) by lia. apply IH. intros k' v' Hk'. apply Hf.
  rewrite lookup_insert_ne; [done|congruence].
Qed.

Lemma msum_add f g m : msum (λ k v, f k v + g k v) m = msum f m + msum g m.
Proof.
  induction m as [|k v m Hk IH] using map_ind; [by rewrite !msum_empty|].
  rewrite !msum_insert by done. lia.
Qed.

Lemma msum_0 f m : (∀ k v, m !! k = Some v → f k v = 0) → msum f m = 0.
Proof.
  intros Hf. rewrite (msum_ext f (λ _ _, 0) m Hf).
  induction m as [|k v m Hk IH] using map_ind; [by rewrite msum_empty|].
  rewrite msum_insert, IH; [done| |done]. intros; auto.
  eapply Hf. rewrite lookup_insert_ne; [done|congruence].
Qed.

(** A sum of non-negative terms bounds each of them. *)
Lemma msum_ge f m k v :
  (∀ k v, m !! k = Some v → 0 ≤ f k v) → m !! k = Some v → f k v ≤ msum f m.
Proof.
  intros Hf Hk. rewrite (msum_delete f m k v Hk).
  enough (0 ≤ msum f (delete k m)) by lia. apply msum_nonneg.
  intros k' v' Hk'. apply Hf. by apply lookup_delete_Some in Hk' as [_ ?].
Qed.

Lemma msum_lsum f m : msum f m = lsum (uncurry f) (map_to_list m).
Proof.
  unfold msum, lsum. rewrite map_fold_foldr.
  induction (map_to_list m) as [|[k v] l IH]; simpl; [done|]. by rewrite IH.
Qed.

Lemma zcount_nonneg (P : K → V → bool) m : 0 ≤ zcount P m.
Proof. apply msum_nonneg. intros k v _. destruct (P k v); lia. Qed.

Lemma zcount_pos (P : K → V → bool) m :
  0 < zcount P m ↔ ∃ k v, m !! k = Some v ∧ P k v = true.
Proof.
  split.
  - intros Hpos. destruct (decide (Exists (λ kv, P kv.1 kv.2 = true) (map_to_list m)))
      as [Hex|Hne].
    + apply Exists_exists in Hex as ([k v] & Hin & HP).
      apply elem_of_map_to_list in Hin. eauto.
    + unfold zcount in Hpos. rewrite msum_0 in Hpos; [lia|].
      intros k v Hk. destruct (P k v) eqn:HP; [|done].
      destruct Hne. apply Exists_exists. exists (k, v).
      by rewrite elem_of_map_to_list.
  - intros (k & v & Hk & HP).
    pose proof (msum_ge (λ k v, if P k v then 1 else 0) m k v) as Hge.
    simpl in Hge. rewrite HP in Hge. unfold zcount.
    enough (1 ≤ msum (λ k v, if P k v then 1 else 0) m) by lia.
    apply Hge; [|done]. intros k' v' _. destruct (P k' v'); lia.
Qed.

Lemma zcount_zero (P : K → V → bool) m :
  zcount P m = 0 ↔ ∀ k v, m !! k = Some v → P k v = false.
Proof.
  pose proof (zcount_nonneg P m). pose proof (zcount_pos P m) as [Hp1 Hp2]. split.
  - intros Hz k v Hk. destruct (P k v) eqn:E; [|done].
    enough (0 < zcount P m) by lia. apply Hp2. eauto.
  - intros Hall. destruct (decide (0 < zcount P m)) as [Hlt|]; [|lia].
    destruct (Hp1 Hlt) as (k & v & Hk & HP). by rewrite (Hall k v Hk) in HP.
Qed.

Lemma zcount_size m : zcount (λ _ _, true) m = Z.of_nat (size m).
Proof.
  unfold zcount. induction m as [|k v m Hk IH] using map_ind.
  - by rewrite msum_empty, map_size_empty.
  - rewrite msum_insert, map_size_insert_None, IH by done. lia.
Qed.
End msum.

(** ** Lists *)

Lemma NoDup_fmap_omap {A B C} (f : A → option B) (g : B → C) (h : A → C) (l : list A) :
  (∀ x y, f x = Some y → g y = h x) → NoDup (h <$> l) → NoDup (g <$> omap f l).
Proof.
  intros Hgh. induction l as [|x l IH]; simpl; [intros _; constructor|].
  intros [Hx Hnd]%NoDup_cons. destruct (f x) as [y|] eqn:E; simpl; [|auto].
  apply NoDup_cons. split; [|auto]. rewrite (Hgh x y E). intros Hin.
  apply Hx. apply list_elem_of_fmap in Hin as (y' & Hy' & Hin).
  apply list_elem_of_omap in Hin as (x' & Hx' & E').
  rewrite Hy', (Hgh x' y' E'). by apply list_elem_of_fmap_2.
Qed.

Lemma NoDup_fmap_bind {A B C D} (f : A → list B) (g : B → C) (h : A → D) (p : C → D)
    (l : list A) :
  (∀ x y, x ∈ l → y ∈ f x → p (g y) = h x) → (∀ x, x ∈ l → NoDup (g <$> f x)) →
  NoDup (h <$> l) → NoDup (g <$> (l ≫= f)).
Proof.
  induction l as [|x l IH]; intros Hp Hnd; simpl; [intros _; constructor|].
  intros [Hx Hl]%NoDup_cons. rewrite fmap_app, NoDup_app. split_and!.
  - apply Hnd. by left.
  - intros c Hc1 Hc2. apply Hx.
    apply list_elem_of_fmap in Hc1 as (y1 & -> & Hy1).
    apply list_elem_of_fmap in Hc2 as (y2 & Hy & Hy2).
    apply list_elem_of_bind in Hy2 as (x2 & Hy2 & Hx2).
    rewrite <-(Hp x y1), Hy, (Hp x2 y2); [by apply list_elem_of_fmap_2|by right|done|by left|done].
  - apply IH; [..|done]; intros; [apply Hp|apply Hnd]; by auto using list_elem_of_further.
Qed.

Lemma length_bind_lsum {A B} (f : A → list B) (l : list A) :
  Z.of_nat (length (l ≫= f)) = lsum (λ x, Z.of_nat (length (f x))) l.
Proof.
  induction l as [|x l IH]; [done|]. rewrite bind_cons, length_app, Nat2Z.inj_add, IH. done.
Qed.

Lemma length_omap_all {A B} (f : A → option B) (l : list A) :
  (∀ x, x ∈ l → is_Some (f x)) → length (omap f l) = length l.
Proof.
  induction l as [|x l IH]; intros Hf; simpl; [done|].
  destruct (Hf x) as [y ->]; [by left|]. simpl. f_equal. apply IH.
  intros x' Hx'. apply Hf. by right.
Qed.

Lemma lsum_ext {A} (f g : A → Z) (l : list A) :
  (∀ x, x ∈ l → f x = g x) → lsum f l = lsum g l.
Proof.
  induction l as [|x l IH]; intros Hfg; simpl; [done|].
  rewrite IH, Hfg; [done|by left|]. intros x' Hx'. apply Hfg. by right.
Qed.

(** Folding a step that maintains [P]. *)
Lemma foldl_inv {A B} (P : A → Prop) (f : A → B → A) (l : list B) (a : A) :
  P a → (∀ a b, b ∈ l → P a → P (f a b)) → P (foldl f a l).
Proof.
  revert a. induction l as [|b l IH]; intros a Ha Hf; simpl; [done|].
  apply IH; [apply Hf; [by left|done]|]. intros a' b' Hb'. apply Hf. by right.
Qed.

(** ** Sums and filters *)

Lemma lsum_app {A : Type} (f : A → Z) l1 l2 : lsum f (l1 ++ l2) = lsum f l1 + lsum f l2.
Proof. induction l1; simpl; lia. Qed.

#[export] Instance lsum_perm {A : Type} (f : A → Z) : Proper ((≡ₚ) ==> (=)) (lsum f).
Proof. intros l1 l2 Hp. induction Hp; simpl; lia. Qed.

Lemma lsum_fmap {A B : Type} (g : A → B) (f : B → Z) l : lsum f (g <$> l) = lsum (f ∘ g) l.
Proof. induction l; simpl; [done|]. by f_equal. Qed.

Lemma lsum_zero {A : Type} (f : A → Z) l : (∀ x, x ∈ l → f x = 0) → lsum f l = 0.
Proof.
  induction l as [|x l IH]; intros Hf; simpl; [done|].
  rewrite Hf by left. rewrite IH; [done|]. intros y Hy. apply Hf. by right.
Qed.

Lemma filter_all {A : Type} (P : A → Prop) `{∀ x, Decision (P x)} l : Forall P l → filter P l = l.
Proof. induction 1; [done|]. rewrite filter_cons_True by done. by f_equal. Qed.

Lemma filter_none {A : Type} (P : A → Prop) `{∀ x, Decision (P x)} l :
  Forall (λ x, ¬ P x) l → filter P l = [].
Proof. induction 1; [done|]. by rewrite filter_cons_False. Qed.

Lemma elem_of_List_filter {A : Type} (p : A → bool) l x :
  x ∈ List.filter p l ↔ p x = true ∧ x ∈ l.
Proof. rewrite !list_elem_of_In, filter_In. tauto. Qed.

Definition option_list {A : Type} (o : option A) : list A :=
  match o with Some x => [x] | None => [] end.

(** ** Errors as values

    A fallible Go function returns [E + A]: [inl] is the error. *)

(** [x, err := c; if err != nil { return err }; k]. *)
Notation "'let?' x := c 'in' k" :=
  (match c with inl e => inl e | inr x => k end)
  (at level 200, x pattern, c at level 100, k at level 200, right associativity).

(** Elements of a list with distinct keys are determined by their key. *)
Lemma NoDup_key_inj {A B : Type} (key : A → B) l x y :
  NoDup (key <$> l) → x ∈ l → y ∈ l → key x = key y → x = y.
Proof.
  intros Hnd [i Hi]%list_elem_of_lookup [j Hj]%list_elem_of_lookup E.
  assert (i = j) as ->; [|by simplify_eq].
  apply (NoDup_lookup _ i j (key x) Hnd); rewrite list_lookup_fmap, ?Hi, ?Hj; simpl; congruence.
Qed.

(** A loop that appends one result per element and stops at the first error. *)
Fixpoint mapE {A B E : Type} (f : A → E + B) (l : list A) : E + list B :=
  match l with
  | [] => inr []
  | x :: l => let? y := f x in let? ys := mapE f l in inr (y :: ys)
  end.

Lemma mapE_inr {A B E : Type} (f : A → E + B) l ys :
  mapE f l = inr ys ↔ Forall2 (λ x y, f x = inr y) l ys.
Proof.
  revert ys. induction l as [|x l IH]; intros ys; simpl.
  { split; [intros [= <-]; constructor|by inversion 1]. }
  split.
  - destruct (f x) as [|y] eqn:Hfx; [done|]. destruct (mapE f l) as [|ys']; [done|].
    intros [= <-]. constructor; [done|]. by apply IH.
  - inversion 1 as [|?? ? ys' Hy Hys]; subst. by rewrite Hy, (proj2 (IH ys') Hys).
Qed.

Lemma mapE_Forall {A B E : Type} (P : B → Prop) (f : A → E + B) l ys :
  (∀ x y, f x = inr y → P y) → mapE f l = inr ys → Forall P ys.
Proof. intros HP H%mapE_inr. induction H; constructor; eauto. Qed.

Lemma mapE_fmap {A B C E : Type} (g : C → A) (f : A → E + B) (h : C → B) l :
  (∀ x, x ∈ l → f (g x) = inr (h x)) → mapE f (g <$> l) = inr (h <$> l).
Proof.
  intros H. apply mapE_inr. induction l as [|x l IH]; constructor.
  - apply H. left.
  - apply IH. intros y Hy. apply H. by right.
Qed.
