(* ===== verification/Ordering.v ===== *)
(** * Go's [sort.Slice] and the comparators handed to it

    [sort.Slice] is unstable: its result is only determined when the comparator
    separates every two elements.  [go_sort] is one admissible implementation
    (a merge sort); [go_sort_unique] shows that, for a comparator that is a
    total order on the elements, every sorted permutation of the input is the
    same list, so the choice does not matter and neither does the order in
    which a Go map was ranged over to build the slice. *)

From S2P Require Import Prelude.

(** Sorting a slice with a Go comparator [less]. *)
Definition go_sort {A : Type} (less : A → A → bool) (l : list A) : list A :=
  merge_sort (λ x y, Is_true (negb (less y x))) l.

(** [less] as decided by a three-way comparison. *)
Definition less_of {A : Type} (cmp : A → A → comparison) (x y : A) : bool :=
  match cmp x y with Lt => true | _ => false end.

(** Lexicographic combination of two comparisons. *)
Definition cmp_lex {A : Type} (c1 c2 : A → A → comparison) (x y : A) : comparison :=
  match c1 x y with Eq => c2 x y | r => r end.

(** Comparison of a projection. *)
Definition cmp_on {A B : Type} (f : A → B) (c : B → B → comparison) (x y : A) : comparison :=
  c (f x) (f y).

(** Comparison in descending order. *)
Definition cmp_flip {A : Type} (c : A → A → comparison) (x y : A) : comparison := c y x.

(** A comparison that is a total preorder on the elements satisfying [P]. *)
Class TotalCmp {A : Type} (P : A → Prop) (cmp : A → A → comparison) : Prop := {
  cmp_antisym : ∀ x y, cmp y x = CompOpp (cmp x y);
  cmp_trans : ∀ x y z, P x → P y → P z → cmp x y = Lt → cmp y z = Lt → cmp x z = Lt;
  cmp_eq_l : ∀ x y z, P x → P y → P z → cmp x y = Eq → cmp x z = cmp y z
}.

(** The laws of a Go comparator that make the sorted list unique on [P]. *)
Class LessOrder {A : Type} (P : A → Prop) (less : A → A → bool) : Prop := {
  less_asym : ∀ x y, less x y = true → less y x = false;
  less_ntrans : ∀ x y z, P x → P y → P z →
    less y x = false → less z y = false → less z x = false;
  less_total : ∀ x y, P x → P y → less x y = false → less y x = false → x = y
}.

(** Neighbours of a sorted slice are not inverted. *)
Abbreviation sorted_by less := (Sorted (λ x y, less y x = false)).

(** No two elements of the slice, however far apart, are inverted. *)
Abbreviation strongly_sorted_by less := (StronglySorted (λ x y, less y x = false)).

#[export] Instance total_cmp_Z : TotalCmp (λ _ : Z, True) Z.compare.
Proof.
  split; intros.
  - apply Z.compare_antisym.
  - rewrite Z.compare_lt_iff in *. lia.
  - by apply Z.compare_eq_iff in H2 as ->.
Qed.

Lemma ascii_compare_lt_trans a b c :
  Ascii.compare a b = Lt → Ascii.compare b c = Lt → Ascii.compare a c = Lt.
Proof. unfold Ascii.compare. rewrite !N.compare_lt_iff. lia. Qed.

Lemma string_compare_trans s1 s2 s3 :
  String.compare s1 s2 = Lt → String.compare s2 s3 = Lt → String.compare s1 s3 = Lt.
Proof.
  revert s2 s3. induction s1 as [|a s1 IH]; intros [|b s2] [|c s3]; simpl; try done.
  destruct (Ascii.compare a b) eqn:Hab; try done.
  - apply Ascii.compare_eq_iff in Hab as ->. destruct (Ascii.compare b c); eauto.
  - intros _. destruct (Ascii.compare b c) eqn:Hbc; try done.
    + apply Ascii.compare_eq_iff in Hbc as ->. by rewrite Hab.
    + by rewrite (ascii_compare_lt_trans a b c).
Qed.

#[export] Instance total_cmp_string : TotalCmp (λ _ : string, True) String.compare.
Proof.
  split; intros.
  - rewrite (String.compare_antisym y x). by destruct (String.compare y x).
  - eauto using string_compare_trans.
  - by apply String.compare_eq_iff in H2 as ->.
Qed.

Section total_cmp.
Context {A : Type} (P : A → Prop).

#[export] Instance total_cmp_on {B} (f : A → B) (Q : B → Prop) c :
  TotalCmp Q c → TotalCmp (λ x, Q (f x)) (cmp_on f c).
Proof.
  intros [Ha Ht He]. unfold cmp_on. split; intros; eauto.
Qed.

#[export] Instance total_cmp_flip c : TotalCmp P c → TotalCmp P (cmp_flip c).
Proof.
  intros [Ha Ht He]. unfold cmp_flip. split; intros.
  - by rewrite Ha.
  - eauto.
  - rewrite (Ha x z), (Ha y z). f_equal. apply He; [done..|].
    rewrite Ha, H2. done.
Qed.

#[export] Instance total_cmp_lex c1 c2 :
  TotalCmp P c1 → TotalCmp P c2 → TotalCmp P (cmp_lex c1 c2).
Proof.
  intros [Ha1 Ht1 He1] [Ha2 Ht2 He2]. unfold cmp_lex. split.
  - intros x y. rewrite (Ha1 x y). destruct (c1 x y); simpl; auto.
  - intros x y z Px Py Pz.
    destruct (c1 x y) eqn:E1; [|intros _|done].
    + rewrite (He1 x y z) by done. destruct (c1 y z); eauto.
    + destruct (c1 y z) eqn:E2; [|intros _|done].
      * assert (c1 z x = Gt) as E.
        { rewrite <-(He1 y z x) by done. by rewrite (Ha1 x y), E1. }
        intros _. by rewrite (Ha1 z x), E.
      * by rewrite (Ht1 x y z).
  - intros x y z Px Py Pz.
    destruct (c1 x y) eqn:E1; try done. intros E2.
    rewrite (He1 x y z), (He2 x y z) by done. done.
Qed.

(** Weakening the domain of a comparison. *)
Lemma total_cmp_weaken (Q : A → Prop) c :
  TotalCmp Q c → (∀ x, P x → Q x) → TotalCmp P c.
Proof. intros [Ha Ht He] HPQ. split; intros; eauto. Qed.

(** "Not less" is transitive. *)
Lemma less_of_ntrans cmp x y z :
  TotalCmp P cmp → P x → P y → P z →
  less_of cmp y x = false → less_of cmp z y = false → less_of cmp z x = false.
Proof.
  intros [Ha Ht He] Px Py Pz. unfold less_of. rewrite (Ha x y), (Ha y z), (Ha x z).
  destruct (cmp x y) eqn:E1; simpl; try done; intros _.
  - rewrite (He x y z) by done. by destruct (cmp y z).
  - destruct (cmp y z) eqn:E2; simpl; try done; intros _.
    + assert (cmp z y = Eq) as E3 by (rewrite (Ha y z), E2; done).
      rewrite (Ha z x), (He z y x), (Ha x y), E1 by done. done.
    + by rewrite (Ht x y z).
Qed.

Lemma less_of_order cmp :
  TotalCmp P cmp → (∀ x y, P x → P y → cmp x y = Eq → x = y) →
  LessOrder P (less_of cmp).
Proof.
  intros [Ha Ht He] Heq. unfold less_of. split.
  - intros x y. rewrite (Ha x y). by destruct (cmp x y).
  - intros x y z Px Py Pz. by apply (less_of_ntrans cmp x y z).
  - intros x y Px Py. rewrite (Ha x y).
    destruct (cmp x y) eqn:E; simpl; try done. auto.
Qed.
End total_cmp.

(** ** The sorted list *)

Section go_sort.
Context {A : Type} (P : A → Prop) (less : A → A → bool).

Lemma go_sort_Permutation l : go_sort less l ≡ₚ l.
Proof. apply merge_sort_Permutation. Qed.

Lemma elem_of_go_sort x l : x ∈ go_sort less l ↔ x ∈ l.
Proof. by rewrite go_sort_Permutation. Qed.

Lemma go_sort_nil l : go_sort less l = [] ↔ l = [].
Proof.
  split; intros E.
  - apply Permutation_nil. by rewrite <-(go_sort_Permutation l), E.
  - by subst.
Qed.

Lemma length_go_sort l : length (go_sort less l) = length l.
Proof. by rewrite go_sort_Permutation. Qed.

Lemma Sorted_impl (R R' : relation A) l :
  (∀ x y, R x y → R' x y) → Sorted R l → Sorted R' l.
Proof.
  intros HR. induction 1 as [|x l Hl IH Hhd]; constructor; [done|].
  destruct Hhd; constructor; auto.
Qed.

(** Adjacent elements are in order for any asymmetric comparator. *)
Lemma go_sort_sorted l :
  (∀ x y, less x y = true → less y x = false) → sorted_by less (go_sort less l).
Proof.
  intros Hasym.
  apply (Sorted_impl (λ x y, Is_true (negb (less y x)))).
  { intros x y HR%Is_true_true. by destruct (less y x). }
  apply Sorted_merge_sort. intros x y.
  destruct (less y x) eqn:E; [right|left; done]. by rewrite (Hasym _ _ E).
Qed.

Lemma sorted_strongly l :
  Forall P l → LessOrder P less → sorted_by less l → strongly_sorted_by less l.
Proof.
  intros HP Hord Hs. induction Hs as [|x l Hs IH Hhd]; [constructor|].
  inversion_clear HP as [|?? Px Pl]. specialize (IH Pl).
  constructor; [done|].
  destruct Hhd as [|y l Hxy]; [constructor|].
  inversion_clear IH as [|?? Hss Hfa]. inversion_clear Pl as [|?? Py Pl'].
  constructor; [done|]. apply Forall_forall. intros z Hz.
  rewrite Forall_forall in Hfa, Pl'.
  apply (less_ntrans x y z); auto.
Qed.

Lemma go_sort_strongly_sorted l :
  Forall P l → LessOrder P less → strongly_sorted_by less (go_sort less l).
Proof.
  intros HP Hord. apply sorted_strongly; [|done|].
  - by rewrite go_sort_Permutation.
  - apply go_sort_sorted. apply less_asym.
Qed.

(** Any sorted permutation is the result, whatever algorithm produced it. *)
Lemma go_sort_unique l l' :
  LessOrder P less → Forall P l → l' ≡ₚ l → sorted_by less l' → l' = go_sort less l.
Proof.
  intros Hord HP Hperm Hs.
  apply (StronglySorted_unique_strong (λ x y, less y x = false)).
  - intros x y Hx Hy Hyx Hxy. rewrite Forall_forall in HP.
    rewrite Hperm in Hx. rewrite go_sort_Permutation in Hy.
    apply less_total; auto.
  - apply sorted_strongly; [|done..]. by rewrite Hperm.
  - by apply go_sort_strongly_sorted.
  - by rewrite Hperm, go_sort_Permutation.
Qed.

(** The order in which the slice was filled does not matter. *)
Lemma go_sort_perm l l' :
  LessOrder P less → Forall P l → l ≡ₚ l' → go_sort less l = go_sort less l'.
Proof.
  intros Hord HP Hperm. apply go_sort_unique; [done| | |].
  - by rewrite <-Hperm.
  - by rewrite go_sort_Permutation.
  - apply go_sort_sorted, less_asym.
Qed.
End go_sort.

(** ** The shape of Go comparators

    [if a != b { return a < b }; rest] is one step of a lexicographic
    comparison. *)

Lemma less_of_lex {A : Type} (c1 c2 : A → A → comparison) x y :
  less_of (cmp_lex c1 c2) x y =
    match c1 x y with Lt => true | Gt => false | Eq => less_of c2 x y end.
Proof. unfold less_of, cmp_lex. by destruct (c1 x y). Qed.

Lemma less_step_Z a b (rest : bool) :
  (if negb (a =? b) then a <? b else rest) =
    match a ?= b with Lt => true | Gt => false | Eq => rest end.
Proof.
  destruct (Z.compare_spec a b); subst; rewrite ?Z.eqb_refl; simpl; [done| |].
  - rewrite (proj2 (Z.eqb_neq a b)) by lia. simpl. lia.
  - rewrite (proj2 (Z.eqb_neq a b)) by lia. simpl. lia.
Qed.

Lemma string_compare_eq_iff s t : String.compare s t = Eq ↔ s = t.
Proof.
  split; [apply String.compare_eq_iff|]. intros ->.
  pose proof (String.compare_antisym t t). by destruct (String.compare t t).
Qed.

Lemma less_step_string s t (rest : bool) :
  (if negb (bool_decide (s = t)) then less_of String.compare s t else rest) =
    match String.compare s t with Lt => true | Gt => false | Eq => rest end.
Proof.
  unfold less_of. case_bool_decide as E; simpl.
  - by apply string_compare_eq_iff in E as ->.
  - pose proof (string_compare_eq_iff s t). by destruct (String.compare s t); naive_solver.
Qed.

(** ** The first minimum of a slice

    [if first || less(x, best) { best = x }] over a slice. *)

Definition minStep {A : Type} (less : A → A → bool) (acc : option A) (x : A) : option A :=
  match acc with None => Some x | Some b => if less x b then Some x else acc end.

Lemma minStep_fold {A : Type} (P : A → Prop) (less : A → A → bool) l acc :
  (∀ x y, P x → P y → less x y = true → less y x = false) →
  (∀ x y z, P x → P y → P z → less y x = false → less z y = false → less z x = false) →
  Forall P l → (∀ b, acc = Some b → P b) →
  match foldl (minStep less) acc l with
  | None => acc = None ∧ l = []
  | Some b => (acc = Some b ∨ b ∈ l) ∧ P b ∧ ∀ x, acc = Some x ∨ x ∈ l → less x b = false
  end.
Proof.
  intros Hasym Htrans Hl. revert acc. induction Hl as [|x l Px Hl IH]; intros acc Hacc; cbn [foldl].
  { destruct acc as [b|]; [|done]. pose proof (Hacc b eq_refl) as Pb. split_and!; [by left|done|].
    intros y [[= <-]|Hy]; [|by apply elem_of_nil in Hy].
    destruct (less b b) eqn:E; [|done]. rewrite <-E. by apply Hasym. }
  assert (less x x = false) as Hxx.
  { destruct (less x x) eqn:E; [|done]. rewrite <-E. by apply Hasym. }
  assert (∃ b, minStep less acc x = Some b ∧ P b ∧ (acc = Some b ∨ b = x) ∧
    (∀ y, acc = Some y → less y b = false) ∧ less x b = false) as (b & Eb & Pb & Hb & Hold & Hx).
  { unfold minStep. destruct acc as [b|]; [|exists x; naive_solver].
    pose proof (Hacc b eq_refl) as Pb. destruct (less x b) eqn:E.
    - exists x. split_and!; [done..|by right| |done]. intros y [= <-]. by apply Hasym.
    - exists b. split_and!; [done..|by left| |done]. intros y [= <-].
      destruct (less b b) eqn:E'; [|done]. rewrite <-E'. by apply Hasym. }
  specialize (IH (minStep less acc x)). rewrite Eb in *. specialize (IH ltac:(by intros ? [= <-])).
  destruct (foldl (minStep less) (Some b) l) as [b'|]; [|by destruct IH].
  destruct IH as (Hin & Pb' & Hmin). split_and!; [|done|].
  - destruct Hin as [[= <-]|?]; [|right; by right]. destruct Hb as [?| ->]; [by left|right; left].
  - assert (less b b' = false) as Hbb' by (apply Hmin; by left).
    rewrite Forall_forall in Hl.
    intros y [Hy|[->|Hy]%elem_of_cons].
    + apply (Htrans b' b y); auto.
    + apply (Htrans b' b x); auto.
    + apply Hmin. by right.
Qed.
