(* ===== verification/GoRuntime.v ===== *)
(** * The parts of Go the sources use: fixed-width integers, [time.Time] and
    [time.Duration], IEEE-754 floats, string order and [strings.ToLower]

    Integers are [Z] with the wrap-around of their width written out where the
    source computes with them.  Floats are the Standard Library's [spec_float],
    an executable IEEE-754 specification with round-to-nearest-even, at
    precision 24 (float32) and 53 (float64); each Go operation is rounded on its
    own, as on amd64 where the compiler does not fuse a multiply and an add. *)

From Stdlib Require Import SpecFloat.
From Stdlib Require Export FloatClass.
From S2P Require Import Prelude Ordering.

(** ** Machine integers *)

Definition wrap32 (z : Z) : Z := (z + 2^31) mod 2^32 - 2^31.
Definition wrap64 (z : Z) : Z := (z + 2^63) mod 2^64 - 2^63.
Definition wrapu32 (z : Z) : Z := z mod 2^32.
Definition wrapu64 (z : Z) : Z := z mod 2^64.

Definition is_int32 (z : Z) : Prop := -2^31 ≤ z < 2^31.
Definition is_int64 (z : Z) : Prop := -2^63 ≤ z < 2^63.
Definition is_uint32 (z : Z) : Prop := 0 ≤ z < 2^32.
Definition is_uint64 (z : Z) : Prop := 0 ≤ z < 2^64.

Definition MaxInt32 : Z := 2^31 - 1.
Definition MaxInt64 : Z := 2^63 - 1.
Definition MinInt64 : Z := -2^63.
Definition MaxUint32 : Z := 2^32 - 1.

(** A running int32 sum, as [var sum int32; for ... { sum += v }] computes it. *)
Definition sum_int32 (l : list Z) : Z := foldl (λ acc v, wrap32 (acc + v)) 0 l.

(** ** Time

    A [time.Time] is its distance from the zero time (1 January of year 1) in
    nanoseconds; a [time.Duration] is a signed 64-bit count of nanoseconds. *)

Definition Time := Z.
Definition Duration := Z.

Definition time_zero : Time := 0.
Definition time_is_zero (t : Time) : bool := t =? time_zero.
Definition time_before (t u : Time) : bool := t <? u.
Definition time_after (t u : Time) : bool := u <? t.

(** [t.Sub(u)] saturates at the ends of the int64 range. *)
Definition time_sub (t u : Time) : Duration :=
  let d := t - u in
  if MaxInt64 <? d then MaxInt64 else if d <? MinInt64 then MinInt64 else d.

Definition Nanosecond : Duration := 1.
Definition Microsecond : Duration := 1000 * Nanosecond.
Definition Millisecond : Duration := 1000 * Microsecond.
Definition Second : Duration := 1000 * Millisecond.
Definition Minute : Duration := 60 * Second.

(** Seconds from year 1 to the Unix epoch. *)
Definition unix_epoch : Time := 62135596800 * Second.

(** [time.UnixMicro]. *)
Definition time_unix_micro (us : Z) : Time := unix_epoch + us * Microsecond.

(** ** Floats *)

Definition f32 := spec_float.
Definition f64 := spec_float.

Definition f32_zero : f32 := S754_zero false.
Definition f32_mul : f32 → f32 → f32 := SFmul 24 128.
Definition f32_add : f32 → f32 → f32 := SFadd 24 128.
Definition f32_sub : f32 → f32 → f32 := SFsub 24 128.
Definition f32_div : f32 → f32 → f32 := SFdiv 24 128.
Definition f64_add : f64 → f64 → f64 := SFadd 53 1024.
Definition f64_sub : f64 → f64 → f64 := SFsub 53 1024.
Definition f64_div : f64 → f64 → f64 := SFdiv 53 1024.
Definition f64_mul : f64 → f64 → f64 := SFmul 53 1024.

(** Conversions from an integer, rounded to nearest even. *)
Definition f32_of_Z (z : Z) : f32 := binary_normalize 24 128 z 0 false.
Definition f64_of_Z (z : Z) : f64 := binary_normalize 53 1024 z 0 false.

(** [float32(x)] and [float64(x)]. *)
Definition f32_of_f64 (x : f64) : f32 :=
  match x with S754_finite s m e => binary_round 24 128 s m e | _ => x end.
Definition f64_of_f32 (x : f32) : f64 :=
  match x with S754_finite s m e => binary_round 53 1024 s m e | _ => x end.

(** Go's [==], [<] and [<=]; [x != y] is [negb (feq x y)]. *)
Definition feq (x y : spec_float) : bool := SFeqb x y.
Definition flt (x y : spec_float) : bool := SFltb x y.
Definition fle (x y : spec_float) : bool := SFleb x y.

Definition is_nan (x : spec_float) : bool :=
  match x with S754_nan => true | _ => false end.
Definition is_inf (x : spec_float) : bool :=
  match x with S754_infinity _ => true | _ => false end.

Definition f32_one : f32 := f32_of_Z 1.
Definition f64_one : f64 := f64_of_Z 1.

(** The decimal constant [n/d] as a float32 (correctly rounded). *)
Definition f32_lit (n d : Z) : f32 := f32_div (f32_of_Z n) (f32_of_Z d).

(** Three-way comparison of floats; a NaN compares as equal. *)
Definition fcmp (x y : spec_float) : comparison :=
  match SFcompare x y with Some c => c | None => Eq end.

(** ** Strings and bytes *)

(** Go's [<] on strings: bytewise. *)
Definition str_lt (s t : string) : bool := less_of String.compare s t.

Definition str_eqb (s t : string) : bool := bool_decide (s = t).

(** [strings.ToLower] on ASCII. *)
Definition ascii_lower (a : ascii) : ascii :=
  let n := Z.of_N (N_of_ascii a) in
  if (65 <=? n) && (n <=? 90) then ascii_of_N (Z.to_N (n + 32)) else a.
Fixpoint to_lower (s : string) : string :=
  match s with
  | EmptyString => EmptyString
  | String a s => String (ascii_lower a) (to_lower s)
  end.

(** One byte of an integer, as a character of a Go byte string. *)
Definition byte_of_Z (z : Z) : ascii := ascii_of_N (Z.to_N (z mod 256)).
Definition Z_of_byte (a : ascii) : Z := Z.of_N (N_of_ascii a).

(** [binary.BigEndian.PutUint32/64] and [binary.LittleEndian.PutUint32/64]. *)
Fixpoint be_bytes (n : nat) (z : Z) : string :=
  match n with
  | O => EmptyString
  | S n => String (byte_of_Z (Z.shiftr z (8 * Z.of_nat n))) (be_bytes n z)
  end.
Fixpoint le_bytes (n : nat) (z : Z) : string :=
  match n with
  | O => EmptyString
  | S n => String (byte_of_Z z) (le_bytes n (Z.shiftr z 8))
  end.

(** [binary.BigEndian.Uint64] over the first [n] bytes. *)
Fixpoint be_value (acc : Z) (n : nat) (s : string) : Z :=
  match n, s with
  | S n, String a s => be_value (acc * 256 + Z_of_byte a) n s
  | _, _ => acc
  end.

(** ** Facts *)

Lemma wrap32_id z : is_int32 z → wrap32 z = z.
Proof. unfold is_int32, wrap32. intros. rewrite Z.mod_small; lia. Qed.

Lemma wrap32_range z : is_int32 (wrap32 z).
Proof.
  unfold is_int32, wrap32. pose proof (Z.mod_pos_bound (z + 2^31) (2^32)). lia.
Qed.

Lemma wrap64_id z : is_int64 z → wrap64 z = z.
Proof. unfold is_int64, wrap64. intros. rewrite Z.mod_small; lia. Qed.

Lemma wrap32_congr z : ∃ k, wrap32 z = z + k * 2^32.
Proof.
  exists (- ((z + 2^31) / 2^32)). unfold wrap32.
  pose proof (Z.div_mod (z + 2^31) (2^32)). lia.
Qed.

Lemma wrap32_period a k : wrap32 (a + k * 2^32) = wrap32 a.
Proof. unfold wrap32. rewrite <-(Z.mod_add (a + 2^31) k (2^32)) by lia. do 2 f_equal. lia. Qed.

Lemma wrap32_add_l a b : wrap32 (wrap32 a + b) = wrap32 (a + b).
Proof.
  destruct (wrap32_congr a) as [k ->]. rewrite <-(wrap32_period (a + b) k). f_equal. lia.
Qed.

Lemma wrap32_add_r a b : wrap32 (a + wrap32 b) = wrap32 (a + b).
Proof. rewrite Z.add_comm, wrap32_add_l. f_equal. lia. Qed.

Lemma time_sub_range t u : is_int64 (time_sub t u).
Proof.
  unfold time_sub, is_int64, MaxInt64, MinInt64.
  repeat case_match; rewrite ?Z.ltb_lt, ?Z.ltb_ge in *; lia.
Qed.

Lemma time_sub_le_0 t u : time_sub t u ≤ 0 ↔ t ≤ u.
Proof.
  unfold time_sub, MaxInt64, MinInt64.
  repeat case_match; rewrite ?Z.ltb_lt, ?Z.ltb_ge in *; lia.
Qed.

(** Saturation does not disturb a comparison with an int64 threshold. *)
Lemma time_sub_ge t u d : is_int64 d → d ≤ time_sub t u ↔ d ≤ t - u ∨ d = MinInt64.
Proof.
  unfold time_sub, is_int64, MaxInt64, MinInt64. intros.
  repeat case_match; rewrite ?Z.ltb_lt, ?Z.ltb_ge in *; lia.
Qed.

Lemma time_sub_ge_pos t u d : 0 < d → is_int64 d → d ≤ time_sub t u ↔ d ≤ t - u.
Proof.
  intros Hd Hi. rewrite time_sub_ge by done. unfold MinInt64. lia.
Qed.

Lemma str_eqb_eq s t : str_eqb s t = true ↔ s = t.
Proof. unfold str_eqb. by rewrite bool_decide_eq_true. Qed.

Lemma str_eqb_neq s t : str_eqb s t = false ↔ s ≠ t.
Proof. unfold str_eqb. by rewrite bool_decide_eq_false. Qed.

Lemma str_eqb_refl s : str_eqb s s = true.
Proof. by apply str_eqb_eq. Qed.

Lemma str_cmp_eq s t : String.compare s t = Eq ↔ s = t.
Proof.
  split; [apply String.compare_eq_iff|]. intros ->.
  pose proof (String.compare_antisym t t). by destruct (String.compare t t).
Qed.
