(* ===== verification/Floats.v ===== *)
(** * Order facts on IEEE-754 floats

    Go's float comparison is a total preorder on the values that are not NaN;
    [fkey] is its sort key.  Also: the sign facts the ranking guards rely on.

    When float arithmetic stays away from NaN, zero and infinity

    Facts about the rounding function of IEEE arithmetic that the rate computations
    rely on: rounding a non-negative mantissa never gives NaN, rounding a value above
    the underflow threshold never gives zero, and the conversion of a machine integer
    is finite. *)

From Stdlib Require Import SpecFloat.
From S2P Require Import Prelude Ordering GoRuntime.

Lemma SFcompare_antisym x y : SFcompare y x = CompOpp <$> SFcompare x y.
Proof.
  destruct x as [[]|[]| |[] m1 e1], y as [[]|[]| |[] m2 e2]; try done; simpl;
    rewrite (Z.compare_antisym e1 e2); destruct (e1 ?= e2); simpl; try done;
    by rewrite (Pos.compare_cont_antisym m1 m2 Eq).
Qed.

Definition not_nan (x : spec_float) : Prop := is_nan x = false.

(** Class, exponent and mantissa, signed so that they compare lexicographically. *)
Definition fkey (x : spec_float) : Z * (Z * Z) :=
  match x with
  | S754_infinity true => (-2, (0, 0))
  | S754_finite true m e => (-1, (- e, Z.neg m))
  | S754_zero _ | S754_nan => (0, (0, 0))
  | S754_finite false m e => (1, (e, Z.pos m))
  | S754_infinity false => (2, (0, 0))
  end.

Definition fkeyCmp : spec_float → spec_float → comparison :=
  cmp_lex (cmp_on (λ x, (fkey x).1) Z.compare)
 (cmp_lex (cmp_on (λ x, (fkey x).2.1) Z.compare)
          (cmp_on (λ x, (fkey x).2.2) Z.compare)).

#[export] Instance fkeyCmp_total : TotalCmp (λ _, True) fkeyCmp.
Proof.
  apply total_cmp_lex; [apply (total_cmp_on _ (λ _ : Z, True)), _|].
  apply total_cmp_lex; apply (total_cmp_on _ (λ _ : Z, True)), _.
Qed.

Lemma fcmp_fkey x y : not_nan x → not_nan y → fcmp x y = fkeyCmp x y.
Proof.
  unfold not_nan, fcmp, fkeyCmp, cmp_lex, cmp_on.
  destruct x as [[]|[]| |[] m1 e1], y as [[]|[]| |[] m2 e2]; simpl; try done; intros _ _.
  rewrite Z.compare_opp, (Z.compare_antisym e1 e2). by destruct (e1 ?= e2).
Qed.

#[export] Instance fcmp_total : TotalCmp not_nan fcmp.
Proof.
  pose proof fkeyCmp_total as [Ha Ht He]. split.
  - intros x y. unfold fcmp. rewrite (SFcompare_antisym x y). by destruct (SFcompare x y) as [[]|].
  - intros x y z Hx Hy Hz. rewrite !fcmp_fkey by done. by apply Ht.
  - intros x y z Hx Hy Hz. rewrite !fcmp_fkey by done. by apply He.
Qed.

Lemma feq_fcmp x y : not_nan x → not_nan y → feq x y = match fcmp x y with Eq => true | _ => false end.
Proof.
  unfold not_nan, feq, SFeqb, fcmp. intros.
  destruct x as [[]|[]| |[] ? ?], y as [[]|[]| |[] ? ?]; done.
Qed.

(** [if x != y { return x > y }; rest]: one descending lexicographic step. *)
Lemma less_step_float_desc x y (rest : bool) :
  not_nan x → not_nan y →
  (if negb (feq x y) then flt y x else rest) =
    match fcmp y x with Lt => true | Gt => false | Eq => rest end.
Proof.
  intros Hx Hy. rewrite feq_fcmp by done. unfold flt, SFltb, fcmp.
  rewrite (SFcompare_antisym x y).
  destruct x as [[]|[]| |[] m1 e1], y as [[]|[]| |[] m2 e2]; try done.
  all: destruct (SFcompare _ _) as [[]|]; done.
Qed.

(** [if x != y { return x < y }; rest]: one ascending lexicographic step. *)
Lemma less_step_float_asc x y (rest : bool) :
  not_nan x → not_nan y →
  (if negb (feq x y) then flt x y else rest) =
    match fcmp x y with Lt => true | Gt => false | Eq => rest end.
Proof.
  intros Hx Hy. rewrite feq_fcmp by done. unfold flt, SFltb, fcmp.
  destruct x as [[]|[]| |[] m1 e1], y as [[]|[]| |[] m2 e2]; try done.
  all: destruct (SFcompare _ _) as [[]|]; done.
Qed.

(** [<] is asymmetric, NaN included. *)
Lemma flt_asym x y : flt x y = true → flt y x = false.
Proof.
  unfold flt, SFltb. rewrite (SFcompare_antisym x y). by destruct (SFcompare x y) as [[]|].
Qed.

(** Two values that are not NaN compare. *)
Lemma SFcompare_some x y : not_nan x → not_nan y → SFcompare x y ≠ None.
Proof. unfold not_nan. by destruct x as [[]|[]| |[] ? ?], y as [[]|[]| |[] ? ?]. Qed.

(** A clamp: [if x < lo { lo } else if x > hi { hi } else { x }]. *)
Lemma clamp_bounds lo hi x :
  not_nan x → not_nan lo → not_nan hi → fle lo lo = true → fle hi hi = true → fle lo hi = true →
  let y := if flt x lo then lo else if flt hi x then hi else x in
  fle lo y = true ∧ fle y hi = true.
Proof.
  intros Hx Hlo Hhi Hll Hhh Hlh y. unfold y. clear y.
  destruct (flt x lo) eqn:E0; [done|]. destruct (flt hi x) eqn:E1; [done|].
  unfold flt, fle, SFltb, SFleb in *.
  pose proof (SFcompare_some x lo Hx Hlo). pose proof (SFcompare_some hi x Hhi Hx).
  rewrite (SFcompare_antisym x lo), (SFcompare_antisym hi x).
  by destruct (SFcompare x lo) as [[]|], (SFcompare hi x) as [[]|].
Qed.

(** Not less and not greater: the maximum of two readings. *)
Lemma fle_flip x y : not_nan x → not_nan y → flt x y = false → fle y x = true.
Proof.
  intros Hx Hy. unfold flt, fle, SFltb, SFleb. rewrite (SFcompare_antisym x y).
  pose proof (SFcompare_some x y Hx Hy). by destruct (SFcompare x y) as [[]|].
Qed.

Lemma flt_fle x y : flt x y = true → fle x y = true.
Proof. unfold flt, fle, SFltb, SFleb. by destruct (SFcompare x y) as [[]|]. Qed.

Lemma fle_fcmp x y : not_nan x → not_nan y → fle x y = true ↔ fcmp x y ≠ Gt.
Proof.
  intros Hx Hy. unfold fle, SFleb, fcmp. pose proof (SFcompare_some x y Hx Hy).
  by destruct (SFcompare x y) as [[]|].
Qed.

Lemma fcmp_antisym x y : fcmp y x = CompOpp (fcmp x y).
Proof. apply (cmp_antisym (P:=not_nan)). Qed.

Lemma fle_trans x y z :
  not_nan x → not_nan y → not_nan z → fle x y = true → fle y z = true → fle x z = true.
Proof.
  intros Hx Hy Hz. rewrite !fle_fcmp by done. intros Hxy Hyz.
  destruct (fcmp x y) eqn:E1; [| |done].
  { by rewrite (cmp_eq_l (P:=not_nan) x y z). }
  destruct (fcmp y z) eqn:E2; [| |done].
  - assert (fcmp z y = Eq) as E3 by (rewrite (fcmp_antisym y z), E2; done).
    rewrite (fcmp_antisym z x), (cmp_eq_l (P:=not_nan) z y x Hz Hy Hx E3), (fcmp_antisym x y), E1. done.
  - by rewrite (cmp_trans (P:=not_nan) x y z).
Qed.

Lemma fle_refl x : not_nan x → fle x x = true.
Proof.
  intros Hx. apply fle_fcmp; [done..|]. pose proof (fcmp_antisym x x).
  by destruct (fcmp x x).
Qed.

Section round.
Context (prec emax : Z) (Hprec : 1 < prec).

Lemma iter_pos_nat {A : Type} (f : A → A) p (x : A) : SpecFloat.iter_pos f p x = Nat.iter (Pos.to_nat p) f x.
Proof.
  revert x. induction p as [p IH|p IH|]; intros x; cbn [SpecFloat.iter_pos]; [| |done].
  - rewrite !IH, <-Nat.iter_add, Nat.iter_swap, <-Nat.iter_succ. f_equal. lia.
  - rewrite !IH, <-Nat.iter_add. f_equal. lia.
Qed.

Lemma shr_1_m r : 0 ≤ shr_m r → shr_m (shr_1 r) = shr_m r / 2.
Proof.
  destruct r as [m r s]. simpl. intros Hm. rewrite <-Z.div2_div.
  destruct m as [|[p|p|]|p]; simpl; try done; lia.
Qed.

Lemma shr_iter_m n r : 0 ≤ shr_m r → shr_m (Nat.iter n shr_1 r) = shr_m r / 2 ^ Z.of_nat n.
Proof.
  intros Hr. induction n as [|n IH]; [simpl; by rewrite Z.div_1_r|].
  assert (0 ≤ shr_m (Nat.iter n shr_1 r)) as Hn.
  { rewrite IH. apply Z.div_pos; lia. }
  rewrite Nat.iter_succ, shr_1_m, IH by done. rewrite Z.div_div by lia. f_equal.
  rewrite Nat2Z.inj_succ, Z.pow_succ_r by lia. lia.
Qed.

(** The number of bits shifted out. *)
Definition shift_of (m e : Z) : Z := Z.max 0 (fexp prec emax (Zdigits2 m + e) - e).

Lemma pow_shift_pos m e : 0 < 2 ^ shift_of m e.
Proof. apply Z.pow_pos_nonneg; unfold shift_of; lia. Qed.

Lemma shr_fexp_spec m e l :
  0 ≤ m →
  let '(r, e') := shr_fexp prec emax m e l in
  shr_m r = m / 2 ^ shift_of m e ∧ e' = e + shift_of m e.
Proof.
  intros Hm. unfold shr_fexp, shr, shift_of. set (n := _ - e).
  assert (shr_m (shr_record_of_loc m l) = m) as Hl by (by destruct l as [|[]]).
  destruct n as [|p|p]; simpl.
  - rewrite Z.div_1_r. split; [done|lia].
  - rewrite iter_pos_nat, shr_iter_m, Hl by lia. rewrite positive_nat_Z. done.
  - rewrite Z.div_1_r. split; [done|lia].
Qed.

Lemma digits2_log2 p : Z.pos (digits2_pos p) = Z.log2 (Z.pos p) + 1.
Proof.
  induction p as [p IH|p IH|]; [| |done]; simpl digits2_pos; rewrite Pos2Z.inj_succ, IH.
  - rewrite Pos2Z.inj_xI, Z.log2_succ_double by lia. lia.
  - rewrite Pos2Z.inj_xO, Z.log2_double by lia. lia.
Qed.

Lemma Zdigits2_log2 m : 0 < m → Zdigits2 m = Z.log2 m + 1.
Proof. destruct m; try lia. intros _. apply digits2_log2. Qed.

Lemma round_even_bounds m l : m ≤ round_nearest_even m l ≤ m + 1.
Proof. unfold round_nearest_even. destruct l as [|[]]; try lia. destruct (Z.even m); lia. Qed.

Abbreviation Emin := (emin prec emax).

Lemma fexp_max e : fexp prec emax e = Z.max (e - prec) Emin.
Proof. done. Qed.

(** Rounding a non-negative mantissa does not give NaN. *)
Lemma round_not_nan s m e l : 0 ≤ m → not_nan (binary_round_aux prec emax s m e l).
Proof.
  intros Hm. unfold binary_round_aux. pose proof (shr_fexp_spec m e l Hm) as H1.
  destruct (shr_fexp prec emax m e l) as [r e']. destruct H1 as [Hr _].
  pose proof (round_even_bounds (shr_m r) (loc_of_shr_record r)) as Hb.
  assert (0 ≤ shr_m r) by (rewrite Hr; apply Z.div_pos; [lia|apply pow_shift_pos]).
  set (m2 := round_nearest_even _ _) in *.
  pose proof (shr_fexp_spec m2 e' loc_Exact ltac:(lia)) as H2.
  destruct (shr_fexp prec emax m2 e' loc_Exact) as [r2 e2]. destruct H2 as [Hr2 _].
  assert (0 ≤ shr_m r2) by (rewrite Hr2; apply Z.div_pos; [lia|apply pow_shift_pos]).
  destruct (shr_m r2); [done| |lia]. by destruct (_ <=? _).
Qed.

(** Rounding a value that reaches the underflow threshold: positive, and finite while the
    exponent has room. *)
Lemma round_positive s m e l :
  0 < m → Emin < Z.log2 m + 1 + e →
  (∃ m' e', binary_round_aux prec emax s m e l = S754_finite s m' e') ∨
  binary_round_aux prec emax s m e l = S754_infinity s ∧
    emax - prec ≤ Z.max e (Z.max (Z.log2 m + 1 + e - prec) Emin).
Proof.
  intros Hm Hmin. unfold binary_round_aux. pose proof (shr_fexp_spec m e l ltac:(lia)) as H1.
  destruct (shr_fexp prec emax m e l) as [r e']. destruct H1 as [Hr He'].
  unfold shift_of in *. rewrite fexp_max, Zdigits2_log2 in * by done.
  set (n := Z.max 0 _) in *. set (d := Z.log2 m) in *.
  assert (2 ^ d ≤ m < 2 ^ (d + 1)) as Hd.
  { pose proof (Z.log2_spec m Hm). unfold d. by rewrite Z.add_1_r. }
  assert (0 ≤ d) by apply Z.log2_nonneg.
  assert (1 ≤ shr_m r) as Hr1.
  { rewrite Hr. apply Z.div_le_lower_bound; [apply Z.pow_pos_nonneg; lia|]. rewrite Z.mul_1_r.
    etransitivity; [|apply Hd]. apply Z.pow_le_mono_r; lia. }
  assert (shr_m r < 2 ^ prec) as Hr2.
  { rewrite Hr. apply Z.div_lt_upper_bound; [apply Z.pow_pos_nonneg; lia|]. rewrite <-Z.pow_add_r by lia.
    eapply Z.lt_le_trans; [apply Hd|]. apply Z.pow_le_mono_r; lia. }
  pose proof (round_even_bounds (shr_m r) (loc_of_shr_record r)) as Hb.
  set (m2 := round_nearest_even _ _) in *.
  pose proof (shr_fexp_spec m2 e' loc_Exact ltac:(lia)) as H2.
  destruct (shr_fexp prec emax m2 e' loc_Exact) as [r2 e2]. destruct H2 as [Hm2 He2].
  unfold shift_of in *. rewrite fexp_max, Zdigits2_log2 in * by lia.
  set (d2 := Z.log2 m2) in *.
  assert (0 ≤ d2) by apply Z.log2_nonneg.
  assert (d2 ≤ prec) as Hd2.
  { unfold d2. rewrite <-(Z.log2_pow2 prec) by lia. apply Z.log2_le_mono. lia. }
  assert (2 ^ d2 ≤ m2) as Hd2l.
  { unfold d2. apply Z.log2_spec. lia. }
  set (n2 := Z.max 0 _) in *.
  assert (1 ≤ shr_m r2) as Hr3.
  { rewrite Hm2. apply Z.div_le_lower_bound; [apply Z.pow_pos_nonneg; lia|]. rewrite Z.mul_1_r.
    etransitivity; [|apply Hd2l]. apply Z.pow_le_mono_r; lia. }
  destruct (shr_m r2) as [|m3|]; [lia| |lia].
  destruct (Z.leb_spec e2 (emax - prec)); [left; eauto|right]. split; [done|]. lia.
Qed.
End round.

(** ** Operations *)

Definition finite (v : f64) : bool := negb (is_nan v || is_inf v).

Lemma finite_not_nan v : finite v = true → not_nan v.
Proof. unfold finite, not_nan. by destruct (is_nan v). Qed.

Lemma normalize_not_nan prec emax m e s : not_nan (binary_normalize prec emax m e s).
Proof.
  destruct m as [|p|p]; simpl; [done| |]; unfold binary_round;
    destruct (shl_align _ _ _); by apply round_not_nan.
Qed.

Lemma f64_add_not_nan x y : finite x = true → finite y = true → not_nan (f64_add x y).
Proof.
  unfold finite, f64_add. destruct x as [[]|[]| |[] m1 e1], y as [[]|[]| |[] m2 e2]; try done;
    intros _ _; unfold SFadd; by apply normalize_not_nan.
Qed.

Lemma f64_sub_not_nan x y : finite x = true → finite y = true → not_nan (f64_sub x y).
Proof.
  unfold finite, f64_sub. destruct x as [[]|[]| |[] m1 e1], y as [[]|[]| |[] m2 e2]; try done;
    intros _ _; unfold SFsub; by apply normalize_not_nan.
Qed.

Lemma f64_mul_not_nan x y : finite x = true → finite y = true → not_nan (f64_mul x y).
Proof.
  unfold finite, f64_mul. destruct x as [[]|[]| |[] m1 e1], y as [[]|[]| |[] m2 e2]; try done;
    intros _ _; cbn [SFmul xorb]; by apply round_not_nan.
Qed.

Lemma div_core_nonneg m1 e1 m2 e2 :
  0 ≤ (SFdiv_core_binary 53 1024 (Z.pos m1) e1 (Z.pos m2) e2).1.1.
Proof.
  unfold SFdiv_core_binary. set (s := _ - _ - _).
  set (m' := match s with Z0 => _ | _ => _ end).
  assert (0 ≤ m') as Hm'.
  { unfold m'. destruct s; [lia| |lia]. apply Z.shiftl_nonneg. lia. }
  pose proof (Z.div_pos m' (Z.pos m2) Hm' ltac:(lia)) as Hq. unfold Z.div in Hq.
  by destruct (Z.div_eucl m' (Z.pos m2)).
Qed.

(** A quotient by a finite number other than zero. *)
Lemma f64_div_not_nan x s m e : not_nan x → not_nan (f64_div x (S754_finite s m e)).
Proof.
  unfold not_nan, f64_div. destruct x as [s1|s1| |s1 m1 e1]; try done. intros _.
  simpl SFdiv. pose proof (div_core_nonneg m1 e1 m e) as H.
  destruct (SFdiv_core_binary _ _ _ _ _ _) as [[mz ez] lz]. by apply round_not_nan.
Qed.

Lemma shl_align_spec m e e' :
  let '(mz, ez) := shl_align m e e' in
  ez = Z.min e e' ∧ Z.pos mz = Z.pos m * 2 ^ (e - ez).
Proof.
  unfold shl_align. destruct (e' - e) as [|p|p] eqn:E.
  - rewrite Z.min_l, Z.sub_diag by lia. lia.
  - rewrite Z.min_l, Z.sub_diag by lia. lia.
  - rewrite Z.min_r by lia. split; [done|]. replace (e - e') with (Z.pos p) by lia.
    clear E. induction p as [|p IH] using Pos.peano_ind; [simpl; lia|].
    rewrite Pos.iter_succ, Pos2Z.inj_xO, IH, Pos2Z.inj_succ, Z.pow_succ_r by lia. lia.
Qed.

(** A positive machine integer converts to a positive finite float. *)
Lemma f64_of_Z_finite z : 0 < z < 2 ^ 900 → ∃ m e, f64_of_Z z = S754_finite false m e.
Proof.
  intros [Hz Hlt]. destruct z as [|p|]; [lia| |lia].
  assert (Z.log2 (Z.pos p) < 900) as Hlog by (apply Z.log2_lt_pow2; lia).
  pose proof (Z.log2_nonneg (Z.pos p)) as Hlog0.
  unfold f64_of_Z, binary_normalize, binary_round.
  pose proof (shl_align_spec p 0 (fexp 53 1024 (Z.pos (digits2_pos p) + 0))) as Hs.
  destruct (shl_align p 0 _) as [mz ez]. destruct Hs as [Hez Hmz].
  rewrite digits2_log2, fexp_max in Hez. unfold emin in Hez.
  assert (Z.log2 (Z.pos mz) + ez = Z.log2 (Z.pos p)) as Hlz.
  { rewrite Hmz, Z.log2_mul_pow2 by lia. lia. }
  destruct (round_positive 53 1024 ltac:(lia) false (Z.pos mz) ez loc_Exact) as [H|[_ H]];
    [lia|unfold emin; lia|done|]. unfold emin in H. lia.
Qed.

Lemma f64_of_Z_neg_finite z : - 2 ^ 900 < z < 2 ^ 900 → finite (f64_of_Z z) = true.
Proof.
  intros Hz. destruct z as [|p|p]; [done| |].
  - destruct (f64_of_Z_finite (Z.pos p)) as (m & e & ->); [lia|done].
  - destruct (f64_of_Z_finite (Z.pos p)) as (m & e & E); [lia|].
    unfold f64_of_Z, binary_normalize, binary_round, binary_round_aux in *.
    destruct (shl_align p 0 _) as [mz ez]. destruct (shr_fexp _ _ _ ez _) as [r e1].
    destruct (shr_fexp _ _ _ e1 _) as [r2 e2]. destruct (shr_m r2); try done.
    by destruct (e2 <=? _).
Qed.

(** ** Non-negative values *)

Definition nonneg_f (x : f64) : Prop :=
  match x with S754_zero s | S754_infinity s | S754_finite s _ _ => s = false | S754_nan => False end.

Lemma nonneg_not_nan x : nonneg_f x → not_nan x.
Proof. by destruct x. Qed.

Lemma round_nonneg m e l : 0 ≤ m → nonneg_f (binary_round_aux 53 1024 false m e l).
Proof.
  intros Hm. pose proof (round_not_nan 53 1024 false m e l Hm) as Hn. revert Hn.
  unfold binary_round_aux. destruct (shr_fexp _ _ m e l) as [r e1].
  destruct (shr_fexp _ _ _ e1 _) as [r2 e2]. destruct (shr_m r2); [done| |done].
  by destruct (_ <=? _).
Qed.

Lemma f64_of_Z_nonneg z : 0 ≤ z → nonneg_f (f64_of_Z z).
Proof.
  intros Hz. destruct z as [|p|]; [done| |lia]. unfold f64_of_Z, binary_normalize, binary_round.
  destruct (shl_align _ _ _). by apply round_nonneg.
Qed.

Lemma f64_add_nonneg x y : nonneg_f x → nonneg_f y → nonneg_f (f64_add x y).
Proof.
  destruct x as [[]|[]| |[] m1 e1], y as [[]|[]| |[] m2 e2]; try done. intros _ _.
  unfold f64_add, SFadd. cbn [cond_Zopp]. rewrite <-Pos2Z.inj_add.
  unfold binary_normalize, binary_round. destruct (shl_align _ _ _). by apply round_nonneg.
Qed.

Lemma f64_mul_nonneg x y :
  nonneg_f x → nonneg_f y → finite x = true → finite y = true → nonneg_f (f64_mul x y).
Proof.
  destruct x as [[]|[]| |[] m1 e1], y as [[]|[]| |[] m2 e2]; try done. intros _ _ _ _.
  by apply round_nonneg.
Qed.

Lemma f64_div_nonneg x m e : nonneg_f x → nonneg_f (f64_div x (S754_finite false m e)).
Proof.
  destruct x as [[]|[]| |[] m1 e1]; try done. intros _. unfold f64_div, SFdiv.
  pose proof (div_core_nonneg m1 e1 m e) as H.
  destruct (SFdiv_core_binary _ _ _ _ _ _) as [[mz ez] lz]. by apply round_nonneg.
Qed.
