(* ===== verification/GoText.v ===== *)
(** * The parts of Go's [strings] and [strconv] the program uses

    Strings are byte strings.  [TrimSpace] and [Cut] are byte-exact (the Unicode
    white space of [unicode.IsSpace] in its UTF-8 encoding), [EqualFold] is used
    only against ASCII words without letters that fold outside ASCII.

    Prefixes, suffixes, searching and host:port splitting

    More of Go's [strings], [strconv] and [net], on byte strings.  Searching functions that
    return an index are given as the cut at that index: [strings.Index], [LastIndex] and
    [IndexAny] are only ever used to slice the string they searched.

    JSON strings as encoding/json writes them *)

From Stdlib Require Import SpecFloat.
From stdpp Require Import pretty.
From S2P Require Import Prelude Ordering GoRuntime.

(** ** Cutting and splitting *)

(** [strings.Cut] at a one-byte separator: the parts around the first occurrence. *)
Fixpoint Cut (sep : ascii) (s : string) : option (string * string) :=
  match s with
  | EmptyString => None
  | String a s =>
      if bool_decide (a = sep) then Some (EmptyString, s)
      else '(l, r) ← Cut sep s; Some (String a l, r)
  end.

(** [strings.Split] at a one-byte separator: never empty. *)
Fixpoint Split (sep : ascii) (s : string) : list string :=
  match s with
  | EmptyString => [EmptyString]
  | String a s =>
      if bool_decide (a = sep) then EmptyString :: Split sep s
      else match Split sep s with
           | [] => [String a EmptyString]
           | w :: ws => String a w :: ws
           end
  end.

(** ** White space *)

(** The encodings of the white space of [unicode.IsSpace], as bytes. *)
Definition spaceRunes : list (list Z) :=
  [[9]; [10]; [11]; [12]; [13]; [32]; [194; 133]; [194; 160]; [225; 154; 128]] ++
  ((λ b, [226; 128; b]) <$> [128; 129; 130; 131; 132; 133; 134; 135; 136; 137; 138; 168; 169; 175]) ++
  [[226; 129; 159]; [227; 128; 128]].

Fixpoint hasPrefix (p l : list Z) : bool :=
  match p, l with
  | [], _ => true
  | a :: p, b :: l => (a =? b) && hasPrefix p l
  | _ :: _, [] => false
  end.

(** The length of the first rune of [runes] the bytes start with, if any. *)
Definition leadRune (runes : list (list Z)) (l : list Z) : nat :=
  match List.find (λ r, hasPrefix r l) runes with Some r => length r | None => 0%nat end.

(** Drop leading runes; each round drops at least one byte, so the length is fuel enough. *)
Fixpoint trimLoop (runes : list (list Z)) (fuel : nat) (l : list Z) : list Z :=
  match fuel with
  | O => l
  | S fuel => match leadRune runes l with O => l | n => trimLoop runes fuel (drop n l) end
  end.

Definition trimBytes (runes : list (list Z)) (l : list Z) : list Z := trimLoop runes (length l) l.

Fixpoint bytesOf (s : string) : list Z :=
  match s with EmptyString => [] | String a s => Z_of_byte a :: bytesOf s end.
Fixpoint ofBytes (l : list Z) : string :=
  match l with [] => EmptyString | z :: l => String (byte_of_Z z) (ofBytes l) end.

Definition trimRightBytes (l : list Z) : list Z :=
  reverse (trimBytes (reverse <$> spaceRunes) (reverse l)).

(** [strings.TrimSpace]. *)
Definition TrimSpace (s : string) : string :=
  ofBytes (trimRightBytes (trimBytes spaceRunes (bytesOf s))).

(** [strings.EqualFold] against an ASCII word. *)
Definition EqualFold (s t : string) : bool := str_eqb (to_lower s) (to_lower t).

(** ** Numbers *)

Definition digitOf (a : ascii) : option Z :=
  let n := Z_of_byte a in if (48 <=? n) && (n <=? 57) then Some (n - 48) else None.

(** The value of a string of decimal digits, after [acc]. *)
Fixpoint digitsValue (acc : Z) (s : string) : option Z :=
  match s with
  | EmptyString => Some acc
  | String a s => d ← digitOf a; digitsValue (10 * acc + d) s
  end.

Definition parseUint (s : string) : option Z :=
  match s with EmptyString => None | _ => digitsValue 0 s end.

(** [strconv.ParseInt(s, 10, 64)]; [None] is a syntax or range error. *)
Definition ParseInt64 (s : string) : option Z :=
  let '(neg, body) :=
    match s with
    | String a rest => if bool_decide (a = "+"%char) then (false, rest)
                       else if bool_decide (a = "-"%char) then (true, rest) else (false, s)
    | EmptyString => (false, s)
    end in
  v ← parseUint body;
  let v := if (neg : bool) then - v else v in
  if (MinInt64 <=? v) && (v <=? MaxInt64) then Some v else None.

(** The double quote, which a literal cannot contain. *)
Definition dq : string := String (byte_of_Z 34) EmptyString.

(** ** Prefixes and suffixes *)

Fixpoint CutPrefix (p s : string) : option string :=
  match p, s with
  | EmptyString, _ => Some s
  | String a p, String b s => if bool_decide (a = b) then CutPrefix p s else None
  | String _ _, EmptyString => None
  end.

Fixpoint CutSuffix (suf s : string) : option string :=
  if bool_decide (s = suf) then Some EmptyString
  else match s with
       | EmptyString => None
       | String a s => String a <$> CutSuffix suf s
       end.

Definition HasPrefix (s p : string) : bool := bool_decide (is_Some (CutPrefix p s)).
Definition HasSuffix (s suf : string) : bool := bool_decide (is_Some (CutSuffix suf s)).
Definition TrimPrefix (s p : string) : string := default s (CutPrefix p s).
Definition TrimSuffix (s suf : string) : string := default s (CutSuffix suf s).

(** ** Searching *)

(** The cut at the first occurrence of [sep]: [i := strings.Index(s, sep)], [s[:i]] and
    [s[i+len(sep):]]. *)
Fixpoint CutStr (sep s : string) : option (string * string) :=
  match CutPrefix sep s with
  | Some r => Some (EmptyString, r)
  | None => match s with
            | EmptyString => None
            | String a s => '(l, r) ← CutStr sep s; Some (String a l, r)
            end
  end.

Definition Contains (s sub : string) : bool := bool_decide (is_Some (CutStr sub s)).

(** The cut at the last occurrence of a byte. *)
Fixpoint CutLast (c : ascii) (s : string) : option (string * string) :=
  match s with
  | EmptyString => None
  | String a s =>
      match CutLast c s with
      | Some (l, r) => Some (String a l, r)
      | None => if bool_decide (a = c) then Some (EmptyString, s) else None
      end
  end.

Fixpoint str_existsb (p : ascii → bool) (s : string) : bool :=
  match s with EmptyString => false | String a s => p a || str_existsb p s end.

(** [strings.Contains(s, c)] and [strings.ContainsRune] for an ASCII byte. *)
Definition ContainsByte (s : string) (c : ascii) : bool := str_existsb (λ a, bool_decide (a = c)) s.

(** [if i := strings.IndexAny(s, cs); i >= 0 { s = s[:i] }]. *)
Fixpoint takeUntil (p : ascii → bool) (s : string) : string :=
  match s with
  | EmptyString => EmptyString
  | String a s => if p a then EmptyString else String a (takeUntil p s)
  end.

(** [strings.Count(s, c)]. *)
Fixpoint countByte (c : ascii) (s : string) : Z :=
  match s with
  | EmptyString => 0
  | String a s => (if bool_decide (a = c) then 1 else 0) + countByte c s
  end.

(** [strings.ContainsFunc(s, f)] for a set of runes given by their encodings: a lead byte is
    never a continuation byte, so an occurrence of an encoding is an occurrence of the rune. *)
Fixpoint containsRune (runes : list (list Z)) (l : list Z) : bool :=
  match l with
  | [] => false
  | _ :: l' => bool_decide (leadRune runes l ≠ 0%nat) || containsRune runes l'
  end.

(** [unicode.IsControl]: U+0000 to U+001F and U+007F to U+009F. *)
Definition controlRunes : list (list Z) :=
  ((λ b, [b]) <$> seqZ 0 32) ++ [[127]] ++ ((λ b, [194; b]) <$> seqZ 128 32).

(** [strings.ToLower].  Exact on ASCII letters and on the two other runes whose lower case is
    ASCII (U+0130 and U+212A); every other rune stays outside ASCII, here unchanged. *)
Fixpoint ToLower (s : string) : string :=
  match s with
  | String a (String b (String c s' as s2) as s1) =>
      let '(x, y, z) := (Z_of_byte a, Z_of_byte b, Z_of_byte c) in
      if (x =? 226) && (y =? 132) && (z =? 170) then String (byte_of_Z 107) (ToLower s')
      else if (x =? 196) && (y =? 176) then String (byte_of_Z 105) (ToLower s2)
      else String (ascii_lower a) (ToLower s1)
  | String a (String b s' as s1) =>
      if (Z_of_byte a =? 196) && (Z_of_byte b =? 176) then String (byte_of_Z 105) (ToLower s')
      else String (ascii_lower a) (ToLower s1)
  | String a s => String (ascii_lower a) (ToLower s)
  | EmptyString => EmptyString
  end.

(** [strings.Join]. *)
Fixpoint Join (sep : string) (l : list string) : string :=
  match l with
  | [] => EmptyString
  | [s] => s
  | s :: l => s +:+ sep +:+ Join sep l
  end.

(** ** Numbers *)

(** [strconv.ParseUint(s, 10, 16)]. *)
Definition ParseUint16 (s : string) : option Z :=
  v ← parseUint s; if v <=? 65535 then Some v else None.

(** [strconv.ParseInt(s, 10, 32)]. *)
Definition ParseInt32 (s : string) : option Z :=
  v ← ParseInt64 s; if (-2147483648 <=? v) && (v <=? 2147483647) then Some v else None.

(** [strconv.FormatInt(v, 10)], [strconv.Itoa] and [%d]. *)
Definition FormatInt (v : Z) : string := pretty v.

(** [strconv.ParseBool]. *)
Definition ParseBool (s : string) : option bool :=
  if bool_decide (s ∈ ["1"; "t"; "T"; "true"; "TRUE"; "True"]) then Some true
  else if bool_decide (s ∈ ["0"; "f"; "F"; "false"; "FALSE"; "False"]) then Some false
  else None.

(** ** net.SplitHostPort *)

Definition SplitHostPort (hostport : string) : option (string * string) :=
  match CutLast ":" hostport with
  | None => None
  | Some (before, port) =>
      match CutPrefix "[" hostport with
      | Some rest =>
          match Cut "]" rest with
          | None => None
          | Some (host, tail) =>
              if bool_decide (tail = String ":" port) then
                if ContainsByte rest "[" || ContainsByte tail "]" then None else Some (host, port)
              else None
          end
      | None =>
          if ContainsByte before ":" || ContainsByte hostport "[" || ContainsByte hostport "]" then None
          else Some (before, port)
      end
  end.

(** ** Facts *)

Lemma str_app_nil_r (s : string) : s +:+ EmptyString = s.
Proof. induction s as [|a s IH]; [done|]. change (String a (s +:+ EmptyString) = String a s). by rewrite IH. Qed.

Lemma str_app_cons a s t : String a s +:+ t = String a (s +:+ t).
Proof. done. Qed.

Lemma str_app_inv_head (p s t : string) : p +:+ s = p +:+ t → s = t.
Proof. induction p as [|a p IH]; [done|]. rewrite !str_app_cons. intros [= H]. auto. Qed.

Lemma CutPrefix_spec p s r : CutPrefix p s = Some r ↔ s = p +:+ r.
Proof.
  revert s. induction p as [|a p IH]; intros s; simpl.
  - split; [by intros [= <-]|by intros ->].
  - destruct s as [|b s]; [by rewrite str_app_cons|]. rewrite str_app_cons. case_bool_decide as E.
    + subst. rewrite IH. split; [by intros ->|by intros [= ->]].
    + split; [done|]. intros [= -> _]. done.
Qed.

Lemma HasPrefix_spec s p : HasPrefix s p = true ↔ ∃ r, s = p +:+ r.
Proof. unfold HasPrefix. rewrite bool_decide_eq_true. unfold is_Some. by setoid_rewrite CutPrefix_spec. Qed.

Lemma HasPrefix_app p r : HasPrefix (p +:+ r) p = true.
Proof. apply HasPrefix_spec. eauto. Qed.

Lemma TrimPrefix_app p r : TrimPrefix (p +:+ r) p = r.
Proof. unfold TrimPrefix. by rewrite (proj2 (CutPrefix_spec p _ r)). Qed.

Lemma str_length_app s t : String.length (s +:+ t) = (String.length s + String.length t)%nat.
Proof. induction s as [|a s IH]; [done|]. rewrite str_app_cons. simpl. by rewrite IH. Qed.

Lemma str_app_inv_tail (s t u : string) : s +:+ u = t +:+ u → s = t.
Proof.
  intros H. assert (String.length s = String.length t) as Hl.
  { apply (f_equal String.length) in H. rewrite !str_length_app in H. lia. }
  revert t Hl H. induction s as [|a s IH]; intros [|b t] Hl H; try done.
  rewrite !str_app_cons in H. injection H as -> H. f_equal. apply IH; [|done]. simpl in Hl. lia.
Qed.

Lemma CutSuffix_sound suf s r : CutSuffix suf s = Some r → s = r +:+ suf.
Proof.
  revert r. induction s as [|a s IH]; intros r; simpl; case_bool_decide as E.
  - intros [= <-]. by subst suf.
  - done.
  - intros [= <-]. by subst suf.
  - intros (r' & Hr & ->)%fmap_Some. by rewrite str_app_cons, <-(IH _ Hr).
Qed.

Lemma CutSuffix_spec suf s r : CutSuffix suf s = Some r ↔ s = r +:+ suf.
Proof.
  split; [apply CutSuffix_sound|]. intros ->.
  assert (∃ r', CutSuffix suf (r +:+ suf) = Some r') as [r' Hr'].
  { induction r as [|a r [r' IH]].
    - change (EmptyString +:+ suf) with suf. exists EmptyString. destruct suf; cbn; [done|]. by rewrite bool_decide_true.
    - rewrite str_app_cons. cbn [CutSuffix]. case_bool_decide; [by eauto|]. rewrite IH. simpl. eauto. }
  rewrite Hr'. f_equal. apply CutSuffix_sound, str_app_inv_tail in Hr'. done.
Qed.

Lemma HasSuffix_spec s suf : HasSuffix s suf = true ↔ ∃ r, s = r +:+ suf.
Proof. unfold HasSuffix. rewrite bool_decide_eq_true. unfold is_Some. by setoid_rewrite CutSuffix_spec. Qed.

Lemma HasSuffix_app r suf : HasSuffix (r +:+ suf) suf = true.
Proof. apply HasSuffix_spec. eauto. Qed.

Lemma TrimSuffix_app r suf : TrimSuffix (r +:+ suf) suf = r.
Proof. unfold TrimSuffix. by rewrite (proj2 (CutSuffix_spec suf _ r)). Qed.

Lemma CutLast_spec c s l r :
  CutLast c s = Some (l, r) ↔ s = l +:+ String c r ∧ ContainsByte r c = false.
Proof.
  unfold ContainsByte. revert l r. induction s as [|a s IH]; intros l r; simpl.
  { split; [done|]. intros [H _]. by destruct l. }
  assert (CutLast c s = None ↔ str_existsb (λ a, bool_decide (a = c)) s = false) as Hn.
  { clear. induction s as [|a s IH]; simpl; [done|].
    destruct (CutLast c s) as [[? ?]|]; case_bool_decide; simpl; rewrite <-?IH; naive_solver. }
  destruct (CutLast c s) as [[l' r']|] eqn:E.
  - destruct (proj1 (IH l' r') eq_refl) as [-> Hr']. split.
    + intros [= <- <-]. done.
    + intros [H Hr]. destruct l as [|b l].
      * injection H as -> H. subst r. exfalso. clear -Hr. induction l' as [|x l' IH]; simpl in *.
        -- by rewrite bool_decide_true in Hr.
        -- apply orb_false_iff in Hr as [_ Hr]. auto.
      * rewrite str_app_cons in H. injection H as -> H. f_equal.
        assert (Some (l', r') = Some (l, r)) as [= -> ->]; [|done]. apply IH. auto.
  - case_bool_decide as Ea.
    + subst. split.
      * intros [= <- <-]. split; [done|by apply Hn].
      * intros [H Hr]. destruct l as [|b l]; [by injection H as ->|].
        rewrite str_app_cons in H. injection H as -> H.
        assert (@None (string * string) = Some (l, r)) as [=]; []. by apply IH.
    + split; [done|]. intros [H Hr]. destruct l as [|b l]; [by injection H as ->|].
      rewrite str_app_cons in H. injection H as -> H.
      assert (@None (string * string) = Some (l, r)) as [=]; []. by apply IH.
Qed.

Lemma str_existsb_app p s t : str_existsb p (s +:+ t) = str_existsb p s || str_existsb p t.
Proof. induction s as [|a s IH]; [done|]. rewrite str_app_cons. simpl. by rewrite IH, orb_assoc. Qed.

Lemma countByte_app c s t : countByte c (s +:+ t) = countByte c s + countByte c t.
Proof. induction s as [|a s IH]; [done|]. rewrite str_app_cons. simpl. lia. Qed.

Lemma countByte_none c s : ContainsByte s c = false → countByte c s = 0.
Proof.
  induction s as [|a s IH]; [done|]. unfold ContainsByte in *. simpl.
  intros [Ha Hs]%orb_false_iff. rewrite Ha, IH by done. done.
Qed.

Lemma Cut_spec c s l r : Cut c s = Some (l, r) ↔ s = l +:+ String c r ∧ ContainsByte l c = false.
Proof.
  unfold ContainsByte. revert l. induction s as [|a s IH]; intros l; simpl.
  { split; [done|]. intros [H _]. by destruct l. }
  case_bool_decide as E.
  - subst. split; [by intros [= <- <-]|]. intros [H Hl]. destruct l as [|b l]; [by injection H as ->|].
    rewrite str_app_cons in H. injection H as <- H. simpl in Hl. by rewrite bool_decide_true in Hl.
  - split.
    + intros H. destruct (Cut c s) as [[l' r']|] eqn:Ec; [|done]. injection H as <- <-.
      destruct (proj1 (IH l') eq_refl) as [-> Hl]. split; [done|]. simpl. by rewrite bool_decide_false.
    + intros [H Hl]. destruct l as [|b l]; [by injection H as ->|].
      rewrite str_app_cons in H. injection H as <- H. simpl in Hl. apply orb_false_iff in Hl as [_ Hl].
      by rewrite (proj2 (IH l)).
Qed.

(** ** Trimming *)

Definition nonemptyRunes (runes : list (list Z)) : Prop := Forall (λ r, r ≠ []) runes.

Lemma leadRune_0 runes l :
  nonemptyRunes runes → leadRune runes l = 0%nat ↔ Forall (λ r, hasPrefix r l = false) runes.
Proof.
  unfold leadRune. induction 1 as [|r runes Hr Hrs IH]; simpl; [by split|].
  rewrite Forall_cons. destruct (hasPrefix r l) eqn:E; [|tauto].
  destruct r; [done|]. simpl. naive_solver lia.
Qed.

Lemma hasPrefix_app r l l' : hasPrefix r l = true → hasPrefix r (l ++ l') = true.
Proof.
  revert l. induction r as [|a r IHr]; intros [|b l]; simpl; try done.
  intros [? ?]%andb_true_iff. apply andb_true_iff. auto.
Qed.

Lemma leadRune_app runes l l' :
  nonemptyRunes runes → leadRune runes (l ++ l') = 0%nat → leadRune runes l = 0%nat.
Proof.
  intros Hr. rewrite !leadRune_0 by done. intros H. apply (Forall_impl _ _ _ H). intros r Hrl.
  destruct (hasPrefix r l) eqn:E; [|done]. by rewrite (hasPrefix_app r l l' E) in Hrl.
Qed.

Lemma leadRune_nil runes : nonemptyRunes runes → leadRune runes [] = 0%nat.
Proof. intros Hr. apply leadRune_0; [done|]. apply (Forall_impl _ _ _ Hr). by intros []. Qed.

(** Trimming stops at a string no rune of the set starts. *)
Lemma trimLoop_done runes fuel l :
  nonemptyRunes runes → (length l ≤ fuel)%nat → leadRune runes (trimLoop runes fuel l) = 0%nat.
Proof.
  intros Hr. revert l. induction fuel as [|fuel IH]; intros l Hl; simpl.
  - destruct l; [by apply leadRune_nil|simpl in Hl; lia].
  - destruct (leadRune runes l) as [|n] eqn:E; [done|]. apply IH. rewrite length_drop. lia.
Qed.

Lemma trimLoop_id runes fuel l : leadRune runes l = 0%nat → trimLoop runes fuel l = l.
Proof. destruct fuel; simpl; [done|]. by intros ->. Qed.

Lemma trimLoop_suffix runes fuel l : ∃ p, l = p ++ trimLoop runes fuel l.
Proof.
  revert l. induction fuel as [|fuel IH]; intros l; simpl; [by exists []|].
  destruct (leadRune runes l) as [|n]; [by exists []|].
  destruct (IH (drop (S n) l)) as [p Hp]. exists (take (S n) l ++ p).
  rewrite <-app_assoc, <-Hp. by rewrite take_drop.
Qed.

Lemma spaceRunes_nonempty : nonemptyRunes spaceRunes.
Proof. apply (bool_decide_unpack _). vm_compute. done. Qed.

Lemma spaceRunes_rev_nonempty : nonemptyRunes (reverse <$> spaceRunes).
Proof. apply (bool_decide_unpack _). vm_compute. done. Qed.

Lemma bytesOf_ofBytes l : Forall (λ z, 0 ≤ z < 256) l → bytesOf (ofBytes l) = l.
Proof.
  induction 1 as [|z l Hz _ IH]; [done|]. simpl. rewrite IH. f_equal.
  unfold Z_of_byte, byte_of_Z. rewrite N_ascii_embedding; rewrite Z.mod_small by done; [lia|].
  lia.
Qed.

Lemma bytesOf_range s : Forall (λ z, 0 ≤ z < 256) (bytesOf s).
Proof.
  induction s as [|a s IH]; [constructor|]. constructor; [|done]. unfold Z_of_byte.
  pose proof (N_ascii_bounded a). lia.
Qed.

Lemma ofBytes_bytesOf s : ofBytes (bytesOf s) = s.
Proof.
  induction s as [|a s IH]; [done|]. simpl. rewrite IH. f_equal. unfold byte_of_Z, Z_of_byte.
  pose proof (N_ascii_bounded a). rewrite Z.mod_small by lia. rewrite N2Z.id. apply ascii_N_embedding.
Qed.

Definition trimmed (l : list Z) : list Z := trimRightBytes (trimBytes spaceRunes l).

(** The trimmed bytes are a contiguous part of the bytes. *)
Lemma trimmed_infix l : ∃ p q, l = p ++ trimmed l ++ q.
Proof.
  unfold trimmed, trimRightBytes, trimBytes.
  destruct (trimLoop_suffix spaceRunes (length l) l) as [p Hp]. set (m := trimLoop _ _ l) in *.
  destruct (trimLoop_suffix (reverse <$> spaceRunes) (length (reverse m)) (reverse m)) as [q Hq].
  exists p, (reverse q). rewrite Hp at 1. f_equal. rewrite <-reverse_app, <-Hq. by rewrite reverse_involutive.
Qed.

Lemma trimmed_idemp l : trimmed (trimmed l) = trimmed l.
Proof.
  unfold trimmed at 1. unfold trimRightBytes, trimBytes at 2.
  rewrite (trimLoop_id spaceRunes).
  - unfold trimmed, trimRightBytes. rewrite reverse_involutive. f_equal.
    unfold trimBytes at 1. apply trimLoop_id, trimLoop_done; [apply spaceRunes_rev_nonempty|done].
  - unfold trimmed, trimRightBytes, trimBytes. set (m := trimLoop spaceRunes _ _).
    destruct (trimLoop_suffix (reverse <$> spaceRunes) (length (reverse m)) (reverse m)) as [q Hq].
    apply (leadRune_app _ _ (reverse q)); [apply spaceRunes_nonempty|].
    rewrite <-reverse_app, <-Hq, reverse_involutive.
    apply trimLoop_done; [apply spaceRunes_nonempty|done].
Qed.

Lemma TrimSpace_bytes s : bytesOf (TrimSpace s) = trimmed (bytesOf s).
Proof.
  unfold TrimSpace. fold (trimmed (bytesOf s)). apply bytesOf_ofBytes.
  destruct (trimmed_infix (bytesOf s)) as (p & q & E). pose proof (bytesOf_range s) as H.
  rewrite E in H. by apply Forall_app in H as [_ [H _]%Forall_app].
Qed.

Lemma TrimSpace_idemp s : TrimSpace (TrimSpace s) = TrimSpace s.
Proof.
  assert (bytesOf (TrimSpace (TrimSpace s)) = bytesOf (TrimSpace s)) as H
    by (by rewrite !TrimSpace_bytes, trimmed_idemp).
  apply (f_equal ofBytes) in H. by rewrite !ofBytes_bytesOf in H.
Qed.

Lemma TrimSpace_bounded s : (String.length (TrimSpace s) ≤ String.length s)%nat.
Proof.
  assert (∀ t, String.length t = length (bytesOf t)) as Hl.
  { induction t as [|a t IH]; simpl; [done|]. by rewrite IH. }
  rewrite !Hl, TrimSpace_bytes. destruct (trimmed_infix (bytesOf s)) as (p & q & E).
  apply (f_equal length) in E. rewrite !length_app in E. lia.
Qed.

(** ** Character classes and splitting *)

Definition str_forallb (p : ascii → bool) (s : string) : bool := negb (str_existsb (λ a, negb (p a)) s).

Lemma str_forallb_app p s t : str_forallb p (s +:+ t) = str_forallb p s && str_forallb p t.
Proof. unfold str_forallb. by rewrite str_existsb_app, negb_orb. Qed.

Lemma str_forallb_cons p a s : str_forallb p (String a s) = p a && str_forallb p s.
Proof. unfold str_forallb. simpl. by rewrite negb_orb, negb_involutive. Qed.

Lemma str_forallb_excludes p c s : p c = false → str_forallb p s = true → ContainsByte s c = false.
Proof.
  intros Hc. unfold ContainsByte. induction s as [|a s IH]; [done|]. rewrite str_forallb_cons.
  intros [Ha Hs]%andb_true_iff. simpl. rewrite IH, orb_false_r by done.
  apply bool_decide_eq_false_2. intros ->. by rewrite Hc in Ha.
Qed.

Lemma CutStr_sound sep s l r : CutStr sep s = Some (l, r) → s = l +:+ sep +:+ r.
Proof.
  revert l. induction s as [|a s IH]; intros l; cbn [CutStr].
  - destruct (CutPrefix sep "") as [r'|] eqn:E; [|done]. intros [= <- <-]. apply CutPrefix_spec in E. exact E.
  - destruct (CutPrefix sep (String a s)) as [r'|] eqn:E; [intros [= <- <-]; apply CutPrefix_spec in E; exact E|].
    destruct (CutStr sep s) as [[l' r']|]; [|done]. intros [= <- <-].
    rewrite str_app_cons. f_equal. by apply IH.
Qed.

Lemma CutStr_none sep c s : ContainsByte sep c = true → ContainsByte s c = false → CutStr sep s = None.
Proof.
  intros Hsep Hs. destruct (CutStr sep s) as [[l r]|] eqn:E; [|done]. apply CutStr_sound in E. subst s.
  unfold ContainsByte in *. rewrite !str_existsb_app, Hsep, orb_true_r in Hs. done.
Qed.

Lemma takeUntil_none p s : str_existsb p s = false → takeUntil p s = s.
Proof.
  induction s as [|a s IH]; [done|]. simpl. intros [-> Hs]%orb_false_iff. by rewrite IH.
Qed.

Lemma CutLast_none c s : ContainsByte s c = false → CutLast c s = None.
Proof.
  intros Hs. destruct (CutLast c s) as [[l r]|] eqn:E; [|done].
  apply CutLast_spec in E as [-> _]. unfold ContainsByte in Hs. rewrite str_existsb_app in Hs. simpl in Hs.
  rewrite bool_decide_true, orb_true_r in Hs by done. done.
Qed.

Lemma str_app_assoc (s t u : string) : (s +:+ t) +:+ u = s +:+ t +:+ u.
Proof. induction s as [|a s IH]; [done|]. rewrite !str_app_cons. by rewrite IH. Qed.

Lemma str_app_last s t a b : s +:+ String a "" = t +:+ String b "" → a = b.
Proof.
  revert t. induction s as [|x s IH]; intros [|y t]; rewrite ?str_app_cons.
  - by intros [= ->].
  - intros [= _ H]. by destruct t.
  - intros [= _ H]. by destruct s.
  - intros [= _ H]. eauto.
Qed.

(** A suffix that ends in another byte is not cut. *)
Lemma TrimSuffix_other s suf a b :
  a ≠ b → TrimSuffix (s +:+ String a "") (suf +:+ String b "") = s +:+ String a "".
Proof.
  intros Hab. unfold TrimSuffix. destruct (CutSuffix _ _) as [r|] eqn:E; [|done].
  apply CutSuffix_spec in E. rewrite <-str_app_assoc in E. by apply str_app_last in E.
Qed.

Lemma Split_none c s : ContainsByte s c = false → Split c s = [s].
Proof.
  unfold ContainsByte. induction s as [|a s IH]; [done|]. simpl. intros [-> Hs]%orb_false_iff. by rewrite IH.
Qed.

Lemma Split_app c l r : Split c (l +:+ String c r) = Split c l ++ Split c r.
Proof.
  induction l as [|a l IH].
  - change ("" +:+ String c r) with (String c r). simpl. by rewrite bool_decide_true.
  - rewrite str_app_cons. simpl. rewrite IH. case_bool_decide; [done|].
    destruct (Split c l) as [|w ws] eqn:E; [|done]. destruct l; simpl in E; [done|].
    repeat case_match; done.
Qed.

Lemma Split_nonempty c s : Split c s ≠ [].
Proof. destruct s; simpl; [done|]. repeat case_match; done. Qed.

(** ** Printed integers *)

Lemma digitOf_char (d : N) : (d < 10)%N → digitOf (pretty_N_char d) = Some (Z.of_N d).
Proof.
  intros Hd. assert (d = 0 ∨ d = 1 ∨ d = 2 ∨ d = 3 ∨ d = 4 ∨ d = 5 ∨ d = 6 ∨ d = 7 ∨ d = 8 ∨ d = 9)%N as H by lia.
  repeat destruct H as [->|H]; try done. by subst.
Qed.

Lemma digitsValue_pretty x s : digitsValue 0 (pretty_N_go x s) = digitsValue (Z.of_N x) s.
Proof.
  revert s. induction (N.lt_wf_0 x) as [x _ IH]; intros s. assert (x = 0 ∨ 0 < x)%N as [->|Hx] by lia; [done|].
  rewrite pretty_N_go_step by done. rewrite IH by (by apply N.div_lt). cbn [digitsValue].
  rewrite digitOf_char by (by apply N.mod_lt). cbn. f_equal. rewrite N2Z.inj_div, N2Z.inj_mod.
  pose proof (Z.div_mod (Z.of_N x) (Z.of_N 10)). lia.
Qed.

(** What is printed starts with a digit, after the sign. *)
Definition digitHead (s : string) : Prop := ∃ a r, s = String a r ∧ is_Some (digitOf a).

Lemma pretty_go_head x s : (0 < x)%N ∨ digitHead s → digitHead (pretty_N_go x s).
Proof.
  revert s. induction (N.lt_wf_0 x) as [x _ IH]; intros s H. assert (x = 0 ∨ 0 < x)%N as [->|Hx] by lia.
  - rewrite pretty_N_go_0. by destruct H as [?|?]; [lia|].
  - rewrite pretty_N_go_step by done. apply IH; [by apply N.div_lt|]. right. eexists _, _. split; [done|].
    rewrite digitOf_char by (by apply N.mod_lt). eauto.
Qed.

Lemma digitHead_noFlag s : digitHead s → HasPrefix s "-" = false.
Proof.
  intros (a & r & -> & Ha). unfold HasPrefix. simpl. case_bool_decide as E; [|done]. simpl in E.
  case_bool_decide as E'; [|by destruct E]. subst a. by destruct Ha.
Qed.

Lemma pretty_pos p : pretty (Zpos p) = pretty_N_go (Npos p) "".
Proof. unfold pretty, pretty_Z, pretty, pretty_positive, pretty, pretty_N. by case_decide. Qed.

Lemma FormatInt_cases v :
  (v < 0 ∧ ∃ s, digitHead s ∧ FormatInt v = "-" +:+ s ∧ parseUint s = Some (- v)) ∨
  (0 ≤ v ∧ digitHead (FormatInt v) ∧ parseUint (FormatInt v) = Some v).
Proof.
  assert (∀ p, digitHead (pretty (Zpos p)) ∧ parseUint (pretty (Zpos p)) = Some (Zpos p)) as Hp.
  { intros p. rewrite pretty_pos. pose proof (pretty_go_head (Npos p) "" ltac:(left; lia)) as Hd. split; [done|].
    pose proof (digitsValue_pretty (Npos p) "") as Hv. destruct Hd as (a & r & E & _). unfold parseUint. rewrite E in *. done. }
  destruct v as [|p|p]; unfold FormatInt.
  - right. split; [done|]. split; [by exists "0"%char, ""|done].
  - right. split; [lia|]. apply Hp.
  - left. split; [lia|]. exists (pretty (Zpos p)). split_and!; [apply Hp|done|]. by rewrite (proj2 (Hp p)).
Qed.

(** Reading back a printed integer. *)
Lemma ParseInt64_FormatInt v : MinInt64 ≤ v ≤ MaxInt64 → ParseInt64 (FormatInt v) = Some v.
Proof.
  intros Hv. destruct (FormatInt_cases v) as [(Hn & s & (a & r & -> & Ha) & -> & Hs)|(Hn & (a & r & E & Ha) & Hs)];
    unfold ParseInt64.
  - cbn [String.append]. change ("-" +:+ String a r) with (String "-" (String a r)). cbv beta iota.
    rewrite bool_decide_false by done. rewrite bool_decide_true by done. rewrite Hs. cbn.
    assert ((MinInt64 <=? - - v) && (- - v <=? MaxInt64) = true) as -> by (apply andb_true_iff; split; lia). f_equal. lia.
  - rewrite E in *. assert (a ≠ "+"%char ∧ a ≠ "-"%char) as [H1 H2] by (split; intros ->; by destruct Ha).
    rewrite bool_decide_false by done. rewrite bool_decide_false by done. rewrite Hs. cbn.
    by assert ((MinInt64 <=? v) && (v <=? MaxInt64) = true) as -> by (apply andb_true_iff; split; lia).
Qed.

Lemma FormatInt_noFlag v : HasPrefix (FormatInt v) "--" = false.
Proof.
  destruct (FormatInt_cases v) as [(_ & s & Hd & -> & _)|(_ & Hd & _)].
  - destruct Hd as (a & r & -> & Ha). unfold HasPrefix. simpl. case_bool_decide as E; [|done]. simpl in E.
    case_bool_decide as E'; [|by destruct E]. subst a. by destruct Ha.
  - destruct Hd as (a & r & -> & Ha). unfold HasPrefix. simpl. case_bool_decide as E; [|done]. simpl in E.
    case_bool_decide as E'; [|by destruct E]. subst a. by destruct Ha.
Qed.

Definition isCont (b : Z) : bool := (128 <=? b) && (b <=? 191).
Definition between (lo hi b : Z) : bool := (lo <=? b) && (b <=? hi).

(** [utf8.DecodeRune]: the length of the valid encoding the bytes start with, if any. *)
Definition runeLen (l : list Z) : option nat :=
  match l with
  | [] => None
  | b0 :: r =>
      if b0 <? 128 then Some 1%nat
      else match r with
      | [] => None
      | b1 :: r =>
          if between 194 223 b0 && isCont b1 then Some 2%nat
          else match r with
          | [] => None
          | b2 :: r =>
              let second := if b0 =? 224 then between 160 191 b1
                            else if b0 =? 237 then between 128 159 b1
                            else between 225 239 b0 && isCont b1 in
              if second && isCont b2 then Some 3%nat
              else match r with
              | [] => None
              | b3 :: _ =>
                  let second := if b0 =? 240 then between 144 191 b1
                                else if b0 =? 244 then between 128 143 b1
                                else between 241 243 b0 && isCont b1 in
                  if second && isCont b2 && isCont b3 then Some 4%nat else None
              end
          end
      end
  end.

Definition hexDigit (z : Z) : Z := if z <? 10 then 48 + z else 87 + z.
Definition unicodeEscape (z : Z) : list Z :=
  [92; 117; hexDigit (z / 4096); hexDigit (z / 256 mod 16); hexDigit (z / 16 mod 16); hexDigit (z mod 16)].

(** An ASCII byte, with the HTML-safe escapes of [json.Marshal]. *)
Definition jsonByte (b : Z) : list Z :=
  if (b =? 34) || (b =? 92) then [92; b]
  else if b =? 8 then [92; 98]
  else if b =? 12 then [92; 102]
  else if b =? 10 then [92; 110]
  else if b =? 13 then [92; 114]
  else if b =? 9 then [92; 116]
  else if (b <? 32) || (b =? 60) || (b =? 62) || (b =? 38) then unicodeEscape b
  else [b].

(** Each round consumes at least one byte, so the length is fuel enough. *)
Fixpoint jsonBytes (fuel : nat) (l : list Z) : list Z :=
  match fuel with
  | O => []
  | S fuel =>
      match l with
      | [] => []
      | b :: rest =>
          match runeLen l with
          | None => unicodeEscape 65533 ++ jsonBytes fuel rest
          | Some 1%nat => jsonByte b ++ jsonBytes fuel rest
          | Some n =>
              (if bool_decide (take n l = [226; 128; 168]) then unicodeEscape 8232
               else if bool_decide (take n l = [226; 128; 169]) then unicodeEscape 8233
               else take n l) ++ jsonBytes fuel (drop n l)
          end
      end
  end.

(** [json.Marshal] of a string. *)
Definition jsonString (s : string) : string :=
  let l := bytesOf s in dq +:+ ofBytes (jsonBytes (length l) l) +:+ dq.

(** [json.Marshal] of an object with members in the order given. *)
Definition jsonObject (members : list (string * string)) : string :=
  "{" +:+ Join "," ((λ kv : string * string, jsonString kv.1 +:+ ":" +:+ kv.2) <$> members) +:+ "}".

(** Text without quotes, backslashes, controls, HTML characters and non-ASCII is copied. *)
Definition jsonPlain (b : Z) : bool :=
  between 32 127 b && negb (bool_decide (b ∈ [34; 92; 60; 62; 38])).

Lemma jsonBytes_plain l : Forall (λ b, jsonPlain b = true) l → jsonBytes (length l) l = l.
Proof.
  induction 1 as [|b l Hb _ IH]; [done|]. cbn [length jsonBytes]. unfold runeLen.
  unfold jsonPlain, between in Hb. apply andb_true_iff in Hb as [Hr Hb%negb_true_iff%bool_decide_eq_false].
  assert (b <? 128 = true) as -> by lia. unfold jsonByte.
  assert ((b =? 34) || (b =? 92) = false) as ->.
  { apply orb_false_iff. split; apply Z.eqb_neq; intros ->; apply Hb; set_solver. }
  assert ((b <? 32) || (b =? 60) || (b =? 62) || (b =? 38) = false) as ->.
  { rewrite !orb_false_iff. split_and!; [lia|..]; apply Z.eqb_neq; intros ->; apply Hb; set_solver. }
  repeat match goal with |- context [b =? ?z] => destruct (Z.eqb_spec b z); [subst; done|] end.
  simpl. by rewrite IH.
Qed.
