(* ===== verification/GoNumbers.v ===== *)
(** * Decimal text of floats: [strconv.ParseFloat(s, 32)] and [strconv.FormatFloat(x, 'f', -1, 32)]

    [ParseFloat32] follows the grammar of [strconv] (sign, decimal or hexadecimal mantissa,
    exponent, underscores, infinities and NaN) and rounds the exact value once to float32;
    [FormatFloat32] prints the shortest decimal that reads back as the same float32.

    time.Duration.String

    Hours, minutes and seconds with the fraction trimmed of trailing zeros; a smaller unit below
    one second. *)

From Stdlib Require Import SpecFloat.
From S2P Require Import Prelude Ordering GoRuntime GoText.

(** ** Reading *)

(** The value of a hexadecimal digit that is not a decimal one. *)
Definition hexLetter (a : ascii) : option Z :=
  let n := Z_of_byte (ascii_lower a) in if (97 <=? n) && (n <=? 102) then Some (n - 87) else None.

Definition mantDigit (hex : bool) (a : ascii) : option Z :=
  match digitOf a with
  | Some d => Some d
  | None => if hex then hexLetter a else None
  end.

(** The scan of the mantissa: its value, the number of digits after the point, whether a
    point, a digit, an underscore was seen, and the rest of the input. *)
Record Mant := mkMant {
  mt_value : Z; mt_frac : Z; mt_dot : bool; mt_digits : bool; mt_under : bool; mt_rest : string
}.

Fixpoint scanMant (hex : bool) (v frac : Z) (dot digits under : bool) (s : string) : Mant :=
  match s with
  | EmptyString => mkMant v frac dot digits under s
  | String a s' =>
      if bool_decide (a = "_"%char) then scanMant hex v frac dot digits true s'
      else if bool_decide (a = "."%char) then
        if dot then mkMant v frac dot digits under s
        else scanMant hex v frac true digits under s'
      else match mantDigit hex a with
           | Some d => scanMant hex (v * (if hex then 16 else 10) + d)
                         (if dot then frac + 1 else frac) dot true under s'
           | None => mkMant v frac dot digits under s
           end
  end.

(** The digits of an exponent; a value past 10000 no longer grows. *)
Fixpoint scanExp (e : Z) (under : bool) (s : string) : Z * bool * string :=
  match s with
  | EmptyString => (e, under, s)
  | String a s' =>
      if bool_decide (a = "_"%char) then scanExp e true s'
      else match digitOf a with
           | Some d => scanExp (if e <? 10000 then e * 10 + d else e) under s'
           | None => (e, under, s)
           end
  end.

(** An optional sign: is it a minus, and what follows. *)
Definition cutSign (s : string) : bool * string :=
  match s with
  | String a s' => if bool_decide (a = "+"%char) then (false, s')
                   else if bool_decide (a = "-"%char) then (true, s') else (false, s)
  | EmptyString => (false, s)
  end.

(** An underscore must stand between digits; a base prefix counts as a digit. *)
Inductive Saw := SawStart | SawDigit | SawUnder | SawOther.

Fixpoint underscoreLoop (hex : bool) (saw : Saw) (s : string) : bool :=
  match s with
  | EmptyString => match saw with SawUnder => false | _ => true end
  | String a s =>
      match mantDigit hex a with
      | Some _ => underscoreLoop hex SawDigit s
      | None =>
          if bool_decide (a = "_"%char)
          then match saw with SawDigit => underscoreLoop hex SawUnder s | _ => false end
          else match saw with SawUnder => false | _ => underscoreLoop hex SawOther s end
      end
  end.

(** The base prefix after the sign: its letter in lower case and the rest. *)
Definition basePrefix (s : string) : option (ascii * string) :=
  match s with
  | String "0" (String b s') =>
      let b := ascii_lower b in
      if bool_decide (b = "b"%char) || bool_decide (b = "o"%char) || bool_decide (b = "x"%char)
      then Some (b, s') else None
  | _ => None
  end.

Definition underscoreOK (s : string) : bool :=
  let s := (cutSign s).2 in
  match basePrefix s with
  | Some (b, s') => underscoreLoop (bool_decide (b = "x"%char)) SawDigit s'
  | None => underscoreLoop false SawStart s
  end.

(** The exact value read: [value * base^exp], [base] 10 or 2. *)
Record Read := mkRead { rd_neg : bool; rd_value : Z; rd_base : Z; rd_exp : Z }.

Definition scanExponent (hex under : bool) (s : string) : option (Z * bool * string) :=
  let noExp := if hex then None else Some (0, under, s) in
  match s with
  | String a s' =>
      if bool_decide (ascii_lower a = (if hex then "p"%char else "e"%char)) then
        let '(neg, s'') := cutSign s' in
        match s'' with
        | String d _ =>
            if digitOf d then
              let '(e, under, rest) := scanExp 0 under s'' in
              Some ((if (neg : bool) then - e else e), under, rest)
            else None
        | EmptyString => None
        end
      else noExp
  | EmptyString => noExp
  end.

Definition readFloat (s : string) : option Read :=
  let '(neg, body) := cutSign s in
  let '(hex, digits) :=
    match body with
    | String "0" (String x (String c r)) =>
        if bool_decide (ascii_lower x = "x"%char) then (true, String c r) else (false, body)
    | _ => (false, body)
    end in
  let m := scanMant hex 0 0 false false false digits in
  if negb (mt_digits m) then None
  else
    '(e, under, rest) ← scanExponent hex (mt_under m) (mt_rest m);
    if negb (str_eqb rest "") then None
    else if under && negb (underscoreOK s) then None
    else Some (mkRead neg (mt_value m) (if hex then 2 else 10)
                 (e - mt_frac m * (if hex then 4 else 1))).

(** The exact value of what was read, rounded to nearest even at float32. *)
Definition roundRead (r : Read) : f32 :=
  match rd_value r with
  | Zpos m =>
      if 0 <=? rd_exp r
      then match Z.pos m * rd_base r ^ rd_exp r with
           | Zpos n => binary_round 24 128 (rd_neg r) n 0
           | _ => S754_zero (rd_neg r)
           end
      else match rd_base r ^ (- rd_exp r) with
           | Zpos d => f32_div (S754_finite (rd_neg r) m 0) (S754_finite false d 0)
           | _ => S754_zero (rd_neg r)
           end
  | _ => S754_zero (rd_neg r)
  end.

(** Infinities and NaN, in any case. *)
Definition specialFloat (s : string) : option f32 :=
  let '(neg, body) := cutSign s in
  let w := to_lower body in
  if str_eqb w "inf" || str_eqb w "infinity" then Some (S754_infinity neg)
  else if str_eqb (to_lower s) "nan" then Some S754_nan
  else None.

(** [strconv.ParseFloat(s, 32)]; [None] is a syntax error or, for a finite literal past the
    largest float32, a range error. *)
Definition ParseFloat32 (s : string) : option f32 :=
  match specialFloat s with
  | Some v => Some v
  | None =>
      r ← readFloat s;
      let v := roundRead r in
      if is_inf v then None else Some v
  end.

(** ** Printing *)

Definition digitChar (d : Z) : ascii := byte_of_Z (48 + d).

(** The last [n] decimal digits of [z]. *)
Fixpoint decDigits (n : nat) (z : Z) : string :=
  match n with
  | O => EmptyString
  | S n => String (digitChar ((z / 10 ^ Z.of_nat n) mod 10)) (decDigits n z)
  end.

(** The number of decimal digits of [z], at most [fuel]. *)
Fixpoint decLen (fuel : nat) (z : Z) : nat :=
  match fuel with
  | O => 0%nat
  | S fuel => if z =? 0 then 0%nat else S (decLen fuel (z / 10))
  end.

Definition zeros (n : nat) : string := decDigits n 0.

(** [d * 10^e] without an exponent, [d] positive with [n] digits. *)
Definition fixedText (n : nat) (d e : Z) : string :=
  if 0 <=? e then decDigits n d +:+ zeros (Z.to_nat e)
  else
    let point := Z.of_nat n + e in
    if point <=? 0 then "0." +:+ zeros (Z.to_nat (- point)) +:+ decDigits n d
    else decDigits (Z.to_nat point) (d / 10 ^ (- e)) +:+ "." +:+ decDigits (Z.to_nat (- e)) d.

(** Does [d * 10^e] read as the positive float32 [m * 2^x]? *)
Definition readsAs (m : positive) (x d e : Z) : bool :=
  feq (roundRead (mkRead false d 10 e)) (S754_finite false m x).

(** The exact ratio [m * 2^x] as a fraction. *)
Definition ratio (m : positive) (x : Z) : Z * Z :=
  if 0 <=? x then (Z.pos m * 2 ^ x, 1) else (Z.pos m, 2 ^ (- x)).

(** The decimal exponent of the first digit: [10^k <= num/den < 10^(k+1)]. *)
Fixpoint decExpDown (fuel : nat) (num den k : Z) : Z :=
  match fuel with
  | O => k
  | S fuel => if num <? den then decExpDown fuel (num * 10) den (k - 1) else k
  end.
Fixpoint decExpUp (fuel : nat) (num den k : Z) : Z :=
  match fuel with
  | O => k
  | S fuel => if 10 * den <=? num then decExpUp fuel num (den * 10) (k + 1) else k
  end.
Definition decExp (num den : Z) : Z :=
  if num <? den then decExpDown 60 num den 0 else decExpUp 60 num den 0.

(** The [n]-digit decimals around the value that read back as it: the nearer one. *)
Definition tryDigits (m : positive) (x : Z) (n : nat) : option (Z * Z) :=
  let '(num, den) := ratio m x in
  let e := decExp num den - Z.of_nat n + 1 in
  let '(num, den) := if 0 <=? e then (num, den * 10 ^ e) else (num * 10 ^ (- e), den) in
  let lo := num / den in
  let hi := lo + 1 in
  let loOK := readsAs m x lo e in
  let hiOK := readsAs m x hi e in
  let nearLo := 2 * (num - lo * den) <=? den in
  if loOK && (nearLo || negb hiOK) then Some (lo, e)
  else if hiOK then Some (hi, e)
  else None.

Fixpoint shortest (m : positive) (x : Z) (n fuel : nat) : option (Z * Z) :=
  match fuel with
  | O => None
  | S fuel => match tryDigits m x n with
              | Some r => Some r
              | None => shortest m x (S n) fuel
              end
  end.

(** Nine significant digits always suffice for float32; [None] is unreachable. *)
Definition formatPositive (m : positive) (x : Z) : string :=
  match shortest m x 1 9 with
  | Some (d, e) => fixedText (decLen 60 d) d e
  | None => ""
  end.

(** [strconv.FormatFloat(float64(f), 'f', -1, 32)]. *)
Definition FormatFloat32 (f : f32) : string :=
  match f with
  | S754_zero s => if s then "-0" else "0"
  | S754_infinity s => if s then "-Inf" else "+Inf"
  | S754_nan => "NaN"
  | S754_finite s m x => (if s then "-" else "") +:+ formatPositive m x
  end.

(** ** float64 *)

Definition roundRead64 (r : Read) : f64 :=
  match rd_value r with
  | Zpos m =>
      if 0 <=? rd_exp r
      then match Z.pos m * rd_base r ^ rd_exp r with
           | Zpos n => binary_round 53 1024 (rd_neg r) n 0
           | _ => S754_zero (rd_neg r)
           end
      else match rd_base r ^ (- rd_exp r) with
           | Zpos d => f64_div (S754_finite (rd_neg r) m 0) (S754_finite false d 0)
           | _ => S754_zero (rd_neg r)
           end
  | _ => S754_zero (rd_neg r)
  end.

(** [strconv.ParseFloat(s, 64)]. *)
Definition ParseFloat64 (s : string) : option f64 :=
  match specialFloat s with
  | Some v => Some v
  | None =>
      r ← readFloat s;
      let v := roundRead64 r in
      if is_inf v then None else Some v
  end.

(** Shortest decimals that read back as a float64; [decExp] looks 60 decades up and down,
    past the sizes in GiB the program prints (2^-30 to 2^33). *)
Definition readsAs64 (m : positive) (x d e : Z) : bool :=
  feq (roundRead64 (mkRead false d 10 e)) (S754_finite false m x).

Definition tryDigits64 (m : positive) (x : Z) (n : nat) : option (Z * Z) :=
  let '(num, den) := ratio m x in
  let e := decExp num den - Z.of_nat n + 1 in
  let '(num, den) := if 0 <=? e then (num, den * 10 ^ e) else (num * 10 ^ (- e), den) in
  let lo := num / den in
  let hi := lo + 1 in
  let loOK := readsAs64 m x lo e in
  let hiOK := readsAs64 m x hi e in
  let nearLo := 2 * (num - lo * den) <=? den in
  if loOK && (nearLo || negb hiOK) then Some (lo, e)
  else if hiOK then Some (hi, e)
  else None.

Fixpoint shortest64 (m : positive) (x : Z) (n fuel : nat) : option (Z * Z) :=
  match fuel with
  | O => None
  | S fuel => match tryDigits64 m x n with
              | Some r => Some r
              | None => shortest64 m x (S n) fuel
              end
  end.

(** [strconv.FormatFloat(f, 'f', -1, 64)]; 17 digits always suffice. *)
Definition FormatFloat64 (f : f64) : string :=
  match f with
  | S754_zero s => if s then "-0" else "0"
  | S754_infinity s => if s then "-Inf" else "+Inf"
  | S754_nan => "NaN"
  | S754_finite s m x =>
      (if s then "-" else "") +:+
      match shortest64 m x 1 17 with Some (d, e) => fixedText (decLen 60 d) d e | None => "" end
  end.

(** [fmtFrac]: the fraction of [v / 10^prec], and the integer part; the buffer is filled from the
    right. *)
Fixpoint fmtFrac (prec : nat) (v : Z) (print : bool) (buf : string) : string * Z :=
  match prec with
  | O => ((if print then "." +:+ buf else buf), v)
  | S prec =>
      let digit := v mod 10 in
      let print := print || negb (digit =? 0) in
      fmtFrac prec (v / 10) print (if print then String (digitChar digit) buf else buf)
  end.

Definition durationString (d : Duration) : string :=
  let u := Z.abs d in
  let sign := if d <? 0 then "-" else "" in
  if u =? 0 then "0s"
  else if u <? Second then
    let '(prec, unit) :=
      if u <? Microsecond then (0%nat, "ns") else if u <? Millisecond then (3%nat, "µs") else (6%nat, "ms") in
    let '(frac, whole) := fmtFrac prec u false "" in
    sign +:+ FormatInt whole +:+ frac +:+ unit
  else
    let '(frac, secs) := fmtFrac 9 u false "" in
    let s := FormatInt (secs mod 60) +:+ frac +:+ "s" in
    let mins := secs / 60 in
    let m := if 0 <? mins then FormatInt (mins mod 60) +:+ "m" else "" in
    let hours := mins / 60 in
    let h := if 0 <? hours then FormatInt hours +:+ "h" else "" in
    sign +:+ h +:+ m +:+ s.

Example durationString_samples :
  durationString (5 * Minute) = "5m0s" ∧ durationString (1500 * Millisecond) = "1.5s" ∧
  durationString (90 * Minute + 30 * Second) = "1h30m30s" ∧ durationString (1100 * Microsecond) = "1.1ms" ∧
  durationString (- Second) = "-1s".
Proof. by vm_compute. Qed.
