(* ===== verification/IndexTypes.v ===== *)
(** * The data of the cache-state index (internal/index/types.go, index.go)

    Keys, entries, requests and results with the fields of the Go structs, the
    index configuration, and the index state.  Go holds a replica's entry by
    pointer (the entry carries the LFU counter, and a lookup keeps pointers to
    the entries it matched); the state therefore has a heap of entries and the
    prefix map stores locations, so the aliasing is explicit. *)

From S2P Require Import Prelude Ordering GoRuntime.

(** ** Keys *)

Record prefixKey := PrefixKey {
  pk_tenant : string;
  pk_model : string;
  pk_hashScheme : string;
  pk_adapter : string;
  pk_prefixHash : string
}.

Record statsKey := StatsKey {
  sk_tenant : string;
  sk_model : string;
  sk_replicaID : string
}.

Record modelKey := ModelKey { mk_tenant : string; mk_model : string }.

Record scopeKey := ScopeKey {
  sc_tenant : string;
  sc_model : string;
  sc_hashScheme : string
}.

#[export] Instance prefixKey_eq_dec : EqDecision prefixKey.
Proof. solve_decision. Defined.
#[export] Instance statsKey_eq_dec : EqDecision statsKey.
Proof. solve_decision. Defined.
#[export] Instance modelKey_eq_dec : EqDecision modelKey.
Proof. solve_decision. Defined.
#[export] Instance scopeKey_eq_dec : EqDecision scopeKey.
Proof. solve_decision. Defined.

#[export] Instance prefixKey_countable : Countable prefixKey.
Proof.
  apply (inj_countable'
    (λ k, (pk_tenant k, pk_model k, pk_hashScheme k, pk_adapter k, pk_prefixHash k))
    (λ '(a, b, c, d, e), PrefixKey a b c d e)).
  by intros [].
Defined.
#[export] Instance statsKey_countable : Countable statsKey.
Proof.
  apply (inj_countable' (λ k, (sk_tenant k, sk_model k, sk_replicaID k))
    (λ '(a, b, c), StatsKey a b c)).
  by intros [].
Defined.
#[export] Instance modelKey_countable : Countable modelKey.
Proof.
  apply (inj_countable' (λ k, (mk_tenant k, mk_model k)) (λ '(a, b), ModelKey a b)).
  by intros [].
Defined.
#[export] Instance scopeKey_countable : Countable scopeKey.
Proof.
  apply (inj_countable' (λ k, (sc_tenant k, sc_model k, sc_hashScheme k))
    (λ '(a, b, c), ScopeKey a b c)).
  by intros [].
Defined.

(** The (tenant, model) and (tenant, model, hash_scheme) of a prefix key. *)
Definition modelOf (k : prefixKey) : modelKey := ModelKey (pk_tenant k) (pk_model k).
Definition scopeOf (k : prefixKey) : scopeKey :=
  ScopeKey (pk_tenant k) (pk_model k) (pk_hashScheme k).

(** ** Cache tiers *)

Definition CacheTier := Z.
Definition TierUnspecified : CacheTier := 0.
Definition TierT1 : CacheTier := 1.
Definition TierT2 : CacheTier := 2.
Definition TierT3 : CacheTier := 3.

Definition worstTier (a b : CacheTier) : CacheTier :=
  if (a =? TierUnspecified) || (b =? TierUnspecified) then TierUnspecified
  else if b <? a then a else b.

(** ** Entries *)

(** A heap location of a [*replicaEntry]. *)
Definition loc := positive.

Record replicaEntry := ReplicaEntry {
  tokenCount : Z;
  lastSeen : Time;
  tier : CacheTier;
  accessCount : Z
}.

Record ReplicaStats := mkReplicaStats {
  rs_ReplicaID : string;
  rs_CacheMemoryBytes : Z;
  rs_HitRate : f32;
  rs_Pressure : f32;
  rs_T2HitTokens : Z;
  rs_T2QueryTokens : Z
}.

Record statEntry := StatEntry {
  se_stats : ReplicaStats;
  se_lastSeen : Time;
  se_statsReported : Time
}.

(** ** Requests *)

Record PrefixRef := mkPrefixRef {
  pr_PrefixHash : string;
  pr_TokenCount : Z;
  pr_BlockHashes : list string;
  pr_BlockTokenCounts : list Z;
  pr_Tier : CacheTier;
  pr_Adapter : string
}.

Record Update := mkUpdate {
  u_ReplicaID : string;
  u_Model : string;
  u_Tenant : string;
  u_HashScheme : string;
  u_Adapter : string;
  u_Timestamp : Time;
  u_Prefixes : list PrefixRef;
  u_Stats : option ReplicaStats
}.

Inductive EventType :=
  | EventPrefixAdded
  | EventPrefixEvicted
  | EventReplicaUpdated
  | EventAllCleared.

Record Event := mkEvent {
  ev_Type : EventType;
  ev_ReplicaID : string;
  ev_Model : string;
  ev_Tenant : string;
  ev_PrefixHash : string;
  ev_Adapter : string;
  ev_Timestamp : Time
}.

Record LookupRequest := mkLookupRequest {
  lr_Model : string;
  lr_Tenant : string;
  lr_HashScheme : string;
  lr_Adapter : string;
  lr_PrefixHash : string;
  lr_TokenCount : Z;
  lr_BlockHashes : list string;
  lr_BlockTokenCounts : list Z;
  lr_TTFTBudgetMs : Z;
  lr_TBTBudgetMs : Z
}.

(** ** Results *)

Record ReplicaScore := mkReplicaScore {
  s_ReplicaID : string;
  s_Score : f32;
  s_MatchedTokens : Z;
  s_EstimatedCacheHitProb : f32;
  s_Tier : CacheTier
}.

Inductive Strategy :=
  | StrategyNone
  | StrategyPrefixMatch
  | StrategyTenantHot
  | StrategyUnknownTenant
  | StrategyUnknownModel
  | StrategyUnknownHashScheme.

#[export] Instance Strategy_eq_dec : EqDecision Strategy.
Proof. solve_decision. Defined.

Record LookupResult := mkLookupResult {
  res_Scores : list ReplicaScore;
  res_Strategy : Strategy;
  res_hitsByReplica : gmap string (list loc)
}.

(** [LookupResult{Strategy: s}]. *)
Definition resultOf (s : Strategy) : LookupResult := mkLookupResult [] s ∅.

(** ** Configuration *)

Definition DefaultTTL : Duration := 30 * Minute.
Definition DefaultSweepInterval : Duration := Minute.
Definition DefaultMaxEntries : Z := 1000000.

Definition EvictionLRU : string := "lru".
Definition EvictionLFU : string := "lfu".

Record RankerConfig := mkRankerConfig {
  PressureWeight : f32;
  SLOTightTTFTMs : Z;
  SLOTightBias : f32;
  TenantHotMinHitRate : f32;
  TenantHotMaxAge : Duration
}.

Definition DefaultRankerConfig : RankerConfig := {|
  PressureWeight := f32_one;
  SLOTightTTFTMs := 200;
  SLOTightBias := f32_one;
  TenantHotMinHitRate := f32_lit 1 10;
  TenantHotMaxAge := 5 * Minute
|}.

(** The resolver interfaces the policy store satisfies; [None] is a nil
    resolver.  [quotaResolver t = None] is Go's [ok=false]. *)
Record IndexConfig := mkIndexConfig {
  cfg_ttl : Duration;
  cfg_sweepInterval : Duration;
  cfg_maxEntries : Z;
  cfg_metrics : bool;
  cfg_ranker : RankerConfig;
  cfg_ttlResolver : option (string → Duration);
  cfg_quotaResolver : option (string → option Z);
  cfg_evictionResolver : option (string → string);
  cfg_reservedTenants : gset string
}.

(** ** The index state *)

Record Index := mkIndex {
  heap : gmap loc replicaEntry;
  nextLoc : loc;
  prefixes : gmap prefixKey (gmap string loc);
  stats : gmap statsKey statEntry;
  totalEntries : Z;
  reservedEntries : Z;
  prefixesByTenant : gmap string Z;
  prefixesByTenantModel : gmap modelKey Z;
  servingByScope : gmap scopeKey (gmap string Z);
  replicasByModel : gmap modelKey (gset string);
  reportedModels : gset string
}.

Definition set_heap (f : gmap loc replicaEntry → gmap loc replicaEntry) (i : Index) : Index :=
  mkIndex (f (heap i)) (nextLoc i) (prefixes i) (stats i) (totalEntries i)
    (reservedEntries i) (prefixesByTenant i) (prefixesByTenantModel i)
    (servingByScope i) (replicasByModel i) (reportedModels i).

Definition set_stats (f : gmap statsKey statEntry → gmap statsKey statEntry) (i : Index) : Index :=
  mkIndex (heap i) (nextLoc i) (prefixes i) (f (stats i)) (totalEntries i)
    (reservedEntries i) (prefixesByTenant i) (prefixesByTenantModel i)
    (servingByScope i) (replicasByModel i) (reportedModels i).

Definition set_servingByScope
    (f : gmap scopeKey (gmap string Z) → gmap scopeKey (gmap string Z)) (i : Index) : Index :=
  mkIndex (heap i) (nextLoc i) (prefixes i) (stats i) (totalEntries i)
    (reservedEntries i) (prefixesByTenant i) (prefixesByTenantModel i)
    (f (servingByScope i)) (replicasByModel i) (reportedModels i).

Definition set_replicasByModel
    (f : gmap modelKey (gset string) → gmap modelKey (gset string)) (i : Index) : Index :=
  mkIndex (heap i) (nextLoc i) (prefixes i) (stats i) (totalEntries i)
    (reservedEntries i) (prefixesByTenant i) (prefixesByTenantModel i)
    (servingByScope i) (f (replicasByModel i)) (reportedModels i).

Definition set_reportedModels (f : gset string → gset string) (i : Index) : Index :=
  mkIndex (heap i) (nextLoc i) (prefixes i) (stats i) (totalEntries i)
    (reservedEntries i) (prefixesByTenant i) (prefixesByTenantModel i)
    (servingByScope i) (replicasByModel i) (f (reportedModels i)).

(** The state [New] builds: every map empty. *)
Definition emptyIndex : Index :=
  mkIndex ∅ 1%positive ∅ ∅ 0 0 ∅ ∅ ∅ ∅ ∅.

(** [New]: the defaults, overridden by the options ([opts] is their effect on
    the configuration), with non-positive durations clamped back. *)
Definition defaultConfig : IndexConfig := {|
  cfg_ttl := DefaultTTL;
  cfg_sweepInterval := DefaultSweepInterval;
  cfg_maxEntries := DefaultMaxEntries;
  cfg_metrics := false;
  cfg_ranker := DefaultRankerConfig;
  cfg_ttlResolver := None;
  cfg_quotaResolver := None;
  cfg_evictionResolver := None;
  cfg_reservedTenants := ∅
|}.

Definition New (opts : IndexConfig → IndexConfig) : IndexConfig * Index :=
  let c := opts defaultConfig in
  (mkIndexConfig
     (if cfg_ttl c <=? 0 then DefaultTTL else cfg_ttl c)
     (if cfg_sweepInterval c <=? 0 then DefaultSweepInterval else cfg_sweepInterval c)
     (cfg_maxEntries c) (cfg_metrics c) (cfg_ranker c) (cfg_ttlResolver c)
     (cfg_quotaResolver c) (cfg_evictionResolver c) (cfg_reservedTenants c),
   emptyIndex).

(** [WithReservedTenants]: empty ids are skipped. *)
Definition WithReservedTenants (tenants : list string) (c : IndexConfig) : IndexConfig :=
  mkIndexConfig (cfg_ttl c) (cfg_sweepInterval c) (cfg_maxEntries c) (cfg_metrics c)
    (cfg_ranker c) (cfg_ttlResolver c) (cfg_quotaResolver c) (cfg_evictionResolver c)
    (foldl (λ acc t, if str_eqb t "" then acc else {[t]} ∪ acc)
       (cfg_reservedTenants c) tenants).

(** ** Metrics

    The calls made on the [Metrics] sink, in order. *)
Inductive MetricCall :=
  | SetIndexEntries (model : string) (entries : Z)
  | AddTenantEvictions (tenantID reason : string) (n : Z)
  | AddIndexEvictions (algorithm reason : string) (n : Z).

(** The entry a replica holds under a prefix key, through the pointer. *)
Definition entryAt (i : Index) (k : prefixKey) (r : string) : option replicaEntry :=
  l ← prefixes i !! k ≫= lookup r; heap i !! l.

(** Go's [i.prefixes[key]] and [i.servingByScope[scope]]: a nil map reads empty. *)
Definition replicasAt (i : Index) (k : prefixKey) : gmap string loc :=
  default ∅ (prefixes i !! k).
Definition servingAt (i : Index) (s : scopeKey) : gmap string Z :=
  default ∅ (servingByScope i !! s).
