(* ===== verification/IndexAccounting.v ===== *)
(** * Entry accounting (internal/index/accounting.go)

    The two primitives every mutation of the prefix map goes through, with the
    secondary indexes they maintain, and the invariant [index_wf]: each counter
    and each secondary index is exactly the quantity it caches. *)

From Stdlib Require Import SpecFloat.
From S2P Require Import Prelude Ordering GoRuntime IndexTypes.

(** ** Operations *)

(** eviction.go [isReservedTenant]. *)
Definition isReservedTenant (rt : gset string) (tenant : string) : bool :=
  bool_decide (tenant ∈ rt).

(** [m[k]++] on a map of counters. *)
Definition incr {K : Type} `{Countable K} (m : gmap K Z) (k : K) : gmap K Z :=
  <[k := go_get m k + 1]> m.

(** [if n := m[k]-1; n <= 0 { delete(m, k) } else { m[k] = n }]. *)
Definition decrOrDrop {K : Type} `{Countable K} (m : gmap K Z) (k : K) : gmap K Z :=
  let n := go_get m k - 1 in
  if n <=? 0 then delete k m else <[k := n]> m.

Definition scopeIncLocked (scope : scopeKey) (replicaID : string) (i : Index) : Index :=
  set_servingByScope (λ s, <[scope := incr (default ∅ (s !! scope)) replicaID]> s) i.

Definition scopeDecLocked (scope : scopeKey) (replicaID : string) (i : Index) : Index :=
  match servingByScope i !! scope with
  | None => i
  | Some m =>
      let n := go_get m replicaID - 1 in
      if n <=? 0 then
        let m' := delete replicaID m in
        set_servingByScope
          (λ s, if bool_decide (m' = ∅) then delete scope s else <[scope := m']> s) i
      else set_servingByScope (λ s, <[scope := <[replicaID := n]> m]> s) i
  end.

Definition statsScopeAddLocked (mk : modelKey) (replicaID : string) (i : Index) : Index :=
  set_replicasByModel (λ s, <[mk := {[replicaID]} ∪ default ∅ (s !! mk)]> s) i.

Definition statsScopeRemoveLocked (mk : modelKey) (replicaID : string) (i : Index) : Index :=
  match replicasByModel i !! mk with
  | None => i
  | Some m =>
      let m' := m ∖ {[replicaID]} in
      set_replicasByModel
        (λ s, if bool_decide (m' = ∅) then delete mk s else <[mk := m']> s) i
  end.

(** First replica of a brand-new prefix key: an empty replica map, and one more
    distinct prefix for the tenant and for the (tenant, model). *)
Definition addPrefixKey (key : prefixKey) (i : Index) : Index :=
  mkIndex (heap i) (nextLoc i) (<[key := ∅]> (prefixes i)) (stats i) (totalEntries i)
    (reservedEntries i) (incr (prefixesByTenant i) (pk_tenant key))
    (incr (prefixesByTenantModel i) (modelOf key))
    (servingByScope i) (replicasByModel i) (reportedModels i).

(** First sight of a (prefix, replica): allocate an entry with a zero counter. *)
Definition addReplica (rt : gset string) (key : prefixKey) (replicaID : string)
    (i : Index) : Index :=
  scopeIncLocked (scopeOf key) replicaID
    (mkIndex (<[nextLoc i := ReplicaEntry 0 time_zero TierUnspecified 0]> (heap i))
       (Pos.succ (nextLoc i))
       (<[key := <[replicaID := nextLoc i]> (replicasAt i key)]> (prefixes i))
       (stats i) (totalEntries i + 1)
       (if isReservedTenant rt (pk_tenant key) then reservedEntries i + 1
        else reservedEntries i)
       (prefixesByTenant i) (prefixesByTenantModel i)
       (servingByScope i) (replicasByModel i) (reportedModels i)).

(** [e.tokenCount = ..; e.lastSeen = ..; e.tier = ..] through the pointer. *)
Definition setEntry (l : loc) (tc : Z) (tr : CacheTier) (ts : Time) (i : Index) : Index :=
  set_heap (alter (λ e, ReplicaEntry tc ts tr (accessCount e)) l) i.

Definition upsertReplicaLocked (rt : gset string) (key : prefixKey) (replicaID : string)
    (tc : Z) (tr : CacheTier) (ts : Time) (i : Index) : Index :=
  let i := match prefixes i !! key with
           | Some _ => i
           | None => addPrefixKey key i
           end in
  match replicasAt i key !! replicaID with
  | Some l => setEntry l tc tr ts i
  | None => setEntry (nextLoc i) tc tr ts (addReplica rt key replicaID i)
  end.

Definition removeReplicaLocked (rt : gset string) (key : prefixKey) (replicaID : string)
    (i : Index) : Index :=
  match replicasAt i key !! replicaID with
  | None => i
  | Some _ =>
      let replicas := delete replicaID (replicasAt i key) in
      let last := bool_decide (replicas = ∅) in
      scopeDecLocked (scopeOf key) replicaID
        (mkIndex (heap i) (nextLoc i)
           (if last then delete key (prefixes i) else <[key := replicas]> (prefixes i))
           (stats i) (totalEntries i - 1)
           (if isReservedTenant rt (pk_tenant key) then reservedEntries i - 1
            else reservedEntries i)
           (if last then decrOrDrop (prefixesByTenant i) (pk_tenant key)
            else prefixesByTenant i)
           (if last then decrOrDrop (prefixesByTenantModel i) (modelOf key)
            else prefixesByTenantModel i)
           (servingByScope i) (replicasByModel i) (reportedModels i))
  end.

(** Writing and deleting a stats entry, with its scope membership. *)
Definition putStats (tenant model replicaID : string) (s : statEntry) (i : Index) : Index :=
  statsScopeAddLocked (ModelKey tenant model) replicaID
    (set_stats (insert (StatsKey tenant model replicaID) s) i).

Definition dropStats (sk : statsKey) (i : Index) : Index :=
  statsScopeRemoveLocked (ModelKey (sk_tenant sk) (sk_model sk)) (sk_replicaID sk)
    (set_stats (delete sk) i).

Definition sanitizeRate (f : f32) : f32 :=
  let x := f64_of_f32 f in
  if is_nan x || is_inf x then f32_zero else f.

(** ** The cached quantities, defined from the prefix map alone *)

Definition countOpt (n : Z) : option Z := if n <=? 0 then None else Some n.

Definition sizeZ {K A : Type} `{Countable K} (m : gmap K A) : Z := Z.of_nat (size m).

Definition p_total (p : gmap prefixKey (gmap string loc)) : Z := msum (λ _ m, sizeZ m) p.

Definition p_reserved (rt : gset string) (p : gmap prefixKey (gmap string loc)) : Z :=
  msum (λ k m, if isReservedTenant rt (pk_tenant k) then sizeZ m else 0) p.

Definition p_tenant (t : string) (p : gmap prefixKey (gmap string loc)) : Z :=
  zcount (λ k _, bool_decide (pk_tenant k = t)) p.

Definition p_model (mk : modelKey) (p : gmap prefixKey (gmap string loc)) : Z :=
  zcount (λ k _, bool_decide (modelOf k = mk)) p.

Definition p_scope (s : scopeKey) (r : string) (p : gmap prefixKey (gmap string loc)) : Z :=
  zcount (λ k m, bool_decide (scopeOf k = s) && bool_decide (is_Some (m !! r))) p.

Definition locAt (i : Index) (k : prefixKey) (r : string) : option loc :=
  prefixes i !! k ≫= lookup r.

(** Well-formedness of the index, for the reserved tenants [rt]: the pointers,
    the counters and serving counts, and the stats. *)
Record ptr_wf (i : Index) : Prop := {
  wf_nonempty : ∀ k m, prefixes i !! k = Some m → m ≠ ∅;
  wf_heap : ∀ k r l, locAt i k r = Some l → is_Some (heap i !! l);
  wf_inj : ∀ k1 r1 k2 r2 l,
    locAt i k1 r1 = Some l → locAt i k2 r2 = Some l → k1 = k2 ∧ r1 = r2;
  wf_next : ∀ l, is_Some (heap i !! l) → (l < nextLoc i)%positive
}.

Record count_wf (rt : gset string) (i : Index) : Prop := {
  wf_total : totalEntries i = p_total (prefixes i);
  wf_reserved : reservedEntries i = p_reserved rt (prefixes i);
  wf_tenant : ∀ t, prefixesByTenant i !! t = countOpt (p_tenant t (prefixes i));
  wf_model : ∀ mk, prefixesByTenantModel i !! mk = countOpt (p_model mk (prefixes i))
}.

Record scope_wf (i : Index) : Prop := {
  wf_scope : ∀ s r, servingAt i s !! r = countOpt (p_scope s r (prefixes i));
  wf_scope_nonempty : ∀ s m, servingByScope i !! s = Some m → m ≠ ∅
}.

Record stats_wf (i : Index) : Prop := {
  wf_stats : ∀ mk r, r ∈ default ∅ (replicasByModel i !! mk) ↔
    is_Some (stats i !! StatsKey (mk_tenant mk) (mk_model mk) r);
  wf_stats_nonempty : ∀ mk s, replicasByModel i !! mk = Some s → s ≠ ∅;
  wf_stats_rates : ∀ sk s, stats i !! sk = Some s →
    rs_ReplicaID (se_stats s) = sk_replicaID sk ∧
    is_nan (rs_HitRate (se_stats s)) = false ∧ is_inf (rs_HitRate (se_stats s)) = false ∧
    is_nan (rs_Pressure (se_stats s)) = false ∧ is_inf (rs_Pressure (se_stats s)) = false
}.

Record index_wf (rt : gset string) (i : Index) : Prop := {
  wf_ptr :> ptr_wf i;
  wf_count :> count_wf rt i;
  wf_serving :> scope_wf i;
  wf_stat :> stats_wf i
}.

(** ** Counters *)

Lemma countOpt_get n : 0 ≤ n → default 0 (countOpt n) = n.
Proof. unfold countOpt. case_match; simpl; lia. Qed.

Lemma countOpt_is_Some n : is_Some (countOpt n) ↔ 0 < n.
Proof.
  unfold countOpt. case_match; rewrite ?Z.leb_le, ?Z.leb_gt in *.
  - split; [intros [? [=]]|lia].
  - split; [done|eauto].
Qed.

Lemma countOpt_None n : countOpt n = None ↔ n ≤ 0.
Proof. unfold countOpt. case_match; rewrite ?Z.leb_le, ?Z.leb_gt in *; naive_solver lia. Qed.

Section counters.
Context {K : Type} `{Countable K}.
Implicit Types (m : gmap K Z) (c : K → Z).

Lemma incr_lookup m c x y :
  (∀ z, m !! z = countOpt (c z)) → (∀ z, 0 ≤ c z) →
  incr m x !! y = countOpt (c y + if decide (x = y) then 1 else 0).
Proof.
  intros Hm Hc. unfold incr, go_get. destruct (decide (x = y)) as [->|Hne].
  - rewrite lookup_insert_eq, Hm, countOpt_get by done.
    unfold countOpt. specialize (Hc y). case_match; [lia|done].
  - rewrite lookup_insert_ne, Hm by done. f_equal. lia.
Qed.

Lemma decrOrDrop_lookup m c x y :
  (∀ z, m !! z = countOpt (c z)) → (∀ z, 0 ≤ c z) → 0 < c x →
  decrOrDrop m x !! y = countOpt (c y - if decide (x = y) then 1 else 0).
Proof.
  intros Hm Hc Hx. unfold decrOrDrop, go_get. rewrite Hm, countOpt_get by lia.
  destruct (decide (x = y)) as [->|Hne].
  - unfold countOpt. destruct (c y - 1 <=? 0).
    + by rewrite lookup_delete_eq.
    + by rewrite lookup_insert_eq.
  - destruct (c x - 1 <=? 0); rewrite ?lookup_delete_ne, ?lookup_insert_ne by done;
      rewrite Hm; f_equal; lia.
Qed.
End counters.

(** ** How the cached quantities change when one key's replica map changes *)

Section cached.
Context (p : gmap prefixKey (gmap string loc)) (k : prefixKey).

Lemma mval_default f :
  f k (∅ : gmap string loc) = 0 → mval f p k = f k (default ∅ (p !! k)).
Proof. intros Hf. unfold mval. by destruct (p !! k). Qed.

Lemma sizeZ_insert (m : gmap string loc) r l :
  m !! r = None → sizeZ (<[r:=l]> m) = sizeZ m + 1.
Proof. intros. unfold sizeZ. rewrite map_size_insert_None by done. lia. Qed.

Lemma sizeZ_delete (m : gmap string loc) r :
  is_Some (m !! r) → sizeZ (delete r m) = sizeZ m - 1.
Proof.
  intros [l Hl]. unfold sizeZ. rewrite <-(insert_delete_id m r l Hl) at 2.
  rewrite map_size_insert_None by apply lookup_delete_eq. lia.
Qed.

Lemma p_total_insert m : p_total (<[k:=m]> p) = p_total p - sizeZ (default ∅ (p !! k)) + sizeZ m.
Proof. unfold p_total. rewrite msum_insert_mval, mval_default; done. Qed.

Lemma p_total_delete : p_total (delete k p) = p_total p - sizeZ (default ∅ (p !! k)).
Proof. unfold p_total. rewrite msum_delete_mval, mval_default; done. Qed.

Lemma p_reserved_insert rt m :
  p_reserved rt (<[k:=m]> p) = p_reserved rt p +
    (if isReservedTenant rt (pk_tenant k) then sizeZ m - sizeZ (default ∅ (p !! k)) else 0).
Proof.
  unfold p_reserved. rewrite msum_insert_mval, mval_default; [case_match; lia|].
  by case_match.
Qed.

Lemma p_reserved_delete rt :
  p_reserved rt (delete k p) = p_reserved rt p -
    (if isReservedTenant rt (pk_tenant k) then sizeZ (default ∅ (p !! k)) else 0).
Proof.
  unfold p_reserved. rewrite msum_delete_mval, mval_default; [done|]. by case_match.
Qed.

Lemma p_tenant_insert t m :
  p_tenant t (<[k:=m]> p) = p_tenant t p +
    (if decide (pk_tenant k = t) then match p !! k with Some _ => 0 | None => 1 end else 0).
Proof.
  unfold p_tenant, zcount. rewrite msum_insert_mval. unfold mval.
  case_decide; case_bool_decide; try done; destruct (p !! k); lia.
Qed.

Lemma p_tenant_delete t :
  is_Some (p !! k) →
  p_tenant t (delete k p) = p_tenant t p - (if decide (pk_tenant k = t) then 1 else 0).
Proof.
  intros [m Hm]. unfold p_tenant, zcount. rewrite msum_delete_mval. unfold mval. rewrite Hm.
  by case_decide; case_bool_decide.
Qed.

Lemma p_model_insert mk m :
  p_model mk (<[k:=m]> p) = p_model mk p +
    (if decide (modelOf k = mk) then match p !! k with Some _ => 0 | None => 1 end else 0).
Proof.
  unfold p_model, zcount. rewrite msum_insert_mval. unfold mval.
  case_decide; case_bool_decide; try done; destruct (p !! k); lia.
Qed.

Lemma p_model_delete mk :
  is_Some (p !! k) →
  p_model mk (delete k p) = p_model mk p - (if decide (modelOf k = mk) then 1 else 0).
Proof.
  intros [m Hm]. unfold p_model, zcount. rewrite msum_delete_mval. unfold mval. rewrite Hm.
  by case_decide; case_bool_decide.
Qed.

Lemma p_scope_insert s r m :
  p_scope s r (<[k:=m]> p) = p_scope s r p +
    (if decide (scopeOf k = s) then
       (if decide (is_Some (m !! r)) then 1 else 0) -
       (if decide (is_Some (default ∅ (p !! k) !! r)) then 1 else 0)
     else 0).
Proof.
  unfold p_scope, zcount. rewrite msum_insert_mval, mval_default.
  - repeat case_decide; repeat case_bool_decide; simpl; try done; lia.
  - rewrite lookup_empty. rewrite (bool_decide_eq_false_2 (is_Some None)).
    + by rewrite andb_false_r.
    + by intros [? [=]].
Qed.

Lemma p_scope_delete s r :
  p_scope s r (delete k p) = p_scope s r p -
    (if decide (scopeOf k = s) then
       (if decide (is_Some (default ∅ (p !! k) !! r)) then 1 else 0) else 0).
Proof.
  unfold p_scope, zcount. rewrite msum_delete_mval, mval_default.
  - repeat case_decide; repeat case_bool_decide; simpl; try done; lia.
  - rewrite lookup_empty. rewrite (bool_decide_eq_false_2 (is_Some None)).
    + by rewrite andb_false_r.
    + by intros [? [=]].
Qed.
End cached.

Lemma p_tenant_nonneg t p : 0 ≤ p_tenant t p.
Proof. apply zcount_nonneg. Qed.
Lemma p_model_nonneg mk p : 0 ≤ p_model mk p.
Proof. apply zcount_nonneg. Qed.
Lemma p_scope_nonneg s r p : 0 ≤ p_scope s r p.
Proof. apply zcount_nonneg. Qed.

#[export] Hint Resolve p_tenant_nonneg p_model_nonneg p_scope_nonneg : core.

(** ** Serving counts *)

Lemma servingAt_scopeInc s r i s' :
  servingAt (scopeIncLocked s r i) s' =
    if decide (s = s') then incr (servingAt i s) r else servingAt i s'.
Proof.
  unfold servingAt, scopeIncLocked. simpl. case_decide as E.
  - subst. by rewrite lookup_insert_eq.
  - by rewrite lookup_insert_ne.
Qed.

Lemma servingAt_scopeDec s r i s' :
  servingAt (scopeDecLocked s r i) s' =
    if decide (s = s') then decrOrDrop (servingAt i s) r else servingAt i s'.
Proof.
  unfold servingAt, scopeDecLocked, decrOrDrop.
  destruct (servingByScope i !! s) as [m|] eqn:Em; simpl.
  - destruct (go_get m r - 1 <=? 0) eqn:El; simpl; [case_bool_decide as Ee|];
      case_decide as Es; subst; rewrite ?lookup_insert_eq, ?lookup_delete_eq,
        ?lookup_insert_ne, ?lookup_delete_ne by done; rewrite ?Em; simpl; rewrite ?El; done.
  - case_decide; subst; [|done]. rewrite Em. simpl. by rewrite delete_empty.
Qed.

Lemma scopeDec_nonempty s r i :
  (∀ s m, servingByScope i !! s = Some m → m ≠ ∅) →
  ∀ s' m, servingByScope (scopeDecLocked s r i) !! s' = Some m → m ≠ ∅.
Proof.
  intros Hne s' m. unfold scopeDecLocked.
  destruct (servingByScope i !! s) as [m0|] eqn:Em; [|apply Hne]. simpl.
  destruct (go_get m0 r - 1 <=? 0); simpl; [case_bool_decide as Ee|].
  - intros [_ ?]%lookup_delete_Some. eauto.
  - intros [[_ <-]|[_ ?]]%lookup_insert_Some; eauto.
  - intros [[_ <-]|[_ ?]]%lookup_insert_Some; [apply insert_non_empty|eauto].
Qed.

(** The fields the serving-count updates leave alone. *)
Lemma scopeDec_frame s r i :
  let i' := scopeDecLocked s r i in
  heap i' = heap i ∧ nextLoc i' = nextLoc i ∧ prefixes i' = prefixes i ∧
  stats i' = stats i ∧ totalEntries i' = totalEntries i ∧
  reservedEntries i' = reservedEntries i ∧ prefixesByTenant i' = prefixesByTenant i ∧
  prefixesByTenantModel i' = prefixesByTenantModel i ∧
  replicasByModel i' = replicasByModel i ∧ reportedModels i' = reportedModels i.
Proof.
  simpl. unfold scopeDecLocked. repeat case_match; simpl; repeat split.
Qed.

Lemma locAt_insert (p : gmap prefixKey (gmap string loc)) k m k' r' :
  (<[k:=m]> p !! k' ≫= lookup r') =
    if decide (k = k') then m !! r' else p !! k' ≫= lookup r'.
Proof. case_decide; subst; by rewrite ?lookup_insert_eq, ?lookup_insert_ne. Qed.

Lemma locAt_replicasAt i k r : locAt i k r = replicasAt i k !! r.
Proof. unfold locAt, replicasAt. by destruct (prefixes i !! k). Qed.

(** ** The effect of the two primitives, field by field *)

(** Refreshing a held entry only writes through its pointer. *)
Lemma upsert_refresh rt k r tc tr ts i l :
  locAt i k r = Some l → upsertReplicaLocked rt k r tc tr ts i = setEntry l tc tr ts i.
Proof.
  intros Hl. unfold upsertReplicaLocked. rewrite locAt_replicasAt in Hl.
  destruct (prefixes i !! k) eqn:Hk.
  - by rewrite Hl.
  - unfold replicasAt in Hl. by rewrite Hk in Hl.
Qed.

Definition newKeyDelta (i : Index) (k : prefixKey) {K : Type} `{Countable K}
    (m : gmap K Z) (x : K) : gmap K Z :=
  match prefixes i !! k with Some _ => m | None => incr m x end.

(** Inserting a new (prefix, replica). *)
Lemma upsert_insert rt k r tc tr ts i :
  locAt i k r = None →
  let i' := upsertReplicaLocked rt k r tc tr ts i in
  heap i' = <[nextLoc i := ReplicaEntry tc ts tr 0]> (heap i) ∧
  nextLoc i' = Pos.succ (nextLoc i) ∧
  prefixes i' = <[k := <[r := nextLoc i]> (replicasAt i k)]> (prefixes i) ∧
  stats i' = stats i ∧
  totalEntries i' = totalEntries i + 1 ∧
  reservedEntries i' =
    (if isReservedTenant rt (pk_tenant k) then reservedEntries i + 1 else reservedEntries i) ∧
  prefixesByTenant i' = newKeyDelta i k (prefixesByTenant i) (pk_tenant k) ∧
  prefixesByTenantModel i' = newKeyDelta i k (prefixesByTenantModel i) (modelOf k) ∧
  servingByScope i' = servingByScope (scopeIncLocked (scopeOf k) r i) ∧
  replicasByModel i' = replicasByModel i ∧ reportedModels i' = reportedModels i.
Proof.
  intros Hl. rewrite locAt_replicasAt in Hl. unfold replicasAt in *.
  unfold upsertReplicaLocked, newKeyDelta, replicasAt.
  destruct (prefixes i !! k) as [m|] eqn:Hk; simpl in *.
  - rewrite Hk. simpl. rewrite Hl. simpl. unfold replicasAt. rewrite Hk.
    rewrite alter_insert_eq. simpl. repeat split.
  - rewrite lookup_insert_eq. simpl. rewrite lookup_empty. simpl.
    unfold replicasAt. simpl. rewrite lookup_insert_eq. simpl.
    rewrite alter_insert_eq, insert_insert_eq. repeat split.
Qed.

(** Removing a held (prefix, replica); removing anything else is a no-op. *)
Lemma remove_absent rt k r i :
  locAt i k r = None → removeReplicaLocked rt k r i = i.
Proof. rewrite locAt_replicasAt. unfold removeReplicaLocked. by intros ->. Qed.

Lemma remove_held rt k r l i :
  locAt i k r = Some l →
  let i' := removeReplicaLocked rt k r i in
  let last := bool_decide (delete r (replicasAt i k) = ∅) in
  heap i' = heap i ∧ nextLoc i' = nextLoc i ∧
  prefixes i' = (if last then delete k (prefixes i)
                 else <[k := delete r (replicasAt i k)]> (prefixes i)) ∧
  stats i' = stats i ∧ totalEntries i' = totalEntries i - 1 ∧
  reservedEntries i' =
    (if isReservedTenant rt (pk_tenant k) then reservedEntries i - 1 else reservedEntries i) ∧
  prefixesByTenant i' = (if last then decrOrDrop (prefixesByTenant i) (pk_tenant k)
                         else prefixesByTenant i) ∧
  prefixesByTenantModel i' = (if last then decrOrDrop (prefixesByTenantModel i) (modelOf k)
                              else prefixesByTenantModel i) ∧
  servingByScope i' = servingByScope (scopeDecLocked (scopeOf k) r i) ∧
  replicasByModel i' = replicasByModel i ∧ reportedModels i' = reportedModels i.
Proof.
  intros Hl. rewrite locAt_replicasAt in Hl. unfold removeReplicaLocked. rewrite Hl.
  match goal with |- context [scopeDecLocked _ _ ?j] =>
    pose proof (scopeDec_frame (scopeOf k) r j) as (?&?&?&?&?&?&?&?&?&?) end.
  simpl in *. repeat split; try done.
  unfold scopeDecLocked. simpl. repeat case_match; done.
Qed.

(** ** Preservation of the invariant *)

Lemma index_wf_empty rt : index_wf rt emptyIndex.
Proof.
  split; split; simpl; unfold locAt, servingAt; simpl; try done.
  - by intros l [? ?%lookup_empty_Some].
  - intros mk r. rewrite !lookup_empty. simpl. rewrite elem_of_empty.
    split; [done|by intros [? [=]]].
Qed.

Lemma wf_setEntry rt l tc tr ts i : index_wf rt i → index_wf rt (setEntry l tc tr ts i).
Proof.
  intros [[] [] [] []]. split; split; simpl; try done.
  - intros k r l' Hl'. rewrite lookup_alter_is_Some. eauto.
  - intros l'. rewrite lookup_alter_is_Some. eauto.
Qed.

Lemma wf_loc_lt i k r l :
  ptr_wf i → locAt i k r = Some l → (l < nextLoc i)%positive.
Proof. intros Hwf Hl. eapply wf_next; [done|]. eapply wf_heap; done. Qed.

Lemma upsert_insert_locAt rt k r tc tr ts i k' r' :
  locAt i k r = None →
  locAt (upsertReplicaLocked rt k r tc tr ts i) k' r' =
    if decide (k = k' ∧ r = r') then Some (nextLoc i) else locAt i k' r'.
Proof.
  intros Hl. pose proof (upsert_insert rt k r tc tr ts i Hl) as (_ & _ & Hp & _).
  unfold locAt. rewrite Hp, locAt_insert.
  destruct (decide (k = k')) as [<-|Hk]; [|rewrite decide_False; [done|naive_solver]].
  rewrite lookup_insert. repeat case_decide; try naive_solver.
  by rewrite <-locAt_replicasAt.
Qed.

Lemma ptr_wf_insert rt k r tc tr ts i :
  ptr_wf i → locAt i k r = None → ptr_wf (upsertReplicaLocked rt k r tc tr ts i).
Proof.
  intros Hwf Hl.
  pose proof (upsert_insert rt k r tc tr ts i Hl) as (Hheap & Hnext & Hp & _).
  split.
  - intros k' m. rewrite Hp.
    intros [[_ <-]|[_ ?]]%lookup_insert_Some; [apply insert_non_empty|by eapply wf_nonempty].
  - intros k' r' l'. rewrite upsert_insert_locAt, Hheap by done. rewrite lookup_insert_is_Some'.
    case_decide; [by intros [= <-]; left|]. intros Hl'. right. by eapply wf_heap.
  - intros k1 r1 k2 r2 l'. rewrite !upsert_insert_locAt by done.
    destruct (decide (k = k1 ∧ r = r1)) as [[<- <-]|];
      destruct (decide (k = k2 ∧ r = r2)) as [[<- <-]|]; intros H1 H2; simplify_eq;
      [done|exfalso; eapply Pos.lt_irrefl; by eapply wf_loc_lt..|by eapply wf_inj].
  - intros l'. rewrite Hheap, Hnext, lookup_insert_is_Some'.
    intros [<-|Hl']; [lia|]. apply (wf_next _ Hwf) in Hl'. lia.
Qed.

Lemma count_wf_insert rt k r tc tr ts i :
  count_wf rt i → locAt i k r = None → count_wf rt (upsertReplicaLocked rt k r tc tr ts i).
Proof.
  intros Hwf Hl.
  pose proof (upsert_insert rt k r tc tr ts i Hl) as
    (_ & _ & Hp & _ & Htot & Hres & Hpt & Hpm & _).
  rewrite locAt_replicasAt in Hl. unfold replicasAt in *.
  split.
  - rewrite Htot, Hp, p_total_insert, (wf_total _ _ Hwf), sizeZ_insert by done. lia.
  - rewrite Hres, Hp, p_reserved_insert, (wf_reserved _ _ Hwf), sizeZ_insert by done.
    case_match; lia.
  - intros t. rewrite Hpt, Hp, p_tenant_insert. unfold newKeyDelta.
    destruct (prefixes i !! k) eqn:Ek.
    + rewrite (wf_tenant _ _ Hwf). f_equal. case_decide; lia.
    + by rewrite (incr_lookup _ (λ t, p_tenant t (prefixes i))); [|apply Hwf|auto].
  - intros mk. rewrite Hpm, Hp, p_model_insert. unfold newKeyDelta.
    destruct (prefixes i !! k) eqn:Ek.
    + rewrite (wf_model _ _ Hwf). f_equal. case_decide; lia.
    + by rewrite (incr_lookup _ (λ mk, p_model mk (prefixes i))); [|apply Hwf|auto].
Qed.

Lemma scope_wf_insert rt k r tc tr ts i :
  scope_wf i → locAt i k r = None → scope_wf (upsertReplicaLocked rt k r tc tr ts i).
Proof.
  intros Hwf Hl.
  pose proof (upsert_insert rt k r tc tr ts i Hl) as (_ & _ & Hp & _ & _ & _ & _ & _ & Hsc & _).
  rewrite locAt_replicasAt in Hl. split.
  - intros s r'. rewrite Hp, p_scope_insert. fold (replicasAt i k).
    unfold servingAt. rewrite Hsc. fold (servingAt (scopeIncLocked (scopeOf k) r i) s).
    rewrite servingAt_scopeInc. destruct (decide (scopeOf k = s)) as [<-|Hs].
    + rewrite (incr_lookup _ (λ r, p_scope (scopeOf k) r (prefixes i))); [|apply Hwf|auto].
      f_equal. destruct (decide (r = r')) as [<-|Hr'].
      * rewrite decide_True by (rewrite lookup_insert_eq; eauto).
        rewrite decide_False by (rewrite Hl; by intros [? [=]]). lia.
      * rewrite lookup_insert_ne by done. case_decide; lia.
    + rewrite (wf_scope _ Hwf). f_equal. lia.
  - intros s m. rewrite Hsc. simpl.
    intros [[_ <-]|[_ ?]]%lookup_insert_Some; [apply insert_non_empty|by eapply wf_scope_nonempty].
Qed.

Lemma stats_wf_frame i i' :
  stats i' = stats i → replicasByModel i' = replicasByModel i → stats_wf i → stats_wf i'.
Proof. intros Hs Hr []. split; intros; rewrite ?Hs, ?Hr in *; eauto. Qed.

Lemma wf_upsert rt k r tc tr ts i :
  index_wf rt i → index_wf rt (upsertReplicaLocked rt k r tc tr ts i).
Proof.
  intros Hwf. destruct (locAt i k r) as [l|] eqn:Hl.
  - rewrite (upsert_refresh _ _ _ _ _ _ _ l Hl). by apply wf_setEntry.
  - pose proof (upsert_insert rt k r tc tr ts i Hl) as
      (_ & _ & _ & Hst & _ & _ & _ & _ & _ & Hrm & _).
    split; [apply ptr_wf_insert|apply count_wf_insert|apply scope_wf_insert|
            apply (stats_wf_frame i)]; auto; apply Hwf.
Qed.

(** ** Removal *)

Lemma remove_locAt rt k r i k' r' :
  locAt (removeReplicaLocked rt k r i) k' r' =
    if decide (k = k' ∧ r = r') then None else locAt i k' r'.
Proof.
  destruct (locAt i k r) as [l|] eqn:Hl; cycle 1.
  { rewrite remove_absent by done. by case_decide as E; [destruct E as [<- <-]|]. }
  pose proof (remove_held rt k r l i Hl) as (_ & _ & Hp & _).
  unfold locAt at 1. rewrite Hp. case_bool_decide as Hlast.
  - destruct (decide (k = k')) as [<-|Hk].
    + rewrite lookup_delete_eq. simpl. case_decide as E; [done|].
      rewrite locAt_replicasAt, <-(lookup_delete_ne (replicasAt i k) r r') by naive_solver.
      by rewrite Hlast, lookup_empty.
    + rewrite lookup_delete_ne by done. rewrite decide_False by naive_solver. done.
  - rewrite locAt_insert. destruct (decide (k = k')) as [<-|Hk].
    + rewrite lookup_delete. repeat case_decide; try naive_solver.
      by rewrite locAt_replicasAt.
    + rewrite decide_False by naive_solver. done.
Qed.

Lemma ptr_wf_remove rt k r l i :
  ptr_wf i → locAt i k r = Some l → ptr_wf (removeReplicaLocked rt k r i).
Proof.
  intros Hwf Hl. pose proof (remove_held rt k r l i Hl) as (Hheap & Hnext & Hp & _).
  split.
  - intros k' m. rewrite Hp. case_bool_decide as Hlast.
    + intros [_ ?]%lookup_delete_Some. by eapply wf_nonempty.
    + intros [[_ <-]|[_ ?]]%lookup_insert_Some; [exact Hlast|by eapply wf_nonempty].
  - intros k' r' l'. rewrite remove_locAt, Hheap. clear Hp.
    case_decide; [by intros|]. by apply wf_heap.
  - intros k1 r1 k2 r2 l'. rewrite !remove_locAt. clear Hp.
    do 2 (case_decide; [by intros|]). by apply wf_inj.
  - intros l'. rewrite Hheap, Hnext. by apply wf_next.
Qed.

Lemma count_wf_remove rt k r l i :
  count_wf rt i → locAt i k r = Some l → count_wf rt (removeReplicaLocked rt k r i).
Proof.
  intros Hwf Hl.
  pose proof (remove_held rt k r l i Hl) as (_ & _ & Hp & _ & Htot & Hres & Hpt & Hpm & _).
  assert (Hk : is_Some (prefixes i !! k)).
  { unfold locAt in Hl. by destruct (prefixes i !! k). }
  rewrite locAt_replicasAt in Hl. unfold replicasAt in *.
  assert (Hsz : sizeZ (delete r (default ∅ (prefixes i !! k))) =
    sizeZ (default ∅ (prefixes i !! k)) - 1) by (apply sizeZ_delete; by eexists).
  assert (Hlast : delete r (default ∅ (prefixes i !! k)) = ∅ →
    sizeZ (default ∅ (prefixes i !! k)) = 1).
  { intros E. rewrite E in Hsz. unfold sizeZ at 1 in Hsz. rewrite map_size_empty in Hsz. lia. }
  split; rewrite ?Htot, ?Hres, ?Hpt, ?Hpm, Hp; clear Htot Hres Hpt Hpm Hp;
    case_bool_decide as El.
  - rewrite p_total_delete, (wf_total _ _ Hwf), Hlast by done. lia.
  - rewrite p_total_insert, (wf_total _ _ Hwf), Hsz. lia.
  - rewrite p_reserved_delete, (wf_reserved _ _ Hwf), Hlast by done. case_match; lia.
  - rewrite p_reserved_insert, (wf_reserved _ _ Hwf), Hsz. case_match; lia.
  - intros t. rewrite p_tenant_delete by done.
    apply (decrOrDrop_lookup _ (λ t, p_tenant t (prefixes i))); [apply Hwf|auto|].
    destruct Hk as [m Hm]. apply zcount_pos. exists k, m. by rewrite bool_decide_true.
  - intros t. rewrite p_tenant_insert, (wf_tenant _ _ Hwf). f_equal.
    destruct Hk as [m ->]. case_decide; lia.
  - intros mk. rewrite p_model_delete by done.
    apply (decrOrDrop_lookup _ (λ mk, p_model mk (prefixes i))); [apply Hwf|auto|].
    destruct Hk as [m Hm]. apply zcount_pos. exists k, m. by rewrite bool_decide_true.
  - intros mk. rewrite p_model_insert, (wf_model _ _ Hwf). f_equal.
    destruct Hk as [m ->]. case_decide; lia.
Qed.

Lemma scope_wf_remove rt k r l i :
  scope_wf i → locAt i k r = Some l → scope_wf (removeReplicaLocked rt k r i).
Proof.
  intros Hwf Hl.
  pose proof (remove_held rt k r l i Hl) as (_ & _ & Hp & _ & _ & _ & _ & _ & Hsc & _).
  assert (Hps : ∀ s r', p_scope s r' (prefixes (removeReplicaLocked rt k r i)) =
    p_scope s r' (prefixes i) -
      if decide (scopeOf k = s) then if decide (r = r') then 1 else 0 else 0).
  { rewrite locAt_replicasAt in Hl. unfold replicasAt in *.
    intros s r'. rewrite Hp. case_bool_decide as El.
    - rewrite p_scope_delete. case_decide; [|done].
      destruct (decide (r = r')) as [<-|Hr]; [by rewrite decide_True by eauto|].
      rewrite decide_False; [done|].
      rewrite <-(lookup_delete_ne _ r r'), El by done. by intros [? ?].
    - rewrite p_scope_insert. case_decide; [|lia]. rewrite lookup_delete.
      destruct (decide (r = r')) as [<-|Hr]; [|case_decide; lia].
      rewrite (decide_True (P := is_Some (default ∅ (prefixes i !! k) !! r))) by eauto.
      rewrite decide_False; [lia|by intros [? ?]]. }
  split.
  - intros s r'. rewrite Hps. unfold servingAt. rewrite Hsc.
    fold (servingAt (scopeDecLocked (scopeOf k) r i) s). rewrite servingAt_scopeDec.
    destruct (decide (scopeOf k = s)) as [<-|Hs].
    + apply (decrOrDrop_lookup _ (λ r, p_scope (scopeOf k) r (prefixes i))); [apply Hwf|auto|].
      unfold locAt in Hl. destruct (prefixes i !! k) as [m|] eqn:Hm; [|done]. simpl in Hl.
      apply zcount_pos. exists k, m. split; [done|].
      by rewrite !bool_decide_true by eauto.
    + rewrite (wf_scope _ Hwf). f_equal. lia.
  - intros s m. rewrite Hsc. apply scopeDec_nonempty, Hwf.
Qed.

Lemma wf_remove rt k r i : index_wf rt i → index_wf rt (removeReplicaLocked rt k r i).
Proof.
  intros Hwf. destruct (locAt i k r) as [l|] eqn:Hl; [|by rewrite remove_absent].
  pose proof (remove_held rt k r l i Hl) as (_ & _ & _ & Hst & _ & _ & _ & _ & _ & Hrm & _).
  split; [eapply ptr_wf_remove|eapply count_wf_remove|eapply scope_wf_remove|
          apply (stats_wf_frame i)]; eauto; apply Hwf.
Qed.

(** ** Stats *)

Lemma is_nan_f64_of_f32 f : is_nan f = true → is_nan (f64_of_f32 f) = true.
Proof. by destruct f. Qed.

Lemma is_inf_f64_of_f32 f : is_inf f = true → is_inf (f64_of_f32 f) = true.
Proof. by destruct f. Qed.

Lemma sanitizeRate_finite f :
  is_nan (sanitizeRate f) = false ∧ is_inf (sanitizeRate f) = false.
Proof.
  unfold sanitizeRate. destruct (is_nan (f64_of_f32 f)) eqn:En; [done|].
  destruct (is_inf (f64_of_f32 f)) eqn:Ei; [done|]. simpl. split.
  - apply not_true_is_false. intros E%is_nan_f64_of_f32. congruence.
  - apply not_true_is_false. intros E%is_inf_f64_of_f32. congruence.
Qed.

(** Stats entries whose rates are finite and whose id is the key's. *)
Definition stat_ok (replicaID : string) (s : statEntry) : Prop :=
  rs_ReplicaID (se_stats s) = replicaID ∧
  is_nan (rs_HitRate (se_stats s)) = false ∧ is_inf (rs_HitRate (se_stats s)) = false ∧
  is_nan (rs_Pressure (se_stats s)) = false ∧ is_inf (rs_Pressure (se_stats s)) = false.

Lemma statsKey_split sk mk r :
  sk = StatsKey (mk_tenant mk) (mk_model mk) r ↔
  ModelKey (sk_tenant sk) (sk_model sk) = mk ∧ sk_replicaID sk = r.
Proof. destruct sk, mk; simpl. naive_solver. Qed.

Lemma wf_putStats rt t m r s i :
  stat_ok r s → index_wf rt i → index_wf rt (putStats t m r s i).
Proof.
  intros Hok [[] [] [] []]. split; split; simpl; try done.
  - intros mk r'. rewrite !lookup_insert.
    destruct (decide (ModelKey t m = mk)) as [<-|Hmk]; simpl.
    + rewrite elem_of_union, elem_of_singleton.
      destruct (decide (r = r')) as [->|Hr]; [rewrite decide_True by done; naive_solver|].
      rewrite decide_False by naive_solver. rewrite wf_stats0. naive_solver.
    + rewrite decide_False by (destruct mk; naive_solver). apply wf_stats0.
  - intros mk s0. intros [[_ <-]|[_ ?]]%lookup_insert_Some; [set_solver|eauto].
  - intros sk s0. intros [[<- <-]|[_ ?]]%lookup_insert_Some; [apply Hok|eauto].
Qed.

Lemma replicasByModel_remove mk r i mk' :
  default ∅ (replicasByModel (statsScopeRemoveLocked mk r i) !! mk') =
    if decide (mk = mk') then default ∅ (replicasByModel i !! mk') ∖ {[r]}
    else default ∅ (replicasByModel i !! mk').
Proof.
  unfold statsScopeRemoveLocked. destruct (replicasByModel i !! mk) as [s|] eqn:E; simpl.
  - case_bool_decide as Ee; case_decide as Ek; subst;
      rewrite ?lookup_delete_eq, ?lookup_insert_eq, ?lookup_delete_ne, ?lookup_insert_ne by done;
      rewrite ?E; done.
  - case_decide; subst; [|done]. rewrite E. simpl. set_solver.
Qed.

Lemma statsScopeRemove_frame mk r i :
  let i' := statsScopeRemoveLocked mk r i in
  heap i' = heap i ∧ nextLoc i' = nextLoc i ∧ prefixes i' = prefixes i ∧
  stats i' = stats i ∧ totalEntries i' = totalEntries i ∧
  reservedEntries i' = reservedEntries i ∧ prefixesByTenant i' = prefixesByTenant i ∧
  prefixesByTenantModel i' = prefixesByTenantModel i ∧
  servingByScope i' = servingByScope i ∧ reportedModels i' = reportedModels i.
Proof. simpl. unfold statsScopeRemoveLocked. case_match; simpl; repeat split. Qed.

(** What a stats deletion leaves alone. *)
Lemma dropStats_frame sk i :
  let i' := dropStats sk i in
  heap i' = heap i ∧ nextLoc i' = nextLoc i ∧ prefixes i' = prefixes i ∧
  stats i' = delete sk (stats i) ∧ totalEntries i' = totalEntries i ∧
  reservedEntries i' = reservedEntries i ∧ prefixesByTenant i' = prefixesByTenant i ∧
  prefixesByTenantModel i' = prefixesByTenantModel i ∧
  servingByScope i' = servingByScope i ∧ reportedModels i' = reportedModels i.
Proof.
  unfold dropStats. simpl.
  pose proof (statsScopeRemove_frame (ModelKey (sk_tenant sk) (sk_model sk))
    (sk_replicaID sk) (set_stats (delete sk) i)) as (?&?&?&?&?&?&?&?&?&?).
  simpl in *. repeat split; done.
Qed.

Lemma stats_wf_dropStats sk i : stats_wf i → stats_wf (dropStats sk i).
Proof.
  intros Hwf. pose proof (dropStats_frame sk i) as (_&_&_&Hst&_). split.
  - intros mk r. rewrite Hst. unfold dropStats. rewrite replicasByModel_remove. simpl.
    pose proof (statsKey_split sk mk r) as Hsp. rewrite lookup_delete.
    destruct (decide (sk = StatsKey (mk_tenant mk) (mk_model mk) r)) as [->|Hne].
    + simpl. rewrite decide_True by (by destruct mk). rewrite elem_of_difference.
      split; [set_solver|by intros [? [=]]].
    + rewrite <-(wf_stats _ Hwf). case_decide; [set_solver|done].
  - intros mk s. unfold dropStats, statsScopeRemoveLocked. simpl.
    case_match eqn:E; [|apply (wf_stats_nonempty _ Hwf)]. simpl.
    case_bool_decide as Ee.
    + intros [_ ?]%lookup_delete_Some. by eapply wf_stats_nonempty.
    + intros [[_ <-]|[_ ?]]%lookup_insert_Some; [done|by eapply wf_stats_nonempty].
  - intros sk' s. rewrite Hst. intros [_ ?]%lookup_delete_Some. by eapply wf_stats_rates.
Qed.

Lemma wf_frame rt i i' :
  heap i' = heap i → nextLoc i' = nextLoc i → prefixes i' = prefixes i →
  totalEntries i' = totalEntries i → reservedEntries i' = reservedEntries i →
  prefixesByTenant i' = prefixesByTenant i →
  prefixesByTenantModel i' = prefixesByTenantModel i →
  servingByScope i' = servingByScope i → stats_wf i' → index_wf rt i → index_wf rt i'.
Proof.
  intros H1 H2 H3 H4 H5 H6 H7 H8 Hs [[] [] [] _].
  unfold locAt, servingAt in *.
  split; [split|split|split|done]; unfold locAt, servingAt; rewrite ?H1, ?H2, ?H3, ?H4, ?H5,
    ?H6, ?H7, ?H8; done.
Qed.

Lemma wf_dropStats rt sk i : index_wf rt i → index_wf rt (dropStats sk i).
Proof.
  intros Hwf. pose proof (dropStats_frame sk i) as (?&?&?&?&?&?&?&?&?&?).
  eapply wf_frame; eauto. apply stats_wf_dropStats, Hwf.
Qed.

#[export] Hint Resolve index_wf_empty wf_setEntry wf_upsert wf_remove wf_dropStats : index_wf.

(** ** The entries the index holds, through the pointers *)

Lemma entryAt_locAt i k r : entryAt i k r = l ← locAt i k r; heap i !! l.
Proof. done. Qed.

Lemma entryAt_is_Some rt i k r :
  index_wf rt i → is_Some (entryAt i k r) ↔ is_Some (locAt i k r).
Proof.
  intros Hwf. rewrite entryAt_locAt. split.
  - intros [e He]. by apply bind_Some in He as (l & -> & _).
  - intros [l Hl]. rewrite Hl. simpl. by eapply wf_heap; [apply Hwf|].
Qed.

Lemma entryAt_setEntry i k r l tc tr ts k' r' :
  ptr_wf i → locAt i k r = Some l →
  entryAt (setEntry l tc tr ts i) k' r' =
    if decide (k = k' ∧ r = r')
    then Some (ReplicaEntry tc ts tr (default 0 (accessCount <$> entryAt i k r)))
    else entryAt i k' r'.
Proof.
  intros Hwf Hl. rewrite !entryAt_locAt. unfold locAt at 1. simpl. fold (locAt i k' r').
  destruct (wf_heap _ Hwf _ _ _ Hl) as [e He].
  case_decide as E.
  - destruct E as [<- <-]. rewrite Hl. simpl. by rewrite lookup_alter_eq, He.
  - destruct (locAt i k' r') as [l'|] eqn:Hl'; [|done]. simpl.
    rewrite lookup_alter_ne; [done|]. intros <-. destruct E. by eapply wf_inj.
Qed.

(** A refresh keeps the LFU counter; a first insert starts it at zero; nothing
    else in the index changes. *)
Lemma entryAt_upsert rt k r tc tr ts i k' r' :
  ptr_wf i →
  entryAt (upsertReplicaLocked rt k r tc tr ts i) k' r' =
    if decide (k = k' ∧ r = r')
    then Some (ReplicaEntry tc ts tr (default 0 (accessCount <$> entryAt i k r)))
    else entryAt i k' r'.
Proof.
  intros Hwf. destruct (locAt i k r) as [l|] eqn:Hl.
  - rewrite (upsert_refresh _ _ _ _ _ _ _ l Hl). by apply entryAt_setEntry.
  - rewrite !entryAt_locAt, upsert_insert_locAt by done.
    pose proof (upsert_insert rt k r tc tr ts i Hl) as (-> & _).
    rewrite Hl. simpl. case_decide.
    + simpl. by rewrite lookup_insert_eq.
    + destruct (locAt i k' r') as [l'|] eqn:Hl'; [|done]. simpl.
      rewrite lookup_insert_ne; [done|]. apply wf_loc_lt in Hl'; [|done]. lia.
Qed.

Lemma remove_heap rt k r i : heap (removeReplicaLocked rt k r i) = heap i.
Proof.
  destruct (locAt i k r) as [l|] eqn:Hl; [|by rewrite remove_absent].
  by pose proof (remove_held rt k r l i Hl) as (-> & _).
Qed.

Lemma entryAt_remove rt k r i k' r' :
  entryAt (removeReplicaLocked rt k r i) k' r' =
    if decide (k = k' ∧ r = r') then None else entryAt i k' r'.
Proof.
  rewrite !entryAt_locAt, remove_locAt, remove_heap. by case_decide.
Qed.

Lemma remove_stats rt k r i :
  stats (removeReplicaLocked rt k r i) = stats i ∧
  reportedModels (removeReplicaLocked rt k r i) = reportedModels i.
Proof.
  destruct (locAt i k r) as [l|] eqn:Hl; [|by rewrite remove_absent].
  by pose proof (remove_held rt k r l i Hl) as (_&_&_&->&_&_&_&_&_&_&->).
Qed.

Lemma entryAt_frame i i' k r :
  heap i' = heap i → prefixes i' = prefixes i → entryAt i' k r = entryAt i k r.
Proof. unfold entryAt. by intros -> ->. Qed.
