(* ===== verification/IndexMetrics.v ===== *)
(** * Per-model entry counts and their gauge
    (internal/index/snapshot.go [EntryCountsByModel], accounting.go [reportEntries])

    The metrics sink is the list of calls made on it.  [applyCalls] replays them
    on the exported gauge, so [reportEntries_gauge] can state that the gauge of
    every model shows the live distinct-prefix count after a report, a drained
    model included. *)

From S2P Require Import Prelude Ordering GoRuntime IndexTypes IndexAccounting.

(** [for k, v := range m { if b, ok := f(k, v); ok { counts[b]++ } }]. *)
Definition countBuckets {K V B : Type} `{Countable B} (f : K → V → option B)
    (l : list (K * V)) : gmap B Z :=
  foldl (λ acc '(k, v), match f k v with Some b => incr acc b | None => acc end) ∅ l.

Definition EntryCountsByModel (cfg : IndexConfig) (i : Index) : gmap string Z :=
  countBuckets
    (λ key _, if isReservedTenant (cfg_reservedTenants cfg) (pk_tenant key) then None
              else Some (pk_model key))
    (map_to_list (prefixes i)).

Definition reportEntries (cfg : IndexConfig) (i : Index) : Index * list MetricCall :=
  if negb (cfg_metrics cfg) then (i, [])
  else
    let counts := EntryCountsByModel cfg i in
    let drained := filter (λ model, counts !! model = None) (elements (reportedModels i)) in
    (set_reportedModels (λ rep, (rep ∖ list_to_set drained) ∪ dom counts) i,
     ((λ model, SetIndexEntries model 0) <$> drained) ++
     ((λ '(model, n), SetIndexEntries model n) <$> map_to_list counts)).

(** The gauge exported by the sink after a call. *)
Definition applyCall (g : gmap string Z) (c : MetricCall) : gmap string Z :=
  match c with SetIndexEntries model n => <[model := n]> g | _ => g end.

Definition applyCalls (g : gmap string Z) (cs : list MetricCall) : gmap string Z :=
  foldl applyCall g cs.

(** Models never reported show nothing but zero. *)
Definition gaugeSound (g : gmap string Z) (i : Index) : Prop :=
  ∀ m, m ∉ reportedModels i → go_get g m = 0.

(** ** Counting into buckets *)

Section buckets.
Context {K V B : Type} `{Countable K} `{Countable B} (f : K → V → option B).

Lemma countBuckets_aux (l : list (K * V)) (acc : gmap B Z) (c : B → Z) b :
  (∀ z, acc !! z = countOpt (c z)) → (∀ z, 0 ≤ c z) →
  foldl (λ acc '(k, v), match f k v with Some b => incr acc b | None => acc end) acc l !! b =
    countOpt (c b + lsum (λ kv, if decide (f kv.1 kv.2 = Some b) then 1 else 0) l).
Proof.
  revert acc c. induction l as [|[k v] l IH]; intros acc c Hacc Hc; simpl.
  { rewrite Hacc. f_equal. lia. }
  destruct (f k v) as [b'|] eqn:Ef.
  - rewrite (IH _ (λ z, c z + if decide (b' = z) then 1 else 0)).
    + f_equal. repeat case_decide; naive_solver lia.
    + intros z. by apply incr_lookup.
    + intros z. specialize (Hc z). case_decide; lia.
  - rewrite (IH _ c) by done. f_equal.
Qed.

Lemma countBuckets_lookup (m : gmap K V) b :
  countBuckets f (map_to_list m) !! b =
    countOpt (zcount (λ k v, bool_decide (f k v = Some b)) m).
Proof.
  unfold countBuckets. rewrite (countBuckets_aux _ _ (λ _, 0)); [|done|done].
  unfold zcount. rewrite msum_lsum. f_equal.
  induction (map_to_list m) as [|[k v] l IH]; simpl; [done|].
  case_decide; case_bool_decide; naive_solver lia.
Qed.
End buckets.

Lemma EntryCountsByModel_lookup cfg i m :
  EntryCountsByModel cfg i !! m = countOpt (zcount
    (λ k _, negb (isReservedTenant (cfg_reservedTenants cfg) (pk_tenant k)) &&
            bool_decide (pk_model k = m)) (prefixes i)).
Proof.
  unfold EntryCountsByModel. rewrite countBuckets_lookup. f_equal.
  apply msum_ext. intros k v _. destruct (isReservedTenant _ _).
  - by rewrite bool_decide_false.
  - do 2 case_bool_decide; naive_solver.
Qed.

(** ** The gauge *)

Lemma applyCalls_app g cs cs' : applyCalls g (cs ++ cs') = applyCalls (applyCalls g cs) cs'.
Proof. apply foldl_app. Qed.

Lemma applyCalls_zero g (l : list string) m :
  go_get (applyCalls g ((λ model, SetIndexEntries model 0) <$> l)) m =
    if decide (m ∈ l) then 0 else go_get g m.
Proof.
  revert g. induction l as [|x l IH]; intros g; simpl; [done|].
  rewrite IH. unfold go_get. rewrite lookup_insert.
  repeat case_decide; set_solver.
Qed.

Lemma applyCalls_set g (l : list (string * Z)) m :
  NoDup l.*1 →
  applyCalls g ((λ '(model, n), SetIndexEntries model n) <$> l) !! m =
    match (list_to_map l : gmap string Z) !! m with Some n => Some n | None => g !! m end.
Proof.
  revert g. induction l as [|[x n] l IH]; intros g Hnd; simpl in *.
  { by rewrite lookup_empty. }
  apply NoDup_cons in Hnd as [Hx Hnd]. rewrite IH by done. rewrite !lookup_insert.
  destruct (decide (x = m)) as [->|]; [|done].
  by rewrite (not_elem_of_list_to_map_1 l m Hx).
Qed.

Lemma applyCalls_counts g (counts : gmap string Z) m :
  applyCalls g ((λ '(model, n), SetIndexEntries model n) <$> map_to_list counts) !! m =
    match counts !! m with Some n => Some n | None => g !! m end.
Proof.
  rewrite applyCalls_set by apply NoDup_fst_map_to_list. by rewrite list_to_map_to_list.
Qed.

Lemma reportEntries_frame cfg i :
  let i' := (reportEntries cfg i).1 in
  heap i' = heap i ∧ nextLoc i' = nextLoc i ∧ prefixes i' = prefixes i ∧ stats i' = stats i ∧
  totalEntries i' = totalEntries i ∧ reservedEntries i' = reservedEntries i ∧
  prefixesByTenant i' = prefixesByTenant i ∧
  prefixesByTenantModel i' = prefixesByTenantModel i ∧
  servingByScope i' = servingByScope i ∧ replicasByModel i' = replicasByModel i.
Proof. simpl. unfold reportEntries. case_match; simpl; repeat split. Qed.

Lemma wf_reportEntries rt cfg i : index_wf rt i → index_wf rt (reportEntries cfg i).1.
Proof.
  intros Hwf. pose proof (reportEntries_frame cfg i) as (?&?&?&?&?&?&?&?&?&?).
  eapply wf_frame; eauto. eapply stats_wf_frame; eauto. apply Hwf.
Qed.

#[export] Hint Resolve wf_reportEntries : index_wf.

Lemma entryAt_reportEntries cfg i k r :
  entryAt (reportEntries cfg i).1 k r = entryAt i k r.
Proof. pose proof (reportEntries_frame cfg i) as (?&?&?&?). by apply entryAt_frame. Qed.

Lemma reportEntries_gauge_aux cfg i g :
  cfg_metrics cfg = true → gaugeSound g i →
  let '(i', cs) := reportEntries cfg i in
  (∀ m, go_get (applyCalls g cs) m = go_get (EntryCountsByModel cfg i) m) ∧
  gaugeSound (applyCalls g cs) i'.
Proof.
  intros Hm Hg. unfold reportEntries. rewrite Hm. simpl.
  set (counts := EntryCountsByModel cfg i).
  assert (Heq : ∀ m, go_get (applyCalls g
    (((λ model, SetIndexEntries model 0) <$>
      filter (λ model, counts !! model = None) (elements (reportedModels i))) ++
     ((λ '(model, n), SetIndexEntries model n) <$> map_to_list counts))) m = go_get counts m).
  { intros m. rewrite applyCalls_app. unfold go_get at 1.
    rewrite applyCalls_counts. unfold go_get at 1.
    destruct (counts !! m) as [n|] eqn:E; [done|]. simpl.
    pose proof (applyCalls_zero g (filter (λ model, counts !! model = None)
      (elements (reportedModels i))) m) as Hz. unfold go_get at 1 in Hz. rewrite Hz.
    case_decide as Hin; [done|]. apply Hg. intros Hrep. apply Hin.
    rewrite list_elem_of_filter, elem_of_elements. done. }
  split; [exact Heq|]. intros m Hnot. rewrite Heq. simpl in Hnot.
  unfold go_get. destruct (counts !! m) eqn:E; [|done].
  destruct Hnot. apply elem_of_union_r, elem_of_dom. eauto.
Qed.
