(* ===== verification/IndexEviction.v ===== *)
(** * Eviction (internal/index/eviction.go): TTL sweep, global cap, tenant quota *)

From S2P Require Import Prelude Ordering GoRuntime IndexTypes IndexAccounting IndexMetrics.

(** ** Operations *)

Definition tenantEvictionReasonOverEntries : string := "over_entries".
Definition indexEvictionReasonCap : string := "cap".
Definition indexEvictionReasonTTL : string := "ttl".

Definition ttlFor (cfg : IndexConfig) (tenant : string) : Duration :=
  match cfg_ttlResolver cfg with
  | Some resolver => let d := resolver tenant in if 0 <? d then d else cfg_ttl cfg
  | None => cfg_ttl cfg
  end.

Definition evictionFor (cfg : IndexConfig) (tenant : string) : string :=
  match cfg_evictionResolver cfg with
  | Some resolver =>
      if str_eqb (to_lower (resolver tenant)) EvictionLFU then EvictionLFU else EvictionLRU
  | None => EvictionLRU
  end.

Definition tenantQuotaFor (cfg : IndexConfig) (tenant : string) : option Z :=
  match cfg_quotaResolver cfg with
  | None => None
  | Some resolver => resolver tenant
  end.

(** [ttl > 0 && now.Sub(seen) >= ttl]. *)
Definition expired (cfg : IndexConfig) (now : Time) (tenant : string) (seen : Time) : bool :=
  (0 <? ttlFor cfg tenant) && (ttlFor cfg tenant <=? time_sub now seen).

(** The body of the sweep's loop over one prefix's replicas. *)
Definition sweepReplica (cfg : IndexConfig) (now : Time) (key : prefixKey)
    (acc : Index * gmap string Z) (idl : string * loc) : Index * gmap string Z :=
  let '(i, ttlEvicted) := acc in
  let '(id, l) := idl in
  match heap i !! l with
  | Some e =>
      if expired cfg now (pk_tenant key) (lastSeen e) then
        (removeReplicaLocked (cfg_reservedTenants cfg) key id i,
         incr ttlEvicted (evictionFor cfg (pk_tenant key)))
      else acc
  | None => acc
  end.

Definition sweepPrefixes (cfg : IndexConfig) (now : Time) (i : Index) : Index * gmap string Z :=
  foldl (λ acc '(key, replicas), foldl (sweepReplica cfg now key) acc (map_to_list replicas))
    (i, ∅) (map_to_list (prefixes i)).

Definition sweepStats (cfg : IndexConfig) (now : Time) (i : Index) : Index :=
  foldl (λ i '(sk, s),
    if expired cfg now (sk_tenant sk) (se_lastSeen s) then dropStats sk i else i)
    i (map_to_list (stats i)).

Definition evictionCalls (reason : string) (evicted : gmap string Z) : list MetricCall :=
  (λ '(algo, n), AddIndexEvictions algo reason n) <$> map_to_list evicted.

Definition evictExpired (cfg : IndexConfig) (now : Time) (i : Index) :
    Index * list MetricCall :=
  let '(i, ttlEvicted) := sweepPrefixes cfg now i in
  let i := sweepStats cfg now i in
  let calls := if cfg_metrics cfg then evictionCalls indexEvictionReasonTTL ttlEvicted else [] in
  let '(i, reported) := reportEntries cfg i in
  (i, calls ++ reported).

(** A candidate victim of the cap sweep. *)
Record capRef := CapRef {
  cr_key : prefixKey;
  cr_replica : string;
  cr_algo : string;
  cr_effectiveCount : Z;
  cr_lastSeen : Time
}.

(** The comparator of the cap sweep. *)
Definition capLess (x y : capRef) : bool :=
  if negb (cr_effectiveCount x =? cr_effectiveCount y)
  then cr_effectiveCount x <? cr_effectiveCount y
  else if negb (cr_lastSeen x =? cr_lastSeen y)
  then time_before (cr_lastSeen x) (cr_lastSeen y)
  else if negb (bool_decide (cr_key x = cr_key y)) then
    if negb (str_eqb (pk_tenant (cr_key x)) (pk_tenant (cr_key y)))
    then str_lt (pk_tenant (cr_key x)) (pk_tenant (cr_key y))
    else if negb (str_eqb (pk_model (cr_key x)) (pk_model (cr_key y)))
    then str_lt (pk_model (cr_key x)) (pk_model (cr_key y))
    else if negb (str_eqb (pk_hashScheme (cr_key x)) (pk_hashScheme (cr_key y)))
    then str_lt (pk_hashScheme (cr_key x)) (pk_hashScheme (cr_key y))
    else if negb (str_eqb (pk_adapter (cr_key x)) (pk_adapter (cr_key y)))
    then str_lt (pk_adapter (cr_key x)) (pk_adapter (cr_key y))
    else str_lt (pk_prefixHash (cr_key x)) (pk_prefixHash (cr_key y))
  else str_lt (cr_replica x) (cr_replica y).

(** The candidates under one prefix key. *)
Definition capRefsAt (cfg : IndexConfig) (i : Index) (key : prefixKey)
    (replicas : gmap string loc) : list capRef :=
  let algo := evictionFor cfg (pk_tenant key) in
  omap (λ '(id, l),
    e ← heap i !! l;
    Some (CapRef key id algo (if str_eqb algo EvictionLFU then accessCount e else 0)
            (lastSeen e)))
    (map_to_list replicas).

(** The slice [all]: every entry of a non-reserved tenant. *)
Definition capRefs (cfg : IndexConfig) (i : Index) : list capRef :=
  mbind (λ '(key, replicas),
    if isReservedTenant (cfg_reservedTenants cfg) (pk_tenant key) then []
    else capRefsAt cfg i key replicas) (map_to_list (prefixes i)).

(** The removal loop with its [break]. *)
Fixpoint capLoop (cfg : IndexConfig) (all : list capRef) (i : Index)
    (evicted : gmap string Z) : Index * gmap string Z :=
  match all with
  | [] => (i, evicted)
  | r :: rest =>
      if totalEntries i - reservedEntries i <=? cfg_maxEntries cfg then (i, evicted)
      else capLoop cfg rest
             (removeReplicaLocked (cfg_reservedTenants cfg) (cr_key r) (cr_replica r) i)
             (incr evicted (cr_algo r))
  end.

(** The sweep over a given enumeration of the candidates. *)
Definition enforceCapOver (cfg : IndexConfig) (all : list capRef) (i : Index) :
    Index * gmap string Z :=
  let effectiveTotal := totalEntries i - reservedEntries i in
  if (cfg_maxEntries cfg <=? 0) || (effectiveTotal <=? cfg_maxEntries cfg) then (i, ∅)
  else capLoop cfg (go_sort capLess all) i ∅.

Definition enforceCapLocked (cfg : IndexConfig) (i : Index) : Index * gmap string Z :=
  enforceCapOver cfg (capRefs cfg i) i.

(** A candidate victim of the quota sweep; [qr_age] is the freshest holder's
    lastSeen, starting from the zero time. *)
Record quotaRef := QuotaRef { qr_key : prefixKey; qr_age : Time }.

Definition newestSeen (i : Index) (replicas : gmap string loc) : Time :=
  foldl (λ newest '(_, l),
    match heap i !! l with
    | Some e => if time_after (lastSeen e) newest then lastSeen e else newest
    | None => newest
    end) time_zero (map_to_list replicas).

Definition quotaLess (a b : quotaRef) : bool :=
  if negb (qr_age a =? qr_age b) then time_before (qr_age a) (qr_age b)
  else
    let x := qr_key a in
    let y := qr_key b in
    if negb (str_eqb (pk_model x) (pk_model y)) then str_lt (pk_model x) (pk_model y)
    else if negb (str_eqb (pk_hashScheme x) (pk_hashScheme y))
    then str_lt (pk_hashScheme x) (pk_hashScheme y)
    else if negb (str_eqb (pk_adapter x) (pk_adapter y))
    then str_lt (pk_adapter x) (pk_adapter y)
    else str_lt (pk_prefixHash x) (pk_prefixHash y).

Definition quotaRefs (tenant : string) (i : Index) : list quotaRef :=
  omap (λ '(key, replicas),
    if negb (str_eqb (pk_tenant key) tenant) then None
    else Some (QuotaRef key (newestSeen i replicas))) (map_to_list (prefixes i)).

(** Drop a whole prefix: the replica ids are collected first. *)
Definition dropPrefix (rt : gset string) (key : prefixKey) (i : Index) : Index :=
  foldl (λ i id, removeReplicaLocked rt key id i) i (map_to_list (replicasAt i key)).*1.

Fixpoint quotaLoop (rt : gset string) (tenant : string) (maxPrefixes : Z)
    (all : list quotaRef) (i : Index) (removed : Z) : Index * Z :=
  match all with
  | [] => (i, removed)
  | r :: rest =>
      if go_get (prefixesByTenant i) tenant <=? maxPrefixes then (i, removed)
      else quotaLoop rt tenant maxPrefixes rest (dropPrefix rt (qr_key r) i) (removed + 1)
  end.

Definition evictOldestOver (rt : gset string) (tenant : string) (maxPrefixes : Z)
    (all : list quotaRef) (i : Index) : Index * Z :=
  if maxPrefixes <? 0 then (i, 0)
  else if go_get (prefixesByTenant i) tenant <=? maxPrefixes then (i, 0)
  else quotaLoop rt tenant maxPrefixes (go_sort quotaLess all) i 0.

Definition evictOldestForTenantLocked (rt : gset string) (tenant : string)
    (maxPrefixes : Z) (i : Index) : Index * Z :=
  evictOldestOver rt tenant maxPrefixes (quotaRefs tenant i) i.

(** ** Removing a list of entries

    Every eviction is a sequence of single removals; [removeMany] is that
    sequence, and the lemmas say what it leaves. *)

Definition removeMany (rt : gset string) (l : list (prefixKey * string)) (i : Index) : Index :=
  foldl (λ i kr, removeReplicaLocked rt kr.1 kr.2 i) i l.

(** The over-cap measurement. *)
Definition effectiveTotal (i : Index) : Z := totalEntries i - reservedEntries i.

Lemma removeMany_app rt l1 l2 i :
  removeMany rt (l1 ++ l2) i = removeMany rt l2 (removeMany rt l1 i).
Proof. apply foldl_app. Qed.

Lemma wf_removeMany rt l i : index_wf rt i → index_wf rt (removeMany rt l i).
Proof. intros Hwf. apply (foldl_inv (index_wf rt)); [done|]. intros. by apply wf_remove. Qed.

Lemma removeMany_locAt rt l i k r :
  locAt (removeMany rt l i) k r = if decide ((k, r) ∈ l) then None else locAt i k r.
Proof.
  revert i. induction l as [|[k' r'] l IH]; intros i; simpl; [done|].
  rewrite IH, remove_locAt. simpl. repeat case_decide; set_solver.
Qed.

Lemma removeMany_heap rt l i : heap (removeMany rt l i) = heap i.
Proof.
  revert i. induction l as [|[k' r'] l IH]; intros i; simpl; [done|].
  by rewrite IH, remove_heap.
Qed.

Lemma removeMany_entryAt rt l i k r :
  entryAt (removeMany rt l i) k r = if decide ((k, r) ∈ l) then None else entryAt i k r.
Proof. rewrite !entryAt_locAt, removeMany_locAt, removeMany_heap. by case_decide. Qed.

Lemma removeMany_stats rt l i :
  stats (removeMany rt l i) = stats i ∧ reportedModels (removeMany rt l i) = reportedModels i.
Proof.
  revert i. induction l as [|[k' r'] l IH]; intros i; simpl; [done|].
  destruct (IH (removeReplicaLocked rt k' r' i)) as [-> ->]. apply remove_stats.
Qed.

Lemma remove_effective rt k r i :
  is_Some (locAt i k r) → isReservedTenant rt (pk_tenant k) = false →
  effectiveTotal (removeReplicaLocked rt k r i) = effectiveTotal i - 1.
Proof.
  intros [l Hl] Hr. pose proof (remove_held rt k r l i Hl) as (_&_&_&_&Ht&Hres&_).
  unfold effectiveTotal. rewrite Ht, Hres, Hr. lia.
Qed.

(** ** The cap sweep *)

Definition capId (r : capRef) : prefixKey * string := (cr_key r, cr_replica r).

(** The candidates are distinct, held, and of non-reserved tenants. *)
Definition capRefsOK (rt : gset string) (i : Index) (all : list capRef) : Prop :=
  NoDup (capId <$> all) ∧
  Forall (λ r, is_Some (locAt i (cr_key r) (cr_replica r)) ∧
               isReservedTenant rt (pk_tenant (cr_key r)) = false) all.

Lemma capRefsOK_remove rt i r all :
  capRefsOK rt i (r :: all) →
  capRefsOK rt (removeReplicaLocked rt (cr_key r) (cr_replica r) i) all.
Proof.
  intros [Hnd Hall]. apply NoDup_cons in Hnd as [Hr Hnd].
  inversion_clear Hall as [|?? _ Hrest]. split; [done|].
  rewrite Forall_forall in Hrest |- *. intros x Hx. destruct (Hrest x Hx) as [Hl Hres].
  split; [|done]. rewrite remove_locAt, decide_False; [done|].
  intros [E1 E2]. apply Hr, list_elem_of_fmap. exists x. split; [|done].
  unfold capId. congruence.
Qed.

(** The number of victims: the excess over the cap. *)
Definition excess (cfg : IndexConfig) (i : Index) : nat :=
  Z.to_nat (effectiveTotal i - cfg_maxEntries cfg).

Lemma capLoop_spec cfg all i ev :
  capRefsOK (cfg_reservedTenants cfg) i all →
  capLoop cfg all i ev =
    (removeMany (cfg_reservedTenants cfg) (capId <$> take (excess cfg i) all) i,
     foldl incr ev (cr_algo <$> take (excess cfg i) all)).
Proof.
  revert i ev. induction all as [|r all IH]; intros i ev Hok; simpl.
  { by rewrite take_nil. }
  fold (effectiveTotal i). unfold excess.
  destruct (Z.leb_spec (effectiveTotal i) (cfg_maxEntries cfg)) as [Hle|Hgt].
  - by rewrite Z2Nat.nonpos by lia.
  - pose proof Hok as [_ Hall]. inversion_clear Hall as [|?? [Hl Hres] _].
    rewrite IH by (by apply capRefsOK_remove). unfold excess.
    rewrite remove_effective by done.
    replace (Z.to_nat (effectiveTotal i - cfg_maxEntries cfg)) with
      (S (Z.to_nat (effectiveTotal i - 1 - cfg_maxEntries cfg))) by lia.
    done.
Qed.

Lemma capRefsOK_perm rt i all all' :
  all ≡ₚ all' → capRefsOK rt i all → capRefsOK rt i all'.
Proof. intros Hp [Hnd Hall]. split; by rewrite <-Hp. Qed.

Lemma removeMany_effective rt i all :
  capRefsOK rt i all →
  effectiveTotal (removeMany rt (capId <$> all) i) = effectiveTotal i - Z.of_nat (length all).
Proof.
  revert i. induction all as [|r all IH]; intros i Hok; simpl; [lia|].
  rewrite IH by (by apply capRefsOK_remove).
  destruct Hok as [_ Hall]. inversion_clear Hall as [|?? [Hl Hres] _].
  rewrite remove_effective by done. lia.
Qed.

Lemma capRefsOK_take rt i all n : capRefsOK rt i all → capRefsOK rt i (take n all).
Proof.
  intros [Hnd Hall]. split; [|by apply Forall_take].
  rewrite fmap_take. eapply sublist_NoDup; [done|apply sublist_take].
Qed.

(** The slice the sweep collects. *)
Lemma elem_of_capRefs cfg i r :
  r ∈ capRefs cfg i ↔
  ∃ e, entryAt i (cr_key r) (cr_replica r) = Some e ∧
       isReservedTenant (cfg_reservedTenants cfg) (pk_tenant (cr_key r)) = false ∧
       cr_algo r = evictionFor cfg (pk_tenant (cr_key r)) ∧
       cr_effectiveCount r =
         (if str_eqb (evictionFor cfg (pk_tenant (cr_key r))) EvictionLFU
          then accessCount e else 0) ∧
       cr_lastSeen r = lastSeen e.
Proof.
  unfold capRefs. rewrite list_elem_of_bind. split.
  - intros ([k m] & Hr & Hin). apply elem_of_map_to_list in Hin.
    destruct (isReservedTenant _ _) eqn:Er; [by apply not_elem_of_nil in Hr|].
    apply list_elem_of_omap in Hr as ([id l] & Hl & Hr). apply elem_of_map_to_list in Hl.
    destruct (heap i !! l) as [e|] eqn:He; [|done]. simplify_eq/=.
    exists e. split; [|done]. rewrite entryAt_locAt. unfold locAt. rewrite Hin. simpl.
    rewrite Hl. simpl. done.
  - intros (e & He & Hres & Ha & Hc & Hs). rewrite entryAt_locAt in He. unfold locAt in He.
    apply bind_Some in He as (l & Hl & He). apply bind_Some in Hl as (m & Hm & Hl).
    exists (cr_key r, m). rewrite elem_of_map_to_list. split; [|done]. rewrite Hres.
    apply list_elem_of_omap. exists (cr_replica r, l). rewrite elem_of_map_to_list.
    split; [done|]. rewrite He. simpl.
    destruct r; simpl in *. by subst.
Qed.

Lemma capRefs_NoDup cfg i : NoDup (capId <$> capRefs cfg i).
Proof.
  unfold capRefs.
  apply (NoDup_fmap_bind _ _ fst fst); [| |apply NoDup_fst_map_to_list].
  - intros [k m] r _. case_match; [by intros ?%not_elem_of_nil|].
    intros ([id l] & Hl & Hr)%list_elem_of_omap.
    destruct (heap i !! l); by simplify_eq/=.
  - intros [k m] _. case_match; [constructor|]. unfold capRefsAt.
    apply (NoDup_fmap_omap _ _ (λ '(id, _), (k, id))).
    + intros [id l] r Hr. destruct (heap i !! l); by simplify_eq/=.
    + pose proof (NoDup_fst_map_to_list m) as Hnd.
      induction (map_to_list m) as [|[id l] l' IH]; simpl in *; [constructor|].
      apply NoDup_cons in Hnd as [Hid Hnd]. apply NoDup_cons. split; [|by apply IH].
      intros Hin. apply Hid. apply list_elem_of_fmap in Hin as ([id' ?] & ? & Hin).
      simplify_eq. by apply (list_elem_of_fmap_2 fst) in Hin.
Qed.

Lemma capRefs_ok cfg i :
  index_wf (cfg_reservedTenants cfg) i → capRefsOK (cfg_reservedTenants cfg) i (capRefs cfg i).
Proof.
  intros Hwf. split; [apply capRefs_NoDup|]. apply Forall_forall. intros r Hr.
  apply elem_of_capRefs in Hr as (e & He & Hres & _). split; [|done].
  apply (entryAt_is_Some (cfg_reservedTenants cfg)); [done|]. eauto.
Qed.

Lemma length_capRefs cfg i :
  index_wf (cfg_reservedTenants cfg) i →
  Z.of_nat (length (capRefs cfg i)) = effectiveTotal i.
Proof.
  intros Hwf. unfold effectiveTotal. rewrite (wf_total _ _ Hwf), (wf_reserved _ _ Hwf).
  unfold capRefs, p_total, p_reserved. rewrite length_bind_lsum.
  enough (lsum (λ x : prefixKey * gmap string loc,
    Z.of_nat (length (let '(key, replicas) := x in
      if isReservedTenant (cfg_reservedTenants cfg) (pk_tenant key) then []
      else capRefsAt cfg i key replicas))) (map_to_list (prefixes i)) =
    msum (λ k m, sizeZ m -
      if isReservedTenant (cfg_reservedTenants cfg) (pk_tenant k) then sizeZ m else 0)
      (prefixes i)) as ->.
  { rewrite <-(Z.add_simpl_r (msum (λ k m, sizeZ m - _) _)
      (msum (λ k m, if isReservedTenant (cfg_reservedTenants cfg) (pk_tenant k)
                    then sizeZ m else 0) (prefixes i))).
    rewrite <-msum_add. f_equal. apply msum_ext. intros. lia. }
  rewrite msum_lsum. apply lsum_ext. intros [k m] Hin. simpl.
  apply elem_of_map_to_list in Hin. case_match; simpl; [lia|].
  unfold capRefsAt. rewrite length_omap_all.
  - unfold sizeZ. rewrite length_map_to_list. lia.
  - intros [id l] Hl. apply elem_of_map_to_list in Hl.
    destruct (wf_heap _ (wf_ptr _ _ Hwf) k id l) as [e ->]; [|eauto].
    unfold locAt. rewrite Hin. done.
Qed.

(** ** The comparators are total orders *)

Definition keyCmp : prefixKey → prefixKey → comparison :=
  cmp_lex (cmp_on pk_tenant String.compare)
 (cmp_lex (cmp_on pk_model String.compare)
 (cmp_lex (cmp_on pk_hashScheme String.compare)
 (cmp_lex (cmp_on pk_adapter String.compare)
          (cmp_on pk_prefixHash String.compare)))).

Definition capCmp : capRef → capRef → comparison :=
  cmp_lex (cmp_on cr_effectiveCount Z.compare)
 (cmp_lex (cmp_on cr_lastSeen Z.compare)
 (cmp_lex (cmp_on cr_key keyCmp)
          (cmp_on cr_replica String.compare))).

Lemma keyCmp_eq x y : keyCmp x y = Eq ↔ x = y.
Proof.
  unfold keyCmp, cmp_lex, cmp_on. split.
  - destruct x, y; simpl. intros E.
    repeat match type of E with context [String.compare ?a ?b] =>
      let H := fresh in pose proof (proj1 (string_compare_eq_iff a b)) as H;
      destruct (String.compare a b); try done; specialize (H eq_refl); subst end.
    done.
  - intros ->. by rewrite !(proj2 (string_compare_eq_iff _ _) eq_refl).
Qed.

#[export] Instance keyCmp_total : TotalCmp (λ _, True) keyCmp.
Proof.
  unfold keyCmp. repeat apply total_cmp_lex;
    apply (total_cmp_on _ (λ _ : string, True)), _.
Qed.

Lemma capLess_cmp x y : capLess x y = less_of capCmp x y.
Proof.
  unfold capLess, capCmp, time_before, str_lt, str_eqb.
  rewrite !less_of_lex, !less_step_Z. unfold cmp_on at 1 2 3.
  destruct (cr_effectiveCount x ?= cr_effectiveCount y); [|done..].
  destruct (cr_lastSeen x ?= cr_lastSeen y); [|done..].
  case_bool_decide as Ek; simpl.
  - by rewrite (proj2 (keyCmp_eq _ _) Ek).
  - rewrite !less_step_string.
    pose proof (proj1 (keyCmp_eq (cr_key x) (cr_key y))) as Hne.
    unfold keyCmp, cmp_lex, cmp_on in *. unfold less_of.
    repeat (case_match; try done). exfalso. auto.
Qed.

#[export] Instance capCmp_total : TotalCmp (λ _, True) capCmp.
Proof.
  apply total_cmp_lex; [apply (total_cmp_on _ (λ _ : Z, True)), _|].
  apply total_cmp_lex; [apply (total_cmp_on _ (λ _ : Z, True)), _|].
  apply total_cmp_lex; [apply (total_cmp_on _ (λ _ : prefixKey, True)), _|].
  apply (total_cmp_on _ (λ _ : string, True)), _.
Qed.

Lemma capCmp_eq x y :
  capCmp x y = Eq → cr_effectiveCount x = cr_effectiveCount y ∧
    cr_lastSeen x = cr_lastSeen y ∧ cr_key x = cr_key y ∧ cr_replica x = cr_replica y.
Proof.
  unfold capCmp, cmp_lex, cmp_on.
  destruct (Z.compare_spec (cr_effectiveCount x) (cr_effectiveCount y)); try done.
  destruct (Z.compare_spec (cr_lastSeen x) (cr_lastSeen y)); try done.
  destruct (keyCmp _ _) eqn:Ek; try done. intros Er.
  apply keyCmp_eq in Ek. by apply string_compare_eq_iff in Er.
Qed.

(** Candidates carry the algorithm their tenant resolves to. *)
Definition algoOK (cfg : IndexConfig) (r : capRef) : Prop :=
  cr_algo r = evictionFor cfg (pk_tenant (cr_key r)).

Lemma capLess_order cfg : LessOrder (algoOK cfg) capLess.
Proof.
  assert (LessOrder (algoOK cfg) (less_of capCmp)) as [H1 H2 H3].
  { apply less_of_order.
    - eapply total_cmp_weaken; [apply capCmp_total|done].
    - intros x y Hx Hy (E1 & E2 & E3 & E4)%capCmp_eq. unfold algoOK in *.
      destruct x, y; simpl in *. subst. done. }
  split; intros *; rewrite !capLess_cmp; eauto.
Qed.

Lemma capRefs_algoOK cfg i : Forall (algoOK cfg) (capRefs cfg i).
Proof.
  apply Forall_forall. intros r Hr. apply elem_of_capRefs in Hr as (e & _ & _ & Ha & _).
  exact Ha.
Qed.

Definition quotaCmp : quotaRef → quotaRef → comparison :=
  cmp_lex (cmp_on qr_age Z.compare)
 (cmp_lex (cmp_on (pk_model ∘ qr_key) String.compare)
 (cmp_lex (cmp_on (pk_hashScheme ∘ qr_key) String.compare)
 (cmp_lex (cmp_on (pk_adapter ∘ qr_key) String.compare)
          (cmp_on (pk_prefixHash ∘ qr_key) String.compare)))).

Lemma quotaLess_cmp x y : quotaLess x y = less_of quotaCmp x y.
Proof.
  unfold quotaLess, quotaCmp, time_before, str_lt, str_eqb.
  rewrite less_step_Z, !less_step_string, !less_of_lex. unfold cmp_on, compose, less_of. done.
Qed.

Lemma quotaLess_order tenant :
  LessOrder (λ r, pk_tenant (qr_key r) = tenant) quotaLess.
Proof.
  assert (LessOrder (λ r, pk_tenant (qr_key r) = tenant) (less_of quotaCmp)) as [H1 H2 H3].
  { apply less_of_order.
    - unfold quotaCmp. repeat apply total_cmp_lex;
        (eapply total_cmp_weaken; [apply (total_cmp_on _ (λ _, True)), _|done]).
    - intros [[t1 m1 h1 a1 p1] g1] [[t2 m2 h2 a2 p2] g2]. simpl. intros -> ->.
      unfold quotaCmp, cmp_lex, cmp_on. simpl.
      destruct (Z.compare_spec g1 g2) as [->| |]; try done. intros E.
      repeat match type of E with context [String.compare ?a ?b] =>
        let H := fresh in pose proof (proj1 (string_compare_eq_iff a b)) as H;
        destruct (String.compare a b); try done; specialize (H eq_refl); subst end.
      done. }
  split; intros *; rewrite !quotaLess_cmp; eauto.
Qed.

(** ** What the cap sweep does *)

Definition victims (cfg : IndexConfig) (i : Index) : list capRef :=
  take (excess cfg i) (go_sort capLess (capRefs cfg i)).

Definition overCap (cfg : IndexConfig) (i : Index) : bool :=
  (0 <? cfg_maxEntries cfg) && (cfg_maxEntries cfg <? effectiveTotal i).

Lemma overCap_false cfg i :
  overCap cfg i = false →
  (cfg_maxEntries cfg <=? 0) || (effectiveTotal i <=? cfg_maxEntries cfg) = true.
Proof. unfold overCap. lia. Qed.

Lemma overCap_true cfg i :
  overCap cfg i = true →
  (cfg_maxEntries cfg <=? 0) || (effectiveTotal i <=? cfg_maxEntries cfg) = false.
Proof. unfold overCap. lia. Qed.

Lemma sorted_capRefs_ok cfg i :
  index_wf (cfg_reservedTenants cfg) i →
  capRefsOK (cfg_reservedTenants cfg) i (go_sort capLess (capRefs cfg i)).
Proof.
  intros Hwf. eapply capRefsOK_perm; [|by apply capRefs_ok].
  by rewrite go_sort_Permutation.
Qed.

Lemma enforceCap_result cfg i :
  index_wf (cfg_reservedTenants cfg) i →
  enforceCapLocked cfg i =
    if overCap cfg i then
      (removeMany (cfg_reservedTenants cfg) (capId <$> victims cfg i) i,
       foldl incr ∅ (cr_algo <$> victims cfg i))
    else (i, ∅).
Proof.
  intros Hwf. unfold enforceCapLocked, enforceCapOver. fold (effectiveTotal i).
  destruct (overCap cfg i) eqn:Ho.
  - rewrite overCap_true by done. apply capLoop_spec. by apply sorted_capRefs_ok.
  - by rewrite overCap_false.
Qed.

Lemma wf_enforceCap cfg i :
  index_wf (cfg_reservedTenants cfg) i →
  index_wf (cfg_reservedTenants cfg) (enforceCapLocked cfg i).1.
Proof.
  intros Hwf. rewrite enforceCap_result by done. case_match; [|done].
  by apply wf_removeMany.
Qed.

Lemma length_victims cfg i :
  index_wf (cfg_reservedTenants cfg) i → overCap cfg i = true →
  Z.of_nat (length (victims cfg i)) = effectiveTotal i - cfg_maxEntries cfg.
Proof.
  intros Hwf Ho. unfold victims. rewrite length_take, length_go_sort.
  pose proof (length_capRefs cfg i Hwf). unfold overCap, excess in *. lia.
Qed.

Lemma effective_enforceCap cfg i :
  index_wf (cfg_reservedTenants cfg) i → 0 < cfg_maxEntries cfg →
  effectiveTotal (enforceCapLocked cfg i).1 = Z.min (effectiveTotal i) (cfg_maxEntries cfg).
Proof.
  intros Hwf Hmax. rewrite enforceCap_result by done.
  destruct (overCap cfg i) eqn:Ho; simpl.
  - rewrite removeMany_effective by (by apply capRefsOK_take, sorted_capRefs_ok).
    fold (victims cfg i). rewrite length_victims by done. unfold overCap in Ho. lia.
  - unfold overCap in Ho. lia.
Qed.

Lemma victim_capRef cfg i r : r ∈ victims cfg i → r ∈ capRefs cfg i.
Proof.
  intros Hr. apply (elem_of_go_sort capLess). unfold victims in Hr.
  rewrite <-(take_drop (excess cfg i) (go_sort capLess (capRefs cfg i))).
  apply elem_of_app. by left.
Qed.

Lemma entryAt_enforceCap cfg i k r :
  index_wf (cfg_reservedTenants cfg) i →
  entryAt (enforceCapLocked cfg i).1 k r =
    if overCap cfg i && bool_decide ((k, r) ∈ capId <$> victims cfg i) then None
    else entryAt i k r.
Proof.
  intros Hwf. rewrite enforceCap_result by done. destruct (overCap cfg i); simpl; [|done].
  rewrite removeMany_entryAt. by case_decide; case_bool_decide.
Qed.

(** A candidate that is not a victim comes after every victim. *)
Lemma victims_first cfg i v s :
  v ∈ victims cfg i → s ∈ capRefs cfg i → s ∉ victims cfg i → capLess s v = false.
Proof.
  intros Hv Hs Hns. unfold victims in *.
  pose proof (go_sort_strongly_sorted (algoOK cfg) capLess (capRefs cfg i)
    (capRefs_algoOK cfg i) (capLess_order cfg)) as Hss.
  rewrite <-(take_drop (excess cfg i) (go_sort capLess (capRefs cfg i))) in Hss.
  eapply (StronglySorted_app_1_elem_of _ _ _ v s Hss); [done|].
  rewrite <-(elem_of_go_sort capLess) in Hs.
  rewrite <-(take_drop (excess cfg i) (go_sort capLess (capRefs cfg i))) in Hs.
  by apply elem_of_app in Hs as [|].
Qed.

(** ** What the quota sweep does *)

(** Two prefix maps without empty replica maps that agree on every location
    are equal. *)
Lemma prefixes_ext (p1 p2 : gmap prefixKey (gmap string loc)) :
  (∀ k m, p1 !! k = Some m → m ≠ ∅) → (∀ k m, p2 !! k = Some m → m ≠ ∅) →
  (∀ k r, p1 !! k ≫= lookup r = p2 !! k ≫= lookup r) → p1 = p2.
Proof.
  intros Hne1 Hne2 Heq. apply map_eq. intros k. specialize (Heq k).
  destruct (p1 !! k) as [m1|] eqn:E1, (p2 !! k) as [m2|] eqn:E2; simpl in *; [| | |done].
  - f_equal. by apply map_eq.
  - destruct (Hne1 k m1 E1). by apply map_empty.
  - destruct (Hne2 k m2 E2). by apply map_empty.
Qed.

Lemma dropPrefix_removeMany rt key i :
  dropPrefix rt key i = removeMany rt ((λ id, (key, id)) <$> (map_to_list (replicasAt i key)).*1) i.
Proof.
  unfold dropPrefix, removeMany. generalize (map_to_list (replicasAt i key)).*1 as ids.
  intros ids. generalize i as j. induction ids as [|id ids IH]; intros j; simpl; [done|]. apply IH.
Qed.

Lemma dropPrefix_locAt rt key i k r :
  locAt (dropPrefix rt key i) k r = if decide (k = key) then None else locAt i k r.
Proof.
  rewrite dropPrefix_removeMany, removeMany_locAt. case_decide as Hin.
  - apply list_elem_of_fmap in Hin as (id & E & _). simplify_eq. by rewrite decide_True.
  - case_decide; [subst|done]. destruct (locAt i key r) as [l|] eqn:Hl; [|done].
    destruct Hin. apply list_elem_of_fmap. exists r. split; [done|].
    apply list_elem_of_fmap. exists (r, l). split; [done|].
    rewrite elem_of_map_to_list, <-locAt_replicasAt. done.
Qed.

Lemma wf_dropPrefix rt key i : index_wf rt i → index_wf rt (dropPrefix rt key i).
Proof. intros. rewrite dropPrefix_removeMany. by apply wf_removeMany. Qed.

Lemma dropPrefix_prefixes rt key i :
  index_wf rt i → prefixes (dropPrefix rt key i) = delete key (prefixes i).
Proof.
  intros Hwf. pose proof (wf_dropPrefix rt key i Hwf) as Hwf'. apply prefixes_ext.
  - apply Hwf'.
  - intros k m [_ Hm]%lookup_delete_Some. by eapply wf_nonempty; [apply Hwf|].
  - intros k r. fold (locAt (dropPrefix rt key i) k r). rewrite dropPrefix_locAt.
    rewrite lookup_delete. repeat case_decide; naive_solver.
Qed.

Lemma wf_go_get_tenant rt i t : index_wf rt i → go_get (prefixesByTenant i) t = p_tenant t (prefixes i).
Proof. intros Hwf. unfold go_get. rewrite (wf_tenant _ _ Hwf). by apply countOpt_get. Qed.

Definition dropPrefixes (rt : gset string) (rs : list quotaRef) (i : Index) : Index :=
  foldl (λ i r, dropPrefix rt (qr_key r) i) i rs.

Lemma wf_dropPrefixes rt rs i : index_wf rt i → index_wf rt (dropPrefixes rt rs i).
Proof. intros Hwf. apply (foldl_inv (index_wf rt)); [done|]. intros. by apply wf_dropPrefix. Qed.

Lemma dropPrefixes_locAt rt rs i k r :
  locAt (dropPrefixes rt rs i) k r = if decide (k ∈ qr_key <$> rs) then None else locAt i k r.
Proof.
  revert i. induction rs as [|q rs IH]; intros i; simpl; [done|].
  rewrite IH, dropPrefix_locAt. repeat case_decide; set_solver.
Qed.

Lemma dropPrefixes_heap rt rs i : heap (dropPrefixes rt rs i) = heap i.
Proof.
  revert i. induction rs as [|q rs IH]; intros i; simpl; [done|].
  by rewrite IH, dropPrefix_removeMany, removeMany_heap.
Qed.

Lemma dropPrefixes_entryAt rt rs i k r :
  entryAt (dropPrefixes rt rs i) k r = if decide (k ∈ qr_key <$> rs) then None else entryAt i k r.
Proof. rewrite !entryAt_locAt, dropPrefixes_locAt, dropPrefixes_heap. by case_decide. Qed.

(** Candidates of the quota sweep: distinct keys of the tenant, all present. *)
Definition quotaRefsOK (tenant : string) (i : Index) (all : list quotaRef) : Prop :=
  NoDup (qr_key <$> all) ∧
  Forall (λ r, is_Some (prefixes i !! qr_key r) ∧ pk_tenant (qr_key r) = tenant) all.

Lemma quotaRefsOK_drop rt tenant i r all :
  index_wf rt i → quotaRefsOK tenant i (r :: all) →
  quotaRefsOK tenant (dropPrefix rt (qr_key r) i) all.
Proof.
  intros Hwf [Hnd Hall]. apply NoDup_cons in Hnd as [Hr Hnd].
  inversion_clear Hall as [|?? _ Hrest]. split; [done|].
  rewrite Forall_forall in Hrest |- *. intros x Hx. destruct (Hrest x Hx) as [Hp Ht].
  split; [|done]. rewrite dropPrefix_prefixes by done. rewrite lookup_delete_ne; [done|].
  intros E. apply Hr. rewrite E. by apply list_elem_of_fmap_2.
Qed.

Definition quotaExcess (tenant : string) (maxPrefixes : Z) (i : Index) : nat :=
  Z.to_nat (p_tenant tenant (prefixes i) - maxPrefixes).

Lemma quotaLoop_spec rt tenant maxP all i c :
  index_wf rt i → quotaRefsOK tenant i all →
  quotaLoop rt tenant maxP all i c =
    (dropPrefixes rt (take (quotaExcess tenant maxP i) all) i,
     c + Z.of_nat (length (take (quotaExcess tenant maxP i) all))).
Proof.
  revert i c. induction all as [|r all IH]; intros i c Hwf Hok; simpl.
  { rewrite take_nil. simpl. f_equal. lia. }
  rewrite (wf_go_get_tenant rt) by done. unfold quotaExcess.
  destruct (Z.leb_spec (p_tenant tenant (prefixes i)) maxP) as [Hle|Hgt].
  - rewrite Z2Nat.nonpos by lia. simpl. f_equal. lia.
  - pose proof Hok as [_ Hall]. inversion_clear Hall as [|?? [Hp Ht] _].
    rewrite IH; [|by apply wf_dropPrefix|by apply quotaRefsOK_drop]. unfold quotaExcess.
    rewrite dropPrefix_prefixes, p_tenant_delete, decide_True by done.
    replace (Z.to_nat (p_tenant tenant (prefixes i) - maxP)) with
      (S (Z.to_nat (p_tenant tenant (prefixes i) - 1 - maxP))) by lia.
    simpl. f_equal. lia.
Qed.

Lemma elem_of_quotaRefs tenant i r :
  r ∈ quotaRefs tenant i ↔ ∃ m, prefixes i !! qr_key r = Some m ∧
    pk_tenant (qr_key r) = tenant ∧ qr_age r = newestSeen i m.
Proof.
  unfold quotaRefs. rewrite list_elem_of_omap. split.
  - intros ([k m] & Hin & Hr). apply elem_of_map_to_list in Hin.
    destruct (str_eqb (pk_tenant k) tenant) eqn:Et; [|done]. apply str_eqb_eq in Et.
    simplify_eq/=. eauto.
  - intros (m & Hm & Ht & Ha). exists (qr_key r, m). rewrite elem_of_map_to_list.
    split; [done|]. rewrite Ht, str_eqb_refl, <-Ha. by destruct r.
Qed.

Lemma quotaRefs_ok tenant i : quotaRefsOK tenant i (quotaRefs tenant i).
Proof.
  split.
  - apply (NoDup_fmap_omap _ _ fst); [|apply NoDup_fst_map_to_list].
    intros [k m] r Hr. by destruct (str_eqb _ _); simplify_eq/=.
  - apply Forall_forall. intros r (m & Hm & Ht & _)%elem_of_quotaRefs. eauto.
Qed.

Lemma length_quotaRefs tenant i :
  Z.of_nat (length (quotaRefs tenant i)) = p_tenant tenant (prefixes i).
Proof.
  unfold quotaRefs, p_tenant, zcount. rewrite msum_lsum.
  induction (map_to_list (prefixes i)) as [|[k m] l IH]; [done|].
  simpl. unfold str_eqb at 1. case_bool_decide; simpl; unfold omap in IH; lia.
Qed.

Definition quotaVictims (tenant : string) (maxP : Z) (i : Index) : list quotaRef :=
  take (quotaExcess tenant maxP i) (go_sort quotaLess (quotaRefs tenant i)).

Definition overQuota (tenant : string) (maxP : Z) (i : Index) : bool :=
  (0 <=? maxP) && (maxP <? p_tenant tenant (prefixes i)).

Lemma quotaRefsOK_perm tenant i all all' :
  all ≡ₚ all' → quotaRefsOK tenant i all → quotaRefsOK tenant i all'.
Proof. intros Hp [Hnd Hall]. split; by rewrite <-Hp. Qed.

Lemma evictOldest_result rt tenant maxP i :
  index_wf rt i →
  evictOldestForTenantLocked rt tenant maxP i =
    if overQuota tenant maxP i then
      (dropPrefixes rt (quotaVictims tenant maxP i) i,
       Z.of_nat (length (quotaVictims tenant maxP i)))
    else (i, 0).
Proof.
  intros Hwf. unfold evictOldestForTenantLocked, evictOldestOver, overQuota.
  rewrite (wf_go_get_tenant rt) by done.
  destruct (Z.ltb_spec maxP 0); [by rewrite (proj2 (Z.leb_gt 0 maxP))|].
  rewrite (proj2 (Z.leb_le 0 maxP)) by lia. simpl.
  destruct (Z.leb_spec (p_tenant tenant (prefixes i)) maxP).
  - by rewrite (proj2 (Z.ltb_ge _ _)) by lia.
  - rewrite (proj2 (Z.ltb_lt _ _)) by lia. rewrite quotaLoop_spec; [done|done|].
    eapply quotaRefsOK_perm; [|apply quotaRefs_ok]. by rewrite go_sort_Permutation.
Qed.

Lemma wf_evictOldest rt tenant maxP i :
  index_wf rt i → index_wf rt (evictOldestForTenantLocked rt tenant maxP i).1.
Proof.
  intros Hwf. rewrite evictOldest_result by done. case_match; [|done]. by apply wf_dropPrefixes.
Qed.

Lemma length_quotaVictims tenant maxP i :
  overQuota tenant maxP i = true →
  Z.of_nat (length (quotaVictims tenant maxP i)) = p_tenant tenant (prefixes i) - maxP.
Proof.
  intros Ho. unfold quotaVictims. rewrite length_take, length_go_sort.
  pose proof (length_quotaRefs tenant i). unfold overQuota, quotaExcess in *. lia.
Qed.

Lemma p_tenant_dropPrefixes rt tenant i rs :
  index_wf rt i → quotaRefsOK tenant i rs →
  p_tenant tenant (prefixes (dropPrefixes rt rs i)) =
    p_tenant tenant (prefixes i) - Z.of_nat (length rs).
Proof.
  revert i. induction rs as [|r rs IH]; intros i Hwf Hok; simpl; [lia|].
  rewrite IH; [|by apply wf_dropPrefix|by apply quotaRefsOK_drop].
  destruct Hok as [_ Hall]. inversion_clear Hall as [|?? [Hp Ht] _].
  rewrite dropPrefix_prefixes, p_tenant_delete, decide_True by done. lia.
Qed.

Lemma quotaVictims_ok tenant maxP i : quotaRefsOK tenant i (quotaVictims tenant maxP i).
Proof.
  pose proof (quotaRefsOK_perm tenant i (quotaRefs tenant i) (go_sort quotaLess (quotaRefs tenant i)))
    as [Hnd Hall]; [by rewrite go_sort_Permutation|apply quotaRefs_ok|].
  unfold quotaVictims. split; [|by apply Forall_take].
  rewrite fmap_take. eapply sublist_NoDup; [done|apply sublist_take].
Qed.

Lemma quotaVictim_quotaRef tenant maxP i r :
  r ∈ quotaVictims tenant maxP i → r ∈ quotaRefs tenant i.
Proof.
  intros Hr. apply (elem_of_go_sort quotaLess). unfold quotaVictims in Hr.
  rewrite <-(take_drop (quotaExcess tenant maxP i) (go_sort quotaLess (quotaRefs tenant i))).
  apply elem_of_app. by left.
Qed.

Lemma p_tenant_evictOldest rt tenant maxP i :
  index_wf rt i → 0 ≤ maxP →
  p_tenant tenant (prefixes (evictOldestForTenantLocked rt tenant maxP i).1) =
    Z.min (p_tenant tenant (prefixes i)) maxP.
Proof.
  intros Hwf Hm. rewrite evictOldest_result by done.
  destruct (overQuota tenant maxP i) eqn:Ho; simpl.
  - rewrite p_tenant_dropPrefixes by (by auto using quotaVictims_ok).
    rewrite length_quotaVictims by done. unfold overQuota in Ho. lia.
  - unfold overQuota in Ho. lia.
Qed.

Lemma quotaVictims_tenant tenant maxP i k :
  k ∈ qr_key <$> quotaVictims tenant maxP i → pk_tenant k = tenant.
Proof.
  intros (r & -> & Hr)%list_elem_of_fmap.
  destruct (quotaVictims_ok tenant maxP i) as [_ Hall].
  rewrite Forall_forall in Hall. by apply Hall.
Qed.

Lemma entryAt_evictOldest rt tenant maxP i k r :
  index_wf rt i →
  entryAt (evictOldestForTenantLocked rt tenant maxP i).1 k r =
    if overQuota tenant maxP i && bool_decide (k ∈ qr_key <$> quotaVictims tenant maxP i)
    then None else entryAt i k r.
Proof.
  intros Hwf. rewrite evictOldest_result by done.
  destruct (overQuota tenant maxP i); simpl; [|done].
  rewrite dropPrefixes_entryAt. by case_decide; case_bool_decide.
Qed.

Lemma quotaVictims_first tenant maxP i v s :
  v ∈ quotaVictims tenant maxP i → s ∈ quotaRefs tenant i →
  s ∉ quotaVictims tenant maxP i → quotaLess s v = false.
Proof.
  intros Hv Hs Hns. unfold quotaVictims in *.
  assert (Forall (λ r, pk_tenant (qr_key r) = tenant) (quotaRefs tenant i)) as Hall.
  { apply Forall_forall. by intros r (m & _ & Ht & _)%elem_of_quotaRefs. }
  pose proof (go_sort_strongly_sorted _ quotaLess (quotaRefs tenant i) Hall
    (quotaLess_order tenant)) as Hss.
  rewrite <-(take_drop (quotaExcess tenant maxP i) (go_sort quotaLess _)) in Hss.
  eapply (StronglySorted_app_1_elem_of _ _ _ v s Hss); [done|].
  rewrite <-(elem_of_go_sort quotaLess) in Hs.
  rewrite <-(take_drop (quotaExcess tenant maxP i) (go_sort quotaLess _)) in Hs.
  by apply elem_of_app in Hs as [|].
Qed.

(** [newestSeen] is the latest lastSeen of the holders (or the zero time). *)
Lemma newestSeen_aux i (l : list (string * loc)) acc :
  acc ≤ foldl (λ newest '(_, l),
    match heap i !! l with
    | Some e => if time_after (lastSeen e) newest then lastSeen e else newest
    | None => newest
    end) acc l.
Proof.
  revert acc. induction l as [|[id x] l IH]; intros acc; simpl; [lia|].
  etrans; [|apply IH]. destruct (heap i !! x); [|lia]. unfold time_after. case_match; lia.
Qed.

Lemma newestSeen_ge i m r l e :
  m !! r = Some l → heap i !! l = Some e → lastSeen e ≤ newestSeen i m.
Proof.
  intros Hr He. unfold newestSeen. generalize time_zero.
  apply elem_of_map_to_list in Hr. revert Hr.
  induction (map_to_list m) as [|[id x] ls IH]; [by intros ?%not_elem_of_nil|].
  intros [E|Hin]%elem_of_cons acc; simpl; [|by apply IH].
  injection E as <- <-. rewrite He. etrans; [|apply newestSeen_aux].
  unfold time_after. case_match; lia.
Qed.

(** ** What the TTL sweep does *)

Definition expiredLoc (cfg : IndexConfig) (now : Time) (i : Index) (k : prefixKey)
    (idl : string * loc) : bool :=
  match heap i !! idl.2 with
  | Some e => expired cfg now (pk_tenant k) (lastSeen e)
  | None => false
  end.

Definition expiredIds (cfg : IndexConfig) (now : Time) (i : Index) (k : prefixKey)
    (l : list (string * loc)) : list (prefixKey * string) :=
  omap (λ idl, if expiredLoc cfg now i k idl then Some (k, idl.1) else None) l.

Lemma sweepReplicas_spec cfg now i k l j ev :
  heap j = heap i →
  (foldl (sweepReplica cfg now k) (j, ev) l).1 =
    removeMany (cfg_reservedTenants cfg) (expiredIds cfg now i k l) j.
Proof.
  revert j ev. induction l as [|[id x] l IH]; intros j ev Hj; simpl; [done|].
  unfold expiredLoc at 1. simpl. rewrite Hj.
  destruct (heap i !! x) as [e|]; [|by apply IH].
  destruct (expired cfg now (pk_tenant k) (lastSeen e)); [|by apply IH].
  simpl. rewrite IH; [done|]. by rewrite remove_heap.
Qed.

Definition expiredAll (cfg : IndexConfig) (now : Time) (i : Index) : list (prefixKey * string) :=
  map_to_list (prefixes i) ≫= λ '(k, m), expiredIds cfg now i k (map_to_list m).

Lemma sweepPrefixes_spec cfg now i :
  (sweepPrefixes cfg now i).1 = removeMany (cfg_reservedTenants cfg) (expiredAll cfg now i) i.
Proof.
  unfold sweepPrefixes, expiredAll. generalize (map_to_list (prefixes i)) as l.
  assert (∀ l j ev, heap j = heap i →
    (foldl (λ acc '(key, replicas), foldl (sweepReplica cfg now key) acc (map_to_list replicas))
       (j, ev) l).1 =
    removeMany (cfg_reservedTenants cfg)
      (l ≫= λ '(k, m), expiredIds cfg now i k (map_to_list m)) j) as Haux; [|by intros; apply Haux].
  induction l as [|[k m] l IH]; intros j ev Hj; simpl; [done|].
  pose proof (sweepReplicas_spec cfg now i k (map_to_list m) j ev Hj) as Hs.
  destruct (foldl (sweepReplica cfg now k) (j, ev) (map_to_list m)) as [j' ev']. simpl in Hs.
  rewrite removeMany_app, IH; [by rewrite Hs|]. by rewrite Hs, removeMany_heap.
Qed.

Lemma elem_of_expiredAll cfg now i k r :
  (k, r) ∈ expiredAll cfg now i ↔
  ∃ e, entryAt i k r = Some e ∧ expired cfg now (pk_tenant k) (lastSeen e) = true.
Proof.
  unfold expiredAll, expiredIds. rewrite list_elem_of_bind. split.
  - intros ([k' m] & Hin & Hm). apply elem_of_map_to_list in Hm.
    apply list_elem_of_omap in Hin as ([id l] & Hl & Hex). apply elem_of_map_to_list in Hl.
    unfold expiredLoc in Hex. simpl in Hex. destruct (heap i !! l) as [e|] eqn:He; [|done].
    destruct (expired _ _ _ _) eqn:Hx; simplify_eq/=.
    exists e. split; [|done]. rewrite entryAt_locAt. unfold locAt. rewrite Hm. simpl.
    by rewrite Hl.
  - intros (e & He & Hex). rewrite entryAt_locAt in He. unfold locAt in He.
    apply bind_Some in He as (l & Hl & He). apply bind_Some in Hl as (m & Hm & Hl).
    exists (k, m). rewrite elem_of_map_to_list. split; [|done].
    apply list_elem_of_omap. exists (r, l). rewrite elem_of_map_to_list. split; [done|].
    unfold expiredLoc. simpl. by rewrite He, Hex.
Qed.

Lemma sweepStats_frame cfg now i :
  let i' := sweepStats cfg now i in
  heap i' = heap i ∧ prefixes i' = prefixes i ∧ reportedModels i' = reportedModels i.
Proof.
  simpl. unfold sweepStats. apply (foldl_inv (λ j, heap j = heap i ∧ prefixes j = prefixes i ∧
    reportedModels j = reportedModels i)); [done|].
  intros j [sk s] _ (H1 & H2 & H3). case_match; [|done].
  pose proof (dropStats_frame sk j) as (->&_&->&_&_&_&_&_&_&->). done.
Qed.

Lemma wf_sweepStats rt cfg now i : index_wf rt i → index_wf rt (sweepStats cfg now i).
Proof.
  intros Hwf. apply (foldl_inv (index_wf rt)); [done|].
  intros j [sk s] _ Hj. case_match; [|done]. by apply wf_dropStats.
Qed.

Lemma evictExpired_fst cfg now i :
  (evictExpired cfg now i).1 =
    (reportEntries cfg (sweepStats cfg now (sweepPrefixes cfg now i).1)).1.
Proof.
  unfold evictExpired. destruct (sweepPrefixes cfg now i) as [i1 ev]. simpl.
  by destruct (reportEntries cfg (sweepStats cfg now i1)).
Qed.

Lemma wf_evictExpired cfg now i :
  index_wf (cfg_reservedTenants cfg) i →
  index_wf (cfg_reservedTenants cfg) (evictExpired cfg now i).1.
Proof.
  intros Hwf. rewrite evictExpired_fst. apply wf_reportEntries, wf_sweepStats.
  rewrite sweepPrefixes_spec. by apply wf_removeMany.
Qed.

#[export] Hint Resolve wf_removeMany wf_enforceCap wf_dropPrefixes wf_evictOldest wf_sweepStats wf_evictExpired : index_wf.

Lemma entryAt_evictExpired cfg now i k r :
  entryAt (evictExpired cfg now i).1 k r =
    e ← entryAt i k r;
    if expired cfg now (pk_tenant k) (lastSeen e) then None else Some e.
Proof.
  rewrite evictExpired_fst, entryAt_reportEntries.
  pose proof (sweepStats_frame cfg now (sweepPrefixes cfg now i).1) as (Hh & Hp & _).
  rewrite (entryAt_frame _ _ k r Hh Hp), sweepPrefixes_spec, removeMany_entryAt.
  pose proof (elem_of_expiredAll cfg now i k r) as Hel. case_decide as Hin.
  - destruct (proj1 Hel Hin) as (e & -> & Hex). simpl. by rewrite Hex.
  - destruct (entryAt i k r) as [e|] eqn:He; [|done]. simpl.
    destruct (expired cfg now (pk_tenant k) (lastSeen e)) eqn:Hex; [|done].
    destruct Hin. naive_solver.
Qed.
