(* ===== verification/IndexRanking.v ===== *)
(** * Ranking factors (internal/index/ranking.go)

    The pure functions the scorers share, and the depth-aware distinguishing
    power of a chain lookup: the code sorts and walks groups, the reference
    counts, per replica, how many reached at least its depth. *)

From Stdlib Require Import SpecFloat.
From S2P Require Import Prelude Ordering GoRuntime Floats IndexTypes.

(** ** Operations *)

Definition freshnessAt (now seen : Time) (ttl : Duration) : f32 :=
  if ttl <=? 0 then f32_zero
  else
    let age := time_sub now seen in
    if age <=? 0 then f32_one
    else if ttl <=? age then f32_zero
    else f32_of_f64 (f64_sub f64_one (f64_div (f64_of_Z age) (f64_of_Z ttl))).

Definition pressureFactorAt (pressure weight : f32) : f32 :=
  let f := f32_sub f32_one (f32_mul weight pressure) in
  if flt f f32_zero then f32_zero
  else if flt f32_one f then f32_one
  else f.

Definition distinguishingPower (matching total : Z) : f64 :=
  if (total <=? 1) || (matching <? 0) then f64_one
  else if total <=? matching then S754_zero false
  else f64_sub f64_one (f64_div (f64_of_Z matching) (f64_of_Z total)).

Definition sloTightBiasCoefficient (ranker : RankerConfig) (ttftMs : Z) : f32 :=
  if (SLOTightTTFTMs ranker <=? 0) || fle (SLOTightBias ranker) f32_zero then f32_zero
  else if (ttftMs <=? 0) || (SLOTightTTFTMs ranker <=? ttftMs) then f32_zero
  else SLOTightBias ranker.

Definition scoreLess (a b : ReplicaScore) : bool :=
  if negb (feq (s_Score a) (s_Score b)) then flt (s_Score b) (s_Score a)
  else str_lt (s_ReplicaID a) (s_ReplicaID b).

Definition sortScoresDescByScoreThenID (scores : list ReplicaScore) : list ReplicaScore :=
  go_sort scoreLess scores.

Definition set_Score (f : f32 → f32) (s : ReplicaScore) : ReplicaScore :=
  mkReplicaScore (s_ReplicaID s) (f (s_Score s)) (s_MatchedTokens s)
    (s_EstimatedCacheHitProb s) (s_Tier s).

(** [if dp != 1.0 { f := float32(dp); scores[k].Score *= f }]. *)
Definition scaleBy (dp : f64) (s : ReplicaScore) : ReplicaScore :=
  if negb (feq dp f64_one) then set_Score (λ x, f32_mul x (f32_of_f64 dp)) s else s.

Definition depthLess (a b : ReplicaScore) : bool :=
  if negb (s_MatchedTokens a =? s_MatchedTokens b) then s_MatchedTokens b <? s_MatchedTokens a
  else str_lt (s_ReplicaID a) (s_ReplicaID b).

(** The inner loop: how far the group of equal matched tokens extends. *)
Fixpoint groupLen (mt : Z) (l : list ReplicaScore) : nat :=
  match l with
  | [] => 0
  | s :: l' => if s_MatchedTokens s =? mt then S (groupLen mt l') else 0
  end.

(** The walk in groups over [scores[left:]]; [fuel] bounds the number of groups. *)
Fixpoint dpWalk (fuel : nat) (total : Z) (left : nat) (rest : list ReplicaScore) :
    list ReplicaScore :=
  match fuel, rest with
  | S fuel, s :: _ =>
      let n := groupLen (s_MatchedTokens s) rest in
      let right := (left + n)%nat in
      let dp := distinguishingPower (Z.of_nat right) total in
      (scaleBy dp <$> take n rest) ++ dpWalk fuel total right (drop n rest)
  | _, _ => rest
  end.

Definition applyChainDistinguishingPower (scores : list ReplicaScore) (total : Z) :
    list ReplicaScore :=
  if (total <=? 1) || (Z.of_nat (length scores) =? 0) then scores
  else dpWalk (length scores) total 0 (go_sort depthLess scores).

(** ** Freshness *)

(** What is fresh is not expired under the same TTL. *)
Lemma freshnessAt_expired now seen ttl :
  (0 <? ttl) && (ttl <=? time_sub now seen) = true → freshnessAt now seen ttl = f32_zero.
Proof.
  intros [H1 H2]%andb_true_iff. unfold freshnessAt.
  rewrite (proj2 (Z.leb_gt ttl 0)) by lia. rewrite (proj2 (Z.leb_gt _ 0)) by lia. by rewrite H2.
Qed.

Lemma freshnessAt_young now seen ttl :
  0 < ttl → now ≤ seen → freshnessAt now seen ttl = f32_one.
Proof.
  intros Ht Hle. unfold freshnessAt. rewrite (proj2 (Z.leb_gt ttl 0)) by lia.
  apply time_sub_le_0 in Hle. by rewrite (proj2 (Z.leb_le _ 0)) by lia.
Qed.

Lemma fle_zero_refl : fle f32_zero f32_zero = true.
Proof. reflexivity. Qed.

Lemma freshnessAt_pos now seen ttl :
  fle (freshnessAt now seen ttl) f32_zero = false →
  0 < ttl ∧ time_sub now seen < ttl.
Proof.
  unfold freshnessAt. destruct (Z.leb_spec ttl 0); [by rewrite fle_zero_refl|].
  destruct (Z.leb_spec (time_sub now seen) 0); [lia|].
  destruct (Z.leb_spec ttl (time_sub now seen)); [by rewrite fle_zero_refl|]. lia.
Qed.

(** ** Pressure factor *)

Lemma pressureFactorAt_bounds pressure weight :
  not_nan (f32_sub f32_one (f32_mul weight pressure)) →
  fle f32_zero (pressureFactorAt pressure weight) = true ∧
  fle (pressureFactorAt pressure weight) f32_one = true.
Proof.
  intros Hn. unfold pressureFactorAt.
  destruct (flt _ f32_zero) eqn:E0; [done|]. destruct (flt f32_one _) eqn:E1; [done|].
  revert Hn E0 E1. generalize (f32_sub f32_one (f32_mul weight pressure)) as f.
  intros f Hn E0 E1. unfold flt, fle, SFltb, SFleb in *.
  rewrite (SFcompare_antisym f f32_zero), (SFcompare_antisym f32_one f).
  assert (∀ y, not_nan y → SFcompare f y ≠ None) as Hc.
  { intros y. unfold not_nan in *. by destruct f as [[]|[]| |[] ? ?], y as [[]|[]| |[] ? ?]. }
  assert (∀ y, not_nan y → SFcompare y f ≠ None) as Hc'.
  { intros y Hy. rewrite SFcompare_antisym. specialize (Hc y Hy). by destruct (SFcompare f y). }
  specialize (Hc f32_zero eq_refl). specialize (Hc' f32_one eq_refl).
  destruct (SFcompare f f32_zero) as [[]|]; try done;
    destruct (SFcompare f32_one f) as [[]|]; done.
Qed.

(** ** Sorting scores *)

Definition scoreCmp : ReplicaScore → ReplicaScore → comparison :=
  cmp_lex (cmp_flip (cmp_on s_Score fcmp)) (cmp_on s_ReplicaID String.compare).

Definition score_ok (s : ReplicaScore) : Prop := not_nan (s_Score s).

#[export] Instance scoreCmp_total : TotalCmp score_ok scoreCmp.
Proof.
  apply total_cmp_lex.
  - apply total_cmp_flip. apply (total_cmp_on s_Score not_nan), _.
  - eapply total_cmp_weaken; [apply (total_cmp_on s_ReplicaID (λ _ : string, True)), _|done].
Qed.

Lemma scoreLess_cmp a b : score_ok a → score_ok b → scoreLess a b = less_of scoreCmp a b.
Proof.
  intros Ha Hb. unfold scoreLess, scoreCmp, cmp_flip. rewrite less_of_lex.
  unfold cmp_on at 1. by rewrite less_step_float_desc.
Qed.

Lemma scoreLess_asym a b : scoreLess a b = true → scoreLess b a = false.
Proof.
  unfold scoreLess.
  assert (feq (s_Score b) (s_Score a) = feq (s_Score a) (s_Score b)) as ->.
  { unfold feq, SFeqb. rewrite (SFcompare_antisym (s_Score a)).
    by destruct (SFcompare _ _) as [[]|]. }
  destruct (feq _ _); simpl; [|by apply flt_asym].
  unfold str_lt, less_of. rewrite (cmp_antisym (s_ReplicaID a) (s_ReplicaID b)).
  by destruct (String.compare _ _).
Qed.

(** On a NaN-free slice with distinct replica ids the comparator is a total
    order, so the ranking is determined. *)
Definition ranked (l : list ReplicaScore) : Prop :=
  NoDup (s_ReplicaID <$> l) ∧ Forall score_ok l.

Lemma scoreLess_order l :
  ranked l → LessOrder (λ s, s ∈ l) scoreLess.
Proof.
  intros [Hnd Hok]. rewrite Forall_forall in Hok.
  assert (LessOrder (λ s, s ∈ l) (less_of scoreCmp)) as [H1 H2 H3].
  { apply less_of_order.
    - eapply total_cmp_weaken; [apply scoreCmp_total|]. intros s Hs. by apply Hok.
    - intros x y Hx Hy. unfold scoreCmp, cmp_lex, cmp_on.
      destruct (cmp_flip _ x y); try done. intros E%string_compare_eq_iff.
      apply list_elem_of_lookup in Hx as [n Hn], Hy as [m Hm].
      assert (n = m) as ->; [|congruence].
      eapply (NoDup_lookup (s_ReplicaID <$> l)); [done| |].
      + by rewrite list_lookup_fmap, Hn.
      + rewrite list_lookup_fmap, Hm. simpl. by rewrite E. }
  split.
  - intros x y. apply scoreLess_asym.
  - intros x y z Hx Hy Hz. rewrite !scoreLess_cmp by auto. by apply H2.
  - intros x y Hx Hy. rewrite !scoreLess_cmp by auto. by apply H3.
Qed.

(** ** Depth-aware distinguishing power *)

(** How many replicas reached at least the depth [mt]. *)
Definition numAtLeast (l : list ReplicaScore) (mt : Z) : nat :=
  length (filter (λ s, mt ≤ s_MatchedTokens s) l).

(** The factor the ranking promises replica [s] among the scored [l]. *)
Definition depthScaled (total : Z) (l : list ReplicaScore) (s : ReplicaScore) : ReplicaScore :=
  scaleBy (distinguishingPower (Z.of_nat (numAtLeast l (s_MatchedTokens s))) total) s.

Abbreviation byDepth := (StronglySorted (λ x y, s_MatchedTokens y ≤ s_MatchedTokens x)).

Lemma depthLess_asym a b : depthLess a b = true → depthLess b a = false.
Proof.
  unfold depthLess. rewrite (Z.eqb_sym (s_MatchedTokens b)).
  destruct (s_MatchedTokens a =? s_MatchedTokens b); simpl; [|lia].
  unfold str_lt, less_of. rewrite (cmp_antisym (s_ReplicaID a) (s_ReplicaID b)).
  by destruct (String.compare _ _).
Qed.

Lemma go_sort_byDepth l : byDepth (go_sort depthLess l).
Proof.
  apply Sorted_StronglySorted; [intros x y z; lia|].
  apply (Sorted_impl (λ x y, depthLess y x = false)).
  - intros x y. unfold depthLess.
    destruct (Z.eqb_spec (s_MatchedTokens y) (s_MatchedTokens x)); simpl; lia.
  - apply go_sort_sorted, depthLess_asym.
Qed.

Lemma groupLen_le mt l : (groupLen mt l ≤ length l)%nat.
Proof. induction l as [|s l IH]; simpl; [lia|]. case_match; lia. Qed.

Lemma groupLen_take mt l : Forall (λ s, s_MatchedTokens s = mt) (take (groupLen mt l) l).
Proof.
  induction l as [|s l IH]; simpl; [constructor|].
  destruct (Z.eqb_spec (s_MatchedTokens s) mt); simpl; by constructor.
Qed.

Lemma groupLen_drop mt l :
  byDepth l → Forall (λ s, s_MatchedTokens s ≤ mt) l →
  Forall (λ s, s_MatchedTokens s < mt) (drop (groupLen mt l) l).
Proof.
  induction 1 as [|s l Hs IH Hall]; intros Hle; simpl; [constructor|].
  inversion_clear Hle as [|?? Hs' Hl]. destruct (Z.eqb_spec (s_MatchedTokens s) mt); simpl; [auto|].
  constructor; [lia|]. eapply Forall_impl; [exact Hall|]. simpl. lia.
Qed.

(** The count at a group's depth is the group's right end. *)
Lemma numAtLeast_group pre g post mt :
  Forall (λ s, mt < s_MatchedTokens s) pre → Forall (λ s, s_MatchedTokens s = mt) g →
  Forall (λ s, s_MatchedTokens s < mt) post →
  numAtLeast (pre ++ g ++ post) mt = (length pre + length g)%nat.
Proof.
  intros Hpre Hg Hpost. unfold numAtLeast. rewrite !filter_app.
  rewrite (filter_all _ pre), (filter_all _ g), (filter_none _ post).
  - by rewrite app_nil_r, length_app.
  - eapply Forall_impl; [done|]. simpl. lia.
  - eapply Forall_impl; [done|]. simpl. lia.
  - eapply Forall_impl; [done|]. simpl. lia.
Qed.

Lemma dpWalk_spec fuel total pre rest :
  (length rest ≤ fuel)%nat → byDepth rest →
  (∀ x y, x ∈ pre → y ∈ rest → s_MatchedTokens y < s_MatchedTokens x) →
  dpWalk fuel total (length pre) rest = depthScaled total (pre ++ rest) <$> rest.
Proof.
  revert pre rest. induction fuel as [|fuel IH]; intros pre [|s rest] Hf Hs Hpre;
    simpl in Hf; try lia; [done..|]. cbn [dpWalk].
  set (mt := s_MatchedTokens s). set (n := groupLen mt (s :: rest)).
  assert (Forall (λ x, s_MatchedTokens x ≤ mt) (s :: rest)) as Hle.
  { inversion_clear Hs. by constructor. }
  pose proof (groupLen_take mt (s :: rest)) as Hg. pose proof (groupLen_drop mt _ Hs Hle) as Hd.
  fold n in Hg, Hd.
  assert (length (take n (s :: rest)) = n) as Hlen.
  { rewrite length_take. pose proof (groupLen_le mt (s :: rest)). lia. }
  assert (1 ≤ n)%nat as Hn1. { unfold n. simpl. unfold mt. rewrite Z.eqb_refl. lia. }
  rewrite <-(take_drop n (s :: rest)) at 4. rewrite fmap_app. f_equal.
  - apply list_fmap_ext. intros k x Hx. apply list_elem_of_lookup_2 in Hx.
    unfold depthScaled. rewrite Forall_forall in Hg. rewrite (Hg x Hx).
    rewrite <-(take_drop n (s :: rest)) at 1.
    rewrite numAtLeast_group, Hlen; [done| |by apply Forall_forall|done].
    apply Forall_forall. intros y Hy. apply (Hpre y s); [done|]. by left.
  - rewrite <-Hlen at 1. rewrite <-length_app, IH.
    + by rewrite <-(assoc_L (++)), take_drop.
    + rewrite length_drop. simpl. lia.
    + rewrite <-(take_drop n (s :: rest)) in Hs. by apply StronglySorted_app_1_r in Hs.
    + intros x y Hx Hy. apply elem_of_app in Hx as [Hx|Hx].
      * apply Hpre; [done|]. rewrite <-(take_drop n (s :: rest)). apply elem_of_app. by right.
      * rewrite Forall_forall in Hg, Hd. rewrite (Hg x Hx). by apply Hd.
Qed.

Lemma scaleBy_one s : scaleBy f64_one s = s.
Proof. done. Qed.

Lemma applyChain_reference l total :
  applyChainDistinguishingPower l total ≡ₚ depthScaled total l <$> l.
Proof.
  unfold applyChainDistinguishingPower. destruct (total <=? 1) eqn:Et; simpl.
  { assert (depthScaled total l <$> l = l) as ->; [|done].
    transitivity (id <$> l); [|apply list_fmap_id]. apply list_fmap_ext. intros k s _. unfold depthScaled.
    unfold distinguishingPower. rewrite Et. apply scaleBy_one. }
  destruct (Z.eqb_spec (Z.of_nat (length l)) 0) as [E|_]; [by destruct l|].
  change 0%nat with (length (@nil ReplicaScore)).
  rewrite dpWalk_spec; [|by rewrite length_go_sort|apply go_sort_byDepth|set_solver].
  rewrite app_nil_l. transitivity (depthScaled total l <$> go_sort depthLess l).
  - apply Permutation_refl'. apply list_fmap_ext. intros k s _. unfold depthScaled, numAtLeast.
    by rewrite (go_sort_Permutation depthLess l).
  - by rewrite go_sort_Permutation.
Qed.
