(* ===== verification/Samples.v ===== *)
(** * Concrete inputs for the witnesses

    A two-tenant configuration with a cap, a quota and an LFU tenant, and a few
    updates and requests against it. *)

From S2P Require Import Prelude Ordering GoRuntime IndexTypes IndexAccounting IndexMetrics.
From S2P Require Import IndexEviction IndexIngest.

Definition t0 : Time := unix_epoch.

(** Cap of 2 entries; tenant "a" runs LFU with a budget of one prefix; tenant
    "__probe__" is reserved. *)
Definition sampleCfg : IndexConfig := {|
  cfg_ttl := DefaultTTL;
  cfg_sweepInterval := DefaultSweepInterval;
  cfg_maxEntries := 2;
  cfg_metrics := true;
  cfg_ranker := DefaultRankerConfig;
  cfg_ttlResolver := None;
  cfg_quotaResolver := Some (λ t, if str_eqb t "a" then Some 1 else None);
  cfg_evictionResolver := Some (λ t, if str_eqb t "a" then "LFU" else "lru");
  cfg_reservedTenants := {["__probe__"]}
|}.

Definition samplePrefix (h : string) (n : Z) : PrefixRef :=
  mkPrefixRef h n [] [] TierUnspecified "".

Definition sampleChain : PrefixRef :=
  mkPrefixRef "" 0 ["b1"; "b2"] [16; 16] TierT2 "".

Definition sampleStats : ReplicaStats :=
  mkReplicaStats "r1" 1024 f32_one f32_zero 0 0.

Definition sampleUpdate (tenant replica : string) (ps : list PrefixRef) : Update :=
  mkUpdate replica "m" tenant "vllm" "" (t0 + Second) ps (Some sampleStats).

(** One exact prefix of tenant "a" on replica "r1". *)
Definition sampleIndex : Index :=
  (Ingest sampleCfg t0 (sampleUpdate "a" "r1" [samplePrefix "p" 32]) emptyIndex).1.

(** A two-block chain of tenant "b" on replica "r1". *)
Definition chainIndex : Index :=
  (Ingest sampleCfg t0 (sampleUpdate "b" "r1" [sampleChain]) emptyIndex).1.

Lemma sampleIndex_wf : index_wf (cfg_reservedTenants sampleCfg) sampleIndex.
Proof. apply wf_Ingest, index_wf_empty. Qed.

Lemma chainIndex_wf : index_wf (cfg_reservedTenants sampleCfg) chainIndex.
Proof. apply wf_Ingest, index_wf_empty. Qed.

Definition sampleRequest (tenant : string) : LookupRequest :=
  mkLookupRequest "m" tenant "vllm" "" "p" 32 [] [] 0 0.

Definition chainRequest : LookupRequest :=
  mkLookupRequest "m" "b" "vllm" "" "" 0 ["b1"; "b2"; "b3"] [16; 16; 16] 0 0.
