(* ===== verification/IndexSpec.v ===== *)
(** * The abstract contract of the index, and its refinement

    Abstractly the index is two finite maps: the entry each replica holds for
    each prefix, and the stats of each replica.  Every operation is a relation
    on that pair that never mentions counters, secondary indexes, pointers or
    sorting: enforcement is "drop some set of the required size such that
    nothing kept ranks before anything dropped".  The theorems at the end show
    that the code's operations implement it. *)

From S2P Require Import Prelude Ordering GoRuntime IndexTypes IndexAccounting IndexMetrics.
From S2P Require Import IndexEviction IndexIngest.

(** ** Abstract state and operations *)

Notation entries := (gmap (prefixKey * string) replicaEntry).

Record Store := mkStore {
  st_entries : entries;
  st_stats : gmap statsKey statEntry
}.

Definition specWrite (r : string) (ts : Time) (E : entries) (w : Write) : entries :=
  let '(k, tc, tr) := w in
  <[(k, r) := ReplicaEntry tc ts tr (default 0 (accessCount <$> E !! (k, r)))]> E.

(** The distinct prefixes of a tenant. *)
Definition prefixesOf (tenant : string) (E : entries) : gset prefixKey :=
  filter (λ k, pk_tenant k = tenant) (set_map fst (dom E)).

(** [k] is at most as fresh as [k']: each of its holds is no newer than some
    hold of [k'] (or was never stamped). *)
Definition noFresher (E : entries) (k k' : prefixKey) : Prop :=
  ∀ r e, E !! (k, r) = Some e → lastSeen e ≤ time_zero ∨
    ∃ r' e', E !! (k', r') = Some e' ∧ lastSeen e ≤ lastSeen e'.

(** Quota: drop the stalest prefixes of the tenant, whole, down to budget. *)
Definition specQuota (tenant : string) (maxP : Z) (E E' : entries) : Prop :=
  ∃ D : gset prefixKey,
    D ⊆ prefixesOf tenant E ∧
    Z.of_nat (size D) =
      (if 0 <=? maxP then Z.max 0 (Z.of_nat (size (prefixesOf tenant E)) - maxP) else 0) ∧
    E' = filter (λ kv, kv.1.1 ∉ D) E ∧
    ∀ k k', k ∈ D → k' ∈ prefixesOf tenant E → k' ∉ D → noFresher E k k'.

(** The entries that count towards the cap. *)
Definition cappable (rt : gset string) (E : entries) : gset (prefixKey * string) :=
  filter (λ kr, isReservedTenant rt (pk_tenant kr.1) = false) (dom E).

(** Cap order: LFU tenants by access count first (LRU tenants count zero), then
    the least recently seen. *)
Definition capKey (cfg : IndexConfig) (k : prefixKey) (e : replicaEntry) : Z * Time :=
  (if str_eqb (evictionFor cfg (pk_tenant k)) EvictionLFU then accessCount e else 0, lastSeen e).

Definition lexLe (a b : Z * Z) : Prop := a.1 < b.1 ∨ (a.1 = b.1 ∧ a.2 ≤ b.2).

Definition specCap (cfg : IndexConfig) (E E' : entries) : Prop :=
  ∃ D : gset (prefixKey * string),
    D ⊆ cappable (cfg_reservedTenants cfg) E ∧
    Z.of_nat (size D) =
      (if 0 <? cfg_maxEntries cfg
       then Z.max 0 (Z.of_nat (size (cappable (cfg_reservedTenants cfg) E)) - cfg_maxEntries cfg)
       else 0) ∧
    E' = filter (λ kv, kv.1 ∉ D) E ∧
    ∀ k r e k' r' e', (k, r) ∈ D → (k', r') ∉ D →
      isReservedTenant (cfg_reservedTenants cfg) (pk_tenant k') = false →
      E !! (k, r) = Some e → E !! (k', r') = Some e' →
      lexLe (capKey cfg k e) (capKey cfg k' e').

Definition specStats (u : Update) (ts : Time) (S : gmap statsKey statEntry) :
    gmap statsKey statEntry :=
  match u_Stats u with
  | None => S
  | Some s => <[StatsKey (u_Tenant u) (u_Model u) (u_ReplicaID u) := ingestStat u ts s]> S
  end.

Definition specIngest (cfg : IndexConfig) (now : Time) (u : Update) (s s' : Store) : Prop :=
  let ts := stampOr now (u_Timestamp u) in
  ∃ E2,
    match tenantQuotaFor cfg (u_Tenant u) with
    | Some maxP => specQuota (u_Tenant u) maxP
    | None => eq
    end (foldl (specWrite (u_ReplicaID u) ts) (st_entries s) (updateWrites u)) E2 ∧
    specCap cfg E2 (st_entries s') ∧
    st_stats s' = specStats u ts (st_stats s).

(** The keys a PREFIX_EVICTED event names: the hash in its (tenant, model), in the
    adapter partition of the event or in all of them when it names none. *)
Definition evictedBy (ev : Event) (k : prefixKey) : Prop :=
  pk_tenant k = ev_Tenant ev ∧ pk_model k = ev_Model ev ∧ pk_prefixHash k = ev_PrefixHash ev ∧
  (ev_Adapter ev = "" ∨ pk_adapter k = ev_Adapter ev).

(** The keys an ALL_CLEARED event names: every prefix of its (tenant, model). *)
Definition clearedBy (ev : Event) (k : prefixKey) : Prop :=
  pk_tenant k = ev_Tenant ev ∧ pk_model k = ev_Model ev.

#[export] Instance evictedBy_dec ev k : Decision (evictedBy ev k).
Proof. unfold evictedBy. apply _. Defined.

#[export] Instance clearedBy_dec ev k : Decision (clearedBy ev k).
Proof. unfold clearedBy. apply _. Defined.

Definition specEvent (now : Time) (ev : Event) (s : Store) : Store :=
  let ts := if decide (ev_Timestamp ev = time_zero) then now else ev_Timestamp ev in
  let sk := StatsKey (ev_Tenant ev) (ev_Model ev) (ev_ReplicaID ev) in
  match ev_Type ev with
  | EventPrefixAdded => s
  | EventReplicaUpdated =>
      mkStore (st_entries s)
        (alter (λ x, StatEntry (se_stats x) ts (se_statsReported x)) sk (st_stats s))
  | EventPrefixEvicted =>
      mkStore
        (filter (λ kv, ¬ (kv.1.2 = ev_ReplicaID ev ∧ evictedBy ev kv.1.1)) (st_entries s))
        (st_stats s)
  | EventAllCleared =>
      mkStore
        (filter (λ kv, ¬ (kv.1.2 = ev_ReplicaID ev ∧ clearedBy ev kv.1.1)) (st_entries s))
        (delete sk (st_stats s))
  end.

(** The TTL of a tenant: what its policy answers when that is positive, the
    default of the server otherwise. *)
Definition tenantTTL (cfg : IndexConfig) (tenant : string) : Duration :=
  default (cfg_ttl cfg)
    (resolver ← cfg_ttlResolver cfg;
     if decide (0 < resolver tenant) then Some (resolver tenant) else None).

(** A time reached the TTL of its tenant: the TTL is positive (a TTL of zero or less
    switches expiry off) and the age, at most the longest Go duration, is no smaller. *)
Definition agedOut (cfg : IndexConfig) (now : Time) (tenant : string) (seen : Time) : Prop :=
  0 < tenantTTL cfg tenant ∧ tenantTTL cfg tenant ≤ Z.min MaxInt64 (now - seen).

#[export] Instance agedOut_dec cfg now t seen : Decision (agedOut cfg now t seen).
Proof. unfold agedOut. apply _. Defined.

Definition specSweep (cfg : IndexConfig) (now : Time) (s : Store) : Store :=
  mkStore
    (filter (λ kv, ¬ agedOut cfg now (pk_tenant kv.1.1) (lastSeen kv.2)) (st_entries s))
    (filter (λ kv, ¬ agedOut cfg now (sk_tenant kv.1) (se_lastSeen kv.2)) (st_stats s)).

(** ** The code's tests decide the ones of the contract *)

Lemma evictMatches_true ev k : evictMatches ev k = true ↔ evictedBy ev k.
Proof.
  unfold evictMatches, evictedBy, str_eqb. repeat case_bool_decide; simpl; naive_solver.
Qed.

Lemma clearMatches_true ev k : clearMatches ev k = true ↔ clearedBy ev k.
Proof.
  unfold clearMatches, clearedBy, str_eqb. repeat case_bool_decide; simpl; naive_solver.
Qed.

Lemma ttlFor_tenantTTL cfg t : ttlFor cfg t = tenantTTL cfg t.
Proof.
  unfold ttlFor, tenantTTL. destruct (cfg_ttlResolver cfg) as [f|]; simpl; [|done].
  case_decide; destruct (Z.ltb_spec 0 (f t)); simpl; lia.
Qed.

Lemma expired_true cfg now t seen : expired cfg now t seen = true ↔ agedOut cfg now t seen.
Proof.
  unfold expired, agedOut, time_sub. rewrite ttlFor_tenantTTL. unfold MaxInt64, MinInt64.
  repeat case_match; rewrite ?andb_true_iff; lia.
Qed.

Lemma expired_false cfg now t seen : expired cfg now t seen = false ↔ ¬ agedOut cfg now t seen.
Proof. by rewrite <-expired_true, not_true_iff_false. Qed.

Lemma stampOr_decide now ts :
  stampOr now ts = if decide (ts = time_zero) then now else ts.
Proof.
  unfold stampOr, time_is_zero. case_decide; destruct (Z.eqb_spec ts time_zero); done.
Qed.

(** ** The abstraction function *)

Definition absEntries (i : Index) : entries :=
  let flat : gmap (prefixKey * string) loc :=
    map_uncurry (M1:=gmap prefixKey) (M2:=gmap string) (M12:=gmap (prefixKey * string))
      (prefixes i) in
  omap (λ l, heap i !! l) flat.

Definition absIndex (i : Index) : Store := mkStore (absEntries i) (stats i).

Lemma absEntries_lookup i k r : absEntries i !! (k, r) = entryAt i k r.
Proof.
  unfold absEntries. cbv zeta. rewrite lookup_omap, (lookup_map_uncurry (M1:=gmap prefixKey) (M2:=gmap string)).
  unfold entryAt. by destruct (prefixes i !! k).
Qed.

Lemma absEntries_eq i E :
  (∀ k r, entryAt i k r = E !! (k, r)) → absEntries i = E.
Proof. intros HE. apply map_eq. intros [k r]. by rewrite absEntries_lookup. Qed.

Lemma absEntries_ext i i' :
  (∀ k r, entryAt i' k r = entryAt i k r) → absEntries i' = absEntries i.
Proof. intros HE. apply absEntries_eq. intros k r. by rewrite absEntries_lookup. Qed.

Lemma lookup_filter_if {K A : Type} `{Countable K} (P : K * A → Prop) `{∀ x, Decision (P x)}
    (m : gmap K A) k :
  filter P m !! k = a ← m !! k; if decide (P (k, a)) then Some a else None.
Proof.
  destruct (m !! k) as [a|] eqn:E; simpl.
  - case_decide; [by apply map_lookup_filter_Some|].
    apply map_lookup_filter_None. right. by intros a' [= <-]%(eq_trans (eq_sym E)).
  - apply map_lookup_filter_None. by left.
Qed.

(** Dropping conditionally on a victim list, as a filter. *)
Lemma drop_if {B C X : Type} `{EqDecision B} (f : C → B) (b : bool) (l : list C) (x : B)
    (o : option X) :
  (if b && bool_decide (x ∈ f <$> l) then None else o) =
    a ← o; if decide (x ∉ f <$> (if b then l else [])) then Some a else None.
Proof.
  destruct b; simpl; destruct o; simpl; repeat case_decide; repeat case_bool_decide; try done.
Qed.

(** ** Writes *)

Lemma absEntries_write rt r ts i w :
  index_wf rt i → absEntries (applyWrite rt r ts i w) = specWrite r ts (absEntries i) w.
Proof.
  intros Hwf. destruct w as [[k tc] tr]. apply absEntries_eq. intros k' r'. simpl.
  rewrite entryAt_upsert by apply Hwf. rewrite absEntries_lookup.
  destruct (decide (k = k' ∧ r = r')) as [[<- <-]|Hne].
  - by rewrite lookup_insert_eq.
  - rewrite lookup_insert_ne, absEntries_lookup; [done|]. intros [= <- <-]. by destruct Hne.
Qed.

Lemma absEntries_writes rt r ts ws i :
  index_wf rt i →
  absEntries (foldl (applyWrite rt r ts) i ws) = foldl (specWrite r ts) (absEntries i) ws.
Proof.
  revert i. induction ws as [|w ws IH]; intros i Hwf; simpl; [done|].
  rewrite IH; [by rewrite (absEntries_write rt)|].
  destruct w as [[k tc] tr]. by apply wf_upsert.
Qed.

Lemma stats_upsert rt k r tc tr ts i : stats (upsertReplicaLocked rt k r tc tr ts i) = stats i.
Proof.
  destruct (locAt i k r) as [l|] eqn:Hl; [by rewrite (upsert_refresh _ _ _ _ _ _ _ l Hl)|].
  by pose proof (upsert_insert rt k r tc tr ts i Hl) as (_&_&_&->&_).
Qed.

Lemma stats_writes rt r ts ws i : stats (foldl (applyWrite rt r ts) i ws) = stats i.
Proof.
  revert i. induction ws as [|[[k tc] tr] ws IH]; intros i; simpl; [done|].
  by rewrite IH, stats_upsert.
Qed.

Lemma absIndex_ingested cfg now u i :
  index_wf (cfg_reservedTenants cfg) i →
  let ts := stampOr now (u_Timestamp u) in
  absIndex (ingested cfg now u i) =
    mkStore (foldl (specWrite (u_ReplicaID u) ts) (absEntries i) (updateWrites u))
      (specStats u ts (stats i)).
Proof.
  intros Hwf ts. unfold ingested, absIndex. fold ts. f_equal.
  - rewrite <-(absEntries_writes (cfg_reservedTenants cfg)) by done.
    apply absEntries_ext. intros k r. unfold ingestStats. by case_match.
  - unfold ingestStats, specStats. case_match; simpl; by rewrite stats_writes.
Qed.

(** ** Quota *)

Lemma elem_of_prefixesOf rt t i k :
  index_wf rt i →
  k ∈ prefixesOf t (absEntries i) ↔ pk_tenant k = t ∧ is_Some (prefixes i !! k).
Proof.
  intros Hwf. unfold prefixesOf. rewrite elem_of_filter, elem_of_map. f_equiv. split.
  - intros ([k' r] & -> & Hd). apply elem_of_dom in Hd as [e He].
    rewrite absEntries_lookup in He. unfold entryAt in He. simpl.
    destruct (prefixes i !! k'); [eauto|done].
  - intros [m Hm]. destruct (map_choose m (wf_nonempty _ Hwf k m Hm)) as (r & l & Hl).
    exists (k, r). split; [done|]. apply elem_of_dom. rewrite absEntries_lookup.
    apply (entryAt_is_Some rt); [done|]. unfold locAt. rewrite Hm. simpl. eauto.
Qed.

Lemma prefixesOf_refs rt t i :
  index_wf rt i → prefixesOf t (absEntries i) = list_to_set (qr_key <$> quotaRefs t i).
Proof.
  intros Hwf. apply set_eq. intros k. rewrite (elem_of_prefixesOf rt) by done.
  rewrite elem_of_list_to_set, list_elem_of_fmap. split.
  - intros [Ht [m Hm]]. exists (QuotaRef k (newestSeen i m)). split; [done|].
    apply elem_of_quotaRefs. exists m. done.
  - intros (r & -> & Hr). apply elem_of_quotaRefs in Hr as (m & Hm & Ht & _). eauto.
Qed.

Lemma size_prefixesOf rt t i :
  index_wf rt i → Z.of_nat (size (prefixesOf t (absEntries i))) = p_tenant t (prefixes i).
Proof.
  intros Hwf. rewrite (prefixesOf_refs rt), size_list_to_set by (apply quotaRefs_ok || done).
  by rewrite length_fmap, length_quotaRefs.
Qed.

Lemma newestSeen_attained_aux i (l : list (string * loc)) acc :
  let n := foldl (λ newest '(_, l),
    match heap i !! l with
    | Some e => if time_after (lastSeen e) newest then lastSeen e else newest
    | None => newest
    end) acc l in
  n = acc ∨ ∃ r x e, (r, x) ∈ l ∧ heap i !! x = Some e ∧ lastSeen e = n.
Proof.
  revert acc. induction l as [|[r x] l IH]; intros acc; simpl; [by left|].
  destruct (heap i !! x) as [e|] eqn:He; [destruct (time_after (lastSeen e) acc)|].
  - destruct (IH (lastSeen e)) as [Heq|(r' & x' & e' & ? & ? & ?)]; right.
    + exists r, x, e. split_and!; [left|done|by rewrite Heq].
    + exists r', x', e'. by split_and!; [right|..].
  - destruct (IH acc) as [?|(r' & x' & e' & ? & ? & ?)]; [by left|right].
    exists r', x', e'. by split_and!; [right|..].
  - destruct (IH acc) as [?|(r' & x' & e' & ? & ? & ?)]; [by left|right].
    exists r', x', e'. by split_and!; [right|..].
Qed.

Lemma newestSeen_attained i k m :
  prefixes i !! k = Some m →
  newestSeen i m = time_zero ∨
  ∃ r e, entryAt i k r = Some e ∧ lastSeen e = newestSeen i m.
Proof.
  intros Hm. destruct (newestSeen_attained_aux i (map_to_list m) time_zero)
    as [?|(r & x & e & Hin & He & Hs)]; [by left|right].
  exists r, e. split; [|done]. apply elem_of_map_to_list in Hin.
  unfold entryAt. rewrite Hm. simpl. by rewrite Hin.
Qed.

(** The quota order refines [noFresher]. *)
Lemma quotaLess_noFresher t i v s :
  v ∈ quotaRefs t i → s ∈ quotaRefs t i → quotaLess s v = false →
  noFresher (absEntries i) (qr_key v) (qr_key s).
Proof.
  intros (mv & Hmv & _ & Hv)%elem_of_quotaRefs (ms & Hms & _ & Hs)%elem_of_quotaRefs Hless r e.
  rewrite absEntries_lookup. intros He.
  assert (lastSeen e ≤ newestSeen i mv) as Hle.
  { unfold entryAt in He. rewrite Hmv in He. simpl in He.
    apply bind_Some in He as (l & Hl & He). by eapply newestSeen_ge. }
  assert (newestSeen i mv ≤ newestSeen i ms) as Hms'.
  { unfold quotaLess, time_before in Hless. rewrite Hv, Hs in Hless.
    destruct (Z.eqb_spec (newestSeen i ms) (newestSeen i mv)) as [->|?]; [done|].
    simpl in Hless. lia. }
  destruct (newestSeen_attained i (qr_key s) ms Hms) as [Hz|(r' & e' & He' & Hs')].
  - left. lia.
  - right. exists r', e'. rewrite absEntries_lookup. split; [done|]. lia.
Qed.

Lemma spec_evictOldest rt t maxP i :
  index_wf rt i →
  specQuota t maxP (absEntries i) (absEntries (evictOldestForTenantLocked rt t maxP i).1).
Proof.
  intros Hwf. pose proof (size_prefixesOf rt t i Hwf) as Hsz.
  pose proof (quotaVictims_ok t maxP i) as [Hnd Hvall].
  set (V := if overQuota t maxP i then quotaVictims t maxP i else []).
  assert (∀ r, r ∈ V → r ∈ quotaRefs t i) as HV.
  { intros r. unfold V. case_match; [|by intros ?%not_elem_of_nil].
    apply quotaVictim_quotaRef. }
  exists (list_to_set (qr_key <$> V)). split_and!.
  - rewrite (prefixesOf_refs rt) by done. intros k. rewrite !elem_of_list_to_set.
    rewrite !list_elem_of_fmap. naive_solver.
  - rewrite size_list_to_set, length_fmap by (unfold V; case_match; [done|apply NoDup_nil_2]).
    rewrite Hsz. unfold V. destruct (overQuota t maxP i) eqn:Ho.
    + rewrite length_quotaVictims by done. unfold overQuota in Ho. destruct (0 <=? maxP); lia.
    + simpl. unfold overQuota in Ho. destruct (0 <=? maxP); lia.
  - apply absEntries_eq. intros k r. rewrite entryAt_evictOldest by done.
    rewrite lookup_filter_if, absEntries_lookup.
    rewrite drop_if. apply option_bind_ext_fun. intros e. apply decide_ext.
    cbn [fst]. by rewrite elem_of_list_to_set.
  - intros k k' Hk Hk' Hnk. rewrite (prefixesOf_refs rt) in Hk' by done.
    rewrite elem_of_list_to_set in Hk, Hk', Hnk.
    apply list_elem_of_fmap in Hk as (v & -> & Hv), Hk' as (s & -> & Hs).
    apply (quotaLess_noFresher t); [by apply HV|done|].
    assert (s ∉ V) as Hns by (intros ?; by apply Hnk, list_elem_of_fmap_2).
    unfold V in *. destruct (overQuota t maxP i); [|by apply not_elem_of_nil in Hv].
    by eapply quotaVictims_first.
Qed.

(** ** Cap *)

Lemma elem_of_cappable rt i k r :
  (k, r) ∈ cappable rt (absEntries i) ↔
    is_Some (entryAt i k r) ∧ isReservedTenant rt (pk_tenant k) = false.
Proof.
  unfold cappable. rewrite elem_of_filter, elem_of_dom, absEntries_lookup. simpl. tauto.
Qed.

Lemma cappable_refs cfg i :
  cappable (cfg_reservedTenants cfg) (absEntries i) = list_to_set (capId <$> capRefs cfg i).
Proof.
  apply set_eq. intros [k r]. rewrite elem_of_cappable, elem_of_list_to_set, list_elem_of_fmap.
  split.
  - intros [[e He] Hres].
    exists (CapRef k r (evictionFor cfg (pk_tenant k)) (capKey cfg k e).1 (lastSeen e)).
    split; [done|]. apply elem_of_capRefs. exists e. done.
  - intros (x & [= -> ->] & Hx). apply elem_of_capRefs in Hx as (e & He & Hres & _). eauto.
Qed.

Lemma size_cappable cfg i :
  index_wf (cfg_reservedTenants cfg) i →
  Z.of_nat (size (cappable (cfg_reservedTenants cfg) (absEntries i))) = effectiveTotal i.
Proof.
  intros Hwf. rewrite cappable_refs, size_list_to_set by apply capRefs_NoDup.
  by rewrite length_fmap, length_capRefs.
Qed.

(** The cap comparator refines the cap order. *)
Lemma capLess_lexLe cfg i v s e e' :
  v ∈ capRefs cfg i → s ∈ capRefs cfg i → capLess s v = false →
  entryAt i (cr_key v) (cr_replica v) = Some e → entryAt i (cr_key s) (cr_replica s) = Some e' →
  lexLe (capKey cfg (cr_key v) e) (capKey cfg (cr_key s) e').
Proof.
  intros (e0 & He0 & _ & _ & Hcv & Hsv)%elem_of_capRefs
    (e1 & He1 & _ & _ & Hcs & Hss)%elem_of_capRefs Hless He He'.
  rewrite He in He0. rewrite He' in He1. simplify_eq. unfold lexLe, capKey. simpl.
  rewrite <-Hcv, <-Hcs, <-Hsv, <-Hss. unfold capLess, time_before in Hless.
  destruct (Z.eqb_spec (cr_effectiveCount s) (cr_effectiveCount v)); simpl in Hless; [|lia].
  destruct (Z.eqb_spec (cr_lastSeen s) (cr_lastSeen v)); simpl in Hless; [|lia].
  right. lia.
Qed.

Lemma spec_enforceCap cfg i :
  index_wf (cfg_reservedTenants cfg) i →
  specCap cfg (absEntries i) (absEntries (enforceCapLocked cfg i).1).
Proof.
  intros Hwf. pose proof (size_cappable cfg i Hwf) as Hsz.
  set (V := if overCap cfg i then victims cfg i else []).
  assert (∀ r, r ∈ V → r ∈ capRefs cfg i) as HV.
  { intros r. unfold V. case_match; [apply victim_capRef|by intros ?%not_elem_of_nil]. }
  exists (list_to_set (capId <$> V)). split_and!.
  - rewrite cappable_refs. intros k. rewrite !elem_of_list_to_set.
    rewrite !list_elem_of_fmap. naive_solver.
  - pose proof (capRefsOK_take _ _ _ (excess cfg i) (sorted_capRefs_ok cfg i Hwf)) as [Hnd _].
    rewrite size_list_to_set, length_fmap by (unfold V; case_match; [done|apply NoDup_nil_2]).
    rewrite Hsz. unfold V. destruct (overCap cfg i) eqn:Ho.
    + rewrite length_victims by done. unfold overCap in Ho.
      destruct (0 <? cfg_maxEntries cfg); lia.
    + simpl. unfold overCap in Ho. destruct (0 <? cfg_maxEntries cfg); lia.
  - apply absEntries_eq. intros k r. rewrite entryAt_enforceCap by done.
    rewrite lookup_filter_if, absEntries_lookup.
    rewrite drop_if. apply option_bind_ext_fun. intros e. apply decide_ext.
    cbn [fst]. by rewrite elem_of_list_to_set.
  - intros k r e k' r' e' Hk Hnk Hres. rewrite !absEntries_lookup. intros He He'.
    rewrite elem_of_list_to_set in Hk, Hnk.
    apply list_elem_of_fmap in Hk as (v & [= -> ->] & Hv).
    assert ((k', r') ∈ cappable (cfg_reservedTenants cfg) (absEntries i)) as Hs
      by (apply elem_of_cappable; eauto).
    rewrite cappable_refs, elem_of_list_to_set in Hs.
    apply list_elem_of_fmap in Hs as (s & [= -> ->] & Hs).
    assert (s ∉ V) as Hns by (intros ?; by apply Hnk, (list_elem_of_fmap_2 capId)).
    eapply (capLess_lexLe cfg i); eauto. unfold V in *.
    destruct (overCap cfg i); [|by apply not_elem_of_nil in Hv]. by eapply victims_first.
Qed.

(** ** Stats are not touched by enforcement *)

Lemma stats_dropPrefixes rt rs i : stats (dropPrefixes rt rs i) = stats i.
Proof.
  unfold dropPrefixes. apply (foldl_inv (λ j, stats j = stats i)); [done|].
  intros j r _ Hj. rewrite dropPrefix_removeMany. by rewrite (proj1 (removeMany_stats _ _ _)).
Qed.

Lemma stats_enforceQuota cfg t i :
  index_wf (cfg_reservedTenants cfg) i → stats (enforceQuota cfg t i).1 = stats i.
Proof.
  intros Hwf. unfold enforceQuota. case_match; [|done]. rewrite evictOldest_result by done.
  case_match; [apply stats_dropPrefixes|done].
Qed.

Lemma stats_enforceCap cfg i :
  index_wf (cfg_reservedTenants cfg) i → stats (enforceCapLocked cfg i).1 = stats i.
Proof.
  intros Hwf. rewrite enforceCap_result by done. case_match; [apply removeMany_stats|done].
Qed.

(** ** Refinement of the operations *)

Lemma absIndex_reportEntries cfg i : absIndex (reportEntries cfg i).1 = absIndex i.
Proof.
  unfold absIndex. f_equal; [|by pose proof (reportEntries_frame cfg i) as (?&?&?&->&_)].
  apply absEntries_ext. intros. apply entryAt_reportEntries.
Qed.

Lemma Ingest_refines cfg now u i :
  index_wf (cfg_reservedTenants cfg) i →
  specIngest cfg now u (absIndex i) (absIndex (Ingest cfg now u i).1).
Proof.
  intros Hwf. rewrite Ingest_fst, absIndex_reportEntries.
  pose proof (absIndex_ingested cfg now u i Hwf) as Habs.
  pose proof (wf_ingested cfg now u i Hwf) as Hwf1.
  pose proof (wf_enforceQuota cfg (u_Tenant u) _ Hwf1) as Hwf2.
  injection Habs as HE HS. unfold specIngest. cbn [absIndex st_entries st_stats].
  exists (absEntries (enforceQuota cfg (u_Tenant u) (ingested cfg now u i)).1).
  split_and!.
  - rewrite <-HE. unfold enforceQuota. case_match; [by apply spec_evictOldest|done].
  - by apply spec_enforceCap.
  - by rewrite stats_enforceCap, stats_enforceQuota, HS.
Qed.

Lemma absEntries_removeMatching rt matches (P : prefixKey → Prop) `{∀ k, Decision (P k)} r i :
  (∀ k, matches k = true ↔ P k) →
  absEntries (removeMatching rt matches r i) =
    filter (λ kv, ¬ (kv.1.2 = r ∧ P kv.1.1)) (absEntries i).
Proof.
  intros HP. apply absEntries_eq. intros k r'. rewrite entryAt_removeMatching, lookup_filter_if.
  rewrite absEntries_lookup. destruct (entryAt i k r'); simpl; [|by case_match].
  specialize (HP k). case_bool_decide; case_decide; destruct (matches k); naive_solver.
Qed.

Lemma absEntries_dropStats sk i : absEntries (dropStats sk i) = absEntries i.
Proof.
  apply absEntries_ext. intros. pose proof (dropStats_frame sk i) as (?&?&?&_).
  by apply entryAt_frame.
Qed.

Lemma ApplyEvent_refines cfg now ev i :
  absIndex (ApplyEvent cfg now ev i).1 = specEvent now ev (absIndex i).
Proof.
  unfold ApplyEvent. rewrite absIndex_reportEntries.
  unfold applyEventLocked, specEvent, absIndex. rewrite stampOr_decide. simpl.
  destruct (ev_Type ev); simpl; [done| | |].
  - rewrite stats_removeMatching. f_equal. apply absEntries_removeMatching.
    intros k. apply evictMatches_true.
  - rewrite stats_touchStats. f_equal. apply absEntries_ext. intros k r.
    set (sk := StatsKey _ _ _). set (ts := if decide _ then _ else _).
    pose proof (touchStats_frame sk ts i) as (?&?&?&_). by apply entryAt_frame.
  - rewrite absEntries_dropStats.
    rewrite (absEntries_removeMatching _ _ (clearedBy ev)) by apply clearMatches_true. f_equal.
    unfold dropStats. set (j := removeMatching _ _ _ _).
    match goal with |- stats (statsScopeRemoveLocked ?mk ?r ?x) = _ =>
      pose proof (statsScopeRemove_frame mk r x) as (?&?&?&->&_) end.
    simpl. unfold j. by rewrite stats_removeMatching.
Qed.

(** ** Sweep *)

Lemma stats_dropStats sk i : stats (dropStats sk i) = delete sk (stats i).
Proof. by pose proof (dropStats_frame sk i) as (_&_&_&->&_). Qed.

Lemma stats_dropMany (p : statsKey → statEntry → bool) (l : list (statsKey * statEntry)) i x :
  stats (foldl (λ i '(sk, s), if p sk s then dropStats sk i else i) i l) !! x =
    if decide (Exists (λ kv, kv.1 = x ∧ p kv.1 kv.2 = true) l) then None else stats i !! x.
Proof.
  revert i. induction l as [|[sk s] l IH]; intros i; simpl; [done|].
  rewrite IH, (decide_ext _ _ _ _ (Exists_cons (λ kv, kv.1 = x ∧ p kv.1 kv.2 = true) (sk, s) l)).
  simpl. destruct (p sk s) eqn:Hp; rewrite ?stats_dropStats;
    destruct (decide (sk = x)) as [->|Hne]; rewrite ?lookup_delete_eq, ?lookup_delete_ne by done;
    repeat case_decide; naive_solver.
Qed.

Lemma stats_sweepStats cfg now i :
  stats (sweepStats cfg now i) =
    filter (λ kv, ¬ agedOut cfg now (sk_tenant kv.1) (se_lastSeen kv.2)) (stats i).
Proof.
  apply map_eq. intros x. unfold sweepStats.
  rewrite (stats_dropMany (λ sk s, expired cfg now (sk_tenant sk) (se_lastSeen s))).
  rewrite lookup_filter_if. case_decide as He.
  - apply Exists_exists in He as ([sk s] & Hin%elem_of_map_to_list & <- & Hex). simpl in *.
    rewrite Hin. simpl. apply expired_true in Hex. by case_decide.
  - destruct (stats i !! x) as [s|] eqn:Hs; [|done]. simpl. case_decide as Hd; [done|].
    destruct He. apply Exists_exists. exists (x, s). rewrite elem_of_map_to_list. simpl in *.
    split_and!; [done..|]. apply expired_true.
    destruct (decide (agedOut cfg now (sk_tenant x) (se_lastSeen s))); tauto.
Qed.

Lemma evictExpired_refines cfg now i :
  absIndex (evictExpired cfg now i).1 = specSweep cfg now (absIndex i).
Proof.
  unfold absIndex, specSweep. simpl. f_equal.
  - apply absEntries_eq. intros k r. rewrite entryAt_evictExpired, lookup_filter_if.
    rewrite absEntries_lookup. apply option_bind_ext_fun. intros e. simpl.
    pose proof (expired_true cfg now (pk_tenant k) (lastSeen e)).
    destruct (expired _ _ _ _); case_decide; naive_solver.
  - rewrite evictExpired_fst.
    match goal with |- stats (reportEntries _ ?j).1 = _ =>
      pose proof (reportEntries_frame cfg j) as (_&_&_&->&_) end.
    by rewrite stats_sweepStats, sweepPrefixes_spec, (proj1 (removeMany_stats _ _ _)).
Qed.
