(* ===== verification/IndexLookup.v ===== *)
(** * Lookup (internal/index/lookup.go, types.go)

    Reads of the index: exact and chain prefix matching, the TENANT_HOT
    fallback, affinity assignment, and the miss classifier.  A lookup never
    writes the index; it returns pointers to the entries that matched, which
    [CreditHits] bumps later, after other operations may have run.

    [LookupRoute] takes the read lock once per phase, so it is given one view
    (clock reading and index state) per phase. *)

From Stdlib Require Import SpecFloat.
From S2P Require Import Prelude Ordering GoRuntime Floats IndexTypes IndexAccounting IndexMetrics.
From S2P Require Import IndexEviction IndexRanking.

(** ** Scores *)

(** [float32(mt) * fresh * pressureFactor * sloBias]. *)
Definition matchScore (ranker : RankerConfig) (sloBiasFactor pressure fresh : f32) (mt : Z) : f32 :=
  let pressureFactor := pressureFactorAt pressure (PressureWeight ranker) in
  let sloBias := f32_add f32_one (f32_mul fresh sloBiasFactor) in
  f32_mul (f32_mul (f32_mul (f32_of_Z mt) fresh) pressureFactor) sloBias.

(** The pressure folded in: only while the stats payload is fresh. *)
Definition pressureOf (now : Time) (ttl : Duration) (tenant model id : string) (i : Index) : f32 :=
  match stats i !! StatsKey tenant model id with
  | Some s =>
      if flt f32_zero (freshnessAt now (se_statsReported s) ttl)
      then rs_Pressure (se_stats s) else f32_zero
  | None => f32_zero
  end.

Definition totalReplicas (i : Index) (tenant model hashScheme : string) : Z :=
  Z.of_nat (size (servingAt i (ScopeKey tenant model hashScheme))).

Definition reqKey (req : LookupRequest) (hash : string) : prefixKey :=
  PrefixKey (lr_Tenant req) (lr_Model req) (lr_HashScheme req) (lr_Adapter req) hash.

(** [hits[id] = append(hits[id], e)]. *)
Definition appendHit (hits : gmap string (list loc)) (id : string) (l : loc) :
    gmap string (list loc) :=
  <[id := default [] (hits !! id) ++ [l]]> hits.

(** ** Exact match *)

(** The body of the loop over the holders of the prefix. *)
Definition exactStep (cfg : IndexConfig) (now : Time) (req : LookupRequest) (i : Index)
    (acc : list ReplicaScore * gmap string (list loc)) (idl : string * loc) :
    list ReplicaScore * gmap string (list loc) :=
  let ttl := ttlFor cfg (lr_Tenant req) in
  let lfu := str_eqb (evictionFor cfg (lr_Tenant req)) EvictionLFU in
  let sloBiasFactor := sloTightBiasCoefficient (cfg_ranker cfg) (lr_TTFTBudgetMs req) in
  let '(scores, hits) := acc in
  let '(id, l) := idl in
  match heap i !! l with
  | None => acc
  | Some e =>
      let fresh := freshnessAt now (lastSeen e) ttl in
      if fle fresh f32_zero then acc
      else
        let hits := if lfu && (0 <? tokenCount e) then appendHit hits id l else hits in
        let pressure := pressureOf now ttl (lr_Tenant req) (lr_Model req) id i in
        (scores ++ [mkReplicaScore id
                      (matchScore (cfg_ranker cfg) sloBiasFactor pressure fresh (tokenCount e))
                      (tokenCount e) fresh (tier e)], hits)
  end.

Definition lookupExact (cfg : IndexConfig) (now : Time) (req : LookupRequest) (i : Index) :
    list ReplicaScore * gmap string (list loc) :=
  let key := reqKey req (lr_PrefixHash req) in
  let '(scores, hits) :=
    foldl (exactStep cfg now req i) ([], ∅) (map_to_list (replicasAt i key)) in
  let total := totalReplicas i (lr_Tenant req) (lr_Model req) (lr_HashScheme req) in
  let dp := distinguishingPower (Z.of_nat (length scores)) total in
  (sortScoresDescByScoreThenID (scaleBy dp <$> scores), hits).

(** ** Chain match *)

Record running := mkRunning {
  r_matchedTokens : Z;
  r_oldestLastSeen : Time;
  r_runTier : CacheTier;
  r_entries : list loc
}.

(** Block 0: every fresh holder starts a run. *)
Definition chainStart (now : Time) (ttl : Duration) (lfu : bool) (blockTokens : Z) (i : Index)
    (holders : gmap string loc) : gmap string running :=
  omap (λ l,
    e ← heap i !! l;
    if fle (freshnessAt now (lastSeen e) ttl) f32_zero then None
    else Some (mkRunning blockTokens (lastSeen e) (tier e) (if lfu then [l] else [])))
    holders.

(** A later block, for one running replica: extended, or stopped. *)
Definition chainExtend (now : Time) (ttl : Duration) (lfu : bool) (blockTokens : Z) (i : Index)
    (holders : gmap string loc) (id : string) (st : running) : option running :=
  l ← holders !! id;
  e ← heap i !! l;
  if fle (freshnessAt now (lastSeen e) ttl) f32_zero then None
  else
    let oldest := if time_before (lastSeen e) (r_oldestLastSeen st)
                  then lastSeen e else r_oldestLastSeen st in
    Some (mkRunning (wrap32 (r_matchedTokens st + blockTokens)) oldest
            (worstTier (r_runTier st) (tier e))
            (if lfu then r_entries st ++ [l] else r_entries st)).

(** One iteration for a block index other than 0: [next] and [finalized]. *)
Definition chainNext (now : Time) (ttl : Duration) (lfu : bool) (blockTokens : Z) (i : Index)
    (holders : gmap string loc) (current finalized : gmap string running) :
    gmap string running * gmap string running :=
  foldl (λ '(next, fin) '(id, st),
    match chainExtend now ttl lfu blockTokens i holders id st with
    | None => (next, <[id := st]> fin)
    | Some nr => (<[id := nr]> next, fin)
    end) (∅, finalized) (map_to_list current).

(** The walk over the blocks, with its [break] when no replica is running. *)
Fixpoint chainWalk (now : Time) (ttl : Duration) (lfu : bool) (req : LookupRequest) (i : Index)
    (blocks : list (string * Z)) (first : bool) (current finalized : gmap string running) :
    gmap string running * gmap string running :=
  match blocks with
  | [] => (current, finalized)
  | (h, blockTokens) :: blocks' =>
      let holders := replicasAt i (reqKey req h) in
      let '(current, finalized) :=
        if first then (chainStart now ttl lfu blockTokens i holders, finalized)
        else chainNext now ttl lfu blockTokens i holders current finalized in
      if bool_decide (current = ∅) then (current, finalized)
      else chainWalk now ttl lfu req i blocks' false current finalized
  end.

(** [for id, st := range current { finalized[id] = st }]. *)
Definition chainRuns (now : Time) (ttl : Duration) (lfu : bool) (req : LookupRequest) (i : Index) :
    gmap string running :=
  let '(current, finalized) :=
    chainWalk now ttl lfu req i (zip (lr_BlockHashes req) (lr_BlockTokenCounts req))
      true ∅ ∅ in
  current ∪ finalized.

Definition chainStep (cfg : IndexConfig) (now : Time) (req : LookupRequest) (i : Index)
    (acc : list ReplicaScore * gmap string (list loc)) (idst : string * running) :
    list ReplicaScore * gmap string (list loc) :=
  let ttl := ttlFor cfg (lr_Tenant req) in
  let lfu := str_eqb (evictionFor cfg (lr_Tenant req)) EvictionLFU in
  let sloBiasFactor := sloTightBiasCoefficient (cfg_ranker cfg) (lr_TTFTBudgetMs req) in
  let '(scores, hits) := acc in
  let '(id, st) := idst in
  if r_matchedTokens st <=? 0 then acc
  else
    let fresh := freshnessAt now (r_oldestLastSeen st) ttl in
    if fle fresh f32_zero then acc
    else
      let hits := if lfu && (0 <? length (r_entries st))%nat
                  then <[id := r_entries st]> hits else hits in
      let pressure := pressureOf now ttl (lr_Tenant req) (lr_Model req) id i in
      (scores ++ [mkReplicaScore id
                    (matchScore (cfg_ranker cfg) sloBiasFactor pressure fresh (r_matchedTokens st))
                    (r_matchedTokens st) fresh (r_runTier st)], hits).

Definition lookupChain (cfg : IndexConfig) (now : Time) (req : LookupRequest) (i : Index) :
    list ReplicaScore * gmap string (list loc) :=
  let ttl := ttlFor cfg (lr_Tenant req) in
  let lfu := str_eqb (evictionFor cfg (lr_Tenant req)) EvictionLFU in
  let '(scores, hits) :=
    foldl (chainStep cfg now req i) ([], ∅) (map_to_list (chainRuns now ttl lfu req i)) in
  let total := totalReplicas i (lr_Tenant req) (lr_Model req) (lr_HashScheme req) in
  (sortScoresDescByScoreThenID (applyChainDistinguishingPower scores total), hits).

Definition chainBearing (req : LookupRequest) : bool :=
  (0 <? length (lr_BlockHashes req))%nat || (0 <? length (lr_BlockTokenCounts req))%nat.

Definition chainMalformed (req : LookupRequest) : bool :=
  negb (length (lr_BlockHashes req) =? length (lr_BlockTokenCounts req))%nat.

Definition lookupWithHits (cfg : IndexConfig) (now : Time) (req : LookupRequest) (i : Index) :
    list ReplicaScore * gmap string (list loc) :=
  if str_eqb (lr_HashScheme req) "" then ([], ∅)
  else if chainBearing req then
    if chainMalformed req then ([], ∅) else lookupChain cfg now req i
  else lookupExact cfg now req i.

Definition Lookup (cfg : IndexConfig) (now : Time) (req : LookupRequest) (i : Index) :
    list ReplicaScore := (lookupWithHits cfg now req i).1.

(** ** TENANT_HOT *)

Record warmReplica := WarmReplica {
  w_hitRate : f32;
  w_pressure : f32;
  w_lastSeen : Time
}.

(** Pass 1: the warm replicas of the (tenant, model). *)
Definition warmReplicas (cfg : IndexConfig) (now : Time) (req : LookupRequest) (i : Index)
    (scoped : gset string) : gmap string warmReplica :=
  foldl (λ warm replicaID,
    match stats i !! StatsKey (lr_Tenant req) (lr_Model req) replicaID with
    | None => warm
    | Some s =>
        if TenantHotMaxAge (cfg_ranker cfg) <=? time_sub now (se_statsReported s) then warm
        else if flt (rs_HitRate (se_stats s)) (TenantHotMinHitRate (cfg_ranker cfg)) then warm
        else <[replicaID := WarmReplica (rs_HitRate (se_stats s)) (rs_Pressure (se_stats s))
                              (se_statsReported s)]> warm
    end) ∅ (elements scoped).

Definition hotRecency (now : Time) (maxAge : Duration) (w : warmReplica) : f32 :=
  let age := time_sub now (w_lastSeen w) in
  if age <=? 0 then f32_one
  else if maxAge <=? age then f32_zero
  else f32_sub f32_one (f32_div (f32_of_Z age) (f32_of_Z maxAge)).

Definition hotScore (cfg : IndexConfig) (now : Time) (req : LookupRequest) (id : string)
    (w : warmReplica) : ReplicaScore :=
  let ranker := cfg_ranker cfg in
  let recency := hotRecency now (TenantHotMaxAge ranker) w in
  let pressureFactor := pressureFactorAt (w_pressure w) (PressureWeight ranker) in
  let sloBias := f32_add f32_one
    (f32_mul recency (sloTightBiasCoefficient ranker (lr_TTFTBudgetMs req))) in
  mkReplicaScore id
    (f32_mul (f32_mul (f32_mul (w_hitRate w) recency) pressureFactor) sloBias)
    0 (w_hitRate w) TierUnspecified.

Definition tenantHotCandidates (cfg : IndexConfig) (now : Time) (req : LookupRequest)
    (i : Index) : list ReplicaScore :=
  if TenantHotMaxAge (cfg_ranker cfg) <=? 0 then []
  else if str_eqb (lr_HashScheme req) "" then []
  else
    let scoped := default ∅ (replicasByModel i !! ModelKey (lr_Tenant req) (lr_Model req)) in
    if bool_decide (scoped = ∅) then []
    else
      let warm := warmReplicas cfg now req i scoped in
      if bool_decide (warm = ∅) then []
      else
        let serving :=
          servingAt i (ScopeKey (lr_Tenant req) (lr_Model req) (lr_HashScheme req)) in
        if bool_decide (serving = ∅) then []
        else
          go_sort scoreLess
            (omap (λ '(id, w),
               if go_get serving id =? 0 then None else Some (hotScore cfg now req id w))
               (map_to_list warm)).

(** ** Affinity *)

Definition replicasForRouting (tenant model hashScheme : string) (i : Index) : list string :=
  if str_eqb hashScheme "" then []
  else
    match servingByScope i !! ScopeKey tenant model hashScheme with
    | None => []
    | Some set =>
        if bool_decide (set = ∅) then []
        else go_sort str_lt (map_to_list set).*1
    end.

(** [sha256.Sum256] is a parameter of the model. *)
Definition AffinityHint (sha256 : string → string) (tenant model hashScheme seed : string)
    (i : Index) : option string :=
  if str_eqb seed "" then None
  else
    let replicas := replicasForRouting tenant model hashScheme i in
    match replicas with
    | [] => None
    | _ =>
        let idx := be_value 0 8 (sha256 seed) mod Z.of_nat (length replicas) in
        replicas !! Z.to_nat idx
    end.

(** ** The miss classifier *)

Definition hasAnyForTenantLocked (tenant : string) (i : Index) : bool :=
  0 <? go_get (prefixesByTenant i) tenant.

Definition hasAnyForTenantModelLocked (tenant model : string) (i : Index) : bool :=
  0 <? go_get (prefixesByTenantModel i) (ModelKey tenant model).

Definition hasAnyForTenantModelSchemeLocked (tenant model hashScheme : string) (i : Index) : bool :=
  (0 <? size (servingAt i (ScopeKey tenant model hashScheme)))%nat.

Definition classifyMiss (req : LookupRequest) (i : Index) : Strategy :=
  if (size (prefixes i) =? 0)%nat then StrategyNone
  else if negb (hasAnyForTenantLocked (lr_Tenant req) i) then StrategyUnknownTenant
  else if negb (hasAnyForTenantModelLocked (lr_Tenant req) (lr_Model req) i)
  then StrategyUnknownModel
  else if negb (hasAnyForTenantModelSchemeLocked (lr_Tenant req) (lr_Model req)
                  (lr_HashScheme req) i)
  then StrategyUnknownHashScheme
  else StrategyNone.

(** ** LookupRoute *)

(** A clock reading and the index state behind the read lock. *)
Definition View := (Time * Index)%type.

Definition LookupRoute (cfg : IndexConfig) (v1 v2 v3 : View) (req : LookupRequest) : LookupResult :=
  if str_eqb (lr_Tenant req) "" || str_eqb (lr_Model req) "" || str_eqb (lr_HashScheme req) ""
  then resultOf StrategyNone
  else if chainBearing req then
    if chainMalformed req then resultOf StrategyNone
    else
      let '(scores, hits) := lookupWithHits cfg v1.1 req v1.2 in
      if (0 <? length scores)%nat then mkLookupResult scores StrategyPrefixMatch hits
      else resultOf (classifyMiss req v3.2)
  else
    let '(scores, hits) := lookupWithHits cfg v1.1 req v1.2 in
    if (0 <? length scores)%nat then mkLookupResult scores StrategyPrefixMatch hits
    else
      let hot := tenantHotCandidates cfg v2.1 req v2.2 in
      if (0 <? length hot)%nat then mkLookupResult hot StrategyTenantHot ∅
      else resultOf (classifyMiss req v3.2).

(** ** Crediting and pruning a result *)

(** [e.accessCount.Add(1)] through the pointer. *)
Definition bump (l : loc) (i : Index) : Index :=
  set_heap (alter (λ e, ReplicaEntry (tokenCount e) (lastSeen e) (tier e)
                          (wrap64 (accessCount e + 1))) l) i.

Definition CreditHits (r : LookupResult) (i : Index) : Index :=
  foldl (λ i '(_, entries), foldl (λ i l, bump l i) i entries) i
    (map_to_list (res_hitsByReplica r)).

Definition RetainReplicas (keep : string → bool) (r : LookupResult) : LookupResult :=
  if (length (res_Scores r) =? 0)%nat then r
  else mkLookupResult (List.filter (λ sc, keep (s_ReplicaID sc)) (res_Scores r)) (res_Strategy r)
         (filter (λ kv, keep kv.1 = true) (res_hitsByReplica r)).

(** ** Fields the scaling leaves alone *)

Lemma scaleBy_fields dp s :
  s_ReplicaID (scaleBy dp s) = s_ReplicaID s ∧ s_MatchedTokens (scaleBy dp s) = s_MatchedTokens s ∧
  s_EstimatedCacheHitProb (scaleBy dp s) = s_EstimatedCacheHitProb s ∧
  s_Tier (scaleBy dp s) = s_Tier s.
Proof. unfold scaleBy. by case_match. Qed.

Lemma depthScaled_fields total l s :
  s_ReplicaID (depthScaled total l s) = s_ReplicaID s ∧
  s_MatchedTokens (depthScaled total l s) = s_MatchedTokens s ∧
  s_EstimatedCacheHitProb (depthScaled total l s) = s_EstimatedCacheHitProb s ∧
  s_Tier (depthScaled total l s) = s_Tier s.
Proof. apply scaleBy_fields. Qed.

(** ** Exact match *)

(** The unscaled score of one holder. *)
Definition exactScore (cfg : IndexConfig) (now : Time) (req : LookupRequest) (i : Index)
    (idl : string * loc) : option ReplicaScore :=
  let ttl := ttlFor cfg (lr_Tenant req) in
  e ← heap i !! idl.2;
  let fresh := freshnessAt now (lastSeen e) ttl in
  if fle fresh f32_zero then None
  else Some (mkReplicaScore idl.1
    (matchScore (cfg_ranker cfg) (sloTightBiasCoefficient (cfg_ranker cfg) (lr_TTFTBudgetMs req))
       (pressureOf now ttl (lr_Tenant req) (lr_Model req) idl.1 i) fresh (tokenCount e))
    (tokenCount e) fresh (tier e)).

Definition exactHit (cfg : IndexConfig) (now : Time) (req : LookupRequest) (i : Index)
    (idl : string * loc) : bool :=
  match heap i !! idl.2 with
  | None => false
  | Some e =>
      negb (fle (freshnessAt now (lastSeen e) (ttlFor cfg (lr_Tenant req))) f32_zero) &&
      (str_eqb (evictionFor cfg (lr_Tenant req)) EvictionLFU && (0 <? tokenCount e))
  end.

Lemma exactStep_eq cfg now req i acc idl :
  exactStep cfg now req i acc idl =
    (acc.1 ++ option_list (exactScore cfg now req i idl),
     if exactHit cfg now req i idl then appendHit acc.2 idl.1 idl.2 else acc.2).
Proof.
  destruct acc as [scores hits], idl as [id x].
  unfold exactStep, exactScore, exactHit. simpl.
  destruct (heap i !! x) as [e|]; simpl; [|by rewrite app_nil_r].
  by destruct (fle (freshnessAt _ _ _) f32_zero); simpl; rewrite ?app_nil_r.
Qed.

Lemma exactFold cfg now req i l acc :
  foldl (exactStep cfg now req i) acc l =
    (acc.1 ++ omap (exactScore cfg now req i) l,
     foldl (λ hits idl, if exactHit cfg now req i idl then appendHit hits idl.1 idl.2 else hits)
       acc.2 l).
Proof.
  revert acc. induction l as [|idl l IH]; intros acc; [by destruct acc; rewrite app_nil_r|].
  cbn [foldl]. rewrite IH, exactStep_eq. simpl. rewrite <-(assoc_L (++)).
  by destruct (exactScore cfg now req i idl).
Qed.

Lemma appendHits_lookup (p : string * loc → bool) l hits id :
  NoDup l.*1 →
  foldl (λ hits idl, if p idl then appendHit hits idl.1 idl.2 else hits) hits l !! id =
    match list_find (λ idl, idl.1 = id ∧ p idl = true) l with
    | Some (_, idl) => Some (default [] (hits !! id) ++ [idl.2])
    | None => hits !! id
    end.
Proof.
  revert hits. induction l as [|[id' x] l IH]; intros hits Hnd; [done|].
  apply NoDup_cons in Hnd as [Hni Hnd]. simpl in Hni. cbn [foldl]. rewrite IH by done. cbn [list_find].
  destruct (decide (id' = id)) as [->|Hne].
  - assert (list_find (λ idl, idl.1 = id ∧ p idl = true) l = None) as ->.
    { apply list_find_None, Forall_forall. intros idl Hin [Hid _].
      apply Hni. rewrite <-Hid. by apply (list_elem_of_fmap_2 fst). }
    destruct (p (id, x)) eqn:Hp; simpl.
    + rewrite decide_True by done. unfold appendHit. by rewrite lookup_insert_eq.
    + rewrite decide_False by naive_solver. done.
  - rewrite decide_False by naive_solver.
    assert ((if p (id', x) then appendHit hits id' x else hits) !! id = hits !! id) as Heq.
    { destruct (p (id', x)); [|done]. unfold appendHit. by rewrite lookup_insert_ne. }
    simpl. rewrite Heq. by destruct (list_find _ l) as [[n idl]|].
Qed.

Lemma lookupExact_hits cfg now req i id :
  (lookupExact cfg now req i).2 !! id =
    l ← locAt i (reqKey req (lr_PrefixHash req)) id;
    if exactHit cfg now req i (id, l) then Some [l] else None.
Proof.
  unfold lookupExact. rewrite exactFold. simpl.
  rewrite appendHits_lookup by apply NoDup_fst_map_to_list. rewrite lookup_empty. simpl.
  rewrite locAt_replicasAt. set (m := replicasAt _ _).
  destruct (list_find _ _) as [[n [id' l]]|] eqn:Hf.
  - apply list_find_Some in Hf as (Hn & [Hid Hp] & _). simpl in Hid. subst id'.
    apply list_elem_of_lookup_2, elem_of_map_to_list in Hn. rewrite Hn. simpl. by rewrite Hp.
  - apply list_find_None in Hf. rewrite Forall_forall in Hf.
    destruct (m !! id) as [l|] eqn:Hl; [|done]. simpl.
    destruct (exactHit _ _ _ _ _) eqn:Hp; [|done].
    destruct (Hf (id, l)); [by apply elem_of_map_to_list|done].
Qed.

(** The unscaled slice. *)
Definition exactScores (cfg : IndexConfig) (now : Time) (req : LookupRequest) (i : Index) :
    list ReplicaScore :=
  omap (exactScore cfg now req i) (map_to_list (replicasAt i (reqKey req (lr_PrefixHash req)))).

Lemma elem_of_exactScores cfg now req i s :
  s ∈ exactScores cfg now req i ↔
  ∃ l, locAt i (reqKey req (lr_PrefixHash req)) (s_ReplicaID s) = Some l ∧
       exactScore cfg now req i (s_ReplicaID s, l) = Some s.
Proof.
  unfold exactScores. rewrite list_elem_of_omap.
  assert (∀ id l, exactScore cfg now req i (id, l) = Some s → s_ReplicaID s = id) as Hid.
  { intros id l. unfold exactScore. simpl. destruct (heap i !! l); simpl; [|done].
    case_match; [done|]. by intros [= <-]. }
  split.
  - intros ([id l] & Hin & Hs). apply elem_of_map_to_list in Hin.
    rewrite (Hid id l Hs). exists l. by rewrite locAt_replicasAt.
  - intros (l & Hl & Hs). rewrite locAt_replicasAt in Hl. exists (s_ReplicaID s, l).
    by rewrite elem_of_map_to_list.
Qed.

Lemma lookupExact_scores cfg now req i :
  let dp := distinguishingPower (Z.of_nat (length (exactScores cfg now req i)))
    (totalReplicas i (lr_Tenant req) (lr_Model req) (lr_HashScheme req)) in
  (lookupExact cfg now req i).1 = go_sort scoreLess (scaleBy dp <$> exactScores cfg now req i).
Proof. unfold lookupExact. by rewrite exactFold. Qed.

(** The replicas of the response: exactly the fresh holders, each once. *)
Lemma NoDup_exactScores cfg now req i : NoDup (s_ReplicaID <$> exactScores cfg now req i).
Proof.
  apply (NoDup_fmap_omap _ _ fst); [|apply NoDup_fst_map_to_list].
  intros [id l] s. unfold exactScore. simpl. destruct (heap i !! l); simpl; [|done].
  case_match; [done|]. by intros [= <-].
Qed.

Lemma ids_scaleBy (f : ReplicaScore → f64) (l : list ReplicaScore) :
  s_ReplicaID <$> ((λ s, scaleBy (f s) s) <$> l) = s_ReplicaID <$> l.
Proof.
  rewrite <-list_fmap_compose. apply list_fmap_ext. intros k s _. simpl.
  apply (scaleBy_fields (f s) s).
Qed.

Lemma lookupExact_NoDup cfg now req i : NoDup (s_ReplicaID <$> (lookupExact cfg now req i).1).
Proof.
  rewrite lookupExact_scores, go_sort_Permutation, (ids_scaleBy (λ _, _)). apply NoDup_exactScores.
Qed.

(** ** Chain match: the longest leading run *)

Section chain.
Context (now : Time) (ttl : Duration) (lfu : bool) (req : LookupRequest) (i : Index).

(** Replica [r] holds block [h], and the hold is fresh. *)
Definition freshHold (r h : string) : option (loc * replicaEntry) :=
  l ← locAt i (reqKey req h) r;
  e ← heap i !! l;
  if fle (freshnessAt now (lastSeen e) ttl) f32_zero then None else Some (l, e).

(** The blocks a replica holds, from the first on, up to the first gap. *)
Fixpoint leadingRun (r : string) (hashes : list string) : list (loc * replicaEntry) :=
  match hashes with
  | [] => []
  | h :: hashes' =>
      match freshHold r h with
      | Some le => le :: leadingRun r hashes'
      | None => []
      end
  end.

Definition oldestOf (run : list (loc * replicaEntry)) : Time :=
  match run with
  | [] => time_zero
  | le :: run' => foldl (λ t le, Z.min t (lastSeen le.2)) (lastSeen le.2) run'
  end.

Definition worstOf (run : list (loc * replicaEntry)) : CacheTier :=
  match run with
  | [] => TierUnspecified
  | le :: run' => foldl (λ t le, worstTier t (tier le.2)) (tier le.2) run'
  end.

(** What the walk records for a run over blocks with token counts [cs]. *)
Definition summary (cs : list Z) (run : list (loc * replicaEntry)) : running :=
  mkRunning (sum_int32 (take (length run) cs)) (oldestOf run) (worstOf run)
    (if lfu then run.*1 else []).

(** A replica's walk over the remaining blocks. *)
Fixpoint extendRun (r : string) (st : running) (blocks : list (string * Z)) : running :=
  match blocks with
  | [] => st
  | (h, c) :: blocks' =>
      match chainExtend now ttl lfu c i (replicasAt i (reqKey req h)) r st with
      | None => st
      | Some nr => extendRun r nr blocks'
      end
  end.

Lemma chainNext_lookup c holders cur fin r :
  let '(next, fin') := chainNext now ttl lfu c i holders cur fin in
  next !! r = (st ← cur !! r; chainExtend now ttl lfu c i holders r st) ∧
  fin' !! r =
    match cur !! r with
    | Some st => match chainExtend now ttl lfu c i holders r st with
                 | None => Some st | Some _ => fin !! r end
    | None => fin !! r
    end.
Proof.
  unfold chainNext. set (step := λ '(next, fin) '(id, st), _).
  assert (∀ l acc, NoDup l.*1 →
    let '(next, fin') := foldl step acc l in
    (∀ st, (r, st) ∈ l → next !! r = match chainExtend now ttl lfu c i holders r st with
       | Some nr => Some nr | None => acc.1 !! r end ∧
       fin' !! r = match chainExtend now ttl lfu c i holders r st with
                   | None => Some st | Some _ => acc.2 !! r end) ∧
    (r ∉ l.*1 → next !! r = acc.1 !! r ∧ fin' !! r = acc.2 !! r)) as Hfold.
  { induction l as [|[id st] l IH]; intros acc Hnd; simpl.
    { destruct acc. split; [by intros ? ?%not_elem_of_nil|done]. }
    apply NoDup_cons in Hnd as [Hni Hnd]. simpl in Hni.
    specialize (IH (step acc (id, st)) Hnd). destruct (foldl step _ l) as [next fin'].
    destruct IH as [IH1 IH2]. destruct acc as [n0 f0]. simpl in *. split.
    - intros st' [[= <- <-]|Hin]%elem_of_cons.
      + destruct (IH2 Hni) as [-> ->].
        destruct (chainExtend _ _ _ _ _ _ _ _); simpl; by rewrite ?lookup_insert_eq.
      + destruct (IH1 st' Hin) as [-> ->].
        assert (id ≠ r) by (intros ->; apply Hni; by apply (list_elem_of_fmap_2 fst) in Hin).
        destruct (chainExtend now ttl lfu c i holders r st'),
          (chainExtend now ttl lfu c i holders id st); simpl; by rewrite ?lookup_insert_ne.
    - intros [Hne Hnr]%not_elem_of_cons. destruct (IH2 Hnr) as [-> ->].
      destruct (chainExtend _ _ _ _ _ _ _ _); simpl; by rewrite ?lookup_insert_ne. }
  specialize (Hfold (map_to_list cur) (∅, fin) (NoDup_fst_map_to_list cur)).
  destruct (foldl step _ _) as [next fin']. destruct Hfold as [H1 H2]. simpl in *.
  destruct (cur !! r) as [st|] eqn:Hr; simpl.
  - destruct (H1 st) as [-> ->]; [by apply elem_of_map_to_list|]. rewrite lookup_empty.
    by destruct (chainExtend _ _ _ _ _ _ _ _).
  - rewrite lookup_empty in H2. apply H2. intros ([r' st] & -> & Hin)%list_elem_of_fmap.
    apply elem_of_map_to_list in Hin. simpl in Hr. congruence.
Qed.

Lemma chainWalk_lookup blocks cur fin r :
  let '(cur', fin') := chainWalk now ttl lfu req i blocks false cur fin in
  (cur' ∪ fin') !! r =
    match cur !! r with Some st => Some (extendRun r st blocks) | None => fin !! r end.
Proof.
  revert cur fin. induction blocks as [|[h c] blocks IH]; intros cur fin; simpl.
  { rewrite lookup_union. by destruct (cur !! r), (fin !! r). }
  pose proof (chainNext_lookup c (replicasAt i (reqKey req h)) cur fin r) as Hn.
  destruct (chainNext now ttl lfu c i (replicasAt i (reqKey req h)) cur fin) as [next fin'].
  destruct Hn as [Hnext Hfin]. case_bool_decide as Hempty.
  - subst next. rewrite (left_id_L ∅ (∪)), Hfin. rewrite lookup_empty in Hnext.
    destruct (cur !! r) as [st|]; simpl in *; [|done]. by rewrite <-Hnext.
  - specialize (IH next fin').
    destruct (chainWalk now ttl lfu req i blocks false next fin') as [cur'' fin''].
    rewrite IH, Hnext, Hfin. destruct (cur !! r) as [st|]; simpl; [|done].
    by destruct (chainExtend _ _ _ _ _ _ _ _).
Qed.

Lemma chainStart_lookup c holders r :
  chainStart now ttl lfu c i holders !! r =
    l ← holders !! r; e ← heap i !! l;
    if fle (freshnessAt now (lastSeen e) ttl) f32_zero then None
    else Some (mkRunning c (lastSeen e) (tier e) (if lfu then [l] else [])).
Proof. unfold chainStart. by rewrite lookup_omap. Qed.

(** Extending a recorded run by one block. *)
Lemma chainExtend_summary c cs1 cs2 h r run :
  run ≠ [] → length run = length cs1 →
  chainExtend now ttl lfu c i (replicasAt i (reqKey req h)) r (summary (cs1 ++ c :: cs2) run) =
    le ← freshHold r h; Some (summary (cs1 ++ c :: cs2) (run ++ [le])).
Proof.
  intros Hne Hlen. unfold chainExtend, freshHold. rewrite locAt_replicasAt.
  destruct (replicasAt i (reqKey req h) !! r) as [l|]; simpl; [|done].
  destruct (heap i !! l) as [e|]; simpl; [|done]. case_match; [done|]. simpl. f_equal.
  unfold summary. rewrite length_app, fmap_app, Hlen. simpl. f_equal.
  - rewrite take_app_length, take_app_add. simpl. unfold sum_int32. by rewrite foldl_app.
  - destruct run as [|le run]; [done|]. simpl. rewrite foldl_app. simpl. unfold time_before.
    case_match eqn:E; rewrite ?Z.ltb_lt, ?Z.ltb_ge in E; lia.
  - destruct run as [|le run]; [done|]. simpl. by rewrite foldl_app.
  - by destruct lfu.
Qed.

Lemma extendRun_summary r blocks cs1 run :
  run ≠ [] → length run = length cs1 →
  extendRun r (summary (cs1 ++ blocks.*2) run) blocks =
    summary (cs1 ++ blocks.*2) (run ++ leadingRun r blocks.*1).
Proof.
  revert cs1 run. induction blocks as [|[h c] blocks IH]; intros cs1 run Hne Hlen; simpl.
  { by rewrite !app_nil_r. }
  rewrite chainExtend_summary by done.
  destruct (freshHold r h) as [le|]; simpl; [|by rewrite app_nil_r].
  rewrite cons_middle, (assoc_L (++) cs1), IH.
  - by rewrite <-(assoc_L (++) run).
  - by destruct run.
  - rewrite !length_app. simpl. lia.
Qed.

(** The runs the walk records: for each replica, the summary of its leading run. *)
Lemma chainRuns_lookup r :
  length (lr_BlockHashes req) = length (lr_BlockTokenCounts req) →
  Forall is_int32 (lr_BlockTokenCounts req) →
  chainRuns now ttl lfu req i !! r =
    match leadingRun r (lr_BlockHashes req) with
    | [] => None
    | run => Some (summary (lr_BlockTokenCounts req) run)
    end.
Proof.
  unfold chainRuns. intros Hlen Hint.
  destruct (lr_BlockHashes req) as [|h hs], (lr_BlockTokenCounts req) as [|c cs]; simplify_eq/=.
  { by rewrite (left_id_L ∅ (∪)). }
  inversion_clear Hint as [|?? Hc _].
  pose proof (chainStart_lookup c (replicasAt i (reqKey req h)) r) as Hs.
  assert (chainStart now ttl lfu c i (replicasAt i (reqKey req h)) !! r =
    le ← freshHold r h; Some (summary (c :: cs) [le])) as Hs'.
  { rewrite Hs. unfold freshHold. rewrite locAt_replicasAt.
    destruct (replicasAt i (reqKey req h) !! r) as [l|]; simpl; [|done]. destruct (heap i !! l) as [e|]; simpl; [|done].
    destruct (fle (freshnessAt now (lastSeen e) ttl) f32_zero); [done|]. simpl. unfold summary. simpl. f_equal. f_equal.
    unfold sum_int32. simpl. by rewrite wrap32_id. }
  clear Hs. case_bool_decide as He.
  - rewrite (right_id_L ∅ (∪)), Hs'. rewrite He, lookup_empty in Hs'.
    by destruct (freshHold r h).
  - pose proof (chainWalk_lookup (zip hs cs)
      (chainStart now ttl lfu c i (replicasAt i (reqKey req h))) ∅ r) as Hw.
    destruct (chainWalk _ _ _ _ _ _ _ _ _) as [cur fin]. rewrite Hw, Hs'.
    destruct (freshHold r h) as [le|]; simpl; [|done]. f_equal.
    pose proof (extendRun_summary r (zip hs cs) [c] [le]) as Hx.
    rewrite fst_zip, snd_zip in Hx by lia. by apply Hx.
Qed.

(** The oldest hold of a run is fresh, because every hold of it is. *)
Lemma oldestOf_in run : run ≠ [] → ∃ le, le ∈ run ∧ oldestOf run = lastSeen le.2.
Proof.
  destruct run as [|le run]; [done|]. intros _. simpl.
  assert (∀ t, foldl (λ t le, Z.min t (lastSeen le.2)) t run = t ∨
    ∃ le, le ∈ run ∧ foldl (λ t le, Z.min t (lastSeen le.2)) t run = lastSeen le.2) as Haux.
  { induction run as [|le' run IH]; intros t; simpl; [by left|].
    destruct (IH (Z.min t (lastSeen le'.2))) as [->|(x & Hx & ->)].
    - destruct (Z.min_spec t (lastSeen le'.2)) as [[_ ->]|[_ ->]]; [by left|].
      right. exists le'. split; [left|done].
    - right. exists x. split; [by right|done]. }
  destruct (Haux (lastSeen le.2)) as [->|(x & Hx & ->)].
  - exists le. split; [left|done].
  - exists x. split; [by right|done].
Qed.

Lemma leadingRun_fresh r hs le :
  le ∈ leadingRun r hs →
  fle (freshnessAt now (lastSeen le.2) ttl) f32_zero = false ∧
  ∃ h, h ∈ hs ∧ locAt i (reqKey req h) r = Some le.1 ∧ heap i !! le.1 = Some le.2.
Proof.
  induction hs as [|h hs IH]; simpl; [by intros ?%not_elem_of_nil|].
  destruct (freshHold r h) as [le0|] eqn:Hh; [|by intros ?%not_elem_of_nil].
  intros [->|Hin]%elem_of_cons.
  - unfold freshHold in Hh. apply bind_Some in Hh as (l & Hl & Hh).
    apply bind_Some in Hh as (e & He & Hh). case_match eqn:E; simplify_eq. simpl.
    split; [done|]. exists h. split_and!; [left|done..].
  - destruct (IH Hin) as (? & h' & ? & ?). split; [done|]. exists h'. split; [by right|done].
Qed.

Lemma oldestOf_fresh r hs :
  leadingRun r hs ≠ [] →
  fle (freshnessAt now (oldestOf (leadingRun r hs)) ttl) f32_zero = false.
Proof.
  intros Hne. destruct (oldestOf_in _ Hne) as (le & Hin & ->).
  by apply leadingRun_fresh in Hin as [? _].
Qed.
End chain.

(** ** The scores of a chain lookup *)

Definition chainScore (cfg : IndexConfig) (now : Time) (req : LookupRequest) (i : Index)
    (idst : string * running) : option ReplicaScore :=
  let ttl := ttlFor cfg (lr_Tenant req) in
  let st := idst.2 in
  let fresh := freshnessAt now (r_oldestLastSeen st) ttl in
  if (r_matchedTokens st <=? 0) || fle fresh f32_zero then None
  else Some (mkReplicaScore idst.1
    (matchScore (cfg_ranker cfg) (sloTightBiasCoefficient (cfg_ranker cfg) (lr_TTFTBudgetMs req))
       (pressureOf now ttl (lr_Tenant req) (lr_Model req) idst.1 i) fresh (r_matchedTokens st))
    (r_matchedTokens st) fresh (r_runTier st)).

Definition chainHit (cfg : IndexConfig) (now : Time) (req : LookupRequest)
    (idst : string * running) : bool :=
  let st := idst.2 in
  negb ((r_matchedTokens st <=? 0) ||
        fle (freshnessAt now (r_oldestLastSeen st) (ttlFor cfg (lr_Tenant req))) f32_zero) &&
  (str_eqb (evictionFor cfg (lr_Tenant req)) EvictionLFU && (0 <? length (r_entries st))%nat).

Lemma chainStep_eq cfg now req i acc idst :
  chainStep cfg now req i acc idst =
    (acc.1 ++ option_list (chainScore cfg now req i idst),
     if chainHit cfg now req idst then <[idst.1 := r_entries idst.2]> acc.2 else acc.2).
Proof.
  destruct acc as [scores hits], idst as [id st].
  unfold chainStep, chainScore, chainHit. cbn [fst snd].
  destruct (r_matchedTokens st <=? 0); simpl; [by rewrite app_nil_r|].
  by destruct (fle (freshnessAt now _ _) f32_zero); simpl; rewrite ?app_nil_r.
Qed.

Lemma chainFold cfg now req i l acc :
  foldl (chainStep cfg now req i) acc l =
    (acc.1 ++ omap (chainScore cfg now req i) l,
     foldl (λ hits idst, if chainHit cfg now req idst then <[idst.1 := r_entries idst.2]> hits else hits)
       acc.2 l).
Proof.
  revert acc. induction l as [|idst l IH]; intros acc; [by destruct acc; rewrite app_nil_r|].
  cbn [foldl]. rewrite IH, chainStep_eq. simpl. rewrite <-(assoc_L (++)).
  by destruct (chainScore cfg now req i idst).
Qed.

Definition chainScores (cfg : IndexConfig) (now : Time) (req : LookupRequest) (i : Index) :
    list ReplicaScore :=
  omap (chainScore cfg now req i)
    (map_to_list (chainRuns now (ttlFor cfg (lr_Tenant req))
       (str_eqb (evictionFor cfg (lr_Tenant req)) EvictionLFU) req i)).

Lemma lookupChain_scores cfg now req i :
  (lookupChain cfg now req i).1 =
    go_sort scoreLess (applyChainDistinguishingPower (chainScores cfg now req i)
      (totalReplicas i (lr_Tenant req) (lr_Model req) (lr_HashScheme req))).
Proof. unfold lookupChain. by rewrite chainFold. Qed.

Lemma chainScore_id cfg now req i id st s :
  chainScore cfg now req i (id, st) = Some s → s_ReplicaID s = id.
Proof. unfold chainScore. simpl. case_match; [done|]. by intros [= <-]. Qed.

Lemma NoDup_chainScores cfg now req i : NoDup (s_ReplicaID <$> chainScores cfg now req i).
Proof.
  apply (NoDup_fmap_omap _ _ fst); [|apply NoDup_fst_map_to_list].
  intros [id st] s Hs. simpl. by eapply chainScore_id.
Qed.

Lemma lookupChain_NoDup cfg now req i : NoDup (s_ReplicaID <$> (lookupChain cfg now req i).1).
Proof.
  rewrite lookupChain_scores, go_sort_Permutation, applyChain_reference.
  unfold depthScaled. rewrite (ids_scaleBy (λ s, distinguishingPower _ _)).
  apply NoDup_chainScores.
Qed.

Lemma elem_of_chainScores cfg now req i s :
  s ∈ chainScores cfg now req i ↔
  ∃ st, chainRuns now (ttlFor cfg (lr_Tenant req))
          (str_eqb (evictionFor cfg (lr_Tenant req)) EvictionLFU) req i !! s_ReplicaID s = Some st ∧
        chainScore cfg now req i (s_ReplicaID s, st) = Some s.
Proof.
  unfold chainScores. rewrite list_elem_of_omap. split.
  - intros ([id st] & Hin & Hs). apply elem_of_map_to_list in Hin.
    rewrite (chainScore_id _ _ _ _ _ _ _ Hs). eauto.
  - intros (st & Hst & Hs). exists (s_ReplicaID s, st). by rewrite elem_of_map_to_list.
Qed.

(** The run a replica contributes to a request under a configuration. *)
Definition runOf (cfg : IndexConfig) (now : Time) (req : LookupRequest) (i : Index) (r : string) :
    list (loc * replicaEntry) :=
  leadingRun now (ttlFor cfg (lr_Tenant req)) req i r (lr_BlockHashes req).

Definition matchedOf (cfg : IndexConfig) (now : Time) (req : LookupRequest) (i : Index) (r : string) :
    Z := sum_int32 (take (length (runOf cfg now req i r)) (lr_BlockTokenCounts req)).

Lemma lookupChain_elem cfg now req i r mt tr p :
  length (lr_BlockHashes req) = length (lr_BlockTokenCounts req) →
  Forall is_int32 (lr_BlockTokenCounts req) →
  (∃ s, s ∈ (lookupChain cfg now req i).1 ∧ s_ReplicaID s = r ∧ s_MatchedTokens s = mt ∧
        s_Tier s = tr ∧ s_EstimatedCacheHitProb s = p) ↔
  0 < mt ∧ mt = matchedOf cfg now req i r ∧ tr = worstOf (runOf cfg now req i r) ∧
  p = freshnessAt now (oldestOf (runOf cfg now req i r)) (ttlFor cfg (lr_Tenant req)).
Proof.
  intros Hlen Hint. rewrite lookupChain_scores.
  set (l := chainScores cfg now req i). set (total := totalReplicas _ _ _ _).
  set (ttl := ttlFor cfg (lr_Tenant req)).
  set (lfu := str_eqb (evictionFor cfg (lr_Tenant req)) EvictionLFU).
  pose proof (chainRuns_lookup now ttl lfu req i r Hlen Hint) as Hrun.
  change (leadingRun now ttl req i r (lr_BlockHashes req)) with (runOf cfg now req i r) in Hrun.
  transitivity (∃ s, s ∈ l ∧ s_ReplicaID s = r ∧ s_MatchedTokens s = mt ∧
        s_Tier s = tr ∧ s_EstimatedCacheHitProb s = p).
  { setoid_rewrite elem_of_go_sort. setoid_rewrite applyChain_reference.
    setoid_rewrite list_elem_of_fmap. split.
    - intros (s & (s0 & -> & Hs0) & Hf). exists s0. split; [done|].
      destruct (depthScaled_fields total l s0) as (?&?&?&?), Hf as (?&?&?&?).
      split_and!; congruence.
    - intros (s & Hs & Hf). exists (depthScaled total l s). split; [eauto|].
      destruct (depthScaled_fields total l s) as (?&?&?&?), Hf as (?&?&?&?).
      split_and!; congruence. }
  unfold l. setoid_rewrite elem_of_chainScores. fold ttl lfu. split.
  - intros (s & (st & Hst & Hs) & <- & <- & <- & <-). rewrite Hrun in Hst.
    destruct (runOf cfg now req i (s_ReplicaID s)) as [|le run] eqn:Er; [done|]. simplify_eq.
    unfold chainScore in Hs. fold ttl in Hs. cbn [fst snd] in Hs.
    destruct (r_matchedTokens _ <=? 0) eqn:Em; [done|]. simpl in Hs.
    apply Z.leb_gt in Em. unfold matchedOf. rewrite Er.
    destruct (fle (freshnessAt _ _ _) f32_zero); [done|]. injection Hs as <-. done.
  - intros (Hpos & Hmt & Htr & Hp).
    destruct (runOf cfg now req i r) as [|le run] eqn:Er.
    { unfold matchedOf in Hmt. rewrite Er in Hmt. simpl in Hmt. unfold sum_int32 in Hmt.
      simpl in Hmt. lia. }
    pose proof (oldestOf_fresh now ttl req i r (lr_BlockHashes req)) as Hfr.
    change (leadingRun now ttl req i r (lr_BlockHashes req)) with (runOf cfg now req i r) in Hfr.
    rewrite Er in Hfr. specialize (Hfr ltac:(done)).
    set (st := summary lfu (lr_BlockTokenCounts req) (le :: run)) in *.
    assert (r_matchedTokens st = mt) as Hst by (rewrite Hmt; unfold matchedOf; by rewrite Er).
    exists (mkReplicaScore r (matchScore (cfg_ranker cfg)
      (sloTightBiasCoefficient (cfg_ranker cfg) (lr_TTFTBudgetMs req))
      (pressureOf now ttl (lr_Tenant req) (lr_Model req) r i) p mt) mt p tr).
    split; [|done]. exists st. split; [done|]. unfold chainScore. fold ttl. cbn [fst snd].
    change (r_oldestLastSeen st) with (oldestOf (le :: run)).
    change (r_runTier st) with (worstOf (le :: run)). cbn [s_ReplicaID].
    rewrite Hst, (proj2 (Z.leb_gt mt 0)) by lia. cbn [orb]. by rewrite Hfr, Hp, Htr.
Qed.

Lemma insertHits_lookup (p : string * running → bool) l (hits : gmap string (list loc)) id :
  NoDup l.*1 →
  foldl (λ hits idst, if p idst then <[idst.1 := r_entries idst.2]> hits else hits) hits l !! id =
    match list_find (λ idst, idst.1 = id ∧ p idst = true) l with
    | Some (_, idst) => Some (r_entries idst.2)
    | None => hits !! id
    end.
Proof.
  revert hits. induction l as [|[id' x] l IH]; intros hits Hnd; [done|].
  apply NoDup_cons in Hnd as [Hni Hnd]. simpl in Hni. cbn [foldl]. rewrite IH by done.
  cbn [list_find]. destruct (decide (id' = id)) as [->|Hne].
  - assert (list_find (λ idst, idst.1 = id ∧ p idst = true) l = None) as ->.
    { apply list_find_None, Forall_forall. intros idst Hin [Hid _].
      apply Hni. rewrite <-Hid. by apply (list_elem_of_fmap_2 fst). }
    destruct (p (id, x)) eqn:Hp; simpl.
    + rewrite decide_True by done. by rewrite lookup_insert_eq.
    + rewrite decide_False by naive_solver. done.
  - rewrite decide_False by naive_solver.
    assert ((if p (id', x) then <[id' := r_entries x]> hits else hits) !! id = hits !! id) as Heq.
    { destruct (p (id', x)); [|done]. by rewrite lookup_insert_ne. }
    simpl. rewrite Heq. by destruct (list_find _ l) as [[n idl]|].
Qed.

Lemma lookupChain_hits cfg now req i id :
  (lookupChain cfg now req i).2 !! id =
    st ← chainRuns now (ttlFor cfg (lr_Tenant req))
           (str_eqb (evictionFor cfg (lr_Tenant req)) EvictionLFU) req i !! id;
    if chainHit cfg now req (id, st) then Some (r_entries st) else None.
Proof.
  unfold lookupChain. rewrite chainFold. simpl.
  rewrite insertHits_lookup by apply NoDup_fst_map_to_list. rewrite lookup_empty.
  set (m := chainRuns _ _ _ _ _).
  destruct (list_find _ _) as [[n [id' st]]|] eqn:Hf.
  - apply list_find_Some in Hf as (Hn & [Hid Hp] & _). simpl in Hid. subst id'.
    apply list_elem_of_lookup_2, elem_of_map_to_list in Hn. rewrite Hn. simpl. by rewrite Hp.
  - apply list_find_None in Hf. rewrite Forall_forall in Hf.
    destruct (m !! id) as [st|] eqn:Hl; [|done]. simpl.
    destruct (chainHit _ _ _ _) eqn:Hp; [|done].
    destruct (Hf (id, st)); [by apply elem_of_map_to_list|done].
Qed.

(** ** Hits: only replicas of the response, only live entries, only under LFU *)

Definition isLFU (cfg : IndexConfig) (tenant : string) : Prop :=
  evictionFor cfg tenant = EvictionLFU.

Lemma exact_ids cfg now req i :
  s_ReplicaID <$> (lookupExact cfg now req i).1 ≡ₚ s_ReplicaID <$> exactScores cfg now req i.
Proof. by rewrite lookupExact_scores, go_sort_Permutation, (ids_scaleBy (λ _, _)). Qed.

Lemma chain_ids cfg now req i :
  s_ReplicaID <$> (lookupChain cfg now req i).1 ≡ₚ s_ReplicaID <$> chainScores cfg now req i.
Proof.
  rewrite lookupChain_scores, go_sort_Permutation, applyChain_reference. unfold depthScaled.
  by rewrite (ids_scaleBy (λ s, distinguishingPower _ _)).
Qed.

(** What a hit list may contain. *)
Definition hitOK (cfg : IndexConfig) (req : LookupRequest) (i : Index) (scores : list ReplicaScore)
    (id : string) (ls : list loc) : Prop :=
  isLFU cfg (lr_Tenant req) ∧ id ∈ s_ReplicaID <$> scores ∧
  ∀ l, l ∈ ls → ∃ h, locAt i (reqKey req h) id = Some l.

Lemma lookupExact_hitOK cfg now req i id ls :
  (lookupExact cfg now req i).2 !! id = Some ls →
  hitOK cfg req i (lookupExact cfg now req i).1 id ls.
Proof.
  rewrite lookupExact_hits. intros (l & Hl & Hh)%bind_Some.
  destruct (exactHit _ _ _ _ _) eqn:Eh; simplify_eq. unfold exactHit in Eh. simpl in Eh.
  destruct (heap i !! l) as [e|] eqn:He; [|done].
  apply andb_true_iff in Eh as [Hf [Hlfu Htc]%andb_true_iff]. split_and!.
  - by apply str_eqb_eq.
  - rewrite exact_ids. apply list_elem_of_fmap.
    eexists (mkReplicaScore id _ _ _ _). split; [done|]. apply elem_of_exactScores.
    exists l. split; [done|]. unfold exactScore. simpl. rewrite He. simpl.
    destruct (fle (freshnessAt _ _ _) f32_zero); done.
  - intros l' ->%list_elem_of_singleton. eauto.
Qed.

Lemma lookupChain_hitOK cfg now req i id ls :
  length (lr_BlockHashes req) = length (lr_BlockTokenCounts req) →
  Forall is_int32 (lr_BlockTokenCounts req) →
  (lookupChain cfg now req i).2 !! id = Some ls →
  hitOK cfg req i (lookupChain cfg now req i).1 id ls.
Proof.
  intros Hlen Hint. rewrite lookupChain_hits. intros (st & Hst & Hh)%bind_Some.
  destruct (chainHit _ _ _ _) eqn:Eh; simplify_eq. unfold chainHit in Eh. simpl in Eh.
  apply andb_true_iff in Eh as [Hf [Hlfu Htc]%andb_true_iff]. split_and!.
  - by apply str_eqb_eq.
  - rewrite chain_ids. apply list_elem_of_fmap.
    eexists (mkReplicaScore id _ _ _ _). split; [done|]. apply elem_of_chainScores.
    exists st. split; [done|]. unfold chainScore. cbn [fst snd s_ReplicaID].
    by destruct (_ || _).
  - intros l Hl. rewrite chainRuns_lookup in Hst by done.
    destruct (leadingRun _ _ _ _ _ _) as [|le run] eqn:Er; [done|]. simplify_eq.
    cbn [summary r_entries] in Hl. rewrite Hlfu in Hl.
    apply list_elem_of_fmap in Hl as (le' & -> & Hin). rewrite <-Er in Hin.
    apply leadingRun_fresh in Hin as (_ & h & _ & Hl & _). eauto.
Qed.

Lemma lookupWithHits_hitOK cfg now req i id ls :
  Forall is_int32 (lr_BlockTokenCounts req) →
  (lookupWithHits cfg now req i).2 !! id = Some ls →
  hitOK cfg req i (lookupWithHits cfg now req i).1 id ls.
Proof.
  intros Hint. unfold lookupWithHits, chainMalformed. case_match; [done|].
  case_match; [|apply lookupExact_hitOK].
  destruct (Nat.eqb_spec (length (lr_BlockHashes req)) (length (lr_BlockTokenCounts req)));
    simpl; [|done]. by apply lookupChain_hitOK.
Qed.

(** ** Presence checks *)

Definition holdsTenant (i : Index) (t : string) : Prop :=
  ∃ k m, prefixes i !! k = Some m ∧ pk_tenant k = t.
Definition holdsModel (i : Index) (t m : string) : Prop :=
  ∃ k x, prefixes i !! k = Some x ∧ modelOf k = ModelKey t m.
Definition holdsScheme (i : Index) (t m s : string) : Prop :=
  ∃ k x, prefixes i !! k = Some x ∧ scopeOf k = ScopeKey t m s.

(** Replica [r] holds some prefix of the scope. *)
Definition serves (i : Index) (sc : scopeKey) (r : string) : Prop :=
  ∃ k, scopeOf k = sc ∧ is_Some (locAt i k r).

Lemma servingAt_serves rt i sc r :
  index_wf rt i → is_Some (servingAt i sc !! r) ↔ serves i sc r.
Proof.
  intros Hwf. rewrite (wf_scope _ (wf_serving _ _ Hwf)), countOpt_is_Some.
  unfold p_scope. rewrite zcount_pos. split.
  - intros (k & m & Hm & [Hs Hr]%andb_true_iff). apply bool_decide_eq_true in Hs, Hr.
    exists k. split; [done|]. unfold locAt. by rewrite Hm.
  - intros (k & Hs & Hl). unfold locAt in Hl. destruct (prefixes i !! k) as [m|] eqn:Hm.
    + exists k, m. split; [done|]. by rewrite !bool_decide_eq_true_2.
    + by destruct Hl.
Qed.

Lemma hasAnyForTenant_holds rt i t :
  index_wf rt i → hasAnyForTenantLocked t i = true ↔ holdsTenant i t.
Proof.
  intros Hwf. unfold hasAnyForTenantLocked. rewrite (wf_go_get_tenant rt) by done.
  rewrite Z.ltb_lt. unfold p_tenant. rewrite zcount_pos.
  by setoid_rewrite bool_decide_eq_true.
Qed.

Lemma hasAnyForTenantModel_holds rt i t m :
  index_wf rt i → hasAnyForTenantModelLocked t m i = true ↔ holdsModel i t m.
Proof.
  intros Hwf. unfold hasAnyForTenantModelLocked, go_get.
  rewrite (wf_model _ _ (wf_count _ _ Hwf)), countOpt_get by done.
  rewrite Z.ltb_lt. unfold p_model. rewrite zcount_pos.
  by setoid_rewrite bool_decide_eq_true.
Qed.

Lemma hasAnyForTenantModelScheme_holds rt i t m s :
  index_wf rt i → hasAnyForTenantModelSchemeLocked t m s i = true ↔ holdsScheme i t m s.
Proof.
  intros Hwf. unfold hasAnyForTenantModelSchemeLocked. rewrite Nat.ltb_lt.
  transitivity (∃ r, serves i (ScopeKey t m s) r).
  - setoid_rewrite <-(servingAt_serves rt); [|done].
    destruct (decide (servingAt i (ScopeKey t m s) = ∅)) as [->|Hne].
    + rewrite map_size_empty. split; [lia|]. intros [r Hr]. rewrite lookup_empty in Hr. by destruct Hr.
    + destruct (map_choose _ Hne) as (r & n & Hr). split; [eauto|]. intros _.
      enough (size (servingAt i (ScopeKey t m s)) ≠ 0%nat) by lia.
      by apply map_size_non_empty_iff.
  - split.
    + intros (r & k & Hk & [l Hl]). unfold locAt in Hl. destruct (prefixes i !! k) as [x|] eqn:Hx; [|done].
      exists k, x. done.
    + intros (k & x & Hx & Hk).
      destruct (map_choose x (wf_nonempty _ (wf_ptr _ _ Hwf) k x Hx)) as (r & l & Hl).
      exists r, k. split; [done|]. unfold locAt. rewrite Hx. simpl. eauto.
Qed.

(** What each diagnostic means for the data held. *)
Definition missMeaning (req : LookupRequest) (i : Index) (st : Strategy) : Prop :=
  let t := lr_Tenant req in
  let m := lr_Model req in
  let s := lr_HashScheme req in
  match st with
  | StrategyUnknownTenant => prefixes i ≠ ∅ ∧ ¬ holdsTenant i t
  | StrategyUnknownModel => holdsTenant i t ∧ ¬ holdsModel i t m
  | StrategyUnknownHashScheme => holdsModel i t m ∧ ¬ holdsScheme i t m s
  | StrategyNone => prefixes i = ∅ ∨ holdsScheme i t m s
  | StrategyPrefixMatch | StrategyTenantHot => False
  end.

Lemma holdsScheme_model i t m s : holdsScheme i t m s → holdsModel i t m.
Proof.
  intros (k & x & Hx & Hk). exists k, x. split; [done|]. unfold modelOf.
  by injection Hk as -> -> _.
Qed.

Lemma holdsModel_tenant i t m : holdsModel i t m → holdsTenant i t.
Proof. intros (k & x & Hx & Hk). exists k, x. split; [done|]. by injection Hk. Qed.

Lemma holdsTenant_nonempty i t : holdsTenant i t → prefixes i ≠ ∅.
Proof. intros (k & x & Hx & _) E. by rewrite E, lookup_empty in Hx. Qed.

Lemma classifyMiss_meaning rt req i st :
  index_wf rt i → classifyMiss req i = st ↔ missMeaning req i st.
Proof.
  intros Hwf.
  pose proof (hasAnyForTenant_holds rt i (lr_Tenant req) Hwf) as Ht.
  pose proof (hasAnyForTenantModel_holds rt i (lr_Tenant req) (lr_Model req) Hwf) as Hm.
  pose proof (hasAnyForTenantModelScheme_holds rt i (lr_Tenant req) (lr_Model req)
    (lr_HashScheme req) Hwf) as Hs.
  pose proof (holdsScheme_model i (lr_Tenant req) (lr_Model req) (lr_HashScheme req)) as Hsm.
  pose proof (holdsModel_tenant i (lr_Tenant req) (lr_Model req)) as Hmt.
  pose proof (holdsTenant_nonempty i (lr_Tenant req)) as Htn.
  unfold classifyMiss.
  destruct (Nat.eqb_spec (size (prefixes i)) 0) as [He|He].
  - apply map_size_empty_iff in He. destruct st; simpl; naive_solver.
  - apply map_size_non_empty_iff in He.
    destruct (hasAnyForTenantLocked _ _); simpl; [|destruct st; simpl; naive_solver].
    destruct (hasAnyForTenantModelLocked _ _ _); simpl; [|destruct st; simpl; naive_solver].
    destruct (hasAnyForTenantModelSchemeLocked _ _ _ _); simpl; destruct st; simpl; naive_solver.
Qed.

Lemma classifyMiss_no_scores req i :
  classifyMiss req i ≠ StrategyPrefixMatch ∧ classifyMiss req i ≠ StrategyTenantHot.
Proof. unfold classifyMiss. by repeat case_match. Qed.

(** ** Affinity *)

Lemma str_lt_order : LessOrder (λ _ : string, True) str_lt.
Proof. apply less_of_order; [apply _|]. intros x y _ _. by apply string_compare_eq_iff. Qed.

Lemma elem_of_replicasForRouting rt i t m s r :
  index_wf rt i → s ≠ "" →
  r ∈ replicasForRouting t m s i ↔ serves i (ScopeKey t m s) r.
Proof.
  intros Hwf Hs. rewrite <-(servingAt_serves rt) by done. unfold replicasForRouting.
  rewrite (proj2 (str_eqb_neq s "")) by done. unfold servingAt.
  destruct (servingByScope i !! ScopeKey t m s) as [set|]; simpl.
  - case_bool_decide as He.
    + subst. rewrite lookup_empty. split; [by intros ?%not_elem_of_nil|by intros []].
    + rewrite elem_of_go_sort, list_elem_of_fmap. split.
      * intros ([r' n] & -> & Hin). apply elem_of_map_to_list in Hin. eauto.
      * intros [n Hn]. exists (r, n). by rewrite elem_of_map_to_list.
  - rewrite lookup_empty. split; [by intros ?%not_elem_of_nil|by intros []].
Qed.

Lemma be_value_nonneg acc n s : 0 ≤ acc → 0 ≤ be_value acc n s.
Proof.
  revert acc s. induction n as [|n IH]; intros acc [|a s] Ha; simpl; try done.
  apply IH. unfold Z_of_byte. lia.
Qed.

Lemma AffinityHint_serves sha256 rt i t m s seed r :
  index_wf rt i → AffinityHint sha256 t m s seed i = Some r → serves i (ScopeKey t m s) r.
Proof.
  intros Hwf. unfold AffinityHint. case_match; [done|].
  destruct (replicasForRouting t m s i) as [|x l] eqn:E; [done|]. rewrite <-E. intros Hr.
  apply list_elem_of_lookup_2 in Hr.
  assert (s ≠ "") as Hs. { intros ->. unfold replicasForRouting in E. done. }
  by apply (elem_of_replicasForRouting rt) in Hr.
Qed.

Lemma AffinityHint_total sha256 rt i t m s seed :
  index_wf rt i → is_Some (AffinityHint sha256 t m s seed i) ↔
    seed ≠ "" ∧ s ≠ "" ∧ ∃ r, serves i (ScopeKey t m s) r.
Proof.
  intros Hwf. unfold AffinityHint. destruct (str_eqb seed "") eqn:Es.
  { apply str_eqb_eq in Es. split; [by intros []|naive_solver]. }
  apply str_eqb_neq in Es. destruct (replicasForRouting t m s i) as [|x l] eqn:E.
  - split; [by intros []|]. intros (_ & Hs & r & Hr).
    rewrite <-(elem_of_replicasForRouting rt), E in Hr by done. by apply not_elem_of_nil in Hr.
  - rewrite <-E. split.
    + intros _. split; [done|].
      assert (s ≠ "") as Hs. { intros ->. unfold replicasForRouting in E. done. }
      split; [done|]. exists x. apply (elem_of_replicasForRouting rt); [done..|]. rewrite E. left.
    + intros _. apply lookup_lt_is_Some_2.
      set (n := length (replicasForRouting t m s i)).
      assert (0 < Z.of_nat n) by (unfold n; rewrite E; simpl; lia).
      pose proof (Z.mod_pos_bound (be_value 0 8 (sha256 seed)) (Z.of_nat n)). lia.
Qed.

(** ** TENANT_HOT *)

Lemma warmReplicas_lookup cfg now req i scoped r :
  warmReplicas cfg now req i scoped !! r =
    if decide (r ∈ scoped) then
      s ← stats i !! StatsKey (lr_Tenant req) (lr_Model req) r;
      if (TenantHotMaxAge (cfg_ranker cfg) <=? time_sub now (se_statsReported s)) ||
         flt (rs_HitRate (se_stats s)) (TenantHotMinHitRate (cfg_ranker cfg)) then None
      else Some (WarmReplica (rs_HitRate (se_stats s)) (rs_Pressure (se_stats s)) (se_statsReported s))
    else None.
Proof.
  unfold warmReplicas. set (f := λ warm replicaID, _).
  set (w := s ← stats i !! StatsKey (lr_Tenant req) (lr_Model req) r; _).
  assert (∀ l acc, NoDup l →
    foldl f acc l !! r = if decide (r ∈ l) then
      match w with Some x => Some x | None => acc !! r end else acc !! r) as Hfold.
  { induction l as [|id l IH]; intros acc Hnd; simpl; [done|].
    apply NoDup_cons in Hnd as [Hni Hnd]. rewrite IH by done.
    destruct (decide (id = r)) as [->|Hne].
    - rewrite decide_False by done. rewrite decide_True by left.
      unfold f, w. destruct (stats i !! _) as [s|]; simpl; [|done].
      destruct (_ <=? _); simpl; [done|]. destruct (flt _ _); [done|]. by rewrite lookup_insert_eq.
    - assert (f acc id !! r = acc !! r) as ->.
      { unfold f. repeat case_match; rewrite ?lookup_insert_ne by done; done. }
      apply decide_ext. set_solver. }
  rewrite Hfold by apply NoDup_elements. rewrite lookup_empty.
  assert (match w with Some x => Some x | None => None end = w) as -> by by destruct w.
  apply decide_ext. by rewrite elem_of_elements.
Qed.

(** A TENANT_HOT candidate reported its stats recently and holds a prefix of the
    requested scope; it carries no matched tokens. *)
Lemma tenantHot_sound rt cfg now req i s :
  index_wf rt i → s ∈ tenantHotCandidates cfg now req i →
  s_MatchedTokens s = 0 ∧
  serves i (ScopeKey (lr_Tenant req) (lr_Model req) (lr_HashScheme req)) (s_ReplicaID s) ∧
  ∃ st, stats i !! StatsKey (lr_Tenant req) (lr_Model req) (s_ReplicaID s) = Some st ∧
    time_sub now (se_statsReported st) < TenantHotMaxAge (cfg_ranker cfg) ∧
    flt (rs_HitRate (se_stats st)) (TenantHotMinHitRate (cfg_ranker cfg)) = false.
Proof.
  intros Hwf. unfold tenantHotCandidates. case_match; [by intros ?%not_elem_of_nil|].
  case_match; [by intros ?%not_elem_of_nil|].
  set (scoped := default ∅ _). case_bool_decide; [by intros ?%not_elem_of_nil|].
  case_bool_decide; [by intros ?%not_elem_of_nil|]. case_bool_decide; [by intros ?%not_elem_of_nil|].
  rewrite elem_of_go_sort. intros ([id w] & Hin & Hs)%list_elem_of_omap.
  apply elem_of_map_to_list in Hin.
  destruct (go_get _ id =? 0) eqn:Hg; simplify_eq. simpl. split; [done|].
  rewrite warmReplicas_lookup in Hin. case_decide; [|done].
  apply bind_Some in Hin as (st & Hst & Hw). case_match eqn:Hc; [done|].
  apply orb_false_iff in Hc as [Hage Hrate]. split.
  - apply (servingAt_serves rt); [done|]. unfold go_get in Hg.
    destruct (servingAt _ _ !! id) eqn:E; [eauto|done].
  - exists st. split; [done|]. split; [lia|done].
Qed.

(** ** Crediting *)

Definition bumpEntry (e : replicaEntry) : replicaEntry :=
  ReplicaEntry (tokenCount e) (lastSeen e) (tier e) (wrap64 (accessCount e + 1)).

Definition occurrences (l : loc) (ls : list loc) : nat := length (filter (l =.) ls).

Definition hitList (r : LookupResult) : list loc :=
  map_to_list (res_hitsByReplica r) ≫= snd.

Lemma CreditHits_flat r i : CreditHits r i = foldl (λ i l, bump l i) i (hitList r).
Proof.
  unfold CreditHits, hitList. generalize (map_to_list (res_hitsByReplica r)) as l. intros l. revert i.
  induction l as [|[id es] l IH]; intros i; simpl; [done|]. by rewrite foldl_app, IH.
Qed.

Lemma wf_bump rt l i : index_wf rt i → index_wf rt (bump l i).
Proof.
  intros [[] [] [] []]. split; [|done..].
  split; simpl; try done.
  - intros k r l' Hl'. rewrite lookup_alter_is_Some. eauto.
  - intros l'. rewrite lookup_alter_is_Some. eauto.
Qed.

Lemma wf_CreditHits rt r i : index_wf rt i → index_wf rt (CreditHits r i).
Proof.
  intros Hwf. rewrite CreditHits_flat. apply (foldl_inv (index_wf rt)); [done|].
  intros. by apply wf_bump.
Qed.

#[export] Hint Resolve wf_bump wf_CreditHits : index_wf.

Lemma bumps_frame ls i :
  let i' := foldl (λ i l, bump l i) i ls in
  prefixes i' = prefixes i ∧ stats i' = stats i ∧
  ∀ l, heap i' !! l = Nat.iter (occurrences l ls) bumpEntry <$> heap i !! l.
Proof.
  simpl. revert i. induction ls as [|x ls IH]; intros i; simpl.
  { split_and!; [done..|]. intros l. by destruct (heap i !! l). }
  destruct (IH (bump x i)) as (-> & -> & Hh). split_and!; [done..|]. intros l.
  rewrite Hh. unfold occurrences. rewrite filter_cons. simpl.
  destruct (decide (l = x)) as [->|Hne].
  - rewrite lookup_alter_eq. destruct (heap i !! x) as [e|]; [|done]. simpl. f_equal.
    fold (bumpEntry e). by rewrite <-Nat.iter_succ_r.
  - by rewrite lookup_alter_ne.
Qed.

(** Crediting adds one access per recorded hit to the entries still reached
    through the recorded pointers, and changes nothing else. *)
Lemma entryAt_CreditHits res i k r :
  entryAt (CreditHits res i) k r =
    l ← locAt i k r; Nat.iter (occurrences l (hitList res)) bumpEntry <$> heap i !! l.
Proof.
  rewrite CreditHits_flat. destruct (bumps_frame (hitList res) i) as (Hp & _ & Hh).
  rewrite entryAt_locAt. unfold locAt. rewrite Hp. fold (locAt i k r).
  apply option_bind_ext_fun. intros l. apply Hh.
Qed.

Lemma iter_bump_fields n e :
  tokenCount (Nat.iter n bumpEntry e) = tokenCount e ∧
  lastSeen (Nat.iter n bumpEntry e) = lastSeen e ∧ tier (Nat.iter n bumpEntry e) = tier e.
Proof. induction n as [|n IH]; simpl; [done|]. destruct IH as (-> & -> & ->). done. Qed.

(** ** Pruning *)

Definition hitsDelivered (r : LookupResult) : Prop :=
  ∀ id ls, res_hitsByReplica r !! id = Some ls → id ∈ s_ReplicaID <$> res_Scores r.

Lemma RetainReplicas_delivered_aux keep r :
  hitsDelivered r → hitsDelivered (RetainReplicas keep r).
Proof.
  intros Hd. unfold RetainReplicas. case_match; [done|].
  intros id ls [Hl Hk]%map_lookup_filter_Some. simpl in *.
  apply Hd, list_elem_of_fmap in Hl as (sc & -> & Hin).
  apply list_elem_of_fmap. exists sc. split; [done|]. by apply elem_of_List_filter.
Qed.

(** ** LookupRoute *)

Definition keysPresent (req : LookupRequest) : Prop :=
  lr_Tenant req ≠ "" ∧ lr_Model req ≠ "" ∧ lr_HashScheme req ≠ "".

Lemma LookupRoute_missing_key cfg v1 v2 v3 req :
  ¬ keysPresent req → LookupRoute cfg v1 v2 v3 req = resultOf StrategyNone.
Proof.
  intros Hk. unfold LookupRoute, keysPresent, str_eqb in *.
  repeat case_bool_decide; simpl; try done. naive_solver.
Qed.

Lemma LookupRoute_present cfg v1 v2 v3 req :
  keysPresent req →
  LookupRoute cfg v1 v2 v3 req =
    if chainBearing req && chainMalformed req then resultOf StrategyNone
    else
      let '(scores, hits) := lookupWithHits cfg v1.1 req v1.2 in
      if (0 <? length scores)%nat then mkLookupResult scores StrategyPrefixMatch hits
      else
        let hot := if chainBearing req then [] else tenantHotCandidates cfg v2.1 req v2.2 in
        if (0 <? length hot)%nat then mkLookupResult hot StrategyTenantHot ∅
        else resultOf (classifyMiss req v3.2).
Proof.
  intros (Ht & Hm & Hs). unfold LookupRoute, str_eqb. rewrite !bool_decide_eq_false_2 by done.
  simpl. destruct (chainBearing req); simpl; [|done]. by destruct (chainMalformed req).
Qed.

Lemma LookupRoute_delivered cfg v1 v2 v3 req :
  Forall is_int32 (lr_BlockTokenCounts req) → hitsDelivered (LookupRoute cfg v1 v2 v3 req).
Proof.
  intros Hint. destruct (decide (keysPresent req)) as [Hk|Hk].
  2: { by rewrite LookupRoute_missing_key. }
  rewrite LookupRoute_present by done. case_match; [done|].
  pose proof (lookupWithHits_hitOK cfg v1.1 req v1.2) as Hh.
  destruct (lookupWithHits cfg v1.1 req v1.2) as [scores hits]. simpl in Hh.
  case_match.
  - intros id ls Hl. by apply (Hh id ls Hint Hl).
  - cbv zeta. set (hot := if chainBearing req then [] else _).
    destruct (0 <? length hot)%nat; intros id ls Hl; simpl in Hl; by apply lookup_empty_Some in Hl.
Qed.

Lemma LookupRoute_hits_live cfg v1 v2 v3 req id ls l :
  Forall is_int32 (lr_BlockTokenCounts req) → l ∈ ls →
  res_hitsByReplica (LookupRoute cfg v1 v2 v3 req) !! id = Some ls →
  ∃ h, locAt v1.2 (reqKey req h) id = Some l.
Proof.
  intros Hint Hin. destruct (decide (keysPresent req)) as [Hk|Hk].
  2: { by rewrite LookupRoute_missing_key. }
  rewrite LookupRoute_present by done. case_match; [done|].
  pose proof (lookupWithHits_hitOK cfg v1.1 req v1.2) as Hh.
  destruct (lookupWithHits cfg v1.1 req v1.2) as [scores hits]. simpl in Hh.
  destruct (0 <? length scores)%nat.
  - intros Hl. by apply (Hh id ls Hint Hl).
  - cbv zeta. set (hot := if chainBearing req then [] else _).
    destruct (0 <? length hot)%nat; intros Hl; simpl in Hl; by apply lookup_empty_Some in Hl.
Qed.
