(* ===== verification/IndexSnapshot.v ===== *)
(** * Read-side aggregates (internal/index/snapshot.go)

    [CacheState], the prefix-count [Aggregate] and the cluster-wide [Snapshot].
    Go ranges over maps in no fixed order; where the result could depend on it
    the model takes the enumeration as an argument, and the theorems hold for
    every enumeration of the map. *)

From Stdlib Require Import SpecFloat.
From S2P Require Import Prelude Ordering GoRuntime IndexTypes IndexAccounting IndexMetrics.

(** ** Operations *)

Definition CacheState (tenant model : string) (i : Index) : list ReplicaStats * Z :=
  let totalPrefixes :=
    foldl (λ n '(key, _),
      if str_eqb (pk_tenant key) tenant && str_eqb (pk_model key) model then n + 1 else n)
      0 (map_to_list (prefixes i)) in
  let replicas :=
    omap (λ '(sk, s),
      if str_eqb (sk_tenant sk) tenant && str_eqb (sk_model sk) model
      then Some (se_stats s) else None) (map_to_list (stats i)) in
  (go_sort (λ a b, str_lt (rs_ReplicaID a) (rs_ReplicaID b)) replicas, totalPrefixes).

Record Aggregate := mkAggregate { agg_PerTenant : gmap string Z; agg_Total : Z }.

Definition aggregateLocked (cfg : IndexConfig) (i : Index) : Aggregate :=
  foldl (λ agg '(key, _),
    if isReservedTenant (cfg_reservedTenants cfg) (pk_tenant key) then agg
    else mkAggregate (incr (agg_PerTenant agg) (pk_tenant key)) (agg_Total agg + 1))
    (mkAggregate ∅ 0) (map_to_list (prefixes i)).

Record ReplicaSnapshot := mkReplicaSnapshot {
  rsn_ReplicaID : string;
  rsn_Tenant : string;
  rsn_CacheMemoryBytes : Z;
  rsn_HitRate : f32;
  rsn_Pressure : f32;
  rsn_LastUpdate : Time;
  rsn_PrefixCount : Z;
  rsn_LastEventAt : Time;
  rsn_StatsReported : bool;
  rsn_T2HitTokens : Z;
  rsn_T2QueryTokens : Z
}.

Record TenantSnapshot := mkTenantSnapshot {
  ts_TenantID : string;
  ts_IndexEntries : Z;
  ts_HitRate : f32;
  ts_HitRateReported : bool
}.

Record Snapshot := mkSnapshot {
  sn_Replicas : list ReplicaSnapshot;
  sn_Tenants : list TenantSnapshot;
  sn_TotalPrefixes : Z
}.

(** (tenant, replica id). *)
Abbreviation tenantReplica := (string * string)%type.

(** The latest stats per (tenant, replica), over an enumeration of the stats map. *)
Definition latestByReplica (cfg : IndexConfig) (enum : list (statsKey * statEntry)) :
    gmap tenantReplica statEntry :=
  foldl (λ latest '(sk, s),
    if isReservedTenant (cfg_reservedTenants cfg) (sk_tenant sk) then latest
    else
      let tr := (sk_tenant sk, sk_replicaID sk) in
      match latest !! tr with
      | Some cur => if time_after (se_lastSeen s) (se_lastSeen cur) then <[tr := s]> latest else latest
      | None => <[tr := s]> latest
      end) ∅ enum.

(** [a.count++; if e.lastSeen.After(a.lastEventAt) { .. }]. *)
Definition prefixAggStep (tenant : string) (i : Index) (agg : gmap tenantReplica (Z * Time))
    (idl : string * loc) : gmap tenantReplica (Z * Time) :=
  let '(id, l) := idl in
  match heap i !! l with
  | None => agg
  | Some e =>
      let '(count, last) := default (0, time_zero) (agg !! (tenant, id)) in
      <[(tenant, id) := (count + 1, if time_after (lastSeen e) last then lastSeen e else last)]> agg
  end.

Definition prefixByReplica (cfg : IndexConfig) (i : Index) : gmap tenantReplica (Z * Time) :=
  foldl (λ agg '(key, replicas),
    if isReservedTenant (cfg_reservedTenants cfg) (pk_tenant key) then agg
    else foldl (prefixAggStep (pk_tenant key) i) agg (map_to_list replicas))
    ∅ (map_to_list (prefixes i)).

Definition replicaRow (latest : gmap tenantReplica statEntry)
    (byPrefix : gmap tenantReplica (Z * Time)) (tr : tenantReplica) : ReplicaSnapshot :=
  let '(count, last) := default (0, time_zero) (byPrefix !! tr) in
  match latest !! tr with
  | Some s =>
      mkReplicaSnapshot tr.2 tr.1 (rs_CacheMemoryBytes (se_stats s)) (rs_HitRate (se_stats s))
        (rs_Pressure (se_stats s)) (se_lastSeen s) count last true
        (rs_T2HitTokens (se_stats s)) (rs_T2QueryTokens (se_stats s))
  | None => mkReplicaSnapshot tr.2 tr.1 0 f32_zero f32_zero time_zero count last false 0 0
  end.

(** Hit-rate sum and sample count per tenant. *)
Definition byTenant (latest : gmap tenantReplica statEntry) : gmap string (f64 * Z) :=
  foldl (λ acc '(tr, s),
    let '(sumHit, n) := default (S754_zero false, 0) (acc !! tr.1) in
    <[tr.1 := (f64_add sumHit (f64_of_f32 (rs_HitRate (se_stats s))), n + 1)]> acc)
    ∅ (map_to_list latest).

Definition tenantRow (hits : gmap string (f64 * Z)) (agg : Aggregate) (t : string) :
    TenantSnapshot :=
  match hits !! t with
  | Some (sumHit, n) =>
      if 0 <? n then
        mkTenantSnapshot t (go_get (agg_PerTenant agg) t)
          (f32_of_f64 (f64_div sumHit (f64_of_Z n))) true
      else mkTenantSnapshot t (go_get (agg_PerTenant agg) t) f32_zero false
  | None => mkTenantSnapshot t (go_get (agg_PerTenant agg) t) f32_zero false
  end.

Definition replicaRowLess (a b : ReplicaSnapshot) : bool :=
  if negb (str_eqb (rsn_Tenant a) (rsn_Tenant b)) then str_lt (rsn_Tenant a) (rsn_Tenant b)
  else str_lt (rsn_ReplicaID a) (rsn_ReplicaID b).

(** [emit] runs once per tenant seen in either map. *)
Definition takeSnapshot (cfg : IndexConfig) (enum : list (statsKey * statEntry)) (i : Index) :
    Snapshot :=
  let latest := latestByReplica cfg enum in
  let byPrefix := prefixByReplica cfg i in
  let agg := aggregateLocked cfg i in
  let seen : gset tenantReplica := dom latest ∪ dom byPrefix in
  let hits := byTenant latest in
  let tenantSeen : gset string := dom hits ∪ dom (agg_PerTenant agg) in
  mkSnapshot
    (go_sort replicaRowLess (replicaRow latest byPrefix <$> elements seen))
    (go_sort (λ a b, str_lt (ts_TenantID a) (ts_TenantID b))
       (tenantRow hits agg <$> elements tenantSeen))
    (agg_Total agg).

(** ** Prefix counts *)

(** A distinct prefix key of a non-reserved tenant. *)
Definition countable (cfg : IndexConfig) (k : prefixKey) : bool :=
  negb (isReservedTenant (cfg_reservedTenants cfg) (pk_tenant k)).

Definition prefixTotal (cfg : IndexConfig) (i : Index) : Z :=
  zcount (λ k _, countable cfg k) (prefixes i).

Definition prefixTotalOf (cfg : IndexConfig) (i : Index) (t : string) : Z :=
  zcount (λ k _, countable cfg k && bool_decide (pk_tenant k = t)) (prefixes i).

Lemma msum_incr (m : gmap string Z) k : msum (λ _ n, n) (incr m k) = msum (λ _ n, n) m + 1.
Proof.
  unfold incr, go_get. rewrite msum_insert_mval. unfold mval.
  destruct (m !! k); simpl; lia.
Qed.

Lemma aggregateLocked_eq cfg i :
  agg_PerTenant (aggregateLocked cfg i) =
    countBuckets (λ key (_ : gmap string loc),
      if isReservedTenant (cfg_reservedTenants cfg) (pk_tenant key) then None
      else Some (pk_tenant key)) (map_to_list (prefixes i)) ∧
  agg_Total (aggregateLocked cfg i) =
    lsum (λ kv, if countable cfg kv.1 then 1 else 0) (map_to_list (prefixes i)) ∧
  msum (λ _ n, n) (agg_PerTenant (aggregateLocked cfg i)) = agg_Total (aggregateLocked cfg i).
Proof.
  unfold aggregateLocked, countBuckets. set (f := λ agg '(key, _), _).
  assert (∀ l a m, msum (λ _ n, n) (agg_PerTenant a) = agg_Total a → agg_PerTenant a = m →
    let a' := foldl f a l in
    agg_PerTenant a' = foldl (λ acc '(k, v),
      match (if isReservedTenant (cfg_reservedTenants cfg) (pk_tenant k) then None
             else Some (pk_tenant k)) with Some b => incr acc b | None => acc end) m l ∧
    agg_Total a' = agg_Total a + lsum (λ kv, if countable cfg kv.1 then 1 else 0) l ∧
    msum (λ _ n, n) (agg_PerTenant a') = agg_Total a') as Haux.
  { induction l as [|[k v] l IH]; intros a m Hs Hm; simpl.
    { split_and!; [done|lia|done]. }
    unfold countable at 1. simpl. destruct (isReservedTenant _ _); simpl.
    - apply (IH a m); done.
    - destruct (IH (mkAggregate (incr (agg_PerTenant a) (pk_tenant k)) (agg_Total a + 1))
        (incr m (pk_tenant k))) as (H1 & H2 & H3); simpl; [rewrite msum_incr; lia|by rewrite Hm|].
      split_and!; [done|simpl in H2; lia|done]. }
  destruct (Haux (map_to_list (prefixes i)) (mkAggregate ∅ 0) ∅) as (H1 & H2 & H3); [done..|].
  split_and!; [done| |done]. rewrite H2. simpl. lia.
Qed.

Lemma aggregate_Total cfg i : agg_Total (aggregateLocked cfg i) = prefixTotal cfg i.
Proof.
  destruct (aggregateLocked_eq cfg i) as (_ & -> & _). unfold prefixTotal, zcount.
  rewrite msum_lsum. apply lsum_ext. by intros [k v].
Qed.

Lemma aggregate_PerTenant cfg i t :
  agg_PerTenant (aggregateLocked cfg i) !! t = countOpt (prefixTotalOf cfg i t).
Proof.
  destruct (aggregateLocked_eq cfg i) as (-> & _ & _). rewrite countBuckets_lookup. f_equal.
  apply msum_ext. intros k v _. unfold countable. destruct (isReservedTenant _ _); cbn [negb andb].
  - by rewrite bool_decide_false.
  - do 2 case_bool_decide; naive_solver.
Qed.

(** Reading a map of counts over any set of keys that covers it. *)
Lemma lsum_go_get (m : gmap string Z) (X : gset string) :
  dom m ⊆ X → lsum (go_get m) (elements X) = msum (λ _ n, n) m.
Proof.
  intros Hsub. rewrite (union_difference_L (dom m) X Hsub).
  rewrite elements_disj_union by set_solver. rewrite lsum_app.
  rewrite (lsum_zero _ (elements (X ∖ dom m))).
  - rewrite msum_lsum. rewrite Z.add_0_r.
    transitivity (lsum (go_get m) (map_to_list m).*1).
    + apply lsum_perm, NoDup_Permutation; [apply NoDup_elements|apply NoDup_fst_map_to_list|].
      intros k. rewrite elem_of_elements, elem_of_dom, list_elem_of_fmap. split.
      * intros [n Hn]. exists (k, n). by rewrite elem_of_map_to_list.
      * intros ([k' n] & -> & Hin). apply elem_of_map_to_list in Hin. eauto.
    + rewrite lsum_fmap. apply lsum_ext. intros [k n] Hin. simpl.
      apply elem_of_map_to_list in Hin. unfold go_get. by rewrite Hin.
  - intros k Hk. apply elem_of_elements, elem_of_difference in Hk as [_ Hk].
    unfold go_get. by rewrite (not_elem_of_dom_1 _ _ Hk).
Qed.

(** ** Tenants and replicas of the snapshot *)

Definition nonReserved (cfg : IndexConfig) (t : string) : Prop :=
  isReservedTenant (cfg_reservedTenants cfg) t = false.

Lemma latestByReplica_nonReserved cfg enum tr s :
  latestByReplica cfg enum !! tr = Some s → nonReserved cfg tr.1.
Proof.
  unfold latestByReplica. set (f := λ latest '(sk, s), _).
  assert (∀ tr s, (∅ : gmap tenantReplica statEntry) !! tr = Some s → nonReserved cfg tr.1)
    as H0 by (by intros ?? ?%lookup_empty_Some).
  revert H0. generalize (∅ : gmap tenantReplica statEntry). revert tr s.
  induction enum as [|[sk s'] enum IH]; intros tr s m Hm; simpl; [apply Hm|].
  apply IH. unfold f. destruct (isReservedTenant _ _) eqn:E; [done|]. intros tr' s'' Hl.
  repeat case_match; try (by eapply Hm);
    apply lookup_insert_Some in Hl as [[<- <-]|[_ Hl]]; eauto.
Qed.

Lemma prefixAggStep_dom t i agg l :
  dom (foldl (prefixAggStep t i) agg l) ⊆ dom agg ∪ set_map (λ id, (t, id)) (list_to_set l.*1 : gset string).
Proof.
  revert agg. induction l as [|[id x] l IH]; intros agg; simpl; [set_solver|].
  etrans; [apply IH|]. unfold prefixAggStep. destruct (heap i !! x); [|set_solver].
  destruct (default _ _). rewrite dom_insert_L. set_solver.
Qed.

Lemma prefixByReplica_nonReserved cfg i tr x :
  prefixByReplica cfg i !! tr = Some x → nonReserved cfg tr.1.
Proof.
  intros Hx. assert (tr ∈ dom (prefixByReplica cfg i)) as Hd by (apply elem_of_dom; eauto).
  revert Hd. clear Hx. unfold prefixByReplica.
  apply (foldl_inv (λ agg, tr ∈ dom agg → nonReserved cfg tr.1)); [set_solver|].
  intros agg [k m] _ Hagg. destruct (isReservedTenant _ _) eqn:E; [done|].
  intros Hd%prefixAggStep_dom. apply elem_of_union in Hd as [Hd|Hd]; [auto|].
  apply elem_of_map in Hd as (id & -> & _). done.
Qed.

Lemma byTenant_dom latest t : t ∈ dom (byTenant latest) → ∃ r s, latest !! (t, r) = Some s.
Proof.
  unfold byTenant. set (f := λ acc '(tr, s), _).
  assert (∀ l (acc : gmap string (f64 * Z)), t ∈ dom (foldl f acc l) →
    t ∈ dom acc ∨ ∃ tr s, (tr, s) ∈ l ∧ tr.1 = t) as Haux.
  { induction l as [|[tr s] l IH]; intros acc Hd; simpl in Hd; [by left|].
    destruct (IH _ Hd) as [Hd'|(tr' & s' & ? & ?)].
    - simpl in Hd'. destruct (default _ _). rewrite dom_insert_L in Hd'.
      apply elem_of_union in Hd' as [->%elem_of_singleton|?]; [|by left].
      right. exists tr, s. split; [left|done].
    - right. exists tr', s'. split; [by right|done]. }
  intros Hd. destruct (Haux _ _ Hd) as [?|([t' r] & s & Hin & <-)]; [set_solver|].
  apply elem_of_map_to_list in Hin. eauto.
Qed.

Lemma tenantRow_fields hits agg t :
  ts_TenantID (tenantRow hits agg t) = t ∧
  ts_IndexEntries (tenantRow hits agg t) = go_get (agg_PerTenant agg) t.
Proof. unfold tenantRow. by repeat case_match. Qed.

Lemma snapshot_tenants_nonReserved cfg enum i row :
  row ∈ sn_Tenants (takeSnapshot cfg enum i) → nonReserved cfg (ts_TenantID row).
Proof.
  unfold takeSnapshot. simpl. rewrite elem_of_go_sort.
  intros (t & -> & Ht)%list_elem_of_fmap. rewrite (proj1 (tenantRow_fields _ _ _)).
  apply elem_of_elements, elem_of_union in Ht as [Ht|Ht].
  - apply byTenant_dom in Ht as (r & s & Hs). by eapply (latestByReplica_nonReserved cfg _ (t, r)).
  - apply elem_of_dom in Ht as [n Hn]. rewrite aggregate_PerTenant in Hn.
    assert (0 < prefixTotalOf cfg i t) as Hpos by (apply countOpt_is_Some; eauto).
    apply zcount_pos in Hpos as (k & v & _ & [Hc Hb]%andb_true_iff).
    apply bool_decide_eq_true in Hb. subst t. unfold countable in Hc.
    unfold nonReserved. by destruct (isReservedTenant _ _).
Qed.

Lemma snapshot_replicas_nonReserved cfg enum i row :
  row ∈ sn_Replicas (takeSnapshot cfg enum i) → nonReserved cfg (rsn_Tenant row).
Proof.
  unfold takeSnapshot. simpl. rewrite elem_of_go_sort.
  intros (tr & -> & Ht)%list_elem_of_fmap.
  assert (rsn_Tenant (replicaRow (latestByReplica cfg enum) (prefixByReplica cfg i) tr) = tr.1) as ->.
  { unfold replicaRow. destruct (default _ _). by case_match. }
  apply elem_of_elements, elem_of_union in Ht as [[s Hs]%elem_of_dom|[x Hx]%elem_of_dom].
  - by eapply latestByReplica_nonReserved.
  - by eapply prefixByReplica_nonReserved.
Qed.

Lemma snapshot_sum cfg enum i :
  lsum ts_IndexEntries (sn_Tenants (takeSnapshot cfg enum i)) =
    sn_TotalPrefixes (takeSnapshot cfg enum i).
Proof.
  unfold takeSnapshot. simpl. rewrite go_sort_Permutation, lsum_fmap.
  destruct (aggregateLocked_eq cfg i) as (_ & _ & <-).
  rewrite <-(lsum_go_get _ (dom (byTenant (latestByReplica cfg enum)) ∪ dom (agg_PerTenant (aggregateLocked cfg i))))
    by set_solver.
  apply lsum_ext. intros t _. apply tenantRow_fields.
Qed.
