(* ===== verification/IndexSystem.v ===== *)
(** * The index as a state machine

    Every entry point that writes the index is an operation; [reachable] is the
    set of states some sequence of operations produces from the empty index,
    each operation being one critical section (Index.mu serialises them) under the
    resolver answers of its own moment, which may differ from one to the next.
    Crediting a lookup result is an operation of its own: it runs after the
    lookup released its lock, with any other operations in between.

    What an operation of one tenant leaves alone for the others

    Frame lemmas: an ingest or an event only writes the entries and the stats of its
    own tenant.  The one channel between tenants is the global cap, which reserved
    tenants are outside of. *)

From S2P Require Import Prelude Ordering GoRuntime IndexTypes IndexAccounting IndexMetrics IndexEviction.
From S2P Require Import IndexRanking IndexIngest IndexSpec IndexLookup.

Inductive IndexOp :=
  | OpIngest (now : Time) (u : Update)
  | OpEvent (now : Time) (ev : Event)
  | OpSweep (now : Time)
  | OpCredit (r : LookupResult).

Definition runOp (cfg : IndexConfig) (op : IndexOp) (i : Index) : Index * list MetricCall :=
  match op with
  | OpIngest now u => Ingest cfg now u i
  | OpEvent now ev => ApplyEvent cfg now ev i
  | OpSweep now => evictExpired cfg now i
  | OpCredit r => (CreditHits r i, [])
  end.

(** The options an index keeps from its construction: the reserved tenants, the
    metrics sink and the cap.  The answers of the resolvers may change between two
    operations: in the server they read the live policy store. *)
Definition sameSetup (cfg c : IndexConfig) : Prop :=
  cfg_reservedTenants c = cfg_reservedTenants cfg ∧ cfg_metrics c = cfg_metrics cfg ∧
  cfg_maxEntries c = cfg_maxEntries cfg.

(** The state and the exported gauge after a sequence of operations, each under the
    resolvers of its own moment. *)
Inductive steps (cfg : IndexConfig) : list IndexOp → Index → gmap string Z →
    Index → gmap string Z → Prop :=
  | steps_nil i g : steps cfg [] i g i g
  | steps_cons c op ops i g i' g' :
      sameSetup cfg c →
      steps cfg ops (runOp c op i).1 (applyCalls g (runOp c op i).2) i' g' →
      steps cfg (op :: ops) i g i' g'.

Definition reachable (cfg : IndexConfig) (i : Index) (g : gmap string Z) : Prop :=
  ∃ ops, steps cfg ops emptyIndex ∅ i g.

(** Rule induction for an invariant of single operations. *)
Lemma steps_invariant cfg (P : Index → gmap string Z → Prop) :
  (∀ c op i g, sameSetup cfg c → P i g → P (runOp c op i).1 (applyCalls g (runOp c op i).2)) →
  ∀ ops i g i' g', steps cfg ops i g i' g' → P i g → P i' g'.
Proof. intros Hop ops i g i' g' Hs. induction Hs; auto. Qed.

Lemma reachable_invariant cfg (P : Index → gmap string Z → Prop) i g :
  P emptyIndex ∅ →
  (∀ c op i g, sameSetup cfg c → P i g → P (runOp c op i).1 (applyCalls g (runOp c op i).2)) →
  reachable cfg i g → P i g.
Proof. intros H0 Hop [ops Hs]. by eapply steps_invariant. Qed.

(** ** Well-formedness *)

Lemma wf_runOp cfg op i :
  index_wf (cfg_reservedTenants cfg) i → index_wf (cfg_reservedTenants cfg) (runOp cfg op i).1.
Proof.
  intros Hwf. destruct op; simpl; auto with index_wf.
Qed.

#[export] Hint Resolve wf_runOp : index_wf.

Lemma wf_runOp_setup cfg c op i :
  sameSetup cfg c → index_wf (cfg_reservedTenants cfg) i →
  index_wf (cfg_reservedTenants cfg) (runOp c op i).1.
Proof. intros [<- _]. apply wf_runOp. Qed.

Lemma steps_wf cfg ops i g i' g' :
  steps cfg ops i g i' g' → index_wf (cfg_reservedTenants cfg) i →
  index_wf (cfg_reservedTenants cfg) i'.
Proof.
  intros Hs Hwf. apply (steps_invariant cfg (λ i _, index_wf (cfg_reservedTenants cfg) i))
    with (1 := λ c op i g Hc H, wf_runOp_setup cfg c op i Hc H) (2 := Hs). done.
Qed.

Lemma reachable_wf cfg i g : reachable cfg i g → index_wf (cfg_reservedTenants cfg) i.
Proof. intros [ops Hs]. eapply steps_wf; [done|]. apply index_wf_empty. Qed.

(** ** Locations are never reused

    A location once allocated keeps its (prefix, replica) for as long as it is
    in the prefix map. *)

Definition locs_persist (i i' : Index) : Prop :=
  (nextLoc i ≤ nextLoc i')%positive ∧
  ∀ k r l, locAt i' k r = Some l → (l < nextLoc i)%positive → locAt i k r = Some l.

#[export] Instance locs_persist_refl : Reflexive locs_persist.
Proof. intros i. split; [done|by intros]. Qed.

#[export] Instance locs_persist_trans : Transitive locs_persist.
Proof.
  intros i1 i2 i3 [Hn1 H1] [Hn2 H2]. split; [lia|]. intros k r l Hl Hlt.
  apply H1; [|done]. apply H2; [done|lia].
Qed.

Lemma locs_persist_frame i i' :
  nextLoc i' = nextLoc i → prefixes i' = prefixes i → locs_persist i i'.
Proof.
  intros Hn Hp. split; [by rewrite Hn|]. intros k r l Hl _. unfold locAt in *. by rewrite Hp in Hl.
Qed.

Lemma locs_persist_remove rt k r i : locs_persist i (removeReplicaLocked rt k r i).
Proof.
  split.
  - destruct (locAt i k r) as [l|] eqn:Hl; [|by rewrite remove_absent].
    by pose proof (remove_held rt k r l i Hl) as (_ & -> & _).
  - intros k' r' l Hl _. rewrite remove_locAt in Hl. by case_decide.
Qed.

Lemma locs_persist_removeMany rt l i : locs_persist i (removeMany rt l i).
Proof.
  apply (foldl_inv (locs_persist i)); [done|]. intros j kr _ Hj.
  etrans; [done|]. apply locs_persist_remove.
Qed.

Lemma locs_persist_upsert rt k r tc tr ts i :
  locs_persist i (upsertReplicaLocked rt k r tc tr ts i).
Proof.
  destruct (locAt i k r) as [l|] eqn:Hl.
  - rewrite (upsert_refresh _ _ _ _ _ _ _ l Hl). by apply locs_persist_frame.
  - pose proof (upsert_insert rt k r tc tr ts i Hl) as (_ & Hn & _).
    split; [rewrite Hn; lia|]. intros k' r' l Hl' Hlt.
    rewrite upsert_insert_locAt in Hl' by done. case_decide; [|done]. simplify_eq. lia.
Qed.

Lemma locs_persist_writes rt r ts ws i : locs_persist i (foldl (applyWrite rt r ts) i ws).
Proof.
  apply (foldl_inv (locs_persist i)); [done|]. intros j [[k tc] tr] _ Hj.
  etrans; [done|]. apply locs_persist_upsert.
Qed.

Lemma locs_persist_dropStats sk i : locs_persist i (dropStats sk i).
Proof. pose proof (dropStats_frame sk i) as (_&?&?&_). by apply locs_persist_frame. Qed.

Lemma locs_persist_report cfg i : locs_persist i (reportEntries cfg i).1.
Proof. pose proof (reportEntries_frame cfg i) as (_&?&?&_). by apply locs_persist_frame. Qed.

Lemma locs_persist_enforce cfg t i :
  index_wf (cfg_reservedTenants cfg) i →
  locs_persist i (enforceCapLocked cfg (enforceQuota cfg t i).1).1.
Proof.
  intros Hwf. transitivity (enforceQuota cfg t i).1.
  - unfold enforceQuota. case_match; [|done]. rewrite evictOldest_result by done.
    case_match; [|done]. apply (foldl_inv (locs_persist i)); [done|]. intros j qr _ Hj.
    etrans; [done|]. rewrite dropPrefix_removeMany. apply locs_persist_removeMany.
  - rewrite enforceCap_result by (by apply wf_enforceQuota). case_match; [|done].
    apply locs_persist_removeMany.
Qed.

Lemma locs_persist_runOp cfg op i :
  index_wf (cfg_reservedTenants cfg) i → locs_persist i (runOp cfg op i).1.
Proof.
  intros Hwf. destruct op as [now u|now ev|now|res]; simpl.
  - rewrite Ingest_fst. etrans; [|apply locs_persist_report].
    etrans; [|apply locs_persist_enforce; by apply wf_ingested]. unfold ingested.
    etrans; [apply locs_persist_writes|]. unfold ingestStats. case_match; by apply locs_persist_frame.
  - unfold ApplyEvent. etrans; [|apply locs_persist_report]. unfold applyEventLocked.
    destruct (ev_Type ev); [done| | |].
    + rewrite removeMatching_removeMany. apply locs_persist_removeMany.
    + set (sk := StatsKey _ _ _). set (ts := stampOr _ _).
      pose proof (touchStats_frame sk ts i) as (_&?&?&_). by apply locs_persist_frame.
    + etrans; [|apply locs_persist_dropStats]. rewrite removeMatching_removeMany.
      apply locs_persist_removeMany.
  - rewrite evictExpired_fst. etrans; [|apply locs_persist_report].
    transitivity (sweepPrefixes cfg now i).1.
    + rewrite sweepPrefixes_spec. apply locs_persist_removeMany.
    + unfold sweepStats. apply (foldl_inv (locs_persist (sweepPrefixes cfg now i).1)); [done|].
      intros j [sk s] _ Hj. case_match; [|done]. etrans; [done|]. apply locs_persist_dropStats.
  - rewrite CreditHits_flat. apply (foldl_inv (locs_persist i)); [done|].
    intros j l _ Hj. etrans; [done|]. by apply locs_persist_frame.
Qed.

Lemma locs_persist_steps cfg ops i g i' g' :
  steps cfg ops i g i' g' → index_wf (cfg_reservedTenants cfg) i → locs_persist i i'.
Proof.
  induction 1 as [|c op ops i g i' g' Hc _ IH]; intros Hwf; [done|].
  etrans; [|by apply IH, (wf_runOp_setup cfg)]. apply locs_persist_runOp. by rewrite (proj1 Hc).
Qed.

(** ** What the cap and the tenant quotas are enforced on *)

(** What both budgets are measured on. *)
Definition shrinks (i i' : Index) : Prop :=
  effectiveTotal i' ≤ effectiveTotal i ∧
  ∀ t, p_tenant t (prefixes i') ≤ p_tenant t (prefixes i).

#[export] Instance shrinks_refl : Reflexive shrinks.
Proof. intros i. split; [done|]. intros t. lia. Qed.

#[export] Instance shrinks_trans : Transitive shrinks.
Proof.
  intros i1 i2 i3 [H1 H1'] [H2 H2']. split; [lia|]. intros t. specialize (H1' t). specialize (H2' t). lia.
Qed.

Lemma shrinks_frame i i' :
  totalEntries i' = totalEntries i → reservedEntries i' = reservedEntries i →
  prefixes i' = prefixes i → shrinks i i'.
Proof. unfold shrinks, effectiveTotal. intros -> -> ->. split; [lia|]. intros; lia. Qed.

Lemma shrinks_remove rt k r i : shrinks i (removeReplicaLocked rt k r i).
Proof.
  destruct (locAt i k r) as [l|] eqn:Hl; [|by rewrite remove_absent].
  pose proof (remove_held rt k r l i Hl) as (_&_&Hp&_&Ht&Hr&_). split.
  - unfold effectiveTotal. rewrite Ht, Hr. case_match; lia.
  - intros t. rewrite Hp. unfold locAt in Hl.
    destruct (prefixes i !! k) as [m|] eqn:Hk; [|done].
    destruct (bool_decide (delete r (replicasAt i k) = ∅)).
    + rewrite p_tenant_delete by eauto. case_decide; lia.
    + rewrite p_tenant_insert, Hk. case_decide; lia.
Qed.

Lemma shrinks_removeMany rt l i : shrinks i (removeMany rt l i).
Proof.
  apply (foldl_inv (shrinks i)); [done|]. intros j kr _ Hj. etrans; [done|]. apply shrinks_remove.
Qed.

Lemma shrinks_report cfg i : shrinks i (reportEntries cfg i).1.
Proof. pose proof (reportEntries_frame cfg i) as (_&_&?&_&?&?&_). by apply shrinks_frame. Qed.

Lemma shrinks_dropStats sk i : shrinks i (dropStats sk i).
Proof. pose proof (dropStats_frame sk i) as (_&_&?&_&?&?&_). by apply shrinks_frame. Qed.

Lemma shrinks_enforceCap cfg i :
  index_wf (cfg_reservedTenants cfg) i → shrinks i (enforceCapLocked cfg i).1.
Proof.
  intros Hwf. rewrite enforceCap_result by done. case_match; [|done]. apply shrinks_removeMany.
Qed.

Lemma shrinks_enforceQuota cfg t i :
  index_wf (cfg_reservedTenants cfg) i → shrinks i (enforceQuota cfg t i).1.
Proof.
  intros Hwf. unfold enforceQuota. case_match; [|done]. rewrite evictOldest_result by done.
  case_match; [|done]. apply (foldl_inv (shrinks i)); [done|]. intros j qr _ Hj.
  etrans; [done|]. rewrite dropPrefix_removeMany. apply shrinks_removeMany.
Qed.

(** Writes for one tenant leave the prefix counts of the others alone. *)
Lemma p_tenant_upsert rt k r tc tr ts i t :
  pk_tenant k ≠ t →
  p_tenant t (prefixes (upsertReplicaLocked rt k r tc tr ts i)) = p_tenant t (prefixes i).
Proof.
  intros Hne. destruct (locAt i k r) as [l|] eqn:Hl.
  - by rewrite (upsert_refresh _ _ _ _ _ _ _ l Hl).
  - pose proof (upsert_insert rt k r tc tr ts i Hl) as (_&_&->&_).
    rewrite p_tenant_insert, decide_False by done. lia.
Qed.

(** Every write of an update is in the update's own scope. *)
Lemma updateWrites_scope u w :
  w ∈ updateWrites u → scopeOf w.1.1 = ScopeKey (u_Tenant u) (u_Model u) (u_HashScheme u).
Proof.
  unfold updateWrites. case_decide; [by intros ?%not_elem_of_nil|].
  intros (p & Hw & _)%list_elem_of_bind. revert Hw. unfold prefixWrites.
  generalize (if str_eqb (pr_Adapter p) "" then u_Adapter u else pr_Adapter p) as ad. intros ad.
  assert (∀ hs cs, w ∈ zip_with (λ h c,
    (PrefixKey (u_Tenant u) (u_Model u) (u_HashScheme u) ad h, c, normalizeIngestTier (pr_Tier p)))
    hs (cumulate 0 cs) →
    scopeOf w.1.1 = ScopeKey (u_Tenant u) (u_Model u) (u_HashScheme u)) as Hz.
  { intros hs cs (n & Hn)%list_elem_of_lookup. apply lookup_zip_with_Some in Hn as (?&?&->&_). done. }
  destruct (pr_BlockHashes p), (pr_BlockTokenCounts p).
  1: by intros ->%list_elem_of_singleton.
  all: case_decide; [|by intros ?%not_elem_of_nil].
  all: intros [Hw|Hw]%elem_of_app; [by eapply Hz|].
  all: case_decide; [by apply not_elem_of_nil in Hw|by apply list_elem_of_singleton in Hw as ->].
Qed.

Lemma updateWrites_tenant u w : w ∈ updateWrites u → pk_tenant w.1.1 = u_Tenant u.
Proof. intros Hw%updateWrites_scope. by injection Hw. Qed.

Lemma updateWrites_model u w : w ∈ updateWrites u → pk_model w.1.1 = u_Model u.
Proof. intros Hw%updateWrites_scope. by injection Hw. Qed.

Lemma p_tenant_ingested cfg now u i t :
  t ≠ u_Tenant u → p_tenant t (prefixes (ingested cfg now u i)) = p_tenant t (prefixes i).
Proof.
  intros Hne. unfold ingested. set (ts := stampOr _ _).
  transitivity (p_tenant t (prefixes
    (foldl (applyWrite (cfg_reservedTenants cfg) (u_ReplicaID u) ts) i (updateWrites u)))).
  { unfold ingestStats. by case_match. }
  apply (foldl_inv (λ j, p_tenant t (prefixes j) = p_tenant t (prefixes i))); [done|].
  intros j [[k tc] tr] Hin Hj. simpl. rewrite p_tenant_upsert; [done|].
  apply updateWrites_tenant in Hin. simpl in Hin. congruence.
Qed.

Lemma shrinks_other cfg op i :
  match op with OpIngest _ _ => True | _ => shrinks i (runOp cfg op i).1 end.
Proof.
  destruct op as [now u|now ev|now|res]; simpl; [done| | |].
  - unfold ApplyEvent. etrans; [|apply shrinks_report]. unfold applyEventLocked.
    destruct (ev_Type ev); [done| | |].
    + rewrite removeMatching_removeMany. apply shrinks_removeMany.
    + set (sk := StatsKey _ _ _). set (ts := stampOr _ _).
      pose proof (touchStats_frame sk ts i) as (_&_&?&?&?&_). by apply shrinks_frame.
    + etrans; [|apply shrinks_dropStats]. rewrite removeMatching_removeMany.
      apply shrinks_removeMany.
  - rewrite evictExpired_fst. etrans; [|apply shrinks_report].
    transitivity (sweepPrefixes cfg now i).1.
    + rewrite sweepPrefixes_spec. apply shrinks_removeMany.
    + unfold sweepStats. apply (foldl_inv (shrinks (sweepPrefixes cfg now i).1)); [done|].
      intros j [sk s] _ Hj. case_match; [|done]. etrans; [done|]. apply shrinks_dropStats.
  - rewrite CreditHits_flat. apply (foldl_inv (shrinks i)); [done|].
    intros j l _ Hj. etrans; [done|]. by apply shrinks_frame.
Qed.

(** An operation that is not an ingest of tenant [t] never adds to the prefixes of [t]. *)
Lemma p_tenant_otherOp cfg op i t :
  index_wf (cfg_reservedTenants cfg) i →
  match op with OpIngest _ u => u_Tenant u ≠ t | _ => True end →
  p_tenant t (prefixes (runOp cfg op i).1) ≤ p_tenant t (prefixes i).
Proof.
  intros Hwf Hop. pose proof (shrinks_other cfg op i) as Hs.
  destruct op as [now u| | |]; [|apply Hs..]. cbn [runOp]. rewrite Ingest_fst.
  pose proof (wf_ingested cfg now u i Hwf) as Hwf1.
  rewrite <-(p_tenant_ingested cfg now u i t) by done.
  destruct (shrinks_report cfg (enforceCapLocked cfg (enforceQuota cfg (u_Tenant u)
    (ingested cfg now u i)).1).1) as [_ H1].
  destruct (shrinks_enforceCap cfg _ (wf_enforceQuota cfg (u_Tenant u) _ Hwf1)) as [_ H2].
  destruct (shrinks_enforceQuota cfg (u_Tenant u) _ Hwf1) as [_ H3].
  specialize (H1 t). specialize (H2 t). specialize (H3 t). lia.
Qed.

(** ** The exported gauge *)

(** The metric calls that do not touch the gauge. *)
Definition silent (cs : list MetricCall) : Prop := ∀ g, applyCalls g cs = g.

Lemma silent_app cs cs' : silent cs → silent cs' → silent (cs ++ cs').
Proof. intros H1 H2 g. by rewrite applyCalls_app, H1, H2. Qed.

Lemma silent_evictionCalls reason ev : silent (evictionCalls reason ev).
Proof.
  intros g. unfold evictionCalls. induction (map_to_list ev) as [|[a n] l IH]; simpl; [done|]. apply IH.
Qed.

Lemma reported_upsert rt k r tc tr ts i :
  reportedModels (upsertReplicaLocked rt k r tc tr ts i) = reportedModels i.
Proof.
  destruct (locAt i k r) as [l|] eqn:Hl; [by rewrite (upsert_refresh _ _ _ _ _ _ _ l Hl)|].
  by pose proof (upsert_insert rt k r tc tr ts i Hl) as (_&_&_&_&_&_&_&_&_&_&->).
Qed.

Lemma reported_ingested cfg now u i : reportedModels (ingested cfg now u i) = reportedModels i.
Proof.
  unfold ingested. set (ts := stampOr _ _).
  transitivity (reportedModels
    (foldl (applyWrite (cfg_reservedTenants cfg) (u_ReplicaID u) ts) i (updateWrites u))).
  { unfold ingestStats. by case_match. }
  apply (foldl_inv (λ j, reportedModels j = reportedModels i)); [done|].
  intros j [[k tc] tr] _ Hj. simpl. by rewrite reported_upsert.
Qed.

Lemma reported_enforce cfg t i :
  index_wf (cfg_reservedTenants cfg) i →
  reportedModels (enforceCapLocked cfg (enforceQuota cfg t i).1).1 = reportedModels i.
Proof.
  intros Hwf. transitivity (reportedModels (enforceQuota cfg t i).1).
  - rewrite enforceCap_result by (by apply wf_enforceQuota). case_match; [|done]. apply removeMany_stats.
  - unfold enforceQuota. case_match; [|done]. rewrite evictOldest_result by done.
    case_match; [|done]. apply (foldl_inv (λ j, reportedModels j = reportedModels i)); [done|].
    intros j qr _ Hj. rewrite dropPrefix_removeMany. by rewrite (proj2 (removeMany_stats _ _ _)).
Qed.

Definition gaugeExact (cfg : IndexConfig) (i : Index) (g : gmap string Z) : Prop :=
  gaugeSound g i ∧ ∀ m, go_get g m = go_get (EntryCountsByModel cfg i) m.

Lemma EntryCounts_frame cfg i i' :
  prefixes i' = prefixes i → EntryCountsByModel cfg i' = EntryCountsByModel cfg i.
Proof. unfold EntryCountsByModel. by intros ->. Qed.

Lemma gaugeExact_report cfg i g cs :
  cfg_metrics cfg = true → gaugeSound g i → silent cs →
  gaugeExact cfg (reportEntries cfg i).1 (applyCalls g (cs ++ (reportEntries cfg i).2)).
Proof.
  intros Hm Hg Hs. pose proof (reportEntries_gauge_aux cfg i g Hm Hg) as Hr.
  pose proof (reportEntries_frame cfg i) as (_&_&Hp&_).
  rewrite applyCalls_app, Hs. destruct (reportEntries cfg i) as [i' rs]. simpl in *.
  destruct Hr as [H1 H2]. split; [done|]. intros m. by rewrite H1, (EntryCounts_frame cfg i i').
Qed.

Lemma Ingest_calls cfg now u i :
  let j := (enforceCapLocked cfg (enforceQuota cfg (u_Tenant u) (ingested cfg now u i)).1).1 in
  ∃ cs, silent cs ∧ (Ingest cfg now u i).2 = cs ++ (reportEntries cfg j).2.
Proof.
  simpl. unfold Ingest, ingested. rewrite ingestPrefixes_writes.
  destruct (enforceQuota _ _ _) as [i1 n]. simpl.
  destruct (enforceCapLocked cfg i1) as [i2 ev]. simpl.
  destruct (reportEntries cfg i2) as [i3 rs]. simpl. eexists. split; [|done].
  destruct (cfg_metrics cfg); [|done]. apply silent_app; [|apply silent_evictionCalls].
  by case_match.
Qed.

Lemma evictExpired_calls cfg now i :
  let j := sweepStats cfg now (sweepPrefixes cfg now i).1 in
  ∃ cs, silent cs ∧ (evictExpired cfg now i).2 = cs ++ (reportEntries cfg j).2.
Proof.
  simpl. unfold evictExpired. destruct (sweepPrefixes cfg now i) as [i1 ev]. simpl.
  destruct (reportEntries cfg _) as [i3 rs]. simpl. eexists. split; [|done].
  case_match; [|done]. apply silent_evictionCalls.
Qed.

Lemma gaugeExact_runOp cfg op i g :
  cfg_metrics cfg = true → index_wf (cfg_reservedTenants cfg) i → gaugeExact cfg i g →
  gaugeExact cfg (runOp cfg op i).1 (applyCalls g (runOp cfg op i).2).
Proof.
  intros Hm Hwf [Hg He].
  assert (∀ j, reportedModels j = reportedModels i → gaugeSound g j) as Hsound.
  { intros j Hj m. unfold gaugeSound in Hg. rewrite Hj. apply Hg. }
  destruct op as [now u|now ev|now|res]; simpl.
  - destruct (Ingest_calls cfg now u i) as (cs & Hs & ->). rewrite Ingest_fst.
    apply gaugeExact_report; [done| |done]. apply Hsound.
    by rewrite reported_enforce, reported_ingested by (by apply wf_ingested).
  - unfold ApplyEvent. apply (gaugeExact_report cfg _ g []); [done| |by intros ?]. apply Hsound.
    unfold applyEventLocked. destruct (ev_Type ev); [done| | |].
    + rewrite removeMatching_removeMany. apply removeMany_stats.
    + unfold touchStats. by case_match.
    + set (sk := StatsKey _ _ _).
      match goal with |- reportedModels (dropStats sk ?j) = _ =>
        pose proof (dropStats_frame sk j) as (_&_&_&_&_&_&_&_&_&->) end.
      rewrite removeMatching_removeMany. apply removeMany_stats.
  - destruct (evictExpired_calls cfg now i) as (cs & Hs & ->). rewrite evictExpired_fst.
    apply gaugeExact_report; [done| |done]. apply Hsound.
    destruct (sweepStats_frame cfg now (sweepPrefixes cfg now i).1) as (_ & _ & ->).
    rewrite sweepPrefixes_spec. apply removeMany_stats.
  - assert (reportedModels (CreditHits res i) = reportedModels i ∧
      prefixes (CreditHits res i) = prefixes i) as [Hr Hp].
    { rewrite CreditHits_flat. apply (foldl_inv (λ j, reportedModels j = reportedModels i ∧
        prefixes j = prefixes i)); [done|]. by intros j l _ [? ?]. }
    split; [by apply Hsound|]. intros m. by rewrite (EntryCounts_frame cfg i).
Qed.

Lemma gaugeExact_setup cfg c op i g :
  sameSetup cfg c → cfg_metrics cfg = true → index_wf (cfg_reservedTenants cfg) i →
  gaugeExact cfg i g →
  index_wf (cfg_reservedTenants cfg) (runOp c op i).1 ∧
  gaugeExact cfg (runOp c op i).1 (applyCalls g (runOp c op i).2).
Proof.
  intros Hc Hm Hwf Hg. split; [by apply wf_runOp_setup|]. destruct Hc as (Hr & Hmc & _).
  assert (∀ j h, gaugeExact c j h ↔ gaugeExact cfg j h) as Hiff.
  { intros j h. unfold gaugeExact, EntryCountsByModel. by rewrite Hr. }
  apply Hiff, gaugeExact_runOp; [by rewrite Hmc|by rewrite Hr|by apply Hiff].
Qed.

(** ** Reserved tenants *)

Lemma enforceCap_idle cfg i :
  effectiveTotal i ≤ cfg_maxEntries cfg → enforceCapLocked cfg i = (i, ∅).
Proof.
  intros Hle. unfold enforceCapLocked, enforceCapOver. fold (effectiveTotal i).
  by rewrite (proj2 (Z.leb_le _ _) Hle), orb_true_r.
Qed.

Lemma upsert_reserved rt k r tc tr ts i :
  isReservedTenant rt (pk_tenant k) = true →
  effectiveTotal (upsertReplicaLocked rt k r tc tr ts i) = effectiveTotal i.
Proof.
  intros Hr. destruct (locAt i k r) as [l|] eqn:Hl.
  - by rewrite (upsert_refresh _ _ _ _ _ _ _ l Hl).
  - pose proof (upsert_insert rt k r tc tr ts i Hl) as (_&_&_&_&Ht&Hre&_).
    unfold effectiveTotal. rewrite Ht, Hre, Hr. lia.
Qed.

(** The writes of an update touch its own tenant only; for a reserved tenant
    they are invisible to the cap. *)
Lemma ingested_reserved cfg now u i :
  index_wf (cfg_reservedTenants cfg) i →
  isReservedTenant (cfg_reservedTenants cfg) (u_Tenant u) = true →
  effectiveTotal (ingested cfg now u i) = effectiveTotal i ∧
  ∀ k r, pk_tenant k ≠ u_Tenant u → entryAt (ingested cfg now u i) k r = entryAt i k r.
Proof.
  intros Hwf Hres. unfold ingested. set (ts := stampOr _ _).
  set (rt := cfg_reservedTenants cfg) in *.
  set (j := foldl (applyWrite rt (u_ReplicaID u) ts) i (updateWrites u)).
  assert (index_wf rt j ∧ effectiveTotal j = effectiveTotal i ∧
    ∀ k r, pk_tenant k ≠ u_Tenant u → entryAt j k r = entryAt i k r) as (_ & Hj & He).
  { unfold j. apply (foldl_inv (λ j, index_wf rt j ∧ effectiveTotal j = effectiveTotal i ∧
      ∀ k r, pk_tenant k ≠ u_Tenant u → entryAt j k r = entryAt i k r)); [done|].
    intros j' [[k tc] tr] Hin (Hw & He & Hx). apply updateWrites_tenant in Hin. simpl in *.
    split_and!; [by apply wf_upsert|rewrite upsert_reserved; [done|by rewrite Hin]|].
    intros k' r' Hne. rewrite entryAt_upsert by apply Hw.
    rewrite decide_False; [by apply Hx|]. intros [-> _]. by rewrite Hin in Hne. }
  split; [|intros k r Hk]; unfold ingestStats; case_match; by try apply He.
Qed.

(** Everything a lookup or an eviction reads of an entry, except its access counter. *)
Definition sameHold (o o' : option replicaEntry) : Prop :=
  match o, o' with
  | Some e, Some e' =>
      tokenCount e' = tokenCount e ∧ lastSeen e' = lastSeen e ∧ tier e' = tier e
  | None, None => True
  | _, _ => False
  end.

#[export] Instance sameHold_equivalence : Equivalence sameHold.
Proof.
  split.
  - intros [e|]; simpl; auto.
  - intros [e|] [e'|]; simpl; naive_solver.
  - intros [e1|] [e2|] [e3|]; simpl; try done. naive_solver congruence.
Qed.

(** The tenant an operation acts for; sweeps and credits act for none. *)
Definition opTenant (op : IndexOp) : option string :=
  match op with
  | OpIngest _ u => Some (u_Tenant u)
  | OpEvent _ ev => Some (ev_Tenant ev)
  | OpSweep _ | OpCredit _ => None
  end.

Lemma entryAt_foreignWrites rt u ts i k r :
  index_wf rt i → pk_tenant k ≠ u_Tenant u →
  entryAt (foldl (applyWrite rt (u_ReplicaID u) ts) i (updateWrites u)) k r = entryAt i k r.
Proof.
  intros Hwf Hk.
  apply (foldl_inv (λ j, index_wf rt j ∧ entryAt j k r = entryAt i k r)); [done|].
  intros j [[k' tc] tr] Hin [Hw Hx]. apply updateWrites_tenant in Hin. simpl in *.
  split; [by apply wf_upsert|]. rewrite entryAt_upsert by apply Hw.
  case_decide as Hd; [|done]. destruct Hd as [-> _]. congruence.
Qed.

Lemma entryAt_foreignIngested cfg now u i k r :
  index_wf (cfg_reservedTenants cfg) i → pk_tenant k ≠ u_Tenant u →
  entryAt (ingested cfg now u i) k r = entryAt i k r.
Proof.
  intros Hwf Hk. unfold ingested. rewrite <-(entryAt_foreignWrites _ u (stampOr now (u_Timestamp u)) i k r Hwf Hk).
  unfold ingestStats. by case_match.
Qed.

Lemma entryAt_foreignQuota cfg t i k r :
  index_wf (cfg_reservedTenants cfg) i → pk_tenant k ≠ t →
  entryAt (enforceQuota cfg t i).1 k r = entryAt i k r.
Proof.
  intros Hwf Hk. unfold enforceQuota. case_match; [|done].
  rewrite entryAt_evictOldest by done.
  destruct (overQuota _ _ _); [|done]. case_bool_decide as Hin; [|done].
  by apply quotaVictims_tenant in Hin.
Qed.

Lemma entryAt_reservedCap cfg i k r :
  index_wf (cfg_reservedTenants cfg) i →
  isReservedTenant (cfg_reservedTenants cfg) (pk_tenant k) = true →
  entryAt (enforceCapLocked cfg i).1 k r = entryAt i k r.
Proof.
  intros Hwf Hr. rewrite entryAt_enforceCap by done.
  destruct (overCap cfg i); [|done]. case_bool_decide as Hin; [|done]. exfalso.
  apply list_elem_of_fmap in Hin as (c & Heq & Hc).
  apply victim_capRef, elem_of_capRefs in Hc. unfold capId in Heq. simplify_eq.
  naive_solver congruence.
Qed.

(** ** Operations *)

(** An entry of another tenant is untouched, or the cap dropped it, which only
    happens to non-reserved tenants and leaves the index exactly full. *)
Lemma entryAt_foreignIngest cfg now u i k r :
  index_wf (cfg_reservedTenants cfg) i → pk_tenant k ≠ u_Tenant u →
  let i' := (Ingest cfg now u i).1 in
  entryAt i' k r = entryAt i k r ∨
  entryAt i' k r = None ∧ isReservedTenant (cfg_reservedTenants cfg) (pk_tenant k) = false ∧
    0 < cfg_maxEntries cfg ∧ effectiveTotal i' = cfg_maxEntries cfg.
Proof.
  intros Hwf Hk i'. unfold i'. rewrite Ingest_fst, entryAt_reportEntries.
  pose proof (wf_ingested cfg now u i Hwf) as Hw1.
  pose proof (wf_enforceQuota cfg (u_Tenant u) _ Hw1) as Hw2.
  set (j := (enforceQuota cfg (u_Tenant u) (ingested cfg now u i)).1) in *.
  assert (entryAt j k r = entryAt i k r) as Hj.
  { unfold j. by rewrite entryAt_foreignQuota, entryAt_foreignIngested. }
  destruct (isReservedTenant (cfg_reservedTenants cfg) (pk_tenant k)) eqn:Hres.
  { left. by rewrite entryAt_reservedCap. }
  rewrite entryAt_enforceCap by done.
  destruct (overCap cfg j) eqn:Ho; [|by left]. simpl. case_bool_decide; [|by left]. right.
  pose proof (reportEntries_frame cfg (enforceCapLocked cfg j).1) as (_&_&_&_&Ht&Hr&_).
  unfold overCap in Ho. unfold effectiveTotal at 1. rewrite Ht, Hr.
  fold (effectiveTotal (enforceCapLocked cfg j).1). rewrite effective_enforceCap by (done || lia).
  split_and!; [done|done|lia|lia].
Qed.

Lemma entryAt_foreignEvent cfg now ev i k r :
  pk_tenant k ≠ ev_Tenant ev → entryAt (ApplyEvent cfg now ev i).1 k r = entryAt i k r.
Proof.
  intros Hk. pose proof (f_equal st_entries (ApplyEvent_refines cfg now ev i)) as HE.
  apply (f_equal (lookup (k, r))) in HE. cbn [absIndex st_entries] in HE.
  rewrite absEntries_lookup in HE. rewrite HE.
  assert (¬ evictedBy ev k ∧ ¬ clearedBy ev k) as [He Hc].
  { unfold evictedBy, clearedBy. naive_solver. }
  unfold specEvent. destruct (ev_Type ev); cbn [st_entries absIndex];
    rewrite ?lookup_filter_if, absEntries_lookup; [done| |done|];
    destruct (entryAt i k r); simpl; [|done| |done];
    case_decide as Hd; [done|destruct Hd; naive_solver|done|destruct Hd; naive_solver].
Qed.

(** Stats are never shared: an operation of one tenant keeps all stats of the others. *)
Lemma stats_foreign cfg op i sk t :
  index_wf (cfg_reservedTenants cfg) i → opTenant op = Some t → sk_tenant sk ≠ t →
  stats (runOp cfg op i).1 !! sk = stats i !! sk.
Proof.
  intros Hwf Ht Hsk. destruct op as [now u|now ev|now|res]; simplify_eq/=.
  - destruct (Ingest_refines cfg now u i Hwf) as (E2 & _ & _ & HS).
    cbn [absIndex st_stats] in HS. rewrite HS. unfold specStats. case_match; [|done].
    apply lookup_insert_ne. by intros <-.
  - pose proof (f_equal st_stats (ApplyEvent_refines cfg now ev i)) as HS.
    cbn [absIndex st_stats] in HS. rewrite HS. unfold specEvent.
    destruct (ev_Type ev); cbn [st_stats absIndex]; try done.
    + apply lookup_alter_ne. by intros <-.
    + apply lookup_delete_ne. by intros <-.
Qed.

(** [op] does not act on the hold of [(k, r)] stamped [ts]: it is for another tenant,
    for another (model, replica) of a tenant without a budget, a sweep before the
    hold's TTL, or a credit. *)
Definition avoids (cfg : IndexConfig) (k : prefixKey) (r : string) (ts : Time) (op : IndexOp) : Prop :=
  match op with
  | OpIngest _ u =>
      u_Tenant u ≠ pk_tenant k ∨
      tenantQuotaFor cfg (u_Tenant u) = None ∧ (u_Model u ≠ pk_model k ∨ u_ReplicaID u ≠ r)
  | OpEvent _ ev => ev_Tenant ev ≠ pk_tenant k ∨ ev_Model ev ≠ pk_model k ∨ ev_ReplicaID ev ≠ r
  | OpSweep now => expired cfg now (pk_tenant k) ts = false
  | OpCredit _ => True
  end.

Lemma entryAt_otherReplica cfg now u i k r :
  index_wf (cfg_reservedTenants cfg) i → u_Model u ≠ pk_model k ∨ u_ReplicaID u ≠ r →
  entryAt (ingested cfg now u i) k r = entryAt i k r.
Proof.
  intros Hwf Ho. unfold ingested. set (ts := stampOr _ _). set (rt := cfg_reservedTenants cfg) in *.
  assert (entryAt (foldl (applyWrite rt (u_ReplicaID u) ts) i (updateWrites u)) k r = entryAt i k r)
    as Hx; [|rewrite <-Hx; unfold ingestStats; by destruct (u_Stats u)].
  apply (foldl_inv (λ j, index_wf rt j ∧ entryAt j k r = entryAt i k r)); [done|].
  intros j [[k' tc] tr] Hin [Hw Hx]. apply updateWrites_model in Hin. simpl in *.
  split; [by apply wf_upsert|]. rewrite entryAt_upsert by apply Hw.
  case_decide as Hd; [|done]. destruct Hd as [-> Hr], Ho; congruence.
Qed.

(** A hold of a reserved tenant survives every operation that avoids it; at most its
    access counter moves. *)
Lemma sameHold_avoids cfg op i k r e :
  index_wf (cfg_reservedTenants cfg) i →
  isReservedTenant (cfg_reservedTenants cfg) (pk_tenant k) = true →
  entryAt i k r = Some e → avoids cfg k r (lastSeen e) op →
  sameHold (Some e) (entryAt (runOp cfg op i).1 k r).
Proof.
  intros Hwf Hres He Hav. destruct op as [now u|now ev|now|res]; simpl in *.
  - destruct Hav as [Ht|[Hq Ho]].
    + destruct (entryAt_foreignIngest cfg now u i k r Hwf) as [->|(_ & Hr & _)];
        [done|by rewrite He|congruence].
    + rewrite Ingest_fst, entryAt_reportEntries. unfold enforceQuota. rewrite Hq. simpl.
      rewrite entryAt_reservedCap by auto with index_wf.
      by rewrite entryAt_otherReplica, He.
  - pose proof (f_equal st_entries (ApplyEvent_refines cfg now ev i)) as HE.
    apply (f_equal (lookup (k, r))) in HE. cbn [absIndex st_entries] in HE.
    rewrite absEntries_lookup in HE. rewrite HE. clear HE.
    assert (ev_ReplicaID ev ≠ r ∨ ¬ evictedBy ev k ∧ ¬ clearedBy ev k) as Hm.
    { unfold evictedBy, clearedBy. destruct (decide (ev_ReplicaID ev = r)); naive_solver. }
    unfold specEvent. destruct (ev_Type ev); cbn [st_entries absIndex];
      rewrite ?lookup_filter_if, absEntries_lookup, He; simpl; try done;
      case_decide as Hd; try done; destruct Hd; naive_solver congruence.
  - by rewrite entryAt_evictExpired, He; simpl; rewrite Hav.
  - rewrite entryAt_CreditHits. rewrite entryAt_locAt in He. destruct (locAt i k r); [|done].
    simpl in *. rewrite He. apply iter_bump_fields.
Qed.

(** The states between two steps of a caller, while other callers run. *)
Definition runTraffic (cfg : IndexConfig) (ops : list IndexOp) (i : Index) : Index :=
  foldl (λ i op, (runOp cfg op i).1) i ops.

Lemma wf_runTraffic cfg ops i :
  index_wf (cfg_reservedTenants cfg) i → index_wf (cfg_reservedTenants cfg) (runTraffic cfg ops i).
Proof. revert i. induction ops as [|op ops IH]; intros i Hwf; simpl; auto with index_wf. Qed.

#[export] Hint Resolve wf_runTraffic : index_wf.

Lemma sameHold_traffic cfg ops i k r e :
  index_wf (cfg_reservedTenants cfg) i →
  isReservedTenant (cfg_reservedTenants cfg) (pk_tenant k) = true →
  entryAt i k r = Some e → Forall (avoids cfg k r (lastSeen e)) ops →
  sameHold (Some e) (entryAt (runTraffic cfg ops i) k r).
Proof.
  intros Hwf Hres He Hops. revert i e Hwf He Hops.
  induction ops as [|op ops IH]; intros i e Hwf He Hops; [by cbn; rewrite He|].
  change (runTraffic cfg (op :: ops) i) with (runTraffic cfg ops (runOp cfg op i).1).
  apply Forall_cons in Hops as [Hop Hops].
  pose proof (sameHold_avoids cfg op i k r e Hwf Hres He Hop) as Hs.
  destruct (entryAt (runOp cfg op i).1 k r) as [e'|] eqn:He'; [|done].
  transitivity (Some e'); [done|]. apply IH; [by apply wf_runOp|done|].
  simpl in Hs. destruct Hs as (_ & -> & _). done.
Qed.
