(* ===== verification/IndexTheorems.v ===== *)
(** * What the index guarantees

    The properties of internal/index, proved from the component lemmas, each
    with a concrete instance where it has hypotheses. *)

From Stdlib Require Import SpecFloat.
From S2P Require Import Prelude Ordering GoRuntime Floats IndexTypes IndexAccounting IndexMetrics.
From S2P Require Import IndexEviction IndexRanking IndexIngest Samples IndexSpec IndexLookup IndexSnapshot.
From S2P Require Import IndexSystem.

(** ** The state machine *)

(** C1: in every state reachable by any interleaving of ingests, events, sweeps
    and hit credits, whatever the policy resolvers answer to each of them, each cached counter and secondary index of the index is
    exactly the quantity recomputed from the prefix map, every pointer is live
    and unshared, and every stored rate is finite. *)
Theorem reachable_index_wf cfg i g :
  reachable cfg i g → index_wf (cfg_reservedTenants cfg) i.
Proof. apply reachable_wf. Qed.

Definition sampleOps : list IndexOp :=
  [OpIngest t0 (sampleUpdate "a" "r1" [samplePrefix "p" 32]);
   OpIngest t0 (sampleUpdate "b" "r1" [sampleChain]);
   OpEvent t0 (mkEvent EventPrefixEvicted "r1" "m" "b" "b1" "" t0);
   OpSweep (t0 + Minute)].

Definition runOps (cfg : IndexConfig) (ops : list IndexOp) : Index * gmap string Z :=
  foldl (λ '(i, g) op, ((runOp cfg op i).1, applyCalls g (runOp cfg op i).2)) (emptyIndex, ∅) ops.

Lemma runOps_steps cfg ops i g :
  steps cfg ops i g
    (foldl (λ '(i, g) op, ((runOp cfg op i).1, applyCalls g (runOp cfg op i).2)) (i, g) ops).1
    (foldl (λ '(i, g) op, ((runOp cfg op i).1, applyCalls g (runOp cfg op i).2)) (i, g) ops).2.
Proof. revert i g. induction ops as [|op ops IH]; intros i g; simpl; [constructor|].
  by apply (steps_cons cfg cfg).
Qed.

Lemma runOps_reachable cfg ops : reachable cfg (runOps cfg ops).1 (runOps cfg ops).2.
Proof. exists ops. apply runOps_steps. Qed.

Lemma reachable_index_wf_witness :
  index_wf (cfg_reservedTenants sampleCfg) (runOps sampleCfg sampleOps).1 ∧
  totalEntries (runOps sampleCfg sampleOps).1 = 1.
Proof.
  split; [|vm_compute; reflexivity].
  apply (reachable_index_wf sampleCfg _ (runOps sampleCfg sampleOps).2). apply runOps_reachable.
Defined.

(** With a metrics sink attached, in every reachable state the exported
    index_entries gauge of every model equals the number of live distinct
    prefixes of that model outside the reserved tenants; a model that drained
    shows 0. *)
Theorem reachable_gauge_exact cfg i g m :
  cfg_metrics cfg = true → reachable cfg i g →
  go_get g m = zcount (λ k _, negb (isReservedTenant (cfg_reservedTenants cfg) (pk_tenant k)) &&
                              bool_decide (pk_model k = m)) (prefixes i).
Proof.
  intros Hm Hr.
  assert (index_wf (cfg_reservedTenants cfg) i ∧ gaugeExact cfg i g) as [_ [_ He]].
  { apply (reachable_invariant cfg (λ i g, index_wf (cfg_reservedTenants cfg) i ∧ gaugeExact cfg i g));
      [| |done].
    - split; [apply index_wf_empty|]. split; [done|]. intros m'. vm_compute. reflexivity.
    - intros c op j g' Hc [Hj Hg]. by apply (gaugeExact_setup cfg c). }
  rewrite He. unfold go_get. rewrite EntryCountsByModel_lookup, countOpt_get; [done|].
  apply zcount_nonneg.
Qed.

Lemma reachable_gauge_exact_witness :
  go_get (runOps sampleCfg sampleOps).2 "m" = 1.
Proof.
  rewrite (reachable_gauge_exact sampleCfg (runOps sampleCfg sampleOps).1); [|done|].
  - vm_compute. reflexivity.
  - apply runOps_reachable.
Defined.

(** Crediting a lookup after arbitrary operations ran in between only bumps
    entries whose pointer survived since the lookup: an entry that was evicted
    and re-inserted (or appeared) meanwhile is never credited, and no entry
    changes anything but its access counter. *)
Theorem credit_after_eviction_harmless cfg now req v2 v3 i0 g0 ops i1 g1 k r :
  index_wf (cfg_reservedTenants cfg) i0 → Forall is_int32 (lr_BlockTokenCounts req) →
  steps cfg ops i0 g0 i1 g1 →
  let res := LookupRoute cfg (now, i0) v2 v3 req in
  (locAt i1 k r ≠ locAt i0 k r → entryAt (CreditHits res i1) k r = entryAt i1 k r) ∧
  (∀ e, entryAt i1 k r = Some e → ∃ e', entryAt (CreditHits res i1) k r = Some e' ∧
     tokenCount e' = tokenCount e ∧ lastSeen e' = lastSeen e ∧ tier e' = tier e).
Proof.
  intros Hwf Hint Hs res. split.
  - intros Hne. rewrite entryAt_CreditHits, entryAt_locAt.
    destruct (locAt i1 k r) as [l|] eqn:Hl; [|done]. simpl.
    assert (occurrences l (hitList res) = 0%nat) as ->; [|by destruct (heap i1 !! l)].
    unfold occurrences. rewrite filter_none; [done|]. apply Forall_forall. intros l' Hin <-.
    unfold hitList in Hin. apply list_elem_of_bind in Hin as ([id ls] & Hls & Hin).
    apply elem_of_map_to_list in Hin.
    destruct (LookupRoute_hits_live cfg (now, i0) v2 v3 req id ls l Hint Hls Hin) as (h & Hh).
    destruct (locs_persist_steps _ _ _ _ _ _ Hs Hwf) as [_ Hp]. simpl in Hh.
    apply Hne. symmetry. apply (Hp k r l Hl). by eapply wf_loc_lt; [apply Hwf|].
  - intros e He. rewrite entryAt_CreditHits. rewrite entryAt_locAt in He.
    apply bind_Some in He as (l & -> & He). simpl. rewrite He. simpl.
    eexists. split; [done|]. apply iter_bump_fields.
Qed.

(** The LFU lookup below holds a pointer to ("p", "r1"); the replica is then
    cleared and reports the prefix again before the credit arrives. *)
Definition evictReadd : list IndexOp :=
  [OpEvent t0 (mkEvent EventAllCleared "r1" "m" "a" "" "" t0);
   OpIngest t0 (sampleUpdate "a" "r1" [samplePrefix "p" 32])].

Definition readdIndex : Index :=
  (foldl (λ '(i, g) op, ((runOp sampleCfg op i).1, applyCalls g (runOp sampleCfg op i).2))
     (sampleIndex, ∅) evictReadd).1.

Lemma credit_after_eviction_harmless_witness :
  let res := LookupRoute sampleCfg (t0, sampleIndex) (t0, sampleIndex) (t0, sampleIndex)
               (sampleRequest "a") in
  let key := reqKey (sampleRequest "a") "p" in
  hitList res = [1%positive] ∧ locAt readdIndex key "r1" ≠ locAt sampleIndex key "r1" ∧
  entryAt (CreditHits res readdIndex) key "r1" = entryAt readdIndex key "r1".
Proof.
  assert (locAt readdIndex (reqKey (sampleRequest "a") "p") "r1" ≠
          locAt sampleIndex (reqKey (sampleRequest "a") "p") "r1") as Hne.
  { vm_compute. discriminate. }
  split; [vm_compute; reflexivity|]. split; [exact Hne|].
  apply (credit_after_eviction_harmless sampleCfg t0 (sampleRequest "a") (t0, sampleIndex)
    (t0, sampleIndex) sampleIndex ∅ evictReadd readdIndex
    (foldl (λ '(i, g) op, ((runOp sampleCfg op i).1, applyCalls g (runOp sampleCfg op i).2))
       (sampleIndex, ∅) evictReadd).2).
  - apply sampleIndex_wf.
  - constructor.
  - apply runOps_steps.
  - exact Hne.
Defined.

(** ** Refinement of the abstract contract *)

(** C2: [Ingest] implements the abstract contract of the index: it writes the
    reported (prefix, replica) entries with the access counter preserved, records
    the sanitized stats, then drops the stalest prefixes of that tenant only, whole,
    down to its budget, and then the lowest-ranked entries of non-reserved tenants
    down to the cap, keeping nothing that ranks before something it dropped. *)
Theorem ingest_refines_spec cfg now u i :
  index_wf (cfg_reservedTenants cfg) i →
  specIngest cfg now u (absIndex i) (absIndex (Ingest cfg now u i).1).
Proof. apply Ingest_refines. Qed.

Lemma ingest_refines_spec_witness :
  specIngest sampleCfg t0 (sampleUpdate "b" "r2" [sampleChain]) (absIndex sampleIndex)
    (absIndex (Ingest sampleCfg t0 (sampleUpdate "b" "r2" [sampleChain]) sampleIndex).1) ∧
  size (st_entries (absIndex sampleIndex)) = 1%nat ∧
  size (st_entries (absIndex
    (Ingest sampleCfg t0 (sampleUpdate "b" "r2" [sampleChain]) sampleIndex).1)) = 2%nat.
Proof.
  split; [|vm_compute; done].
  apply (ingest_refines_spec sampleCfg t0 (sampleUpdate "b" "r2" [sampleChain]) sampleIndex).
  apply sampleIndex_wf.
Defined.

(** C31: [ApplyEvent] implements the abstract event: PREFIX_EVICTED removes the
    replica's holds of that hash in the (tenant, model), in one adapter partition or
    in all of them when the event names none; ALL_CLEARED removes every hold and the
    stats of the replica; REPLICA_UPDATED only refreshes liveness; PREFIX_ADDED does
    nothing.  No other entry, tenant, model or replica is touched. *)
Theorem event_refines_spec cfg now ev i :
  absIndex (ApplyEvent cfg now ev i).1 = specEvent now ev (absIndex i).
Proof. apply ApplyEvent_refines. Qed.

(** C32: the TTL sweep removes exactly the entries and the stats that aged out: those whose
    age is at least the TTL of their own tenant, which is what the tenant's policy answers when
    that is positive and the default of the server otherwise; a TTL of zero or less removes
    nothing.  Everything else is kept unchanged. *)
Theorem sweep_refines_spec cfg now i :
  absIndex (evictExpired cfg now i).1 = specSweep cfg now (absIndex i).
Proof. apply evictExpired_refines. Qed.

(** ** Eviction *)

(** Neither eviction depends on the order in which Go ranged over its maps:
    over any enumeration of the candidates the cap sweep and the quota sweep give
    the same index and the same tallies. *)
Theorem eviction_order_independent cfg t maxP i all all' :
  all ≡ₚ capRefs cfg i → all' ≡ₚ quotaRefs t i →
  enforceCapOver cfg all i = enforceCapLocked cfg i ∧
  evictOldestOver (cfg_reservedTenants cfg) t maxP all' i =
    evictOldestForTenantLocked (cfg_reservedTenants cfg) t maxP i.
Proof.
  intros Hc Hq. split.
  - unfold enforceCapLocked, enforceCapOver. case_match; [done|]. f_equal.
    symmetry. eapply (go_sort_perm (algoOK cfg)); [apply capLess_order|apply capRefs_algoOK|done].
  - unfold evictOldestForTenantLocked, evictOldestOver. case_match; [done|]. case_match; [done|].
    f_equal. symmetry. eapply (go_sort_perm (λ r, pk_tenant (qr_key r) = t));
      [apply quotaLess_order| |done].
    apply Forall_forall. by intros r (m & _ & Ht & _)%elem_of_quotaRefs.
Qed.

Lemma eviction_order_independent_witness :
  enforceCapOver sampleCfg (reverse (capRefs sampleCfg chainIndex)) chainIndex =
    enforceCapLocked sampleCfg chainIndex ∧
  evictOldestOver (cfg_reservedTenants sampleCfg) "b" 1 (reverse (quotaRefs "b" chainIndex))
    chainIndex =
    evictOldestForTenantLocked (cfg_reservedTenants sampleCfg) "b" 1 chainIndex.
Proof.
  exact (eviction_order_independent sampleCfg "b" 1 chainIndex
    (reverse (capRefs sampleCfg chainIndex)) (reverse (quotaRefs "b" chainIndex))
    (reverse_Permutation (capRefs sampleCfg chainIndex))
    (reverse_Permutation (quotaRefs "b" chainIndex))).
Defined.

(** Ingesting for a reserved tenant never evicts: while the index is within
    its cap, every entry and every counter of every other tenant is untouched. *)
Theorem reserved_ingest_isolated cfg now u i k r :
  index_wf (cfg_reservedTenants cfg) i →
  isReservedTenant (cfg_reservedTenants cfg) (u_Tenant u) = true →
  tenantQuotaFor cfg (u_Tenant u) = None →
  totalEntries i - reservedEntries i ≤ cfg_maxEntries cfg →
  pk_tenant k ≠ u_Tenant u →
  entryAt (Ingest cfg now u i).1 k r = entryAt i k r ∧
  totalEntries (Ingest cfg now u i).1 - reservedEntries (Ingest cfg now u i).1 =
    totalEntries i - reservedEntries i.
Proof.
  intros Hwf Hres Hq Hcap Hk. rewrite Ingest_fst, entryAt_reportEntries.
  set (j := enforceCapLocked _ _).
  pose proof (reportEntries_frame cfg j.1) as (_&_&_&_&->&->&_).
  unfold j, enforceQuota. rewrite Hq. simpl.
  destruct (ingested_reserved cfg now u i Hwf Hres) as [Heff Hent].
  rewrite (enforceCap_idle cfg (ingested cfg now u i)).
  - simpl. split; [by apply Hent|]. exact Heff.
  - unfold effectiveTotal in *. lia.
Qed.

Definition reservedUpdate : Update :=
  mkUpdate "__probe-b" "m" "__probe__" "vllm" "" (t0 + Second) [samplePrefix "x" 16] None.

Lemma reserved_ingest_isolated_witness :
  entryAt (Ingest sampleCfg t0 reservedUpdate chainIndex).1
    (reqKey chainRequest "b1") "r1" = entryAt chainIndex (reqKey chainRequest "b1") "r1" ∧
  totalEntries (Ingest sampleCfg t0 reservedUpdate chainIndex).1 -
    reservedEntries (Ingest sampleCfg t0 reservedUpdate chainIndex).1 =
    totalEntries chainIndex - reservedEntries chainIndex.
Proof.
  refine (reserved_ingest_isolated sampleCfg t0 reservedUpdate chainIndex _ "r1" chainIndex_wf _ _ _ _).
  - vm_compute. reflexivity.
  - vm_compute. reflexivity.
  - vm_compute. discriminate.
  - discriminate.
Defined.

(** ** Lookup *)

(** An exact lookup returns exactly the replicas that hold the requested
    (tenant, model, scheme, adapter, hash) with a fresh entry, each once, with the
    entry's token count and tier and its freshness as hit probability; nothing past
    its TTL is ever returned. *)
Theorem lookup_exact_sound_complete cfg now req i r mt tr p :
  (∃ s, s ∈ (lookupExact cfg now req i).1 ∧ s_ReplicaID s = r ∧ s_MatchedTokens s = mt ∧
        s_Tier s = tr ∧ s_EstimatedCacheHitProb s = p) ↔
  (∃ e, entryAt i (reqKey req (lr_PrefixHash req)) r = Some e ∧
        expired cfg now (lr_Tenant req) (lastSeen e) = false ∧
        fle p f32_zero = false ∧ p = freshnessAt now (lastSeen e) (ttlFor cfg (lr_Tenant req)) ∧
        mt = tokenCount e ∧ tr = tier e).
Proof.
  rewrite lookupExact_scores. setoid_rewrite elem_of_go_sort.
  setoid_rewrite list_elem_of_fmap. split.
  - intros (s & (s0 & -> & Hs0) & Hr & Hm & Ht & Hp).
    match type of Hr with s_ReplicaID (scaleBy ?d s0) = _ =>
      destruct (scaleBy_fields d s0) as (E1 & E2 & E3 & E4) end.
    rewrite E1 in Hr. rewrite E2 in Hm. rewrite E4 in Ht. rewrite E3 in Hp.
    apply elem_of_exactScores in Hs0 as (l & Hl & Hs). rewrite Hr in Hl, Hs.
    unfold exactScore in Hs. simpl in Hs. apply bind_Some in Hs as (e & He & Hs).
    destruct (fle (freshnessAt _ _ _) f32_zero) eqn:Ef; [done|]. injection Hs as <-. simpl in *.
    exists e. subst. split_and!; try done; [by rewrite entryAt_locAt, Hl|].
    unfold expired. destruct (_ && _) eqn:Ex; [|done].
    by rewrite (freshnessAt_expired _ _ _ Ex) in Ef.
  - intros (e & He & _ & Hf & Hp & Hm & Ht). rewrite entryAt_locAt in He.
    apply bind_Some in He as (l & Hl & He).
    set (s0 := mkReplicaScore r (matchScore (cfg_ranker cfg)
      (sloTightBiasCoefficient (cfg_ranker cfg) (lr_TTFTBudgetMs req))
      (pressureOf now (ttlFor cfg (lr_Tenant req)) (lr_Tenant req) (lr_Model req) r i)
      (freshnessAt now (lastSeen e) (ttlFor cfg (lr_Tenant req))) (tokenCount e))
      (tokenCount e) (freshnessAt now (lastSeen e) (ttlFor cfg (lr_Tenant req))) (tier e)).
    assert (s0 ∈ exactScores cfg now req i) as Hin.
    { apply elem_of_exactScores. exists l. split; [done|]. unfold exactScore. simpl.
      rewrite He. simpl. by rewrite <-Hp, Hf, Hp. }
    eexists (scaleBy _ s0). split; [eauto|].
    match goal with |- s_ReplicaID (scaleBy ?d s0) = _ ∧ _ =>
      destruct (scaleBy_fields d s0) as (-> & -> & -> & ->) end.
    by subst.
Qed.

(** C5: a chain lookup returns, for every replica, the longest leading run of the
    requested blocks it holds fresh: matched tokens are the (int32) sum of the
    request's counts over that run, the tier is the coldest tier of the run and the
    freshness that of its oldest block; a replica is returned exactly when that sum
    is positive. *)
Theorem lookup_chain_longest_run cfg now req i r mt tr p :
  length (lr_BlockHashes req) = length (lr_BlockTokenCounts req) →
  Forall is_int32 (lr_BlockTokenCounts req) →
  (∃ s, s ∈ (lookupChain cfg now req i).1 ∧ s_ReplicaID s = r ∧ s_MatchedTokens s = mt ∧
        s_Tier s = tr ∧ s_EstimatedCacheHitProb s = p) ↔
  let run := leadingRun now (ttlFor cfg (lr_Tenant req)) req i r (lr_BlockHashes req) in
  0 < mt ∧ mt = sum_int32 (take (length run) (lr_BlockTokenCounts req)) ∧ tr = worstOf run ∧
  p = freshnessAt now (oldestOf run) (ttlFor cfg (lr_Tenant req)).
Proof. apply lookupChain_elem. Qed.

Lemma lookup_chain_longest_run_witness :
  ∃ s, s ∈ (lookupChain sampleCfg t0 chainRequest chainIndex).1 ∧ s_ReplicaID s = "r1" ∧
       s_MatchedTokens s = 32 ∧ s_Tier s = TierT2 ∧ s_EstimatedCacheHitProb s = f32_one.
Proof.
  apply (lookup_chain_longest_run sampleCfg t0 chainRequest chainIndex "r1" 32 TierT2 f32_one).
  - vm_compute. reflexivity.
  - repeat constructor; vm_compute; discriminate.
  - vm_compute. done.
Defined.

(** The ranking does not depend on map iteration order: a NaN-free slice of
    scores with distinct replicas has exactly one sorted order, highest score first
    and ties by replica id, and [sortScoresDescByScoreThenID] returns it. *)
Theorem ranking_deterministic l l' :
  NoDup (s_ReplicaID <$> l) → Forall (λ s, is_nan (s_Score s) = false) l →
  l' ≡ₚ l → sorted_by scoreLess l' → l' = sortScoresDescByScoreThenID l.
Proof.
  intros Hnd Hok Hp Hs. eapply (go_sort_unique (λ s, s ∈ l)); [|by apply Forall_forall|done..].
  by apply scoreLess_order.
Qed.

Lemma ranking_deterministic_witness :
  let a := mkReplicaScore "a" f32_one 1 f32_one TierT1 in
  let b := mkReplicaScore "b" f32_one 1 f32_one TierT1 in
  [a; b] = sortScoresDescByScoreThenID [b; a].
Proof.
  apply ranking_deterministic.
  - apply (bool_decide_unpack _). vm_compute. done.
  - repeat constructor.
  - apply perm_swap.
  - repeat constructor.
Defined.

(** The sort-and-group walk gives each replica of a chain lookup the factor
    1 - n/total where n counts the replicas that reached at least its depth, as the
    ranking documentation defines it; nothing is lost or duplicated. *)
Theorem chain_power_reference l total :
  applyChainDistinguishingPower l total ≡ₚ
  (λ s, scaleBy (distinguishingPower
          (Z.of_nat (length (filter (λ x, s_MatchedTokens s ≤ s_MatchedTokens x) l))) total) s) <$> l.
Proof. apply applyChain_reference. Qed.

(** The pressure factor stays in [0, 1] for every pressure and weight whose
    penalty is not NaN. *)
Theorem pressure_factor_bounds pressure weight :
  is_nan (f32_sub f32_one (f32_mul weight pressure)) = false →
  fle f32_zero (pressureFactorAt pressure weight) = true ∧
  fle (pressureFactorAt pressure weight) f32_one = true.
Proof. apply pressureFactorAt_bounds. Qed.

Lemma pressure_factor_bounds_witness :
  fle f32_zero (pressureFactorAt (f32_of_Z 3) f32_one) = true ∧
  fle (pressureFactorAt (f32_of_Z 3) f32_one) f32_one = true.
Proof. apply pressure_factor_bounds. vm_compute. reflexivity. Defined.

(** The miss classifier reports exactly the outermost contract key the index
    holds nothing for: UNKNOWN_TENANT, UNKNOWN_MODEL or UNKNOWN_HASH_SCHEME, and
    NO_HINT precisely when the index is empty or holds data for all three keys. *)
Theorem classify_miss_exact cfg i g req st :
  reachable cfg i g → classifyMiss req i = st ↔ missMeaning req i st.
Proof. intros Hr. eapply classifyMiss_meaning. by eapply reachable_wf. Qed.

Lemma classify_miss_exact_witness :
  missMeaning (sampleRequest "zz") (runOps sampleCfg sampleOps).1 StrategyUnknownTenant.
Proof.
  apply (classify_miss_exact sampleCfg (runOps sampleCfg sampleOps).1
    (runOps sampleCfg sampleOps).2 (sampleRequest "zz")).
  - apply runOps_reachable.
  - vm_compute. reflexivity.
Defined.

(** The strategy of a LookupRoute determines the rest of the response: missing
    keys and malformed chains give no hint; PREFIX_MATCH carries the non-empty
    prefix result; TENANT_HOT appears only on non-chain misses, with no matched
    tokens and replicas that serve the requested scope; every other strategy has no
    scores; and only replicas in the response can be credited. *)
Theorem lookup_route_contract cfg v1 v2 v3 req rt :
  index_wf rt v2.2 → Forall is_int32 (lr_BlockTokenCounts req) →
  let res := LookupRoute cfg v1 v2 v3 req in
  hitsDelivered res ∧
  match res_Strategy res with
  | StrategyPrefixMatch =>
      res_Scores res = (lookupWithHits cfg v1.1 req v1.2).1 ∧ res_Scores res ≠ [] ∧
      keysPresent req ∧ (chainBearing req && chainMalformed req) = false
  | StrategyTenantHot =>
      chainBearing req = false ∧ res_Scores res ≠ [] ∧ res_hitsByReplica res = ∅ ∧
      ∀ s, s ∈ res_Scores res → s_MatchedTokens s = 0 ∧
        serves v2.2 (ScopeKey (lr_Tenant req) (lr_Model req) (lr_HashScheme req)) (s_ReplicaID s)
  | _ => res_Scores res = [] ∧ res_hitsByReplica res = ∅
  end.
Proof.
  intros Hwf Hint res. split; [by apply LookupRoute_delivered|]. unfold res. clear res.
  destruct (decide (keysPresent req)) as [Hk|Hk].
  2: { by rewrite LookupRoute_missing_key. }
  rewrite LookupRoute_present by done. destruct (chainBearing req && chainMalformed req) eqn:Hb; [done|].
  destruct (lookupWithHits cfg v1.1 req v1.2) as [scores hits]. simpl.
  destruct scores as [|sc scores]; [|simpl; done]. simpl.
  destruct (classifyMiss_no_scores req v3.2) as [Hn1 Hn2].
  destruct (chainBearing req); simpl; [by destruct (classifyMiss req v3.2)|].
  destruct (tenantHotCandidates cfg v2.1 req v2.2) as [|h hot] eqn:Eh; simpl.
  { by destruct (classifyMiss req v3.2). }
  split_and!; [done..|]. intros s Hs. rewrite <-Eh in Hs.
  destruct (tenantHot_sound rt cfg v2.1 req v2.2 s Hwf Hs) as (? & ? & _). done.
Qed.

Lemma lookup_route_contract_witness :
  let v := (t0, sampleIndex) in
  res_Strategy (LookupRoute sampleCfg v v v (sampleRequest "a")) = StrategyPrefixMatch ∧
  hitsDelivered (LookupRoute sampleCfg v v v (sampleRequest "a")).
Proof.
  split; [vm_compute; reflexivity|].
  apply (lookup_route_contract sampleCfg (t0, sampleIndex) (t0, sampleIndex) (t0, sampleIndex)
    (sampleRequest "a") (cfg_reservedTenants sampleCfg)).
  - apply sampleIndex_wf.
  - constructor.
Defined.

(** Affinity assigns a replica exactly when the seed and the scheme are not
    empty and some replica serves the (tenant, model, scheme), and then assigns one
    that does: whatever SHA-256 returns, the pick is in range. *)
Theorem affinity_hint_total cfg i g sha256 t m s seed :
  reachable cfg i g →
  (is_Some (AffinityHint sha256 t m s seed i) ↔
     seed ≠ "" ∧ s ≠ "" ∧ ∃ r, serves i (ScopeKey t m s) r) ∧
  (∀ r, AffinityHint sha256 t m s seed i = Some r → serves i (ScopeKey t m s) r).
Proof.
  intros Hr. apply reachable_wf in Hr. split; [by eapply AffinityHint_total|].
  intros r. by eapply AffinityHint_serves.
Qed.

Lemma affinity_hint_total_witness :
  serves (runOps sampleCfg sampleOps).1 (ScopeKey "b" "m" "vllm") "r1".
Proof.
  apply (affinity_hint_total sampleCfg (runOps sampleCfg sampleOps).1
    (runOps sampleCfg sampleOps).2 (λ s, s) "b" "m" "vllm" "seed").
  - apply runOps_reachable.
  - vm_compute. reflexivity.
Defined.

(** ** Snapshot *)

(** In a snapshot the per-tenant entry counts add up to the reported total,
    which is the number of distinct prefixes outside the reserved tenants; no row of
    a reserved tenant appears.  This holds for every order in which the stats map
    may be ranged over. *)
Theorem snapshot_totals_agree cfg enum i :
  lsum ts_IndexEntries (sn_Tenants (takeSnapshot cfg enum i)) =
    sn_TotalPrefixes (takeSnapshot cfg enum i) ∧
  sn_TotalPrefixes (takeSnapshot cfg enum i) =
    zcount (λ k _, negb (isReservedTenant (cfg_reservedTenants cfg) (pk_tenant k))) (prefixes i) ∧
  (∀ row, row ∈ sn_Tenants (takeSnapshot cfg enum i) →
     isReservedTenant (cfg_reservedTenants cfg) (ts_TenantID row) = false) ∧
  (∀ row, row ∈ sn_Replicas (takeSnapshot cfg enum i) →
     isReservedTenant (cfg_reservedTenants cfg) (rsn_Tenant row) = false).
Proof.
  split_and!.
  - apply snapshot_sum.
  - apply aggregate_Total.
  - apply snapshot_tenants_nonReserved.
  - apply snapshot_replicas_nonReserved.
Qed.

(** One replica reporting stats for two models at the same instant. *)
Definition tieIndex : Index :=
  let report m rate :=
    mkUpdate "r1" m "b" "vllm" "" t0 [] (Some (mkReplicaStats "r1" 0 rate f32_zero 0 0)) in
  (Ingest sampleCfg t0 (report "m2" f32_zero) (Ingest sampleCfg t0 (report "m1" f32_one) emptyIndex).1).1.

(** Sorting makes the order of the rows deterministic, not their contents: with equal
    timestamps the row of the replica depends on the order the stats map is ranged in. *)
Lemma snapshot_tie_depends_on_order :
  let enum := map_to_list (stats tieIndex) in
  reverse enum ≡ₚ enum ∧
  rsn_HitRate <$> sn_Replicas (takeSnapshot sampleCfg enum tieIndex) ≠
  rsn_HitRate <$> sn_Replicas (takeSnapshot sampleCfg (reverse enum) tieIndex).
Proof. split; [apply reverse_Permutation|]. vm_compute. discriminate. Qed.
