(* ===== verification/Calibration.v ===== *)
(** * Ranker calibration (index/calibration/calibration.go)

    A trace of routing observations is replayed through the index of this development
    for every point of a parameter grid; the best point and one curve per parameter are
    reported.  JSON decoding is an input of [Load]. *)

From Stdlib Require Import SpecFloat.
From S2P Require Import Prelude Ordering GoRuntime Floats IndexTypes IndexAccounting IndexMetrics.
From S2P Require Import IndexEviction IndexRanking IndexIngest IndexSpec IndexLookup.

(** ** Data *)

Definition SchemaVersion : Z := 1.
Definition maxDurationMillis : Z := (2 ^ 63 - 1) / Millisecond.
Definition ObservationPrefix : string := "prefix".
Definition ObservationTenantHot : string := "tenant_hot".

Record Provenance := mkProvenance { pv_Kind : string; pv_Source : string; pv_Description : string }.

Record Sweep := mkSweep {
  sw_PressureWeights : list f64;
  sw_SLOTightTTFTMillis : list Z;
  sw_SLOTightBiases : list f64;
  sw_TenantHotMinHitRates : list f64;
  sw_TenantHotMaxAgeMillis : list Z
}.

Record ReplicaObservation := mkReplicaObservation {
  ro_ID : string;
  ro_PrefixReportedAtMillis : Z;
  ro_StatsReportedAtMillis : Z;
  ro_ReportedPrefix : bool;
  ro_MatchedTokens : Z;
  ro_HitRate : f32;
  ro_Pressure : f32;
  ro_OutcomeAvailable : bool;
  ro_ObservedHit : bool
}.

Record Observation := mkObservation {
  ob_ID : string;
  ob_Kind : string;
  ob_AtMillis : Z;
  ob_Tenant : string;
  ob_Model : string;
  ob_HashScheme : string;
  ob_PrefixHash : string;
  ob_TokenCount : Z;
  ob_TTFTBudgetMillis : Z;
  ob_Replicas : list ReplicaObservation
}.

Record Trace := mkTrace {
  tc_SchemaVersion : Z;
  tc_Name : string;
  tc_Provenance : Provenance;
  tc_TTLMillis : Z;
  tc_Sweep : Sweep;
  tc_Observations : list Observation
}.

Record Config := mkConfig {
  cf_PressureWeight : f64;
  cf_SLOTightTTFTMillis : Z;
  cf_SLOTightBias : f64;
  cf_TenantHotMinHitRate : f64;
  cf_TenantHotMaxAgeMillis : Z
}.

Record Metrics := mkMetrics {
  me_PrefixRequests : Z;
  me_PrefixHits : Z;
  me_PrefixHitRatePct : f64;
  me_TenantHotRequests : Z;
  me_TenantHotHits : Z;
  me_TenantHotHitRatePct : f64;
  me_MacroHitRatePct : f64
}.

Record CurvePoint := mkCurvePoint { cp_Value : f64; cp_Metrics : Metrics }.

Record Result := mkResult {
  re_SchemaVersion : Z;
  re_TraceName : string;
  re_Provenance : Provenance;
  re_Observations : Z;
  re_BestConfig : Config;
  re_BestMetrics : Metrics;
  re_Curves : list (string * list CurvePoint)
}.

(** ** Validation *)

Inductive TraceError :=
  | EDecode | ETrailing
  | ESchema | EName | EKind | ESource | ETTL | ETTLRange
  | ESweepEmpty | ESweepFloat | ESweepRate | ESweepTTFT | ESweepAge | ESweepAgeRange
  | ENoObservations | EObservation (i : nat) (cause : TraceError) | EDuplicateID (i : nat)
  | EKindsMissing
  | EFields | EObsKind | ETokens | EBudget | ENoReplicas
  | EReplicaID | EPrefixTime | EStatsTime | EMatchedNegative | EMatchedZero | ERates | EOutcome
  | EDuplicateReplica.

Definition f64_zero : f64 := S754_zero false.
Definition MaxFloat32 : f64 := f64_of_Z ((2 ^ 24 - 1) * 2 ^ 104).

Definition finiteNonNegative (v : f64) : bool := negb (is_nan v) && negb (is_inf v) && fle f64_zero v.
Definition finiteNonNegativeFloat32 (v : f64) : bool := finiteNonNegative v && fle v MaxFloat32.
Definition finiteRate (v : f64) : bool := finiteNonNegative v && fle v f64_one.

Definition check (bad : bool) (e : TraceError) (k : option TraceError) : option TraceError :=
  if bad then Some e else k.

(** The first element of a list that fails. *)
Definition checkAll {A : Type} (f : A → option TraceError) (l : list A) (k : option TraceError) :
    option TraceError :=
  match head (omap f l) with Some e => Some e | None => k end.

Definition validateSweep (s : Sweep) : option TraceError :=
  check ((length (sw_PressureWeights s) =? 0)%nat || (length (sw_SLOTightTTFTMillis s) =? 0)%nat ||
         (length (sw_SLOTightBiases s) =? 0)%nat || (length (sw_TenantHotMinHitRates s) =? 0)%nat ||
         (length (sw_TenantHotMaxAgeMillis s) =? 0)%nat) ESweepEmpty
 (checkAll (λ v, check (negb (finiteNonNegativeFloat32 v)) ESweepFloat None)
    (sw_PressureWeights s ++ sw_SLOTightBiases s)
 (checkAll (λ v, check (negb (finiteRate v)) ESweepRate None) (sw_TenantHotMinHitRates s)
 (checkAll (λ v, check (v <? 0) ESweepTTFT None) (sw_SLOTightTTFTMillis s)
 (checkAll (λ v, check (v <? 0) ESweepAge (check (maxDurationMillis <? v) ESweepAgeRange None))
    (sw_TenantHotMaxAgeMillis s) None)))).

Definition validateReplica (o : Observation) (r : ReplicaObservation) : option TraceError :=
  check (str_eqb (ro_ID r) "") EReplicaID
 (check (ob_AtMillis o <? ro_PrefixReportedAtMillis r) EPrefixTime
 (check (ob_AtMillis o <? ro_StatsReportedAtMillis r) EStatsTime
 (check (ro_MatchedTokens r <? 0) EMatchedNegative
 (check (ro_ReportedPrefix r && (ro_MatchedTokens r =? 0)) EMatchedZero
 (check (negb (finiteRate (f64_of_f32 (ro_HitRate r))) || negb (finiteRate (f64_of_f32 (ro_Pressure r)))) ERates
 (check (negb (ro_OutcomeAvailable r)) EOutcome None)))))).

Fixpoint validateReplicas (o : Observation) (seen : gset string) (rs : list ReplicaObservation) :
    option TraceError :=
  match rs with
  | [] => None
  | r :: rs =>
      match validateReplica o r with
      | Some e => Some e
      | None => check (bool_decide (ro_ID r ∈ seen)) EDuplicateReplica
                  (validateReplicas o ({[ro_ID r]} ∪ seen) rs)
      end
  end.

Definition validateObservation (o : Observation) : option TraceError :=
  check (str_eqb (ob_ID o) "" || str_eqb (ob_Tenant o) "" || str_eqb (ob_Model o) "" ||
         str_eqb (ob_HashScheme o) "" || str_eqb (ob_PrefixHash o) "") EFields
 (check (negb (str_eqb (ob_Kind o) ObservationPrefix) && negb (str_eqb (ob_Kind o) ObservationTenantHot)) EObsKind
 (check (ob_TokenCount o <=? 0) ETokens
 (check (ob_TTFTBudgetMillis o <? 0) EBudget
 (check (length (ob_Replicas o) =? 0)%nat ENoReplicas
 (validateReplicas o ∅ (ob_Replicas o)))))).

Fixpoint validateObservations (i : nat) (seen : gset string) (os : list Observation) : option TraceError :=
  match os with
  | [] => None
  | o :: os =>
      match validateObservation o with
      | Some e => Some (EObservation i e)
      | None => check (bool_decide (ob_ID o ∈ seen)) (EDuplicateID i)
                  (validateObservations (S i) ({[ob_ID o]} ∪ seen) os)
      end
  end.

Definition hasKind (kind : string) (os : list Observation) : bool :=
  existsb (λ o, str_eqb (ob_Kind o) kind) os.

Definition Validate (t : Trace) : option TraceError :=
  check (negb (tc_SchemaVersion t =? SchemaVersion)) ESchema
 (check (str_eqb (tc_Name t) "") EName
 (check (negb (str_eqb (pv_Kind (tc_Provenance t)) "captured") &&
         negb (str_eqb (pv_Kind (tc_Provenance t)) "synthetic")) EKind
 (check (str_eqb (pv_Source (tc_Provenance t)) "") ESource
 (check (tc_TTLMillis t <=? 0) ETTL
 (check (maxDurationMillis <? tc_TTLMillis t) ETTLRange
 (match validateSweep (tc_Sweep t) with
  | Some e => Some e
  | None =>
      check (length (tc_Observations t) =? 0)%nat ENoObservations
      (match validateObservations 0 ∅ (tc_Observations t) with
       | Some e => Some e
       | None => check (negb (hasKind ObservationPrefix (tc_Observations t)) ||
                        negb (hasKind ObservationTenantHot (tc_Observations t))) EKindsMissing None
       end)
  end)))))).

(** The decoder's result, and whether another value follows it. *)
Definition Load (decoded : option Trace) (trailing : bool) : TraceError + Trace :=
  match decoded with
  | None => inl EDecode
  | Some t => if trailing then inl ETrailing
              else match Validate t with Some e => inl e | None => inr t end
  end.

(** ** Replay *)

Definition time_unix_milli (ms : Z) : Time := unix_epoch + ms * Millisecond.
Definition millis (ms : Z) : Duration := wrap64 (ms * Millisecond).

Definition servingOnlyHash (requested replicaID : string) : string :=
  requested +:+ String (byte_of_Z 0) replicaID.

Definition rankerOf (c : Config) : RankerConfig := {|
  PressureWeight := f32_of_f64 (cf_PressureWeight c);
  SLOTightTTFTMs := cf_SLOTightTTFTMillis c;
  SLOTightBias := f32_of_f64 (cf_SLOTightBias c);
  TenantHotMinHitRate := f32_of_f64 (cf_TenantHotMinHitRate c);
  TenantHotMaxAge := millis (cf_TenantHotMaxAgeMillis c)
|}.

Definition replayOptions (ttl : Duration) (ranker : RankerConfig) (c : IndexConfig) : IndexConfig :=
  mkIndexConfig ttl (cfg_sweepInterval c) (cfg_maxEntries c) (cfg_metrics c) ranker
    (cfg_ttlResolver c) (cfg_quotaResolver c) (cfg_evictionResolver c) (cfg_reservedTenants c).

Definition replicaUpdate (o : Observation) (r : ReplicaObservation) (ts : Time)
    (ps : list PrefixRef) (st : option ReplicaStats) : Update :=
  mkUpdate (ro_ID r) (ob_Model o) (ob_Tenant o) (ob_HashScheme o) "" ts ps st.

Definition prefixUpdate (o : Observation) (r : ReplicaObservation) : Update :=
  let hash := if negb (ro_ReportedPrefix r) then servingOnlyHash (ob_PrefixHash o) (ro_ID r)
              else ob_PrefixHash o in
  let tokens := if negb (ro_ReportedPrefix r) then 1 else ro_MatchedTokens r in
  replicaUpdate o r (time_unix_milli (ro_PrefixReportedAtMillis r))
    [mkPrefixRef hash tokens [] [] TierUnspecified ""] None.

Definition statsUpdate (o : Observation) (r : ReplicaObservation) : Update :=
  replicaUpdate o r (time_unix_milli (ro_StatsReportedAtMillis r)) []
    (Some (mkReplicaStats "" 0 (ro_HitRate r) (ro_Pressure r) 0 0)).

(** One iteration of the loop over the replicas. *)
Definition replayReplica (cfg : IndexConfig) (ttl : Duration) (o : Observation) (i : Index)
    (r : ReplicaObservation) : Index :=
  let anchor := time_unix_milli (ob_AtMillis o) in
  let i := if time_sub anchor (time_unix_milli (ro_PrefixReportedAtMillis r)) <? ttl
           then (Ingest cfg anchor (prefixUpdate o r) i).1 else i in
  if time_sub anchor (time_unix_milli (ro_StatsReportedAtMillis r)) <? ttl
  then (Ingest cfg anchor (statsUpdate o r) i).1 else i.

Definition observedHits (o : Observation) : gmap string bool :=
  foldl (λ m r, <[ro_ID r := ro_ObservedHit r]> m) ∅ (ob_Replicas o).

Definition replayRequest (o : Observation) : LookupRequest :=
  mkLookupRequest (ob_Model o) (ob_Tenant o) (ob_HashScheme o) "" (ob_PrefixHash o)
    (ob_TokenCount o) [] [] (ob_TTFTBudgetMillis o) 0.

Definition replayObservation (t : Trace) (o : Observation) (c : Config) : bool :=
  let anchor := time_unix_milli (ob_AtMillis o) in
  let ttl := millis (tc_TTLMillis t) in
  let '(cfg, idx) := New (replayOptions ttl (rankerOf c)) in
  let idx := foldl (replayReplica cfg ttl o) idx (ob_Replicas o) in
  let result := LookupRoute cfg (anchor, idx) (anchor, idx) (anchor, idx) (replayRequest o) in
  let wantStrategy := if str_eqb (ob_Kind o) ObservationTenantHot then StrategyTenantHot
                      else StrategyPrefixMatch in
  bool_decide (res_Strategy result = wantStrategy) &&
  match res_Scores result with
  | [] => false
  | s :: _ => default false (observedHits o !! s_ReplicaID s)
  end.

Definition percentage (numerator denominator : Z) : f64 :=
  if denominator =? 0 then f64_zero
  else f64_div (f64_mul (f64_of_Z numerator) (f64_of_Z 100)) (f64_of_Z denominator).

(** The counters of the first loop: (requests, hits) of both kinds. *)
Record Tally := mkTally { ta_prefix : Z; ta_prefixHits : Z; ta_hot : Z; ta_hotHits : Z }.

Definition tallyStep (t : Trace) (c : Config) (m : Tally) (o : Observation) : Tally :=
  let hit := if replayObservation t o c then 1 else 0 in
  if str_eqb (ob_Kind o) ObservationPrefix
  then mkTally (ta_prefix m + 1) (ta_prefixHits m + hit) (ta_hot m) (ta_hotHits m)
  else if str_eqb (ob_Kind o) ObservationTenantHot
  then mkTally (ta_prefix m) (ta_prefixHits m) (ta_hot m + 1) (ta_hotHits m + hit)
  else m.

Definition Replay (t : Trace) (c : Config) : Metrics :=
  let m := foldl (tallyStep t c) (mkTally 0 0 0 0) (tc_Observations t) in
  let prefixPct := percentage (ta_prefixHits m) (ta_prefix m) in
  let hotPct := percentage (ta_hotHits m) (ta_hot m) in
  let '(macro, samples) :=
    if 0 <? ta_prefix m then (f64_add f64_zero prefixPct, 1) else (f64_zero, 0) in
  let '(macro, samples) :=
    if 0 <? ta_hot m then (f64_add macro hotPct, samples + 1) else (macro, samples) in
  let macro := if 0 <? samples then f64_div macro (f64_of_Z samples) else macro in
  mkMetrics (ta_prefix m) (ta_prefixHits m) prefixPct (ta_hot m) (ta_hotHits m) hotPct macro.

(** ** The grid *)

Definition better (candidateMetrics : Metrics) (candidate : Config) (bestMetrics : Metrics)
    (best : Config) : bool :=
  if negb (feq (me_MacroHitRatePct candidateMetrics) (me_MacroHitRatePct bestMetrics))
  then flt (me_MacroHitRatePct bestMetrics) (me_MacroHitRatePct candidateMetrics)
  else if negb (feq (me_PrefixHitRatePct candidateMetrics) (me_PrefixHitRatePct bestMetrics))
  then flt (me_PrefixHitRatePct bestMetrics) (me_PrefixHitRatePct candidateMetrics)
  else if negb (feq (me_TenantHotHitRatePct candidateMetrics) (me_TenantHotHitRatePct bestMetrics))
  then flt (me_TenantHotHitRatePct bestMetrics) (me_TenantHotHitRatePct candidateMetrics)
  else if negb (feq (cf_PressureWeight candidate) (cf_PressureWeight best))
  then flt (cf_PressureWeight candidate) (cf_PressureWeight best)
  else if negb (feq (cf_SLOTightBias candidate) (cf_SLOTightBias best))
  then flt (cf_SLOTightBias candidate) (cf_SLOTightBias best)
  else if negb (cf_SLOTightTTFTMillis candidate =? cf_SLOTightTTFTMillis best)
  then cf_SLOTightTTFTMillis candidate <? cf_SLOTightTTFTMillis best
  else if negb (cf_TenantHotMaxAgeMillis candidate =? cf_TenantHotMaxAgeMillis best)
  then cf_TenantHotMaxAgeMillis candidate <? cf_TenantHotMaxAgeMillis best
  else flt (cf_TenantHotMinHitRate best) (cf_TenantHotMinHitRate candidate).

(** The five nested loops, in their order. *)
Definition grid (s : Sweep) : list Config :=
  sw_PressureWeights s ≫= λ pw, sw_SLOTightTTFTMillis s ≫= λ ttft,
  sw_SLOTightBiases s ≫= λ bias, sw_TenantHotMinHitRates s ≫= λ rate,
  (λ age, mkConfig pw ttft bias rate age) <$> sw_TenantHotMaxAgeMillis s.

Definition betterPoint (x y : Config * Metrics) : bool := better x.2 x.1 y.2 y.1.

(** [if first || better(...) { best, bestMetrics, first = candidate, metrics, false }]. *)
Definition gridStep (t : Trace) (acc : option (Config * Metrics)) (candidate : Config) :
    option (Config * Metrics) :=
  minStep betterPoint acc (candidate, Replay t candidate).

Definition zeroConfig : Config := mkConfig f64_zero 0 f64_zero f64_zero 0.
Definition zeroMetrics : Metrics := mkMetrics 0 0 f64_zero 0 0 f64_zero f64_zero.

Definition bestGridPoint (t : Trace) : Config * Metrics :=
  default (zeroConfig, zeroMetrics) (foldl (gridStep t) None (grid (tc_Sweep t))).

(** ** Curves *)

Definition floatCurve (values : list f64) (replay : f64 → Metrics) : list CurvePoint :=
  (λ v, mkCurvePoint v (replay v)) <$> go_sort flt values.

Definition intCurve (values : list Z) (replay : Z → Metrics) : list CurvePoint :=
  (λ v, mkCurvePoint (f64_of_Z v) (replay v)) <$> go_sort Z.ltb values.

Definition set_PressureWeight (v : f64) (c : Config) : Config :=
  mkConfig v (cf_SLOTightTTFTMillis c) (cf_SLOTightBias c) (cf_TenantHotMinHitRate c) (cf_TenantHotMaxAgeMillis c).
Definition set_SLOTightTTFT (v : Z) (c : Config) : Config :=
  mkConfig (cf_PressureWeight c) v (cf_SLOTightBias c) (cf_TenantHotMinHitRate c) (cf_TenantHotMaxAgeMillis c).
Definition set_SLOTightBias (v : f64) (c : Config) : Config :=
  mkConfig (cf_PressureWeight c) (cf_SLOTightTTFTMillis c) v (cf_TenantHotMinHitRate c) (cf_TenantHotMaxAgeMillis c).
Definition set_TenantHotMinHitRate (v : f64) (c : Config) : Config :=
  mkConfig (cf_PressureWeight c) (cf_SLOTightTTFTMillis c) (cf_SLOTightBias c) v (cf_TenantHotMaxAgeMillis c).
Definition set_TenantHotMaxAge (v : Z) (c : Config) : Config :=
  mkConfig (cf_PressureWeight c) (cf_SLOTightTTFTMillis c) (cf_SLOTightBias c) (cf_TenantHotMinHitRate c) v.

Definition pressureCurve (t : Trace) (best : Config) : list CurvePoint :=
  floatCurve (sw_PressureWeights (tc_Sweep t)) (λ v, Replay t (set_PressureWeight v best)).
Definition sloBiasCurve (t : Trace) (best : Config) : list CurvePoint :=
  floatCurve (sw_SLOTightBiases (tc_Sweep t)) (λ v, Replay t (set_SLOTightBias v best)).
Definition tenantHotRateCurve (t : Trace) (best : Config) : list CurvePoint :=
  floatCurve (sw_TenantHotMinHitRates (tc_Sweep t)) (λ v, Replay t (set_TenantHotMinHitRate v best)).
Definition sloThresholdCurve (t : Trace) (best : Config) : list CurvePoint :=
  intCurve (sw_SLOTightTTFTMillis (tc_Sweep t)) (λ v, Replay t (set_SLOTightTTFT v best)).
Definition tenantHotAgeCurve (t : Trace) (best : Config) : list CurvePoint :=
  intCurve (sw_TenantHotMaxAgeMillis (tc_Sweep t)) (λ v, Replay t (set_TenantHotMaxAge v best)).

Definition Calibrate (t : Trace) : Result :=
  let '(bestConfig, bestMetrics) := bestGridPoint t in
  mkResult SchemaVersion (tc_Name t) (tc_Provenance t) (Z.of_nat (length (tc_Observations t)))
    bestConfig bestMetrics
    [("pressure_weight", pressureCurve t bestConfig);
     ("slo_tight_ttft_ms", sloThresholdCurve t bestConfig);
     ("slo_tight_bias", sloBiasCurve t bestConfig);
     ("tenant_hot_min_hit_rate", tenantHotRateCurve t bestConfig);
     ("tenant_hot_max_age_ms", tenantHotAgeCurve t bestConfig)].

(** ** The counters *)

Definition tally_ok (m : Tally) : Prop :=
  0 ≤ ta_prefixHits m ≤ ta_prefix m ∧ 0 ≤ ta_hotHits m ≤ ta_hot m.

Definition tallyOf (t : Trace) (c : Config) (os : list Observation) : Tally :=
  foldl (tallyStep t c) (mkTally 0 0 0 0) os.

Lemma tally_total t c os :
  Forall (λ o, ob_Kind o = ObservationPrefix ∨ ob_Kind o = ObservationTenantHot) os →
  let m := tallyOf t c os in
  tally_ok m ∧ ta_prefix m + ta_hot m = Z.of_nat (length os).
Proof.
  induction os as [|o os IH] using rev_ind; intros Hk; [by vm_compute|].
  apply Forall_app in Hk as [Hk [Ho _]%Forall_cons]. specialize (IH Hk).
  unfold tallyOf in *. rewrite foldl_app, length_app. cbn [foldl length]. revert IH.
  generalize (foldl (tallyStep t c) (mkTally 0 0 0 0) os) as m. intros m [Hm Hlen].
  unfold tallyStep, tally_ok in *. set (hit := if replayObservation t o c then 1 else 0).
  assert (0 ≤ hit ≤ 1) by (unfold hit; destruct (replayObservation t o c); lia).
  destruct (str_eqb (ob_Kind o) ObservationPrefix) eqn:E1; simpl; [lia|].
  destruct (str_eqb (ob_Kind o) ObservationTenantHot) eqn:E2; simpl; [lia|].
  apply str_eqb_neq in E1, E2. tauto.
Qed.

Lemma tally_step_ok t c os m : tally_ok m → tally_ok (foldl (tallyStep t c) m os).
Proof.
  intros Hm. apply foldl_inv; [done|]. clear m Hm. intros m o _ Hm. unfold tallyStep, tally_ok in *.
  destruct (replayObservation t o c), (str_eqb (ob_Kind o) ObservationPrefix),
    (str_eqb (ob_Kind o) ObservationTenantHot); simpl; lia.
Qed.

Lemma tally_bound t c os :
  ta_prefix (tallyOf t c os) ≤ Z.of_nat (length os) ∧ ta_hot (tallyOf t c os) ≤ Z.of_nat (length os).
Proof.
  induction os as [|o os IH] using rev_ind; [by vm_compute|].
  unfold tallyOf in *. rewrite foldl_app, length_app. cbn [foldl length]. revert IH.
  generalize (foldl (tallyStep t c) (mkTally 0 0 0 0) os) as m. intros m IH. unfold tallyStep.
  destruct (str_eqb (ob_Kind o) ObservationPrefix), (str_eqb (ob_Kind o) ObservationTenantHot);
    simpl; lia.
Qed.

(** ** The metrics are numbers *)

Definition metrics_ok (m : Metrics) : Prop :=
  not_nan (me_MacroHitRatePct m) ∧ not_nan (me_PrefixHitRatePct m) ∧ not_nan (me_TenantHotHitRatePct m).

Lemma percentage_nonneg n d : 0 ≤ n ≤ d → d < 2 ^ 63 → nonneg_f (percentage n d).
Proof.
  intros Hn Hd. unfold percentage. destruct (Z.eqb_spec d 0); [done|].
  destruct (f64_of_Z_finite d) as (m & e & ->); [lia|].
  apply f64_div_nonneg, f64_mul_nonneg; [apply f64_of_Z_nonneg; lia|by apply f64_of_Z_nonneg| |by vm_compute].
  apply f64_of_Z_neg_finite. lia.
Qed.

Lemma Replay_metrics t c :
  Z.of_nat (length (tc_Observations t)) < 2 ^ 63 → metrics_ok (Replay t c).
Proof.
  intros Hlen. unfold Replay.
  pose proof (tally_step_ok t c (tc_Observations t) (mkTally 0 0 0 0) ltac:(by vm_compute)) as [Hp Hh].
  pose proof (tally_bound t c (tc_Observations t)) as [Bp Bh]. unfold tallyOf in Bp, Bh.
  set (m := foldl _ _ _) in *.
  pose proof (percentage_nonneg (ta_prefixHits m) (ta_prefix m) Hp ltac:(lia)) as Np.
  pose proof (percentage_nonneg (ta_hotHits m) (ta_hot m) Hh ltac:(lia)) as Nh.
  set (p := percentage (ta_prefixHits m) _) in *. set (h := percentage (ta_hotHits m) _) in *.
  assert (∀ x n, 0 < n < 3 → nonneg_f x → nonneg_f (f64_div x (f64_of_Z n))) as Hdiv.
  { intros x n Hn Hx. destruct (f64_of_Z_finite n) as (m' & e & ->); [lia|]. by apply f64_div_nonneg. }
  unfold metrics_ok.
  destruct (0 <? ta_prefix m), (0 <? ta_hot m); cbn -[f64_div f64_add f64_of_Z];
    split_and!; apply nonneg_not_nan; try done;
    repeat first [apply Hdiv; [lia|] | apply f64_add_nonneg]; done.
Qed.

(** ** The order of grid points *)

Abbreviation point := (Config * Metrics)%type.

Definition pointCmp : point → point → comparison :=
  cmp_lex (cmp_flip (cmp_on (λ x, me_MacroHitRatePct x.2) fcmp))
 (cmp_lex (cmp_flip (cmp_on (λ x, me_PrefixHitRatePct x.2) fcmp))
 (cmp_lex (cmp_flip (cmp_on (λ x, me_TenantHotHitRatePct x.2) fcmp))
 (cmp_lex (cmp_on (λ x, cf_PressureWeight x.1) fcmp)
 (cmp_lex (cmp_on (λ x, cf_SLOTightBias x.1) fcmp)
 (cmp_lex (cmp_on (λ x, cf_SLOTightTTFTMillis x.1) Z.compare)
 (cmp_lex (cmp_on (λ x, cf_TenantHotMaxAgeMillis x.1) Z.compare)
          (cmp_flip (cmp_on (λ x, cf_TenantHotMinHitRate x.1) fcmp)))))))).

Definition config_ok (c : Config) : Prop :=
  not_nan (cf_PressureWeight c) ∧ not_nan (cf_SLOTightBias c) ∧ not_nan (cf_TenantHotMinHitRate c).

Definition point_ok (x : point) : Prop := config_ok x.1 ∧ metrics_ok x.2.

Lemma total_on_float (f : point → f64) :
  (∀ x, point_ok x → not_nan (f x)) → TotalCmp point_ok (cmp_on f fcmp).
Proof.
  intros Hf. apply (total_cmp_weaken point_ok (λ x, not_nan (f x))); [|done].
  apply (total_cmp_on f not_nan), _.
Qed.

Lemma total_on_Z (f : point → Z) : TotalCmp point_ok (cmp_on f Z.compare).
Proof.
  apply (total_cmp_weaken point_ok (λ _, True)); [|done].
  apply (total_cmp_on f (λ _, True)), _.
Qed.

#[export] Instance pointCmp_total : TotalCmp point_ok pointCmp.
Proof.
  unfold pointCmp.
  do 3 (apply total_cmp_lex; [apply total_cmp_flip, total_on_float; by intros x [(?&?&?) (?&?&?)]|]).
  do 2 (apply total_cmp_lex; [apply total_on_float; by intros x [(?&?&?) (?&?&?)]|]).
  do 2 (apply total_cmp_lex; [apply total_on_Z|]).
  apply total_cmp_flip, total_on_float. by intros x [(?&?&?) (?&?&?)].
Qed.

Lemma flt_fcmp x y : flt x y = less_of fcmp x y.
Proof. unfold flt, SFltb, less_of, fcmp. by destruct (SFcompare x y) as [[]|]. Qed.

Lemma better_cmp x y :
  point_ok x → point_ok y → better x.2 x.1 y.2 y.1 = less_of pointCmp x y.
Proof.
  intros [(?&?&?) (?&?&?)] [(?&?&?) (?&?&?)]. unfold better.
  rewrite !less_step_float_desc, !less_step_float_asc, !less_step_Z by done.
  rewrite flt_fcmp. unfold pointCmp. rewrite !less_of_lex. unfold cmp_flip, cmp_on, less_of. done.
Qed.

(** ** The best point *)

Lemma betterPoint_asym x y : point_ok x → point_ok y → betterPoint x y = true → betterPoint y x = false.
Proof.
  intros Hx Hy. unfold betterPoint. rewrite !better_cmp by done. unfold less_of.
  rewrite (cmp_antisym (P:=point_ok) x y). by destruct (pointCmp x y).
Qed.

Lemma betterPoint_ntrans x y z :
  point_ok x → point_ok y → point_ok z →
  betterPoint y x = false → betterPoint z y = false → betterPoint z x = false.
Proof.
  intros Hx Hy Hz. unfold betterPoint. rewrite !better_cmp by done.
  apply (less_of_ntrans point_ok); [apply _|done..].
Qed.

Lemma foldl_gridStep t cs acc :
  foldl (gridStep t) acc cs = foldl (minStep betterPoint) acc ((λ c, (c, Replay t c)) <$> cs).
Proof. revert acc. induction cs as [|c cs IH]; intros acc; [done|apply IH]. Qed.

Lemma grid_best t cs :
  Z.of_nat (length (tc_Observations t)) < 2 ^ 63 → Forall config_ok cs → cs ≠ [] →
  ∃ b, foldl (gridStep t) None cs = Some b ∧ b.1 ∈ cs ∧ b.2 = Replay t b.1 ∧
    ∀ c, c ∈ cs → better (Replay t c) c b.2 b.1 = false.
Proof.
  intros Hlen Hcs Hne. rewrite foldl_gridStep. set (pts := (λ c, (c, Replay t c)) <$> cs).
  assert (Forall point_ok pts) as Hpts.
  { apply Forall_fmap. eapply Forall_impl; [done|]. intros c Hc. split; [done|by apply Replay_metrics]. }
  pose proof (minStep_fold point_ok betterPoint pts None
    betterPoint_asym betterPoint_ntrans Hpts ltac:(intros ? [=])) as H.
  destruct (foldl (minStep betterPoint) None pts) as [b|].
  - destruct H as ([?|Hin] & _ & Hmin); [done|].
    apply list_elem_of_fmap in Hin as (c & -> & Hc). exists (c, Replay t c). cbn [fst snd] in *.
    split_and!; [reflexivity|done|reflexivity|].
    intros c' Hc'. apply (Hmin (c', Replay t c')). right. apply list_elem_of_fmap. by exists c'.
  - destruct H as [_ H]. by apply fmap_nil_inv in H.
Qed.

(** ** Validated traces *)

Lemma check_None b e k : check b e k = None ↔ b = false ∧ k = None.
Proof. unfold check. destruct b; naive_solver. Qed.

Lemma checkAll_None {A : Type} (f : A → option TraceError) l k :
  checkAll f l k = None ↔ Forall (λ x, f x = None) l ∧ k = None.
Proof.
  unfold checkAll. split.
  - destruct (head (omap f l)) eqn:E; [done|]. intros ->. split; [|done].
    induction l as [|x l IH]; [constructor|]. cbn [omap list_omap] in E.
    destruct (f x) eqn:Ef; [done|]. constructor; auto.
  - intros [Hl ->]. assert (omap f l = []) as ->; [|done].
    induction Hl as [|x l Hx Hl IH]; [done|]. cbn [omap list_omap]. by rewrite Hx.
Qed.

Lemma finiteNonNegative_not_nan v : finiteNonNegative v = true → not_nan v.
Proof. unfold finiteNonNegative, not_nan. by destruct (is_nan v). Qed.

Lemma validateSweep_grid s : validateSweep s = None → Forall config_ok (grid s) ∧ grid s ≠ [].
Proof.
  unfold validateSweep. rewrite check_None, !checkAll_None. intros (Hne & Hf & Hr & _).
  rewrite !orb_false_iff, !Nat.eqb_neq in Hne. split.
  - apply Forall_app in Hf as [Hpw Hb]. rewrite Forall_forall in Hpw, Hb, Hr.
    apply Forall_forall. intros c. unfold grid. rewrite list_elem_of_bind.
    intros (pw & Hc & Hin1). apply list_elem_of_bind in Hc as (ttft & Hc & _).
    apply list_elem_of_bind in Hc as (bias & Hc & Hin2). apply list_elem_of_bind in Hc as (rate & Hc & Hin3).
    apply list_elem_of_fmap in Hc as (age & -> & _).
    specialize (Hpw pw Hin1). specialize (Hb bias Hin2). specialize (Hr rate Hin3).
    rewrite check_None, negb_false_iff in Hpw, Hb, Hr.
    unfold finiteNonNegativeFloat32, finiteRate in *. rewrite andb_true_iff in *.
    split_and!; simpl; apply finiteNonNegative_not_nan; tauto.
  - destruct s as [[|a1 ?] [|a2 ?] [|a3 ?] [|a4 ?] [|a5 ?]]; simpl in Hne; try tauto. done.
Qed.

Lemma Validate_sweep t : Validate t = None → validateSweep (tc_Sweep t) = None.
Proof.
  unfold Validate. rewrite !check_None. intros (_ & _ & _ & _ & _ & _ & H).
  by destruct (validateSweep (tc_Sweep t)).
Qed.

Lemma validateObservations_Forall i seen os :
  validateObservations i seen os = None → Forall (λ o, validateObservation o = None) os.
Proof.
  revert i seen. induction os as [|o os IH]; intros i seen; simpl; [constructor|].
  destruct (validateObservation o) eqn:E; [done|]. rewrite check_None. intros [_ H]. constructor; eauto.
Qed.

Lemma Validate_observations t :
  Validate t = None → Forall (λ o, validateObservation o = None) (tc_Observations t).
Proof.
  unfold Validate. rewrite !check_None. intros (_ & _ & _ & _ & _ & _ & H).
  destruct (validateSweep (tc_Sweep t)); [done|]. rewrite check_None in H. destruct H as [_ H].
  destruct (validateObservations 0 ∅ (tc_Observations t)) eqn:E; [done|].
  by eapply validateObservations_Forall.
Qed.

Lemma validateReplicas_NoDup o seen rs :
  validateReplicas o seen rs = None →
  NoDup (ro_ID <$> rs) ∧ (∀ id, id ∈ ro_ID <$> rs → id ∉ seen).
Proof.
  revert seen. induction rs as [|r rs IH]; intros seen; simpl.
  { intros _. split; [constructor|]. by intros ? ?%elem_of_nil. }
  destruct (validateReplica o r); [done|]. rewrite check_None, bool_decide_eq_false.
  intros [Hni H]. destruct (IH _ H) as [Hnd Hs]. split.
  - constructor; [|done]. intros Hin. apply Hs in Hin. set_solver.
  - intros id [->|Hin]%elem_of_cons; [done|]. apply Hs in Hin. set_solver.
Qed.

Lemma observation_facts o :
  validateObservation o = None →
  (ob_Kind o = ObservationPrefix ∨ ob_Kind o = ObservationTenantHot) ∧ NoDup (ro_ID <$> ob_Replicas o).
Proof.
  unfold validateObservation. rewrite !check_None. intros (_ & Hk & _ & _ & _ & Hr). split.
  - rewrite andb_false_iff, !negb_false_iff, !str_eqb_eq in Hk. done.
  - by eapply validateReplicas_NoDup.
Qed.

(** ** What a counted hit means *)

Lemma writes_origin (rr : string) (ts : Time) (ws : list Write) (E : entries) (k : prefixKey) (r : string) (e : replicaEntry) :
  foldl (specWrite rr ts) E ws !! (k, r) = Some e →
  E !! (k, r) = Some e ∨ r = rr ∧ k ∈ (λ w, w.1.1) <$> ws.
Proof.
  induction ws as [|[[k' tc] tr] ws IH] using rev_ind; [by left|].
  rewrite foldl_app, fmap_app, elem_of_app. simpl.
  intros [[[= -> ->] _]|[_ H]]%lookup_insert_Some; [right; split; [done|right; left]|].
  destruct (IH H) as [?|[-> ?]]; [by left|right; split; [done|by left]].
Qed.

Lemma Ingest_origin cfg now u i k r e :
  index_wf (cfg_reservedTenants cfg) i →
  entryAt (Ingest cfg now u i).1 k r = Some e →
  entryAt i k r = Some e ∨ r = u_ReplicaID u ∧ k ∈ (λ w, w.1.1) <$> updateWrites u.
Proof.
  intros Hwf He. destruct (Ingest_refines cfg now u i Hwf) as (E2 & Hq & (D & _ & _ & Hcap & _) & _).
  rewrite <-absEntries_lookup in He. simpl in Hcap. rewrite Hcap in He.
  apply map_lookup_filter_Some in He as [He _].
  rewrite <-(absEntries_lookup i). eapply writes_origin.
  destruct (tenantQuotaFor cfg (u_Tenant u)); [|by rewrite <-Hq in He].
  destruct Hq as (D' & _ & _ & -> & _). by apply map_lookup_filter_Some in He as [He _].
Qed.

Lemma servingOnlyHash_ne h id : servingOnlyHash h id ≠ h.
Proof.
  unfold servingOnlyHash. intros E. apply (f_equal String.length) in E. revert E.
  induction h as [|a h IH]; simpl; [done|]. intros [= E]. by apply IH.
Qed.

(** A replica that reported the observation's prefix recently enough. *)
Definition reportedFresh (t : Trace) (o : Observation) (r : ReplicaObservation) : Prop :=
  ro_ReportedPrefix r = true ∧
  time_sub (time_unix_milli (ob_AtMillis o)) (time_unix_milli (ro_PrefixReportedAtMillis r)) <
    millis (tc_TTLMillis t).

Definition replayKey (o : Observation) : prefixKey := reqKey (replayRequest o) (ob_PrefixHash o).

Lemma prefixUpdate_key o r k :
  k ∈ (λ w, w.1.1) <$> updateWrites (prefixUpdate o r) → k = replayKey o → ro_ReportedPrefix r = true.
Proof.
  unfold updateWrites. destruct (decide _); [by intros ?%elem_of_nil|]. simpl.
  destruct (ro_ReportedPrefix r); [done|]. simpl. unfold prefixWrites. simpl.
  intros [->|?%elem_of_nil]%elem_of_cons; [|done]. unfold replayKey, reqKey. simpl. intros [= E].
  by apply servingOnlyHash_ne in E.
Qed.

Lemma replay_origin t o cfg rs :
  let ttl := millis (tc_TTLMillis t) in
  let idx := foldl (replayReplica cfg ttl o) emptyIndex rs in
  index_wf (cfg_reservedTenants cfg) idx ∧
  ∀ r e, entryAt idx (replayKey o) r = Some e →
    ∃ ro, ro ∈ rs ∧ ro_ID ro = r ∧ reportedFresh t o ro.
Proof.
  intros ttl. induction rs as [|ro rs [Hwf IH]] using rev_ind; intros idx.
  { split; [apply index_wf_empty|]. intros r e H. by vm_compute in H. }
  unfold idx. rewrite foldl_app. cbn [foldl]. set (i := foldl _ emptyIndex rs) in *.
  unfold replayReplica. set (anchor := time_unix_milli (ob_AtMillis o)).
  set (i1 := if time_sub anchor (time_unix_milli (ro_PrefixReportedAtMillis ro)) <? ttl then _ else i).
  assert (index_wf (cfg_reservedTenants cfg) i1 ∧ ∀ r e, entryAt i1 (replayKey o) r = Some e →
    ∃ ro', ro' ∈ rs ++ [ro] ∧ ro_ID ro' = r ∧ reportedFresh t o ro') as [Hwf1 H1].
  { unfold i1. destruct (Z.ltb_spec (time_sub anchor (time_unix_milli (ro_PrefixReportedAtMillis ro))) ttl).
    - split; [by apply wf_Ingest|]. intros r e [He|[-> Hk]]%Ingest_origin; [| |done].
      + destruct (IH r e He) as (ro' & ? & ?). exists ro'. rewrite elem_of_app. auto.
      + exists ro. rewrite elem_of_app, list_elem_of_singleton. split_and!; [by right|done|].
        split; [by eapply prefixUpdate_key|done].
    - split; [done|]. intros r e He. destruct (IH r e He) as (ro' & ? & ?).
      exists ro'. rewrite elem_of_app. auto. }
  destruct (time_sub anchor (time_unix_milli (ro_StatsReportedAtMillis ro)) <? ttl); [|by split].
  split; [by apply wf_Ingest|].
  intros r e [He|[_ Hk]]%Ingest_origin; [by eauto| |done].
  unfold updateWrites in Hk. destruct (decide _); simpl in Hk; by apply elem_of_nil in Hk.
Qed.

Lemma observedHits_spec rs (m : gmap string bool) id b :
  NoDup (ro_ID <$> rs) →
  foldl (λ m r, <[ro_ID r := ro_ObservedHit r]> m) m rs !! id = Some b →
  (∀ r, r ∈ rs → ro_ID r = id → ro_ObservedHit r = b).
Proof.
  induction rs as [|r rs IH] using rev_ind; [by intros _ _ ? ?%elem_of_nil|].
  rewrite fmap_app, foldl_app. intros (Hnd & Hdis & _)%NoDup_app. simpl.
  intros H r' [Hr'|Hr']%elem_of_app Hid.
  - rewrite lookup_insert_ne in H; [by apply IH|]. intros E.
    apply (Hdis (ro_ID r')); [by apply list_elem_of_fmap; eauto|]. rewrite Hid, <-E. simpl. left.
  - apply list_elem_of_singleton in Hr' as ->. rewrite Hid, lookup_insert_eq in H. by injection H.
Qed.

(** For a valid trace, Calibrate reports a point of the grid together with the metrics of
    replaying it, no point of the grid is better (more hits, then the least invasive settings),
    and every replay counts each observation once with at most as many hits as requests. *)
Theorem calibrate_best_optimal t :
  Validate t = None → Z.of_nat (length (tc_Observations t)) < 2 ^ 63 →
  let r := Calibrate t in
  re_BestConfig r ∈ grid (tc_Sweep t) ∧ re_BestMetrics r = Replay t (re_BestConfig r) ∧
  (∀ c, c ∈ grid (tc_Sweep t) → better (Replay t c) c (re_BestMetrics r) (re_BestConfig r) = false) ∧
  (∀ c, let m := Replay t c in
    me_PrefixRequests m + me_TenantHotRequests m = Z.of_nat (length (tc_Observations t)) ∧
    0 ≤ me_PrefixHits m ≤ me_PrefixRequests m ∧ 0 ≤ me_TenantHotHits m ≤ me_TenantHotRequests m).
Proof.
  intros Hv Hlen r. unfold r, Calibrate, bestGridPoint.
  destruct (validateSweep_grid _ (Validate_sweep t Hv)) as [Hok Hne].
  destruct (grid_best t _ Hlen Hok Hne) as ([b m] & -> & Hin & Hm & Hbest). simpl in *.
  split_and!; [done..|]. intros c.
  destruct (tally_total t c (tc_Observations t)) as [[Hp Hh] Htot].
  { eapply Forall_impl; [by apply Validate_observations|]. intros o Ho. by apply observation_facts. }
  unfold Replay. fold (tallyOf t c (tc_Observations t)).
  set (ta := tallyOf t c (tc_Observations t)) in *.
  by destruct (0 <? ta_prefix ta), (0 <? ta_hot ta).
Qed.

(** Without prefix scores the strategy is tenant-hot or a miss, never the one a prefix
    observation wants. *)
Lemma replay_no_scores (hot : list ReplicaScore) req i (k : bool) :
  bool_decide (res_Strategy (if (0 <? length hot)%nat then mkLookupResult hot StrategyTenantHot ∅
                             else resultOf (classifyMiss req i)) = StrategyPrefixMatch) && k = true →
  False.
Proof.
  intros [H%bool_decide_eq_true _]%andb_true_iff. destruct hot; simpl in H; [|done].
  revert H. unfold classifyMiss. by repeat case_match.
Qed.

(** A prefix observation of a valid trace counts as a hit only when some replica reported
    exactly the requested prefix, recently enough for the trace's TTL, and its observed outcome
    was a hit: replicas that only serve the model are never mistaken for holders. *)
Theorem replay_prefix_hit_sound t o c :
  Validate t = None → o ∈ tc_Observations t → ob_Kind o = ObservationPrefix →
  replayObservation t o c = true →
  ∃ r, r ∈ ob_Replicas o ∧ reportedFresh t o r ∧ ro_ObservedHit r = true.
Proof.
  intros Hv Ho Hk. apply Validate_observations in Hv. rewrite Forall_forall in Hv.
  destruct (observation_facts o (Hv o Ho)) as [_ Hnd]. unfold replayObservation. rewrite Hk. simpl.
  set (cfg := (New (replayOptions (millis (tc_TTLMillis t)) (rankerOf c))).1).
  change (mkIndexConfig _ _ _ _ _ _ _ _ _) with cfg.
  destruct (replay_origin t o cfg (ob_Replicas o)) as [_ Horig]. simpl in Horig.
  set (idx := foldl _ emptyIndex (ob_Replicas o)) in *.
  unfold LookupRoute, chainBearing. simpl.
  destruct (_ || _); [done|]. unfold lookupWithHits, chainBearing. simpl.
  destruct (str_eqb (ob_HashScheme o) ""); simpl; [by intros ?%replay_no_scores|].
  destruct (lookupExact cfg _ (replayRequest o) idx) as [scores hits] eqn:El.
  destruct scores as [|s scores]; simpl; [by intros ?%replay_no_scores|].
  intros Hobs. apply (f_equal fst) in El. rewrite lookupExact_scores in El. simpl in El.
  assert (s ∈ go_sort scoreLess (scaleBy (distinguishingPower (Z.of_nat (length (exactScores cfg
    (time_unix_milli (ob_AtMillis o)) (replayRequest o) idx))) (totalReplicas idx (ob_Tenant o)
    (ob_Model o) (ob_HashScheme o))) <$> exactScores cfg (time_unix_milli (ob_AtMillis o))
    (replayRequest o) idx)) as Hs by (rewrite El; left).
  rewrite elem_of_go_sort, list_elem_of_fmap in Hs. destruct Hs as (s0 & -> & Hs0).
  rewrite (proj1 (scaleBy_fields _ s0)) in Hobs.
  apply elem_of_exactScores in Hs0 as (l & Hl & Hsc). unfold exactScore in Hsc.
  apply bind_Some in Hsc as (e & He & _). simpl in He.
  destruct (Horig (s_ReplicaID s0) e) as (ro & Hin & Hid & Hfresh).
  { rewrite entryAt_locAt. unfold replayKey. simpl in Hl. by rewrite Hl. }
  exists ro. split_and!; [done|done|].
  destruct (observedHits o !! s_ReplicaID s0) as [b|] eqn:Eb; simpl in Hobs; [|done]. subst b.
  by apply (observedHits_spec (ob_Replicas o) ∅ (s_ReplicaID s0)).
Qed.

(** ** Witnesses *)

Definition sampleReplica (id : string) (reported hit : bool) : ReplicaObservation :=
  mkReplicaObservation id 900 900 reported 64 (f32_of_f64 f64_one) (S754_zero false) true hit.

Definition samplePrefixObs : Observation :=
  mkObservation "o1" ObservationPrefix 1000 "t" "m" "h" "p" 64 200
    [sampleReplica "a" true true; sampleReplica "b" false false].

Definition sampleHotObs : Observation :=
  mkObservation "o2" ObservationTenantHot 1000 "t" "m" "h" "p" 64 200 [sampleReplica "a" false true].

Definition sampleTrace : Trace :=
  mkTrace 1 "trace" (mkProvenance "synthetic" "test" "") 60000
    (mkSweep [f64_zero; f64_one] [100] [f64_one] [f64_one] [5000]) [samplePrefixObs; sampleHotObs].

Definition sampleConfig : Config := mkConfig f64_one 100 f64_one f64_one 5000.

Lemma calibrate_best_optimal_witness :
  re_BestConfig (Calibrate sampleTrace) = mkConfig f64_zero 100 f64_one f64_one 5000 ∧
  better (Replay sampleTrace sampleConfig) sampleConfig (re_BestMetrics (Calibrate sampleTrace))
    (re_BestConfig (Calibrate sampleTrace)) = false.
Proof.
  split; [vm_compute; reflexivity|].
  apply (proj1 (proj2 (proj2 (calibrate_best_optimal sampleTrace
    ltac:(vm_compute; reflexivity) ltac:(vm_compute; reflexivity))))).
  vm_compute. right; left.
Defined.

Lemma replay_prefix_hit_sound_witness :
  ∃ r, r ∈ ob_Replicas samplePrefixObs ∧ reportedFresh sampleTrace samplePrefixObs r ∧
       ro_ObservedHit r = true.
Proof.
  apply (replay_prefix_hit_sound sampleTrace samplePrefixObs sampleConfig);
    [vm_compute; reflexivity|left|reflexivity|vm_compute; reflexivity].
Defined.
