(* ===== verification/K8s.v ===== *)
(** * Kubernetes objects as the controllers and webhooks see them

    Objects are named by (namespace, name); an apiserver stores at most one object per
    name, so a listed slice has distinct names.  [leastBy] is the reference for the
    deterministic tie-breaks of the controllers: the least selected object by
    (namespace, name), whatever order the slice is in. *)

From S2P Require Import Prelude Ordering GoRuntime.

(** types.NamespacedName. *)
Abbreviation NamespacedName := (string * string)%type.

(** [NamespacedName.String]. *)
Definition nnString (n : NamespacedName) : string := n.1 +:+ "/" +:+ n.2.

(** [client.List]: the items, "kind not found" (the CRD is not installed), or an error. *)
Inductive ListResult (A : Type) :=
  | ListOK (items : list A)
  | ListNotFound
  | ListErr.
Arguments ListOK {A} items.
Arguments ListNotFound {A}.
Arguments ListErr {A}.

(** [client.Get]. *)
Inductive GetResult (A : Type) :=
  | GetOK (obj : A)
  | GetNotFound
  | GetErr.
Arguments GetOK {A} obj.
Arguments GetNotFound {A}.
Arguments GetErr {A}.

(** [os.ReadFile]. *)
Inductive FileRead :=
  | FileData (b : string)
  | FileMissing
  | FileErr.

(** ** Order by (namespace, name) *)

Definition nnCmp (a b : NamespacedName) : comparison :=
  cmp_lex (cmp_on fst String.compare) (cmp_on snd String.compare) a b.

(** [if a.Namespace != b.Namespace { return a.Namespace < b.Namespace }; return a.Name < b.Name]. *)
Definition nnLess {A : Type} (key : A → NamespacedName) (a b : A) : bool :=
  if negb (str_eqb (key a).1 (key b).1) then str_lt (key a).1 (key b).1
  else str_lt (key a).2 (key b).2.

Lemma NoDup_fmap_filter {A B : Type} (key : A → B) (sel : A → bool) l :
  NoDup (key <$> l) → NoDup (key <$> List.filter sel l).
Proof.
  induction l as [|x l IH]; [done|]. simpl. intros [Hx Hl]%NoDup_cons.
  destruct (sel x); [|by apply IH]. simpl. apply NoDup_cons. split; [|by apply IH].
  intros Hin. apply Hx. apply list_elem_of_fmap in Hin as (y & -> & [_ Hy]%elem_of_List_filter).
  apply list_elem_of_fmap. eauto.
Qed.

Section keyed.
Context {A : Type} (key : A → NamespacedName).

Lemma nnLess_cmp a b : nnLess key a b = less_of (cmp_on key nnCmp) a b.
Proof.
  unfold nnLess, str_eqb, str_lt. rewrite less_step_string.
  unfold cmp_on at 1, nnCmp, less_of, cmp_lex, cmp_on.
  by destruct (String.compare _ _).
Qed.

Lemma nnCmp_total : TotalCmp (λ _ : NamespacedName, True) nnCmp.
Proof.
  apply (total_cmp_lex (λ _, True)).
  - apply (total_cmp_on fst (λ _, True)), total_cmp_string.
  - apply (total_cmp_on snd (λ _, True)), total_cmp_string.
Qed.

Lemma nnCmp_eq a b : nnCmp a b = Eq → a = b.
Proof.
  unfold nnCmp, cmp_lex, cmp_on. destruct a as [a1 a2], b as [b1 b2]. simpl.
  destruct (String.compare a1 b1) eqn:E1; intros E2; try done.
  apply string_compare_eq_iff in E1, E2. by subst.
Qed.

(** On a slice of objects with distinct names the comparator is a total order. *)
Lemma keyed_order (items : list A) :
  NoDup (key <$> items) → LessOrder (.∈ items) (nnLess key).
Proof.
  intros Hnd.
  assert (LessOrder (.∈ items) (less_of (cmp_on key nnCmp))) as [H1 H2 H3].
  { apply less_of_order.
    - apply (total_cmp_weaken (.∈ items) (λ _, True)); [|done].
      apply (total_cmp_on key (λ _, True)), nnCmp_total.
    - intros x y Hx Hy E%nnCmp_eq. by apply (NoDup_key_inj key items). }
  split; intros *; rewrite !nnLess_cmp; eauto.
Qed.

(** The least selected object by (namespace, name). *)
Definition leastBy (sel : A → bool) (items : list A) : option A :=
  foldl (minStep (nnLess key)) None (List.filter sel items).

Lemma leastBy_spec sel items :
  NoDup (key <$> items) →
  match leastBy sel items with
  | None => ∀ x, x ∈ items → sel x = false
  | Some b => b ∈ items ∧ sel b = true ∧ ∀ x, x ∈ items → sel x = true → nnLess key x b = false
  end.
Proof.
  intros Hnd. destruct (keyed_order items Hnd) as [Ha Ht _]. unfold leastBy.
  pose proof (minStep_fold (.∈ items) (nnLess key) (List.filter sel items) None) as H.
  destruct (foldl _ None _) as [b|].
  - destruct H as (Hin & Hb & Hmin); auto.
    { apply Forall_forall. by intros x [_ ?]%elem_of_List_filter. }
    { done. }
    destruct Hin as [?|[Hs _]%elem_of_List_filter]; [done|]. split_and!; [done..|].
    intros x Hx Hsx. apply Hmin. right. by apply elem_of_List_filter.
  - destruct H as [_ Hnil]; auto.
    { apply Forall_forall. by intros x [_ ?]%elem_of_List_filter. }
    { done. }
    intros x Hx. destruct (sel x) eqn:E; [|done].
    assert (x ∈ List.filter sel items) as Hf by (by apply elem_of_List_filter).
    rewrite Hnil in Hf. by apply elem_of_nil in Hf.
Qed.

(** A least selected object is the only one. *)
Lemma leastBy_unique sel items x :
  NoDup (key <$> items) → x ∈ items → sel x = true →
  (∀ y, y ∈ items → sel y = true → nnLess key y x = false) → leastBy sel items = Some x.
Proof.
  intros Hnd Hx Hs Hmin. pose proof (leastBy_spec sel items Hnd) as H.
  destruct (keyed_order items Hnd) as [_ _ Htot].
  destruct (leastBy sel items) as [b|]; [|by rewrite H in Hs].
  destruct H as (Hb & Hsb & Hbm). f_equal. apply Htot; auto.
Qed.

Lemma leastBy_perm sel l l' :
  NoDup (key <$> l) → l ≡ₚ l' → leastBy sel l = leastBy sel l'.
Proof.
  intros Hnd Hp. assert (NoDup (key <$> l')) as Hnd' by (by rewrite <-Hp).
  pose proof (leastBy_spec sel l Hnd) as H. destruct (leastBy sel l) as [x|].
  - destruct H as (Hx & Hs & Hmin). symmetry. apply leastBy_unique; [done|by rewrite <-Hp|done|].
    intros y Hy. apply Hmin. by rewrite Hp.
  - pose proof (leastBy_spec sel l' Hnd') as H'. destruct (leastBy sel l') as [y|]; [|done].
    destruct H' as (Hy & Hs & _). rewrite <-Hp in Hy. by rewrite (H y Hy) in Hs.
Qed.

Lemma leastBy_ext sel sel' items :
  (∀ x, x ∈ items → sel x = sel' x) → leastBy sel items = leastBy sel' items.
Proof.
  intros H. unfold leastBy. f_equal. induction items as [|x l IH]; [done|]. simpl.
  rewrite (H x) by left. rewrite IH by (intros; apply H; by right). done.
Qed.

(** Filtering first is selecting on both. *)
Lemma leastBy_filter p sel items :
  leastBy sel (List.filter p items) = leastBy (λ x, p x && sel x) items.
Proof.
  unfold leastBy. f_equal. induction items as [|x l IH]; [done|]. simpl.
  destruct (p x); simpl; [|done]. destruct (sel x); by rewrite IH.
Qed.

(** The first selected element of a sorted slice is the least one. *)
Lemma find_strongly_sorted sel l x :
  strongly_sorted_by (nnLess key) l → List.find sel l = Some x →
  ∀ y, y ∈ l → sel y = true → nnLess key x x = false → nnLess key y x = false.
Proof.
  induction 1 as [|z l Hs IH Hz]; simpl; [done|]. destruct (sel z) eqn:Ez.
  - intros [= ->] y [->|Hy]%elem_of_cons _ ?; [done|]. rewrite Forall_forall in Hz. auto.
  - intros Hf y [->|Hy]%elem_of_cons Hsy; [by rewrite Hsy in Ez|]. auto.
Qed.

Lemma find_sorted_leastBy sel items :
  NoDup (key <$> items) →
  List.find sel (go_sort (nnLess key) items) = leastBy sel items.
Proof.
  intros Hnd. pose proof (keyed_order items Hnd) as Hord.
  assert (strongly_sorted_by (nnLess key) (go_sort (nnLess key) items)) as Hs.
  { apply (go_sort_strongly_sorted (.∈ items)); [|done]. by apply Forall_forall. }
  destruct (List.find sel _) as [x|] eqn:E.
  - destruct (find_some _ _ E) as [Hin Hsx]. apply list_elem_of_In in Hin.
    rewrite elem_of_go_sort in Hin. symmetry. apply leastBy_unique; [done..|].
    intros y Hy Hsy. eapply find_strongly_sorted; [done..|by apply elem_of_go_sort|done|].
    destruct (nnLess key x x) eqn:Ex; [|done]. rewrite <-Ex. by apply less_asym.
  - pose proof (leastBy_spec sel items Hnd) as H. destruct (leastBy sel items) as [x|]; [|done].
    destruct H as (Hx & Hsx & _). rewrite <-(elem_of_go_sort (nnLess key)) in Hx.
    rewrite list_elem_of_In in Hx. by rewrite (find_none _ _ E x Hx) in Hsx.
Qed.
End keyed.
