(* ===== verification/Policy.v ===== *)
(** * Policy propagation (internal/server/policy.go, internal/controlplaneapi/policy.go)

    The store the controller pushes resolved policies into, its getters, and the
    HTTP handler with its version gate.  JSON decoding is not modelled: the
    handler is given the decoded snapshot, or nothing when decoding failed. *)

From Stdlib Require Import SpecFloat.
From S2P Require Import Prelude Ordering GoRuntime IndexTypes IndexAccounting IndexEviction.

(** ** The wire contract *)

Definition PolicyPropagationVersion : Z := 7.
Definition PolicyMinimumAcceptedVersion : Z := 3.
Definition DefaultMinimumMatchedTokens : Z := 64.
Definition DefaultRoutingFloorScore : f32 := f32_lit 1 10.
Definition DefaultEnableChainMatching : bool := true.
Definition DefaultRequireChain : bool := false.
Definition DefaultEnableTenantHot : bool := true.
Definition DefaultAffinityRoutingEnabled : bool := true.

(** controlplaneapi.ProbeTenantID. *)
Definition ProbeTenantID : string := "inferencecache.io/probe".

(** A nil pointer is [None]. *)
Record ResolvedLookupStrategy := mkStrategy {
  EnableChainMatching : option bool;
  RequireChain : option bool;
  EnableTenantHot : option bool
}.

Record ResolvedPolicy := mkPolicy {
  p_Namespace : string;
  p_EvictionTTL : Duration;
  p_MinimumPrefixTokens : Z;
  p_MinimumMatchedTokens : Z;
  p_RoutingFloorScore : option f32;
  p_LookupTimeoutMs : Z;
  p_AffinityRouting : option bool;
  p_Eviction : string;
  p_Strategy : option ResolvedLookupStrategy
}.

Record ResolvedTenant := mkTenant {
  t_TenantID : string;
  t_MaxIndexEntries : Z;
  t_IsolationMode : string
}.

Record PolicySnapshot := mkPolicySnapshot {
  ps_Version : Z;
  ps_Policies : list ResolvedPolicy;
  ps_Tenants : list ResolvedTenant
}.

(** ** The store *)

Record PolicyStore := mkPolicyStore {
  policies : gmap string ResolvedPolicy;
  tenants : gmap string ResolvedTenant
}.

Definition NewPolicyStore : PolicyStore := mkPolicyStore ∅ ∅.

Definition nextPolicies (ps : list ResolvedPolicy) : gmap string ResolvedPolicy :=
  foldl (λ m p, if str_eqb (p_Namespace p) "" then m else <[p_Namespace p := p]> m) ∅ ps.

Definition clampTenant (t : ResolvedTenant) : ResolvedTenant :=
  if t_MaxIndexEntries t <? 0 then mkTenant (t_TenantID t) 0 (t_IsolationMode t) else t.

Definition nextTenants (ts : list ResolvedTenant) : gmap string ResolvedTenant :=
  foldl (λ m t, if str_eqb (t_TenantID t) "" then m else <[t_TenantID t := clampTenant t]> m) ∅ ts.

Definition ReplaceSnapshot (ps : list ResolvedPolicy) (ts : list ResolvedTenant)
    (s : PolicyStore) : PolicyStore := mkPolicyStore (nextPolicies ps) (nextTenants ts).

Definition Replace (ps : list ResolvedPolicy) (s : PolicyStore) : PolicyStore :=
  ReplaceSnapshot ps [] s.

Definition PolicyLookup (s : PolicyStore) (namespace : string) : option ResolvedPolicy :=
  policies s !! namespace.

Definition PolicyStoreSnapshot (s : PolicyStore) : list ResolvedPolicy :=
  go_sort (λ a b, str_lt (p_Namespace a) (p_Namespace b)) (map_to_list (policies s)).*2.

(** ** Getters *)

Definition TTL (s : PolicyStore) (tenant : string) : Duration :=
  match PolicyLookup s tenant with Some p => p_EvictionTTL p | None => 0 end.

Definition Eviction (s : PolicyStore) (tenant : string) : string :=
  match PolicyLookup s tenant with Some p => p_Eviction p | None => "" end.

Definition MinimumPrefixTokens (s : PolicyStore) (tenant : string) : Z :=
  match PolicyLookup s tenant with Some p => p_MinimumPrefixTokens p | None => 0 end.

Definition MinimumMatchedTokens (s : PolicyStore) (tenant : string) : Z :=
  match PolicyLookup s tenant with
  | Some p => if p_MinimumMatchedTokens p <? 0 then 0 else p_MinimumMatchedTokens p
  | None => DefaultMinimumMatchedTokens
  end.

Definition RoutingFloorScore (s : PolicyStore) (tenant : string) : f32 :=
  match PolicyLookup s tenant with
  | None => DefaultRoutingFloorScore
  | Some p =>
      match p_RoutingFloorScore p with
      | None => DefaultRoutingFloorScore
      | Some f => if flt f f32_zero then f32_zero else f
      end
  end.

Definition AffinityRoutingEnabled (s : PolicyStore) (namespace : string) : bool :=
  match PolicyLookup s namespace with
  | None => DefaultAffinityRoutingEnabled
  | Some p => default DefaultAffinityRoutingEnabled (p_AffinityRouting p)
  end.

Definition LookupTimeout (s : PolicyStore) (tenant : string) : Duration :=
  match PolicyLookup s tenant with
  | Some p => if 0 <? p_LookupTimeoutMs p then p_LookupTimeoutMs p * Millisecond else 0
  | None => 0
  end.

(** [!ok || p.Strategy == nil || p.Strategy.X == nil] gives the default. *)
Definition strategyFlag (field : ResolvedLookupStrategy → option bool) (dflt : bool)
    (s : PolicyStore) (tenant : string) : bool :=
  default dflt (p ← PolicyLookup s tenant; st ← p_Strategy p; field st).

Definition ChainMatchingEnabled (s : PolicyStore) (tenant : string) : bool :=
  strategyFlag EnableChainMatching DefaultEnableChainMatching s tenant.
Definition ChainRequired (s : PolicyStore) (tenant : string) : bool :=
  strategyFlag RequireChain DefaultRequireChain s tenant.
Definition TenantHotEnabled (s : PolicyStore) (tenant : string) : bool :=
  strategyFlag EnableTenantHot DefaultEnableTenantHot s tenant.

Definition TenantQuota (s : PolicyStore) (tenant : string) : option Z :=
  if str_eqb tenant ProbeTenantID then None
  else t_MaxIndexEntries <$> tenants s !! tenant.

Definition TenantQuotas (s : PolicyStore) : list ResolvedTenant :=
  go_sort (λ a b, str_lt (t_TenantID a) (t_TenantID b)) (map_to_list (tenants s)).*2.

(** ** Normalisation of older snapshots *)

Definition set_MinimumMatchedTokens (v : Z) (p : ResolvedPolicy) : ResolvedPolicy :=
  mkPolicy (p_Namespace p) (p_EvictionTTL p) (p_MinimumPrefixTokens p) v
    (p_RoutingFloorScore p) (p_LookupTimeoutMs p) (p_AffinityRouting p) (p_Eviction p) (p_Strategy p).
Definition set_RoutingFloorScore (v : option f32) (p : ResolvedPolicy) : ResolvedPolicy :=
  mkPolicy (p_Namespace p) (p_EvictionTTL p) (p_MinimumPrefixTokens p) (p_MinimumMatchedTokens p)
    v (p_LookupTimeoutMs p) (p_AffinityRouting p) (p_Eviction p) (p_Strategy p).
Definition set_AffinityRouting (v : option bool) (p : ResolvedPolicy) : ResolvedPolicy :=
  mkPolicy (p_Namespace p) (p_EvictionTTL p) (p_MinimumPrefixTokens p) (p_MinimumMatchedTokens p)
    (p_RoutingFloorScore p) (p_LookupTimeoutMs p) v (p_Eviction p) (p_Strategy p).
Definition set_Strategy (v : option ResolvedLookupStrategy) (p : ResolvedPolicy) : ResolvedPolicy :=
  mkPolicy (p_Namespace p) (p_EvictionTTL p) (p_MinimumPrefixTokens p) (p_MinimumMatchedTokens p)
    (p_RoutingFloorScore p) (p_LookupTimeoutMs p) (p_AffinityRouting p) (p_Eviction p) v.

(** [if x == nil { x = &default }]. *)
Definition fillNil {A : Type} (dflt : A) (x : option A) : option A := Some (default dflt x).

Definition applyResolvedLookupStrategyDefaults (p : ResolvedPolicy) : ResolvedPolicy :=
  let st := default (mkStrategy None None None) (p_Strategy p) in
  set_Strategy (Some (mkStrategy
    (fillNil DefaultEnableChainMatching (EnableChainMatching st))
    (fillNil DefaultRequireChain (RequireChain st))
    (fillNil DefaultEnableTenantHot (EnableTenantHot st)))) p.

Definition normalizePolicySnapshotForVersion (snap : PolicySnapshot) : PolicySnapshot :=
  if PolicyPropagationVersion <=? ps_Version snap then snap
  else
    let v := ps_Version snap in
    let ps := ps_Policies snap in
    let ps := if v <? 4 then
        (λ p, if p_MinimumMatchedTokens p =? 0
              then set_MinimumMatchedTokens DefaultMinimumMatchedTokens p else p) <$> ps
      else ps in
    let ps := if v <? 5 then
        (λ p, set_RoutingFloorScore (fillNil DefaultRoutingFloorScore (p_RoutingFloorScore p)) p) <$> ps
      else ps in
    let ps := if v <? 6 then applyResolvedLookupStrategyDefaults <$> ps else ps in
    let ps := if v <? 7 then
        (λ p, set_AffinityRouting (fillNil DefaultAffinityRoutingEnabled (p_AffinityRouting p)) p) <$> ps
      else ps in
    mkPolicySnapshot v ps (ps_Tenants snap).

(** ** The HTTP handler *)

Inductive HTTPStatus :=
  | StatusNoContent
  | StatusBadRequest
  | StatusMethodNotAllowed.

(** [method] is the request method, [decoded] the decoder's result. *)
Definition policyHandler (method : string) (decoded : option PolicySnapshot) (s : PolicyStore) :
    HTTPStatus * PolicyStore :=
  if negb (str_eqb method "POST") && negb (str_eqb method "PUT") then (StatusMethodNotAllowed, s)
  else
    match decoded with
    | None => (StatusBadRequest, s)
    | Some snap =>
        if (ps_Version snap <? PolicyMinimumAcceptedVersion) ||
           (PolicyPropagationVersion <? ps_Version snap) then (StatusBadRequest, s)
        else
          let snap := normalizePolicySnapshotForVersion snap in
          (StatusNoContent, ReplaceSnapshot (ps_Policies snap) (ps_Tenants snap) s)
    end.

(** ** What a push leaves in the store *)

(** The last entry with a key wins, as when a Go loop fills a map. *)
Definition lastOf {A : Type} (key : A → string) (k : string) (l : list A) : option A :=
  last (filter (λ x, key x = k) l).

Lemma lastOf_fmap {A : Type} (key : A → string) (f : A → A) k l :
  (∀ x, key (f x) = key x) → lastOf key k (f <$> l) = f <$> lastOf key k l.
Proof.
  intros Hf. unfold lastOf. rewrite <-fmap_last. f_equal.
  induction l as [|x l IH]; [done|]. rewrite fmap_cons, !filter_cons, Hf, IH.
  by case_decide.
Qed.

Lemma insert_all_lookup {A : Type} (key : A → string) (f : A → A) (l : list A) (m : gmap string A) k :
  foldl (λ m x, if str_eqb (key x) "" then m else <[key x := f x]> m) m l !! k =
    if decide (k = "") then m !! k
    else match lastOf key k l with Some x => Some (f x) | None => m !! k end.
Proof.
  revert m. induction l as [|x l IH]; intros m; cbn [foldl].
  { by case_decide. }
  rewrite IH. unfold lastOf. rewrite filter_cons.
  destruct (str_eqb (key x) "") eqn:Ex.
  - apply str_eqb_eq in Ex. case_decide; [done|]. by rewrite decide_False by congruence.
  - apply str_eqb_neq in Ex. case_decide as Hk.
    + rewrite lookup_insert_ne by congruence. done.
    + case_decide as Hkx.
      * rewrite last_cons. destruct (last _); [done|]. by rewrite Hkx, lookup_insert_eq.
      * by rewrite lookup_insert_ne.
Qed.

Lemma nextPolicies_lookup ps k :
  nextPolicies ps !! k = if decide (k = "") then None else lastOf p_Namespace k ps.
Proof.
  unfold nextPolicies. rewrite (insert_all_lookup p_Namespace id). rewrite lookup_empty.
  case_decide; [done|]. by destruct (lastOf _ _ _).
Qed.

Lemma nextTenants_lookup ts k :
  nextTenants ts !! k = if decide (k = "") then None else clampTenant <$> lastOf t_TenantID k ts.
Proof.
  unfold nextTenants. rewrite (insert_all_lookup t_TenantID clampTenant). rewrite lookup_empty.
  case_decide; [done|]. by destruct (lastOf _ _ _).
Qed.

(** Normalisation works entry by entry. *)
Definition normalizeOne (v : Z) (p : ResolvedPolicy) : ResolvedPolicy :=
  if PolicyPropagationVersion <=? v then p
  else
    let p := if (v <? 4) && (p_MinimumMatchedTokens p =? 0)
             then set_MinimumMatchedTokens DefaultMinimumMatchedTokens p else p in
    let p := if v <? 5
             then set_RoutingFloorScore (fillNil DefaultRoutingFloorScore (p_RoutingFloorScore p)) p else p in
    let p := if v <? 6 then applyResolvedLookupStrategyDefaults p else p in
    if v <? 7 then set_AffinityRouting (fillNil DefaultAffinityRoutingEnabled (p_AffinityRouting p)) p else p.

Lemma normalize_fmap snap :
  normalizePolicySnapshotForVersion snap =
    mkPolicySnapshot (ps_Version snap) (normalizeOne (ps_Version snap) <$> ps_Policies snap)
      (ps_Tenants snap).
Proof.
  unfold normalizePolicySnapshotForVersion, normalizeOne. destruct snap as [v ps ts]. simpl.
  destruct (PolicyPropagationVersion <=? v); [by rewrite list_fmap_id|]. f_equal.
  destruct (v <? 4), (v <? 5), (v <? 6), (v <? 7); simpl; rewrite <-?list_fmap_compose;
    rewrite ?list_fmap_id; done.
Qed.

Lemma normalizeOne_namespace v p : p_Namespace (normalizeOne v p) = p_Namespace p.
Proof. unfold normalizeOne. by repeat case_match. Qed.

(** ** The documented effect of a pushed policy *)

(** The settings in force for a namespace. *)
Record Settings := mkSettings {
  set_TTL : Duration;
  set_Evict : string;
  set_MinPrefix : Z;
  set_MinMatched : Z;
  set_Floor : f32;
  set_Affinity : bool;
  set_Timeout : Duration;
  set_Chain : bool;
  set_Require : bool;
  set_Hot : bool
}.

Definition settingsOf (s : PolicyStore) (ns : string) : Settings :=
  mkSettings (TTL s ns) (Eviction s ns) (MinimumPrefixTokens s ns) (MinimumMatchedTokens s ns)
    (RoutingFloorScore s ns) (AffinityRoutingEnabled s ns) (LookupTimeout s ns)
    (ChainMatchingEnabled s ns) (ChainRequired s ns) (TenantHotEnabled s ns).

Definition defaultSettings : Settings :=
  mkSettings 0 "" 0 DefaultMinimumMatchedTokens DefaultRoutingFloorScore true 0 true false true.

(** What entry [p] of a snapshot of version [v] means: an omitted field is its
    default; a zero matched-token floor disables the floor from version 4 on and
    is the default before, when the field did not exist. *)
Definition settingsFor (v : Z) (p : ResolvedPolicy) : Settings :=
  let st := default (mkStrategy None None None) (p_Strategy p) in
  mkSettings (p_EvictionTTL p) (p_Eviction p) (p_MinimumPrefixTokens p)
    (if (v <? 4) && (p_MinimumMatchedTokens p =? 0) then DefaultMinimumMatchedTokens
     else Z.max 0 (p_MinimumMatchedTokens p))
    (match p_RoutingFloorScore p with
     | None => DefaultRoutingFloorScore
     | Some f => if flt f f32_zero then f32_zero else f
     end)
    (default true (p_AffinityRouting p))
    (if 0 <? p_LookupTimeoutMs p then p_LookupTimeoutMs p * Millisecond else 0)
    (default true (EnableChainMatching st)) (default false (RequireChain st))
    (default true (EnableTenantHot st)).

(** The getters on a stored entry. *)
Definition settingsEntry (p : ResolvedPolicy) : Settings :=
  settingsOf (mkPolicyStore {["ns" := p]} ∅) "ns".

Lemma settingsOf_lookup s ns :
  settingsOf s ns = match policies s !! ns with
                    | Some p => settingsEntry p
                    | None => defaultSettings
                    end.
Proof.
  unfold settingsEntry, settingsOf, TTL, Eviction, MinimumPrefixTokens, MinimumMatchedTokens,
    RoutingFloorScore, AffinityRoutingEnabled, LookupTimeout, ChainMatchingEnabled, ChainRequired,
    TenantHotEnabled, strategyFlag, PolicyLookup. simpl.
  destruct (policies s !! ns); [|done]. by rewrite lookup_singleton_eq.
Qed.

Lemma settingsEntry_normalize v p :
  settingsEntry (normalizeOne v p) = settingsFor v p.
Proof.
  unfold settingsEntry, settingsOf, TTL, Eviction, MinimumPrefixTokens, MinimumMatchedTokens,
    RoutingFloorScore, AffinityRoutingEnabled, LookupTimeout, ChainMatchingEnabled, ChainRequired,
    TenantHotEnabled, strategyFlag, PolicyLookup. simpl. rewrite lookup_singleton_eq. simpl.
  unfold settingsFor, normalizeOne, PolicyPropagationVersion.
  destruct p as [ns ttl mpt mmt fl to af evc st]. simpl.
  assert ((if mmt <? 0 then 0 else mmt) = Z.max 0 mmt) as Hmax by (case_match; lia).
  destruct (Z.leb_spec 7 v).
  { rewrite (proj2 (Z.ltb_ge v 4)) by lia. simpl.
    rewrite Hmax. destruct fl, af, st as [[[] [] []]|]; done. }
  rewrite (proj2 (Z.ltb_lt v 7)) by lia.
  destruct (Z.ltb_spec v 4); simpl.
  - rewrite (proj2 (Z.ltb_lt v 5)), (proj2 (Z.ltb_lt v 6)) by lia.
    destruct (mmt =? 0) eqn:Em; simpl; rewrite ?Hmax;
      destruct fl, af, st as [[[] [] []]|]; done.
  - destruct (v <? 5), (v <? 6); simpl; rewrite Hmax;
      destruct fl, af, st as [[[] [] []]|]; done.
Qed.

Lemma lookup_normalized snap ns :
  ns ≠ "" →
  nextPolicies (ps_Policies (normalizePolicySnapshotForVersion snap)) !! ns =
    normalizeOne (ps_Version snap) <$> lastOf p_Namespace ns (ps_Policies snap).
Proof.
  intros Hns. rewrite normalize_fmap, nextPolicies_lookup, decide_False by done. simpl.
  apply lastOf_fmap, normalizeOne_namespace.
Qed.

(** The store's quotas are never negative. *)
Definition quotas_nonneg (s : PolicyStore) : Prop :=
  ∀ t q, TenantQuota s t = Some q → 0 ≤ q.

Lemma clampTenant_nonneg t : 0 ≤ t_MaxIndexEntries (clampTenant t).
Proof. unfold clampTenant. case_match eqn:E; simpl; lia. Qed.

Lemma quotas_nonneg_replace ps ts s : quotas_nonneg (ReplaceSnapshot ps ts s).
Proof.
  intros t q. unfold TenantQuota. case_match; [done|]. simpl.
  rewrite nextTenants_lookup. case_decide; [done|].
  intros (x & Hx & ->)%fmap_Some. apply fmap_Some in Hx as (y & _ & ->). apply clampTenant_nonneg.
Qed.

Lemma quotas_nonneg_handler m d s : quotas_nonneg s → quotas_nonneg (policyHandler m d s).2.
Proof.
  intros Hs. unfold policyHandler. repeat case_match; try done. apply quotas_nonneg_replace.
Qed.
