(* ===== verification/Fingerprint.v ===== *)
(** * Content-addressed prefix hashes (pkg/fingerprint/fingerprint.go, chain.go)

    [xxh3] stands for xxh3.HashSeed (bytes, seed) and is a parameter: nothing here
    depends on what it computes, only on who calls it with what.  Token ids are
    uint32 values, hashes uint64 values, byte slices strings. *)

From S2P Require Import Prelude Ordering GoRuntime.

Definition Seed : Z := 1337.

Section fingerprint.
Context (xxh3 : string → Z → Z).

(** The little-endian u32 encodings of the tokens, concatenated. *)
Definition tokenBytes (tokens : list Z) : string :=
  foldr (λ t acc, le_bytes 4 t +:+ acc) "" tokens.

Definition ContentHash (blockTokens : list Z) : Z := xxh3 (tokenBytes blockTokens) Seed.

Definition nextSeqHash (prev content : Z) : Z :=
  xxh3 (le_bytes 8 prev +:+ le_bytes 8 content) Seed.

(** [tokens[i*blockSize : (i+1)*blockSize]]. *)
Definition blockAt (tokens : list Z) (blockSize i : nat) : list Z :=
  take blockSize (drop (i * blockSize) tokens).

(** The loop body from block [i] on, [n] iterations left. *)
Fixpoint hashLoop (tokens : list Z) (blockSize n i : nat) (prev : Z) (have : bool) : list Z :=
  match n with
  | O => []
  | S n =>
      let ch := ContentHash (blockAt tokens blockSize i) in
      let ph := if have then nextSeqHash prev ch else ch in
      ph :: hashLoop tokens blockSize n (S i) ph true
  end.

Definition PrefixHashesFrom (tokens : list Z) (blockSize parentPrefix : Z) (hasParent : bool) :
    list Z :=
  if blockSize <=? 0 then []
  else
    let bs := Z.to_nat blockSize in
    let nFull := (length tokens / bs)%nat in
    hashLoop tokens bs nFull 0 parentPrefix hasParent.

Definition PrefixHashes (tokens : list Z) (blockSize : Z) : list Z :=
  PrefixHashesFrom tokens blockSize 0 false.

(** 8-byte big-endian. *)
Definition Bytes (h : Z) : string := be_bytes 8 h.

Definition Chain (tokens : list Z) (blockSize : Z) : list string * list Z :=
  let phs := PrefixHashes tokens blockSize in
  (Bytes <$> phs, (λ _, wrap32 blockSize) <$> phs).

(** ** Lengths *)

Lemma hashLoop_length tokens bs n i prev have : length (hashLoop tokens bs n i prev have) = n.
Proof. revert i prev have. induction n; intros; simpl; [done|]. by f_equal. Qed.

Lemma PrefixHashesFrom_length tokens bs p h :
  0 < bs → length (PrefixHashesFrom tokens bs p h) = (length tokens / Z.to_nat bs)%nat.
Proof.
  intros Hbs. unfold PrefixHashesFrom. rewrite (proj2 (Z.leb_gt bs 0)) by lia.
  apply hashLoop_length.
Qed.

Lemma Chain_lengths tokens bs : length (Chain tokens bs).1 = length (Chain tokens bs).2.
Proof. unfold Chain. simpl. by rewrite !length_fmap. Qed.

(** ** Positional hashes compose *)

(** Dropping whole leading blocks shifts the block index. *)
Lemma blockAt_drop tokens bs i k : blockAt (drop (k * bs) tokens) bs i = blockAt tokens bs (k + i).
Proof. unfold blockAt. rewrite drop_drop. f_equal. f_equal. lia. Qed.

Lemma hashLoop_drop tokens bs n i k prev have :
  hashLoop (drop (k * bs) tokens) bs n i prev have = hashLoop tokens bs n (k + i) prev have.
Proof.
  revert i prev have. induction n as [|n IH]; intros i prev have; simpl; [done|].
  rewrite blockAt_drop, IH. by rewrite Nat.add_succ_r.
Qed.

Lemma blockAt_app_l t1 t2 bs i :
  (S i * bs ≤ length t1)%nat → blockAt (t1 ++ t2) bs i = blockAt t1 bs i.
Proof.
  intros Hle. unfold blockAt. rewrite drop_app_le by lia. apply take_app_le.
  rewrite length_drop. lia.
Qed.

Lemma hashLoop_app_l t1 t2 bs n i prev have :
  ((i + n) * bs ≤ length t1)%nat →
  hashLoop (t1 ++ t2) bs n i prev have = hashLoop t1 bs n i prev have.
Proof.
  revert i prev have. induction n as [|n IH]; intros i prev have Hle; simpl; [done|].
  rewrite blockAt_app_l by nia. f_equal. apply IH. lia.
Qed.

(** The hash a sequence of blocks ends with; it is what the next block chains from. *)
Definition lastHash (prev : Z) (hs : list Z) : Z := default prev (last hs).

Lemma hashLoop_split tokens bs n1 n2 i prev have :
  hashLoop tokens bs (n1 + n2) i prev have =
    let hs := hashLoop tokens bs n1 i prev have in
    hs ++ hashLoop tokens bs n2 (i + n1) (lastHash prev hs)
            (have || negb (n1 =? 0)%nat).
Proof.
  revert i prev have. induction n1 as [|n1 IH]; intros i prev have; simpl.
  { by rewrite Nat.add_0_r, orb_false_r. }
  rewrite IH. simpl. rewrite orb_true_r. f_equal. f_equal.
  rewrite Nat.add_succ_r. f_equal. unfold lastHash. rewrite last_cons.
  by destruct (last _).
Qed.

Lemma PrefixHashesFrom_app t1 t2 bs p h n :
  0 < bs → length t1 = (n * Z.to_nat bs)%nat →
  PrefixHashesFrom (t1 ++ t2) bs p h =
    let hs := PrefixHashesFrom t1 bs p h in
    hs ++ PrefixHashesFrom t2 bs (lastHash p hs) (h || negb (n =? 0)%nat).
Proof.
  intros Hbs Hlen. unfold PrefixHashesFrom. rewrite (proj2 (Z.leb_gt bs 0)) by lia. simpl.
  set (b := Z.to_nat bs) in *. assert (0 < b)%nat by lia.
  rewrite length_app, Hlen, Nat.div_mul by lia.
  rewrite (Nat.add_comm (n * b)), Nat.div_add by lia. rewrite Nat.add_comm, hashLoop_split. simpl.
  rewrite hashLoop_app_l by lia. f_equal.
  pose proof (λ prev have, hashLoop_drop (t1 ++ t2) b (length t2 / b) 0 n prev have) as Hd.
  rewrite Nat.add_0_r in Hd. setoid_rewrite <-Hd.
  by rewrite <-Hlen, drop_app_length.
Qed.

(** ** The first [n] hashes only see the first [n] blocks *)
Lemma PrefixHashesFrom_take tokens bs p h n :
  0 < bs → take n (PrefixHashesFrom tokens bs p h) =
    PrefixHashesFrom (take (n * Z.to_nat bs) tokens) bs p h.
Proof.
  intros Hbs. set (b := Z.to_nat bs). assert (0 < b)%nat by lia.
  destruct (decide (n * b ≤ length tokens)%nat) as [Hle|Hgt].
  - rewrite <-(take_drop (n * b) tokens) at 1.
    assert (length (take (n * b) tokens) = (n * b)%nat) as Hl by (rewrite length_take; lia).
    rewrite (PrefixHashesFrom_app _ _ bs p h n Hbs Hl). simpl. apply take_app_length'.
    rewrite PrefixHashesFrom_length by done. fold b. rewrite Hl. by rewrite Nat.div_mul by lia.
  - rewrite (take_ge tokens) by lia. apply take_ge. rewrite PrefixHashesFrom_length by done.
    fold b. apply Nat.div_le_upper_bound; lia.
Qed.
End fingerprint.

(** ** Keys are injective *)

Lemma Z_of_byte_of_Z z : Z_of_byte (byte_of_Z z) = z mod 256.
Proof.
  unfold Z_of_byte, byte_of_Z. pose proof (Z.mod_pos_bound z 256).
  rewrite N_ascii_embedding by lia. lia.
Qed.

Lemma be_value_be_bytes n acc z :
  be_value acc n (be_bytes n z) = acc * 256 ^ Z.of_nat n + z mod 256 ^ Z.of_nat n.
Proof.
  revert acc. induction n as [|n IH]; intros acc; simpl be_bytes; cbn [be_value].
  { simpl. rewrite Z.mod_1_r. lia. }
  rewrite IH, Z_of_byte_of_Z, Z.shiftr_div_pow2 by lia.
  rewrite Z.pow_mul_r by lia. change (2 ^ 8) with 256.
  rewrite Nat2Z.inj_succ, Z.pow_succ_r by lia. set (B := 256 ^ Z.of_nat n).
  assert (0 < B) by (apply Z.pow_pos_nonneg; lia).
  rewrite (Z.mul_comm 256 B), Z.rem_mul_r by lia. lia.
Qed.

Lemma Bytes_value h : is_uint64 h → be_value 0 8 (Bytes h) = h.
Proof.
  intros Hh. unfold Bytes. rewrite be_value_be_bytes. change (Z.of_nat 8) with 8.
  unfold is_uint64 in Hh. rewrite Z.mod_small; lia.
Qed.

Lemma Bytes_inj h1 h2 : is_uint64 h1 → is_uint64 h2 → Bytes h1 = Bytes h2 → h1 = h2.
Proof. intros H1 H2 E. by rewrite <-(Bytes_value h1), E, Bytes_value. Qed.
