(* ===== verification/Service.v ===== *)
(** * The gRPC service (internal/server/inferencecache_service.go)

    The LookupRoute handler and the report/event/state handlers on top of the
    index, the policy store and the fingerprint.  The context, the deadline, the
    select between a worker and ctx.Done, the tokenizer semaphore and the clock
    are resolved by the record [Env], one value per point where the handler
    observes them; [tokenizer], [sha256] and [xxh3] are parameters. *)

From Stdlib Require Import SpecFloat.
From S2P Require Import Prelude Ordering GoRuntime Floats IndexTypes IndexAccounting IndexMetrics.
From S2P Require Import IndexEviction IndexRanking IndexIngest IndexLookup IndexSnapshot Policy Fingerprint.

Definition DefaultEngineBlockSize : Z := 16.
Definition DefaultTokenizeTimeout : Duration := 5 * Second.
Definition MaxLookupTokens : Z := 2 ^ 20.
Definition MaxPromptTextBytes : Z := 2 ^ 20.

Definition reasonPrefixMatch : string := "PREFIX_MATCH".
Definition reasonTenantHot : string := "TENANT_HOT".
Definition reasonAffinityHint : string := "AFFINITY_HINT".
Definition reasonNoHint : string := "NO_HINT".
Definition reasonTimeout : string := "TIMEOUT".
Definition reasonPolicyRequiresChain : string := "POLICY_REQUIRES_CHAIN".
Definition reasonUnknownTenant : string := "UNKNOWN_TENANT".
Definition reasonUnknownModel : string := "UNKNOWN_MODEL".
Definition reasonUnknownHashScheme : string := "UNKNOWN_HASH_SCHEME".

(** ** Messages *)

Record LookupRouteRequest := mkLookupRouteRequest {
  q_ModelId : string;
  q_TenantId : string;
  q_HashScheme : string;
  q_AdapterId : string;
  q_PrefixHash : string;
  q_PrefixTokenCount : Z;
  q_BlockHashes : list string;
  q_BlockTokenCounts : list Z;
  q_TokenIds : list Z;
  q_PromptText : string;
  q_TtftMs : Z;
  q_TbtMs : Z
}.

Record ScoreMsg := mkScoreMsg {
  m_ReplicaId : string;
  m_Score : f32;
  m_MatchedTokens : Z;
  m_EstimatedCacheHitProb : f32;
  m_Tier : Z
}.

Record LookupRouteResponse := mkLookupRouteResponse {
  resp_ReasonCode : string;
  resp_ReplicaScores : list ScoreMsg;
  resp_TokenIds : list Z;
  resp_AdapterId : string;
  resp_LookupLatencyUs : Z
}.

(** The response, the observation recorded for it (hinted or not), and the
    lookup result whose hits the handler credited. *)
Record Outcome := mkOutcome {
  out_resp : LookupRouteResponse;
  out_hinted : bool;
  out_credited : LookupResult
}.

(** ** Policy reads, nil store included *)

Section policy_reads.
Context (pol : option PolicyStore) (tenant : string).

Definition policyTimeout : Duration :=
  match pol with None => 0 | Some s => LookupTimeout s tenant end.
Definition policyMinimumPrefixTokens : Z :=
  match pol with None => 0 | Some s => MinimumPrefixTokens s tenant end.
Definition policyMinimumMatchedTokens : Z :=
  match pol with None => 0 | Some s => MinimumMatchedTokens s tenant end.
Definition policyRoutingFloorScore : f32 :=
  match pol with None => f32_zero | Some s => RoutingFloorScore s tenant end.
Definition policyChainMatchingEnabled : bool :=
  match pol with None => DefaultEnableChainMatching | Some s => ChainMatchingEnabled s tenant end.
Definition policyChainRequired : bool :=
  match pol with None => DefaultRequireChain | Some s => ChainRequired s tenant end.
Definition policyTenantHotEnabled : bool :=
  match pol with None => DefaultEnableTenantHot | Some s => TenantHotEnabled s tenant end.
Definition affinityRoutingEnabled : bool :=
  match pol with None => DefaultAffinityRoutingEnabled | Some s => AffinityRoutingEnabled s tenant end.
End policy_reads.

(** ** Inputs of a lookup *)

Record lookupInputs := mkLookupInputs {
  in_blockHashes : list string;
  in_blockTokenCounts : list Z;
  in_exactPrefixHash : string;
  in_exactTokenCount : Z;
  in_echoTokens : list Z;
  in_failOpen : bool
}.

Definition failOpenInputs : lookupInputs := mkLookupInputs [] [] "" 0 [] true.

Definition requestCarriesValidBlockHashChain (req : LookupRouteRequest) : bool :=
  (0 <? length (q_BlockHashes req))%nat &&
  (length (q_BlockHashes req) =? length (q_BlockTokenCounts req))%nat.

Definition chainHashesIfEnabled (hashes : list string) (enabled : bool) : list string :=
  if enabled then hashes else [].
Definition chainCountsIfEnabled (counts : list Z) (enabled : bool) : list Z :=
  if enabled then counts else [].

Definition sumBlockTokenCounts (counts : list Z) : Z := sum_int32 counts.

Definition effectivePrefixTokens (blockTokenCounts : list Z) (legacyCount : Z) : Z :=
  if (0 <? length blockTokenCounts)%nat then sum_int32 blockTokenCounts else legacyCount.

(** The chain inputs built from tokens; [echo] is what the response echoes. *)
Definition inputsOfTokens (xxh3 : string → Z → Z) (blockSize : Z) (chainEnabled : bool)
    (toks echo : list Z) : lookupInputs :=
  let '(bh, btc) := Chain xxh3 toks blockSize in
  match last bh with
  | None => mkLookupInputs [] [] "" 0 echo true
  | Some h =>
      mkLookupInputs (chainHashesIfEnabled bh chainEnabled) (chainCountsIfEnabled btc chainEnabled)
        h (sumBlockTokenCounts btc) echo false
  end.

Section handler.
Context (xxh3 : string → Z → Z) (sha256 : string → string).
Context (tokenizer : string → string → option (list Z)).
Context (pol : option PolicyStore) (blockSize : Z) (tokenizeTimeout : Duration).
Context (cfg : IndexConfig).

(** [semFree]: the non-blocking send on the tokenizer semaphore succeeded. *)
Definition resolveLookupChain (semFree : bool) (req : LookupRouteRequest)
    (chainMatchingEnabled : bool) : lookupInputs :=
  let exactPrefixHash := q_PrefixHash req in
  let exactTokenCount := q_PrefixTokenCount req in
  let hasChain :=
    (0 <? length (q_BlockHashes req))%nat || (0 <? length (q_BlockTokenCounts req))%nat in
  if negb chainMatchingEnabled && negb (str_eqb exactPrefixHash "") then
    mkLookupInputs [] [] exactPrefixHash exactTokenCount [] false
  else
    let ignoredChain := negb chainMatchingEnabled && hasChain in
    let bh := if ignoredChain then [] else q_BlockHashes req in
    let btc := if ignoredChain then [] else q_BlockTokenCounts req in
    if (0 <? length bh)%nat || (0 <? length btc)%nat || negb (str_eqb (q_PrefixHash req) "") then
      if negb (length bh =? length btc)%nat then failOpenInputs
      else mkLookupInputs bh btc exactPrefixHash exactTokenCount [] false
    else if (0 <? length (q_TokenIds req))%nat then
      if MaxLookupTokens <? Z.of_nat (length (q_TokenIds req)) then failOpenInputs
      else inputsOfTokens xxh3 blockSize chainMatchingEnabled (q_TokenIds req) []
    else if negb (str_eqb (q_PromptText req) "") then
      if MaxPromptTextBytes <? Z.of_nat (String.length (q_PromptText req)) then failOpenInputs
      else if negb semFree then failOpenInputs
      else
        match tokenizer (q_ModelId req) (q_PromptText req) with
        | None => failOpenInputs
        | Some toks =>
            if (length toks =? 0)%nat || (MaxLookupTokens <? Z.of_nat (length toks))
            then failOpenInputs
            else inputsOfTokens xxh3 blockSize chainMatchingEnabled toks toks
        end
    else if ignoredChain then failOpenInputs
    else mkLookupInputs [] [] exactPrefixHash exactTokenCount [] false.

(** ** Gates and floors *)

Definition applyLookupStrategyGates (result : LookupResult) (tenant : string) : LookupResult :=
  if bool_decide (res_Strategy result = StrategyTenantHot) && negb (policyTenantHotEnabled pol tenant)
  then resultOf StrategyNone
  else result.

Definition applyMatchedTokensFloor (result : LookupResult) (tenant : string) : LookupResult :=
  let floor := policyMinimumMatchedTokens pol tenant in
  if (floor <=? 0) || (length (res_Scores result) =? 0)%nat then result
  else
    let survives sc := floor <=? s_MatchedTokens sc in
    let keep : gset string :=
      list_to_set (s_ReplicaID <$> List.filter survives (res_Scores result)) in
    let survivors := length (List.filter survives (res_Scores result)) in
    if (survivors =? length (res_Scores result))%nat then result
    else if (survivors =? 0)%nat then resultOf StrategyNone
    else RetainReplicas (λ id, bool_decide (id ∈ keep)) result.

(** The sub-floor request gate at the top of [buildLookupResponse]. *)
Definition applyPrefixTokensFloor (result : LookupResult) (tenant : string) (inp : lookupInputs) :
    LookupResult :=
  let minTokens := policyMinimumPrefixTokens pol tenant in
  if (0 <? minTokens) &&
     (effectivePrefixTokens (in_blockTokenCounts inp) (in_exactTokenCount inp) <? minTokens) &&
     (bool_decide (res_Strategy result = StrategyPrefixMatch) ||
      bool_decide (res_Strategy result = StrategyTenantHot))
  then resultOf StrategyNone
  else result.

Definition applyRoutingFloor (result : LookupResult) (tenant : string) : LookupResult :=
  let floor := policyRoutingFloorScore pol tenant in
  match res_Scores result with
  | top :: _ =>
      if bool_decide (res_Strategy result = StrategyPrefixMatch) && flt f32_zero floor &&
         flt (s_Score top) floor
      then resultOf StrategyNone else result
  | [] => result
  end.

(** The three downgrades, in the handler's order. *)
Definition applyFloors (result : LookupResult) (tenant : string) (inp : lookupInputs) : LookupResult :=
  let result := applyPrefixTokensFloor result tenant inp in
  let result := if bool_decide (res_Strategy result = StrategyPrefixMatch)
                then applyMatchedTokensFloor result tenant else result in
  applyRoutingFloor result tenant.

(** ** Affinity *)

Definition affinityEligible (req : LookupRouteRequest) : bool :=
  if str_eqb (q_TenantId req) "" || str_eqb (q_ModelId req) "" || str_eqb (q_HashScheme req) ""
  then false
  else
    let bh := q_BlockHashes req in
    let bc := q_BlockTokenCounts req in
    negb (((0 <? length bh)%nat || (0 <? length bc)%nat) && negb (length bh =? length bc)%nat).

(** Length-prefixed concatenation of the block hashes, or the exact key; [None]
    is a nil seed. *)
Definition encodeHashes (bh : list string) : string :=
  foldr (λ b acc, be_bytes 4 (wrapu32 (Z.of_nat (String.length b))) +:+ b +:+ acc) "" bh.

Definition canonicalAffinitySeed (inp : lookupInputs) : option string :=
  if (0 <? length (in_blockHashes inp))%nat then Some (encodeHashes (in_blockHashes inp))
  else if (0 <? String.length (in_exactPrefixHash inp))%nat then Some (in_exactPrefixHash inp)
  else None.

Definition tryAffinityResponse (req : LookupRouteRequest) (inp : lookupInputs) (i : Index)
    (latencyUs : Z) : option LookupRouteResponse :=
  if negb (affinityRoutingEnabled pol (q_TenantId req)) then None
  else if negb (affinityEligible req) then None
  else
    seed ← canonicalAffinitySeed inp;
    rid ← AffinityHint sha256 (q_TenantId req) (q_ModelId req) (q_HashScheme req) seed i;
    Some (mkLookupRouteResponse reasonAffinityHint
            [mkScoreMsg rid f32_zero 0 f32_zero 0] (in_echoTokens inp) (q_AdapterId req) latencyUs).

(** ** Responses *)

Definition cacheTierToProto (t : CacheTier) : Z :=
  if t =? TierT1 then 1 else if t =? TierT2 then 2 else if t =? TierT3 then 3 else 0.

Definition reasonForStrategy (s : Strategy) : string :=
  match s with
  | StrategyPrefixMatch => reasonPrefixMatch
  | StrategyTenantHot => reasonTenantHot
  | StrategyUnknownTenant => reasonUnknownTenant
  | StrategyUnknownModel => reasonUnknownModel
  | StrategyUnknownHashScheme => reasonUnknownHashScheme
  | StrategyNone => reasonNoHint
  end.

Definition scoreMsg (sc : ReplicaScore) : ScoreMsg :=
  mkScoreMsg (s_ReplicaID sc) (s_Score sc) (s_MatchedTokens sc) (s_EstimatedCacheHitProb sc)
    (cacheTierToProto (s_Tier sc)).

(** timeoutResponse, noHintResponse and policyGateResponse: a bare reason. *)
Definition bareResponse (reason : string) (echo : list Z) (latencyUs : Z) : Outcome :=
  mkOutcome (mkLookupRouteResponse reason [] echo "" latencyUs) false (resultOf StrategyNone).

(** [iAff] is the index state the affinity read sees. *)
Definition buildLookupResponse (req : LookupRouteRequest) (result : LookupResult)
    (inp : lookupInputs) (iAff : Index) (latencyUs : Z) : Outcome :=
  let result := applyFloors result (q_TenantId req) inp in
  match (if bool_decide (res_Strategy result = StrategyNone)
         then tryAffinityResponse req inp iAff latencyUs else None) with
  | Some resp => mkOutcome resp true (resultOf StrategyNone)
  | None =>
      mkOutcome
        (mkLookupRouteResponse (reasonForStrategy (res_Strategy result))
           (scoreMsg <$> res_Scores result) (in_echoTokens inp) (q_AdapterId req) latencyUs)
        (0 <? length (res_Scores result))%nat result
  end.

(** ** LookupRoute *)

(** What one call observes of its context, workers and clock. *)
Record Env := mkEnv {
  env_parentDeadline : bool;   (* the incoming context already has a deadline *)
  env_err0 : bool;             (* ctx.Err() != nil on entry *)
  env_resolveDone : bool;      (* ctx.Done won the select around the resolver *)
  env_err1 : bool;             (* ctx.Err() != nil after resolving *)
  env_semFree : bool;          (* a tokenizer slot was free *)
  env_lookupDone : bool;       (* ctx.Done won the select around the lookup *)
  env_err2 : bool;             (* ctx.Err() != nil after the lookup *)
  env_elapsed : Duration;      (* duration of the lookup itself *)
  env_latencyUs : Z;           (* time since the start of the call *)
  env_v1 : View;
  env_v2 : View;
  env_v3 : View;
  env_affinity : Index
}.

Definition willTokenize (req : LookupRouteRequest) (chainMatchingEnabled : bool) : bool :=
  negb (str_eqb (q_PromptText req) "") &&
  (negb chainMatchingEnabled ||
   ((length (q_BlockHashes req) =? 0)%nat && (length (q_BlockTokenCounts req) =? 0)%nat)) &&
  str_eqb (q_PrefixHash req) "" && (length (q_TokenIds req) =? 0)%nat.

(** Whether the call runs under a deadline: its own, the policy budget, or the
    tokenizer bound. *)
Definition hasDeadline (req : LookupRouteRequest) (env : Env) : bool :=
  env_parentDeadline env || (0 <? policyTimeout pol (q_TenantId req)) ||
  (willTokenize req (policyChainMatchingEnabled pol (q_TenantId req)) && (0 <? tokenizeTimeout)).

Definition lookupReqOf (req : LookupRouteRequest) (inp : lookupInputs) : LookupRequest :=
  let enabled := policyChainMatchingEnabled pol (q_TenantId req) in
  mkLookupRequest (q_ModelId req) (q_TenantId req) (q_HashScheme req) (q_AdapterId req)
    (in_exactPrefixHash inp) (in_exactTokenCount inp)
    (if enabled then in_blockHashes inp else []) (if enabled then in_blockTokenCounts inp else [])
    (q_TtftMs req) (q_TbtMs req).

(** The lookup, with and without a deadline. *)
Definition runLookup (req : LookupRouteRequest) (inp : lookupInputs) (env : Env) : Outcome :=
  let budget := policyTimeout pol (q_TenantId req) in
  let timeout := bareResponse reasonTimeout (in_echoTokens inp) (env_latencyUs env) in
  let result := LookupRoute cfg (env_v1 env) (env_v2 env) (env_v3 env) (lookupReqOf req inp) in
  let respond :=
    buildLookupResponse req (applyLookupStrategyGates result (q_TenantId req)) inp
      (env_affinity env) (env_latencyUs env) in
  if negb (hasDeadline req env) then respond
  else if env_lookupDone env then timeout
  else if env_err2 env then timeout
  else if (0 <? budget) && (budget <? env_elapsed env) then timeout
  else respond.

(** The handler after the inputs are resolved. *)
Definition afterResolve (req : LookupRouteRequest) (inp : lookupInputs) (env : Env) : Outcome :=
  let tenant := q_TenantId req in
  let minTokens := policyMinimumPrefixTokens pol tenant in
  if env_err1 env then bareResponse reasonTimeout (in_echoTokens inp) (env_latencyUs env)
  else if in_failOpen inp then bareResponse reasonNoHint (in_echoTokens inp) (env_latencyUs env)
  else if (0 <? minTokens) &&
          (effectivePrefixTokens (in_blockTokenCounts inp) (in_exactTokenCount inp) <? minTokens) &&
          negb (affinityRoutingEnabled pol tenant)
  then bareResponse reasonNoHint (in_echoTokens inp) (env_latencyUs env)
  else runLookup req inp env.

Definition LookupRouteHandler (req : LookupRouteRequest) (env : Env) : Outcome :=
  let tenant := q_TenantId req in
  if str_eqb tenant ProbeTenantID then bareResponse reasonNoHint [] 0
  else if env_err0 env then bareResponse reasonTimeout [] (env_latencyUs env)
  else if policyChainRequired pol tenant && negb (requestCarriesValidBlockHashChain req)
  then bareResponse reasonPolicyRequiresChain [] (env_latencyUs env)
  else if hasDeadline req env && env_resolveDone env
  then bareResponse reasonTimeout [] (env_latencyUs env)
  else
    afterResolve req
      (resolveLookupChain (env_semFree env) req (policyChainMatchingEnabled pol tenant)) env.
End handler.

(** ** Reports, events and state *)

Record PrefixEntry := mkPrefixEntry {
  pe_PrefixHash : string;
  pe_TokenCount : Z;
  pe_BlockHashes : list string;
  pe_BlockTokenCounts : list Z;
  pe_AdapterId : string;
  pe_Tier : Z
}.

Record StatsMsg := mkStatsMsg {
  sm_CacheMemoryBytes : Z;
  sm_HitRate : f32;
  sm_Pressure : f32;
  sm_T2HitTokens : Z;
  sm_T2QueryTokens : Z
}.

Record CacheStateUpdate := mkCacheStateUpdate {
  cu_ReplicaId : string;
  cu_ModelId : string;
  cu_TenantId : string;
  cu_HashScheme : string;
  cu_AdapterId : string;
  cu_TimestampUs : Z;
  cu_Prefixes : list PrefixEntry;
  cu_Stats : option StatsMsg
}.

Record CacheEvent := mkCacheEvent {
  ce_Type : Z;
  ce_ReplicaId : string;
  ce_ModelId : string;
  ce_TenantId : string;
  ce_PrefixHash : string;
  ce_AdapterId : string;
  ce_TimestampUs : Z
}.

Definition tierInvalidCold : CacheTier := MaxInt32.

Definition cacheTierFromProto (t : Z) : CacheTier :=
  if t =? 0 then TierUnspecified
  else if t =? 1 then TierT1
  else if t =? 2 then TierT2
  else if t =? 3 then TierT3
  else if t <? 0 then tierInvalidCold
  else t.

(** 0 (no event) is [None]. *)
Definition eventTypeFromProto (t : Z) : option EventType :=
  if t =? 1 then Some EventPrefixAdded
  else if t =? 2 then Some EventPrefixEvicted
  else if t =? 3 then Some EventReplicaUpdated
  else if t =? 4 then Some EventAllCleared
  else None.

Definition microsToTime (us : Z) : Time := if us =? 0 then time_zero else time_unix_micro us.

Definition prefixFromProto (p : PrefixEntry) : PrefixRef :=
  mkPrefixRef (pe_PrefixHash p) (pe_TokenCount p) (pe_BlockHashes p) (pe_BlockTokenCounts p)
    (cacheTierFromProto (pe_Tier p)) (pe_AdapterId p).

Definition updateFromProto (u : CacheStateUpdate) : Update :=
  mkUpdate (cu_ReplicaId u) (cu_ModelId u) (cu_TenantId u) (cu_HashScheme u) (cu_AdapterId u)
    (microsToTime (cu_TimestampUs u)) (prefixFromProto <$> cu_Prefixes u)
    ((λ st, mkReplicaStats (cu_ReplicaId u) (sm_CacheMemoryBytes st) (sm_HitRate st)
              (sm_Pressure st) (sm_T2HitTokens st) (sm_T2QueryTokens st)) <$> cu_Stats u).

(** One received update: probe-tenant reports are dropped. *)
Definition reportOne (cfg : IndexConfig) (now : Time) (u : CacheStateUpdate) (i : Index) :
    Index * list MetricCall :=
  if str_eqb (cu_TenantId u) ProbeTenantID then (i, [])
  else Ingest cfg now (updateFromProto u) i.

(** The stream loop: the updates received before the stream ended, each with the
    clock reading at its ingest; [eof] says whether it ended cleanly. *)
Definition ReportCacheState (cfg : IndexConfig) (updates : list (Time * CacheStateUpdate))
    (eof : bool) (i : Index) : Index * list MetricCall * bool :=
  (foldl (λ '(i, cs) '(now, u), let '(i', cs') := reportOne cfg now u i in (i', cs ++ cs'))
     (i, []) updates, eof).

Definition PublishEvent (cfg : IndexConfig) (now : Time) (ev : CacheEvent) (i : Index) :
    Index * list MetricCall :=
  if str_eqb (ce_TenantId ev) ProbeTenantID then (i, [])
  else
    match eventTypeFromProto (ce_Type ev) with
    | None => (i, [])
    | Some t =>
        ApplyEvent cfg now
          (mkEvent t (ce_ReplicaId ev) (ce_ModelId ev) (ce_TenantId ev) (ce_PrefixHash ev)
             (ce_AdapterId ev) (microsToTime (ce_TimestampUs ev))) i
    end.

Definition GetCacheState (tenant model : string) (i : Index) : list ReplicaStats * Z :=
  if str_eqb tenant ProbeTenantID then ([], 0) else CacheState tenant model i.

(** ** Floors *)

(** What the floors promise of a PREFIX_MATCH result. *)
Record floorsHold (pol : option PolicyStore) (tenant : string) (inp : lookupInputs)
    (r : LookupResult) : Prop := {
  fh_prefix : 0 < policyMinimumPrefixTokens pol tenant →
    policyMinimumPrefixTokens pol tenant ≤
      effectivePrefixTokens (in_blockTokenCounts inp) (in_exactTokenCount inp);
  fh_matched : 0 < policyMinimumMatchedTokens pol tenant →
    Forall (λ sc, policyMinimumMatchedTokens pol tenant ≤ s_MatchedTokens sc) (res_Scores r);
  fh_score : flt f32_zero (policyRoutingFloorScore pol tenant) = true →
    ∀ top, head (res_Scores r) = Some top →
      flt (s_Score top) (policyRoutingFloorScore pol tenant) = false
}.

Lemma Forall_List_filter_all {A : Type} (p : A → bool) (l : list A) :
  length (List.filter p l) = length l → Forall (λ x, p x = true) l.
Proof.
  induction l as [|x l IH]; intros Hl; simpl in *; [constructor|].
  pose proof (List.filter_length_le p l). destruct (p x) eqn:E; simpl in *; [|lia].
  constructor; [done|]. apply IH. lia.
Qed.

Lemma NoDup_ids_inj (l : list ReplicaScore) x y :
  NoDup (s_ReplicaID <$> l) → x ∈ l → y ∈ l → s_ReplicaID x = s_ReplicaID y → x = y.
Proof.
  intros Hnd Hx Hy E. apply list_elem_of_lookup in Hx as [n Hn], Hy as [m Hm].
  assert (n = m) as ->; [|congruence].
  eapply (NoDup_lookup (s_ReplicaID <$> l)); [done| |].
  - by rewrite list_lookup_fmap, Hn.
  - rewrite list_lookup_fmap, Hm. simpl. by rewrite E.
Qed.

Lemma matchedFloor_scores pol r tenant sc :
  NoDup (s_ReplicaID <$> res_Scores r) → 0 < policyMinimumMatchedTokens pol tenant →
  sc ∈ res_Scores (applyMatchedTokensFloor pol r tenant) →
  policyMinimumMatchedTokens pol tenant ≤ s_MatchedTokens sc.
Proof.
  intros Hnd Hpos. unfold applyMatchedTokensFloor.
  set (floor := policyMinimumMatchedTokens pol tenant) in *.
  rewrite (proj2 (Z.leb_gt floor 0)) by lia. simpl.
  destruct (Nat.eqb_spec (length (res_Scores r)) 0) as [E|_].
  { destruct (res_Scores r); [by intros ?%not_elem_of_nil|done]. }
  destruct (Nat.eqb_spec (length (List.filter (λ sc, floor <=? s_MatchedTokens sc) (res_Scores r)))
    (length (res_Scores r))) as [E|_].
  { intros Hin. apply Forall_List_filter_all in E. rewrite Forall_forall in E.
    apply E in Hin. lia. }
  destruct (_ =? 0)%nat; [by intros ?%not_elem_of_nil|].
  unfold RetainReplicas. destruct (length (res_Scores r) =? 0)%nat eqn:E0.
  { apply Nat.eqb_eq in E0. destruct (res_Scores r); [by intros ?%not_elem_of_nil|done]. }
  simpl. intros [Hk Hin]%elem_of_List_filter. apply bool_decide_eq_true in Hk.
  apply elem_of_list_to_set, list_elem_of_fmap in Hk as (sc' & Hid & Hin').
  apply elem_of_List_filter in Hin' as [Hf Hin'].
  rewrite (NoDup_ids_inj _ sc sc' Hnd Hin Hin' Hid). lia.
Qed.

(** Each stage either keeps the hits delivered or drops the result whole. *)
Lemma matchedFloor_delivered pol r tenant :
  hitsDelivered r → hitsDelivered (applyMatchedTokensFloor pol r tenant).
Proof.
  intros Hd. unfold applyMatchedTokensFloor. repeat case_match; try done.
  by apply RetainReplicas_delivered_aux.
Qed.

Lemma applyFloors_delivered pol r tenant inp :
  hitsDelivered r → hitsDelivered (applyFloors pol r tenant inp).
Proof.
  intros Hd. unfold applyFloors.
  set (r1 := applyPrefixTokensFloor pol r tenant inp).
  assert (hitsDelivered r1) as Hd1 by (unfold r1, applyPrefixTokensFloor; by case_match).
  set (r2 := if bool_decide (res_Strategy r1 = StrategyPrefixMatch)
             then applyMatchedTokensFloor pol r1 tenant else r1).
  assert (hitsDelivered r2) as Hd2.
  { unfold r2. case_match; [|done]. by apply matchedFloor_delivered. }
  unfold applyRoutingFloor. by repeat case_match.
Qed.

(** A surviving PREFIX_MATCH satisfies every floor. *)
Lemma applyFloors_hold pol r tenant inp :
  NoDup (s_ReplicaID <$> res_Scores r) →
  res_Strategy (applyFloors pol r tenant inp) = StrategyPrefixMatch →
  floorsHold pol tenant inp (applyFloors pol r tenant inp).
Proof.
  intros Hnd. unfold applyFloors.
  set (r1 := applyPrefixTokensFloor pol r tenant inp).
  set (r2 := if bool_decide (res_Strategy r1 = StrategyPrefixMatch)
             then applyMatchedTokensFloor pol r1 tenant else r1).
  intros Hs.
  assert (applyRoutingFloor pol r2 tenant = r2 ∧ (flt f32_zero (policyRoutingFloorScore pol tenant) = true →
    ∀ top, head (res_Scores r2) = Some top →
      flt (s_Score top) (policyRoutingFloorScore pol tenant) = false)) as [E3 Hfl].
  { unfold applyRoutingFloor in *. destruct (res_Scores r2) as [|top l] eqn:Er; [done|].
    simpl. destruct (bool_decide _ && _ && _) eqn:Eb; [done|]. split; [done|].
    intros Hpos t [= <-]. rewrite bool_decide_eq_true_2 in Eb by done. by rewrite Hpos in Eb. }
  rewrite E3 in *.
  assert (res_Strategy r1 = StrategyPrefixMatch) as Hs1.
  { unfold r2 in Hs. by case_bool_decide. }
  assert (r1 = r ∧ (0 < policyMinimumPrefixTokens pol tenant →
    policyMinimumPrefixTokens pol tenant ≤
      effectivePrefixTokens (in_blockTokenCounts inp) (in_exactTokenCount inp))) as [E1 Hp].
  { unfold r1, applyPrefixTokensFloor in *. destruct (_ && _ && _) eqn:Eb; [done|]. split; [done|].
    intros Hpos. rewrite Hs1 in Eb. rewrite bool_decide_eq_true_2 in Eb by done.
    simpl in Eb. rewrite andb_true_r in Eb. lia. }
  unfold r2 in *. rewrite bool_decide_eq_true_2 in * by done. rewrite E1 in *.
  split; [done| |done]. intros Hpos. apply Forall_forall. intros sc Hin.
  by apply (matchedFloor_scores pol r tenant).
Qed.

(** ** The result handed to the response *)

Lemma LookupRoute_NoDup cfg v1 v2 v3 req :
  res_Strategy (LookupRoute cfg v1 v2 v3 req) = StrategyPrefixMatch →
  NoDup (s_ReplicaID <$> res_Scores (LookupRoute cfg v1 v2 v3 req)).
Proof.
  destruct (decide (keysPresent req)) as [Hk|Hk].
  2: { by rewrite LookupRoute_missing_key. }
  rewrite LookupRoute_present by done. destruct (_ && _) eqn:Hb; [done|].
  assert (NoDup (s_ReplicaID <$> (lookupWithHits cfg v1.1 req v1.2).1)) as Hnd.
  { unfold lookupWithHits. repeat case_match; try apply NoDup_nil_2.
    - apply lookupChain_NoDup.
    - apply lookupExact_NoDup. }
  destruct (lookupWithHits cfg v1.1 req v1.2) as [scores hits]. simpl in *.
  destruct (0 <? length scores)%nat; [done|]. cbv zeta.
  destruct (classifyMiss_no_scores req v3.2) as [Hn _].
  set (hot := if chainBearing req then [] else _).
  destruct (0 <? length hot)%nat; simpl; [done|]. by intros ?.
Qed.

Lemma gates_delivered pol r tenant :
  hitsDelivered r → hitsDelivered (applyLookupStrategyGates pol r tenant).
Proof. intros Hd. unfold applyLookupStrategyGates. by case_match. Qed.

Lemma gates_strategy pol r tenant :
  res_Strategy (applyLookupStrategyGates pol r tenant) ≠ StrategyNone →
  applyLookupStrategyGates pol r tenant = r.
Proof. unfold applyLookupStrategyGates. by case_match. Qed.

(** ** The shape of a call *)

Section shape.
Context (xxh3 : string → Z → Z) (sha256 : string → string).
Context (tokenizer : string → string → option (list Z)).
Context (pol : option PolicyStore) (blockSize : Z) (tokenizeTimeout : Duration).
Context (cfg : IndexConfig) (req : LookupRouteRequest) (env : Env).

Abbreviation handler :=
  (LookupRouteHandler xxh3 sha256 tokenizer pol blockSize tokenizeTimeout cfg req env).

(** The inputs the call resolves to. *)
Definition inputs : lookupInputs :=
  resolveLookupChain xxh3 tokenizer blockSize (env_semFree env) req
    (policyChainMatchingEnabled pol (q_TenantId req)).

(** The gated index result. *)
Definition gated : LookupResult :=
  applyLookupStrategyGates pol
    (LookupRoute cfg (env_v1 env) (env_v2 env) (env_v3 env) (lookupReqOf pol req inputs))
    (q_TenantId req).

Definition isBare (o : Outcome) : Prop :=
  ∃ reason echo lat, o = bareResponse reason echo lat ∧
    reason ∈ [reasonNoHint; reasonTimeout; reasonPolicyRequiresChain].

Lemma handler_shape :
  isBare handler ∨
  (q_TenantId req ≠ ProbeTenantID ∧
   (policyChainRequired pol (q_TenantId req) = true → requestCarriesValidBlockHashChain req = true) ∧
   in_failOpen inputs = false ∧
   handler = buildLookupResponse sha256 pol req gated inputs (env_affinity env) (env_latencyUs env)).
Proof.
  assert (∀ echo lat, isBare (bareResponse reasonNoHint echo lat)) as B1.
  { intros. eexists _, _, _. split; [done|]. left. }
  assert (∀ echo lat, isBare (bareResponse reasonTimeout echo lat)) as B2.
  { intros. eexists _, _, _. split; [done|]. right. left. }
  unfold LookupRouteHandler. destruct (str_eqb (q_TenantId req) ProbeTenantID) eqn:Ep; [by left|].
  destruct (env_err0 env); [by left|].
  destruct (policyChainRequired pol (q_TenantId req) && negb (requestCarriesValidBlockHashChain req)) eqn:Ec.
  { left. eexists _, _, _. split; [done|]. right. right. left. }
  destruct (hasDeadline _ _ _ _ && _) eqn:Eh; [by left|].
  fold inputs. unfold afterResolve. destruct (env_err1 env); [by left|].
  destruct (in_failOpen inputs) eqn:Ef; [by left|].
  destruct (_ && _ && _); [by left|]. unfold runLookup. fold gated.
  assert (q_TenantId req ≠ ProbeTenantID) by by apply str_eqb_neq.
  assert (policyChainRequired pol (q_TenantId req) = true →
          requestCarriesValidBlockHashChain req = true).
  { intros Hc. rewrite Hc in Ec. by destruct (requestCarriesValidBlockHashChain req). }
  destruct (negb (hasDeadline pol tokenizeTimeout req env)); [right; by split_and!|].
  destruct (env_lookupDone env); [by left|]. destruct (env_err2 env); [by left|].
  match goal with |- isBare (if ?b then _ else _) ∨ _ => destruct b end; [by left|].
  right. by split_and!.
Qed.

Lemma bare_no_credit o : isBare o → resp_ReplicaScores (out_resp o) = [] ∧
  out_hinted o = false ∧ res_hitsByReplica (out_credited o) = ∅ ∧
  resp_ReasonCode (out_resp o) ∈ [reasonNoHint; reasonTimeout; reasonPolicyRequiresChain].
Proof. by intros (reason & echo & lat & -> & Hr). Qed.

Lemma Chain_counts_int32 toks : Forall is_int32 (Chain xxh3 toks blockSize).2.
Proof.
  unfold Chain. simpl. apply Forall_fmap, Forall_true. intros x. simpl. apply wrap32_range.
Qed.

Lemma inputsOfTokens_int32 en toks echo :
  Forall is_int32 (in_blockTokenCounts (inputsOfTokens xxh3 blockSize en toks echo)).
Proof.
  unfold inputsOfTokens. pose proof (Chain_counts_int32 toks) as Hc.
  destruct (Chain xxh3 toks blockSize) as [bh btc]. simpl in Hc.
  destruct (last bh); [|constructor]. simpl. unfold chainCountsIfEnabled. case_match; [done|constructor].
Qed.

Lemma inputs_int32 :
  Forall is_int32 (q_BlockTokenCounts req) → Forall is_int32 (in_blockTokenCounts inputs).
Proof.
  intros Hq. unfold inputs, resolveLookupChain.
  repeat case_match; try constructor; try apply inputsOfTokens_int32; simpl; try done; constructor.
Qed.

Lemma gated_delivered : Forall is_int32 (q_BlockTokenCounts req) → hitsDelivered gated.
Proof.
  intros Hq. apply gates_delivered, LookupRoute_delivered. unfold lookupReqOf. simpl.
  case_match; [by apply inputs_int32|constructor].
Qed.

Lemma gated_NoDup :
  res_Strategy gated = StrategyPrefixMatch → NoDup (s_ReplicaID <$> res_Scores gated).
Proof.
  intros Hs. assert (res_Strategy gated ≠ StrategyNone) as Hn by by rewrite Hs.
  apply gates_strategy in Hn. unfold gated in *. rewrite Hn in *. by apply LookupRoute_NoDup.
Qed.

Lemma applyFloors_strategy r t inp st :
  res_Strategy (applyFloors pol r t inp) = st → st ≠ StrategyNone → res_Strategy r = st.
Proof.
  unfold applyFloors, applyRoutingFloor, applyMatchedTokensFloor, applyPrefixTokensFloor, RetainReplicas.
  intros <-. repeat case_match; simpl in *; simplify_eq; try done.
Qed.
End shape.

(** ** The affinity seed determines the chain *)

Lemma string_app_inj (s1 s2 t1 t2 : string) :
  String.length s1 = String.length s2 → s1 +:+ t1 = s2 +:+ t2 → s1 = s2 ∧ t1 = t2.
Proof.
  revert s2. induction s1 as [|a s1 IH]; intros [|b s2] Hl E; simplify_eq/=; [done|].
  destruct (IH s2) as [-> ->]; done.
Qed.

Lemma be_bytes_length n z : String.length (be_bytes n z) = n.
Proof. induction n; simpl; [done|]. by f_equal. Qed.

Lemma be_bytes_inj n x y :
  0 ≤ x < 256 ^ Z.of_nat n → 0 ≤ y < 256 ^ Z.of_nat n → be_bytes n x = be_bytes n y → x = y.
Proof.
  intros Hx Hy E. pose proof (be_value_be_bytes n 0 x) as H1.
  pose proof (be_value_be_bytes n 0 y) as H2. rewrite E, H2, !Z.mod_small in H1 by lia. lia.
Qed.

Lemma encodeHashes_inj bh1 bh2 :
  Forall (λ b, Z.of_nat (String.length b) < 2 ^ 32) bh1 →
  Forall (λ b, Z.of_nat (String.length b) < 2 ^ 32) bh2 →
  encodeHashes bh1 = encodeHashes bh2 → bh1 = bh2.
Proof.
  revert bh2. induction bh1 as [|b1 bh1 IH]; intros [|b2 bh2] H1 H2 E; [done|done|done|].
  inversion_clear H1 as [|?? Hb1 Hr1]. inversion_clear H2 as [|?? Hb2 Hr2].
  cbn [encodeHashes foldr] in E.
  apply string_app_inj in E as [El E]; [|by rewrite !be_bytes_length].
  assert (Z.of_nat (String.length b1) = Z.of_nat (String.length b2)) as Hl.
  { apply (be_bytes_inj 4) in El.
    - unfold wrapu32 in El. rewrite !Z.mod_small in El by lia. done.
    - apply Z.mod_pos_bound. lia.
    - apply Z.mod_pos_bound. lia. }
  apply string_app_inj in E as [-> E]; [|lia]. f_equal. by apply IH.
Qed.

(** ** Only prefix matches carry hits *)

Lemma LookupRoute_other_hits cfg v1 v2 v3 req :
  res_Strategy (LookupRoute cfg v1 v2 v3 req) ≠ StrategyPrefixMatch →
  res_hitsByReplica (LookupRoute cfg v1 v2 v3 req) = ∅.
Proof.
  destruct (decide (keysPresent req)) as [Hk|Hk].
  2: { by rewrite LookupRoute_missing_key. }
  rewrite LookupRoute_present by done. destruct (chainBearing req && _); [done|].
  destruct (lookupWithHits cfg v1.1 req v1.2) as [scores hits].
  destruct (0 <? length scores)%nat; [done|]. cbv zeta.
  set (hot := if chainBearing req then [] else _). by destruct (0 <? length hot)%nat.
Qed.

Lemma gates_hits pol r t :
  (res_Strategy r ≠ StrategyPrefixMatch → res_hitsByReplica r = ∅) →
  res_Strategy (applyLookupStrategyGates pol r t) ≠ StrategyPrefixMatch →
  res_hitsByReplica (applyLookupStrategyGates pol r t) = ∅.
Proof. intros Hr. unfold applyLookupStrategyGates. by destruct (bool_decide _ && _). Qed.

(** If only prefix matches carry hits before the floors, so do they after. *)
Lemma credited_prefixMatch pol r t inp id ls :
  (res_Strategy r ≠ StrategyPrefixMatch → res_hitsByReplica r = ∅) →
  res_hitsByReplica (applyFloors pol r t inp) !! id = Some ls →
  res_Strategy (applyFloors pol r t inp) = StrategyPrefixMatch.
Proof.
  intros Hr.
  assert (∀ x, res_hitsByReplica (resultOf x) !! id = Some ls → False) as Hnone
    by (intros x Hx; simpl in Hx; by apply lookup_empty_Some in Hx).
  unfold applyFloors. set (r1 := applyPrefixTokensFloor pol r t inp).
  assert (res_Strategy r1 ≠ StrategyPrefixMatch → res_hitsByReplica r1 = ∅) as Hr1.
  { unfold r1, applyPrefixTokensFloor. by case_match. }
  case_bool_decide as Hs1.
  - set (r2 := applyMatchedTokensFloor pol r1 t).
    assert (res_hitsByReplica r2 !! id = Some ls → res_Strategy r2 = StrategyPrefixMatch) as Hr2.
    { unfold r2, applyMatchedTokensFloor, RetainReplicas. repeat case_match; simpl; try done. }
    unfold applyRoutingFloor. repeat case_match; try done.
  - unfold applyRoutingFloor. rewrite bool_decide_eq_false_2 by done. simpl.
    assert (res_hitsByReplica r1 !! id = Some ls → res_Strategy r1 = StrategyPrefixMatch).
    { rewrite Hr1 by done. by intros ?%lookup_empty_Some. }
    by case_match.
Qed.

Lemma tryAffinity_shape sha256 pol req inp i lat resp :
  tryAffinityResponse sha256 pol req inp i lat = Some resp →
  ∃ rid, resp = mkLookupRouteResponse reasonAffinityHint [mkScoreMsg rid f32_zero 0 f32_zero 0]
                  (in_echoTokens inp) (q_AdapterId req) lat ∧
    affinityRoutingEnabled pol (q_TenantId req) = true ∧
    ∃ seed, AffinityHint sha256 (q_TenantId req) (q_ModelId req) (q_HashScheme req) seed i = Some rid.
Proof.
  unfold tryAffinityResponse. destruct (affinityRoutingEnabled _ _) eqn:He; [|done].
  destruct (affinityEligible req); [|done]. simpl.
  intros (seed & _ & H)%bind_Some. apply bind_Some in H as (rid & Hrid & [= <-]). eauto.
Qed.
