(* ===== verification/ServerTheorems.v ===== *)
(** * What the server guarantees

    The properties of the policy store, the fingerprint and the gRPC handlers. *)

From Stdlib Require Import SpecFloat.
From S2P Require Import Prelude Ordering GoRuntime Floats IndexTypes IndexAccounting IndexMetrics.
From S2P Require Import IndexEviction IndexRanking IndexIngest Samples IndexSpec IndexLookup IndexSnapshot.
From S2P Require Import IndexSystem Policy Fingerprint Service.

(** ** Policy propagation *)

(** C10: a rejected push (wrong method, undecodable body, version outside the
    accepted window) changes nothing; an accepted one replaces the whole store, and
    then each namespace runs with exactly the settings its last entry means at that
    version (an omitted field is its default, and a zero matched-token floor means
    "disabled" only from version 4 on), every namespace not in the snapshot with the
    defaults, and every tenant budget is its last pushed value clamped at zero. *)
Theorem policy_push_effect method decoded s :
  let '(status, s') := policyHandler method decoded s in
  match decoded with
  | Some snap =>
      if (str_eqb method "POST" || str_eqb method "PUT") &&
         (PolicyMinimumAcceptedVersion <=? ps_Version snap) &&
         (ps_Version snap <=? PolicyPropagationVersion)
      then status = StatusNoContent ∧
        (∀ ns, ns ≠ "" → settingsOf s' ns =
           match lastOf p_Namespace ns (ps_Policies snap) with
           | Some p => settingsFor (ps_Version snap) p
           | None => defaultSettings
           end) ∧
        (∀ t, t ≠ "" → t ≠ ProbeTenantID → TenantQuota s' t =
           (λ x, Z.max 0 (t_MaxIndexEntries x)) <$> lastOf t_TenantID t (ps_Tenants snap))
      else status ≠ StatusNoContent ∧ s' = s
  | None => status ≠ StatusNoContent ∧ s' = s
  end.
Proof.
  unfold policyHandler.
  assert (negb (str_eqb method "POST") && negb (str_eqb method "PUT") =
          negb (str_eqb method "POST" || str_eqb method "PUT")) as ->.
  { by destruct (str_eqb method "POST"), (str_eqb method "PUT"). }
  destruct (str_eqb method "POST" || str_eqb method "PUT"); [|by destruct decoded].
  destruct decoded as [snap|]; [|done]. cbn [negb andb].
  rewrite (Z.ltb_antisym PolicyMinimumAcceptedVersion), (Z.ltb_antisym (ps_Version snap)).
  destruct (PolicyMinimumAcceptedVersion <=? ps_Version snap); [|done].
  destruct (ps_Version snap <=? PolicyPropagationVersion); [|done]. cbn [negb orb andb].
  split_and!; [done| |].
  - intros ns Hns. rewrite settingsOf_lookup. cbn [policies ReplaceSnapshot].
    rewrite lookup_normalized by done. destruct (lastOf _ _ _); [|done]. simpl.
    apply settingsEntry_normalize.
  - intros t Ht Hp. unfold TenantQuota. rewrite (proj2 (str_eqb_neq t _)) by done.
    rewrite normalize_fmap. cbn [tenants ReplaceSnapshot ps_Tenants].
    rewrite nextTenants_lookup, decide_False by done.
    destruct (lastOf _ _ _) as [x|]; [|done]. simpl. f_equal. unfold clampTenant.
    destruct (Z.ltb_spec (t_MaxIndexEntries x) 0); simpl; lia.
Qed.

(** ** Fingerprint *)

(** Prefix hashes are positional and compose: hashing a longer token sequence
    gives the hashes of its leading whole blocks followed by the hashes of the rest
    chained from the last of them.  So a producer that only sees the new suffix
    blocks and their parent agrees with a consumer that hashes the whole prompt. *)
Theorem prefix_hashes_compose xxh3 t1 t2 bs p h n :
  0 < bs → length t1 = (n * Z.to_nat bs)%nat →
  PrefixHashesFrom xxh3 (t1 ++ t2) bs p h =
    let hs := PrefixHashesFrom xxh3 t1 bs p h in
    hs ++ PrefixHashesFrom xxh3 t2 bs (default p (last hs)) (h || negb (n =? 0)%nat).
Proof. apply PrefixHashesFrom_app. Qed.

Lemma prefix_hashes_compose_witness :
  let xxh3 := λ (s : string) (seed : Z), Z.of_nat (String.length s) + seed in
  PrefixHashesFrom xxh3 ([1; 2] ++ [3; 4]) 2 0 false =
    PrefixHashesFrom xxh3 [1; 2] 2 0 false ++ PrefixHashesFrom xxh3 [3; 4] 2 1345 true.
Proof.
  exact (prefix_hashes_compose (λ (s : string) (seed : Z), Z.of_nat (String.length s) + seed)
    [1; 2] [3; 4] 2 0 false 1 eq_refl eq_refl).
Defined.

(** The lookup chain of a prompt has one 8-byte key and one count per full
    block; partial trailing tokens never change it, and the keys of the first [n]
    blocks only depend on the first [n] blocks of tokens. *)
Theorem chain_prefix_stable xxh3 tokens bs n :
  0 < bs < 2 ^ 31 →
  let bh := (Chain xxh3 tokens bs).1 in
  let btc := (Chain xxh3 tokens bs).2 in
  length bh = (length tokens / Z.to_nat bs)%nat ∧
  btc = replicate (length bh) bs ∧ Forall (λ b, String.length b = 8%nat) bh ∧
  (take n bh, take n btc) = Chain xxh3 (take (n * Z.to_nat bs) tokens) bs.
Proof.
  intros Hbs. unfold Chain, PrefixHashes. cbn [fst snd]. rewrite wrap32_id by (unfold is_int32; lia).
  rewrite !length_fmap, PrefixHashesFrom_length by lia. split_and!; [done| | |].
  - rewrite <-(PrefixHashesFrom_length xxh3 tokens bs 0 false) by lia.
    induction (PrefixHashesFrom xxh3 tokens bs 0 false); simpl; [done|]. by f_equal.
  - apply Forall_fmap, Forall_true. intros x. apply be_bytes_length.
  - rewrite <-!fmap_take, PrefixHashesFrom_take by lia. done.
Qed.

Lemma chain_prefix_stable_witness :
  let xxh3 := λ (s : string) (seed : Z), Z.of_nat (String.length s) + seed in
  (take 1 (Chain xxh3 [1; 2; 3; 4; 5] 2).1, take 1 (Chain xxh3 [1; 2; 3; 4; 5] 2).2) =
    Chain xxh3 [1; 2] 2.
Proof.
  destruct (chain_prefix_stable (λ (s : string) (seed : Z), Z.of_nat (String.length s) + seed)
    [1; 2; 3; 4; 5] 2 1 ltac:(lia)) as (_ & _ & _ & H). exact H.
Defined.

(** ** The LookupRoute handler *)

Section handler_claims.
Context (xxh3 : string → Z → Z) (sha256 : string → string).
Context (tokenizer : string → string → option (list Z)).
Context (pol : option PolicyStore) (blockSize : Z) (tokenizeTimeout : Duration).
Context (cfg : IndexConfig).

(** C8: LFU credit goes only to what was delivered: whatever the context, the
    timeouts and the floors did, an entry is credited only when the response is a
    PREFIX_MATCH that carries its replica; every other response, TIMEOUT included,
    credits nothing. *)
Theorem credit_only_delivered req env id ls :
  Forall is_int32 (q_BlockTokenCounts req) →
  let o := LookupRouteHandler xxh3 sha256 tokenizer pol blockSize tokenizeTimeout cfg req env in
  res_hitsByReplica (out_credited o) !! id = Some ls →
  resp_ReasonCode (out_resp o) = reasonPrefixMatch ∧
  id ∈ m_ReplicaId <$> resp_ReplicaScores (out_resp o).
Proof.
  intros Hint o. unfold o. clear o.
  destruct (handler_shape xxh3 sha256 tokenizer pol blockSize tokenizeTimeout cfg req env)
    as [Hb|(Hp & Hc & Hf & ->)].
  { apply bare_no_credit in Hb as (_ & _ & -> & _). by intros ?%lookup_empty_Some. }
  set (inp := inputs _ _ _ _ _ _). set (g := gated _ _ _ _ _ _ _).
  unfold buildLookupResponse. set (r := applyFloors pol g (q_TenantId req) inp).
  destruct (if bool_decide _ then _ else None) as [resp|] eqn:Ea; simpl.
  { by intros ?%lookup_empty_Some. }
  intros Hl. assert (hitsDelivered r) as Hd.
  { apply applyFloors_delivered, gated_delivered, Hint. }
  split; [|rewrite <-list_fmap_compose; by eapply Hd].
  assert (res_Strategy r = StrategyPrefixMatch) as ->; [|done].
  apply (credited_prefixMatch pol g (q_TenantId req) inp id ls); [|done].
  apply gates_hits, LookupRoute_other_hits.
Qed.

(** A PREFIX_MATCH response respects every policy floor of its tenant: the
    request's own prefix meets minimumPrefixTokens, every replica in the response
    meets minimumMatchedTokens, and the best score is not below routingFloorScore. *)
Theorem prefix_match_meets_floors req env :
  let o := LookupRouteHandler xxh3 sha256 tokenizer pol blockSize tokenizeTimeout cfg req env in
  let t := q_TenantId req in
  let inp := inputs xxh3 tokenizer pol blockSize req env in
  resp_ReasonCode (out_resp o) = reasonPrefixMatch →
  (0 < policyMinimumPrefixTokens pol t →
     policyMinimumPrefixTokens pol t ≤
       effectivePrefixTokens (in_blockTokenCounts inp) (in_exactTokenCount inp)) ∧
  (0 < policyMinimumMatchedTokens pol t →
     Forall (λ m, policyMinimumMatchedTokens pol t ≤ m_MatchedTokens m)
       (resp_ReplicaScores (out_resp o))) ∧
  (flt f32_zero (policyRoutingFloorScore pol t) = true →
     ∀ top, head (resp_ReplicaScores (out_resp o)) = Some top →
       flt (m_Score top) (policyRoutingFloorScore pol t) = false).
Proof.
  intros o t inp. unfold o. clear o.
  destruct (handler_shape xxh3 sha256 tokenizer pol blockSize tokenizeTimeout cfg req env)
    as [Hb|(Hp & Hc & Hf & ->)].
  { apply bare_no_credit in Hb as (_ & _ & _ & Hr). intros E. rewrite E in Hr. exfalso. set_solver. }
  fold inp. set (g := gated _ _ _ _ _ _ _). unfold buildLookupResponse. fold t.
  set (r := applyFloors pol g t inp).
  destruct (if bool_decide _ then _ else None) as [resp|] eqn:Ea; simpl.
  { case_bool_decide; [|done]. apply tryAffinity_shape in Ea as (rid & -> & _). done. }
  intros E. assert (res_Strategy r = StrategyPrefixMatch) as Hs by by destruct (res_Strategy r).
  assert (res_Strategy g = StrategyPrefixMatch) as Hg by by eapply applyFloors_strategy.
  destruct (applyFloors_hold pol g t inp) as [H1 H2 H3]; [by apply gated_NoDup|done|].
  split_and!; [done| |].
  - intros Hpos. apply Forall_fmap. by apply H2.
  - intros Hpos top Htop. fold r in H3. destruct (res_Scores r) as [|sc l]; [done|].
    injection Htop as <-. by apply (H3 Hpos sc).
Qed.

(** The policy gates hold whatever the index returns: a tenant that requires a
    chain gets a hint only for a request that carries a well-formed one; with
    TENANT_HOT disabled no response is a TENANT_HOT; with affinity disabled none is
    an AFFINITY_HINT. *)
Theorem policy_gates_hold req env :
  let o := LookupRouteHandler xxh3 sha256 tokenizer pol blockSize tokenizeTimeout cfg req env in
  let t := q_TenantId req in
  (policyChainRequired pol t = true → requestCarriesValidBlockHashChain req = false →
     resp_ReplicaScores (out_resp o) = [] ∧ out_hinted o = false) ∧
  (policyTenantHotEnabled pol t = false → resp_ReasonCode (out_resp o) ≠ reasonTenantHot) ∧
  (affinityRoutingEnabled pol t = false → resp_ReasonCode (out_resp o) ≠ reasonAffinityHint).
Proof.
  intros o t. unfold o. clear o.
  destruct (handler_shape xxh3 sha256 tokenizer pol blockSize tokenizeTimeout cfg req env)
    as [Hb|(Hp & Hc & Hf & ->)].
  { apply bare_no_credit in Hb as (Hr & Hh & _ & Hre).
    split_and!; [done|intros _ E..]; rewrite E in Hre; exfalso; set_solver. }
  set (inp := inputs _ _ _ _ _ _). set (g := gated _ _ _ _ _ _ _).
  unfold buildLookupResponse. fold t. set (r := applyFloors pol g t inp).
  split_and!.
  - intros Hc1 Hc2. by rewrite Hc in Hc2.
  - intros Hhot. destruct (if bool_decide _ then _ else None) as [resp|] eqn:Ea; simpl.
    { case_bool_decide; [|done]. apply tryAffinity_shape in Ea as (rid & -> & _). done. }
    intros E. assert (res_Strategy r = StrategyTenantHot) as Hs by by destruct (res_Strategy r).
    assert (res_Strategy g = StrategyTenantHot) as Hg by by eapply applyFloors_strategy.
    unfold g, gated, applyLookupStrategyGates in Hg. fold t in Hg. rewrite Hhot in Hg.
    case_bool_decide; simpl in Hg; done.
  - intros Haff. destruct (if bool_decide _ then _ else None) as [resp|] eqn:Ea; simpl.
    { case_bool_decide; [|done]. apply tryAffinity_shape in Ea as (rid & _ & Hen & _).
      unfold t in Haff. by rewrite Haff in Hen. }
    by destruct (res_Strategy r).
Qed.

(** An AFFINITY_HINT names exactly one replica, which serves the request's
    (tenant, model, scheme) in the index state read for it, claims no score and no
    matched tokens, and credits nothing. *)
Theorem affinity_response_serves req env :
  let o := LookupRouteHandler xxh3 sha256 tokenizer pol blockSize tokenizeTimeout cfg req env in
  index_wf (cfg_reservedTenants cfg) (env_affinity env) →
  resp_ReasonCode (out_resp o) = reasonAffinityHint →
  ∃ rid, resp_ReplicaScores (out_resp o) = [mkScoreMsg rid f32_zero 0 f32_zero 0] ∧
    serves (env_affinity env) (ScopeKey (q_TenantId req) (q_ModelId req) (q_HashScheme req)) rid ∧
    res_hitsByReplica (out_credited o) = ∅.
Proof.
  intros o Hwf. unfold o. clear o.
  destruct (handler_shape xxh3 sha256 tokenizer pol blockSize tokenizeTimeout cfg req env)
    as [Hb|(Hp & Hc & Hf & ->)].
  { apply bare_no_credit in Hb as (_ & _ & _ & Hr). intros E. rewrite E in Hr. exfalso. set_solver. }
  set (inp := inputs _ _ _ _ _ _). set (g := gated _ _ _ _ _ _ _).
  unfold buildLookupResponse. set (r := applyFloors pol g (q_TenantId req) inp).
  destruct (if bool_decide _ then _ else None) as [resp|] eqn:Ea; simpl.
  - intros _. case_bool_decide; [|done]. apply tryAffinity_shape in Ea as (rid & -> & _ & seed & Hs).
    exists rid. split_and!; [done| |done]. by eapply AffinityHint_serves.
  - by destruct (res_Strategy r).
Qed.
End handler_claims.

(** A store with a matched-token floor of 16 for tenant "a", a call over the
    sample index, and concrete stand-ins for the hash functions. *)
Definition samplePolicies : PolicyStore :=
  (policyHandler "POST"
     (Some (mkPolicySnapshot 7
        [mkPolicy "a" 0 8 16 None 0 None "lfu" None]
        [mkTenant "a" (-3) ""])) NewPolicyStore).2.

Definition sampleEnv (i : Index) : Env :=
  mkEnv false false false false true false false 0 5 (t0, i) (t0, i) (t0, i) i.

Definition sampleQuery (tenant hash : string) (tokens : Z) : LookupRouteRequest :=
  mkLookupRouteRequest "m" tenant "vllm" "" hash tokens [] [] [] "" 0 0.

Definition lenHash (s : string) (seed : Z) : Z := Z.of_nat (String.length s) + seed.

Definition sampleCall (req : LookupRouteRequest) (i : Index) : Outcome :=
  LookupRouteHandler lenHash (λ s, s) (λ _ _, None) (Some samplePolicies) DefaultEngineBlockSize
    DefaultTokenizeTimeout sampleCfg req (sampleEnv i).

Lemma credit_only_delivered_witness :
  resp_ReasonCode (out_resp (sampleCall (sampleQuery "a" "p" 32) sampleIndex)) = reasonPrefixMatch ∧
  "r1" ∈ m_ReplicaId <$> resp_ReplicaScores (out_resp (sampleCall (sampleQuery "a" "p" 32) sampleIndex)).
Proof.
  apply (credit_only_delivered lenHash (λ s, s) (λ _ _, None) (Some samplePolicies)
    DefaultEngineBlockSize DefaultTokenizeTimeout sampleCfg (sampleQuery "a" "p" 32)
    (sampleEnv sampleIndex) "r1" [1%positive]).
  - constructor.
  - vm_compute. reflexivity.
Defined.

Lemma prefix_match_meets_floors_witness :
  Forall (λ m, 16 ≤ m_MatchedTokens m)
    (resp_ReplicaScores (out_resp (sampleCall (sampleQuery "a" "p" 32) sampleIndex))).
Proof.
  refine (proj1 (proj2 (prefix_match_meets_floors lenHash (λ s, s) (λ _ _, None)
    (Some samplePolicies) DefaultEngineBlockSize DefaultTokenizeTimeout sampleCfg
    (sampleQuery "a" "p" 32) (sampleEnv sampleIndex) _)) _).
  - vm_compute. reflexivity.
  - vm_compute. reflexivity.
Defined.

Lemma affinity_response_serves_witness :
  ∃ rid, serves sampleIndex (ScopeKey "a" "m" "vllm") rid.
Proof.
  destruct (affinity_response_serves lenHash (λ s, s) (λ _ _, None) (Some samplePolicies)
    DefaultEngineBlockSize DefaultTokenizeTimeout sampleCfg (sampleQuery "a" "novel" 4)
    (sampleEnv sampleIndex)) as (rid & _ & Hs & _).
  - apply sampleIndex_wf.
  - vm_compute. reflexivity.
  - exists rid. exact Hs.
Defined.

(** The affinity seed of a chain determines the chain: two lists of block
    hashes (each below 4 GiB) with the same length-prefixed encoding are equal, so
    distinct chains never share a seed by concatenation. *)
Theorem affinity_seed_injective in1 in2 s :
  in_blockHashes in1 ≠ [] → in_blockHashes in2 ≠ [] →
  Forall (λ b, Z.of_nat (String.length b) < 2 ^ 32) (in_blockHashes in1) →
  Forall (λ b, Z.of_nat (String.length b) < 2 ^ 32) (in_blockHashes in2) →
  canonicalAffinitySeed in1 = Some s → canonicalAffinitySeed in2 = Some s →
  in_blockHashes in1 = in_blockHashes in2.
Proof.
  intros Hn1 Hn2 Hl1 Hl2. unfold canonicalAffinitySeed.
  destruct (in_blockHashes in1) as [|b1 l1]; [done|].
  destruct (in_blockHashes in2) as [|b2 l2]; [done|].
  change (Some (encodeHashes (b1 :: l1)) = Some s → Some (encodeHashes (b2 :: l2)) = Some s →
    b1 :: l1 = b2 :: l2).
  intros E1 E2. apply encodeHashes_inj; [done..|]. congruence.
Qed.

Lemma affinity_seed_injective_witness :
  let inp := mkLookupInputs ["ab"; "c"] [] "" 0 [] false in
  in_blockHashes inp = ["ab"; "c"].
Proof.
  intros inp. apply (affinity_seed_injective inp (mkLookupInputs ["ab"; "c"] [] "" 0 [7] false)
    (encodeHashes ["ab"; "c"])).
  - discriminate.
  - discriminate.
  - repeat constructor.
  - repeat constructor.
  - reflexivity.
  - reflexivity.
Defined.

(** A tier outside the wire enumeration is stored as itself, or as the coldest value
    when negative: either way strictly colder than T3. *)
Lemma stored_unknown_tier t :
  is_int32 t → t < 0 ∨ 3 < t → 3 < normalizeIngestTier (cacheTierFromProto t).
Proof.
  unfold is_int32, normalizeIngestTier, cacheTierFromProto, tierInvalidCold, TierUnspecified,
    TierT1, TierT2, TierT3, MaxInt32.
  intros Ht Hr.
  destruct (Z.eqb_spec t 0); [lia|]. destruct (Z.eqb_spec t 1); [lia|].
  destruct (Z.eqb_spec t 2); [lia|]. destruct (Z.eqb_spec t 3); [lia|].
  destruct (Z.ltb_spec t 0); [simpl; lia|].
  destruct (Z.eqb_spec t 0); lia.
Qed.

Lemma unknown_tier_cold c known :
  3 < c → TierT1 ≤ known ≤ TierT3 →
  cacheTierToProto c = 0 ∧ worstTier known c = c ∧ worstTier c known = c.
Proof.
  unfold cacheTierToProto, worstTier, TierUnspecified, TierT1, TierT2, TierT3. intros Hc Hk.
  rewrite (proj2 (Z.eqb_neq c 1)), (proj2 (Z.eqb_neq c 2)), (proj2 (Z.eqb_neq c 3)) by lia.
  rewrite (proj2 (Z.eqb_neq c 0)), (proj2 (Z.eqb_neq known 0)) by lia.
  rewrite ?(proj2 (Z.ltb_ge c known)), ?(proj2 (Z.ltb_lt known c)) by lia.
  repeat case_match; lia.
Qed.

(** A reported tier is never upgraded: only an unset or T1 report is stored and
    echoed as T1; T2 and T3 survive the round trip; any other value on the wire,
    corrupt negatives included, is echoed as UNSPECIFIED and makes every run it is
    part of colder than the known tiers. *)
Theorem tier_never_fails_hot t known :
  is_int32 t → TierT1 ≤ known ≤ TierT3 →
  let stored := normalizeIngestTier (cacheTierFromProto t) in
  (cacheTierToProto stored = 1 ↔ t = 0 ∨ t = 1) ∧
  (1 ≤ t ≤ 3 → cacheTierToProto stored = t) ∧
  (t < 0 ∨ 3 < t → cacheTierToProto stored = 0 ∧ known < worstTier known stored ∧
     worstTier known stored = worstTier stored known ∧
     cacheTierToProto (worstTier known stored) = 0).
Proof.
  intros Ht Hk stored.
  destruct (decide (t < 0 ∨ 3 < t)) as [Hr|Hr].
  - destruct (unknown_tier_cold stored known (stored_unknown_tier t Ht Hr) Hk) as (E & W & W').
    pose proof (stored_unknown_tier t Ht Hr : 3 < stored). unfold TierT3 in Hk.
    rewrite W, W', E. split_and!; [lia|lia|]. intros _. split_and!; [done|lia|done|done].
  - assert (t = 0 ∨ t = 1 ∨ t = 2 ∨ t = 3) as Hin by (unfold is_int32 in Ht; lia).
    destruct Hin as [->|[->|[->| ->]]]; vm_compute; naive_solver lia.
Qed.

Lemma tier_never_fails_hot_witness :
  cacheTierToProto (normalizeIngestTier (cacheTierFromProto (-5))) = 0 ∧
  cacheTierToProto (normalizeIngestTier (cacheTierFromProto 3)) = 3.
Proof.
  split.
  - destruct (tier_never_fails_hot (-5) TierT2) as (_ & _ & H);
      [unfold is_int32; lia|unfold TierT1, TierT2, TierT3; lia|].
    apply H. lia.
  - destruct (tier_never_fails_hot 3 TierT2) as (_ & H & _);
      [unfold is_int32; lia|unfold TierT1, TierT2, TierT3; lia|].
    apply H. lia.
Defined.
