(* ===== verification/Probe.v ===== *)
(** * The functional probe (internal/server/probe.go, internal/controlplaneapi/probe.go)

    One run synthesises a block under the reserved tenant, checks that a direct lookup
    and the routing entry point both find it, optionally exercises the tier-2 store,
    and always cleans up.  The index operations other callers run between two steps
    of a probe are part of the model ([ProbeEnv]): each step of [Run] is one critical
    section, everything else may interleave.  SHA-256 and the tier-2 client are
    parameters.  The operator-facing text of an error is represented by its cause. *)

From S2P Require Import Prelude Ordering GoRuntime IndexTypes IndexAccounting IndexMetrics IndexEviction.
From S2P Require Import IndexRanking IndexIngest IndexSpec IndexLookup IndexSystem Policy Service.

Definition ProbeReplicaPrefix : string := "__probe-".
Definition ProbeTokenCount : Z := 16.
Definition BackendTypeLMCache : string := "LMCache".

Inductive ProbeStageResult := ProbeStageOK | ProbeStageFailed | ProbeStageSkipped.

#[export] Instance ProbeStageResult_eq_dec : EqDecision ProbeStageResult.
Proof. solve_decision. Defined.

Record ProbeRequest := mkProbeRequest {
  pq_Backend : string;
  pq_Model : string;
  pq_HashScheme : string;
  pq_BackendType : string
}.

(** An error of a stage: which stage, and what it found. *)
Inductive ProbeStageError :=
  | IngestNotLanded
  | RoutingWrongReason (reason : string)
  | RoutingReplicaMissing (replicaID : string)
  | T2CycleFailed (msg : string).

Record ProbeResult := mkProbeResult {
  pr_Backend : string;
  pr_Ingest : ProbeStageResult;
  pr_Routing : ProbeStageResult;
  pr_T2 : ProbeStageResult;
  pr_Errors : list ProbeStageError
}.

Definition stagePassed (stage : ProbeStageResult) : bool :=
  match stage with ProbeStageOK | ProbeStageSkipped => true | ProbeStageFailed => false end.

Definition AllPassed (r : ProbeResult) : bool :=
  stagePassed (pr_Ingest r) && stagePassed (pr_Routing r) && stagePassed (pr_T2 r).

Definition ProbeReplicaID (backend : string) : string := ProbeReplicaPrefix +:+ backend.

Definition newline : string := String (byte_of_Z 10) "".

(** The canonical input of the probe hash: a version marker and three
    length-prefixed fields. *)
Definition probeHashInput (backend model hashScheme : string) : string :=
  ("inferencecache.io/probe/v1" +:+ newline) +:+ encodeHashes [hashScheme; model; backend].

Definition replicaInScores (scores : list ReplicaScore) (replicaID : string) : bool :=
  existsb (λ s, str_eqb (s_ReplicaID s) replicaID) scores.

Definition probePayload (probeHash : string) : string :=
  ("probe-payload-v1" +:+ newline) +:+ probeHash.

(** What a run observes: its clock readings and what other callers do to the index
    between its steps. *)
Record ProbeEnv := mkProbeEnv {
  pv_stamp : Time;             (* p.now() for the update *)
  pv_ingestNow : Time;         (* the index clock of the ingest *)
  pv_afterIngest : list IndexOp;
  pv_lookupNow : Time;         (* the index clock of the direct lookup *)
  pv_afterLookup : list IndexOp;
  pv_routeNow : Time;          (* the index clock of LookupRoute *)
  pv_duringRoute : list IndexOp;
  pv_afterRoute : list IndexOp;
  pv_cleanupStamp : Time;      (* p.now() for the cleanup event *)
  pv_cleanupNow : Time         (* the index clock of the cleanup *)
}.

Section probe.
Context (sha256 : string → string).
(** The tier-2 client: [None] is a nil prober; a call returns its error, if any. *)
Context (t2 : option (string → string → option string)).
Context (cfg : IndexConfig).

Definition ProbeHash (backend model hashScheme : string) : string :=
  sha256 (probeHashInput backend model hashScheme).

Definition probeUpdate (req : ProbeRequest) (stamp : Time) : Update :=
  let replicaID := ProbeReplicaID (pq_Backend req) in
  mkUpdate replicaID (pq_Model req) ProbeTenantID (pq_HashScheme req) "" stamp
    [mkPrefixRef "" 0 [ProbeHash (pq_Backend req) (pq_Model req) (pq_HashScheme req)]
       [ProbeTokenCount] TierUnspecified ""]
    (Some (mkReplicaStats replicaID 0 f32_one f32_zero 0 0)).

Definition directReq (req : ProbeRequest) : LookupRequest :=
  mkLookupRequest (pq_Model req) ProbeTenantID (pq_HashScheme req) "" "" 0
    [ProbeHash (pq_Backend req) (pq_Model req) (pq_HashScheme req)] [ProbeTokenCount] 0 0.

Definition cleanup (model replicaID : string) (stamp now : Time) (i : Index) : Index :=
  (ApplyEvent cfg now (mkEvent EventAllCleared replicaID model ProbeTenantID "" "" stamp) i).1.

(** Stage B: the routing outcome, or the error it reports. *)
Definition routingError (routeRes : LookupResult) (replicaID : string) : option ProbeStageError :=
  match res_Strategy routeRes with
  | StrategyPrefixMatch =>
      if replicaInScores (res_Scores routeRes) replicaID then None
      else Some (RoutingReplicaMissing replicaID)
  | s => Some (RoutingWrongReason (reasonForStrategy s))
  end.

(** Stage C. *)
Definition runT2Stage (req : ProbeRequest) : ProbeResult :=
  let runT2 := str_eqb (pq_BackendType req) BackendTypeLMCache || str_eqb (pq_BackendType req) "" in
  match t2 with
  | Some put =>
      if runT2 then
        match put (pq_Backend req)
                (probePayload (ProbeHash (pq_Backend req) (pq_Model req) (pq_HashScheme req))) with
        | Some err =>
            mkProbeResult (pq_Backend req) ProbeStageOK ProbeStageOK ProbeStageFailed
              [T2CycleFailed err]
        | None => mkProbeResult (pq_Backend req) ProbeStageOK ProbeStageOK ProbeStageOK []
        end
      else mkProbeResult (pq_Backend req) ProbeStageOK ProbeStageOK ProbeStageSkipped []
  | None => mkProbeResult (pq_Backend req) ProbeStageOK ProbeStageOK ProbeStageSkipped []
  end.

Definition Run (req : ProbeRequest) (env : ProbeEnv) (i : Index) : ProbeResult * Index :=
  let replicaID := ProbeReplicaID (pq_Backend req) in
  let finish i :=
    cleanup (pq_Model req) replicaID (pv_cleanupStamp env) (pv_cleanupNow env) i in
  let i1 := (Ingest cfg (pv_ingestNow env) (probeUpdate req (pv_stamp env)) i).1 in
  let i2 := runTraffic cfg (pv_afterIngest env) i1 in
  if negb (replicaInScores (Lookup cfg (pv_lookupNow env) (directReq req) i2) replicaID) then
    (mkProbeResult (pq_Backend req) ProbeStageFailed ProbeStageSkipped ProbeStageSkipped
       [IngestNotLanded],
     finish (runTraffic cfg (pv_afterRoute env) i2))
  else
    let i3 := runTraffic cfg (pv_afterLookup env) i2 in
    let i4 := runTraffic cfg (pv_duringRoute env) i3 in
    let routeRes :=
      LookupRoute cfg (pv_routeNow env, i3) (pv_routeNow env, i4) (pv_routeNow env, i4)
        (directReq req) in
    let i5 := runTraffic cfg (pv_afterRoute env) i4 in
    match routingError routeRes replicaID with
    | Some err =>
        (mkProbeResult (pq_Backend req) ProbeStageOK ProbeStageFailed ProbeStageSkipped [err],
         finish i5)
    | None => (runT2Stage req, finish i5)
    end.

(** The HTTP handler; [decoded] is the result of the two decodes: [None] when the body
    is not exactly one valid request. *)
Definition probeHandler (method : string) (decoded : option ProbeRequest) (env : ProbeEnv)
    (i : Index) : HTTPStatus + (ProbeResult * Index) :=
  if negb (str_eqb method "POST") then inl StatusMethodNotAllowed
  else
    match decoded with
    | None => inl StatusBadRequest
    | Some req =>
        if str_eqb (pq_Backend req) "" || str_eqb (pq_Model req) "" ||
           str_eqb (pq_HashScheme req) "" then inl StatusBadRequest
        else inr (Run req env i)
    end.
End probe.

(** ** The synthesised hold *)

Section lemmas.
Context (sha256 : string → string) (cfg : IndexConfig) (req : ProbeRequest).
Notation rt := (cfg_reservedTenants cfg).
Notation rid := (ProbeReplicaID (pq_Backend req)).

Definition probeKey : prefixKey :=
  PrefixKey ProbeTenantID (pq_Model req) (pq_HashScheme req) ""
    (ProbeHash sha256 (pq_Backend req) (pq_Model req) (pq_HashScheme req)).

(** The hold a run ingests, seen from a later state: found and still fresh. *)
Definition probeLive (now ts : Time) (i : Index) : Prop :=
  (∃ e, entryAt i probeKey rid = Some e ∧ lastSeen e = ts) ∧
  fle (freshnessAt now ts (ttlFor cfg ProbeTenantID)) f32_zero = false.

Lemma probe_writes stamp :
  pq_HashScheme req ≠ "" →
  updateWrites (probeUpdate sha256 req stamp) = [(probeKey, ProbeTokenCount, TierT1)].
Proof. intros Hs. unfold updateWrites. by rewrite decide_False. Qed.

Lemma probe_ingest_hold now stamp i :
  index_wf rt i → isReservedTenant rt ProbeTenantID = true →
  tenantQuotaFor cfg ProbeTenantID = None → pq_HashScheme req ≠ "" →
  ∃ e, entryAt (Ingest cfg now (probeUpdate sha256 req stamp) i).1 probeKey rid = Some e ∧
       lastSeen e = stampOr now stamp.
Proof.
  intros Hwf Hres Hq Hs. rewrite Ingest_fst, entryAt_reportEntries.
  unfold enforceQuota. cbn [u_Tenant probeUpdate]. rewrite Hq. cbn [fst].
  rewrite entryAt_reservedCap by auto with index_wf.
  unfold ingested. rewrite probe_writes by done. cbn [u_Timestamp probeUpdate foldl].
  match goal with |- context [entryAt (ingestStats ?u ?t ?j)] =>
    change (∃ e, entryAt j probeKey rid = Some e ∧ lastSeen e = stampOr now stamp) end.
  unfold applyWrite. rewrite entryAt_upsert by apply Hwf. rewrite decide_True by done. eauto.
Qed.

(** Traffic that avoids the hold keeps it in place with its stamp. *)
Lemma live_traffic ops i e ts :
  index_wf rt i → isReservedTenant rt ProbeTenantID = true →
  entryAt i probeKey rid = Some e → lastSeen e = ts → Forall (avoids cfg probeKey rid ts) ops →
  ∃ e', entryAt (runTraffic cfg ops i) probeKey rid = Some e' ∧ lastSeen e' = ts.
Proof.
  intros Hwf Hres He Hts Hops. rewrite <-Hts in Hops.
  pose proof (sameHold_traffic cfg ops i probeKey rid e Hwf Hres He Hops) as Hs.
  destruct (entryAt (runTraffic cfg ops i) probeKey rid) as [e'|]; [|done].
  exists e'. simpl in Hs. split; [done|]. by destruct Hs as (_ & -> & _).
Qed.

(** A live hold is found by the chain lookup. *)
Lemma probe_lookup_finds now ts i :
  pq_HashScheme req ≠ "" → probeLive now ts i →
  replicaInScores (Lookup cfg now (directReq sha256 req) i) rid = true.
Proof.
  intros Hs ((e & He & Hts) & Hf).
  assert (∃ l, freshHold now (ttlFor cfg ProbeTenantID) (directReq sha256 req) i rid
    (pk_prefixHash probeKey) = Some (l, e)) as [l Hl].
  { unfold freshHold. change (reqKey _ _) with probeKey. rewrite entryAt_locAt in He.
    destruct (locAt i probeKey rid) as [l|]; [|done]. simpl in *. rewrite He. simpl.
    rewrite Hts, Hf. eauto. }
  destruct (proj2 (lookupChain_elem cfg now (directReq sha256 req) i rid ProbeTokenCount
    (worstOf [(l, e)]) (freshnessAt now (oldestOf [(l, e)]) (ttlFor cfg ProbeTenantID)) eq_refl
    ltac:(repeat constructor; done))) as (s & Hin & Hid & _).
  { unfold matchedOf, runOf. cbn [lr_BlockHashes directReq leadingRun lr_Tenant].
    change (ProbeHash _ _ _ _) with (pk_prefixHash probeKey). rewrite Hl. done. }
  unfold Lookup, lookupWithHits. cbn [lr_HashScheme directReq].
  unfold str_eqb at 1. rewrite bool_decide_eq_false_2 by done.
  change (chainBearing _) with true. change (chainMalformed _) with false. cbv iota.
  unfold replicaInScores. apply existsb_exists. exists s.
  rewrite <-list_elem_of_In. split; [done|]. by rewrite Hid, str_eqb_refl.
Qed.

Lemma probe_route_matches now ts i v2 v3 :
  pq_Model req ≠ "" → pq_HashScheme req ≠ "" → probeLive now ts i →
  routingError (LookupRoute cfg (now, i) v2 v3 (directReq sha256 req)) rid = None.
Proof.
  intros Hm Hs Hlive. pose proof (probe_lookup_finds now ts i Hs Hlive) as Hin.
  unfold LookupRoute, Lookup in *. cbn [lr_Tenant lr_Model lr_HashScheme directReq].
  rewrite !(proj2 (str_eqb_neq _ _)) by done. cbn [orb].
  change (chainBearing _) with true. change (chainMalformed _) with false. cbv iota. cbn [fst snd].
  destruct (lookupWithHits cfg now (directReq sha256 req) i) as [scores hits]. cbn [fst] in Hin.
  destruct scores as [|s0 scores]; [done|]. cbn [length Nat.ltb Nat.leb].
  unfold routingError. cbn [res_Strategy res_Scores]. by rewrite Hin.
Qed.
End lemmas.

(** ** Cleanup *)

Section cleanup.
Context (cfg : IndexConfig) (model r : string).
Notation rt := (cfg_reservedTenants cfg).

Definition probeResidue (i : Index) : Prop :=
  (∃ k, pk_tenant k = ProbeTenantID ∧ pk_model k = model ∧ is_Some (entryAt i k r)) ∨
  is_Some (stats i !! StatsKey ProbeTenantID model r).

Lemma cleanup_spec stamp now i :
  absIndex (cleanup cfg model r stamp now i) =
    mkStore
      (filter (λ kv, ¬ (kv.1.2 = r ∧ pk_tenant kv.1.1 = ProbeTenantID ∧ pk_model kv.1.1 = model))
         (absEntries i))
      (delete (StatsKey ProbeTenantID model r) (stats i)).
Proof.
  unfold cleanup. rewrite ApplyEvent_refines. unfold specEvent. cbn [ev_Type st_entries st_stats absIndex].
  done.
Qed.

Lemma cleanup_no_residue stamp now i : ¬ probeResidue (cleanup cfg model r stamp now i).
Proof.
  pose proof (cleanup_spec stamp now i) as Hc. injection Hc as HE HS.
  intros [(k & Ht & Hm & e & He)|[s Hs]].
  - rewrite <-absEntries_lookup, HE in He. apply map_lookup_filter_Some in He as [_ Hn].
    by destruct Hn.
  - by rewrite HS, lookup_delete_eq in Hs.
Qed.
End cleanup.

(** A quiet run on an index within its cap writes the synthesised hold and its stats,
    and nothing else. *)
Lemma probe_ingest_spec sha256 cfg req now stamp i :
  index_wf (cfg_reservedTenants cfg) i →
  isReservedTenant (cfg_reservedTenants cfg) ProbeTenantID = true →
  tenantQuotaFor cfg ProbeTenantID = None →
  cfg_maxEntries cfg ≤ 0 ∨ effectiveTotal i ≤ cfg_maxEntries cfg →
  let rid := ProbeReplicaID (pq_Backend req) in
  let i' := (Ingest cfg now (probeUpdate sha256 req stamp) i).1 in
  (∀ k r, (k, r) ≠ (probeKey sha256 req, rid) → entryAt i' k r = entryAt i k r) ∧
  (∀ sk, sk ≠ StatsKey ProbeTenantID (pq_Model req) rid → stats i' !! sk = stats i !! sk).
Proof.
  intros Hwf Hres Hq Hcap rid i'. unfold i'. rewrite Ingest_fst. unfold enforceQuota.
  cbn [u_Tenant probeUpdate]. rewrite Hq. cbn [fst].
  set (u := probeUpdate sha256 req stamp).
  destruct (ingested_reserved cfg now u i Hwf Hres) as [Heff _].
  assert (enforceCapLocked cfg (ingested cfg now u i) = (ingested cfg now u i, ∅)) as ->.
  { destruct Hcap as [Hc|Hc]; [|apply enforceCap_idle; lia].
    unfold enforceCapLocked, enforceCapOver. by rewrite (proj2 (Z.leb_le _ _) Hc). }
  cbn [fst]. pose proof (absIndex_reportEntries cfg (ingested cfg now u i)) as Hr.
  rewrite absIndex_ingested in Hr by done. injection Hr as HE HS. split.
  - intros k r Hne. rewrite <-!absEntries_lookup, HE.
    destruct (decide (pq_HashScheme req = "")) as [Hs|Hs].
    { unfold updateWrites. by rewrite decide_True. }
    unfold u. rewrite probe_writes by done. cbn [foldl]. unfold specWrite.
    rewrite lookup_insert_ne; [done|]. intros E. by apply Hne.
  - intros sk Hne. rewrite HS. unfold specStats. cbn [u_Stats u probeUpdate].
    rewrite lookup_insert_ne; [done|]. intros E. by apply Hne.
Qed.

(** ** The public contract and the reserved scope *)

Lemma ReportCacheState_fst cfg updates eof i :
  (ReportCacheState cfg updates eof i).1.1 =
    foldl (λ i tu, (reportOne cfg tu.1 tu.2 i).1) i updates.
Proof.
  unfold ReportCacheState. cbn [fst]. generalize (@nil MetricCall) as cs. revert i.
  induction updates as [|[now u] us IH]; intros i cs; cbn [foldl fst snd]; [done|].
  destruct (reportOne cfg now u i) as [i' cs']. apply IH.
Qed.

Lemma reportOne_closed cfg now u i k r sk :
  index_wf (cfg_reservedTenants cfg) i →
  isReservedTenant (cfg_reservedTenants cfg) ProbeTenantID = true →
  pk_tenant k = ProbeTenantID → sk_tenant sk = ProbeTenantID →
  let i' := (reportOne cfg now u i).1 in
  index_wf (cfg_reservedTenants cfg) i' ∧ entryAt i' k r = entryAt i k r ∧
  stats i' !! sk = stats i !! sk.
Proof.
  intros Hwf Hres Hk Hsk i'. unfold i', reportOne. clear i'.
  destruct (str_eqb (cu_TenantId u) ProbeTenantID) eqn:Hu; [done|]. apply str_eqb_neq in Hu.
  split_and!; [by apply wf_Ingest| |].
  - destruct (entryAt_foreignIngest cfg now (updateFromProto u) i k r Hwf) as [He|(_ & Hr & _)];
      [cbn; congruence|done|congruence].
  - apply (stats_foreign cfg (OpIngest now (updateFromProto u)) i sk (cu_TenantId u));
      [done|done|congruence].
Qed.

Lemma PublishEvent_closed cfg now ev i k r sk :
  index_wf (cfg_reservedTenants cfg) i →
  pk_tenant k = ProbeTenantID → sk_tenant sk = ProbeTenantID →
  let i' := (PublishEvent cfg now ev i).1 in
  entryAt i' k r = entryAt i k r ∧ stats i' !! sk = stats i !! sk.
Proof.
  intros Hwf Hk Hsk i'. unfold i', PublishEvent. clear i'.
  destruct (str_eqb (ce_TenantId ev) ProbeTenantID) eqn:Hu; [done|]. apply str_eqb_neq in Hu.
  destruct (eventTypeFromProto (ce_Type ev)) as [ty|]; [|done].
  match goal with |- context [ApplyEvent _ _ ?e _] => set (e' := e) end. split.
  - apply entryAt_foreignEvent. cbn. congruence.
  - apply (stats_foreign cfg (OpEvent now e') i sk (ce_TenantId ev)); [done|done|congruence].
Qed.

(** Dropping the probe's holds from a state that differs from [i] only in them gives
    back [i], if [i] had none. *)
Lemma cleanup_restores model r k0 i j :
  ¬ probeResidue model r i → pk_tenant k0 = ProbeTenantID → pk_model k0 = model →
  (∀ k r', (k, r') ≠ (k0, r) → entryAt j k r' = entryAt i k r') →
  (∀ sk, sk ≠ StatsKey ProbeTenantID model r → stats j !! sk = stats i !! sk) →
  mkStore
    (filter (λ kv, ¬ (kv.1.2 = r ∧ pk_tenant kv.1.1 = ProbeTenantID ∧ pk_model kv.1.1 = model))
       (absEntries j))
    (delete (StatsKey ProbeTenantID model r) (stats j)) = absIndex i.
Proof.
  intros Hnr Ht Hm HE HS. unfold absIndex. f_equal; apply map_eq.
  - intros [k r']. rewrite lookup_filter_if, !absEntries_lookup.
    assert (∀ k, pk_tenant k = ProbeTenantID → pk_model k = model → entryAt i k r = None) as Hn.
    { intros k' H1 H2. apply eq_None_not_Some. intros Hs. apply Hnr. left. eauto. }
    destruct (decide ((k, r') = (k0, r))) as [[= -> ->]|Hne].
    + rewrite (Hn k0 Ht Hm). destruct (entryAt j k0 r); [|done]. simpl.
      case_decide as Hd; [|done]. by destruct Hd.
    + rewrite HE by done. destruct (entryAt i k r') eqn:He; [|done]. simpl.
      case_decide as Hd; [done|]. simpl in Hd. destruct Hd as (-> & H1 & H2).
      by rewrite (Hn k H1 H2) in He.
  - intros sk. destruct (decide (sk = StatsKey ProbeTenantID model r)) as [->|Hne].
    + rewrite lookup_delete_eq. symmetry. apply eq_None_not_Some. intros Hs. apply Hnr. by right.
    + rewrite lookup_delete_ne by done. by apply HS.
Qed.

(** A run on a healthy index: the verdict is that of the tier-2 stage. *)
Lemma probe_run_ok sha256 t2 cfg req env i :
  let ts := stampOr (pv_ingestNow env) (pv_stamp env) in
  let away := Forall (avoids cfg (probeKey sha256 req) (ProbeReplicaID (pq_Backend req)) ts) in
  let fresh now := fle (freshnessAt now ts (ttlFor cfg ProbeTenantID)) f32_zero = false in
  index_wf (cfg_reservedTenants cfg) i →
  isReservedTenant (cfg_reservedTenants cfg) ProbeTenantID = true →
  tenantQuotaFor cfg ProbeTenantID = None →
  pq_Model req ≠ "" → pq_HashScheme req ≠ "" →
  away (pv_afterIngest env) → away (pv_afterLookup env) →
  fresh (pv_lookupNow env) → fresh (pv_routeNow env) →
  (Run sha256 t2 cfg req env i).1 = runT2Stage sha256 t2 req.
Proof.
  intros ts away fresh Hwf Hres Hq Hm Hs Ha1 Ha2 Hf1 Hf2. unfold Run. cbv zeta.
  set (i1 := (Ingest _ _ _ _).1).
  pose proof (wf_Ingest cfg (pv_ingestNow env) (probeUpdate sha256 req (pv_stamp env)) i Hwf) as Hw1.
  fold i1 in Hw1.
  destruct (probe_ingest_hold sha256 cfg req (pv_ingestNow env) (pv_stamp env) i Hwf Hres Hq Hs)
    as (e1 & He1 & Hts1). fold i1 in He1. fold ts in Hts1.
  destruct (live_traffic sha256 cfg req (pv_afterIngest env) i1 e1 ts) as (e2 & He2 & Hts2);
    [done..|].
  rewrite (probe_lookup_finds sha256 cfg req (pv_lookupNow env) ts); [|done|by split; eauto].
  cbn [negb].
  destruct (live_traffic sha256 cfg req (pv_afterLookup env)
    (runTraffic cfg (pv_afterIngest env) i1) e2 ts) as (e3 & He3 & Hts3);
    [by apply wf_runTraffic|done..|].
  rewrite (probe_route_matches sha256 cfg req (pv_routeNow env) ts); [done|done|done|].
  by split; eauto.
Qed.
