(* ===== verification/ProbeTheorems.v ===== *)
(** * Properties of the probe and of tenant isolation *)

From Stdlib Require Import SpecFloat.
From S2P Require Import Prelude Ordering GoRuntime IndexTypes IndexAccounting IndexMetrics IndexEviction.
From S2P Require Import IndexRanking IndexIngest Samples IndexSpec IndexLookup IndexSnapshot IndexSystem.
From S2P Require Import Policy Fingerprint Service Probe.

(** C9: tenants are isolated: an ingest or an event of one tenant never changes the
    stats of another, and each entry of another tenant is either untouched or dropped
    by the global cap, which only happens to a tenant that is not reserved and leaves
    the index exactly at its cap. *)
Theorem tenant_isolation cfg op i t k r sk :
  index_wf (cfg_reservedTenants cfg) i → opTenant op = Some t →
  pk_tenant k ≠ t → sk_tenant sk ≠ t →
  let i' := (runOp cfg op i).1 in
  stats i' !! sk = stats i !! sk ∧
  (entryAt i' k r = entryAt i k r ∨
   entryAt i' k r = None ∧ isReservedTenant (cfg_reservedTenants cfg) (pk_tenant k) = false ∧
     0 < cfg_maxEntries cfg ∧ totalEntries i' - reservedEntries i' = cfg_maxEntries cfg).
Proof.
  intros Hwf Ht Hk Hsk i'. split; [by eapply stats_foreign|]. unfold i'. clear i'.
  destruct op as [now u|now ev|now|res]; simplify_eq/=.
  - by apply entryAt_foreignIngest.
  - left. by apply entryAt_foreignEvent.
Qed.

Lemma tenant_isolation_witness :
  let op := OpIngest t0 (sampleUpdate "a" "r1" [samplePrefix "p" 32]) in
  let k := PrefixKey "b" "m" "vllm" "" "b2" in
  stats (runOp sampleCfg op chainIndex).1 !! StatsKey "b" "m" "r1" =
    stats chainIndex !! StatsKey "b" "m" "r1" ∧
  is_Some (entryAt (runOp sampleCfg op chainIndex).1 k "r1").
Proof.
  intros op k.
  destruct (tenant_isolation sampleCfg op chainIndex "a" k "r1" (StatsKey "b" "m" "r1")
    chainIndex_wf) as [Hs _]; [reflexivity|discriminate|discriminate|].
  split; [exact Hs|]. vm_compute. eauto.
Defined.

(** The reserved probe scope is closed to the public contract: no report stream
    and no event changes an entry or stats of the probe tenant, reading its state
    returns an empty aggregate, and looking up in it returns an empty NO_HINT that
    credits nothing, whatever the index holds. *)
Theorem probe_scope_closed cfg xxh3 sha256 tokenizer pol blockSize tokenizeTimeout i k r sk :
  index_wf (cfg_reservedTenants cfg) i →
  isReservedTenant (cfg_reservedTenants cfg) ProbeTenantID = true →
  pk_tenant k = ProbeTenantID → sk_tenant sk = ProbeTenantID →
  (∀ updates eof, let i' := (ReportCacheState cfg updates eof i).1.1 in
     entryAt i' k r = entryAt i k r ∧ stats i' !! sk = stats i !! sk) ∧
  (∀ now ev, let i' := (PublishEvent cfg now ev i).1 in
     entryAt i' k r = entryAt i k r ∧ stats i' !! sk = stats i !! sk) ∧
  (∀ model, GetCacheState ProbeTenantID model i = ([], 0)) ∧
  (∀ req env, q_TenantId req = ProbeTenantID →
     let o := LookupRouteHandler xxh3 sha256 tokenizer pol blockSize tokenizeTimeout cfg req env in
     out_resp o = mkLookupRouteResponse reasonNoHint [] [] "" 0 ∧
     res_hitsByReplica (out_credited o) = ∅).
Proof.
  intros Hwf Hres Hk Hsk. split_and!.
  - intros updates eof. rewrite ReportCacheState_fst. cbv zeta.
    match goal with |- context [foldl ?f i updates] =>
      apply (foldl_inv (λ j, index_wf (cfg_reservedTenants cfg) j ∧
        entryAt j k r = entryAt i k r ∧ stats j !! sk = stats i !! sk) f updates i); [done|] end.
    intros j [now u] _ (Hw & <- & <-). by apply reportOne_closed.
  - intros now ev. by apply PublishEvent_closed.
  - done.
  - intros req env Hq. unfold LookupRouteHandler. rewrite Hq, str_eqb_refl. done.
Qed.

(** The sample configuration with the real probe tenant reserved. *)
Definition probeCfg : IndexConfig := {|
  cfg_ttl := DefaultTTL;
  cfg_sweepInterval := DefaultSweepInterval;
  cfg_maxEntries := 2;
  cfg_metrics := true;
  cfg_ranker := DefaultRankerConfig;
  cfg_ttlResolver := None;
  cfg_quotaResolver := Some (λ t, if str_eqb t "a" then Some 1 else None);
  cfg_evictionResolver := None;
  cfg_reservedTenants := {[ProbeTenantID]}
|}.

Definition probeIndex : Index :=
  (Ingest probeCfg t0 (sampleUpdate "b" "r1" [sampleChain]) emptyIndex).1.

Lemma probeIndex_wf : index_wf (cfg_reservedTenants probeCfg) probeIndex.
Proof. apply wf_Ingest, index_wf_empty. Qed.

Definition sampleProbe : ProbeRequest := mkProbeRequest "be" "m" "vllm" "".

(** Concurrent traffic of tenant "a" and another backend's probe. *)
Definition sampleTraffic : list IndexOp :=
  [OpIngest t0 (sampleUpdate "a" "r1" [samplePrefix "p" 32]);
   OpIngest t0 (probeUpdate (λ s, s) (mkProbeRequest "other" "m" "vllm" "") t0);
   OpSweep (t0 + Minute)].

Definition sampleProbeEnv (ops : list IndexOp) : ProbeEnv :=
  mkProbeEnv (t0 + Second) t0 ops (t0 + 2 * Second) ops (t0 + 3 * Second) [] [] (t0 + 4 * Second) t0.

Lemma probe_scope_closed_witness :
  let u := mkCacheStateUpdate "__probe-be" "m" ProbeTenantID "vllm" "" 0
             [mkPrefixEntry "h" 16 [] [] "" 1] None in
  let k := PrefixKey ProbeTenantID "m" "vllm" "" "h" in
  entryAt (ReportCacheState probeCfg [(t0, u)] true probeIndex).1.1 k "__probe-be" = None.
Proof.
  intros u k.
  destruct (probe_scope_closed probeCfg (λ _ _, 0) (λ s, s) (λ _ _, None) None 16 0 probeIndex k
    "__probe-be" (StatsKey ProbeTenantID "m" "r") probeIndex_wf eq_refl eq_refl eq_refl) as [H _].
  destruct (H [(t0, u)] true) as [-> _]. vm_compute. reflexivity.
Defined.

(** A probe run reports the first failing stage and nothing downstream of it, for
    every index, every interleaving and every tier-2 client: all stages pass exactly
    when there is no error, there is at most one error, a failed ingest skips routing
    and tier 2, a failed routing skips tier 2, and tier 2 only runs after both passed
    and only for LMCache backends. *)
Theorem probe_reports_first_failure sha256 t2 cfg req env i :
  let res := (Run sha256 t2 cfg req env i).1 in
  pr_Backend res = pq_Backend req ∧
  (AllPassed res = true ↔ pr_Errors res = []) ∧ (length (pr_Errors res) ≤ 1)%nat ∧
  (pr_Ingest res ≠ ProbeStageOK →
     pr_Errors res = [IngestNotLanded] ∧ pr_Routing res = ProbeStageSkipped) ∧
  (pr_Routing res ≠ ProbeStageOK → pr_T2 res = ProbeStageSkipped ∧ AllPassed res = false) ∧
  (pr_T2 res ≠ ProbeStageSkipped →
     pr_Ingest res = ProbeStageOK ∧ pr_Routing res = ProbeStageOK ∧ is_Some t2 ∧
     pq_BackendType req ∈ [BackendTypeLMCache; ""]).
Proof.
  intros res. unfold res, Run. cbv zeta. clear res.
  assert (str_eqb (pq_BackendType req) BackendTypeLMCache || str_eqb (pq_BackendType req) "" = true →
    pq_BackendType req ∈ [BackendTypeLMCache; ""]) as Hin.
  { rewrite orb_true_iff, !str_eqb_eq, elem_of_cons, list_elem_of_singleton. tauto. }
  assert (∀ P : Prop, ProbeStageOK ≠ ProbeStageOK → P) as Hok by done.
  assert (∀ P : Prop, ProbeStageSkipped ≠ ProbeStageSkipped → P) as Hsk by done.
  destruct (negb _); [cbn; split_and!; by auto with lia|].
  destruct (routingError _ _) as [err|]; [cbn; split_and!; by auto with lia|].
  cbn [fst]. unfold runT2Stage. destruct t2 as [put|]; [|cbn; split_and!; by auto with lia].
  destruct (str_eqb _ _ || str_eqb _ _); [|cbn; split_and!; by auto with lia].
  destruct (put _ _); cbn; split_and!; eauto with lia; by split.
Qed.

(** The probe passes on a healthy index whatever else happens meanwhile: with the
    probe tenant reserved and without a budget, any interleaving of operations of other
    tenants, of probes of other backends or models, of credits, and of sweeps before
    the TTL leaves the stages A and B green, and the verdict is exactly that of the
    tier-2 stage. *)
Theorem probe_passes_under_traffic sha256 t2 cfg req env i :
  let ts := stampOr (pv_ingestNow env) (pv_stamp env) in
  let away := Forall (avoids cfg (probeKey sha256 req) (ProbeReplicaID (pq_Backend req)) ts) in
  let fresh now := fle (freshnessAt now ts (ttlFor cfg ProbeTenantID)) f32_zero = false in
  index_wf (cfg_reservedTenants cfg) i →
  isReservedTenant (cfg_reservedTenants cfg) ProbeTenantID = true →
  tenantQuotaFor cfg ProbeTenantID = None →
  pq_Model req ≠ "" → pq_HashScheme req ≠ "" →
  away (pv_afterIngest env) → away (pv_afterLookup env) →
  fresh (pv_lookupNow env) → fresh (pv_routeNow env) →
  (Run sha256 t2 cfg req env i).1 = runT2Stage sha256 t2 req.
Proof. apply probe_run_ok. Qed.

Lemma probe_passes_under_traffic_witness :
  (Run (λ s, s) None probeCfg sampleProbe (sampleProbeEnv sampleTraffic) probeIndex).1 =
    mkProbeResult "be" ProbeStageOK ProbeStageOK ProbeStageSkipped [].
Proof.
  assert (Forall (avoids probeCfg (probeKey (λ s, s) sampleProbe) (ProbeReplicaID "be") (t0 + Second))
    sampleTraffic) as Ha.
  { apply Forall_cons. split; [left; discriminate|].
    apply Forall_cons. split; [right; split; [reflexivity|right; discriminate]|].
    apply Forall_singleton. vm_compute. reflexivity. }
  rewrite (probe_passes_under_traffic (λ s, s) None probeCfg sampleProbe
    (sampleProbeEnv sampleTraffic) probeIndex).
  - reflexivity.
  - apply probeIndex_wf.
  - vm_compute. reflexivity.
  - vm_compute. reflexivity.
  - discriminate.
  - discriminate.
  - exact Ha.
  - exact Ha.
  - vm_compute. reflexivity.
  - vm_compute. reflexivity.
Defined.

(** A probe leaves no trace: whatever ran concurrently, no entry of the probe
    replica and no stats of it remain in the reserved scope of its model; and a quiet
    run on an index within its cap that held no residue gives back exactly the same
    entries (access counters included) and stats. *)
Theorem probe_leaves_no_trace sha256 t2 cfg req env i :
  let rid := ProbeReplicaID (pq_Backend req) in
  let i' := (Run sha256 t2 cfg req env i).2 in
  index_wf (cfg_reservedTenants cfg) i →
  isReservedTenant (cfg_reservedTenants cfg) ProbeTenantID = true →
  tenantQuotaFor cfg ProbeTenantID = None →
  cfg_maxEntries cfg ≤ 0 ∨ totalEntries i - reservedEntries i ≤ cfg_maxEntries cfg →
  ¬ probeResidue (pq_Model req) rid i' ∧
  (pv_afterIngest env = [] → pv_afterLookup env = [] → pv_duringRoute env = [] →
   pv_afterRoute env = [] → ¬ probeResidue (pq_Model req) rid i → absIndex i' = absIndex i).
Proof.
  intros rid i' Hwf Hres Hq Hcap.
  set (ing := (Ingest cfg (pv_ingestNow env) (probeUpdate sha256 req (pv_stamp env)) i).1).
  assert (∃ j, i' = cleanup cfg (pq_Model req) rid (pv_cleanupStamp env) (pv_cleanupNow env) j ∧
    (pv_afterIngest env = [] → pv_afterLookup env = [] → pv_duringRoute env = [] →
     pv_afterRoute env = [] → j = ing)) as (j & -> & Hj).
  { unfold i', Run. cbv zeta. fold ing. destruct (negb _); [|destruct (routingError _ _)];
      eexists; (split; [reflexivity|by intros -> -> -> ->]) || (split; [reflexivity|by intros -> ? ? ->]). }
  split; [apply cleanup_no_residue|]. intros H1 H2 H3 H4 Hnr. rewrite (Hj H1 H2 H3 H4). clear Hj j H1 H2 H3 H4.
  destruct (probe_ingest_spec sha256 cfg req (pv_ingestNow env) (pv_stamp env) i Hwf Hres Hq Hcap)
    as [HE HS]. fold ing in HE, HS.
  rewrite cleanup_spec. by apply (cleanup_restores _ _ (probeKey sha256 req)).
Qed.

Lemma probe_leaves_no_trace_witness :
  absIndex (Run (λ s, s) None probeCfg sampleProbe (sampleProbeEnv []) probeIndex).2 =
    absIndex probeIndex.
Proof.
  apply (probe_leaves_no_trace (λ s, s) None probeCfg sampleProbe (sampleProbeEnv []) probeIndex).
  - apply probeIndex_wf.
  - vm_compute. reflexivity.
  - vm_compute. reflexivity.
  - right. vm_compute. discriminate.
  - reflexivity.
  - reflexivity.
  - reflexivity.
  - reflexivity.
  - intros [(k & Ht & Hm & e & He)|[s Hs]]; [|vm_compute in Hs; discriminate].
    revert He. unfold entryAt. destruct (prefixes probeIndex !! k) as [m|] eqn:Hp; [|discriminate].
    assert (map_Forall (λ k _, pk_tenant k = "b") (prefixes probeIndex)) as Hall
      by (apply map_Forall_to_list; vm_compute; repeat constructor).
    specialize (Hall k m Hp). simpl in Hall. rewrite Ht in Hall. discriminate.
Defined.

(** The canonical input of the probe hash determines the (backend, model, scheme)
    it was built from, whatever bytes the three fields contain, as long as each is
    below 4 GiB. *)
Lemma probe_hash_input_injective b m s b' m' s' :
  Forall (λ x, Z.of_nat (String.length x) < 2 ^ 32) [b; m; s; b'; m'; s'] →
  probeHashInput b m s = probeHashInput b' m' s' → (b, m, s) = (b', m', s').
Proof.
  rewrite !Forall_cons. intros (H1 & H2 & H3 & H4 & H5 & H6 & _) E. unfold probeHashInput in E.
  apply string_app_inj in E as [_ E]; [|done].
  apply encodeHashes_inj in E; [by simplify_eq|by repeat constructor..].
Qed.

Lemma probe_hash_input_injective_witness :
  probeHashInput "a" "bc" "vllm" ≠ probeHashInput "ab" "c" "vllm".
Proof.
  intros E. pose proof (probe_hash_input_injective "a" "bc" "vllm" "ab" "c" "vllm"
    ltac:(repeat constructor) E) as H. discriminate H.
Defined.
