(* ===== verification/Server.v ===== *)
(** * The server: the index wired to the policy store (internal/server/server.go)

    [server.New] builds one policy store and one index whose resolvers read that
    store, with the probe tenant reserved.  [ResolverLaws] is the interface between
    the two: what the index needs of its resolvers.  The index-side lemmas below are
    proved against it; the policy store discharges it in every state pushes can
    produce.  [serverStep] runs the whole server: policy pushes, reports, events,
    sweeps, credits and the probe's own writes, each with the configuration the store
    has at that moment.

    Properties of the running server *)

From S2P Require Import Prelude Ordering GoRuntime IndexTypes IndexAccounting IndexMetrics IndexEviction.
From S2P Require Import IndexRanking IndexIngest IndexSpec IndexLookup IndexSystem Policy Service Probe.
From S2P Require Import Samples IndexSnapshot Fingerprint.

(** ** The interface *)

Class ResolverLaws (cfg : IndexConfig) : Prop := {
  budget_nonneg : ∀ t q, tenantQuotaFor cfg t = Some q → 0 ≤ q;
  reserved_unbudgeted : ∀ t,
    isReservedTenant (cfg_reservedTenants cfg) t = true → tenantQuotaFor cfg t = None;
  ttl_positive : ∀ t, 0 < ttlFor cfg t
}.

(** ** The index against the interface *)

Section client.
Context (cfg : IndexConfig) {Hlaws : ResolverLaws cfg}.

Lemma ingest_within_budget now u i q :
  index_wf (cfg_reservedTenants cfg) i → tenantQuotaFor cfg (u_Tenant u) = Some q →
  (prefixesByTenant (Ingest cfg now u i).1)![u_Tenant u] ≤ q.
Proof.
  intros Hwf Hq. rewrite (wf_go_get_tenant (cfg_reservedTenants cfg)) by auto with index_wf.
  rewrite Ingest_fst.
  pose proof (reportEntries_frame cfg (enforceCapLocked cfg
    (enforceQuota cfg (u_Tenant u) (ingested cfg now u i)).1).1) as (_&_&->&_).
  pose proof (wf_ingested cfg now u i Hwf) as Hwf1.
  destruct (shrinks_enforceCap cfg _ (wf_enforceQuota cfg (u_Tenant u) _ Hwf1)) as [_ Hs].
  specialize (Hs (u_Tenant u)). pose proof (budget_nonneg _ _ Hq). revert Hs.
  unfold enforceQuota. rewrite Hq, p_tenant_evictOldest by done. lia.
Qed.

Lemma op_keeps_cap op i :
  index_wf (cfg_reservedTenants cfg) i → 0 < cfg_maxEntries cfg →
  effectiveTotal i ≤ cfg_maxEntries cfg → effectiveTotal (runOp cfg op i).1 ≤ cfg_maxEntries cfg.
Proof.
  intros Hwf Hm Hc. destruct op as [now u|now ev|now|res].
  - cbn [runOp]. rewrite Ingest_fst. set (j := (enforceQuota _ _ _).1).
    pose proof (reportEntries_frame cfg (enforceCapLocked cfg j).1) as (_&_&_&_&Ht&Hr&_).
    unfold effectiveTotal. rewrite Ht, Hr. fold (effectiveTotal (enforceCapLocked cfg j).1).
    rewrite effective_enforceCap by (unfold j; auto with index_wf). lia.
  - destruct (shrinks_other cfg (OpEvent now ev) i) as [Hs _]; [done..|lia].
  - destruct (shrinks_other cfg (OpSweep now) i) as [Hs _]; [done..|lia].
  - destruct (shrinks_other cfg (OpCredit res) i) as [Hs _]; [done..|lia].
Qed.

(** An entry stamped by the index's own clock is not expired at once. *)
Lemma fresh_at_stamp now t : freshnessAt now now (ttlFor cfg t) = f32_one.
Proof. apply freshnessAt_young; [apply ttl_positive|]. unfold time_sub. lia. Qed.
End client.

(** ** The wiring *)

(** The options [server.New] passes to [index.New]. *)
Definition serverOptions (policies : PolicyStore) (c : IndexConfig) : IndexConfig :=
  WithReservedTenants [ProbeTenantID]
    (mkIndexConfig (cfg_ttl c) (cfg_sweepInterval c) (cfg_maxEntries c) true (cfg_ranker c)
       (Some (TTL policies)) (Some (TenantQuota policies)) (Some (Eviction policies))
       (cfg_reservedTenants c)).

(** The index reads its resolvers through the store, so its configuration follows it. *)
Definition serverConfig (policies : PolicyStore) : IndexConfig :=
  (New (serverOptions policies)).1.

Lemma serverConfig_reserved policies :
  cfg_reservedTenants (serverConfig policies) = {[ProbeTenantID]}.
Proof. vm_compute. reflexivity. Qed.

Lemma serverConfig_cap policies : cfg_maxEntries (serverConfig policies) = DefaultMaxEntries.
Proof. done. Qed.

Lemma probe_reserved policies :
  isReservedTenant (cfg_reservedTenants (serverConfig policies)) ProbeTenantID = true.
Proof. rewrite serverConfig_reserved. by vm_compute. Qed.

Existing Class quotas_nonneg.

#[export] Instance server_resolver_laws policies :
  quotas_nonneg policies → ResolverLaws (serverConfig policies).
Proof.
  intros Hq. split.
  - intros t q. apply Hq.
  - intros t. rewrite serverConfig_reserved. unfold isReservedTenant. intros Ht%bool_decide_eq_true.
    apply elem_of_singleton in Ht as ->. change (TenantQuota policies ProbeTenantID = None).
    unfold TenantQuota. by rewrite str_eqb_refl.
  - intros t. change (0 < (if 0 <? TTL policies t then TTL policies t else DefaultTTL)).
    destruct (Z.ltb_spec 0 (TTL policies t)); [done|]. by vm_compute.
Qed.

#[export] Instance quotas_nonneg_new : quotas_nonneg NewPolicyStore.
Proof. intros t q. unfold TenantQuota. case_match; [done|]. cbn [tenants NewPolicyStore].
  by rewrite lookup_empty.
Qed.

(** ** The running server *)

Record Server := mkServer { sv_policies : PolicyStore; sv_index : Index }.

Definition NewServer : Server := mkServer NewPolicyStore emptyIndex.

Inductive ServerOp :=
  | SrvPolicy (method : string) (decoded : option PolicySnapshot)
  | SrvReport (now : Time) (u : CacheStateUpdate)
  | SrvEvent (now : Time) (ev : CacheEvent)
  | SrvSweep (now : Time)
  | SrvCredit (r : LookupResult)
  | SrvProbeIngest (sha256 : string → string) (req : ProbeRequest) (stamp now : Time)
  | SrvProbeCleanup (req : ProbeRequest) (stamp now : Time).

Definition serverStep (s : Server) (op : ServerOp) : Server :=
  let cfg := serverConfig (sv_policies s) in
  let i := sv_index s in
  match op with
  | SrvPolicy method decoded => mkServer (policyHandler method decoded (sv_policies s)).2 i
  | SrvReport now u => mkServer (sv_policies s) (reportOne cfg now u i).1
  | SrvEvent now ev => mkServer (sv_policies s) (PublishEvent cfg now ev i).1
  | SrvSweep now => mkServer (sv_policies s) (evictExpired cfg now i).1
  | SrvCredit r => mkServer (sv_policies s) (CreditHits r i)
  | SrvProbeIngest sha256 req stamp now =>
      mkServer (sv_policies s) (Ingest cfg now (probeUpdate sha256 req stamp) i).1
  | SrvProbeCleanup req stamp now =>
      mkServer (sv_policies s)
        (cleanup cfg (pq_Model req) (ProbeReplicaID (pq_Backend req)) stamp now i)
  end.

Definition runServer (ops : list ServerOp) : Server := foldl serverStep NewServer ops.

(** Every index write of the server is an index operation. *)
Lemma serverStep_op s op :
  let s' := serverStep s op in
  (sv_policies s' = sv_policies s ∧
   ((∃ o, sv_index s' = (runOp (serverConfig (sv_policies s)) o (sv_index s)).1) ∨
    sv_index s' = sv_index s)) ∨
  (∃ m d, sv_policies s' = (policyHandler m d (sv_policies s)).2) ∧ sv_index s' = sv_index s.
Proof.
  destruct op as [m d|now u|now ev|now|r|sha req stamp now|req stamp now];
    cbn [serverStep sv_policies sv_index].
  - right. eauto.
  - left. split; [done|]. unfold reportOne. case_match; [by right|left].
    by exists (OpIngest now (updateFromProto u)).
  - left. split; [done|]. unfold PublishEvent. destruct (str_eqb _ _); [by right|].
    destruct (eventTypeFromProto _); [left|by right]. eexists (OpEvent now _). reflexivity.
  - left. split; [done|]. left. by exists (OpSweep now).
  - left. split; [done|]. left. by exists (OpCredit r).
  - left. split; [done|]. left. eexists (OpIngest now _). reflexivity.
  - left. split; [done|]. left. unfold cleanup. eexists (OpEvent now _). reflexivity.
Qed.

(** What holds in every state of the running server. *)
Record server_ok (s : Server) : Prop := {
  ok_index : index_wf {[ProbeTenantID]} (sv_index s);
  ok_cap : totalEntries (sv_index s) - reservedEntries (sv_index s) ≤ DefaultMaxEntries;
  ok_quotas : quotas_nonneg (sv_policies s)
}.

Lemma server_ok_new : server_ok NewServer.
Proof. split; [apply index_wf_empty|by vm_compute|apply quotas_nonneg_new]. Qed.

Lemma server_ok_step s op : server_ok s → server_ok (serverStep s op).
Proof.
  intros [Hwf Hcap Hq]. pose proof (serverConfig_reserved (sv_policies s)) as Hr.
  destruct (serverStep_op s op) as [[Hp Hi]|[(m & d & Hp) Hi]].
  - destruct Hi as [[o Hi]|Hi]; split; rewrite ?Hp, ?Hi; try done.
    + rewrite <-Hr. apply wf_runOp. by rewrite Hr.
    + pose proof (server_resolver_laws _ Hq) as Hlaws.
      apply (op_keeps_cap (serverConfig (sv_policies s))); [by rewrite Hr|by vm_compute|done].
  - split; rewrite ?Hp, ?Hi; try done. by apply quotas_nonneg_handler.
Qed.

Lemma server_ok_run ops : server_ok (runServer ops).
Proof.
  apply (foldl_inv server_ok serverStep ops NewServer server_ok_new).
  intros s op _. apply server_ok_step.
Qed.

(** C6: whatever sequence of policy pushes (malformed ones included), reports, events,
    sweeps, credits and probe writes the server processes, its index is well formed
    with the probe tenant reserved, the entries outside it are within the global cap,
    and no tenant budget in the store is negative. *)
Theorem server_always_ok ops : server_ok (runServer ops).
Proof. apply server_ok_run. Qed.

(** ** Tenant budgets over a history with policy pushes *)

Definition reportOf (t : string) (op : ServerOp) : Prop :=
  match op with SrvReport _ u => cu_TenantId u = t | _ => False end.

(** The distinct prefixes the index holds for a tenant. *)
Definition heldPrefixes (s : Server) (t : string) : Z := p_tenant t (prefixes (sv_index s)).

Lemma heldPrefixes_counter s t :
  server_ok s → go_get (prefixesByTenant (sv_index s)) t = heldPrefixes s t.
Proof. intros [Hwf _ _]. by apply (wf_go_get_tenant {[ProbeTenantID]}). Qed.

(** The writes of the server for a tenant are its reports, those of the probe tenant
    apart. *)
Lemma serverStep_held s op t :
  server_ok s → t ≠ ProbeTenantID → ¬ reportOf t op →
  heldPrefixes (serverStep s op) t ≤ heldPrefixes s t.
Proof.
  intros [Hwf _ _] Ht Hop. set (cfg := serverConfig (sv_policies s)).
  assert (index_wf (cfg_reservedTenants cfg) (sv_index s)) as Hwf'
    by (unfold cfg; by rewrite serverConfig_reserved).
  pose proof (λ o H, p_tenant_otherOp cfg o (sv_index s) t Hwf' H) as Hother.
  unfold heldPrefixes.
  destruct op as [m d|now u|now ev|now|r|sha req stamp now|req stamp now];
    cbn [serverStep sv_index]; fold cfg.
  - done.
  - unfold reportOne. case_match; [done|]. by apply (Hother (OpIngest now (updateFromProto u))).
  - unfold PublishEvent. destruct (str_eqb _ _); [done|].
    destruct (eventTypeFromProto _) as [ty|]; [|done].
    match goal with |- context [ApplyEvent _ _ ?e _] => by apply (Hother (OpEvent now e)) end.
  - by apply (Hother (OpSweep now)).
  - by apply (Hother (OpCredit r)).
  - apply (Hother (OpIngest now (probeUpdate sha req stamp))). simpl. congruence.
  - unfold cleanup.
    match goal with |- context [ApplyEvent _ _ ?e _] => by apply (Hother (OpEvent now e)) end.
Qed.

Lemma serverRun_held ops s t :
  server_ok s → t ≠ ProbeTenantID → Forall (λ op, ¬ reportOf t op) ops →
  heldPrefixes (foldl serverStep s ops) t ≤ heldPrefixes s t.
Proof.
  intros Hs Ht Hops. revert s Hs. induction Hops as [|op ops Hop _ IH]; intros s Hs; simpl; [lia|].
  pose proof (IH _ (server_ok_step s op Hs)). pose proof (serverStep_held s op t Hs Ht Hop). lia.
Qed.

Lemma report_within_budget s now u q :
  server_ok s → TenantQuota (sv_policies s) (cu_TenantId u) = Some q →
  0 ≤ q ∧ cu_TenantId u ≠ ProbeTenantID ∧
  heldPrefixes (serverStep s (SrvReport now u)) (cu_TenantId u) ≤ q.
Proof.
  intros Hs Hq. pose proof Hs as [Hwf _ Hqs]. pose proof (server_resolver_laws _ Hqs) as Hlaws.
  destruct (str_eqb (cu_TenantId u) ProbeTenantID) eqn:Ht.
  { unfold TenantQuota in Hq. by rewrite Ht in Hq. }
  split; [by eapply Hqs|]. split; [by apply str_eqb_neq|].
  rewrite <-heldPrefixes_counter by by apply server_ok_step.
  cbn [serverStep sv_index]. unfold reportOne. rewrite Ht.
  apply (ingest_within_budget (serverConfig (sv_policies s)) now (updateFromProto u)); [|done].
  by rewrite serverConfig_reserved.
Qed.

(** C7: the budgets of the running server, after any history [ops] of policy pushes,
    reports, events, sweeps, credits and probe writes.  The entries outside the reserved
    probe tenant are within the global cap.  For every other tenant: one that never
    reported holds nothing, and one whose last report was processed while the policy
    store gave it the budget [q] has held at most [q] distinct prefixes ever since,
    whatever the other callers did and whatever was pushed meanwhile.  A budget pushed
    after that report is enforced by the next report of the tenant, not before. *)
Theorem budget_holds_since_report ops t :
  let s := runServer ops in
  totalEntries (sv_index s) - reservedEntries (sv_index s) ≤ DefaultMaxEntries ∧
  go_get (prefixesByTenant (sv_index s)) t = heldPrefixes s t ∧
  (t ≠ ProbeTenantID → Forall (λ op, ¬ reportOf t op) ops → heldPrefixes s t = 0) ∧
  (∀ before now u after q,
     ops = before ++ SrvReport now u :: after → cu_TenantId u = t →
     Forall (λ op, ¬ reportOf t op) after →
     TenantQuota (sv_policies (runServer before)) t = Some q →
     0 ≤ q ∧ heldPrefixes s t ≤ q).
Proof.
  intros s. pose proof (server_ok_run ops) as Hok. fold s in Hok. split_and!.
  - apply Hok.
  - by apply heldPrefixes_counter.
  - intros Ht Hn. pose proof (serverRun_held ops NewServer t server_ok_new Ht Hn) as Hle.
    change (heldPrefixes s t ≤ 0) in Hle.
    pose proof (zcount_nonneg (λ k _, bool_decide (pk_tenant k = t)) (prefixes (sv_index s))).
    unfold heldPrefixes, p_tenant in *. lia.
  - intros before now u after q Hops <- Hafter Hq. pose proof (server_ok_run before) as Hb.
    destruct (report_within_budget _ now u q Hb Hq) as (Hq0 & Hne & Hle). split; [done|].
    unfold s. rewrite Hops. unfold runServer. rewrite foldl_app. cbn [foldl].
    pose proof (serverRun_held after _ _ (server_ok_step _ (SrvReport now u) Hb) Hne Hafter).
    unfold runServer in *. lia.
Qed.

Definition budgetPush (q : Z) : PolicySnapshot := mkPolicySnapshot 7 [] [mkTenant "a" q ""].

Definition wireReport (tenant : string) (hashes : list string) : CacheStateUpdate :=
  mkCacheStateUpdate "r1" "m" tenant "vllm" "" 1000000
    ((λ h, mkPrefixEntry h 16 [] [] "" 1) <$> hashes) None.

(** The budget of [a] is lowered from 2 to 1 between two reports: it keeps both of its
    prefixes until the second one. *)
Definition loweredBudget : list ServerOp :=
  [SrvPolicy "PUT" (Some (budgetPush 2)); SrvReport t0 (wireReport "a" ["p"; "q"]);
   SrvPolicy "PUT" (Some (budgetPush 1)); SrvSweep t0].

Lemma budget_holds_since_report_witness :
  heldPrefixes (runServer loweredBudget) "a" ≤ 2 ∧
  heldPrefixes (runServer loweredBudget) "a" = 2 ∧
  TenantQuota (sv_policies (runServer loweredBudget)) "a" = Some 1 ∧
  heldPrefixes (runServer (loweredBudget ++ [SrvReport t0 (wireReport "a" ["r"])])) "a" ≤ 1.
Proof.
  split_and!.
  - apply (budget_holds_since_report loweredBudget "a") with
      (before := [SrvPolicy "PUT" (Some (budgetPush 2))]) (now := t0)
      (u := wireReport "a" ["p"; "q"])
      (after := [SrvPolicy "PUT" (Some (budgetPush 1)); SrvSweep t0]);
      [reflexivity|reflexivity|repeat constructor; tauto|vm_compute; reflexivity].
  - vm_compute. reflexivity.
  - vm_compute. reflexivity.
  - apply (budget_holds_since_report (loweredBudget ++ [SrvReport t0 (wireReport "a" ["r"])]) "a")
      with (before := loweredBudget) (now := t0) (u := wireReport "a" ["r"]) (after := []);
      [reflexivity|reflexivity|constructor|vm_compute; reflexivity].
Defined.

(** The probe works on the running server: after any history, a run for a fully
    keyed request whose lookups read a clock not later than its stamp reports ingest
    and routing as passed and tier 2 as skipped, while any traffic that avoids its own
    (model, replica) runs between its steps. *)
Theorem server_probe_healthy sha256 ops req env :
  let s := runServer ops in
  let cfg := serverConfig (sv_policies s) in
  let ts := stampOr (pv_ingestNow env) (pv_stamp env) in
  let away := Forall (avoids cfg (probeKey sha256 req) (ProbeReplicaID (pq_Backend req)) ts) in
  pq_Model req ≠ "" → pq_HashScheme req ≠ "" →
  away (pv_afterIngest env) → away (pv_afterLookup env) →
  pv_lookupNow env ≤ ts → pv_routeNow env ≤ ts →
  (Run sha256 None cfg req env (sv_index s)).1 =
    mkProbeResult (pq_Backend req) ProbeStageOK ProbeStageOK ProbeStageSkipped [].
Proof.
  intros s cfg ts away Hm Hs Ha1 Ha2 Ht1 Ht2.
  destruct (server_ok_run ops) as [Hwf _ Hqs]. fold s in Hwf, Hqs.
  pose proof (server_resolver_laws _ Hqs) as Hlaws.
  assert (∀ now, now ≤ ts →
    fle (freshnessAt now ts (ttlFor cfg ProbeTenantID)) f32_zero = false) as Hf.
  { intros now Hle. rewrite freshnessAt_young; [done|apply ttl_positive|done]. }
  unfold cfg. rewrite (probe_run_ok sha256 None (serverConfig (sv_policies s)) req env).
  - done.
  - by rewrite serverConfig_reserved.
  - apply probe_reserved.
  - apply reserved_unbudgeted, probe_reserved.
  - done.
  - done.
  - done.
  - done.
  - by apply Hf.
  - by apply Hf.
Qed.

Lemma server_probe_healthy_witness :
  let s := runServer [SrvPolicy "PUT" (Some (budgetPush 1)); SrvReport t0 (wireReport "a" ["p"])] in
  let env := mkProbeEnv (t0 + Second) t0 [] t0 [] t0 [] [] t0 t0 in
  (Run (λ x, x) None (serverConfig (sv_policies s)) (mkProbeRequest "be" "m" "vllm" "") env
     (sv_index s)).1 = mkProbeResult "be" ProbeStageOK ProbeStageOK ProbeStageSkipped [].
Proof.
  intros s env.
  apply (server_probe_healthy (λ x, x)
    [SrvPolicy "PUT" (Some (budgetPush 1)); SrvReport t0 (wireReport "a" ["p"])]
    (mkProbeRequest "be" "m" "vllm" "") env).
  - discriminate.
  - discriminate.
  - constructor.
  - constructor.
  - vm_compute. discriminate.
  - vm_compute. discriminate.
Defined.
