(* ===== verification/Auth.v ===== *)
(** * Bearer authentication of the internal HTTP endpoints (server/auth/middleware.go)

    [Middleware] runs in two critical sections with a TokenReview call in between:
    the cache probe ([mwBegin]) and the decision with the cache write ([mwReview]).
    [authStep] interleaves the sections of any number of requests in flight.  The
    SHA-256 function and the apiserver's answer are parameters; the order in which
    Go ranges over the cache map is the parameter [range]. *)

From S2P Require Import Prelude Ordering GoRuntime GoText.

(** ** Data *)

Inductive Result := ResultOK | ResultUnauth | ResultForbidden | ResultError.

Definition DefaultCacheTTL : Duration := 30 * Second.
Definition DefaultCacheMaxEntries : Z := 32.

Definition ControllerAudience : string := "inferencecache.io/controller".
Definition PolicyAudience : string := "inferencecache.io/policy".

Record Authenticator := mkAuthenticator {
  a_expectedSA : string;
  a_audience : string;
  a_recorder : bool;                 (* a metrics recorder is configured *)
  a_cacheTTL : Duration;
  a_cacheMax : Z;
  a_cache : gmap string Time         (* token hash to its expiry *)
}.

Record Options := mkOptions {
  op_Reviewer : bool;                (* not nil *)
  op_ExpectedServiceAccount : string;
  op_Audience : string;
  op_Recorder : bool;
  op_CacheTTL : Duration;
  op_CacheMaxEntries : Z
}.

Inductive NewError := ReviewerRequired | ExpectedServiceAccountRequired.

Definition NewAuthenticator (opts : Options) : NewError + Authenticator :=
  if negb (op_Reviewer opts) then inl ReviewerRequired
  else if str_eqb (op_ExpectedServiceAccount opts) "" then inl ExpectedServiceAccountRequired
  else
    let ttl := if op_CacheTTL opts <=? 0 then DefaultCacheTTL else op_CacheTTL opts in
    let cap := if op_CacheMaxEntries opts <=? 0 then DefaultCacheMaxEntries
               else op_CacheMaxEntries opts in
    inr (mkAuthenticator (op_ExpectedServiceAccount opts) (op_Audience opts) (op_Recorder opts)
           ttl cap ∅).

(** The request sent to the apiserver and the shapes of its answer. *)
Record TokenReviewSpec := mkTokenReviewSpec { tr_Token : string; tr_Audiences : list string }.

Inductive ReviewOutcome :=
  | ReviewFailed                     (* CreateTokenReview returned an error *)
  | ReviewNil                        (* (nil, nil) *)
  | ReviewStatus (authenticated : bool) (username : string).

(** What the client gets: [next] was invoked, or an error status. *)
Inductive Response := ServedNext | HTTPError (code : Z).

Definition StatusUnauthorized : Z := 401.
Definition StatusForbidden : Z := 403.
Definition StatusServiceUnavailable : Z := 503.

(** ** The header and the hash *)

Definition extractBearer (h : string) : option string :=
  if str_eqb h "" then None
  else match Cut " " h with
       | None => None
       | Some (scheme, tok) =>
           if negb (EqualFold scheme "Bearer") then None
           else let tok := TrimSpace tok in
                if str_eqb tok "" then None else Some tok
       end.

Definition hexDigit (n : Z) : ascii := byte_of_Z (if n <? 10 then 48 + n else 87 + n).
Fixpoint hexEncode (s : string) : string :=
  match s with
  | EmptyString => EmptyString
  | String a s =>
      String (hexDigit (Z_of_byte a / 16)) (String (hexDigit (Z_of_byte a mod 16)) (hexEncode s))
  end.

Section auth.
Context (sha256 : string → string) (range : gmap string Time → list (string * Time)).

Definition sha256Hex (s : string) : string := hexEncode (sha256 s).

Definition set_cache (c : gmap string Time) (a : Authenticator) : Authenticator :=
  mkAuthenticator (a_expectedSA a) (a_audience a) (a_recorder a) (a_cacheTTL a) (a_cacheMax a) c.

Definition record (a : Authenticator) (r : Result) : list Result :=
  if a_recorder a then [r] else [].

(** ** The cache *)

Definition cacheHit (hash : string) (now : Time) (a : Authenticator) : Authenticator * bool :=
  match a_cache a !! hash with
  | None => (a, false)
  | Some expires =>
      if negb (time_before now expires) then (set_cache (delete hash (a_cache a)) a, false)
      else (a, true)
  end.

(** The first pass: drop what has expired. *)
Definition pruneStep (now : Time) (c : gmap string Time) (ke : string * Time) : gmap string Time :=
  if negb (time_before now ke.2) then delete ke.1 c else c.
Definition pruneExpired (now : Time) (c : gmap string Time) : gmap string Time :=
  foldl (pruneStep now) c (range c).

(** The second pass: the entry that expires next. *)
Definition expiresBefore (x y : string * Time) : bool := time_before x.2 y.2.

Definition victimOf (c : gmap string Time) : option (string * Time) :=
  foldl (minStep expiresBefore) None (range c).

Definition evictSoonest (c : gmap string Time) : gmap string Time :=
  match victimOf c with Some (k, _) => delete k c | None => delete "" c end.

Definition cachePut (hash : string) (now : Time) (a : Authenticator) : Authenticator :=
  let c := a_cache a in
  let c :=
    if a_cacheMax a <=? Z.of_nat (size c) then
      let c := pruneExpired now c in
      if a_cacheMax a <=? Z.of_nat (size c) then evictSoonest c else c
    else c in
  set_cache (<[hash := now + a_cacheTTL a]> c) a.

(** ** The middleware *)

(** Up to the TokenReview call: a response, or the review to send. *)
Definition mwBegin (header : string) (now : Time) (a : Authenticator) :
    Authenticator * list Result * (Response + TokenReviewSpec) :=
  match extractBearer header with
  | None => (a, record a ResultUnauth, inl (HTTPError StatusUnauthorized))
  | Some token =>
      let '(a, hit) := cacheHit (sha256Hex token) now a in
      if (hit : bool) then (a, record a ResultOK, inl ServedNext)
      else (a, [], inr (mkTokenReviewSpec token
                          (if negb (str_eqb (a_audience a) "") then [a_audience a] else [])))
  end.

(** From the answer on. *)
Definition mwReview (token : string) (o : ReviewOutcome) (now : Time) (a : Authenticator) :
    Authenticator * list Result * Response :=
  match o with
  | ReviewFailed => (a, record a ResultError, HTTPError StatusServiceUnavailable)
  | ReviewNil => (a, record a ResultError, HTTPError StatusServiceUnavailable)
  | ReviewStatus authenticated username =>
      if negb authenticated then (a, record a ResultUnauth, HTTPError StatusUnauthorized)
      else if negb (str_eqb username (a_expectedSA a))
      then (a, record a ResultForbidden, HTTPError StatusForbidden)
      else (cachePut (sha256Hex token) now a, record a ResultOK, ServedNext)
  end.

(** One request run without interruption. *)
Definition Middleware (review : TokenReviewSpec → ReviewOutcome) (header : string) (t1 t2 : Time)
    (a : Authenticator) : Authenticator * list Result * Response :=
  let '(a, recs, r) := mwBegin header t1 a in
  match r with
  | inl resp => (a, recs, resp)
  | inr spec => let '(a, recs', resp) := mwReview (tr_Token spec) (review spec) t2 a in
                (a, recs ++ recs', resp)
  end.

(** ** Requests in flight *)

Inductive AuthEvent :=
  | Arrive (id : positive) (header : string) (now : Time)
  | Reviewed (id : positive) (o : ReviewOutcome) (now : Time).

(** What an observer sees: reviews answered, requests served or refused. *)
Inductive LogEntry :=
  | LReview (spec : TokenReviewSpec) (o : ReviewOutcome) (now : Time)
  | LServe (token : string) (now : Time)
  | LRefuse (code : Z) (now : Time).

Record AuthSys := mkAuthSys {
  as_auth : Authenticator;
  as_flight : gmap positive TokenReviewSpec;
  as_results : list Result;
  as_log : list LogEntry               (* newest first *)
}.

Definition logResponse (token : string) (r : Response) (now : Time) : LogEntry :=
  match r with ServedNext => LServe token now | HTTPError c => LRefuse c now end.

Definition authStep (s : AuthSys) (ev : AuthEvent) : AuthSys :=
  match ev with
  | Arrive id header now =>
      match as_flight s !! id with
      | Some _ => s
      | None =>
          let '(a, recs, r) := mwBegin header now (as_auth s) in
          match r with
          | inl resp =>
              mkAuthSys a (as_flight s) (as_results s ++ recs)
                (logResponse (default "" (extractBearer header)) resp now :: as_log s)
          | inr spec => mkAuthSys a (<[id := spec]> (as_flight s)) (as_results s ++ recs) (as_log s)
          end
      end
  | Reviewed id o now =>
      match as_flight s !! id with
      | None => s
      | Some spec =>
          let '(a, recs, resp) := mwReview (tr_Token spec) o now (as_auth s) in
          mkAuthSys a (delete id (as_flight s)) (as_results s ++ recs)
            (logResponse (tr_Token spec) resp now :: LReview spec o now :: as_log s)
      end
  end.

Definition authRun (a : Authenticator) (evs : list AuthEvent) : AuthSys :=
  foldl authStep (mkAuthSys a ∅ [] []) evs.

(** ** The cache operations *)

Hypothesis Hrange : ∀ m, range m ≡ₚ map_to_list m.

Lemma elem_of_range m k (e : Time) : (k, e) ∈ range m ↔ m !! k = Some e.
Proof. by rewrite Hrange, elem_of_map_to_list. Qed.

Lemma prune_fold now l c k (e : Time) :
  foldl (pruneStep now) c l !! k = Some e ↔
  c !! k = Some e ∧ ∀ e' : Time, (k, e') ∈ l → now < e'.
Proof.
  revert c. induction l as [|[k' e'] l IH]; intros c; simpl.
  { split; [|naive_solver]. intros H. split; [done|]. by intros ? ?%elem_of_nil. }
  rewrite IH. unfold pruneStep, time_before. cbn [fst snd]. destruct (Z.ltb_spec now e') as [Hlt|Hge]; simpl.
  - split; intros [H1 H2]; (split; [done|]).
    + intros e1 [[= -> ->]|H]%elem_of_cons; [done|by apply H2].
    + intros e1 H. apply H2. by right.
  - destruct (decide (k = k')) as [->|Hne].
    + rewrite lookup_delete_eq. split; [by intros [? _]|].
      intros [_ H]. specialize (H e' ltac:(left)). lia.
    + rewrite lookup_delete_ne by done. split; intros [H1 H2]; (split; [done|]).
      * intros e1 [[= -> ->]|H]%elem_of_cons; [done|by apply H2].
      * intros e1 H. apply H2. by right.
Qed.

Lemma pruneExpired_lookup now c k (e : Time) :
  pruneExpired now c !! k = Some e ↔ c !! k = Some e ∧ now < e.
Proof.
  unfold pruneExpired. rewrite prune_fold. split; intros [H1 H2]; (split; [done|]).
  - apply H2. by apply elem_of_range.
  - intros e' H%elem_of_range. rewrite H1 in H. by injection H as <-.
Qed.

Lemma victimOf_spec c :
  match victimOf c with
  | None => c = ∅
  | Some (k, e) => c !! k = Some e ∧ ∀ k' (e' : Time), c !! k' = Some e' → e ≤ e'
  end.
Proof.
  unfold victimOf.
  pose proof (minStep_fold (λ _, True) expiresBefore (range c) None) as H.
  specialize (H ltac:(unfold expiresBefore, time_before; lia) ltac:(unfold expiresBefore, time_before; lia)
    (Forall_true _ _ (λ _, I)) ltac:(done)).
  destruct (foldl (minStep _) None (range c)) as [[k e]|].
  - destruct H as ([?|Hin] & _ & Hmin); [done|]. split; [by apply elem_of_range|].
    intros k' e' Hk. apply Z.ltb_ge. apply (Hmin (k', e')). right. by apply elem_of_range.
  - destruct H as [_ H]. pose proof (Hrange c) as Hp. rewrite H in Hp.
    by apply map_to_list_empty_iff, Permutation_nil.
Qed.

Lemma size_lt_subset (c c' : gmap string Time) k e :
  c !! k = Some e → c' !! k = None → (∀ k' (e' : Time), c' !! k' = Some e' → c !! k' = Some e') →
  (size c' < size c)%nat.
Proof.
  intros Hk Hn Hsub. apply map_subset_size, map_subset_alt.
  split; [by apply map_subseteq_spec|]. exists k. by rewrite Hk, Hn.
Qed.

Lemma evictSoonest_size c : c ≠ ∅ → (size (evictSoonest c) < size c)%nat.
Proof.
  intros Hne. unfold evictSoonest. pose proof (victimOf_spec c) as H.
  destruct (victimOf c) as [[k e]|]; [|done]. destruct H as [Hk _].
  apply (size_lt_subset _ _ k e Hk); [apply lookup_delete_eq|].
  intros k' e' ?%lookup_delete_Some. naive_solver.
Qed.

(** What survives a write: everything when there is room, otherwise what has not
    expired, and when that still fills the cache, all but one soonest-expiring entry. *)
Lemma cachePut_survivors hash now a k (e : Time) :
  0 < a_cacheMax a → a_cache a !! k = Some e → k ≠ hash →
  a_cache (cachePut hash now a) !! k = None →
  a_cacheMax a ≤ Z.of_nat (size (a_cache a)) ∧
  (e ≤ now ∨
   (∀ k' (e' : Time), a_cache a !! k' = Some e' → now < e' → e ≤ e') ∧
   a_cacheMax a ≤ Z.of_nat (size (pruneExpired now (a_cache a)))).
Proof.
  intros Hmax Hk Hne. unfold cachePut, set_cache. cbn [a_cache].
  rewrite lookup_insert_ne by done.
  destruct (Z.leb_spec (a_cacheMax a) (Z.of_nat (size (a_cache a)))) as [Hfull|]; [|by rewrite Hk].
  intros H. split; [done|].
  destruct (decide (e ≤ now)) as [|Hlive]; [by left|right].
  assert (pruneExpired now (a_cache a) !! k = Some e) as Hp.
  { apply pruneExpired_lookup. split; [done|lia]. }
  destruct (Z.leb_spec (a_cacheMax a) (Z.of_nat (size (pruneExpired now (a_cache a))))) as [Hf2|];
    [|by rewrite Hp in H]. split; [|done].
  unfold evictSoonest in H. pose proof (victimOf_spec (pruneExpired now (a_cache a))) as Hv.
  destruct (victimOf _) as [[k1 e1]|]; [|by rewrite Hv in Hp].
  destruct Hv as [Hv1 Hv2]. assert (k1 = k) as ->.
  { apply dec_stable. intros Hne1. rewrite lookup_delete_ne in H by done. by rewrite Hp in H. }
  rewrite Hp in Hv1. injection Hv1 as <-.
  intros k' e' Hk' He'. apply (Hv2 k'). apply pruneExpired_lookup. done.
Qed.

Lemma cachePut_lookup hash now a k (e : Time) :
  a_cache (cachePut hash now a) !! k = Some e →
  (k = hash ∧ e = now + a_cacheTTL a) ∨ a_cache a !! k = Some e.
Proof.
  unfold cachePut, set_cache. cbn [a_cache]. intros [[-> <-]|[_ H]]%lookup_insert_Some; [by left|right].
  destruct (_ <=? _); [|done]. destruct (_ <=? _).
  - unfold evictSoonest in H.
    destruct (victimOf _) as [[k1 e1]|]; apply lookup_delete_Some in H as [_ H];
      by apply pruneExpired_lookup in H as [? _].
  - by apply pruneExpired_lookup in H as [? _].
Qed.

Lemma cachePut_size hash now a :
  0 < a_cacheMax a → Z.of_nat (size (a_cache a)) ≤ a_cacheMax a →
  Z.of_nat (size (a_cache (cachePut hash now a))) ≤ a_cacheMax a.
Proof.
  intros Hmax Hle. unfold cachePut, set_cache. cbn [a_cache].
  set (c' := if a_cacheMax a <=? _ then _ else _).
  assert (Z.of_nat (size c') < a_cacheMax a) as Hc'.
  { unfold c'. destruct (Z.leb_spec (a_cacheMax a) (Z.of_nat (size (a_cache a)))) as [|]; [|lia].
    destruct (Z.leb_spec (a_cacheMax a) (Z.of_nat (size (pruneExpired now (a_cache a)))))
      as [Hf|]; [|lia].
    assert (size (pruneExpired now (a_cache a)) ≤ size (a_cache a))%nat as Hs.
    { apply map_subseteq_size, map_subseteq_spec. intros k e [? _]%pruneExpired_lookup. done. }
    pose proof (evictSoonest_size (pruneExpired now (a_cache a))) as He.
    assert (pruneExpired now (a_cache a) ≠ ∅) as Hne.
    { intros E. rewrite E, map_size_empty in Hf. lia. }
    specialize (He Hne). lia. }
  rewrite map_size_insert. destruct (c' !! hash); unfold id; lia.
Qed.

(** ** Every state of the middleware *)

Definition audiencesOf (a : Authenticator) : list string :=
  if negb (str_eqb (a_audience a) "") then [a_audience a] else [].

(** A review in the log that admits tokens with hash [h] until [e]. *)
Definition backedBy (a : Authenticator) (log : list LogEntry) (h : string) (e : Time) : Prop :=
  ∃ spec t0, LReview spec (ReviewStatus true (a_expectedSA a)) t0 ∈ log ∧
    tr_Audiences spec = audiencesOf a ∧ sha256Hex (tr_Token spec) = h ∧ e = t0 + a_cacheTTL a.

Definition servedJustified (a : Authenticator) (log : list LogEntry) : Prop :=
  ∀ post pre token t, log = post ++ LServe token t :: pre →
    ∃ e, backedBy a pre (sha256Hex token) e ∧ t < e.

Definition resultOfEntry (en : LogEntry) : option Result :=
  match en with
  | LReview _ _ _ => None
  | LServe _ _ => Some ResultOK
  | LRefuse c _ => Some (if c =? StatusUnauthorized then ResultUnauth
                         else if c =? StatusForbidden then ResultForbidden else ResultError)
  end.

(** The results reported, oldest first, as read off the log. *)
Definition resultsOf (recorder : bool) (log : list LogEntry) : list Result :=
  if recorder then reverse (omap resultOfEntry log) else [].

Record auth_inv (a : Authenticator) (s : AuthSys) : Prop := {
  inv_config : set_cache ∅ (as_auth s) = set_cache ∅ a;
  inv_cache : ∀ h e, a_cache (as_auth s) !! h = Some e → backedBy a (as_log s) h e;
  inv_flight : map_Forall (λ _ spec, tr_Audiences spec = audiencesOf a) (as_flight s);
  inv_served : servedJustified a (as_log s);
  inv_size : Z.of_nat (size (a_cache (as_auth s))) ≤ a_cacheMax a;
  inv_results : as_results s = resultsOf (a_recorder a) (as_log s)
}.

Lemma set_cache_fields a a' :
  set_cache ∅ a' = set_cache ∅ a →
  a_expectedSA a' = a_expectedSA a ∧ a_audience a' = a_audience a ∧ a_recorder a' = a_recorder a ∧
  a_cacheTTL a' = a_cacheTTL a ∧ a_cacheMax a' = a_cacheMax a.
Proof. by destruct a, a'; intros [=]. Qed.

Lemma backedBy_mono a log log' h e : log ⊆ log' → backedBy a log h e → backedBy a log' h e.
Proof. intros Hs (spec & t0 & ? & ?). exists spec, t0. auto. Qed.

Lemma servedJustified_cons a en log :
  servedJustified a log →
  (∀ token t, en = LServe token t → ∃ e, backedBy a log (sha256Hex token) e ∧ t < e) →
  servedJustified a (en :: log).
Proof.
  intros Hl Hen [|en' post] pre token t [= -> ->]; [by apply Hen|]. by eapply Hl.
Qed.

Lemma resultsOf_cons rec en log :
  resultsOf rec (en :: log) =
    resultsOf rec log ++ (if rec then option_list (resultOfEntry en) else []).
Proof.
  unfold resultsOf. destruct rec; [|done]. simpl.
  destruct (resultOfEntry en); simpl; [by rewrite reverse_cons|by rewrite app_nil_r].
Qed.

Lemma cacheHit_spec h now a a' hit :
  cacheHit h now a = (a', hit) →
  set_cache ∅ a' = set_cache ∅ a ∧ a_cache a' ⊆ a_cache a ∧
  (hit = true → ∃ e : Time, a_cache a !! h = Some e ∧ now < e).
Proof.
  unfold cacheHit, time_before. destruct (a_cache a !! h) as [e|] eqn:E.
  - destruct (Z.ltb_spec now e); simpl; intros [= <- <-]; (split_and!; [done| |]).
    + done.
    + intros _. by exists e.
    + simpl. apply delete_subseteq.
    + done.
  - intros [= <- <-]. done.
Qed.

Lemma arrive_inv a s id header now :
  auth_inv a s → auth_inv a (authStep s (Arrive id header now)).
Proof.
  intros Hinv. pose proof Hinv as [Hc Hb Hf Hs Hz Hr]. simpl.
  destruct (set_cache_fields _ _ Hc) as (_ & Haud & Hrec & _ & _).
  destruct (as_flight s !! id); [done|].
  unfold mwBegin. destruct (extractBearer header) as [token|]; simpl.
  2:{ split; simpl; try done.
      - intros h e Hh. eapply backedBy_mono; [|by eauto]. by apply list_subseteq_cons.
      - by apply servedJustified_cons.
      - rewrite resultsOf_cons, Hr. unfold record. rewrite Hrec. by destruct (a_recorder a). }
  destruct (cacheHit _ _ _) as [a' hit] eqn:E.
  apply cacheHit_spec in E as (Hc' & Hsub & Hhit).
  assert (Z.of_nat (size (a_cache a')) ≤ a_cacheMax a) as Hz'.
  { pose proof (map_subseteq_size _ _ Hsub). lia. }
  destruct (set_cache_fields _ _ Hc') as (_ & Haud' & Hrec' & _ & _).
  destruct hit; simpl.
  - split; simpl; try done; [congruence| | |].
    + intros h e Hh. eapply backedBy_mono; [by apply list_subseteq_cons|].
      apply Hb. by eapply lookup_weaken.
    + apply servedJustified_cons; [done|]. intros tok t [= <- <-].
      destruct (Hhit eq_refl) as (e & He & ?). exists e. split; [by apply Hb|done].
    + rewrite resultsOf_cons, Hr. unfold record. rewrite Hrec', Hrec. by destruct (a_recorder a).
  - split; simpl; try done; [congruence| | |].
    + intros h e Hh. apply Hb. by eapply lookup_weaken.
    + apply map_Forall_insert_2; [|done]. simpl. unfold audiencesOf. by rewrite Haud', Haud.
    + by rewrite app_nil_r.
Qed.

Lemma review_inv a s id o now :
  0 < a_cacheMax a → 0 < a_cacheTTL a →
  auth_inv a s → auth_inv a (authStep s (Reviewed id o now)).
Proof.
  intros Hmax Httl Hinv. pose proof Hinv as [Hc Hb Hf Hs Hz Hr]. simpl.
  destruct (set_cache_fields _ _ Hc) as (Hsa & _ & Hrec & Httl' & Hmax').
  destruct (as_flight s !! id) as [spec|] eqn:Hid; [|done].
  pose proof (map_Forall_lookup_1 _ _ _ _ Hf Hid) as Haud. simpl in Haud.
  assert (∀ code r, r = resultOfEntry (LRefuse code now) →
    auth_inv a (mkAuthSys (as_auth s) (delete id (as_flight s))
      (as_results s ++ (if a_recorder a then option_list r else []))
      (LRefuse code now :: LReview spec o now :: as_log s))) as Hrefuse.
  { intros code r ->. split; simpl; try done.
    - intros h e Hh. eapply backedBy_mono; [|by eauto]. by do 2 apply list_subseteq_cons.
    - by apply map_Forall_delete.
    - by do 2 (apply servedJustified_cons; [|done]).
    - rewrite !resultsOf_cons, Hr. simpl. by destruct (a_recorder a); rewrite ?app_nil_r. }
  destruct o as [| |authenticated username]; simpl; unfold record; rewrite Hrec;
    [by refine (Hrefuse _ (Some _) _)..|].
  destruct authenticated; simpl; [|by refine (Hrefuse _ (Some _) _)].
  destruct (str_eqb username _) eqn:Eu; simpl; [|by refine (Hrefuse _ (Some _) _)].
  apply str_eqb_eq in Eu as ->. rewrite Hsa in *.
  set (log := LReview _ _ _ :: as_log s).
  assert (backedBy a log (sha256Hex (tr_Token spec)) (now + a_cacheTTL a)) as Hnew.
  { exists spec, now. split_and!; [by left|done..]. }
  split; simpl.
  - unfold cachePut, set_cache in *. simpl. done.
  - intros h e Hh. apply (backedBy_mono a log); [by apply list_subseteq_cons|].
    apply cachePut_lookup in Hh as [[-> ->]|Hh]; [by rewrite Httl'|].
    eapply backedBy_mono; [|by eauto]. by apply list_subseteq_cons.
  - by apply map_Forall_delete.
  - apply servedJustified_cons; [by apply servedJustified_cons|].
    intros tok t [= <- <-]. eexists. split; [done|]. lia.
  - rewrite <-Hmax' in *. by apply cachePut_size.
  - rewrite !resultsOf_cons, Hr. simpl. by destruct (a_recorder a); rewrite ?app_nil_r.
Qed.

Lemma authRun_inv opts a evs : NewAuthenticator opts = inr a → auth_inv a (authRun a evs).
Proof.
  intros Hnew. assert (0 < a_cacheMax a ∧ 0 < a_cacheTTL a ∧ a_cache a = ∅) as (Hm & Ht & Hc).
  { unfold NewAuthenticator in Hnew. repeat case_match; simplify_eq/=; unfold DefaultCacheMaxEntries,
      DefaultCacheTTL, Second, Millisecond, Microsecond, Nanosecond; split_and!; try done; lia. }
  unfold authRun. apply foldl_inv.
  - split; simpl; rewrite ?Hc; try done; [|by rewrite map_size_empty; lia|].
    + intros [|??] ??? [=].
    + unfold resultsOf. by destruct (a_recorder a).
  - intros s [] _ Hs; [by apply arrive_inv|by apply review_inv].
Qed.
End auth.

(** In every interleaving of any requests, a request is served only when the log before
    it holds a TokenReview sent for the configured audience, of a token with the same hash,
    that was answered authenticated with the expected service account less than one cache TTL
    earlier: errors, nil answers, other identities and expired entries never admit. *)
Theorem auth_admission_justified sha256 range opts a evs post pre token t :
  (∀ m, range m ≡ₚ map_to_list m) → NewAuthenticator opts = inr a →
  as_log (authRun sha256 range a evs) = post ++ LServe token t :: pre →
  ∃ spec t0, LReview spec (ReviewStatus true (op_ExpectedServiceAccount opts)) t0 ∈ pre ∧
    tr_Audiences spec = (if str_eqb (op_Audience opts) "" then [] else [op_Audience opts]) ∧
    sha256Hex sha256 (tr_Token spec) = sha256Hex sha256 token ∧ t < t0 + a_cacheTTL a.
Proof.
  intros Hr Hnew Hlog. pose proof (authRun_inv sha256 range Hr opts a evs Hnew) as Hinv.
  destruct (inv_served _ _ _ Hinv post pre token t Hlog) as (e & (spec & t0 & Hin & Ha & Hh & ->) & ?).
  assert (a_expectedSA a = op_ExpectedServiceAccount opts ∧ a_audience a = op_Audience opts) as [Hsa Haud].
  { unfold NewAuthenticator in Hnew. by repeat case_match; simplify_eq/=. }
  exists spec, t0. rewrite Hsa in Hin. split_and!; [done| |done..].
  rewrite Ha. unfold audiencesOf. rewrite Haud. by destruct (str_eqb (op_Audience opts) "").
Qed.

Definition sampleOptions : Options := mkOptions true "sa" PolicyAudience true 0 0.
Definition sampleAuth : Authenticator :=
  mkAuthenticator "sa" PolicyAudience true DefaultCacheTTL DefaultCacheMaxEntries ∅.
Definition sampleAuthEvents : list AuthEvent :=
  [Arrive 1 "Bearer tok" 100; Arrive 2 "Basic tok" 100; Reviewed 1 (ReviewStatus true "sa") 101;
   Arrive 3 "bearer  tok " 105].

Lemma auth_admission_justified_witness :
  ∃ spec t0, LReview spec (ReviewStatus true "sa") t0 ∈
      as_log (authRun id map_to_list sampleAuth (take 3 sampleAuthEvents)) ∧
    tr_Audiences spec = [PolicyAudience] ∧ sha256Hex id (tr_Token spec) = sha256Hex id "tok" ∧
    105 < t0 + DefaultCacheTTL.
Proof.
  apply (auth_admission_justified id map_to_list sampleOptions sampleAuth sampleAuthEvents []);
    [done|done|by vm_compute].
Defined.

(** In every interleaving the token cache holds at most its configured number of entries,
    and the recorder saw exactly one result per answered request, in order, which is the one
    of the response: OK for a served request, and for a refusal the one of its status. *)
Theorem auth_bounded_and_counted sha256 range opts a evs :
  (∀ m, range m ≡ₚ map_to_list m) → NewAuthenticator opts = inr a →
  let s := authRun sha256 range a evs in
  Z.of_nat (size (a_cache (as_auth s))) ≤ a_cacheMax a ∧
  as_results s = if op_Recorder opts then reverse (omap resultOfEntry (as_log s)) else [].
Proof.
  intros Hr Hnew s. pose proof (authRun_inv sha256 range Hr opts a evs Hnew) as Hinv.
  unfold s. split; [apply (inv_size _ _ _ Hinv)|]. rewrite (inv_results _ _ _ Hinv).
  assert (a_recorder a = op_Recorder opts) as ->; [|done].
  unfold NewAuthenticator in Hnew. by repeat case_match; simplify_eq/=.
Qed.

Lemma auth_bounded_and_counted_witness :
  as_results (authRun id map_to_list sampleAuth sampleAuthEvents) = [ResultUnauth; ResultOK; ResultOK].
Proof.
  destruct (auth_bounded_and_counted id map_to_list sampleOptions sampleAuth sampleAuthEvents)
    as [_ ->]; [done|done|by vm_compute].
Defined.
