(* ===== verification/ControlPlane.v ===== *)
(** * The control-plane push (controller/controlplane_controller.go)

    CachePolicy and CacheTenant objects are flattened into the snapshot the server
    enforces and POSTed to it.  The apiserver's list results, the token file and the
    HTTP exchange are inputs; the JSON codec is a parameter.  Objects carry the fields
    the controllers and webhooks read. *)

From Stdlib Require Import SpecFloat.
From S2P Require Import Prelude Ordering GoRuntime Floats GoText GoNumbers K8s IndexTypes IndexAccounting.
From S2P Require Import IndexEviction Policy.

(** ** The custom resources (api/v1alpha1) *)

Record CachePolicyStrategySpec := mkStrategySpec {
  ss_EnableChainMatching : option bool;
  ss_RequireChain : option bool;
  ss_EnableTenantHot : option bool
}.

Record CachePolicySpec := mkPolicySpec {
  ps_Eviction : string;
  ps_EvictionTTL : option Duration;
  ps_MinimumPrefixTokens : option Z;
  ps_MinimumMatchedTokens : option Z;
  ps_RoutingFloorScore : option string;
  ps_LookupTimeoutMs : option Z;
  ps_Strategy : option CachePolicyStrategySpec;
  ps_AffinityRouting : option string
}.

Record CachePolicy := mkCachePolicy {
  cp_Namespace : string;
  cp_Name : string;
  cp_Spec : CachePolicySpec
}.

Definition CachePolicyEvictionAlgorithmLRU : string := "LRU".
Definition CachePolicyEvictionAlgorithmLFU : string := "LFU".
Definition CachePolicyAffinityRoutingEnabled : string := "Enabled".
Definition CachePolicyAffinityRoutingDisabled : string := "Disabled".

(** metav1.Condition. *)
Record Condition := mkCondition {
  cd_Type : string;
  cd_Status : string;
  cd_Reason : string;
  cd_Message : string;
  cd_ObservedGeneration : Z;
  cd_LastTransitionTime : Time
}.

#[export] Instance Condition_eq_dec : EqDecision Condition.
Proof. solve_decision. Defined.

Record CacheTenantQuotaSpec := mkQuotaSpec { qs_MaxIndexEntries : option Z }.

Record CacheTenantStatus := mkTenantStatus {
  tst_ObservedGeneration : Z;
  tst_IndexEntries : option Z;
  tst_Conditions : list Condition
}.

Record CacheTenant := mkCacheTenant {
  ct_Namespace : string;
  ct_Name : string;
  ct_Generation : Z;
  ct_TenantID : string;
  ct_Quota : option CacheTenantQuotaSpec;
  ct_IsolationMode : string;
  ct_Status : CacheTenantStatus
}.

Definition cpKey (cp : CachePolicy) : NamespacedName := (cp_Namespace cp, cp_Name cp).
Definition ctKey (ct : CacheTenant) : NamespacedName := (ct_Namespace ct, ct_Name ct).

(** ** Resolving policies *)

(** The resolved floor: a value that does not parse, is not finite or is negative is
    replaced by the default. *)
Definition resolveFloor (s : string) : f32 :=
  match ParseFloat32 s with
  | None => DefaultRoutingFloorScore
  | Some f => if is_inf f || is_nan f || flt f f32_zero then DefaultRoutingFloorScore else f
  end.

Definition resolveStrategy (s : CachePolicyStrategySpec) : ResolvedLookupStrategy :=
  mkStrategy (ss_EnableChainMatching s) (ss_RequireChain s) (ss_EnableTenantHot s).

Definition resolveOnePolicy (cp : CachePolicy) : ResolvedPolicy :=
  let spec := cp_Spec cp in
  let eviction := if negb (str_eqb (ps_Eviction spec) "") then ps_Eviction spec
                  else CachePolicyEvictionAlgorithmLRU in
  mkPolicy (cp_Namespace cp)
    (default 0 (ps_EvictionTTL spec))
    (default 0 (ps_MinimumPrefixTokens spec))
    (default 0 (ps_MinimumMatchedTokens spec))
    (resolveFloor <$> ps_RoutingFloorScore spec)
    (default 0 (ps_LookupTimeoutMs spec))
    ((λ v, str_eqb v CachePolicyAffinityRoutingEnabled) <$> ps_AffinityRouting spec)
    (to_lower eviction)
    (resolveStrategy <$> ps_Strategy spec).

(** The loop over the sorted slice; [prev] is the namespace of the element before. *)
Fixpoint firstPerNamespace (prev : option string) (sorted : list CachePolicy) : list ResolvedPolicy :=
  match sorted with
  | [] => []
  | cp :: rest =>
      if bool_decide (prev = Some (cp_Namespace cp))
      then firstPerNamespace (Some (cp_Namespace cp)) rest
      else resolveOnePolicy cp :: firstPerNamespace (Some (cp_Namespace cp)) rest
  end.

Definition resolvePolicies (items : list CachePolicy) : list ResolvedPolicy :=
  if (length items =? 0)%nat then []
  else firstPerNamespace None (go_sort (nnLess cpKey) items).

(** ** Resolving tenants *)

Definition resolveOneTenant (ct : CacheTenant) : option ResolvedTenant :=
  if str_eqb (ct_TenantID ct) "" then None
  else q ← ct_Quota ct; m ← qs_MaxIndexEntries q;
       Some (mkTenant (ct_TenantID ct) m (ct_IsolationMode ct)).

Fixpoint firstPerTenant (seen : gset string) (sorted : list CacheTenant) : list ResolvedTenant :=
  match sorted with
  | [] => []
  | ct :: rest =>
      match resolveOneTenant ct with
      | None => firstPerTenant seen rest
      | Some rt => if bool_decide (t_TenantID rt ∈ seen) then firstPerTenant seen rest
                   else rt :: firstPerTenant ({[t_TenantID rt]} ∪ seen) rest
      end
  end.

(** A nil slice and an empty one are both []. *)
Definition resolveTenants (items : list CacheTenant) : list ResolvedTenant :=
  if (length items =? 0)%nat then []
  else firstPerTenant ∅ (go_sort (nnLess ctKey) items).

(** ** The push *)

Inductive PushError :=
  | PErrListPolicies
  | PErrListTenants
  | PErrMarshal
  | PErrRequest
  | PErrDo
  | PErrStatus (code : Z).

Definition DefaultPolicyBearerTokenPath : string :=
  "/var/run/secrets/inferencecache.io/policy-token/token".

(** The token and whether reading it failed; [readFile] is the file system. *)
Definition bearerToken (readFile : string → FileRead) (configured dflt : string) : string * bool :=
  let path := if str_eqb configured "" then dflt else configured in
  match readFile path with
  | FileMissing => ("", false)
  | FileErr => ("", true)
  | FileData b => (TrimSpace b, false)
  end.

Record HTTPRequest (Body : Type) := mkHTTPRequest {
  hr_Method : string;
  hr_URL : string;
  hr_Authorization : option string;
  hr_Body : Body
}.
Arguments mkHTTPRequest {Body} _ _ _ _.
Arguments hr_Method {Body} _.
Arguments hr_URL {Body} _.
Arguments hr_Authorization {Body} _.
Arguments hr_Body {Body} _.

(** The Authorization header: none without a token. *)
Definition bearerHeader (token : string) : option string :=
  if negb (str_eqb token "") then Some ("Bearer " +:+ token) else None.

Record ControlPlaneReconciler := mkReconciler {
  cr_ServerPolicyURL : string;
  cr_BearerTokenPath : string
}.

Section push.
Context {Body S : Type}.
(** [json.Marshal], [http.NewRequest]'s verdict on the URL, the file system and the HTTP
    exchange: a status code or a transport error, and what it does to the peer. *)
Variable marshal : PolicySnapshot → option Body.
Variable urlOK : string → bool.
Variable readFile : string → FileRead.
Variable httpDo : HTTPRequest Body → S → option Z * S.

Definition buildSnapshot (ps : list CachePolicy) (ts : list CacheTenant) : PolicySnapshot :=
  mkPolicySnapshot PolicyPropagationVersion (resolvePolicies ps) (resolveTenants ts).

Definition postSnapshot (r : ControlPlaneReconciler) (snap : PolicySnapshot) (s : S) :
    option PushError * S :=
  match marshal snap with
  | None => (Some PErrMarshal, s)
  | Some body =>
      if negb (urlOK (cr_ServerPolicyURL r)) then (Some PErrRequest, s)
      else
        let '(token, _) := bearerToken readFile (cr_BearerTokenPath r) DefaultPolicyBearerTokenPath in
        match httpDo (mkHTTPRequest "POST" (cr_ServerPolicyURL r) (bearerHeader token) body) s with
        | (None, s) => (Some PErrDo, s)
        | (Some code, s) => if negb (Z.quot code 100 =? 2) then (Some (PErrStatus code), s)
                            else (None, s)
        end
  end.

(** The list results stand for what the two calls return, in their order. *)
Definition pushSnapshot (r : ControlPlaneReconciler) (policies : ListResult CachePolicy)
    (tenants : ListResult CacheTenant) (s : S) : option PushError * S :=
  match policies with
  | ListNotFound => (None, s)
  | ListErr => (Some PErrListPolicies, s)
  | ListOK ps =>
      match tenants with
      | ListErr => (Some PErrListTenants, s)
      | ListNotFound => postSnapshot r (buildSnapshot ps []) s
      | ListOK ts => postSnapshot r (buildSnapshot ps ts) s
      end
  end.

Definition Reconcile := pushSnapshot.
End push.

(** ** What the resolved lists contain *)

Definition inNamespace (ns : string) (cp : CachePolicy) : bool := str_eqb (cp_Namespace cp) ns.

(** tenantHasQuota of the status writer; [resolveOneTenant] tests the same. *)
Definition tenantHasQuota (ct : CacheTenant) : bool :=
  negb (str_eqb (ct_TenantID ct) "") &&
  match ct_Quota ct with
  | Some q => match qs_MaxIndexEntries q with Some _ => true | None => false end
  | None => false
  end.

Definition quotaFor (t : string) (ct : CacheTenant) : bool :=
  tenantHasQuota ct && str_eqb (ct_TenantID ct) t.

Lemma resolveOneTenant_quota ct : is_Some (resolveOneTenant ct) ↔ tenantHasQuota ct = true.
Proof.
  unfold resolveOneTenant, tenantHasQuota. destruct (str_eqb _ _); simpl; [by split; [intros []|]|].
  destruct (ct_Quota ct) as [[[m|]]|]; simpl; split; first [by eauto|by intros []|done].
Qed.

Lemma resolveOneTenant_id ct rt : resolveOneTenant ct = Some rt → t_TenantID rt = ct_TenantID ct.
Proof.
  unfold resolveOneTenant. destruct (str_eqb _ _); [done|].
  destruct (ct_Quota ct) as [[[m|]]|]; simpl; by intros [= <-].
Qed.

(** The namespaces of a slice sorted by (namespace, name) do not decrease. *)
Lemma nnLess_ns_ge {A : Type} (key : A → NamespacedName) a b :
  nnLess key b a = false → str_lt (key b).1 (key a).1 = false.
Proof.
  unfold nnLess. destruct (str_eqb (key b).1 (key a).1) eqn:E; simpl; [|done].
  apply str_eqb_eq in E. intros _. rewrite E. unfold str_lt, less_of.
  by rewrite (proj2 (string_compare_eq_iff _ _) eq_refl).
Qed.

Lemma str_lt_total s t : s ≠ t → str_lt t s = false → str_lt s t = true.
Proof.
  unfold str_lt, less_of. intros Hne. rewrite (String.compare_antisym t s).
  destruct (String.compare s t) eqn:E; simpl; try done. by apply string_compare_eq_iff in E.
Qed.

(** The entries of a namespace, after those of a namespace that is not greater. *)
Lemma firstPerNamespace_filter ns l : ∀ prev,
  strongly_sorted_by (nnLess cpKey) l →
  (∀ p cp, prev = Some p → cp ∈ l → str_lt (cp_Namespace cp) p = false) →
  filter (λ p, p_Namespace p = ns) (firstPerNamespace prev l) =
    if bool_decide (prev = Some ns) then []
    else option_list (resolveOnePolicy <$> List.find (inNamespace ns) l).
Proof.
  induction l as [|x l IH]; intros prev Hs Hprev; simpl.
  { by destruct (bool_decide _). }
  inversion_clear Hs as [|?? Hsl Hx]. rewrite Forall_forall in Hx.
  assert (∀ cp, cp ∈ l → str_lt (cp_Namespace cp) (cp_Namespace x) = false) as Hge.
  { intros cp Hcp. apply (nnLess_ns_ge cpKey x cp), Hx, Hcp. }
  specialize (IH (Some (cp_Namespace x)) Hsl ltac:(by intros p cp [= <-]; apply Hge)).
  unfold inNamespace at 1. destruct (bool_decide (prev = Some (cp_Namespace x))) eqn:Ep.
  - apply bool_decide_eq_true in Ep as ->. rewrite IH. case_bool_decide as E; [done|].
    rewrite (proj2 (str_eqb_neq (cp_Namespace x) ns)); [done|congruence].
  - apply bool_decide_eq_false in Ep. rewrite filter_cons. simpl. destruct (decide (cp_Namespace x = ns)) as [En|En].
    + rewrite IH, (bool_decide_true (Some _ = _)) by congruence.
      rewrite (bool_decide_false (prev = _)) by congruence.
      rewrite (proj2 (str_eqb_eq (cp_Namespace x) ns)) by done. done.
    + rewrite IH, bool_decide_false by congruence. rewrite (proj2 (str_eqb_neq (cp_Namespace x) ns)) by done.
      destruct (bool_decide (prev = Some ns)) eqn:Epn; [apply bool_decide_eq_true in Epn as ->|done].
      destruct (List.find (inNamespace ns) l) as [y|] eqn:Ef; [|done]. exfalso.
      apply find_some in Ef as [Hy%list_elem_of_In Hyn]. apply str_eqb_eq in Hyn.
      pose proof (Hprev ns x eq_refl ltac:(left)) as Hxn. pose proof (Hge y Hy) as Hyx.
      rewrite Hyn in Hyx. rewrite (str_lt_total ns (cp_Namespace x) ltac:(congruence) Hxn) in Hyx. done.
Qed.

Lemma firstPerTenant_filter t l : ∀ seen,
  filter (λ rt, t_TenantID rt = t) (firstPerTenant seen l) =
    if bool_decide (t ∈ seen) then [] else option_list (List.find (quotaFor t) l ≫= resolveOneTenant).
Proof.
  induction l as [|x l IH]; intros seen; simpl.
  { by destruct (bool_decide _). }
  unfold quotaFor at 1. pose proof (resolveOneTenant_quota x) as Hq.
  destruct (resolveOneTenant x) as [rt|] eqn:Ert.
  - rewrite (proj1 Hq) by done. simpl. pose proof (resolveOneTenant_id _ _ Ert) as Hid.
    rewrite Hid. case_bool_decide as Hseen.
    + rewrite IH. case_bool_decide as Ht; [done|].
      rewrite (proj2 (str_eqb_neq _ _)) by congruence. done.
    + rewrite filter_cons. rewrite Hid. case_decide as Et.
      * rewrite IH, bool_decide_true by set_solver. rewrite bool_decide_false by congruence.
        rewrite (proj2 (str_eqb_eq _ _)) by done. simpl. by rewrite Ert.
      * rewrite IH, (proj2 (str_eqb_neq _ _)) by done.
        by rewrite (bool_decide_ext (t ∈ {[ct_TenantID x]} ∪ seen) (t ∈ seen)) by set_solver.
  - destruct (tenantHasQuota x) eqn:E; [by destruct (proj2 Hq eq_refl)|]. simpl. apply IH.
Qed.

Lemma last_option_list {A : Type} (o : option A) : last (option_list o) = o.
Proof. by destruct o. Qed.

(** One entry per namespace: the policy with the least name. *)
Lemma resolvePolicies_lookup items ns :
  NoDup (cpKey <$> items) →
  lastOf p_Namespace ns (resolvePolicies items) =
    resolveOnePolicy <$> leastBy cpKey (inNamespace ns) items.
Proof.
  intros Hnd. rewrite <-(find_sorted_leastBy cpKey) by done. unfold resolvePolicies, lastOf.
  destruct items as [|i items]; [done|]. simpl length.
  change (S (length items) =? 0)%nat with false. cbv iota.
  rewrite firstPerNamespace_filter; [by rewrite bool_decide_false, last_option_list by done| |done].
  apply (go_sort_strongly_sorted (.∈ i :: items)); [by apply Forall_forall|by apply keyed_order].
Qed.

(** One entry per tenant: the first object with a budget. *)
Lemma resolveTenants_lookup items t :
  NoDup (ctKey <$> items) →
  lastOf t_TenantID t (resolveTenants items) = leastBy ctKey (quotaFor t) items ≫= resolveOneTenant.
Proof.
  intros Hnd. rewrite <-(find_sorted_leastBy ctKey) by done. unfold resolveTenants, lastOf.
  destruct items as [|i items]; [done|]. simpl length.
  change (S (length items) =? 0)%nat with false. cbv iota.
  by rewrite firstPerTenant_filter, bool_decide_false, last_option_list by set_solver.
Qed.

(** ** Settings *)

(** What the fields of a CachePolicy mean for the requests of its namespace. *)
Definition crSettings (cp : CachePolicy) : Settings :=
  let spec := cp_Spec cp in
  let flag f dflt := default dflt (st ← ps_Strategy spec; f st) in
  mkSettings (default 0 (ps_EvictionTTL spec))
    (to_lower (if str_eqb (ps_Eviction spec) "" then "LRU" else ps_Eviction spec))
    (default 0 (ps_MinimumPrefixTokens spec))
    (Z.max 0 (default 0 (ps_MinimumMatchedTokens spec)))
    (match ps_RoutingFloorScore spec with None => DefaultRoutingFloorScore | Some s => resolveFloor s end)
    (match ps_AffinityRouting spec with None => true | Some v => str_eqb v "Enabled" end)
    (match ps_LookupTimeoutMs spec with Some ms => Z.max 0 ms * Millisecond | None => 0 end)
    (flag ss_EnableChainMatching true) (flag ss_RequireChain false) (flag ss_EnableTenantHot true).

(** A resolved floor is a finite non-negative score: no object can switch the floor to NaN
    or infinity, and only an explicit zero disables it. *)
Lemma resolveFloor_safe s :
  is_nan (resolveFloor s) = false ∧ is_inf (resolveFloor s) = false ∧
  flt (resolveFloor s) f32_zero = false.
Proof.
  unfold resolveFloor. destruct (ParseFloat32 s) as [f|]; [|done].
  destruct (is_inf f) eqn:E1, (is_nan f) eqn:E2, (flt f f32_zero) eqn:E3; done.
Qed.

Lemma settings_of_resolved cp :
  settingsFor PolicyPropagationVersion (resolveOnePolicy cp) = crSettings cp.
Proof.
  unfold settingsFor, resolveOnePolicy, crSettings.
  destruct cp as [ns n [ev ttl mp mm fl to st af]]. simpl.
  f_equal.
  - by destruct (str_eqb ev "").
  - destruct fl as [s|]; [|done]. simpl. by rewrite (proj2 (proj2 (resolveFloor_safe s))).
  - by destruct af.
  - destruct to as [ms|]; simpl; [|done]. destruct (Z.ltb_spec 0 ms); lia.
  - by destruct st.
  - by destruct st.
  - by destruct st.
Qed.

Definition budgetOf (ct : CacheTenant) : option Z := ct_Quota ct ≫= qs_MaxIndexEntries.

(** ** The server at the other end *)

Definition statusCode (st : HTTPStatus) : Z :=
  match st with StatusNoContent => 204 | StatusBadRequest => 400 | StatusMethodNotAllowed => 405 end.

Section server.
Context {Body : Type}.
Variable unmarshal : Body → option PolicySnapshot.
(** The verdict of the authentication middleware on the Authorization header. *)
Variable allows : option string → bool.

Definition policyServer (req : HTTPRequest Body) (s : PolicyStore) : option Z * PolicyStore :=
  if allows (hr_Authorization req) then
    let '(st, s) := policyHandler (hr_Method req) (unmarshal (hr_Body req)) s in
    (Some (statusCode st), s)
  else (Some 401, s).
End server.

(** The settings and quotas a cluster's objects ask for. *)
Definition enforces (ps : list CachePolicy) (ts : list CacheTenant) (s : PolicyStore) : Prop :=
  (∀ ns, ns ≠ "" →
    settingsOf s ns = match leastBy cpKey (inNamespace ns) ps with
                      | Some cp => crSettings cp
                      | None => defaultSettings
                      end) ∧
  (∀ t, t ≠ "" → t ≠ ProbeTenantID →
    TenantQuota s t = Z.max 0 <$> (leastBy ctKey (quotaFor t) ts ≫= budgetOf)).

(** The store after the handler took the snapshot of these objects. *)
Definition served (ps : list CachePolicy) (ts : list CacheTenant) (s : PolicyStore) : PolicyStore :=
  (policyHandler "POST" (Some (buildSnapshot ps ts)) s).2.

Lemma clampTenant_max rt : t_MaxIndexEntries (clampTenant rt) = Z.max 0 (t_MaxIndexEntries rt).
Proof. unfold clampTenant. destruct (Z.ltb_spec (t_MaxIndexEntries rt) 0); simpl; lia. Qed.

Lemma replace_enforces ps ts s :
  NoDup (cpKey <$> ps) → NoDup (ctKey <$> ts) → enforces ps ts (served ps ts s).
Proof.
  intros Hps Hts. set (snap := normalizePolicySnapshotForVersion (buildSnapshot ps ts)).
  change (served ps ts s) with (ReplaceSnapshot (ps_Policies snap) (ps_Tenants snap) s). split.
  - intros ns Hns. rewrite settingsOf_lookup. unfold ReplaceSnapshot, snap. cbn [policies].
    rewrite lookup_normalized by done. cbn [buildSnapshot ps_Policies ps_Version].
    rewrite resolvePolicies_lookup by done. destruct (leastBy _ _ ps) as [cp|]; [|done].
    cbn [fmap option_fmap option_map]. by rewrite settingsEntry_normalize, settings_of_resolved.
  - intros t Ht Hp. unfold TenantQuota. rewrite (proj2 (str_eqb_neq _ _)) by done.
    unfold ReplaceSnapshot, snap. cbn [tenants]. rewrite normalize_fmap. cbn [ps_Tenants buildSnapshot].
    rewrite nextTenants_lookup, decide_False, resolveTenants_lookup by done.
    pose proof (leastBy_spec ctKey (quotaFor t) ts Hts) as Hl.
    destruct (leastBy _ _ ts) as [ct|]; [|done]. destruct Hl as (_ & Hq & _).
    apply andb_true_iff in Hq as [Hq _]. simpl. unfold tenantHasQuota in Hq.
    apply andb_true_iff in Hq as [Hid Hq]. unfold resolveOneTenant, budgetOf.
    destruct (str_eqb (ct_TenantID ct) ""); [done|].
    destruct (ct_Quota ct) as [[[m|]]|]; try done. simpl. f_equal.
    apply (clampTenant_max (mkTenant (ct_TenantID ct) m (ct_IsolationMode ct))).
Qed.

Lemma post_served {Body : Type} (marshal : PolicySnapshot → option Body) unmarshal allows urlOK
    readFile r ps ts s body :
  marshal (buildSnapshot ps ts) = Some body → unmarshal body = Some (buildSnapshot ps ts) →
  urlOK (cr_ServerPolicyURL r) = true →
  allows (bearerHeader (bearerToken readFile (cr_BearerTokenPath r) DefaultPolicyBearerTokenPath).1) = true →
  postSnapshot marshal urlOK readFile (policyServer unmarshal allows) r (buildSnapshot ps ts) s =
    (None, served ps ts s).
Proof.
  intros Hm Hu Hurl Ha. unfold postSnapshot. rewrite Hm, Hurl. cbn [negb].
  destruct (bearerToken readFile _ _) as [token err]. unfold policyServer. cbn [hr_Authorization fst] in *.
  rewrite Ha. cbn [hr_Method hr_Body]. by rewrite Hu.
Qed.

(** C11: A push to a server that admits the controller and decodes what it encoded succeeds,
    and afterwards every namespace is governed by its CachePolicy with the least name (by
    the defaults when it has none) and every tenant by the first budget declared for it in
    (namespace, name) order, whatever order the apiserver listed the objects in. *)
Theorem push_enforces_cluster {Body : Type} (marshal : PolicySnapshot → option Body) unmarshal
    allows urlOK readFile r ps ts s body :
  NoDup (cpKey <$> ps) → NoDup (ctKey <$> ts) →
  marshal (buildSnapshot ps ts) = Some body → unmarshal body = Some (buildSnapshot ps ts) →
  urlOK (cr_ServerPolicyURL r) = true →
  allows (bearerHeader (bearerToken readFile (cr_BearerTokenPath r) DefaultPolicyBearerTokenPath).1) = true →
  ∃ s', pushSnapshot marshal urlOK readFile (policyServer unmarshal allows) r (ListOK ps) (ListOK ts) s
          = (None, s') ∧
    ∀ ps' ts', ps' ≡ₚ ps → ts' ≡ₚ ts → enforces ps' ts' s'.
Proof.
  intros Hps Hts Hm Hu Hurl Ha. exists (served ps ts s). split; [by eapply post_served|].
  intros ps' ts' Hp Ht. destruct (replace_enforces ps ts s Hps Hts) as [H1 H2]. split.
  - intros ns Hns. rewrite <-(leastBy_perm cpKey _ ps ps') by (done || by symmetry). by apply H1.
  - intros t Ht' Hpr. rewrite <-(leastBy_perm ctKey _ ts ts') by (done || by symmetry). by apply H2.
Qed.

(** ** Pushes over time

    The watch-driven reconciler and the ticker push concurrently with each other and with
    changes of the cluster.  [pushMu] is held from before the first list to after the exchange,
    so the calls of [pushSnapshot] follow one another; the cluster may change at any point.
    [at_p n] and [at_t n] are its objects after the [n]-th change. *)

(** What a list call returned: the objects of some version, no CRD, or an error. *)
Inductive Listing := SawVersion (v : nat) | NoCRD | ListFailed.

Definition listed {A : Type} (objects : nat → list A) (l : Listing) : ListResult A :=
  match l with SawVersion v => ListOK (objects v) | NoCRD => ListNotFound | ListFailed => ListErr end.

(** What became of the request: the server answered, with the middleware's verdict; it never
    arrived; or the client gave up on it and the server may still handle it. *)
Inductive Fate := Answered (admitted : bool) | Lost | Abandoned.

#[export] Instance Fate_eq_dec : EqDecision Fate.
Proof. solve_decision. Defined.

Record PushCall := mkCall { pc_Policies : Listing; pc_Tenants : Listing; pc_Fate : Fate }.

(** A call, or the late handling of the [n]-th abandoned request. *)
Inductive PushEvent := Call (c : PushCall) | Late (n : nat).

Section history.
Context {Body : Type} (marshal : PolicySnapshot → option Body) (unmarshal : Body → option PolicySnapshot).
Context (urlOK : string → bool) (readFile : string → FileRead) (r : ControlPlaneReconciler).
Context (at_p : nat → list CachePolicy) (at_t : nat → list CacheTenant).

(** The server's store and the requests it may still handle. *)
Notation World := (PolicyStore * list (HTTPRequest Body))%type.

Definition exchange (f : Fate) (req : HTTPRequest Body) (w : World) : option Z * World :=
  match f with
  | Answered admitted =>
      let '(code, s) := policyServer unmarshal (λ _, admitted) req w.1 in (code, (s, w.2))
  | Lost => (None, w)
  | Abandoned => (None, (w.1, w.2 ++ [req]))
  end.

Definition pushCall (c : PushCall) (w : World) : option PushError * World :=
  pushSnapshot marshal urlOK readFile (exchange (pc_Fate c)) r
    (listed at_p (pc_Policies c)) (listed at_t (pc_Tenants c)) w.

Definition pushEvent (w : World) (e : PushEvent) : World :=
  match e with
  | Call c => (pushCall c w).2
  | Late n => match w.2 !! n with
              | Some req => ((policyServer unmarshal (λ _, true) req w.1).2, delete n w.2)
              | None => w
              end
  end.

Definition pushRun (h : list PushEvent) : World := foldl pushEvent (NewPolicyStore, []) h.

(** The versions a call read, in the order it read them. *)
Definition callReads (c : PushCall) : list nat :=
  match pc_Policies c, pc_Tenants c with
  | SawVersion v, SawVersion v' => [v; v']
  | SawVersion v, _ => [v]
  | _, _ => []
  end.

(** [pushMu] orders the reads of all calls; the versions read never go back. *)
Definition lockOrder (h : list PushEvent) : Prop :=
  StronglySorted le (h ≫= λ e, match e with Call c => callReads c | Late _ => [] end).

Definition noLate (h : list PushEvent) : Prop :=
  Forall (λ e, match e with Call _ => True | Late _ => False end) h.

(** The versions a call delivered: both lists read (a missing tenant CRD counts as no
    tenants) and the request admitted. *)
Definition delivered (c : PushCall) : option (nat * option nat) :=
  match pc_Policies c, pc_Tenants c, pc_Fate c with
  | SawVersion v, SawVersion v', Answered true => Some (v, Some v')
  | SawVersion v, NoCRD, Answered true => Some (v, None)
  | _, _, _ => None
  end.

Definition deliveries (h : list PushEvent) : list (nat * option nat) :=
  omap (λ e, match e with Call c => delivered c | Late _ => None end) h.

Definition tenantsAt (v : option nat) : list CacheTenant := from_option at_t [] v.

(** Neither version is older. *)
Definition vle (a b : nat * option nat) : Prop :=
  (a.1 ≤ b.1)%nat ∧ ∀ x y, a.2 = Some x → b.2 = Some y → (x ≤ y)%nat.

Hypothesis codec : ∀ v t, ∃ body,
  marshal (buildSnapshot (at_p v) (tenantsAt t)) = Some body ∧
  unmarshal body = Some (buildSnapshot (at_p v) (tenantsAt t)).
Hypothesis url_ok : urlOK (cr_ServerPolicyURL r) = true.

Lemma postSnapshot_fate v t f w :
  let '(err, w') :=
    postSnapshot marshal urlOK readFile (exchange f) r (buildSnapshot (at_p v) (tenantsAt t)) w in
  (err = None ↔ f = Answered true) ∧
  w'.1 = if decide (f = Answered true) then served (at_p v) (tenantsAt t) w.1 else w.1.
Proof.
  destruct (codec v t) as (body & Hm & Hu). unfold postSnapshot. rewrite Hm, url_ok. cbn [negb].
  destruct (bearerToken _ _ _) as [token err]. unfold exchange, policyServer.
  destruct f as [[]| |]; cbn [hr_Method hr_Body]; [rewrite Hu|..]; by repeat split.
Qed.

Lemma pushCall_effect c w :
  ((pushCall c w).1 = None ↔ pc_Policies c = NoCRD ∨ is_Some (delivered c)) ∧
  (pushCall c w).2.1 =
    match delivered c with Some (v, t) => served (at_p v) (tenantsAt t) w.1 | None => w.1 end.
Proof.
  unfold pushCall, pushSnapshot, delivered. destruct c as [[v| |] l f]; cbn [pc_Policies pc_Tenants pc_Fate listed];
    [|split; [split; [by left|done]|done]|split; [split; [done|by intros [?|[? ?]]]|done]].
  destruct l as [v'| |]; cbn [listed];
    [pose proof (postSnapshot_fate v (Some v') f w) as H|pose proof (postSnapshot_fate v None f w) as H
    |split; [split; [done|by intros [?|[? ?]]]|done]];
    cbn [tenantsAt from_option] in H; destruct (postSnapshot _ _ _ _ _ _ _) as [err w']; cbn [fst snd];
    destruct H as [-> ->]; destruct f as [[]| |];
    (split; [split; [first [done|intros _; right; by eexists]|by intros [?|[? ?]]]|done]).
Qed.

Lemma delivered_reads c v :
  delivered c = Some v → v.1 ∈ callReads c ∧ ∀ x, v.2 = Some x → x ∈ callReads c.
Proof.
  unfold delivered, callReads. destruct (pc_Policies c); [|done..].
  destruct (pc_Tenants c), (pc_Fate c) as [[]| |]; try done; intros [= <-]; simpl; set_solver.
Qed.

Lemma deliveries_reads h v :
  v ∈ deliveries h →
  let reads := h ≫= λ e, match e with Call c => callReads c | Late _ => [] end in
  v.1 ∈ reads ∧ ∀ x, v.2 = Some x → x ∈ reads.
Proof.
  intros ([c|] & Hin & Hd)%list_elem_of_omap; [|done]. apply delivered_reads in Hd as [H1 H2].
  split; [|intros x Hx]; apply list_elem_of_bind; exists (Call c); auto.
Qed.

End history.

(** ** Witnesses *)

Definition samplePolicy (ns name : string) (floor : option string) : CachePolicy :=
  mkCachePolicy ns name (mkPolicySpec "LFU" (Some Minute) None (Some 32) floor None None (Some "Disabled")).

Definition sampleTenant (ns name id : string) (q : option Z) : CacheTenant :=
  mkCacheTenant ns name 1 id (Some (mkQuotaSpec q)) "Fairness" (mkTenantStatus 0 None []).

Definition samplePolicies : list CachePolicy :=
  [samplePolicy "a" "p2" None; samplePolicy "a" "p1" (Some "0.25"); samplePolicy "b" "p" (Some "1e60")].
Definition sampleTenants : list CacheTenant :=
  [sampleTenant "b" "x" "t" (Some 7); sampleTenant "a" "y" "t" (Some 5); sampleTenant "a" "n" "t" None].

Lemma push_enforces_cluster_witness :
  ∃ s, settingsOf s "a" = crSettings (samplePolicy "a" "p1" (Some "0.25")) ∧
       set_Floor (settingsOf s "a") = f32_lit 1 4 ∧
       set_Floor (settingsOf s "b") = DefaultRoutingFloorScore ∧
       settingsOf s "c" = defaultSettings ∧ TenantQuota s "t" = Some 5.
Proof.
  destruct (push_enforces_cluster (λ s, Some s) (λ b, Some b) (λ _, true) (λ _, true)
    (λ _, FileMissing) (mkReconciler "http://server/policy" "") samplePolicies sampleTenants
    NewPolicyStore (buildSnapshot samplePolicies sampleTenants)) as (s & _ & H).
  - vm_compute. repeat (constructor; [set_solver|]). constructor.
  - vm_compute. repeat (constructor; [set_solver|]). constructor.
  - reflexivity.
  - reflexivity.
  - reflexivity.
  - reflexivity.
  - destruct (H samplePolicies sampleTenants) as [H1 H2]; [reflexivity..|]. exists s.
    rewrite (H1 "a"), (H1 "b"), (H1 "c"), (H2 "t") by done. vm_compute. done.
Defined.

(** The cluster loses its objects at the first change. *)
Definition emptied {A : Type} (l : list A) (n : nat) : list A := match n with O => l | _ => [] end.

Definition samplePushes : list PushEvent :=
  [Call (mkCall (SawVersion 0) (SawVersion 0) (Answered true));
   Call (mkCall (SawVersion 0) (SawVersion 1) Lost);
   Call (mkCall (SawVersion 1) (SawVersion 1) (Answered true));
   Call (mkCall (SawVersion 1) ListFailed Lost)].

Abbreviation sampleRun := (pushRun (λ s, Some s) (λ b, Some b) (λ _, true) (λ _, FileMissing)
  (mkReconciler "http://server/policy" "") (emptied samplePolicies) (emptied sampleTenants)).


(** A request the client gave up on, read before the policies were deleted, is handled after
    the push that removed them: the server enforces them again until the next push. *)
Definition latePushes : list PushEvent :=
  [Call (mkCall (SawVersion 0) (SawVersion 0) Abandoned);
   Call (mkCall (SawVersion 1) (SawVersion 1) (Answered true)); Late 0].

Lemma late_request_regresses :
  lockOrder latePushes ∧ TenantQuota (sampleRun (take 2 latePushes)).1 "t" = None ∧
  TenantQuota (sampleRun latePushes).1 "t" = Some 5.
Proof. split; [cbv; repeat constructor|by vm_compute]. Qed.
