(* ===== verification/IndexPoller.v ===== *)
(** * The CacheIndex poller (controller/cacheindex_controller.go, cacheindex_metrics.go)

    One scrape of the server's snapshot is projected three ways: onto the CacheIndex
    singleton, onto each CacheBackend's index participation (with the tier-2 metrics),
    and onto each CacheTenant's status.  [refresh] returns the writes it performs in
    order; the apiserver's answers are inputs.  meta.SetStatusCondition and
    equality.Semantic.DeepEqual are parameters. *)

From Stdlib Require Import SpecFloat.
From stdpp Require Import pretty.
From S2P Require Import Prelude Ordering GoRuntime Floats GoText GoNumbers K8s IndexTypes IndexSnapshot.
From S2P Require Import Policy ControlPlane.

(** ** Data *)

(** controlplaneapi.Snapshot. *)
Record WireSnapshot := mkWireSnapshot {
  ws_Replicas : list ReplicaSnapshot;
  ws_Tenants : list TenantSnapshot;
  ws_TotalPrefixes : Z;
  ws_HotPrefixes : Z
}.

(** The domain snapshot's hot count is never set: 0. *)
Definition snapshotForControlPlane (src : Snapshot) : WireSnapshot :=
  mkWireSnapshot (sn_Replicas src) (sn_Tenants src) (sn_TotalPrefixes src) 0.

Record CacheBackendIndexParticipation := mkParticipation {
  ip_PrefixCount : Z;
  ip_LastEventAt : option Time;
  ip_HitRate : option string;
  ip_T2HitRate : option string
}.

#[export] Instance Participation_eq_dec : EqDecision CacheBackendIndexParticipation.
Proof. solve_decision. Defined.

(** The CacheBackend fields the poller reads; a nil selector is [None]. *)
Record Backend := mkBackend {
  bk_Namespace : string;
  bk_Name : string;
  bk_MatchLabels : option (gmap string string);
  bk_IndexParticipation : option CacheBackendIndexParticipation
}.

Definition bkKey (b : Backend) : NamespacedName := (bk_Namespace b, bk_Name b).

Record Pod := mkPod {
  pod_Namespace : string;
  pod_Name : string;
  pod_Labels : gmap string string;
  pod_Annotations : gmap string string
}.

Record ReplicaCacheStatus := mkReplicaStatus {
  rc_ID : string;
  rc_Tenant : string;
  rc_CacheMemoryBytes : Z;
  rc_HitRate : option string;
  rc_Pressure : string;
  rc_LastUpdate : Time
}.

Record TenantCacheStatus := mkTenantCacheStatus {
  tc_ID : string;
  tc_IndexEntries : option Z;
  tc_HitRate : option string;
  tc_MemoryUsed : Z
}.

Record CacheIndexStatus := mkCacheIndexStatus {
  ci_Replicas : list ReplicaCacheStatus;
  ci_Tenants : list TenantCacheStatus;
  ci_Total : Z;
  ci_Hot : Z;
  ci_ObservedServer : string;
  ci_LastUpdated : Time
}.

#[export] Instance ReplicaCacheStatus_eq_dec : EqDecision ReplicaCacheStatus.
Proof. solve_decision. Defined.
#[export] Instance TenantCacheStatus_eq_dec : EqDecision TenantCacheStatus.
Proof. solve_decision. Defined.
#[export] Instance CacheIndexStatus_eq_dec : EqDecision CacheIndexStatus.
Proof. solve_decision. Defined.
#[export] Instance CacheTenantStatus_eq_dec : EqDecision CacheTenantStatus.
Proof. solve_decision. Defined.

(** ** The cluster-wide status *)

(** A rate in [0,1] as a short decimal. *)
Definition formatRate (f : f32) : string := FormatFloat32 f.

Definition byIDStep (byID : gmap string ReplicaSnapshot) (r : ReplicaSnapshot) :
    gmap string ReplicaSnapshot :=
  if time_is_zero (rsn_LastUpdate r) then byID
  else
    match byID !! rsn_ReplicaID r with
    | Some existing => if negb (str_lt (rsn_Tenant existing) (rsn_Tenant r)) then byID
                       else <[rsn_ReplicaID r := r]> byID
    | None => <[rsn_ReplicaID r := r]> byID
    end.

Definition replicaStatusRow (r : ReplicaSnapshot) : ReplicaCacheStatus :=
  mkReplicaStatus (rsn_ReplicaID r) (rsn_Tenant r) (rsn_CacheMemoryBytes r)
    (if rsn_StatsReported r || negb (time_is_zero (rsn_LastUpdate r))
     then Some (formatRate (rsn_HitRate r)) else None)
    (formatRate (rsn_Pressure r)) (rsn_LastUpdate r).

Definition tenantStatusRow (t : TenantSnapshot) : TenantCacheStatus :=
  mkTenantCacheStatus (ts_TenantID t) (Some (ts_IndexEntries t))
    (if ts_HitRateReported t || negb (feq (ts_HitRate t) f32_zero)
     then Some (formatRate (ts_HitRate t)) else None) 0.

(** The map is ranged over in any order; the rows are sorted by their unique ID. *)
Definition buildCacheIndexStatus (snap : WireSnapshot) (serverURL : string) (now : Time) :
    CacheIndexStatus :=
  let byID := foldl byIDStep ∅ (ws_Replicas snap) in
  mkCacheIndexStatus
    (go_sort (λ a b, str_lt (rc_ID a) (rc_ID b)) (replicaStatusRow <$> (map_to_list byID).*2))
    (tenantStatusRow <$> ws_Tenants snap)
    (ws_TotalPrefixes snap) (ws_HotPrefixes snap) serverURL now.

Definition normalizeForCompare (s : CacheIndexStatus) : CacheIndexStatus :=
  mkCacheIndexStatus
    ((λ r, mkReplicaStatus (rc_ID r) (rc_Tenant r) (rc_CacheMemoryBytes r) (rc_HitRate r)
             (rc_Pressure r) time_zero) <$> ci_Replicas s)
    (ci_Tenants s) (ci_Total s) (ci_Hot s) (ci_ObservedServer s) time_zero.

Definition statusEqual (a b : CacheIndexStatus) : bool :=
  bool_decide (normalizeForCompare a = normalizeForCompare b).

(** ** Attribution of a replica to a backend *)

Definition AnnotationInjectedBy : string := "inferencecache.io/injected-by".

(** A missing key reads as the empty string. *)
Definition matchLabelsSelects (want have : gmap string string) : bool :=
  if (size want =? 0)%nat then false
  else forallb (λ '(k, v), str_eqb (default "" (have !! k)) v) (map_to_list want).

Definition selectorOf (b : Backend) : gmap string string := default ∅ (bk_MatchLabels b).

Definition hasSelector (b : Backend) : bool := (0 <? size (selectorOf b))%nat.

(** backendsByNSName: the last listed index per name. *)
Definition indexByName (items : list Backend) : gmap NamespacedName nat :=
  foldl (λ m '(i, b), <[bkKey b := i]> m) ∅ (imap (λ i b, (i, b)) items).

(** backendsByNS[ns]: the backends of the namespace with a selector, sorted by name. *)
Definition nsBackends (items : list Backend) (ns : string) : list (nat * Backend) :=
  go_sort (λ a b, str_lt (bk_Name a.2) (bk_Name b.2))
    (List.filter (λ ib, str_eqb (bk_Namespace ib.2) ns && hasSelector ib.2)
       (imap (λ i b, (i, b)) items)).

(** The owner's index; -1 is [None]. *)
Definition attributePod (pod : Pod) (items : list Backend) (nsb : list (nat * Backend)) : option nat :=
  let fallback := fst <$> List.find (λ ib, matchLabelsSelects (selectorOf ib.2) (pod_Labels pod)) nsb in
  let raw := default "" (pod_Annotations pod !! AnnotationInjectedBy) in
  if negb (str_eqb raw "") then
    match Cut "/" raw with
    | Some (ns, name) => if str_eqb ns (pod_Namespace pod) then indexByName items !! (ns, name)
                         else fallback
    | None => fallback
    end
  else fallback.

(** The backend a tier-2 series belongs to, by namespace and name. *)
Abbreviation t2Key := (string * string)%type.

(** ** The per-backend aggregate *)

Record agg := mkAgg {
  ag_prefixCount : Z;
  ag_lastEventAt : Time;
  ag_t2HitTokens : Z;
  ag_t2QueryTokens : Z
}.

Definition agg_zero : agg := mkAgg 0 time_zero 0 0.

Definition accountReplica (a : agg) (r : ReplicaSnapshot) : agg :=
  mkAgg (wrap64 (ag_prefixCount a + rsn_PrefixCount r))
    (if time_after (rsn_LastEventAt r) (ag_lastEventAt a) then rsn_LastEventAt r else ag_lastEventAt a)
    (wrap64 (ag_t2HitTokens a + rsn_T2HitTokens r))
    (wrap64 (ag_t2QueryTokens a + rsn_T2QueryTokens r)).

(** The loop's maps: the aggregate per backend index (every index is seeded with zero),
    the owner per pod looked up, the namespaces in which a lookup failed. *)
Record AggState := mkAggState {
  as_perBackend : gmap nat agg;
  as_podAttrs : gmap (string * string) (option nat);
  as_tainted : gset string
}.

Definition aggOf (st : AggState) (i : nat) : agg := default agg_zero (as_perBackend st !! i).

Definition account (st : AggState) (owner : option nat) (r : ReplicaSnapshot) : AggState :=
  match owner with
  | None => st
  | Some i => mkAggState (<[i := accountReplica (aggOf st i) r]> (as_perBackend st))
                (as_podAttrs st) (as_tainted st)
  end.

Section projections.
(** The apiserver's answer to a pod lookup. *)
Variable podGet : string * string → GetResult Pod.
(** equality.Semantic.DeepEqual on the projected field. *)
Variable semEq : option CacheBackendIndexParticipation → option CacheBackendIndexParticipation → bool.
(** Does the status patch of the tenant succeed? *)
Variable patchTenant : NamespacedName → bool.
(** meta.SetStatusCondition at some instant: the new list of conditions. *)
Variable SetStatusCondition : list Condition → Condition → list Condition.
(** [%q] of fmt. *)
Variable quote : string → string.

Definition attributeStep (items : list Backend) (st : AggState) (r : ReplicaSnapshot) : AggState :=
  if str_eqb (rsn_Tenant r) "" || str_eqb (rsn_ReplicaID r) "" then st
  else if bool_decide (rsn_Tenant r ∈ as_tainted st) then st
  else
    let key := (rsn_Tenant r, rsn_ReplicaID r) in
    match as_podAttrs st !! key with
    | Some owner => account st owner r
    | None =>
        match podGet key with
        | GetNotFound => mkAggState (as_perBackend st) (<[key := None]> (as_podAttrs st)) (as_tainted st)
        | GetErr => mkAggState (as_perBackend st) (as_podAttrs st) ({[rsn_Tenant r]} ∪ as_tainted st)
        | GetOK pod =>
            let owner := attributePod pod items (nsBackends items (rsn_Tenant r)) in
            account (mkAggState (as_perBackend st) (<[key := owner]> (as_podAttrs st)) (as_tainted st))
              owner r
        end
    end.

Definition aggregateReplicas (items : list Backend) (rs : list ReplicaSnapshot) : AggState :=
  foldl (attributeStep items) (mkAggState ∅ ∅ ∅) rs.

(** ** Tier-2 metrics (cacheindex_metrics.go) *)

Definition t2Label (k : t2Key) : string := k.1 +:+ "/" +:+ k.2.

(** The operations on the two metric vectors. *)
Inductive MetricOp :=
  | GaugeSet (label : string) (v : f64)
  | CounterAdd (label : string) (v : f64)
  | SeriesDelete (label : string).

(** lastT2QueryTokens and t2SeriesTracked. *)
Record T2State := mkT2State { t2_last : gmap t2Key Z; t2_tracked : gset t2Key }.

Definition t2QueryDelta (key : t2Key) (current : Z) (s : T2State) : Z * T2State :=
  let s' := mkT2State (<[key := current]> (t2_last s)) (t2_tracked s) in
  match t2_last s !! key with
  | None => (0, s')
  | Some last => if current <=? last then (0, s') else (wrap64 (current - last), s')
  end.

(** Is the series of [k] dropped after this tick? *)
Definition t2Stale (exercised present : gset t2Key) (tainted : gset string) (k : t2Key) : bool :=
  negb (bool_decide (k ∈ present)) ||
  (negb (bool_decide (k.1 ∈ tainted)) && negb (bool_decide (k ∈ exercised))).

Definition reconcileBackendT2HitRateSeries (exercised present : gset t2Key) (tainted : gset string)
    (s : T2State) : list MetricOp * T2State :=
  let tracked := exercised ∪ t2_tracked s in
  let stale := List.filter (t2Stale exercised present tainted) (elements tracked) in
  ((λ k, SeriesDelete (t2Label k)) <$> stale,
   mkT2State (foldr delete (t2_last s) stale) (tracked ∖ list_to_set stale)).

(** ** Projection 1: the backends *)

Inductive Effect :=
  | ECreateIndex (name : string)
  | EUpdateIndex (name : string) (st : CacheIndexStatus)
  | EPatchBackend (key : NamespacedName) (p : CacheBackendIndexParticipation)
  | EPatchTenant (key : NamespacedName) (st : CacheTenantStatus)
  | EMetric (op : MetricOp).

Definition t2Ratio (a : agg) : f64 :=
  let ratio := f64_div (f64_of_Z (ag_t2HitTokens a)) (f64_of_Z (ag_t2QueryTokens a)) in
  if flt ratio f32_zero then f32_zero else if flt f64_one ratio then f64_one else ratio.

Definition desiredParticipation (a : agg) : CacheBackendIndexParticipation :=
  mkParticipation (ag_prefixCount a)
    (if negb (time_is_zero (ag_lastEventAt a)) then Some (ag_lastEventAt a) else None)
    None
    (if 0 <? ag_t2QueryTokens a then Some (formatRate (f32_of_f64 (t2Ratio a))) else None).

Definition isZeroState (d : CacheBackendIndexParticipation) : bool :=
  (ip_PrefixCount d =? 0) && bool_decide (ip_LastEventAt d = None) &&
  bool_decide (ip_HitRate d = None) && bool_decide (ip_T2HitRate d = None).

(** The patch of a backend's status: none for a noise zero or without a change. *)
Definition backendWrite (b : Backend) (a : agg) : list Effect :=
  let desired := desiredParticipation a in
  if isZeroState desired && negb (hasSelector b) && bool_decide (bk_IndexParticipation b = None) then []
  else if semEq (bk_IndexParticipation b) (Some desired) then []
  else [EPatchBackend (bkKey b) desired].

(** One backend of the write loop. *)
Definition projectBackend (b : Backend) (a : agg) (s : T2State) : list Effect * gset t2Key * T2State :=
  let key := bkKey b in
  let '(metrics, ex, s) :=
    if 0 <? ag_t2QueryTokens a then
      let '(delta, s) := t2QueryDelta key (ag_t2QueryTokens a) s in
      ([EMetric (GaugeSet (t2Label key) (t2Ratio a)); EMetric (CounterAdd (t2Label key) (f64_of_Z delta))],
       {[key]}, s)
    else ([], ∅, s) in
  (metrics ++ backendWrite b a, ex, s).

(** The write loop over [order], the order in which the map of aggregates is ranged over. *)
Fixpoint projectBackends (items : list Backend) (st : AggState) (order : list nat) (s : T2State) :
    list Effect * gset t2Key * T2State :=
  match order with
  | [] => ([], ∅, s)
  | i :: order =>
      match items !! i with
      | None => projectBackends items st order s
      | Some b =>
          if bool_decide (bk_Namespace b ∈ as_tainted st) then projectBackends items st order s
          else
            let '(es, ex, s) := projectBackend b (aggOf st i) s in
            let '(es', ex', s) := projectBackends items st order s in
            (es ++ es', ex ∪ ex', s)
      end
  end.

(** [None] is a failed list, which leaves everything as it is. *)
Definition refreshCacheBackendParticipation (backends : ListResult Backend) (order : list nat)
    (snap : WireSnapshot) (s : T2State) : bool * list Effect * T2State :=
  match backends with
  | ListOK [] =>
      let '(ops, s) := reconcileBackendT2HitRateSeries ∅ ∅ ∅ s in (true, EMetric <$> ops, s)
  | ListOK items =>
      let st := aggregateReplicas items (ws_Replicas snap) in
      let '(es, exercised, s) := projectBackends items st order s in
      let present := list_to_set (bkKey <$> items) in
      let '(ops, s) := reconcileBackendT2HitRateSeries exercised present (as_tainted st) s in
      (true, es ++ (EMetric <$> ops), s)
  | _ => (false, [], s)
  end.

(** ** Projection 3: the tenants *)

Definition tenantConditionReady : string := "Ready".
Definition tenantConditionQuotaExceeded : string := "QuotaExceeded".

(** The quota-bearing objects in (namespace, name) order; the first per tenantID owns it. *)
Definition effectiveTenantOwners (items : list CacheTenant) : gmap string NamespacedName :=
  foldl (λ owners ct, match owners !! ct_TenantID ct with
                      | Some _ => owners
                      | None => <[ct_TenantID ct := ctKey ct]> owners
                      end) ∅
    (go_sort (nnLess ctKey) (List.filter tenantHasQuota items)).

Definition condition (typ status reason message : string) (generation : Z) : Condition :=
  mkCondition typ status reason message generation time_zero.

(** The verdict on the budget: status, reason, message. *)
Definition quotaVerdict (ct : CacheTenant) (indexEntries : Z) : string * string * string :=
  match budgetOf ct with
  | None => ("False", "NoQuota", "no index-entry quota configured")
  | Some budget =>
      if budget <? indexEntries
      then ("True", "OverEntryBudget",
            "index entries " +:+ pretty indexEntries +:+ " exceed budget " +:+ pretty budget)
      else ("False", "WithinBudget", "index entries within budget " +:+ pretty budget)
  end.

Definition buildCacheTenantStatus (ct : CacheTenant) (obs : TenantSnapshot)
    (shadowedBy : option NamespacedName) : CacheTenantStatus :=
  let conds := tst_Conditions (ct_Status ct) in
  let gen := ct_Generation ct in
  let conds :=
    match shadowedBy with
    | Some owner =>
        let conds := SetStatusCondition conds
          (condition tenantConditionReady "False" "DuplicateTenantID"
             ("spec.tenantID " +:+ quote (ct_TenantID ct) +:+ " is also declared by CacheTenant " +:+
              nnString owner +:+ ", which is the effective owner; this CacheTenant is ignored") gen) in
        SetStatusCondition conds
          (condition tenantConditionQuotaExceeded "False" "NotEffective"
             ("not the effective owner of tenantID " +:+ quote (ct_TenantID ct) +:+ " (CacheTenant " +:+
              nnString owner +:+ " is)") gen)
    | None =>
        let conds := SetStatusCondition conds
          (condition tenantConditionReady "True" "Observed"
             "projected from the latest server snapshot read" gen) in
        let '(status, reason, message) := quotaVerdict ct (ts_IndexEntries obs) in
        SetStatusCondition conds (condition tenantConditionQuotaExceeded status reason message gen)
    end in
  mkTenantStatus gen (Some (ts_IndexEntries obs)) conds.

Definition normalizeTenantForCompare (s : CacheTenantStatus) : CacheTenantStatus :=
  mkTenantStatus (tst_ObservedGeneration s) (tst_IndexEntries s)
    ((λ c, mkCondition (cd_Type c) (cd_Status c) (cd_Reason c) (cd_Message c)
             (cd_ObservedGeneration c) time_zero) <$> tst_Conditions s).

Definition cacheTenantStatusEqual (a b : CacheTenantStatus) : bool :=
  bool_decide (normalizeTenantForCompare a = normalizeTenantForCompare b).

(** The last snapshot row of the tenant, or a zero row. *)
Definition observed (snap : WireSnapshot) (t : string) : TenantSnapshot :=
  default (mkTenantSnapshot t 0 f32_zero false)
    (foldl (λ m r, <[ts_TenantID r := r]> m) (∅ : gmap string TenantSnapshot) (ws_Tenants snap) !! t).

(** The owner of the object's tenantID when it is another object. *)
Definition shadow (owners : gmap string NamespacedName) (ct : CacheTenant) : option NamespacedName :=
  owner ← owners !! ct_TenantID ct;
  if negb (str_eqb owner.1 (ct_Namespace ct)) || negb (str_eqb owner.2 (ct_Name ct))
  then Some owner else None.

Definition tenantStatus (owners : gmap string NamespacedName) (snap : WireSnapshot) (ct : CacheTenant) :
    CacheTenantStatus :=
  buildCacheTenantStatus ct (observed snap (ct_TenantID ct)) (shadow owners ct).

(** The patches, and the objects whose patch failed. *)
Definition reconcileTenantStatuses (tenants : ListResult CacheTenant) (snap : WireSnapshot) :
    list Effect * (bool * list NamespacedName) :=
  match tenants with
  | ListNotFound => ([], (true, []))
  | ListErr => ([], (false, []))
  | ListOK items =>
      let owners := effectiveTenantOwners items in
      let writes := List.filter (λ ct, negb (cacheTenantStatusEqual (ct_Status ct)
                                               (tenantStatus owners snap ct))) items in
      ((λ ct, EPatchTenant (ctKey ct) (tenantStatus owners snap ct)) <$> writes,
       (true, List.filter (λ k, negb (patchTenant k)) (ctKey <$> writes)))
  end.

(** ** A tick *)

Record CacheIndexPoller := mkPoller { pl_SnapshotURL : string; pl_Name : string; pl_BearerTokenPath : string }.

Definition DefaultCacheIndexName : string := "cluster-default".
Definition DefaultBearerTokenPath : string :=
  "/var/run/secrets/inferencecache.io/controller-token/token".

Definition pollerName (p : CacheIndexPoller) : string :=
  if negb (str_eqb (pl_Name p) "") then pl_Name p else DefaultCacheIndexName.

(** What a tick reads: the singleton, whether its creation and status update succeed, the
    token file, the HTTP exchange (a status and a decoded body, if any), the lists, the clock. *)
Record TickInputs := mkTickInputs {
  ti_index : GetResult CacheIndexStatus;
  ti_createOK : bool;
  ti_updateOK : bool;
  ti_readFile : string → FileRead;
  ti_http : HTTPRequest unit → option (Z * option WireSnapshot);
  ti_urlOK : bool;
  ti_backends : ListResult Backend;
  ti_order : list nat;
  ti_tenants : ListResult CacheTenant;
  ti_now : Time
}.

Inductive RefreshError :=
  | RErrGet | RErrCreate | RErrScrape | RErrUpdate | RErrListTenants | RErrPatch (ks : list NamespacedName).

Definition fetchSnapshot (inp : TickInputs) (url token : string) : option WireSnapshot :=
  if negb (ti_urlOK inp) then None
  else
    '(status, body) ← ti_http inp (mkHTTPRequest "GET" url (bearerHeader token) ());
    if negb (status =? 200) then None else body.

Definition emptyIndexStatus : CacheIndexStatus := mkCacheIndexStatus [] [] 0 0 "" time_zero.

(** The stored status the tick starts from, after creating a missing singleton. *)
Definition ensureIndex (p : CacheIndexPoller) (inp : TickInputs) :
    list Effect * (RefreshError + CacheIndexStatus) :=
  match ti_index inp with
  | GetOK st => ([], inr st)
  | GetErr => ([], inl RErrGet)
  | GetNotFound => ([ECreateIndex (pollerName p)],
                    if ti_createOK inp then inr emptyIndexStatus else inl RErrCreate)
  end.

Definition refresh (p : CacheIndexPoller) (inp : TickInputs) (s : T2State) :
    option RefreshError * list Effect * T2State :=
  let '(es0, ci) := ensureIndex p inp in
  match ci with
  | inl e => (Some e, es0, s)
  | inr ciStatus =>
      let '(token, _) := bearerToken (ti_readFile inp) (pl_BearerTokenPath p) DefaultBearerTokenPath in
      match fetchSnapshot inp (pl_SnapshotURL p) token with
      | None => (Some RErrScrape, es0, s)
      | Some snap =>
          let desired := buildCacheIndexStatus snap (pl_SnapshotURL p) (ti_now inp) in
          let '(_, es1, s) := refreshCacheBackendParticipation (ti_backends inp) (ti_order inp) snap s in
          let changed := negb (statusEqual ciStatus desired) in
          let es2 := if changed then [EUpdateIndex (pollerName p) desired] else [] in
          if changed && negb (ti_updateOK inp) then (Some RErrUpdate, es0 ++ es1 ++ es2, s)
          else
            let '(es3, (listed, failed)) := reconcileTenantStatuses (ti_tenants inp) snap in
            ((if negb listed then Some RErrListTenants
              else match failed with [] => None | _ => Some (RErrPatch failed) end),
             es0 ++ es1 ++ es2 ++ es3, s)
      end
  end.
End projections.
