(* ===== verification/IndexPollerTheorems.v ===== *)
(** * The CacheIndex poller: theorems

    The tenants' status against the quotas the server enforces, the backends' participation
    and the tier-2 series against a reference that attributes each snapshot row directly,
    the rows of the CacheIndex, and what failed reads and repeated ticks leave untouched. *)

From Stdlib Require Import SpecFloat.
From S2P Require Import Prelude Ordering GoRuntime Floats GoText GoNumbers K8s IndexTypes IndexSnapshot.
From S2P Require Import Policy ControlPlane IndexPoller.

(** ** The tenants' status *)

(** The condition of a type: the first one, as meta.FindStatusCondition reads it. *)
Definition condOf (typ : string) (cs : list Condition) : option Condition :=
  List.find (λ c, str_eqb (cd_Type c) typ) cs.

(** Everything but the transition time. *)
Definition sameCondition (c d : Condition) : Prop :=
  cd_Type c = cd_Type d ∧ cd_Status c = cd_Status d ∧ cd_Reason c = cd_Reason d ∧
  cd_Message c = cd_Message d ∧ cd_ObservedGeneration c = cd_ObservedGeneration d.

(** What meta.SetStatusCondition promises. *)
Class SetConditionLaws (set : list Condition → Condition → list Condition) : Prop := {
  set_same : ∀ cs c, ∃ d, condOf (cd_Type c) (set cs c) = Some d ∧ sameCondition d c;
  set_other : ∀ cs c t, t ≠ cd_Type c → condOf t (set cs c) = condOf t cs
}.

Lemma owners_fold l m t :
  foldl (λ owners ct, match owners !! ct_TenantID ct with
                      | Some _ => owners
                      | None => <[ct_TenantID ct := ctKey ct]> owners
                      end) (m : gmap string NamespacedName) l !! t =
    match m !! t with
    | Some k => Some k
    | None => ctKey <$> List.find (λ ct, str_eqb (ct_TenantID ct) t) l
    end.
Proof.
  revert m. induction l as [|ct l IH]; intros m; cbn [foldl]; [by destruct (m !! t)|].
  rewrite IH. simpl. destruct (str_eqb (ct_TenantID ct) t) eqn:E.
  - apply str_eqb_eq in E. rewrite E. destruct (m !! t) eqn:Em; [by rewrite Em|].
    by rewrite lookup_insert_eq.
  - apply str_eqb_neq in E. destruct (m !! ct_TenantID ct); [done|]. by rewrite lookup_insert_ne.
Qed.

(** The status writer and the pusher agree on the owner of a tenantID. *)
Lemma effectiveTenantOwners_lookup items t :
  NoDup (ctKey <$> items) →
  effectiveTenantOwners items !! t = ctKey <$> leastBy ctKey (quotaFor t) items.
Proof.
  intros Hnd. unfold effectiveTenantOwners. rewrite owners_fold, lookup_empty. f_equal.
  by rewrite find_sorted_leastBy, leastBy_filter by (by apply NoDup_fmap_filter).
Qed.

(** Either no object owns the tenantID, or the object does, or another one does. *)
Lemma shadow_cases items ct :
  NoDup (ctKey <$> items) → ct ∈ items →
  match shadow (effectiveTenantOwners items) ct with
  | None => leastBy ctKey (quotaFor (ct_TenantID ct)) items = if tenantHasQuota ct then Some ct else None
  | Some owner => ∃ ct', ct' ∈ items ∧ ct' ≠ ct ∧ ctKey ct' = owner ∧
      leastBy ctKey (quotaFor (ct_TenantID ct)) items = Some ct'
  end.
Proof.
  intros Hnd Hct. unfold shadow. rewrite effectiveTenantOwners_lookup by done.
  pose proof (leastBy_spec ctKey (quotaFor (ct_TenantID ct)) items Hnd) as Hl.
  destruct (leastBy _ _ items) as [o|]; simpl.
  - destruct Hl as (Ho & Hq & _). apply andb_true_iff in Hq as [Hq _].
    destruct (decide (ctKey o = ctKey ct)) as [E|E].
    + assert (o = ct) as -> by (by apply (NoDup_key_inj ctKey items)).
      rewrite !str_eqb_refl. simpl. by rewrite Hq.
    + assert (negb (str_eqb (ct_Namespace o) (ct_Namespace ct)) ||
              negb (str_eqb (ct_Name o) (ct_Name ct)) = true) as ->.
      { unfold ctKey in E. destruct (str_eqb (ct_Namespace o) _) eqn:E1; [|done].
        destruct (str_eqb (ct_Name o) _) eqn:E2; [|done]. apply str_eqb_eq in E1, E2. congruence. }
      exists o. split_and!; [done|congruence|done..].
  - specialize (Hl ct Hct). unfold quotaFor in Hl. rewrite str_eqb_refl, andb_true_r in Hl.
    by rewrite Hl.
Qed.

Lemma budgetOf_no_quota ct : ct_TenantID ct ≠ "" → tenantHasQuota ct = false → budgetOf ct = None.
Proof.
  unfold tenantHasQuota, budgetOf. intros Hid. rewrite (proj2 (str_eqb_neq _ _)) by done. simpl.
  by destruct (ct_Quota ct) as [[[m|]]|].
Qed.

Section tenant_status.
Context (SetStatusCondition : list Condition → Condition → list Condition).
Context {Hset : SetConditionLaws SetStatusCondition}.
Context (quote : string → string).

Definition condStatus (typ : string) (st : CacheTenantStatus) : option string :=
  cd_Status <$> condOf typ (tst_Conditions st).

Lemma set_status cs c : cd_Status <$> condOf (cd_Type c) (SetStatusCondition cs c) = Some (cd_Status c).
Proof. destruct (set_same cs c) as (d & -> & Hd). simpl. f_equal. apply Hd. Qed.

Lemma set_status_other cs c t :
  t ≠ cd_Type c → cd_Status <$> condOf t (SetStatusCondition cs c) = cd_Status <$> condOf t cs.
Proof. intros. by rewrite set_other. Qed.

Lemma tenantStatus_conditions ct obs sh :
  let st := buildCacheTenantStatus SetStatusCondition quote ct obs sh in
  condStatus tenantConditionReady st =
    Some (match sh with Some _ => "False" | None => "True" end) ∧
  condStatus tenantConditionQuotaExceeded st =
    Some (match sh with Some _ => "False" | None => (quotaVerdict ct (ts_IndexEntries obs)).1.1 end).
Proof.
  unfold condStatus, buildCacheTenantStatus. destruct sh as [owner|]; cbn [tst_Conditions].
  - split; [rewrite set_status_other by done|]; apply (set_status _ (condition _ _ _ _ _)).
  - destruct (quotaVerdict _ _) as [[st re] ms]. cbn [tst_Conditions fst].
    split; [rewrite set_status_other by done|]; apply (set_status _ (condition _ _ _ _ _)).
Qed.

(** C27: A CacheTenant's published status is true of the server after a push of the same
    objects: Ready=True only on the object whose budget is the tenant's enforced quota (or on
    objects of a tenant without quota), Ready=False names another object whose budget is
    enforced instead, and QuotaExceeded=True exactly when an effective budget is below the
    snapshot's entry count. *)
Theorem tenant_status_truthful ps items s snap ct :
  NoDup (ctKey <$> items) → enforces ps items s → ct ∈ items →
  ct_TenantID ct ≠ "" → ct_TenantID ct ≠ ProbeTenantID →
  let st := tenantStatus SetStatusCondition quote (effectiveTenantOwners items) snap ct in
  tst_IndexEntries st = Some (ts_IndexEntries (observed snap (ct_TenantID ct))) ∧
  (condStatus tenantConditionReady st = Some "True" ∧
     TenantQuota s (ct_TenantID ct) = Z.max 0 <$> budgetOf ct ∧
     (condStatus tenantConditionQuotaExceeded st = Some "True" ↔
        ∃ q, budgetOf ct = Some q ∧ q < ts_IndexEntries (observed snap (ct_TenantID ct)))
   ∨ condStatus tenantConditionReady st = Some "False" ∧
     condStatus tenantConditionQuotaExceeded st = Some "False" ∧
     ∃ ct' q, ct' ∈ items ∧ ct' ≠ ct ∧ budgetOf ct' = Some q ∧
       shadow (effectiveTenantOwners items) ct = Some (ctKey ct') ∧
       TenantQuota s (ct_TenantID ct) = Some (Z.max 0 q)).
Proof.
  intros Hnd [_ Hq] Hct Hne Hp st. pose proof (shadow_cases items ct Hnd Hct) as Hsh.
  destruct (tenantStatus_conditions ct (observed snap (ct_TenantID ct))
    (shadow (effectiveTenantOwners items) ct)) as [Hr Hx].
  change (buildCacheTenantStatus _ _ _ _ _) with st in Hr, Hx. specialize (Hq _ Hne Hp).
  split; [done|]. destruct (shadow _ ct) as [owner|].
  - right. destruct Hsh as (ct' & Hin & Hne' & Hk & Hl). rewrite Hl in Hq.
    pose proof (leastBy_spec ctKey (quotaFor (ct_TenantID ct)) items Hnd) as Hspec.
    rewrite Hl in Hspec. destruct Hspec as (_ & Hqf & _). apply andb_true_iff in Hqf as [Hqf _].
    split_and!; [done..|]. apply andb_true_iff in Hqf as [_ Hqf]. unfold budgetOf in *.
    destruct (ct_Quota ct') as [[[q|]]|] eqn:Eq; try done. exists ct', q. simpl in *.
    rewrite Eq in Hq. simpl in Hq. split_and!; try done; [by rewrite Eq|congruence].
  - left. rewrite Hsh in Hq. split_and!; [done| |].
    + destruct (tenantHasQuota ct) eqn:E; [done|]. by rewrite budgetOf_no_quota by done.
    + rewrite Hx. unfold quotaVerdict. destruct (budgetOf ct) as [b|]; [|split; [done|naive_solver]].
      destruct (Z.ltb_spec b (ts_IndexEntries (observed snap (ct_TenantID ct)))); simpl.
      * split; eauto.
      * split; [done|]. intros (q & [= <-] & ?). lia.
Qed.
End tenant_status.

(** ** Attribution: the reference

    The owner of a pod, by name: the backend the annotation names, if it exists; without a
    usable annotation the least-named backend of the namespace whose selector matches. *)

(** A backend selects a pod of its namespace when it asks for some label and the pod has
    every label it asks for; asking for an empty value is also met by an absent label. *)
Definition selects (pod : Pod) (b : Backend) : bool :=
  bool_decide (bk_Namespace b = pod_Namespace pod ∧ selectorOf b ≠ ∅ ∧
    map_Forall (λ k v, default "" (pod_Labels pod !! k) = v) (selectorOf b)).

Lemma matchLabelsSelects_true want have :
  matchLabelsSelects want have = true ↔
    want ≠ ∅ ∧ map_Forall (λ k v, default "" (have !! k) = v) want.
Proof.
  unfold matchLabelsSelects. destruct (Nat.eqb_spec (size want) 0) as [E|E].
  - apply map_size_empty_inv in E. naive_solver.
  - rewrite forallb_forall. split.
    + intros H. split; [intros ->; by rewrite map_size_empty in E|].
      intros k v Hk. apply str_eqb_eq. apply (H (k, v)).
      by apply list_elem_of_In, elem_of_map_to_list.
    + intros [_ H] [k v] Hin%list_elem_of_In%elem_of_map_to_list. by apply str_eqb_eq, H.
Qed.

Lemma hasSelector_true b : hasSelector b = true ↔ selectorOf b ≠ ∅.
Proof.
  unfold hasSelector. rewrite Nat.ltb_lt, <-map_size_empty_iff. lia.
Qed.

Lemma selects_code pod b :
  str_eqb (bk_Namespace b) (pod_Namespace pod) && hasSelector b &&
    matchLabelsSelects (selectorOf b) (pod_Labels pod) = selects pod b.
Proof.
  apply eq_bool_prop_intro. unfold selects. rewrite bool_decide_spec, !Is_true_true, !andb_true_iff.
  rewrite str_eqb_eq, hasSelector_true, matchLabelsSelects_true. tauto.
Qed.

Definition podOwner (items : list Backend) (pod : Pod) : option NamespacedName :=
  let fallback := bkKey <$> leastBy bkKey (selects pod) items in
  let raw := default "" (pod_Annotations pod !! AnnotationInjectedBy) in
  if str_eqb raw "" then fallback
  else
    match Cut "/" raw with
    | Some (ns, name) =>
        if str_eqb ns (pod_Namespace pod)
        then (if bool_decide ((ns, name) ∈ bkKey <$> items) then Some (ns, name) else None)
        else fallback
    | None => fallback
    end.

Lemma elem_of_indexed {A : Type} (l : list A) i x : (i, x) ∈ imap (λ i b, (i, b)) l ↔ l !! i = Some x.
Proof.
  rewrite elem_of_lookup_imap. split; [intros (j & y & [= -> ->] & ?); done|eauto].
Qed.

Lemma indexByName_spec items k i :
  NoDup (bkKey <$> items) →
  indexByName items !! k = Some i ↔ bkKey <$> items !! i = Some k.
Proof.
  intros Hnd. unfold indexByName.
  assert (∀ l (m : gmap NamespacedName nat),
    foldl (λ m '(i, b), <[bkKey b := i]> m) m l !! k =
      match last (filter (λ ib : nat * Backend, bkKey ib.2 = k) l) with
      | Some ib => Some ib.1 | None => m !! k end) as Hfold.
  { induction l as [|[j b] l IH]; intros m; cbn [foldl]; [done|]. rewrite IH, filter_cons. simpl.
    case_decide as E; [rewrite last_cons|].
    - destruct (last _); [done|]. by rewrite E, lookup_insert_eq.
    - destruct (last _); [done|]. by rewrite lookup_insert_ne. }
  rewrite Hfold, lookup_empty. destruct (last _) as [[j b]|] eqn:El.
  - apply last_Some_elem_of, list_elem_of_filter in El as [Hk Hb]. simpl in *.
    apply elem_of_indexed in Hb. split.
    + intros [= ->]. by rewrite Hb, <-Hk.
    + intros (b' & Hb' & ->)%fmap_Some. f_equal.
      apply (NoDup_lookup (bkKey <$> items) j i (bkKey b') Hnd);
        rewrite list_lookup_fmap; [rewrite Hb; simpl; by rewrite Hk|by rewrite Hb'].
  - split; [done|]. intros (b & Hb & ->)%fmap_Some. apply last_None in El.
    assert ((i, b) ∈ filter (λ ib : nat * Backend, bkKey ib.2 = bkKey b) (imap (λ i b, (i, b)) items))
      as Hin by (apply list_elem_of_filter; split; [done|by apply elem_of_indexed]).
    rewrite El in Hin. by apply elem_of_nil in Hin.
Qed.

Lemma Sorted_impl_on {A : Type} (P : A → Prop) (R R' : relation A) l :
  (∀ x y, P x → P y → R x y → R' x y) → Forall P l → Sorted R l → Sorted R' l.
Proof.
  intros HR Hl. induction 1 as [|x l Hs IH Hhd]; constructor.
  - apply IH. by inversion Hl.
  - inversion_clear Hl as [|?? Px Hl']. destruct Hhd; constructor. inversion Hl'. auto.
Qed.

(** The first selected backend of the sorted slice is the least-named one. *)
Lemma nsBackends_find items ns (sel : Backend → bool) i :
  NoDup (bkKey <$> items) →
  fst <$> List.find (λ ib : nat * Backend, sel ib.2) (nsBackends items ns) = Some i ↔
  ∃ b, items !! i = Some b ∧
    leastBy bkKey (λ b, str_eqb (bk_Namespace b) ns && hasSelector b && sel b) items = Some b.
Proof.
  intros Hnd. unfold nsBackends. set (key := λ ib : nat * Backend, bkKey ib.2).
  set (l := List.filter _ _).
  assert (NoDup (key <$> imap (λ i b, (i, b)) items)) as Hndi.
  { enough (key <$> imap (λ i b, (i, b)) items = bkKey <$> items) as -> by done.
    by rewrite fmap_imap, <-imap_const. }
  assert (NoDup (key <$> l)) as Hndl by (by apply NoDup_fmap_filter).
  assert (go_sort (λ a b : nat * Backend, str_lt (bk_Name a.2) (bk_Name b.2)) l = go_sort (nnLess key) l) as ->.
  { apply (go_sort_unique (.∈ l)); [by apply keyed_order|by apply Forall_forall| |].
    - apply go_sort_Permutation.
    - apply (Sorted_impl_on (λ ib, bk_Namespace ib.2 = ns) (λ x y, str_lt (bk_Name y.2) (bk_Name x.2) = false)).
      + intros x y Hx Hy H. unfold nnLess, key, bkKey. simpl. by rewrite Hx, Hy, str_eqb_refl.
      + rewrite go_sort_Permutation. apply Forall_forall.
        intros x [[H _]%andb_true_iff _]%elem_of_List_filter. by apply str_eqb_eq.
      + apply go_sort_sorted. intros x y. unfold str_lt, less_of.
        rewrite (String.compare_antisym (bk_Name x.2) (bk_Name y.2)). by destruct (String.compare _ _). }
  rewrite find_sorted_leastBy by done. unfold l. rewrite leastBy_filter.
  set (s1 := λ x, _ && _). set (s2 := λ b, _ && _ && _).
  assert (∀ j b, s1 (j, b) = s2 b) as Hs by done.
  split.
  - intros ([j b] & Hl & ->)%fmap_Some. pose proof (leastBy_spec key s1 _ Hndi) as Hspec.
    rewrite Hl in Hspec. destruct Hspec as (Hin & Hsel & Hmin). apply elem_of_indexed in Hin.
    exists b. split; [done|]. apply leastBy_unique; [done|by eapply list_elem_of_lookup_2|done|].
    intros y [k Hk]%list_elem_of_lookup Hy. apply (Hmin (k, y)); [by apply elem_of_indexed|done].
  - intros (b & Hb & Hl). pose proof (leastBy_spec bkKey s2 items Hnd) as Hspec.
    rewrite Hl in Hspec. destruct Hspec as (Hin & Hsel & Hmin).
    rewrite (leastBy_unique key s1 _ (i, b)); [done|done|by apply elem_of_indexed|done|].
    intros [k y] Hk%elem_of_indexed Hy. apply (Hmin y); [by eapply list_elem_of_lookup_2|done].
Qed.

Lemma attributePod_owner items pod i :
  NoDup (bkKey <$> items) →
  attributePod pod items (nsBackends items (pod_Namespace pod)) = Some i ↔
  ∃ b, items !! i = Some b ∧ podOwner items pod = Some (bkKey b).
Proof.
  intros Hnd. unfold attributePod, podOwner.
  set (fb := fst <$> List.find _ _).
  assert (fb = Some i ↔ ∃ b, items !! i = Some b ∧
    bkKey <$> leastBy bkKey (selects pod) items = Some (bkKey b)) as Hfb.
  { unfold fb. rewrite (nsBackends_find items (pod_Namespace pod)
      (λ b, matchLabelsSelects (selectorOf b) (pod_Labels pod))) by done.
    rewrite (leastBy_ext bkKey _ (selects pod)) by (intros; apply selects_code).
    split; intros (b & Hb & Hl); exists b; (split; [done|]).
    - by rewrite Hl.
    - apply fmap_Some in Hl as (b' & Hl & Hk). pose proof (leastBy_spec bkKey (selects pod) items Hnd) as Hs.
      rewrite Hl in Hs. rewrite Hl. f_equal.
      apply (NoDup_key_inj bkKey items); [done|apply Hs|by eapply list_elem_of_lookup_2|done]. }
  destruct (str_eqb (default "" _) ""); [exact Hfb|].
  cbn [negb]. destruct (Cut _ _) as [[ns name]|]; [|exact Hfb]. destruct (str_eqb ns _); [|exact Hfb].
  rewrite indexByName_spec by done. split.
  - intros (b & Hb & Hk)%fmap_Some. exists b. split; [done|]. rewrite bool_decide_true; [by rewrite Hk|].
    rewrite Hk. apply list_elem_of_fmap. exists b. split; [done|by eapply list_elem_of_lookup_2].
  - intros (b & Hb & Ho). rewrite Hb. simpl. destruct (bool_decide _); congruence.
Qed.

(** ** The aggregate: the reference *)

(** The totals of some rows: int64 sums, and the latest of their events. *)
Definition totals (rows : list ReplicaSnapshot) : agg :=
  mkAgg (wrap64 (lsum rsn_PrefixCount rows))
    (foldr Z.max time_zero (rsn_LastEventAt <$> rows))
    (wrap64 (lsum rsn_T2HitTokens rows))
    (wrap64 (lsum rsn_T2QueryTokens rows)).

Lemma lsum_snoc {A : Type} (f : A → Z) l x : lsum f (l ++ [x]) = lsum f l + f x.
Proof. rewrite lsum_app. unfold lsum at 2. simpl. lia. Qed.

Lemma foldr_max_snoc (l : list Z) z x : foldr Z.max z (l ++ [x]) = Z.max (foldr Z.max z l) x.
Proof. induction l as [|y l IH]; simpl; lia. Qed.

Lemma wrap64_add a x : wrap64 (wrap64 a + x) = wrap64 (a + x).
Proof.
  unfold wrap64. f_equal. replace ((a + 2^63) mod 2^64 - 2^63 + x + 2^63) with ((a + 2^63) mod 2^64 + x) by lia.
  rewrite Z.add_mod_idemp_l by lia. f_equal. lia.
Qed.

Lemma totals_snoc rows r : totals (rows ++ [r]) = accountReplica (totals rows) r.
Proof.
  unfold totals, accountReplica. rewrite fmap_app. cbn [fmap list_fmap ag_prefixCount ag_lastEventAt
    ag_t2HitTokens ag_t2QueryTokens]. rewrite !lsum_snoc, foldr_max_snoc, !wrap64_add.
  f_equal. unfold time_after. destruct (Z.ltb_spec (foldr Z.max time_zero (rsn_LastEventAt <$> rows))
    (rsn_LastEventAt r)); lia.
Qed.

Section participation.
Context (podGet : string * string → GetResult Pod).
(** [client.Get] returns the object of that name. *)
Hypothesis podGet_namespace : ∀ ns name pod, podGet (ns, name) = GetOK pod → pod_Namespace pod = ns.
Context (items : list Backend).
Hypothesis items_names : NoDup (bkKey <$> items).

Definition named (r : ReplicaSnapshot) : Prop := rsn_Tenant r ≠ "" ∧ rsn_ReplicaID r ≠ "".

(** The backend a snapshot row counts for. *)
Definition rowOwner (r : ReplicaSnapshot) : option NamespacedName :=
  if str_eqb (rsn_Tenant r) "" || str_eqb (rsn_ReplicaID r) "" then None
  else match podGet (rsn_Tenant r, rsn_ReplicaID r) with
       | GetOK pod => podOwner items pod
       | _ => None
       end.

(** The namespaces in which a lookup of the tick failed. *)
Definition lookupFailed (rs : list ReplicaSnapshot) (ns : string) : Prop :=
  ∃ r, r ∈ rs ∧ named r ∧ rsn_Tenant r = ns ∧ podGet (rsn_Tenant r, rsn_ReplicaID r) = GetErr.

(** The rows of a backend, and their totals: int64 sums and the latest event. *)
Definition rowsOf (b : Backend) (rs : list ReplicaSnapshot) : list ReplicaSnapshot :=
  filter (λ r, rowOwner r = Some (bkKey b)) rs.

Definition attributed (b : Backend) (rs : list ReplicaSnapshot) : agg :=
  totals (rowsOf b rs).

(** A pod is only ever attributed within its own namespace. *)
Lemma podOwner_namespace pod k : podOwner items pod = Some k → k.1 = pod_Namespace pod.
Proof.
  unfold podOwner.
  assert (∀ k, bkKey <$> leastBy bkKey (selects pod) items = Some k → k.1 = pod_Namespace pod) as Hfb.
  { intros k' (b & Hl & ->)%fmap_Some. pose proof (leastBy_spec bkKey (selects pod) items items_names) as H.
    rewrite Hl in H. destruct H as (_ & Hs & _). by apply bool_decide_eq_true in Hs as [? _]. }
  destruct (str_eqb _ ""); [by auto|]. destruct (Cut _ _) as [[ns name]|]; [|by auto].
  destruct (str_eqb ns _) eqn:E; [|by auto]. apply str_eqb_eq in E.
  destruct (bool_decide _); [|done]. by intros [= <-].
Qed.

Lemma rowOwner_namespace r k : rowOwner r = Some k → k.1 = rsn_Tenant r.
Proof.
  unfold rowOwner. destruct (_ || _); [done|]. destruct (podGet _) as [pod| |] eqn:E; try done.
  intros H%podOwner_namespace. by rewrite (podGet_namespace _ _ _ E) in H.
Qed.

Record agg_inv (st : AggState) (rs : list ReplicaSnapshot) : Prop := {
  ai_attrs : ∀ ns name o, as_podAttrs st !! (ns, name) = Some o →
    match podGet (ns, name) with
    | GetOK pod => o = attributePod pod items (nsBackends items ns)
    | GetNotFound => o = None
    | GetErr => False
    end;
  ai_tainted : ∀ ns, ns ∈ as_tainted st ↔ lookupFailed rs ns;
  ai_agg : ∀ i b, items !! i = Some b → bk_Namespace b ∉ as_tainted st → aggOf st i = attributed b rs
}.

Lemma lookupFailed_snoc rs r ns :
  lookupFailed (rs ++ [r]) ns ↔ lookupFailed rs ns ∨
    named r ∧ rsn_Tenant r = ns ∧ podGet (rsn_Tenant r, rsn_ReplicaID r) = GetErr.
Proof.
  unfold lookupFailed. split.
  - intros (x & [Hx| ->%list_elem_of_singleton]%elem_of_app & H); [left; by exists x|by right].
  - intros [(x & Hx & H)|H]; [exists x|exists r]; rewrite elem_of_app, list_elem_of_singleton; auto.
Qed.

Lemma attributed_snoc b rs r :
  attributed b (rs ++ [r]) =
    if decide (rowOwner r = Some (bkKey b)) then accountReplica (attributed b rs) r else attributed b rs.
Proof.
  unfold attributed, rowsOf. rewrite filter_app, filter_cons, filter_nil.
  destruct (decide _); [apply totals_snoc|by rewrite app_nil_r].
Qed.

(** Accounting a row for the owner the pod lookup gives. *)
Lemma account_aggOf st o r i :
  aggOf (account st o r) i = if decide (o = Some i) then accountReplica (aggOf st i) r else aggOf st i.
Proof.
  unfold account, aggOf. destruct o as [j|]; [|done]. simpl. case_decide as E.
  - injection E as ->. by rewrite lookup_insert_eq.
  - by rewrite lookup_insert_ne by congruence.
Qed.

(** A row that is looked up and counted for the owner its pod has. *)
Lemma agg_inv_account st rs r o :
  agg_inv st rs → named r → rsn_Tenant r ∉ as_tainted st →
  as_podAttrs st !! (rsn_Tenant r, rsn_ReplicaID r) = Some o → agg_inv (account st o r) (rs ++ [r]).
Proof.
  intros [Ha Ht Hg] [Hn1 Hn2] Hnt Ho. pose proof (Ha _ _ _ Ho) as Hget.
  assert (as_podAttrs (account st o r) = as_podAttrs st) as Hp by (by destruct o).
  assert (as_tainted (account st o r) = as_tainted st) as Htt by (by destruct o).
  assert (∀ i b, items !! i = Some b → o = Some i ↔ rowOwner r = Some (bkKey b)) as Hown.
  { intros i b Hb. unfold rowOwner. rewrite !(proj2 (str_eqb_neq _ _)) by done. simpl.
    destruct (podGet _) as [pod| |] eqn:E; [|by subst o|done]. rewrite Hget.
    pose proof (podGet_namespace _ _ _ E) as Hns. rewrite <-Hns, attributePod_owner by done. split.
    - intros (b' & Hb' & ->). by simplify_eq.
    - intros H. by exists b. }
  split.
  - by rewrite Hp.
  - intros ns. rewrite Htt, lookupFailed_snoc, Ht. split; [by left|]. intros [?|(_ & _ & E)]; [done|].
    rewrite E in Hget. done.
  - intros i b Hb. rewrite Htt, account_aggOf, attributed_snoc. intros Hnb. rewrite (Hg i b) by done.
    by rewrite (decide_ext (o = Some i) (rowOwner r = Some (bkKey b))) by (by apply Hown).
Qed.

(** A row that counts for no backend of a namespace without failures. *)
Lemma agg_inv_skip st rs r :
  agg_inv st rs →
  (rowOwner r = None ∨ rsn_Tenant r ∈ as_tainted st) →
  (named r → podGet (rsn_Tenant r, rsn_ReplicaID r) = GetErr → rsn_Tenant r ∈ as_tainted st) →
  agg_inv st (rs ++ [r]).
Proof.
  intros [Ha Ht Hg] Hown Herr. split; [done| |].
  - intros ns. rewrite lookupFailed_snoc, <-Ht. split; [by left|].
    intros [?|(Hn & <- & E)]; [done|]. auto.
  - intros i b Hb Hnt. rewrite attributed_snoc, (Hg i b) by done. case_decide as E; [|done].
    destruct Hown as [Hown|Hown]; [congruence|].
    apply rowOwner_namespace in E. simpl in E. by rewrite E in Hnt.
Qed.

Lemma agg_inv_step st rs r : agg_inv st rs → agg_inv (attributeStep podGet items st r) (rs ++ [r]).
Proof.
  intros Hinv. unfold attributeStep. destruct (str_eqb (rsn_Tenant r) "" || _) eqn:En.
  { apply agg_inv_skip; [done|left; unfold rowOwner; by rewrite En|]. intros [H1 H2].
    by rewrite !(proj2 (str_eqb_neq _ _)) in En. }
  apply orb_false_iff in En as [E1%str_eqb_neq E2%str_eqb_neq].
  destruct (bool_decide (rsn_Tenant r ∈ as_tainted st)) eqn:Et.
  { apply bool_decide_eq_true in Et. by apply agg_inv_skip; auto. }
  apply bool_decide_eq_false in Et.
  destruct (as_podAttrs st !! _) as [o|] eqn:Eo; [by apply agg_inv_account|].
  assert (rowOwner r = match podGet (rsn_Tenant r, rsn_ReplicaID r) with
                       | GetOK pod => podOwner items pod | _ => None end) as Hro.
  { unfold rowOwner. by rewrite !(proj2 (str_eqb_neq _ _)). }
  destruct Hinv as [Ha Ht Hg].
  assert (∀ o, match podGet (rsn_Tenant r, rsn_ReplicaID r) with
    | GetOK pod => o = attributePod pod items (nsBackends items (rsn_Tenant r))
    | GetNotFound => o = None | GetErr => False end →
    agg_inv (mkAggState (as_perBackend st) (<[(rsn_Tenant r, rsn_ReplicaID r) := o]> (as_podAttrs st))
      (as_tainted st)) rs) as Hcache.
  { intros o Ho. split; [|done|done]. intros ns name o'. simpl.
    destruct (decide ((rsn_Tenant r, rsn_ReplicaID r) = (ns, name))) as [[= <- <-]|Hne].
    - rewrite lookup_insert_eq. by intros [= <-].
    - rewrite lookup_insert_ne by done. apply Ha. }
  destruct (podGet (rsn_Tenant r, rsn_ReplicaID r)) as [pod| |] eqn:Eg.
  - apply agg_inv_account; [by apply Hcache|done|done|]. simpl. by rewrite lookup_insert_eq.
  - apply agg_inv_skip; [by apply Hcache|by left|]. by rewrite Eg.
  - split; simpl; [done| |].
    + intros ns. rewrite lookupFailed_snoc, elem_of_union, elem_of_singleton, Ht. unfold named. naive_solver.
    + intros i b Hb Hnt. rewrite attributed_snoc. unfold aggOf. simpl.
      change (default agg_zero (as_perBackend st !! i)) with (aggOf st i).
      rewrite (Hg i b) by set_solver. by rewrite decide_False by congruence.
Qed.

Lemma aggregateReplicas_inv rs : agg_inv (aggregateReplicas podGet items rs) rs.
Proof.
  induction rs as [|r rs IH] using rev_ind.
  - split; simpl; [done| |done]. intros ns. split; [set_solver|]. by intros (r & ?%elem_of_nil & _).
  - unfold aggregateReplicas. rewrite foldl_app. by apply agg_inv_step.
Qed.
End participation.

(** ** The write loop *)

Section writes.
Context (semEq : option CacheBackendIndexParticipation → option CacheBackendIndexParticipation → bool).
Context (items : list Backend).
Hypothesis items_names : NoDup (bkKey <$> items).
Context (st : AggState).

(** The backends the loop reaches. *)
Definition trusted (order : list nat) (i : nat) (b : Backend) : Prop :=
  i ∈ order ∧ items !! i = Some b ∧ bk_Namespace b ∉ as_tainted st.

Definition queries (i : nat) : Z := ag_t2QueryTokens (aggOf st i).

(** The increment a backend's counter gets: the growth since the last reading. *)
Definition growth (last : option Z) (current : Z) : Z :=
  match last with None => 0 | Some l => if current <=? l then 0 else wrap64 (current - l) end.

Definition backendOps (i : nat) (b : Backend) (s : T2State) : list MetricOp :=
  if 0 <? queries i
  then [GaugeSet (t2Label (bkKey b)) (t2Ratio (aggOf st i));
        CounterAdd (t2Label (bkKey b)) (f64_of_Z (growth (t2_last s !! bkKey b) (queries i)))]
  else [].

Lemma projectBackend_eq i b s :
  projectBackend semEq b (aggOf st i) s =
    ((EMetric <$> backendOps i b s) ++ backendWrite semEq b (aggOf st i),
     (if 0 <? queries i then {[bkKey b]} else ∅),
     if 0 <? queries i then mkT2State (<[bkKey b := queries i]> (t2_last s)) (t2_tracked s) else s).
Proof.
  unfold projectBackend, backendOps, queries, t2QueryDelta, growth.
  destruct (0 <? _); [|done]. destruct (t2_last s !! bkKey b) as [l|]; [|done].
  by destruct (_ <=? l).
Qed.

Lemma trusted_cons i order j b :
  trusted (i :: order) j b ↔ (j = i ∧ items !! i = Some b ∧ bk_Namespace b ∉ as_tainted st) ∨
                             trusted order j b.
Proof. unfold trusted. rewrite elem_of_cons. naive_solver. Qed.

(** What the loop leaves behind, backend by backend: each key is read and written once. *)
Lemma projectBackends_spec order s :
  NoDup order →
  let '(es, ex, s') := projectBackends semEq items st order s in
  (∀ e, e ∈ es ↔ ∃ i b, trusted order i b ∧
     (e ∈ EMetric <$> backendOps i b s ∨ e ∈ backendWrite semEq b (aggOf st i))) ∧
  (∀ k, k ∈ ex ↔ ∃ i b, trusted order i b ∧ bkKey b = k ∧ 0 < queries i) ∧
  t2_tracked s' = t2_tracked s ∧
  (∀ k, k ∉ ex → t2_last s' !! k = t2_last s !! k) ∧
  (∀ i b, trusted order i b → 0 < queries i → t2_last s' !! bkKey b = Some (queries i)).
Proof.
  revert s. induction order as [|i order IH]; intros s Hnd; simpl.
  { split_and!; try done; unfold trusted.
    - intros e. split; [by intros ?%elem_of_nil|]. by intros (?&?&[?%elem_of_nil _]&_).
    - intros k. split; [by intros ?%elem_of_empty|]. by intros (?&?&[?%elem_of_nil _]&_).
    - by intros ?? [?%elem_of_nil _]. }
  apply NoDup_cons in Hnd as [Hi Hnd].
  destruct (items !! i) as [b|] eqn:Eb.
  2:{ specialize (IH s Hnd). destruct (projectBackends _ _ _ _ _) as [[es ex] s'].
      assert (∀ j b, trusted (i :: order) j b ↔ trusted order j b) as Ht.
      { intros j b. rewrite trusted_cons. naive_solver. }
      by setoid_rewrite Ht. }
  destruct (bool_decide (bk_Namespace b ∈ as_tainted st)) eqn:Etn.
  { apply bool_decide_eq_true in Etn. specialize (IH s Hnd).
    destruct (projectBackends _ _ _ _ _) as [[es ex] s'].
    assert (∀ j b, trusted (i :: order) j b ↔ trusted order j b) as Ht.
    { intros j b'. rewrite trusted_cons. naive_solver. }
    by setoid_rewrite Ht. }
  apply bool_decide_eq_false in Etn. rewrite projectBackend_eq.
  set (s1 := if 0 <? queries i then _ else s). specialize (IH s1 Hnd).
  destruct (projectBackends _ _ _ _ s1) as [[es ex] s']. destruct IH as (He & Hx & Htr & Hl1 & Hl2).
  assert (∀ j b', trusted order j b' → bkKey b' ≠ bkKey b) as Hother.
  { intros j b' (Hj & Hb' & _) Hk. assert (j = i) as ->; [|done].
    apply (NoDup_lookup (bkKey <$> items) j i (bkKey b) items_names);
      rewrite list_lookup_fmap; [rewrite Hb'|rewrite Eb]; simpl; congruence. }
  assert (∀ j b', trusted order j b' → backendOps j b' s1 = backendOps j b' s) as Hops.
  { intros j b' Hj. unfold backendOps, s1. destruct (0 <? queries i); [|done]. simpl.
    by rewrite lookup_insert_ne by (intros E; by apply (Hother j b')). }
  assert (bkKey b ∉ ex) as Hbx.
  { rewrite Hx. intros (j & b' & Hj & Hk & _). by apply (Hother j b'). }
  split_and!.
  - intros e. rewrite !elem_of_app, He. setoid_rewrite trusted_cons. split.
    + intros [H|(j & b' & Hj & H)]; [exists i, b; naive_solver|].
      exists j, b'. rewrite Hops in H by done. auto.
    + intros (j & b' & [(-> & Hb' & _)|Hj] & H); [left; by simplify_eq|].
      right. exists j, b'. rewrite Hops; auto.
  - intros k. rewrite elem_of_union, Hx. setoid_rewrite trusted_cons.
    destruct (Z.ltb_spec 0 (queries i)).
    + rewrite elem_of_singleton. naive_solver lia.
    + rewrite elem_of_empty. split; [intros [[]|?]; naive_solver|].
      intros (j & b' & [(-> & _)|Hj] & ?); [lia|naive_solver].
  - rewrite Htr. unfold s1. by destruct (0 <? queries i).
  - intros k [Hk1 Hk2]%not_elem_of_union. rewrite Hl1 by done. unfold s1.
    destruct (0 <? queries i); [|done]. simpl. rewrite lookup_insert_ne; [done|set_solver].
  - intros j b' [(-> & Hb' & _)|Hj]%trusted_cons Hq; [|by apply Hl2]. simplify_eq.
    rewrite Hl1 by done. unfold s1. rewrite (proj2 (Z.ltb_lt _ _)) by done. simpl.
    by rewrite lookup_insert_eq.
Qed.
End writes.

(** ** A tick over the backends *)

Section tick.
Context (podGet : string * string → GetResult Pod).
Context (semEq : option CacheBackendIndexParticipation → option CacheBackendIndexParticipation → bool).
Hypothesis podGet_namespace : ∀ ns name pod, podGet (ns, name) = GetOK pod → pod_Namespace pod = ns.
Context (items : list Backend) (order : list nat) (snap : WireSnapshot).
Hypothesis items_names : NoDup (bkKey <$> items).
Hypothesis order_all : order ≡ₚ seq 0 (length items).

Abbreviation rows := (ws_Replicas snap).
Abbreviation failedIn := (lookupFailed podGet rows).
Abbreviation aggregateFor := (λ b, attributed podGet items b rows).

Definition tick (s : T2State) : list Effect * T2State :=
  let '(_, es, s') := refreshCacheBackendParticipation podGet semEq (ListOK items) order snap s in (es, s').

(** The backends whose tier-2 was queried, and all of them. *)
Definition exercisedKey (k : t2Key) : Prop :=
  ∃ b, b ∈ items ∧ bkKey b = k ∧ ¬ failedIn (bk_Namespace b) ∧ 0 < ag_t2QueryTokens (aggregateFor b).

Definition keptKey (s : T2State) (k : t2Key) : Prop :=
  k ∈ bkKey <$> items ∧ (exercisedKey k ∨ failedIn k.1 ∧ k ∈ t2_tracked s).

Lemma trusted_all i b :
  trusted items (aggregateReplicas podGet items rows) order i b ↔
  items !! i = Some b ∧ ¬ failedIn (bk_Namespace b).
Proof.
  pose proof (aggregateReplicas_inv podGet podGet_namespace items items_names rows) as Hinv.
  unfold trusted. rewrite (ai_tainted _ _ _ _ Hinv), order_all, elem_of_seq.
  split; [naive_solver|]. intros [Hb Hn]. split_and!; [lia|apply lookup_lt_Some in Hb; lia|done..].
Qed.

Lemma trusted_agg i b :
  trusted items (aggregateReplicas podGet items rows) order i b →
  aggOf (aggregateReplicas podGet items rows) i = aggregateFor b.
Proof.
  pose proof (aggregateReplicas_inv podGet podGet_namespace items items_names rows) as Hinv.
  intros (_ & Hb & Hn). by apply (ai_agg _ _ _ _ Hinv).
Qed.

(** The pruning step on its own. *)
Lemma reconcile_spec (ex present : gset t2Key) (tainted : gset string) s :
  let '(ops, s') := reconcileBackendT2HitRateSeries ex present tainted s in
  let kept k := k ∈ present ∧ (k ∈ ex ∨ k.1 ∈ tainted) in
  (∀ op, op ∈ ops ↔ ∃ k, op = SeriesDelete (t2Label k) ∧ (k ∈ ex ∨ k ∈ t2_tracked s) ∧ ¬ kept k) ∧
  (∀ k, k ∈ t2_tracked s' ↔ (k ∈ ex ∨ k ∈ t2_tracked s) ∧ kept k) ∧
  (∀ k, (k ∈ ex ∨ k ∈ t2_tracked s) → ¬ kept k → t2_last s' !! k = None) ∧
  (∀ k, kept k ∨ k ∉ ex ∧ k ∉ t2_tracked s → t2_last s' !! k = t2_last s !! k).
Proof.
  unfold reconcileBackendT2HitRateSeries. set (stale := List.filter _ _).
  set (kept := λ k : t2Key, k ∈ present ∧ (k ∈ ex ∨ k.1 ∈ tainted)).
  assert (∀ k, t2Stale ex present tainted k = true ↔ ¬ kept k) as Hk.
  { intros k. unfold t2Stale, kept. rewrite orb_true_iff, andb_true_iff, !negb_true_iff, !bool_decide_eq_false.
    destruct (decide (k ∈ present)), (decide (k ∈ ex)), (decide (k.1 ∈ tainted)); tauto. }
  assert (∀ k, k ∈ stale ↔ (k ∈ ex ∨ k ∈ t2_tracked s) ∧ ¬ kept k) as Hst.
  { intros k. unfold stale. rewrite elem_of_List_filter, elem_of_elements, elem_of_union, Hk. tauto. }
  assert (∀ l k, (k ∈ l → foldr delete (t2_last s) l !! k = None) ∧
                 (k ∉ l → foldr delete (t2_last s) l !! k = t2_last s !! k)) as Hdel.
  { induction l as [|x l IH]; intros k; simpl; [split; [by intros ?%elem_of_nil|done]|].
    destruct (decide (x = k)) as [->|Hne]; [rewrite lookup_delete_eq|rewrite lookup_delete_ne by done].
    - split; [done|]. intros []. left.
    - rewrite elem_of_cons. destruct (IH k). split; [intros [?|?]; [congruence|auto]|tauto]. }
  split_and!.
  - intros op. rewrite list_elem_of_fmap. setoid_rewrite Hst. naive_solver.
  - intros k. simpl. rewrite elem_of_difference, elem_of_list_to_set, elem_of_union, Hst.
    unfold kept. destruct (decide (k ∈ present)), (decide (k ∈ ex)), (decide (k.1 ∈ tainted)); tauto.
  - intros k H1 H2. simpl. apply Hdel, Hst. auto.
  - intros k H. simpl. apply Hdel. rewrite Hst. unfold kept. tauto.
Qed.

(** Without backends the general case prunes everything, as the special case does. *)
Lemma refresh_unfold its ord s :
  (its = [] → ord = []) →
  refreshCacheBackendParticipation podGet semEq (ListOK its) ord snap s =
    let st := aggregateReplicas podGet its rows in
    let '(es, ex, s1) := projectBackends semEq its st ord s in
    let '(ops, s') := reconcileBackendT2HitRateSeries ex (list_to_set (bkKey <$> its)) (as_tainted st) s1 in
    (true, es ++ (EMetric <$> ops), s').
Proof.
  destruct its as [|b its]; [|done]. intros ->; [|done]. cbv zeta. simpl.
  unfold reconcileBackendT2HitRateSeries.
  by rewrite (List.filter_ext (t2Stale ∅ ∅ ∅) (t2Stale ∅ ∅ (as_tainted (aggregateReplicas podGet [] rows)))).
Qed.

(** The effects and the state after the tick, against the reference aggregates. *)
Lemma tick_spec s :
  let '(es, s') := tick s in
  (∀ e, e ∈ es ↔
    (∃ b, b ∈ items ∧ ¬ failedIn (bk_Namespace b) ∧ e ∈ backendWrite semEq b (aggregateFor b)) ∨
    (∃ b, b ∈ items ∧ ¬ failedIn (bk_Namespace b) ∧ 0 < ag_t2QueryTokens (aggregateFor b) ∧
       (e = EMetric (GaugeSet (t2Label (bkKey b)) (t2Ratio (aggregateFor b))) ∨
        e = EMetric (CounterAdd (t2Label (bkKey b)) (f64_of_Z
              (growth (t2_last s !! bkKey b) (ag_t2QueryTokens (aggregateFor b))))))) ∨
    (∃ k, e = EMetric (SeriesDelete (t2Label k)) ∧ (exercisedKey k ∨ k ∈ t2_tracked s) ∧ ¬ keptKey s k)) ∧
  (∀ k, k ∈ t2_tracked s' ↔ keptKey s k) ∧
  (∀ k, ¬ keptKey s k → (exercisedKey k ∨ k ∈ t2_tracked s) → t2_last s' !! k = None) ∧
  (∀ k, ¬ exercisedKey k → keptKey s k ∨ k ∉ t2_tracked s → t2_last s' !! k = t2_last s !! k) ∧
  (∀ b, b ∈ items → ¬ failedIn (bk_Namespace b) → 0 < ag_t2QueryTokens (aggregateFor b) →
     t2_last s' !! bkKey b = Some (ag_t2QueryTokens (aggregateFor b))).
Proof.
  unfold tick. set (st := aggregateReplicas podGet items rows).
  pose proof (aggregateReplicas_inv podGet podGet_namespace items items_names rows) as Hinv. fold st in Hinv.
  assert (∃ es ex s1, projectBackends semEq items st order s = (es, ex, s1)) as (es & ex & s1 & Ep)
    by (by destruct (projectBackends _ _ _ _ _) as [[??]?]; eauto).
  pose proof (projectBackends_spec semEq items items_names st order s) as Hp. rewrite Ep in Hp.
  destruct Hp as (He & Hx & Htr & Hl1 & Hl2); [rewrite order_all; apply NoDup_seq|].
  set (present := list_to_set (bkKey <$> items) : gset t2Key).
  assert (∃ ops s', reconcileBackendT2HitRateSeries ex present (as_tainted st) s1 = (ops, s'))
    as (ops & s' & Er) by (by destruct (reconcileBackendT2HitRateSeries _ _ _ _); eauto).
  assert (refreshCacheBackendParticipation podGet semEq (ListOK items) order snap s =
    (true, es ++ (EMetric <$> ops), s')) as ->.
  { rewrite refresh_unfold; [cbv zeta; fold st; rewrite Ep; fold present; by rewrite Er|].
    intros Hnil. rewrite Hnil in order_all. by apply Permutation_nil_r in order_all. }
  pose proof (reconcile_spec ex present (as_tainted st) s1) as Hr. rewrite Er in Hr.
  destruct Hr as (Hops & Htr' & Hd & Hkeep). rewrite Htr in *. cbv zeta in *.
  assert (∀ i b, trusted items st order i b → queries st i = ag_t2QueryTokens (aggregateFor b)) as Hq.
  { intros i b Hi. unfold queries, st. by rewrite (trusted_agg i b). }
  assert (∀ b, b ∈ items → ¬ failedIn (bk_Namespace b) → ∃ i, trusted items st order i b) as Hreach.
  { intros b [i Hi]%list_elem_of_lookup Hf. exists i. by apply trusted_all. }
  assert (∀ i b, trusted items st order i b → b ∈ items ∧ ¬ failedIn (bk_Namespace b)) as Hback.
  { intros i b [Hi Hf]%trusted_all. split; [by eapply list_elem_of_lookup_2|done]. }
  assert (∀ k, k ∈ ex ↔ exercisedKey k) as Hex.
  { intros k. rewrite Hx. split.
    - intros (i & b & Hi & Hk & Hpos). rewrite (Hq i b Hi) in Hpos. exists b. naive_solver.
    - intros (b & Hb & Hk & Hf & Hpos). destruct (Hreach b Hb Hf) as [i Hi]. exists i, b.
      by rewrite (Hq i b Hi). }
  assert (∀ k, exercisedKey k → k ∈ bkKey <$> items) as Hexp.
  { intros k (b & Hb & <- & _). apply list_elem_of_fmap. eauto. }
  assert (∀ k, k ∈ ex ∨ k ∈ t2_tracked s → (k ∈ present ∧ (k ∈ ex ∨ k.1 ∈ as_tainted st)) ↔ keptKey s k) as Hkept.
  { intros k. unfold keptKey, present. rewrite elem_of_list_to_set, (ai_tainted _ _ _ _ Hinv), Hex. tauto. }
  split_and!.
  - intros e. rewrite elem_of_app, He, list_elem_of_fmap. split.
    + intros [(i & b & Hi & [Hm|Hw])|(op & -> & Hop)].
      * right; left. destruct (Hback i b Hi) as [Hb Hf]. exists b.
        apply list_elem_of_fmap in Hm as (op & -> & Hop). unfold backendOps in Hop.
        rewrite (Hq i b Hi) in Hop. unfold st in Hop. rewrite (trusted_agg i b Hi) in Hop.
        destruct (Z.ltb_spec 0 (ag_t2QueryTokens (aggregateFor b))); [|by apply elem_of_nil in Hop].
        apply elem_of_cons in Hop as [->|Hop]; [by auto|].
        apply list_elem_of_singleton in Hop as ->. by auto.
      * left. destruct (Hback i b Hi) as [Hb Hf]. exists b. unfold st in Hw.
        by rewrite (trusted_agg i b Hi) in Hw.
      * right; right. apply Hops in Hop as (k & -> & H1 & H2). exists k. rewrite <-Hex.
        rewrite <-(Hkept k H1). auto.
    + intros [(b & Hb & Hf & Hw)|[(b & Hb & Hf & Hpos & Hm)|(k & -> & H1 & H2)]].
      * left. destruct (Hreach b Hb Hf) as [i Hi]. exists i, b. split; [done|]. right.
        unfold st. by rewrite (trusted_agg i b Hi).
      * left. destruct (Hreach b Hb Hf) as [i Hi]. exists i, b. split; [done|]. left.
        apply list_elem_of_fmap. unfold backendOps. rewrite (Hq i b Hi). unfold st.
        rewrite (trusted_agg i b Hi), (proj2 (Z.ltb_lt _ _)) by done.
        destruct Hm as [->| ->]; eexists; (split; [done|]); [left|right; left].
      * right. eexists. split; [done|]. apply Hops. exists k. rewrite <-Hex in H1.
        split_and!; [done..|]. by rewrite (Hkept k H1).
  - intros k. rewrite Htr'. split.
    + intros [H1 H2]. by apply Hkept.
    + intros Hk. assert (k ∈ ex ∨ k ∈ t2_tracked s) as H1 by (rewrite Hex; unfold keptKey in Hk; tauto).
      split; [done|]. by apply Hkept.
  - intros k Hk H1. rewrite <-Hex in H1. apply Hd; [done|]. by rewrite Hkept.
  - intros k H1 Hk. rewrite Hkeep; [apply Hl1; by rewrite Hex|]. destruct Hk as [Hk|Hk].
    + left. apply Hkept; [unfold keptKey in Hk; tauto|done].
    + right. by rewrite Hex.
  - intros b Hb Hf Hpos. destruct (Hreach b Hb Hf) as [i Hi].
    assert (exercisedKey (bkKey b)) as Hbk by (by exists b).
    rewrite Hkeep by (left; apply Hkept; [rewrite Hex; auto|split; auto]).
    rewrite <-(Hq i b Hi). apply Hl2; [done|]. by rewrite (Hq i b Hi).
Qed.
End tick.

(** ** What the tick publishes *)

(** The participation a backend has after the effects. *)
Definition patchFor (k : NamespacedName) (e : Effect) : option CacheBackendIndexParticipation :=
  match e with EPatchBackend k' p => if decide (k' = k) then Some p else None | _ => None end.

Definition published (patchOK : NamespacedName → bool) (es : list Effect) (b : Backend) :
    option CacheBackendIndexParticipation :=
  match last (omap (patchFor (bkKey b)) es) with
  | Some p => if patchOK (bkKey b) then Some p else bk_IndexParticipation b
  | None => bk_IndexParticipation b
  end.

Lemma published_cases patchOK es b :
  (∃ p, published patchOK es b = (if patchOK (bkKey b) then Some p else bk_IndexParticipation b) ∧
     EPatchBackend (bkKey b) p ∈ es) ∨
  (published patchOK es b = bk_IndexParticipation b ∧ ∀ p, EPatchBackend (bkKey b) p ∉ es).
Proof.
  unfold published. destruct (last _) as [p|] eqn:El.
  - left. exists p. split; [done|]. apply last_Some_elem_of, list_elem_of_omap in El as (e & He & Hp).
    destruct e as [| |k q| |]; simpl in Hp; try done. destruct (decide (k = bkKey b)) as [->|]; [|done].
    by injection Hp as ->.
  - right. split; [done|]. intros p Hp. apply last_None in El.
    assert (p ∈ omap (patchFor (bkKey b)) es) as Hin.
    { apply list_elem_of_omap. exists (EPatchBackend (bkKey b) p). split; [done|]. simpl. by rewrite decide_True. }
    rewrite El in Hin. by apply elem_of_nil in Hin.
Qed.

(** What a backend with these rows shows: their sums, their latest event if there was one,
    and the share of tier-2 tokens served, within [0,1], once any were asked for. *)
Definition expectedParticipation (rows : list ReplicaSnapshot) : CacheBackendIndexParticipation :=
  let hits := wrap64 (lsum rsn_T2HitTokens rows) in
  let asked := wrap64 (lsum rsn_T2QueryTokens rows) in
  let latest := foldr Z.max time_zero (rsn_LastEventAt <$> rows) in
  let share := f64_div (f64_of_Z hits) (f64_of_Z asked) in
  mkParticipation (wrap64 (lsum rsn_PrefixCount rows))
    (if decide (latest = time_zero) then None else Some latest)
    None
    (if decide (0 < asked)
     then Some (formatRate (f32_of_f64
            (if flt share f32_zero then f32_zero else if flt f64_one share then f64_one else share)))
     else None).

Definition noParticipation : CacheBackendIndexParticipation := mkParticipation 0 None None None.

Lemma desired_expected rows : desiredParticipation (totals rows) = expectedParticipation rows.
Proof.
  unfold desiredParticipation, expectedParticipation, t2Ratio, time_is_zero. cbv zeta.
  cbn [ag_prefixCount ag_lastEventAt ag_t2HitTokens ag_t2QueryTokens totals]. f_equal.
  - case_decide; destruct (Z.eqb_spec (foldr Z.max time_zero (rsn_LastEventAt <$> rows)) time_zero); done.
  - case_decide; destruct (Z.ltb_spec 0 (wrap64 (lsum rsn_T2QueryTokens rows))); done || lia.
Qed.

Lemma isZeroState_true d : isZeroState d = true ↔ d = noParticipation.
Proof.
  unfold isZeroState, noParticipation. destruct d as [c l h t2]. simpl.
  rewrite !andb_true_iff, Z.eqb_eq, !bool_decide_eq_true. naive_solver.
Qed.

Lemma backendWrite_elem semEq b a e :
  e ∈ backendWrite semEq b a → e = EPatchBackend (bkKey b) (desiredParticipation a).
Proof.
  unfold backendWrite. set (c := _ && _ && _). destruct c; [by intros ?%elem_of_nil|].
  destruct (semEq _ _); [by intros ?%elem_of_nil|by intros ?%list_elem_of_singleton].
Qed.

(** A backend whose patch, if there is one, is accepted. *)
Lemma published_accepted semEq patchOK es b a :
  (∀ x y, semEq x y = true ↔ x = y) → patchOK (bkKey b) = true →
  (∀ p, EPatchBackend (bkKey b) p ∈ es ↔ EPatchBackend (bkKey b) p ∈ backendWrite semEq b a) →
  published patchOK es b = Some (desiredParticipation a) ∨
  published patchOK es b = None ∧ bk_IndexParticipation b = None ∧
    desiredParticipation a = noParticipation ∧ selectorOf b = ∅.
Proof.
  intros Hsem Hok Hp. pose proof (isZeroState_true (desiredParticipation a)) as Hz.
  pose proof (hasSelector_true b) as Hh. unfold backendWrite in Hp.
  set (d := desiredParticipation a) in *.
  destruct (published_cases patchOK es b) as [(p & -> & Hin)|[-> Hno]].
  - rewrite Hok. left. apply Hp in Hin.
    destruct (_ && _ && _); [by apply elem_of_nil in Hin|].
    destruct (semEq _ _); [by apply elem_of_nil in Hin|]. by apply list_elem_of_singleton in Hin as [= ->].
  - destruct (_ && _ && _) eqn:E in Hp.
    + right. apply andb_true_iff in E as [[Ed%Hz Eh]%andb_true_iff Ei%bool_decide_eq_true].
      split_and!; [done..|]. destruct (decide (selectorOf b = ∅)) as [|Hn]; [done|].
      by rewrite (proj2 Hh Hn) in Eh.
    + left. destruct (semEq _ _) eqn:Es; [by apply Hsem in Es|].
      destruct (Hno d). apply Hp. left.
Qed.

(** The inputs of a tick as the apiserver can answer: pods in the namespace asked for,
    backends with distinct names, every aggregate visited once. *)
Record tick_inputs (podGet : string * string → GetResult Pod) (items : list Backend) (order : list nat) :
    Prop := {
  tk_pods : ∀ ns name pod, podGet (ns, name) = GetOK pod → pod_Namespace pod = ns;
  tk_names : NoDup (bkKey <$> items);
  tk_order : order ≡ₚ seq 0 (length items)
}.

(** C15: What a tick makes of a CacheBackend's participation, when [patchOK] answers its
    status patches.  In a namespace with a failed pod lookup no patch is sent and the backend
    keeps what it had.  Otherwise every patch sent carries exactly the totals over the snapshot
    rows of the pods the backend owns (by the injected-by annotation, else by the least-named
    selector that matches, where an absent label meets an empty value).  If the patch is not
    refused the backend then shows those totals, except that one without selector, without
    totals and without an earlier status stays unset; if it is refused the backend keeps what
    it had and the other backends are not affected.  The result does not depend on the order in
    which the apiserver listed the backends or the maps were ranged over.  Times are the ones
    sent; the apiserver keeps them to the second. *)
Theorem participation_exact podGet semEq patchOK items order snap s b :
  tick_inputs podGet items order → (∀ x y, semEq x y = true ↔ x = y) → b ∈ items →
  let es := (tick podGet semEq items order snap s).1 in
  let d := expectedParticipation (rowsOf podGet items b (ws_Replicas snap)) in
  let was := bk_IndexParticipation b in
  (lookupFailed podGet (ws_Replicas snap) (bk_Namespace b) →
     published patchOK es b = was ∧ ∀ p, EPatchBackend (bkKey b) p ∉ es) ∧
  (¬ lookupFailed podGet (ws_Replicas snap) (bk_Namespace b) →
     (∀ p, EPatchBackend (bkKey b) p ∈ es → p = d) ∧
     (patchOK (bkKey b) = false → published patchOK es b = was) ∧
     (patchOK (bkKey b) = true →
        published patchOK es b = Some d ∨
        published patchOK es b = None ∧ was = None ∧ d = noParticipation ∧ selectorOf b = ∅)).
Proof.
  intros [Hpods Hnd Hord] Hsem Hb. pose proof (tick_spec podGet semEq Hpods items order snap Hnd Hord s) as Hs.
  destruct (tick podGet semEq items order snap s) as [es s']. destruct Hs as [He _]. cbv zeta. simpl.
  rewrite <-desired_expected. fold (attributed podGet items b (ws_Replicas snap)).
  set (d := desiredParticipation _).
  assert (∀ p, EPatchBackend (bkKey b) p ∈ es ↔
    ¬ lookupFailed podGet (ws_Replicas snap) (bk_Namespace b) ∧
    EPatchBackend (bkKey b) p ∈ backendWrite semEq b (attributed podGet items b (ws_Replicas snap))) as Hp.
  { intros p. rewrite He. split.
    - intros [(b' & Hb' & Hf & Hw)|[(b' & _ & _ & _ & [?|?])|(k & ? & _)]]; try done.
      assert (b' = b) as ->; [|done]. apply (NoDup_key_inj bkKey items); [done..|].
      apply backendWrite_elem in Hw. congruence.
    - intros [Hf Hw]. left. by exists b. }
  split.
  - intros Hf. assert (∀ p, EPatchBackend (bkKey b) p ∉ es) as Hno by (intros p [? _]%Hp; done).
    split; [|done]. destruct (published_cases patchOK es b) as [(p & _ & Hin)|[-> _]]; [|done].
    by destruct (Hno p).
  - intros Hf. assert (∀ p, EPatchBackend (bkKey b) p ∈ es ↔ EPatchBackend (bkKey b) p ∈
      backendWrite semEq b (attributed podGet items b (ws_Replicas snap))) as Hp' by (intros; rewrite Hp; tauto).
    split_and!.
    + intros p Hin%Hp'%backendWrite_elem. by simplify_eq.
    + intros Hrej. destruct (published_cases patchOK es b) as [(p & -> & _)|[-> _]]; by rewrite ?Hrej.
    + intros Hok. apply (published_accepted semEq patchOK es b _ Hsem Hok Hp').
Qed.

(** ** The tier-2 series over time *)

(** The states of lastT2QueryTokens and t2SeriesTracked that ticks can produce. *)
Inductive t2_reachable : T2State → Prop :=
  | t2_init : t2_reachable (mkT2State ∅ ∅)
  | t2_tick podGet semEq items order snap s :
      tick_inputs podGet items order → t2_reachable s →
      t2_reachable (tick podGet semEq items order snap s).2.

Record t2_inv (s : T2State) : Prop := {
  ti_dom : ∀ k, k ∈ t2_tracked s ↔ is_Some (t2_last s !! k);
  ti_range : ∀ k v, t2_last s !! k = Some v → 0 < v < 2 ^ 63
}.

Lemma wrap64_range z : is_int64 (wrap64 z).
Proof. unfold is_int64, wrap64. pose proof (Z.mod_pos_bound (z + 2^63) (2^64)). lia. Qed.

Lemma attributed_queries_lt podGet items b rs : ag_t2QueryTokens (attributed podGet items b rs) < 2 ^ 63.
Proof.
  induction rs as [|r rs IH] using rev_ind; [done|]. rewrite attributed_snoc.
  destruct (decide _); [|done]. simpl. apply wrap64_range.
Qed.

Lemma t2_inv_reachable s : t2_reachable s → t2_inv s.
Proof.
  induction 1 as [|podGet semEq items order snap s [Hpods Hnd Hord] _ [Hdom Hrange]].
  { split; [|done]. intros k. split; [set_solver|]. by intros [v ?]. }
  pose proof (tick_spec podGet semEq Hpods items order snap Hnd Hord s) as Hs.
  destruct (tick podGet semEq items order snap s) as [es s']. destruct Hs as (_ & Htr & Hdel & Hold & Hnew).
  set (ex := exercisedKey podGet items snap) in *. set (kp := keptKey podGet items snap s) in *.
  assert (∀ k, ex k → ∃ v, t2_last s' !! k = Some v ∧ 0 < v < 2 ^ 63) as Hex.
  { intros k (b & Hb & <- & Hf & Hpos). eexists. split; [by apply Hnew|].
    split; [done|]. apply attributed_queries_lt. }
  assert (∀ k, ex k → kp k) as Hek.
  { intros k Hk. split; [|by left]. destruct Hk as (b & Hb & <- & _). apply list_elem_of_fmap. eauto. }
  assert (∀ k, lookupFailed podGet (ws_Replicas snap) k.1 → ¬ ex k) as Hfail.
  { intros k Hf (b & _ & <- & Hnf & _). done. }
  assert (∀ k, kp k → ∃ v, t2_last s' !! k = Some v ∧ 0 < v < 2 ^ 63) as Hin.
  { intros k Hk. destruct (id Hk) as [_ [?|[Hf Ht]]]; [by apply Hex|]. apply Hdom in Ht as [v Hv].
    exists v. rewrite Hold by auto. split; [done|]. by eapply Hrange. }
  assert (∀ k, ¬ kp k → t2_last s' !! k = None) as Hout.
  { intros k Hk. destruct (decide (k ∈ t2_tracked s)) as [Ht|Ht]; [by apply Hdel; auto|].
    rewrite Hold by auto. apply eq_None_not_Some. by rewrite <-Hdom. }
  split; simpl; intros k.
  - split; [intros Hk%Htr; destruct (Hin k Hk) as (v & -> & _); eauto|].
    intros [v Hv]. destruct (decide (k ∈ t2_tracked s')) as [|Hk]; [done|].
    rewrite Htr in Hk. by rewrite Hout in Hv.
  - intros v Hv. destruct (decide (k ∈ t2_tracked s')) as [Hk|Hk]; rewrite Htr in Hk.
    + destruct (Hin k Hk) as (v' & Hv' & ?). by simplify_eq.
    + by rewrite Hout in Hv.
Qed.

(** The ratio exported is a rate. *)
Lemma t2Ratio_bounds a :
  0 < ag_t2QueryTokens a < 2 ^ 63 → fle f32_zero (t2Ratio a) = true ∧ fle (t2Ratio a) f64_one = true.
Proof.
  intros Hq. destruct (f64_of_Z_finite (ag_t2QueryTokens a)) as (m & e & E).
  { split; [lia|]. apply (Z.lt_trans _ (2 ^ 63)); [lia|by vm_compute]. }
  unfold t2Ratio. rewrite E. apply clamp_bounds; try done; [|by vm_compute..].
  apply f64_div_not_nan, normalize_not_nan.
Qed.

(** In every state the poller can reach, the tier-2 series follow their contract: the
    counter only receives non-negative increments, equal to the growth of the backend's
    cumulative query tokens since the last tick that saw it (nothing on the first sight or
    after a drop), the gauge is a rate in [0,1], and after the tick a series exists exactly
    for the listed backends that were queried in this tick or were tracked in a namespace
    whose pods could not be read. *)
Theorem t2_series_exact podGet semEq items order snap s :
  tick_inputs podGet items order → t2_reachable s →
  let '(es, s') := tick podGet semEq items order snap s in
  (∀ label v, EMetric (CounterAdd label v) ∈ es →
     ∃ b cur, b ∈ items ∧ label = t2Label (bkKey b) ∧
       cur = ag_t2QueryTokens (attributed podGet items b (ws_Replicas snap)) ∧ 0 < cur ∧
       v = f64_of_Z (match t2_last s !! bkKey b with Some l => Z.max 0 (cur - l) | None => 0 end) ∧
       nonneg_f v ∧ t2_last s' !! bkKey b = Some cur) ∧
  (∀ label v, EMetric (GaugeSet label v) ∈ es → fle f32_zero v = true ∧ fle v f64_one = true) ∧
  (∀ k, k ∈ t2_tracked s' ↔ keptKey podGet items snap s k) ∧
  (∀ k, EMetric (SeriesDelete (t2Label k)) ∈ es → ∃ k', t2Label k' = t2Label k ∧ k' ∉ t2_tracked s').
Proof.
  intros [Hpods Hnd Hord] Hreach. pose proof (t2_inv_reachable s Hreach) as [Hdom Hrange].
  pose proof (tick_spec podGet semEq Hpods items order snap Hnd Hord s) as Hs.
  destruct (tick podGet semEq items order snap s) as [es s']. destruct Hs as (He & Htr & _ & _ & Hnew).
  assert (∀ b op, EMetric op ∉ backendWrite semEq b (attributed podGet items b (ws_Replicas snap))) as Hnow.
  { by intros b op ?%backendWrite_elem. }
  split_and!.
  - intros label v. rewrite He. intros [(b & _ & _ & H)|[(b & Hb & Hf & Hpos & [?|[= -> ->]])|(k & ? & _)]];
      try done; [by apply Hnow in H|].
    set (cur := ag_t2QueryTokens _) in *. exists b, cur. rewrite Hnew by done.
    change (wrap64 (lsum _ _)) with cur.
    assert (growth (t2_last s !! bkKey b) cur =
      match t2_last s !! bkKey b with Some l => Z.max 0 (cur - l) | None => 0 end) as Eg.
    { unfold growth. destruct (t2_last s !! bkKey b) as [l|] eqn:El; [|done]. apply Hrange in El.
      pose proof (attributed_queries_lt podGet items b (ws_Replicas snap)).
      destruct (Z.leb_spec cur l); [lia|]. rewrite wrap64_id; [lia|]. unfold is_int64. fold cur in H. lia. }
    split_and!; [done..|by rewrite Eg| |done]. rewrite Eg. apply f64_of_Z_nonneg. destruct (t2_last s !! _); lia.
  - intros label v. rewrite He. intros [(b & _ & _ & H)|[(b & Hb & Hf & Hpos & [[= -> ->]|?])|(k & ? & _)]];
      try done; [by apply Hnow in H|]. apply t2Ratio_bounds. split; [done|apply attributed_queries_lt].
  - done.
  - intros k. rewrite He. intros [(b & _ & _ & H)|[(b & _ & _ & _ & [?|?])|(k' & [= E] & _ & Hk)]];
      try done; [by apply Hnow in H|]. exists k'. by rewrite Htr.
Qed.

(** ** The cluster-wide rows *)

(** The replicas with reported stats. *)
Definition reporting (rs : list ReplicaSnapshot) (r : ReplicaSnapshot) : Prop :=
  r ∈ rs ∧ time_is_zero (rsn_LastUpdate r) = false.

Lemma str_lt_ntrans a b c : str_lt a b = false → str_lt b c = false → str_lt a c = false.
Proof.
  intros H1 H2. unfold str_lt in *.
  apply (less_of_ntrans (λ _ : string, True) String.compare c b a); try done. apply total_cmp_string.
Qed.

Lemma str_lt_irrefl a : str_lt a a = false.
Proof. unfold str_lt, less_of. by rewrite (proj2 (string_compare_eq_iff a a) eq_refl). Qed.

Lemma str_lt_asym a b : str_lt a b = true → str_lt b a = false.
Proof.
  unfold str_lt, less_of. rewrite (String.compare_antisym a b). by destruct (String.compare b a).
Qed.

Lemma byID_spec rs id :
  match foldl byIDStep ∅ rs !! id with
  | Some x => reporting rs x ∧ rsn_ReplicaID x = id ∧
      ∀ y, reporting rs y → rsn_ReplicaID y = id → str_lt (rsn_Tenant x) (rsn_Tenant y) = false
  | None => ∀ y, reporting rs y → rsn_ReplicaID y ≠ id
  end.
Proof.
  unfold reporting. induction rs as [|r rs IH] using rev_ind.
  { simpl. rewrite lookup_empty. by intros y [?%elem_of_nil _]. }
  rewrite foldl_app. cbn [foldl]. set (m := foldl byIDStep ∅ rs) in *. unfold byIDStep.
  assert (∀ y, y ∈ rs ++ [r] ↔ y ∈ rs ∨ y = r) as Hin.
  { intros y. by rewrite elem_of_app, list_elem_of_singleton. }
  assert (∀ m' : gmap string ReplicaSnapshot, m' !! id = m !! id →
    (time_is_zero (rsn_LastUpdate r) = false → rsn_ReplicaID r ≠ id) →
    match m' !! id with
    | Some x => (x ∈ rs ++ [r] ∧ time_is_zero (rsn_LastUpdate x) = false) ∧ rsn_ReplicaID x = id ∧
        ∀ y, y ∈ rs ++ [r] ∧ time_is_zero (rsn_LastUpdate y) = false → rsn_ReplicaID y = id →
          str_lt (rsn_Tenant x) (rsn_Tenant y) = false
    | None => ∀ y, y ∈ rs ++ [r] ∧ time_is_zero (rsn_LastUpdate y) = false → rsn_ReplicaID y ≠ id
    end) as Hsame.
  { intros m' -> Hr. destruct (m !! id) as [x|].
    - destruct IH as ([Hx Hxz] & Hxid & Hmax). split_and!; [apply Hin; auto|done..|].
      intros y [[Hy| ->]%Hin Hz] Hyid; [by auto|by destruct (Hr Hz)].
    - intros y [[Hy| ->]%Hin Hz]; [by auto|by apply Hr]. }
  destruct (time_is_zero (rsn_LastUpdate r)) eqn:Ez; [by apply Hsame|].
  destruct (decide (rsn_ReplicaID r = id)) as [<-|Hid].
  2:{ apply Hsame; [|done]. destruct (m !! rsn_ReplicaID r); [destruct (negb _)|]; by rewrite ?lookup_insert_ne. }
  destruct (m !! rsn_ReplicaID r) as [x|] eqn:Em.
  - destruct IH as ([Hx Hxz] & Hxid & Hmax).
    destruct (str_lt (rsn_Tenant x) (rsn_Tenant r)) eqn:El; simpl.
    + rewrite lookup_insert_eq. split_and!; [apply Hin; by right|done..|].
      intros y [[Hy| ->]%Hin Hz] Hyid; [|apply str_lt_irrefl].
      apply (str_lt_ntrans _ (rsn_Tenant x)); [by apply str_lt_asym|by apply Hmax].
    + rewrite Em. split_and!; [apply Hin; by left|done..|]. intros y [[Hy| ->]%Hin Hz] Hyid; auto.
  - rewrite lookup_insert_eq. split_and!; [apply Hin; by right|done..|].
    intros y [[Hy| ->]%Hin Hz] Hyid; [by destruct (IH y)|apply str_lt_irrefl].
Qed.

(** The CacheIndex status lists one row per replica id that has reported stats, sorted by
    id, taken from the lexicographically last tenant reporting that id; prefix-only replicas
    are absent, and no two rows share an id. *)
Theorem index_rows_exact snap url now :
  let st := buildCacheIndexStatus snap url now in
  (∀ row, row ∈ ci_Replicas st ↔ ∃ x, row = replicaStatusRow x ∧
     foldl byIDStep ∅ (ws_Replicas snap) !! rsn_ReplicaID x = Some x) ∧
  (∀ y, reporting (ws_Replicas snap) y → ∃ x, replicaStatusRow x ∈ ci_Replicas st ∧
     reporting (ws_Replicas snap) x ∧ rsn_ReplicaID x = rsn_ReplicaID y ∧
     ∀ z, reporting (ws_Replicas snap) z → rsn_ReplicaID z = rsn_ReplicaID y →
       str_lt (rsn_Tenant x) (rsn_Tenant z) = false) ∧
  (∀ row, row ∈ ci_Replicas st → ∃ x, reporting (ws_Replicas snap) x ∧ row = replicaStatusRow x) ∧
  NoDup (rc_ID <$> ci_Replicas st) ∧
  sorted_by (λ a b, str_lt (rc_ID a) (rc_ID b)) (ci_Replicas st).
Proof.
  cbv zeta. unfold buildCacheIndexStatus. cbn [ci_Replicas].
  set (m := foldl byIDStep ∅ (ws_Replicas snap)). set (less := λ a b, _).
  assert (∀ id x, m !! id = Some x → rsn_ReplicaID x = id) as Hid.
  { intros id x Hx. pose proof (byID_spec (ws_Replicas snap) id) as H. fold m in H. rewrite Hx in H. apply H. }
  assert (∀ row, row ∈ go_sort less (replicaStatusRow <$> (map_to_list m).*2) ↔
    ∃ x, row = replicaStatusRow x ∧ m !! rsn_ReplicaID x = Some x) as Hrow.
  { intros row. rewrite elem_of_go_sort, list_elem_of_fmap. split.
    - intros (x & -> & ([id x'] & -> & Hin)%list_elem_of_fmap). apply elem_of_map_to_list in Hin.
      exists x'. simpl. by rewrite (Hid _ _ Hin).
    - intros (x & -> & Hx). exists x. split; [done|]. apply list_elem_of_fmap.
      exists (rsn_ReplicaID x, x). split; [done|]. by apply elem_of_map_to_list. }
  split_and!.
  - done.
  - intros y Hy. pose proof (byID_spec (ws_Replicas snap) (rsn_ReplicaID y)) as H. fold m in H.
    destruct (m !! rsn_ReplicaID y) as [x|] eqn:Em; [|by destruct (H y Hy)].
    destruct H as (Hrep & Hxid & Hmax). exists x. split_and!; [|done..].
    apply Hrow. exists x. by rewrite Hxid.
  - intros row (x & -> & Hx)%Hrow. pose proof (byID_spec (ws_Replicas snap) (rsn_ReplicaID x)) as H.
    fold m in H. rewrite Hx in H. exists x. naive_solver.
  - rewrite go_sort_Permutation, <-!list_fmap_compose.
    assert ((rc_ID ∘ replicaStatusRow ∘ snd) <$> map_to_list m = (map_to_list m).*1) as ->;
      [|apply NoDup_fst_map_to_list].
    apply list_fmap_ext. intros i [id x] Hi. simpl. apply list_elem_of_lookup_2, elem_of_map_to_list in Hi.
    by apply Hid.
  - apply go_sort_sorted. intros a b. apply str_lt_asym.
Qed.

(** ** Steady state *)

(** What a repeated tick rewrites: a status the apiserver stored with its timestamps in whole
    seconds, as metav1.Time is encoded. *)
Section steady.
Context (storeTime : Time → Time).
Hypothesis storeTime_seconds : ∀ t, storeTime t = t - t mod Second.

Definition storedParticipation (d : CacheBackendIndexParticipation) : CacheBackendIndexParticipation :=
  mkParticipation (ip_PrefixCount d) (storeTime <$> ip_LastEventAt d) (ip_HitRate d) (ip_T2HitRate d).

(** When the published participation already shows the current snapshot, the next tick
    patches the backend again exactly when its newest event has a sub-second part, which the
    stored time has lost: the no-churn guard compares the full time with the stored one. *)
Theorem participation_repatch podGet semEq items order snap s b :
  tick_inputs podGet items order → (∀ x y, semEq x y = true ↔ x = y) → b ∈ items →
  ¬ lookupFailed podGet (ws_Replicas snap) (bk_Namespace b) →
  let d := desiredParticipation (attributed podGet items b (ws_Replicas snap)) in
  bk_IndexParticipation b = Some (storedParticipation d) →
  (∃ p, EPatchBackend (bkKey b) p ∈ (tick podGet semEq items order snap s).1) ↔
  ∃ t, ip_LastEventAt d = Some t ∧ t mod Second ≠ 0.
Proof.
  intros [Hpods Hnd Hord] Hsem Hb Hf d Hpub.
  pose proof (tick_spec podGet semEq Hpods items order snap Hnd Hord s) as Hs.
  destruct (tick podGet semEq items order snap s) as [es s']. destruct Hs as [He _]. cbn [fst].
  assert (backendWrite semEq b (attributed podGet items b (ws_Replicas snap)) =
    if semEq (Some (storedParticipation d)) (Some d) then [] else [EPatchBackend (bkKey b) d]) as Hw.
  { unfold backendWrite. fold d. rewrite Hpub. by rewrite andb_false_r. }
  assert (semEq (Some (storedParticipation d)) (Some d) = false ↔
    ∃ t, ip_LastEventAt d = Some t ∧ t mod Second ≠ 0) as Hse.
  { rewrite <-not_true_iff_false, Hsem. unfold storedParticipation. destruct d as [c l h t2]. simpl.
    destruct l as [t|]; simpl; [|naive_solver]. rewrite storeTime_seconds. split.
    - intros Hne. exists t. split; [done|]. intros Hm. apply Hne. by rewrite Hm, Z.sub_0_r.
    - intros (t' & [= <-] & Hm) [= Ht]. lia. }
  rewrite <-Hse. split.
  - intros [p Hp]. apply He in Hp as [(b' & Hb' & Hf' & Hw')|[(b' & _ & _ & _ & [?|?])|(k & ? & _)]]; try done.
    assert (b' = b) as ->.
    { apply (NoDup_key_inj bkKey items); [done..|]. apply backendWrite_elem in Hw'. congruence. }
    rewrite Hw in Hw'. destruct (semEq _ _); [by apply elem_of_nil in Hw'|done].
  - intros Hne. exists d. apply He. left. exists b. split_and!; [done..|]. rewrite Hw, Hne. left.
Qed.
End steady.

(** Rewriting a tenant's own desired status changes nothing. *)
Class SetConditionIdem (set : list Condition → Condition → list Condition) : Prop :=
  set_noop : ∀ cs c d, condOf (cd_Type c) cs = Some d → sameCondition d c → set cs c = cs.

Definition withStatus (ct : CacheTenant) (st : CacheTenantStatus) : CacheTenant :=
  mkCacheTenant (ct_Namespace ct) (ct_Name ct) (ct_Generation ct) (ct_TenantID ct) (ct_Quota ct)
    (ct_IsolationMode ct) st.

Lemma set_pair_stable set `{!SetConditionLaws set} `{!SetConditionIdem set} cs c1 c2 :
  cd_Type c1 ≠ cd_Type c2 →
  set (set (set (set cs c1) c2) c1) c2 = set (set cs c1) c2.
Proof.
  intros Hne. destruct (set_same cs c1) as (d1 & H1 & Hs1). destruct (set_same (set cs c1) c2) as (d2 & H2 & Hs2).
  rewrite (set_noop (set (set cs c1) c2) c1 d1); [|by rewrite set_other|done].
  by apply (set_noop _ c2 d2).
Qed.

(** Statuses settle: once a CacheTenant or the CacheIndex carries the status computed from
    a snapshot, computing it again from the same snapshot at any later time gives an equal
    status, so no further write is issued until the snapshot or the objects change. *)
Theorem statuses_settle set quote `{!SetConditionLaws set} `{!SetConditionIdem set} owners snap ct url t1 t2 :
  let st := tenantStatus set quote owners snap ct in
  cacheTenantStatusEqual st (tenantStatus set quote owners snap (withStatus ct st)) = true ∧
  statusEqual (buildCacheIndexStatus snap url t1) (buildCacheIndexStatus snap url t2) = true.
Proof.
  split; [|by apply bool_decide_eq_true].
  apply bool_decide_eq_true. unfold tenantStatus, buildCacheTenantStatus.
  change (shadow owners (withStatus ct _)) with (shadow owners ct). cbn [ct_TenantID withStatus].
  set (obs := observed snap (ct_TenantID ct)). destruct (shadow owners ct) as [owner|].
  - cbn [ct_Status tst_Conditions withStatus ct_Generation]. by rewrite set_pair_stable.
  - assert (∀ st, quotaVerdict (withStatus ct st) (ts_IndexEntries obs) = quotaVerdict ct (ts_IndexEntries obs))
      as Hv by done.
    rewrite Hv. destruct (quotaVerdict ct _) as [[st re] ms].
    cbn [ct_Status tst_Conditions withStatus ct_Generation]. by rewrite set_pair_stable.
Qed.

Lemma refreshParticipation_reads podGet semEq backends order snap s :
  let '(_, es, s') := refreshCacheBackendParticipation podGet semEq backends order snap s in
  (∀ e, e ∈ es → (∃ items, backends = ListOK items) ∧
     match e with EPatchBackend _ _ | EMetric _ => True | _ => False end).
Proof.
  assert (∀ items st order s e, e ∈ (projectBackends semEq items st order s).1.1 →
    match e with EPatchBackend _ _ | EMetric _ => True | _ => False end) as Hp.
  { clear. intros items st order. induction order as [|i order IH]; intros s e; simpl; [by intros ?%elem_of_nil|].
    destruct (items !! i) as [b|]; [|apply IH]. destruct (bool_decide _); [apply IH|].
    rewrite projectBackend_eq. specialize (IH (if 0 <? queries st i then mkT2State (<[bkKey b := queries st i]>
      (t2_last s)) (t2_tracked s) else s)).
    destruct (projectBackends _ _ _ _ _) as [[es' ex'] s']. simpl in *. rewrite !elem_of_app.
    intros [[(op & -> & _)%list_elem_of_fmap| ->%backendWrite_elem]|He]; [done..|by apply IH]. }
  destruct backends as [items| |]; [|by intros e ?%elem_of_nil..].
  assert (∀ (ops : list MetricOp) (e : Effect), e ∈ EMetric <$> ops → match e with EPatchBackend _ _ | EMetric _ => True | _ => False end) as Hm.
  { by intros ops e (op & -> & _)%list_elem_of_fmap. }
  unfold refreshCacheBackendParticipation. destruct items as [|b0 items].
  - destruct (reconcileBackendT2HitRateSeries _ _ _ _) as [ops s']. intros e He. split; [eauto|by eapply Hm].
  - set (st := aggregateReplicas _ _ _). specialize (Hp (b0 :: items) st order s).
    destruct (projectBackends _ _ _ _ _) as [[es ex] s1].
    destruct (reconcileBackendT2HitRateSeries _ _ _ _) as [ops s'].
    intros e [He|He]%elem_of_app; (split; [by eauto|]); [by apply Hp|by eapply Hm].
Qed.

Lemma reconcileTenants_reads patchTenant set quote tenants snap e :
  e ∈ (reconcileTenantStatuses patchTenant set quote tenants snap).1 →
  match e with EPatchTenant k _ => ∃ items, tenants = ListOK items ∧ k ∈ ctKey <$> items | _ => False end.
Proof.
  unfold reconcileTenantStatuses. destruct tenants as [items| |]; simpl; [|by intros ?%elem_of_nil..].
  intros (ct & -> & [_ Hct]%elem_of_List_filter)%list_elem_of_fmap. exists items. split; [done|].
  apply list_elem_of_fmap. eauto.
Qed.

(** C40: No failed read changes published state.  The one write that needs no scrape is the
    creation of the CacheIndex singleton, which comes first and only when the read said it does
    not exist; without a successful scrape the tick writes nothing else, returns an error and
    leaves the tracked series as they are.  With one, the CacheIndex gets exactly the status
    computed from that scrape, a backend or a tier-2 series is touched only after a successful
    list of the backends, a tenant only after a successful list of the tenants. *)
Theorem writes_need_reads podGet semEq patchTenant set quote p inp s :
  let '(err, es, s') := refresh podGet semEq patchTenant set quote p inp s in
  let token := (bearerToken (ti_readFile inp) (pl_BearerTokenPath p) DefaultBearerTokenPath).1 in
  (fetchSnapshot inp (pl_SnapshotURL p) token = None →
     s' = s ∧ err ≠ None ∧ ∀ e, e ∈ es → e = ECreateIndex (pollerName p)) ∧
  (∀ e, e ∈ es → match e with
     | ECreateIndex _ => ti_index inp = GetNotFound
     | EUpdateIndex _ st => ∃ snap, fetchSnapshot inp (pl_SnapshotURL p) token = Some snap ∧
         st = buildCacheIndexStatus snap (pl_SnapshotURL p) (ti_now inp)
     | EPatchBackend _ _ | EMetric _ => ∃ items, ti_backends inp = ListOK items
     | EPatchTenant k _ => ∃ items, ti_tenants inp = ListOK items ∧ k ∈ ctKey <$> items
     end).
Proof.
  unfold refresh. destruct (ensureIndex p inp) as [es0 ci] eqn:Ei.
  assert (∀ e, e ∈ es0 → e = ECreateIndex (pollerName p) ∧ ti_index inp = GetNotFound) as H0.
  { unfold ensureIndex in Ei. destruct (ti_index inp); injection Ei as <- _; intros e He;
      [by apply elem_of_nil in He|by apply list_elem_of_singleton in He|by apply elem_of_nil in He]. }
  assert (∀ e, e ∈ es0 → match e with ECreateIndex _ => ti_index inp = GetNotFound | _ => False end) as H0'.
  { by intros e [-> ?]%H0. }
  destruct ci as [err|ci].
  { cbv zeta. split; [intros _; split_and!; [done..|]; by intros e [? _]%H0|].
    intros e He%H0'. by destruct e. }
  destruct (bearerToken _ _ _) as [token terr]. cbn [fst].
  destruct (fetchSnapshot inp (pl_SnapshotURL p) token) as [snap|] eqn:Ef.
  2:{ split; [intros _; split_and!; [done..|]; by intros e [? _]%H0|]. intros e He%H0'. by destruct e. }
  pose proof (refreshParticipation_reads podGet semEq (ti_backends inp) (ti_order inp) snap s) as H1.
  destruct (refreshCacheBackendParticipation _ _ _ _ _ _) as [[ok es1] s1].
  set (es2 := if negb (statusEqual _ _) then _ else _).
  assert (∀ e, e ∈ es2 → e = EUpdateIndex (pollerName p)
    (buildCacheIndexStatus snap (pl_SnapshotURL p) (ti_now inp))) as H2.
  { unfold es2. destruct (negb _); [by intros e ?%list_elem_of_singleton|by intros e ?%elem_of_nil]. }
  destruct (negb _ && negb _).
  { split; [done|]. intros e. rewrite !elem_of_app. intros [He%H0'|[[? Hm]%H1| ->%H2]]; [by destruct e| |by eauto].
    by destruct e. }
  pose proof (reconcileTenants_reads patchTenant set quote (ti_tenants inp) snap) as H3.
  destruct (reconcileTenantStatuses _ _ _ _ _) as [es3 [listed failed]].
  split; [done|]. intros e. rewrite !elem_of_app.
  intros [He%H0'|[[? Hm]%H1|[->%H2|He%H3]]]; [by destruct e| |by eauto|by destruct e]. by destruct e.
Qed.

(** ** Witnesses *)

(** An implementation of meta.SetStatusCondition: in place, at the end when absent. *)
Fixpoint setCond (cs : list Condition) (c : Condition) : list Condition :=
  match cs with
  | [] => [mkCondition (cd_Type c) (cd_Status c) (cd_Reason c) (cd_Message c) (cd_ObservedGeneration c) 1]
  | d :: cs =>
      if str_eqb (cd_Type d) (cd_Type c)
      then mkCondition (cd_Type c) (cd_Status c) (cd_Reason c) (cd_Message c) (cd_ObservedGeneration c)
             (if str_eqb (cd_Status d) (cd_Status c) then cd_LastTransitionTime d else 1) :: cs
      else d :: setCond cs c
  end.

#[export] Instance setCond_laws : SetConditionLaws setCond.
Proof.
  split.
  - intros cs c. induction cs as [|d cs IH]; simpl; [rewrite str_eqb_refl; eexists; split; [done|done]|].
    destruct (str_eqb (cd_Type d) (cd_Type c)) eqn:E; simpl.
    + rewrite str_eqb_refl. eexists. by split.
    + by rewrite E.
  - intros cs c t Ht. induction cs as [|d cs IH]; simpl; [by rewrite (proj2 (str_eqb_neq _ _))|].
    destruct (str_eqb (cd_Type d) (cd_Type c)) eqn:E; simpl.
    + apply str_eqb_eq in E. rewrite E. by rewrite (proj2 (str_eqb_neq (cd_Type c) t)).
    + by rewrite IH.
Qed.

#[export] Instance setCond_idem : SetConditionIdem setCond.
Proof.
  intros cs c d. induction cs as [|x cs IH]; simpl; [done|].
  destruct (str_eqb (cd_Type x) (cd_Type c)) eqn:E; [|intros H1 H2; f_equal; auto].
  intros [= ->] (H1 & H2 & H3 & H4 & H5). destruct d as [ty st re ms og lt]. simpl in *. subst.
  by rewrite str_eqb_refl.
Qed.

Definition samplePod (name injected : string) : Pod :=
  mkPod "ns" name {["app" := "x"]} (if str_eqb injected "" then ∅ else {[AnnotationInjectedBy := injected]}).

Definition samplePodGet (k : string * string) : GetResult Pod :=
  if str_eqb k.1 "ns" then GetOK (samplePod k.2 (if str_eqb k.2 "p1" then "ns/b2" else "")) else GetNotFound.

Definition sampleBackends : list Backend :=
  [mkBackend "ns" "b2" None None; mkBackend "ns" "b1" (Some {["app" := "x"]}) None].

Definition sampleRow (pod : string) (n q h : Z) (last : Time) : ReplicaSnapshot :=
  mkReplicaSnapshot pod "ns" 0 f32_zero f32_zero last n last true h q.

Definition sampleSnap : WireSnapshot :=
  mkWireSnapshot [sampleRow "p1" 3 100 50 (5 * Second); sampleRow "p2" 4 0 0 (6 * Second + 1)]
    [mkTenantSnapshot "t" 9 f32_zero false] 7 0.

Definition sampleEq (x y : option CacheBackendIndexParticipation) : bool := bool_decide (x = y).

Lemma sampleEq_spec x y : sampleEq x y = true ↔ x = y.
Proof. apply bool_decide_eq_true. Qed.

Lemma sample_inputs : tick_inputs samplePodGet sampleBackends [1; 0]%nat.
Proof.
  split.
  - intros ns name pod. unfold samplePodGet. simpl. destruct (str_eqb ns "ns") eqn:E; [|done].
    apply str_eqb_eq in E as ->. by intros [= <-].
  - vm_compute. repeat (constructor; [set_solver|]). constructor.
  - apply Permutation_swap.
Qed.

Lemma tenant_status_truthful_witness :
  ∃ s, TenantQuota s "t" = Some 5 ∧
  condStatus tenantConditionReady (tenantStatus setCond id (effectiveTenantOwners sampleTenants) sampleSnap
    (sampleTenant "a" "y" "t" (Some 5))) = Some "True".
Proof.
  exists (served samplePolicies sampleTenants NewPolicyStore).
  destruct (tenant_status_truthful setCond id samplePolicies sampleTenants
    (served samplePolicies sampleTenants NewPolicyStore) sampleSnap (sampleTenant "a" "y" "t" (Some 5)))
    as [_ [(H1 & H2 & _)|(H1 & _)]].
  - vm_compute. repeat (constructor; [set_solver|]). constructor.
  - apply replace_enforces; vm_compute; repeat (constructor; [set_solver|]); constructor.
  - right; left.
  - done.
  - done.
  - split; [exact H2|exact H1].
  - exfalso. vm_compute in H1. discriminate.
Defined.

(** A selector that asks for an empty value also takes a pod without the label. *)
Lemma absent_label_selected :
  matchLabelsSelects {["app" := ""]} ∅ = true ∧
  selects (mkPod "ns" "p" ∅ ∅) (mkBackend "ns" "b" (Some {["app" := ""]}) None) = true.
Proof. vm_compute. done. Qed.

Lemma participation_exact_witness :
  let es := (tick samplePodGet sampleEq sampleBackends [1; 0]%nat sampleSnap (mkT2State ∅ ∅)).1 in
  let b2 := mkBackend "ns" "b2" None None in
  published (λ _, true) es b2 = Some (mkParticipation 3 (Some (5 * Second)) None (Some "0.5")) ∧
  published (λ _, false) es b2 = None.
Proof.
  assert (¬ lookupFailed samplePodGet (ws_Replicas sampleSnap) "ns") as Hf.
  { intros (r & Hr & _ & _ & Herr). unfold samplePodGet in Herr. by destruct (str_eqb _ _). }
  pose proof (λ ok, proj2 (participation_exact samplePodGet sampleEq ok sampleBackends [1; 0]%nat sampleSnap
    (mkT2State ∅ ∅) (mkBackend "ns" "b2" None None) sample_inputs sampleEq_spec ltac:(left)) Hf) as H.
  split.
  - destruct (H (λ _, true)) as (_ & _ & Hok). destruct (Hok eq_refl) as [->|(_ & _ & Hz & _)].
    + vm_compute. reflexivity.
    + vm_compute in Hz. discriminate.
  - destruct (H (λ _, false)) as (_ & Hrej & _). by apply Hrej.
Defined.

Lemma t2_series_exact_witness :
  let s := (tick samplePodGet sampleEq sampleBackends [1; 0]%nat sampleSnap (mkT2State ∅ ∅)).2 in
  t2_reachable s ∧ ("ns", "b2") ∈ t2_tracked s ∧ t2_last s !! ("ns", "b2") = Some 100.
Proof.
  pose proof (t2_series_exact samplePodGet sampleEq sampleBackends [1; 0]%nat sampleSnap (mkT2State ∅ ∅)
    sample_inputs t2_init) as H.
  destruct (tick _ _ _ _ _ _) as [es s'] eqn:E. destruct H as (_ & _ & Htr & _). cbv zeta.
  split_and!.
  - change s' with (es, s').2. rewrite <-E. apply t2_tick; [apply sample_inputs|apply t2_init].
  - apply Htr. split; [vm_compute; left|]. left. exists (mkBackend "ns" "b2" None None).
    split_and!; [left|reflexivity| |vm_compute; reflexivity].
    intros (r & Hr & _ & _ & Herr). unfold samplePodGet in Herr. by destruct (str_eqb _ _).
  - change s' with (es, s').2. rewrite <-E. vm_compute. reflexivity.
Defined.

(** The backend whose selector matches the second pod, after its status was stored. *)
Definition publishedBackend : Backend :=
  mkBackend "ns" "b1" (Some {["app" := "x"]}) (Some (mkParticipation 4 (Some (6 * Second)) None None)).

Lemma participation_repatch_witness :
  ∃ p, EPatchBackend ("ns", "b1") p ∈
    (tick samplePodGet sampleEq [mkBackend "ns" "b2" None None; publishedBackend] [1; 0]%nat sampleSnap
       (mkT2State ∅ ∅)).1.
Proof.
  apply (participation_repatch (λ t, t - t mod Second) ltac:(reflexivity) samplePodGet sampleEq
    [mkBackend "ns" "b2" None None; publishedBackend] [1; 0]%nat sampleSnap (mkT2State ∅ ∅) publishedBackend).
  - split; [apply sample_inputs|vm_compute; repeat (constructor; [set_solver|]); constructor|apply Permutation_swap].
  - apply sampleEq_spec.
  - right; left.
  - intros (r & Hr & _ & _ & Herr). unfold samplePodGet in Herr. by destruct (str_eqb _ _).
  - vm_compute. reflexivity.
  - exists (6 * Second + 1). split; [vm_compute; reflexivity|vm_compute; discriminate].
Defined.

Lemma statuses_settle_witness :
  let ct := sampleTenant "a" "y" "t" (Some 5) in
  let st := tenantStatus setCond id (effectiveTenantOwners sampleTenants) sampleSnap ct in
  condStatus tenantConditionQuotaExceeded st = Some "True" ∧
  cacheTenantStatusEqual st (tenantStatus setCond id (effectiveTenantOwners sampleTenants) sampleSnap
    (withStatus ct st)) = true.
Proof.
  split; [vm_compute; reflexivity|].
  apply (proj1 (statuses_settle setCond id (effectiveTenantOwners sampleTenants) sampleSnap
    (sampleTenant "a" "y" "t" (Some 5)) "" 0 1)).
Defined.
