(* ===== verification/Admission.v ===== *)
(** * Admission of CachePolicy and CacheTenant
    (webhook/v1alpha1/cachepolicy_webhook.go, cachetenant_webhook.go, filterIntroducedErrors
    of cachebackend_validator.go)

    The validators as functions of the object and of what the live reader lists.  The cluster
    is the list of stored objects; [policyStep] and [tenantStep] are the requests the
    apiserver serves one after another: an accepted create, update or delete. *)

From Stdlib Require Import SpecFloat.
From S2P Require Import Prelude Ordering GoRuntime K8s.
From S2P Require Import IndexTypes Policy ControlPlane IndexPoller IndexPollerTheorems.

(** ** Field errors *)

Inductive ErrorType :=
  ErrorTypeInvalid | ErrorTypeForbidden | ErrorTypeRequired | ErrorTypeNotSupported | ErrorTypeInternal.

#[export] Instance ErrorType_eq_dec : EqDecision ErrorType.
Proof. solve_decision. Defined.

(** The bad value of an error; Forbidden and Required carry none.  Errors are compared by its
    printed form, which is injective on each of these; a pointer to a struct prints as its
    fields, a pointer field among them as its address. *)
Inductive BadValue :=
  | NoValue
  | BadNil
  | BadDuration (d : Duration)
  | BadBool (b : bool)
  | BadInt (z : Z)
  | BadString (s : string)
  | BadStruct (addr : option Z) (fields : list string).

#[export] Instance BadValue_eq_dec : EqDecision BadValue.
Proof. solve_decision. Defined.

(** field.Error. *)
Record FieldError := mkFieldError {
  fe_Type : ErrorType;
  fe_Field : string;
  fe_BadValue : BadValue;
  fe_Detail : string
}.

#[export] Instance FieldError_eq_dec : EqDecision FieldError.
Proof. solve_decision. Defined.

Definition filterIntroducedErrors (oldErrs newErrs : list FieldError) : list FieldError :=
  List.filter (λ e, negb (bool_decide (e ∈ oldErrs))) newErrs.

(** The verdict: admitted, an Invalid status with its errors, or a failed check. *)
Inductive Verdict :=
  | Accepted
  | Invalid (errs : list FieldError)
  | CheckFailed.

Definition verdictOf (errs : list FieldError) : Verdict :=
  match errs with [] => Accepted | _ => Invalid errs end.

(** [for _, rule := range rules { errs = append(errs, rule(obj)...) }], with the default
    rules when none are configured. *)
Definition collectSpecErrors {A : Type} (dflt rules : list (A → list FieldError)) (obj : A) : list FieldError :=
  (if (length rules =? 0)%nat then dflt else rules) ≫= λ rule, rule obj.

(** ** CachePolicy *)

Definition rejectNonPositiveEvictionTTL (cp : CachePolicy) : list FieldError :=
  match ps_EvictionTTL (cp_Spec cp) with
  | None => []
  | Some d => if 0 <? d then []
              else [mkFieldError ErrorTypeInvalid "spec.evictionTTL" (BadDuration d)
                      "evictionTTL must be greater than zero when set (a non-positive TTL would be silently clamped to the index default)"]
  end.

Definition rejectIncoherentStrategy (cp : CachePolicy) : list FieldError :=
  match ps_Strategy (cp_Spec cp) with
  | None => []
  | Some st =>
      match ss_EnableChainMatching st, ss_RequireChain st with
      | Some enable, Some require =>
          if enable || negb require then []
          else [mkFieldError ErrorTypeInvalid "spec.strategy.requireChain" (BadBool require)
                  "requireChain requires enableChainMatching to be true"]
      | _, _ => []
      end
  end.

Definition DefaultCachePolicyValidationRules : list (CachePolicy → list FieldError) :=
  [rejectNonPositiveEvictionTTL; rejectIncoherentStrategy].

(** A validator: its rules, and its reader (none when miswired): the objects of a namespace. *)
Record Validator (A : Type) := mkValidator {
  v_Rules : list (A → list FieldError);
  v_Reader : option (string → ListResult A)
}.
Arguments mkValidator {A} _ _.
Arguments v_Rules {A} _.
Arguments v_Reader {A} _.

(** [if conflict == "" || other < conflict { conflict = other }]. *)
Definition leastName (conflict other : string) : string :=
  if str_eqb conflict "" || str_lt other conflict then other else conflict.

Section validators.
(** [%q] of fmt. *)
Variable quote : string → string.

(** Errors of the cross-object check; [None] is a failed check. *)
Definition checkSinglePolicyPerNamespace (v : Validator CachePolicy) (cp : CachePolicy) :
    option (list FieldError) :=
  reader ← v_Reader v;
  match reader (cp_Namespace cp) with
  | ListOK existing =>
      let conflict := foldl (λ c other, if str_eqb (cp_Name other) (cp_Name cp) then c
                                        else leastName c (cp_Name other)) "" existing in
      Some (if str_eqb conflict "" then []
            else [mkFieldError ErrorTypeForbidden "metadata.name" NoValue
                    ("namespace " +:+ quote (cp_Namespace cp) +:+ " already has CachePolicy " +:+ quote conflict +:+
                     "; at most one CachePolicy is allowed per namespace. Edit the existing policy instead of creating a second one.")])
  | _ => None
  end.

Definition collectCachePolicySpecErrors := collectSpecErrors DefaultCachePolicyValidationRules.

Definition ValidateCreatePolicy (v : Validator CachePolicy) (cp : CachePolicy) : Verdict :=
  let errs := collectCachePolicySpecErrors (v_Rules v) cp in
  match checkSinglePolicyPerNamespace v cp with
  | None => CheckFailed
  | Some siblingErrs => verdictOf (errs ++ siblingErrs)
  end.

Definition ValidateUpdatePolicy (v : Validator CachePolicy) (oldCP newCP : CachePolicy) : Verdict :=
  let newErrs := collectCachePolicySpecErrors (v_Rules v) newCP in
  if (length newErrs =? 0)%nat then Accepted
  else
    let oldErrs := collectCachePolicySpecErrors (v_Rules v) oldCP in
    verdictOf (filterIntroducedErrors oldErrs newErrs).

Definition ValidateDeletePolicy (v : Validator CachePolicy) (cp : CachePolicy) : Verdict := Accepted.

(** ** CacheTenant *)

Definition rejectReservedProbeTenantID (ct : CacheTenant) : list FieldError :=
  if negb (str_eqb (ct_TenantID ct) ProbeTenantID) then []
  else [mkFieldError ErrorTypeInvalid "spec.tenantID" (BadString (ct_TenantID ct))
          "tenantID is reserved for the control plane's functional self-test (see internal/controlplaneapi/probe.go); choose a different tenantID"].

Definition DefaultCacheTenantValidationRules : list (CacheTenant → list FieldError) :=
  [rejectReservedProbeTenantID].

Definition collectCacheTenantSpecErrors := collectSpecErrors DefaultCacheTenantValidationRules.

Definition checkTenantIDUniqueness (v : Validator CacheTenant) (ct : CacheTenant) :
    option (list FieldError) :=
  reader ← v_Reader v;
  match reader (ct_Namespace ct) with
  | ListOK existing =>
      let conflict := foldl (λ c other,
        if str_eqb (ct_Name other) (ct_Name ct) then c
        else if str_eqb (ct_TenantID other) (ct_TenantID ct) then leastName c (ct_Name other) else c)
        "" existing in
      Some (if str_eqb conflict "" then []
            else [mkFieldError ErrorTypeInvalid "spec.tenantID" (BadString (ct_TenantID ct))
                    ("tenantID is already claimed by CacheTenant " +:+ quote conflict +:+ " in namespace " +:+
                     quote (ct_Namespace ct) +:+ "; pick a unique tenantID or edit the existing tenant.")])
  | _ => None
  end.

Definition ValidateCreateTenant (v : Validator CacheTenant) (ct : CacheTenant) : Verdict :=
  let errs := collectCacheTenantSpecErrors (v_Rules v) ct in
  match checkTenantIDUniqueness v ct with
  | None => CheckFailed
  | Some dupErrs => verdictOf (errs ++ dupErrs)
  end.

Definition ValidateUpdateTenant (v : Validator CacheTenant) (oldCT newCT : CacheTenant) : Verdict :=
  let newErrs := collectCacheTenantSpecErrors (v_Rules v) newCT in
  let oldErrs := collectCacheTenantSpecErrors (v_Rules v) oldCT in
  let errs := filterIntroducedErrors oldErrs newErrs in
  if negb (str_eqb (ct_TenantID newCT) (ct_TenantID oldCT)) then
    match checkTenantIDUniqueness v newCT with
    | None => CheckFailed
    | Some dupErrs => verdictOf (errs ++ dupErrs)
    end
  else verdictOf errs.

Definition ValidateDeleteTenant (v : Validator CacheTenant) (ct : CacheTenant) : Verdict := Accepted.
End validators.

(** ** The apiserver serving one request after another *)

(** A validator with the live reader over the cluster. *)
Definition livePolicies (rules : list (CachePolicy → list FieldError)) (c : list CachePolicy) :
    Validator CachePolicy :=
  mkValidator rules (Some (λ ns, ListOK (List.filter (inNamespace ns) c))).
Definition liveTenants (rules : list (CacheTenant → list FieldError)) (c : list CacheTenant) :
    Validator CacheTenant :=
  mkValidator rules (Some (λ ns, ListOK (List.filter (λ ct, str_eqb (ct_Namespace ct) ns) c))).

Section cluster.
Context (quote : string → string).

(** Requests the webhook accepts; the apiserver refuses an empty name, a second object of a
    name, and an update that renames. *)
Inductive policyStep (rules : list (CachePolicy → list FieldError)) :
    list CachePolicy → list CachePolicy → Prop :=
  | policy_create c cp :
      cp_Name cp ≠ "" → cpKey cp ∉ cpKey <$> c →
      ValidateCreatePolicy quote (livePolicies rules c) cp = Accepted →
      policyStep rules c (cp :: c)
  | policy_update l1 l2 old new :
      cpKey new = cpKey old →
      ValidateUpdatePolicy (livePolicies rules (l1 ++ old :: l2)) old new = Accepted →
      policyStep rules (l1 ++ old :: l2) (l1 ++ new :: l2)
  | policy_delete l1 l2 cp :
      ValidateDeletePolicy (livePolicies rules (l1 ++ cp :: l2)) cp = Accepted →
      policyStep rules (l1 ++ cp :: l2) (l1 ++ l2).

Inductive tenantStep (rules : list (CacheTenant → list FieldError)) :
    list CacheTenant → list CacheTenant → Prop :=
  | tenant_create c ct :
      ct_Name ct ≠ "" → ctKey ct ∉ ctKey <$> c →
      ValidateCreateTenant quote (liveTenants rules c) ct = Accepted →
      tenantStep rules c (ct :: c)
  | tenant_update l1 l2 old new :
      ctKey new = ctKey old →
      ValidateUpdateTenant quote (liveTenants rules (l1 ++ old :: l2)) old new = Accepted →
      tenantStep rules (l1 ++ old :: l2) (l1 ++ new :: l2)
  | tenant_delete l1 l2 ct :
      ValidateDeleteTenant (liveTenants rules (l1 ++ ct :: l2)) ct = Accepted →
      tenantStep rules (l1 ++ ct :: l2) (l1 ++ l2).

(** ** What the checks decide *)

Lemma leastName_nonempty c other : other ≠ "" → leastName c other ≠ "".
Proof.
  unfold leastName. intros Ho. destruct (str_eqb c "") eqn:E; simpl; [done|].
  apply str_eqb_neq in E. by destruct (str_lt other c).
Qed.

(** The name of the conflict is empty exactly when no object conflicts. *)
Lemma conflict_empty {A : Type} (name : A → string) (bad : A → bool) l c :
  Forall (λ x, name x ≠ "") l →
  foldl (λ c x, if bad x then leastName c (name x) else c) c l = "" ↔ c = "" ∧ Forall (λ x, bad x = false) l.
Proof.
  intros Hl. revert c. induction Hl as [|x l Hx Hl IH]; intros c; simpl; [naive_solver|].
  rewrite IH, Forall_cons. destruct (bad x); [|tauto].
  pose proof (leastName_nonempty c (name x) Hx). naive_solver.
Qed.

Lemma foldl_ext_fun {A B : Type} (f g : B → A → B) b l :
  (∀ c x, f c x = g c x) → foldl f b l = foldl g b l.
Proof. intros H. revert b. induction l as [|x l IH]; intros b; simpl; [done|]. by rewrite H, IH. Qed.

Lemma verdictOf_admitted errs : verdictOf errs = Accepted ↔ errs = [].
Proof. by destruct errs. Qed.

Lemma single_policy_check rules c cp :
  Forall (λ x, cp_Name x ≠ "") c →
  checkSinglePolicyPerNamespace quote (livePolicies rules c) cp = Some [] ↔
  ∀ other, other ∈ c → cp_Namespace other = cp_Namespace cp → cp_Name other = cp_Name cp.
Proof.
  intros Hn. unfold checkSinglePolicyPerNamespace. simpl. set (conflict := foldl _ _ _).
  assert (conflict = "" ↔ ∀ other, other ∈ c → cp_Namespace other = cp_Namespace cp → cp_Name other = cp_Name cp)
    as Hc.
  { unfold conflict. rewrite (foldl_ext_fun _ (λ c x, if negb (str_eqb (cp_Name x) (cp_Name cp))
      then leastName c (cp_Name x) else c)) by (intros ? x; by destruct (str_eqb _ _)).
    rewrite (conflict_empty cp_Name (λ x, negb (str_eqb (cp_Name x) (cp_Name cp)))).
    - rewrite Forall_forall. setoid_rewrite elem_of_List_filter. unfold inNamespace.
      setoid_rewrite str_eqb_eq. setoid_rewrite negb_false_iff. setoid_rewrite str_eqb_eq.
      split; [intros [_ H] other ? ?; by apply H|intros H; split; [done|]; intros x [? ?]; by apply H].
    - apply Forall_forall. intros x [_ Hx]%elem_of_List_filter. rewrite Forall_forall in Hn. auto. }
  rewrite <-Hc. destruct (str_eqb conflict "") eqn:E.
  - by apply str_eqb_eq in E.
  - apply str_eqb_neq in E. by split.
Qed.

Lemma tenant_unique_check rules c ct :
  Forall (λ x, ct_Name x ≠ "") c →
  checkTenantIDUniqueness quote (liveTenants rules c) ct = Some [] ↔
  ∀ other, other ∈ c → ct_Namespace other = ct_Namespace ct → ct_TenantID other = ct_TenantID ct →
    ct_Name other = ct_Name ct.
Proof.
  intros Hn. unfold checkTenantIDUniqueness. simpl. set (conflict := foldl _ _ _).
  assert (conflict = "" ↔ ∀ other, other ∈ c → ct_Namespace other = ct_Namespace ct →
    ct_TenantID other = ct_TenantID ct → ct_Name other = ct_Name ct) as Hc.
  { unfold conflict. set (bad := λ x, negb (str_eqb (ct_Name x) (ct_Name ct)) &&
      str_eqb (ct_TenantID x) (ct_TenantID ct)).
    rewrite (foldl_ext_fun _ (λ c x, if bad x then leastName c (ct_Name x) else c))
      by (intros ? x; unfold bad; destruct (str_eqb (ct_Name x) _); [done|]; by destruct (str_eqb _ _)).
    rewrite (conflict_empty ct_Name bad).
    - rewrite Forall_forall. setoid_rewrite elem_of_List_filter. unfold bad.
      setoid_rewrite andb_false_iff. setoid_rewrite negb_false_iff.
      setoid_rewrite str_eqb_eq. setoid_rewrite str_eqb_neq. split.
      + intros [_ H] other Ho Hns Hid. by destruct (H other) as [?|?].
      + intros H. split; [done|]. intros x [? ?].
        destruct (decide (ct_TenantID x = ct_TenantID ct)); [left; by apply H|by right].
    - apply Forall_forall. intros x [_ Hx]%elem_of_List_filter. rewrite Forall_forall in Hn. auto. }
  rewrite <-Hc. destruct (str_eqb conflict "") eqn:E.
  - by apply str_eqb_eq in E.
  - apply str_eqb_neq in E. by split.
Qed.

(** From a valid object every violation of the update is new. *)
Lemma filterIntroduced_valid newErrs : filterIntroducedErrors [] newErrs = newErrs.
Proof.
  unfold filterIntroducedErrors. induction newErrs as [|e l IH]; [done|]. cbn [List.filter].
  rewrite bool_decide_false by (by intros ?%elem_of_nil). cbn [negb]. by rewrite IH.
Qed.

(** ** Invariants of sequential admission *)

Record policies_ok (rules : list (CachePolicy → list FieldError)) (c : list CachePolicy) : Prop := {
  po_single : NoDup (cp_Namespace <$> c);
  po_named : Forall (λ cp, cp_Name cp ≠ "") c;
  po_valid : Forall (λ cp, collectCachePolicySpecErrors rules cp = []) c
}.

Record tenants_ok (rules : list (CacheTenant → list FieldError)) (c : list CacheTenant) : Prop := {
  to_keys : NoDup (ctKey <$> c);
  to_unique : NoDup ((λ ct, (ct_Namespace ct, ct_TenantID ct)) <$> c);
  to_named : Forall (λ ct, ct_Name ct ≠ "") c;
  to_valid : Forall (λ ct, collectCacheTenantSpecErrors rules ct = []) c
}.

Lemma policies_ok_step rules c c' : policies_ok rules c → policyStep rules c c' → policies_ok rules c'.
Proof.
  intros [Hs Hn Hv] Hstep. destruct Hstep as [c cp Hne Hkey Ha|l1 l2 old new Hk Ha|l1 l2 cp _].
  - unfold ValidateCreatePolicy in Ha. destruct (checkSinglePolicyPerNamespace _ _ cp) as [errs|] eqn:Ec; [|done].
    apply verdictOf_admitted, app_eq_nil in Ha as [He ->].
    rewrite single_policy_check in Ec by done.
    split; [|by constructor..]. simpl. apply NoDup_cons. split; [|done].
    intros (other & Hns & Ho)%list_elem_of_fmap. apply Hkey, list_elem_of_fmap. exists other. split; [|done].
    unfold cpKey. rewrite Hns, (Ec other Ho) by done. done.
  - assert (cp_Namespace new = cp_Namespace old ∧ cp_Name new = cp_Name old) as [Hns Hnm] by (by injection Hk).
    rewrite !Forall_app, !Forall_cons in Hn, Hv. destruct Hn as (Hn1 & Hn2 & Hn3), Hv as (Hv1 & Hv2 & Hv3).
    split.
    + rewrite fmap_app, fmap_cons, Hns, <-fmap_cons, <-fmap_app. done.
    + rewrite Forall_app, Forall_cons, Hnm. done.
    + rewrite Forall_app, Forall_cons. split_and!; [done| |done]. revert Ha. unfold ValidateUpdatePolicy.
      cbn [v_Rules livePolicies]. rewrite Hv2, filterIntroduced_valid.
      destruct (collectCachePolicySpecErrors rules new); [done|]. by intros.
  - rewrite !Forall_app, !Forall_cons in Hn, Hv. split; [|apply Forall_app; tauto..].
    rewrite fmap_app, fmap_cons, <-Permutation_middle in Hs. apply NoDup_cons in Hs as [_ Hs].
    by rewrite fmap_app.
Qed.

Lemma tenants_ok_step rules c c' : tenants_ok rules c → tenantStep rules c c' → tenants_ok rules c'.
Proof.
  intros [Hk Hu Hn Hv] Hstep. destruct Hstep as [c ct Hne Hkey Ha|l1 l2 old new Hkk Ha|l1 l2 ct _].
  - unfold ValidateCreateTenant in Ha. destruct (checkTenantIDUniqueness _ _ ct) as [errs|] eqn:Ec; [|done].
    apply verdictOf_admitted, app_eq_nil in Ha as [He ->].
    rewrite tenant_unique_check in Ec by done.
    split; [by apply NoDup_cons| |by constructor..]. simpl. apply NoDup_cons. split; [|done].
    intros (other & [= Hns Hid] & Ho)%list_elem_of_fmap. apply Hkey, list_elem_of_fmap. exists other.
    split; [|done]. unfold ctKey. rewrite Hns, (Ec other Ho) by done. done.
  - assert (ct_Namespace new = ct_Namespace old ∧ ct_Name new = ct_Name old) as [Hns Hnm] by (by injection Hkk).
    pose proof Hn as Hn'. rewrite !Forall_app, !Forall_cons in Hn', Hv.
    destruct Hn' as (Hn1 & Hn2 & Hn3), Hv as (Hv1 & Hv2 & Hv3).
    unfold ValidateUpdateTenant in Ha. cbn [v_Rules liveTenants] in Ha. rewrite Hv2, filterIntroduced_valid in Ha.
    assert (collectCacheTenantSpecErrors rules new = [] ∧ (ct_TenantID new ≠ ct_TenantID old →
      ∀ other, other ∈ l1 ++ old :: l2 → ct_Namespace other = ct_Namespace new →
        ct_TenantID other = ct_TenantID new → ct_Name other = ct_Name new)) as [He Hc].
    { destruct (str_eqb (ct_TenantID new) (ct_TenantID old)) eqn:E; cbn [negb] in Ha.
      - apply str_eqb_eq in E. by apply verdictOf_admitted in Ha.
      - destruct (checkTenantIDUniqueness _ _ new) as [errs|] eqn:Ec; [|done].
        apply verdictOf_admitted, app_eq_nil in Ha as [He ->].
        rewrite tenant_unique_check in Ec by done. done. }
    split.
    + rewrite fmap_app, fmap_cons, Hkk, <-fmap_cons, <-fmap_app. done.
    + rewrite fmap_app, fmap_cons in Hu |- *. rewrite <-Permutation_middle in Hu |- *.
      apply NoDup_cons in Hu as [Hu1 Hu2]. apply NoDup_cons. split; [|done].
      destruct (decide (ct_TenantID new = ct_TenantID old)) as [E|E]; [by rewrite E, Hns|].
      rewrite <-fmap_app. intros (other & [= Hons Hoid] & Ho)%list_elem_of_fmap.
      assert (other ∈ l1 ++ old :: l2) as Ho' by (rewrite elem_of_app, elem_of_cons; apply elem_of_app in Ho; tauto).
      assert (ctKey other = ctKey old) as Hoo.
      { unfold ctKey. rewrite (Hc E other Ho') by done. by rewrite <-Hons, Hns, Hnm. }
      rewrite fmap_app, fmap_cons, <-Permutation_middle in Hk. apply NoDup_cons in Hk as [Hk1 _].
      apply Hk1. rewrite <-fmap_app, <-Hoo. apply list_elem_of_fmap. eauto.
    + rewrite Forall_app, Forall_cons, Hnm. done.
    + rewrite Forall_app, Forall_cons. done.
  - rewrite !Forall_app, !Forall_cons in Hn, Hv. split; [..|apply Forall_app; tauto|apply Forall_app; tauto].
    + rewrite fmap_app, fmap_cons, <-Permutation_middle in Hk. apply NoDup_cons in Hk as [_ Hk]. by rewrite fmap_app.
    + rewrite fmap_app, fmap_cons, <-Permutation_middle in Hu. apply NoDup_cons in Hu as [_ Hu]. by rewrite fmap_app.
Qed.
End cluster.

Lemma policies_reachable_ok quote rules c : rtc (policyStep quote rules) [] c → policies_ok rules c.
Proof.
  apply rtc_ind_r; [split; by constructor|]. intros ? ? _ ? ?. by eapply policies_ok_step.
Qed.

Lemma tenants_reachable_ok quote rules c : rtc (tenantStep quote rules) [] c → tenants_ok rules c.
Proof.
  apply rtc_ind_r; [split; by constructor|]. intros ? ? _ ? ?. by eapply tenants_ok_step.
Qed.

(** The only policy of its namespace is the effective one. *)
Lemma single_effective c cp :
  NoDup (cp_Namespace <$> c) → cp ∈ c → leastBy cpKey (inNamespace (cp_Namespace cp)) c = Some cp.
Proof.
  intros Hs Hc. apply leastBy_unique; [|done|apply str_eqb_refl|].
  - apply (NoDup_fmap_1 fst). by rewrite <-list_fmap_compose.
  - intros y Hy Hns%str_eqb_eq. assert (y = cp) as -> by (by apply (NoDup_key_inj cp_Namespace c)).
    unfold nnLess. rewrite str_eqb_refl. apply str_lt_irrefl.
Qed.

(** C37: No admitted CachePolicy is silently ignored: when requests are admitted one after
    another, every stored policy is the only one of its namespace and is the one the server
    enforces after a push of the stored objects, its TTL, when set, is positive, and it does
    not require chains while disabling the chain matcher. *)
Theorem admitted_policies_in_force quote c ts s cp :
  rtc (policyStep quote []) [] c → enforces c ts s → cp ∈ c → cp_Namespace cp ≠ "" →
  settingsOf s (cp_Namespace cp) = crSettings cp ∧
  (∀ cp', cp' ∈ c → cp_Namespace cp' = cp_Namespace cp → cp' = cp) ∧
  (∀ d, ps_EvictionTTL (cp_Spec cp) = Some d → 0 < set_TTL (settingsOf s (cp_Namespace cp))) ∧
  (set_Require (settingsOf s (cp_Namespace cp)) = true → set_Chain (settingsOf s (cp_Namespace cp)) = true).
Proof.
  intros [Hs _ Hv]%policies_reachable_ok [Hset _] Hc Hns.
  assert (settingsOf s (cp_Namespace cp) = crSettings cp) as E.
  { rewrite Hset by done. by rewrite single_effective. }
  rewrite Forall_forall in Hv. specialize (Hv cp Hc). unfold collectCachePolicySpecErrors, collectSpecErrors in Hv.
  simpl in Hv. apply app_eq_nil in Hv as [Httl Hst]. rewrite app_nil_r in Hst. rewrite E. split_and!; [done|..].
  - intros cp' Hc' Hn. by apply (NoDup_key_inj cp_Namespace c).
  - intros d Hd. unfold rejectNonPositiveEvictionTTL in Httl. rewrite Hd in Httl. unfold crSettings. simpl.
    rewrite Hd. simpl. destruct (Z.ltb_spec 0 d); [done|discriminate].
  - unfold rejectIncoherentStrategy in Hst. unfold crSettings. simpl.
    destruct (ps_Strategy (cp_Spec cp)) as [[[[]|] [[]|] h]|]; simpl in *; done.
Qed.

(** Admitted CacheTenants never collide inside a namespace: no two objects of one
    namespace claim a tenantID, so an object is only ever shadowed by an owner in another
    namespace, and none claims the reserved probe tenant. *)
Theorem admitted_tenants_unique quote c ct :
  rtc (tenantStep quote []) [] c → ct ∈ c →
  (∀ ct', ct' ∈ c → ct_Namespace ct' = ct_Namespace ct → ct_TenantID ct' = ct_TenantID ct → ct' = ct) ∧
  ct_TenantID ct ≠ ProbeTenantID ∧
  (∀ owner, shadow (effectiveTenantOwners c) ct = Some owner → owner.1 ≠ ct_Namespace ct).
Proof.
  intros [Hk Hu _ Hv]%tenants_reachable_ok Hc.
  assert (∀ ct', ct' ∈ c → ct_Namespace ct' = ct_Namespace ct → ct_TenantID ct' = ct_TenantID ct → ct' = ct) as Huniq.
  { intros ct' Hc' H1 H2. apply (NoDup_key_inj (λ ct, (ct_Namespace ct, ct_TenantID ct)) c); [done..|congruence]. }
  split_and!; [done|..].
  - rewrite Forall_forall in Hv. specialize (Hv ct Hc). unfold collectCacheTenantSpecErrors, collectSpecErrors in Hv.
    simpl in Hv. unfold rejectReservedProbeTenantID in Hv.
    destruct (str_eqb (ct_TenantID ct) ProbeTenantID) eqn:E; [done|]. by apply str_eqb_neq in E.
  - intros owner Hsh. pose proof (shadow_cases c ct Hk Hc) as H. rewrite Hsh in H.
    destruct H as (ct' & Hc' & Hne & <- & Hl). intros Hns. apply Hne, Huniq; [done..|].
    pose proof (leastBy_spec ctKey (quotaFor (ct_TenantID ct)) c Hk) as H. rewrite Hl in H.
    destruct H as (_ & [_ Hid]%andb_true_iff & _). by apply str_eqb_eq.
Qed.

(** An update of a CachePolicy is refused exactly for the violations it introduces: an
    object that already violates a rule stays editable as long as no further violation
    appears, whatever the rules and even without a reader. *)
Theorem update_refuses_introduced v old new :
  (ValidateUpdatePolicy v old new = Accepted ↔
     ∀ e, e ∈ collectCachePolicySpecErrors (v_Rules v) new → e ∈ collectCachePolicySpecErrors (v_Rules v) old) ∧
  (∀ errs, ValidateUpdatePolicy v old new = Invalid errs →
     ∀ e, e ∈ errs ↔ e ∈ collectCachePolicySpecErrors (v_Rules v) new ∧
                     e ∉ collectCachePolicySpecErrors (v_Rules v) old).
Proof.
  unfold ValidateUpdatePolicy. set (ne := collectCachePolicySpecErrors (v_Rules v) new).
  set (oe := collectCachePolicySpecErrors (v_Rules v) old).
  assert (∀ e, e ∈ filterIntroducedErrors oe ne ↔ e ∈ ne ∧ e ∉ oe) as Hf.
  { intros e. unfold filterIntroducedErrors. rewrite elem_of_List_filter, negb_true_iff, bool_decide_eq_false. tauto. }
  destruct ne as [|e0 ne'] eqn:En.
  { simpl. split; [|done]. split; [by intros _ e ?%elem_of_nil|done]. }
  rewrite <-En in *. replace (length ne =? 0)%nat with false by (by rewrite En). split.
  - rewrite verdictOf_admitted. split.
    + intros Hnil e He. destruct (decide (e ∈ oe)); [done|].
      assert (e ∈ filterIntroducedErrors oe ne) as Hin by (by apply Hf). rewrite Hnil in Hin. by apply elem_of_nil in Hin.
    + intros Hall. destruct (filterIntroducedErrors oe ne) as [|e l]; [done|].
      destruct (proj1 (Hf e) ltac:(left)) as [? []]. by apply Hall.
  - intros errs. destruct (filterIntroducedErrors oe ne) as [|e l]; [done|]. intros [= <-]. exact Hf.
Qed.

(** ** Witnesses *)

Lemma admitted_policies_in_force_witness :
  let cp := samplePolicy "a" "p1" (Some "0.25") in
  ∃ s, settingsOf s "a" = crSettings cp ∧ 0 < set_TTL (settingsOf s "a").
Proof.
  set (cp := samplePolicy "a" "p1" (Some "0.25")). exists (served [cp] [] NewPolicyStore).
  destruct (admitted_policies_in_force id [cp] [] (served [cp] [] NewPolicyStore) cp) as (H1 & _ & H2 & _).
  - apply rtc_once, policy_create; [done|vm_compute; apply not_elem_of_nil|vm_compute; reflexivity].
  - apply replace_enforces; vm_compute; repeat (constructor; [set_solver|]); constructor.
  - left.
  - done.
  - split; [exact H1|]. exact (H2 Minute eq_refl).
Defined.

Lemma admitted_tenants_unique_witness :
  let c := [sampleTenant "b" "x" "t" (Some 7); sampleTenant "a" "y" "t" (Some 5)] in
  shadow (effectiveTenantOwners c) (sampleTenant "b" "x" "t" (Some 7)) = Some ("a", "y") ∧ "a" ≠ "b".
Proof.
  split; [vm_compute; reflexivity|].
  apply (proj2 (proj2 (admitted_tenants_unique id
    [sampleTenant "b" "x" "t" (Some 7); sampleTenant "a" "y" "t" (Some 5)] (sampleTenant "b" "x" "t" (Some 7))
    ltac:(eapply rtc_l; [apply (tenant_create id [] [] (sampleTenant "a" "y" "t" (Some 5)));
                           [done|vm_compute; apply not_elem_of_nil|vm_compute; reflexivity]|];
          apply rtc_once, tenant_create; [done|vm_compute; set_solver|vm_compute; reflexivity])
    ltac:(left))) ("a", "y")).
  vm_compute. reflexivity.
Defined.
