(* ===== verification/Subscriber.v ===== *)
(** * The KV-event subscriber (internal/subscriber)

    Config (adapter resolution, validation), the positional index that turns engine
    block events into our own prefix hashes, the mapper that stamps identities on the
    messages, the reporter loop that batches adds and orders removals, and the stats
    reporter's staleness machine.  The loop's inputs are decoded batches, ticks and
    shutdown; its outputs are the messages it sends, in order.  XXH3 is a parameter;
    ZMQ transport and msgpack decoding are not modelled: the loop starts from decoded
    events. *)

From Stdlib Require Import SpecFloat.
From S2P Require Import Prelude Ordering GoRuntime Floats IndexTypes Fingerprint Service.

(** ** Config *)

Record Config := mkConfig {
  c_ReplicaID : string;
  c_ModelID : string;
  c_TenantID : string;
  c_HashScheme : string;
  c_AdapterNames : gmap Z string
}.

(** [None] is [ok=false]: drop the event. *)
Definition AdapterID (c : Config) (loraID : option Z) : option string :=
  match loraID with
  | None => Some ""
  | Some id =>
      match c_AdapterNames c !! id with
      | Some name => if str_eqb name "" then None else Some name
      | None => None
      end
  end.

Inductive ConfigError := ReplicaIDRequired | ModelIDRequired | HashSchemeRequired.

Definition Validate (c : Config) : option ConfigError :=
  if str_eqb (c_ReplicaID c) "" then Some ReplicaIDRequired
  else if str_eqb (c_ModelID c) "" then Some ModelIDRequired
  else if str_eqb (c_HashScheme c) "" then Some HashSchemeRequired
  else None.

(** ** Events *)

Record BlockStored := mkBlockStored {
  bs_BlockHashes : list string;
  bs_ParentBlockHash : option string;
  bs_TokenIDs : list Z;
  bs_BlockSize : Z;
  bs_LoRAID : option Z
}.

Inductive EngineEvent :=
  | EvStored (e : BlockStored)
  | EvRemoved (BlockHashes : list string)
  | EvCleared.

Record EventBatch := mkEventBatch { eb_TimestampSeconds : f64; eb_Events : list EngineEvent }.

(** ** The positional index *)

Record posEntry := mkPosEntry {
  po_prefixHash : Z;
  po_tokenCount : Z;
  po_adapter : string
}.

Notation positionalIndex := (gmap string posEntry).

Record EvictedPrefix := mkEvictedPrefix {
  ep_PrefixHash : string;
  ep_AdapterID : string;
  ep_TokenCount : Z
}.

Definition CacheTierT1 : Z := 1.
Definition CacheTierT2 : Z := 2.

(** The loop over the event's blocks: the entries emitted and the reverse map. *)
Fixpoint storeLoop (bs : Z) (adapterID : string) (phs : list Z) (hashes : list string)
    (tokens : Z) (p : positionalIndex) : list PrefixEntry * positionalIndex :=
  match phs, hashes with
  | ph :: phs', h :: hashes' =>
      let tokens := wrap32 (tokens + wrap32 bs) in
      let '(out, p') :=
        storeLoop bs adapterID phs' hashes' tokens (<[h := mkPosEntry ph tokens adapterID]> p) in
      (mkPrefixEntry (Bytes ph) tokens [] [] adapterID CacheTierT1 :: out, p')
  | _, _ => ([], p)
  end.

Definition parentOf (p : positionalIndex) (ev : BlockStored) : option posEntry :=
  h ← bs_ParentBlockHash ev; p !! h.

Definition Stored (xxh3 : string → Z → Z) (ev : BlockStored) (adapterID : string)
    (p : positionalIndex) : list PrefixEntry * positionalIndex :=
  let bs := bs_BlockSize ev in
  if (bs <=? 0) || (length (bs_BlockHashes ev) =? 0)%nat then ([], p)
  else
    let parent := parentOf p ev in
    let parentPrefix := default 0 (po_prefixHash <$> parent) in
    let parentTokens := default 0 (po_tokenCount <$> parent) in
    let phs :=
      PrefixHashesFrom xxh3 (bs_TokenIDs ev) bs parentPrefix (bool_decide (is_Some parent)) in
    if negb (length phs =? length (bs_BlockHashes ev))%nat then ([], p)
    else storeLoop bs adapterID phs (bs_BlockHashes ev) parentTokens p.

Definition removeStep (acc : list EvictedPrefix * positionalIndex) (h : string) :
    list EvictedPrefix * positionalIndex :=
  let '(out, p) := acc in
  match p !! h with
  | Some pe =>
      (out ++ [mkEvictedPrefix (Bytes (po_prefixHash pe)) (po_adapter pe) (po_tokenCount pe)],
       delete h p)
  | None => (out, p)
  end.

Definition Removed (hashes : list string) (p : positionalIndex) :
    list EvictedPrefix * positionalIndex := foldl removeStep ([], p) hashes.

Definition Cleared (p : positionalIndex) : positionalIndex := ∅.

(** ** The mapper *)

(** Go's [int64(f)] on amd64: truncation, and the minimum for what does not fit. *)
Definition int64_of_f64 (x : f64) : Z :=
  match x with
  | S754_zero _ => 0
  | S754_finite s m e =>
      let a := if 0 <=? e then Z.pos m * 2 ^ e else Z.pos m / 2 ^ (- e) in
      let v := if s then - a else a in
      if (MinInt64 <=? v) && (v <=? MaxInt64) then v else MinInt64
  | _ => MinInt64
  end.

Definition microsFromSeconds (s : f64) : Z :=
  if fle s (S754_zero false) then 0 else int64_of_f64 (f64_mul s (f64_of_Z 1000000)).

Definition UpdateMsg (c : Config) (tsUs : Z) (prefixes : list PrefixEntry) :
    option CacheStateUpdate :=
  if (length prefixes =? 0)%nat then None
  else Some (mkCacheStateUpdate (c_ReplicaID c) (c_ModelID c) (c_TenantID c) (c_HashScheme c) ""
               tsUs prefixes None).

Definition StatsUpdate (c : Config) (tsUs : Z) (st : option StatsMsg) : option CacheStateUpdate :=
  match st with
  | None => None
  | Some st =>
      Some (mkCacheStateUpdate (c_ReplicaID c) (c_ModelID c) (c_TenantID c) (c_HashScheme c) ""
              tsUs []
              (Some (mkStatsMsg (sm_CacheMemoryBytes st) (sm_HitRate st) (sm_Pressure st)
                       (sm_T2HitTokens st) (sm_T2QueryTokens st))))
  end.

Definition evAllCleared : Z := 4.
Definition evPrefixEvicted : Z := 2.

Definition ClearedEvent (c : Config) (tsSeconds : f64) : CacheEvent :=
  mkCacheEvent evAllCleared (c_ReplicaID c) (c_ModelID c) (c_TenantID c) "" ""
    (microsFromSeconds tsSeconds).

Definition EvictedEvent (c : Config) (prefixHash adapterID : string) (tsSeconds : f64) : CacheEvent :=
  mkCacheEvent evPrefixEvicted (c_ReplicaID c) (c_ModelID c) (c_TenantID c) prefixHash adapterID
    (microsFromSeconds tsSeconds).

(** ** The reporter *)

(** A message the reporter sends: one update on its own stream, or one event. *)
Inductive Msg :=
  | MsgUpdate (u : CacheStateUpdate)
  | MsgEvent (ev : CacheEvent).

Record Reporter := mkReporter {
  rp_pos : positionalIndex;
  rp_warnedAdapters : gset Z;
  rp_pending : list PrefixEntry;
  rp_pendTs : Z
}.

Definition NewReporter : Reporter := mkReporter ∅ ∅ [] 0.

Definition set_pending (ps : list PrefixEntry) (ts : Z) (r : Reporter) : Reporter :=
  mkReporter (rp_pos r) (rp_warnedAdapters r) ps ts.
Definition set_pos (p : positionalIndex) (r : Reporter) : Reporter :=
  mkReporter p (rp_warnedAdapters r) (rp_pending r) (rp_pendTs r).

(** What the loop receives until its input closes or the context ends. *)
Inductive Input :=
  | InBatch (b : EventBatch)
  | InTick.

Section reporter.
Context (xxh3 : string → Z → Z) (c : Config) (l2TierPresent : bool) (maxPend : nat).

Definition sendAdds (prefixes : list PrefixEntry) (tsUs : Z) : list Msg :=
  match UpdateMsg c tsUs prefixes with Some u => [MsgUpdate u] | None => [] end.

Definition flush (r : Reporter) : Reporter * list Msg :=
  if (length (rp_pending r) =? 0)%nat then (r, [])
  else (set_pending [] 0 r, sendAdds (rp_pending r) (rp_pendTs r)).

Definition warnUnmappedAdapter (loraID : option Z) (r : Reporter) : Reporter :=
  match loraID with
  | None => r
  | Some id => mkReporter (rp_pos r) ({[id]} ∪ rp_warnedAdapters r) (rp_pending r) (rp_pendTs r)
  end.

Definition onStored (tsUs : Z) (e : BlockStored) (r : Reporter) : Reporter * list Msg :=
  match AdapterID c (bs_LoRAID e) with
  | None => (warnUnmappedAdapter (bs_LoRAID e) r, [])
  | Some adapterID =>
      let '(entries, pos) := Stored xxh3 e adapterID (rp_pos r) in
      let r := set_pos pos r in
      let r := set_pending (rp_pending r ++ entries) (if 0 <? tsUs then tsUs else rp_pendTs r) r in
      if (maxPend <=? length (rp_pending r))%nat then flush r else (r, [])
  end.

(** The entry an offloaded block is re-reported as. *)
Definition downgrade (ep : EvictedPrefix) : PrefixEntry :=
  mkPrefixEntry (ep_PrefixHash ep) (ep_TokenCount ep) [] [] (ep_AdapterID ep) CacheTierT2.

Definition onRemoved (ts : f64) (hashes : list string) (r : Reporter) : Reporter * list Msg :=
  let '(evicted, pos) := Removed hashes (rp_pos r) in
  let r := set_pos pos r in
  if l2TierPresent then
    if (length evicted =? 0)%nat then (r, [])
    else
      let '(r, out) := flush r in
      (r, out ++ sendAdds (downgrade <$> evicted) (microsFromSeconds ts))
  else
    let '(r, out) := flush r in
    (r, out ++ ((λ ep, MsgEvent (EvictedEvent c (ep_PrefixHash ep) (ep_AdapterID ep) ts)) <$> evicted)).

Definition onCleared (ts : f64) (r : Reporter) : Reporter * list Msg :=
  (set_pos (Cleared (rp_pos r)) (set_pending [] 0 r), [MsgEvent (ClearedEvent c ts)]).

Definition onEvent (ts : f64) (r : Reporter) (ev : EngineEvent) : Reporter * list Msg :=
  match ev with
  | EvStored e => onStored (microsFromSeconds ts) e r
  | EvRemoved hashes => onRemoved ts hashes r
  | EvCleared => onCleared ts r
  end.

(** Runs a step function over a list, collecting the messages. *)
Definition runSteps {A : Type} (f : Reporter → A → Reporter * list Msg) (r : Reporter) (l : list A) :
    Reporter * list Msg :=
  foldl (λ '(r, out) x, let '(r', out') := f r x in (r', out ++ out')) (r, []) l.

Definition onInput (r : Reporter) (inp : Input) : Reporter * list Msg :=
  match inp with
  | InBatch b => runSteps (onEvent (eb_TimestampSeconds b)) r (eb_Events b)
  | InTick => flush r
  end.

(** The whole run: the inputs received, then the deferred final flush. *)
Definition ReporterRun (inputs : list Input) : Reporter * list Msg :=
  let '(r, out) := runSteps onInput NewReporter inputs in
  let '(r, out') := flush r in
  (r, out ++ out').
End reporter.

(** ** The stats reporter *)

(** What one tick logs about staleness. *)
Inductive StatsLog := LogStale (everDelivered : bool) | LogStillStale | LogWarn | LogRecovered.

Record StatsReporter := mkStatsReporter { sr_consecFails : Z; sr_everDelivered : bool }.

Definition staleThreshold : Z := 3.

Definition NewStatsReporter : StatsReporter := mkStatsReporter 0 false.

Definition markStale (r : StatsReporter) : StatsReporter * list StatsLog :=
  let n := sr_consecFails r + 1 in
  (mkStatsReporter n (sr_everDelivered r),
   if n =? staleThreshold then [LogStale (sr_everDelivered r)]
   else if staleThreshold <? n then [LogStillStale] else [LogWarn]).

Definition markDelivered (r : StatsReporter) : StatsReporter * list StatsLog :=
  (mkStatsReporter 0 true, if staleThreshold <=? sr_consecFails r then [LogRecovered] else []).

(** What the outside world answers to one tick. *)
Record TickOutcome := mkTickOutcome {
  tk_scraped : option (option StatsMsg);   (* None: the scrape failed *)
  tk_openFailed : bool;                    (* opening the stream failed *)
  tk_closeFailed : bool;                   (* CloseAndRecv failed *)
  tk_ack : option bool;                    (* the ack, with its accepted flag *)
  tk_sendFailed : bool                     (* Send failed with neither EOF nor cancellation *)
}.

Definition statsSend (o : TickOutcome) : bool :=
  if tk_openFailed o then false
  else if tk_closeFailed o then false
  else
    match tk_ack o with
    | Some false => false
    | _ => negb (tk_sendFailed o)
    end.

Definition statsTick (c : Config) (nowUs : Z) (r : StatsReporter) (o : TickOutcome) :
    StatsReporter * list StatsLog :=
  match tk_scraped o with
  | None => markStale r
  | Some st =>
      match StatsUpdate c nowUs st with
      | None => markStale r
      | Some _ => if statsSend o then markDelivered r else markStale r
      end
  end.

(** ** Stored events and the chain of a prompt *)

Section stored.
Context (xxh3 : string → Z → Z) (bs : Z) (adapterID : string).

(** The entries of a run of blocks that continues a sequence of [t] tokens whose last
    prefix hash is [ph] ([has = false]: a fresh sequence). *)
Definition entriesFrom (ph : Z) (has : bool) (t : Z) (tokens : list Z) : list PrefixEntry :=
  imap (λ i h, mkPrefixEntry (Bytes h) (wrap32 (t + Z.of_nat (S i) * bs)) [] [] adapterID CacheTierT1)
    (PrefixHashesFrom xxh3 tokens bs ph has).

Lemma storeLoop_out phs hashes t p :
  length phs = length hashes →
  (storeLoop bs adapterID phs hashes t p).1 =
    imap (λ i h, mkPrefixEntry (Bytes h) (wrap32 (t + Z.of_nat (S i) * bs)) [] [] adapterID
                   CacheTierT1) phs.
Proof.
  revert hashes t p. induction phs as [|ph phs IH]; intros [|h hashes] t p Hlen; simplify_eq/=; [done|].
  set (t' := wrap32 (t + wrap32 bs)) in *.
  specialize (IH hashes t' (<[h:=mkPosEntry ph t' adapterID]> p) Hlen).
  destruct (storeLoop _ _ _ _ _ _) as [out p']. simpl in *. rewrite IH. clear IH.
  assert (∀ z, wrap32 (t' + z) = wrap32 (t + bs + z)) as Ht'.
  { intros z. unfold t'. rewrite wrap32_add_l, <-Z.add_assoc, (Z.add_comm (wrap32 bs)), Z.add_assoc.
    rewrite wrap32_add_r. f_equal. lia. }
  f_equal.
  - f_equal. unfold t'. rewrite wrap32_add_r. f_equal. lia.
  - apply imap_ext. intros i x _. simpl. f_equal. rewrite Ht'. f_equal. lia.
Qed.

(** The last block of the event is remembered with its own hash and count. *)
Lemma storeLoop_last phs hashes t p h ph :
  length phs = length hashes → last hashes = Some h → last phs = Some ph →
  (storeLoop bs adapterID phs hashes t p).2 !! h =
    Some (mkPosEntry ph (wrap32 (t + Z.of_nat (length phs) * bs)) adapterID).
Proof.
  revert hashes t p. induction phs as [|x phs IH]; intros [|y hashes] t p Hlen Hh Hp; simplify_eq/=.
  set (t' := wrap32 (t + wrap32 bs)) in *.
  destruct phs as [|x' phs], hashes as [|y' hashes]; simplify_eq/=.
  - rewrite lookup_insert_eq. do 2 f_equal. unfold t'. rewrite wrap32_add_r. f_equal. lia.
  - specialize (IH (y' :: hashes) t' (<[y:=mkPosEntry x t' adapterID]> p)).
    simpl in IH. destruct (storeLoop _ _ phs hashes _ _) as [out p'']. simpl in *.
    rewrite IH by congruence. do 2 f_equal. unfold t'.
    rewrite wrap32_add_l, <-Z.add_assoc, (Z.add_comm (wrap32 bs)), Z.add_assoc, wrap32_add_r.
    f_equal. lia.
Qed.

Lemma length_PrefixHashes_blocks tokens ph has n :
  0 < bs → length tokens = (n * Z.to_nat bs)%nat →
  length (PrefixHashesFrom xxh3 tokens bs ph has) = n.
Proof. intros Hbs Hl. rewrite PrefixHashesFrom_length, Hl by done. apply Nat.div_mul. lia. Qed.

Lemma entriesFrom_app ph has t t1 t2 n :
  0 < bs → length t1 = (n * Z.to_nat bs)%nat →
  entriesFrom ph has t (t1 ++ t2) =
    entriesFrom ph has t t1 ++
    entriesFrom (lastHash ph (PrefixHashesFrom xxh3 t1 bs ph has)) (has || negb (n =? 0)%nat)
      (t + Z.of_nat n * bs) t2.
Proof.
  intros Hbs Hl. unfold entriesFrom. rewrite (PrefixHashesFrom_app _ t1 t2 bs ph has n) by done.
  cbv zeta. rewrite imap_app, (length_PrefixHashes_blocks t1 ph has n) by done. f_equal.
  apply imap_ext. intros i x _. simpl. f_equal. f_equal. lia.
Qed.

Lemma entriesFrom_wrap ph has t tokens : entriesFrom ph has (wrap32 t) tokens = entriesFrom ph has t tokens.
Proof. apply imap_ext. intros i x _. simpl. f_equal. apply wrap32_add_l. Qed.

(** The blocks of one sequence as the engine reports them: pieces of engine block
    hashes with their tokens, each piece naming the last block of the one before as
    its parent. *)
Fixpoint storePieces (parent : option string) (pieces : list (list string * list Z))
    (p : positionalIndex) : list PrefixEntry * positionalIndex :=
  match pieces with
  | [] => ([], p)
  | (hs, toks) :: pieces' =>
      let '(out, p) := Stored xxh3 (mkBlockStored hs parent toks bs None) adapterID p in
      let '(out', p) := storePieces (last hs) pieces' p in
      (out ++ out', p)
  end.

Definition pieceOK (piece : list string * list Z) : Prop :=
  piece.1 ≠ [] ∧ length piece.2 = (length piece.1 * Z.to_nat bs)%nat.

(** The state of the reverse map under a parent: what the next block chains from. *)
Definition chainsFrom (p : positionalIndex) (parent : option string) (ph : Z) (has : bool) (t : Z) : Prop :=
  match parent ≫= λ h, p !! h with
  | Some pe => has = true ∧ ph = po_prefixHash pe ∧ wrap32 t = wrap32 (po_tokenCount pe)
  | None => has = false ∧ ph = 0 ∧ t = 0
  end.

Lemma Stored_piece p parent ph has t hs toks :
  0 < bs → pieceOK (hs, toks) → chainsFrom p parent ph has t →
  let st := Stored xxh3 (mkBlockStored hs parent toks bs None) adapterID p in
  st.1 = entriesFrom ph has t toks ∧
  chainsFrom st.2 (last hs) (lastHash ph (PrefixHashesFrom xxh3 toks bs ph has)) true
    (t + Z.of_nat (length hs) * bs).
Proof.
  intros Hbs [Hne Hlen] Hc st. cbn [fst snd] in *. unfold st, Stored. clear st. cbn [bs_BlockSize bs_BlockHashes bs_TokenIDs].
  rewrite (proj2 (Z.leb_gt bs 0)) by lia.
  rewrite (proj2 (Nat.eqb_neq (length hs) 0)) by (by destruct hs). cbn [orb].
  unfold parentOf. cbn [bs_ParentBlockHash]. unfold chainsFrom in Hc.
  set (parentEntry := parent ≫= λ h, p !! h) in *.
  assert (default 0 (po_prefixHash <$> parentEntry) = ph ∧
    bool_decide (is_Some parentEntry) = has ∧
    wrap32 (default 0 (po_tokenCount <$> parentEntry)) = wrap32 t) as (-> & -> & Ht).
  { destruct parentEntry as [pe|]; destruct Hc as (-> & -> & Ht); simpl; [|by subst].
    split_and!; [done|done|done]. }
  set (phs := PrefixHashesFrom xxh3 toks bs ph has).
  assert (length phs = length hs) as Hp by (by apply length_PrefixHashes_blocks).
  rewrite Hp, Nat.eqb_refl. cbn [negb].
  set (t' := default 0 _) in *. split.
  - rewrite storeLoop_out by done. unfold phs. fold (entriesFrom ph has t' toks).
    by rewrite <-(entriesFrom_wrap ph has t'), Ht, entriesFrom_wrap.
  - destruct (last hs) as [h|] eqn:Eh; [|by apply last_None in Eh].
    destruct (last phs) as [x|] eqn:Ex; [|apply last_None in Ex; rewrite Ex in Hp; by destruct hs].
    unfold chainsFrom. cbn [mbind option_bind].
    rewrite (storeLoop_last phs hs t' p h x Hp Eh Ex). cbn.
    unfold lastHash. rewrite Ex. split_and!; [done|done|].
    rewrite (wrap32_id (wrap32 _)) by apply wrap32_range.
    by rewrite <-wrap32_add_l, <-Ht, wrap32_add_l, Hp.
Qed.

(** However the engine cuts a sequence into events, the entries are those of the
    whole sequence. *)
Lemma storePieces_entries pieces p parent ph has t :
  0 < bs → Forall pieceOK pieces → chainsFrom p parent ph has t →
  (storePieces parent pieces p).1 = entriesFrom ph has t (concat pieces.*2).
Proof.
  intros Hbs Hok. revert p parent ph has t Hok.
  induction pieces as [|[hs toks] pieces IH]; intros p parent ph has t Hok Hc.
  { pose proof (length_PrefixHashes_blocks [] ph has 0 Hbs eq_refl) as H0.
    apply nil_length_inv in H0. unfold entriesFrom. cbn [fmap list_fmap concat]. by rewrite H0. }
  apply Forall_cons in Hok as [Hok1 Hok].
  destruct (Stored_piece p parent ph has t hs toks Hbs Hok1 Hc) as [Hout Hnext].
  cbn [storePieces fmap list_fmap concat snd].
  destruct (Stored _ _ _ _) as [out p1] eqn:E1. cbn [fst snd] in *.
  specialize (IH p1 (last hs) _ true _ Hok Hnext).
  destruct (storePieces (last hs) pieces p1) as [out' p2]. cbn [fst] in *.
  destruct Hok1 as [Hne Hlen]. cbn [fst snd] in *.
  rewrite (entriesFrom_app ph has t toks _ (length hs)) by done. rewrite Hout, IH. do 2 f_equal.
  destruct hs; [done|]. simpl. by rewrite orb_true_r.
Qed.
End stored.
