(* ===== verification/ReporterSpec.v ===== *)
(** * What the reporter's messages mean, and the reporter against it

    The hints of one replica are the set of (adapter, prefix hash) keys it is
    recorded to hold, with token count and tier.  Each message is a list of actions
    on that set.  [eventActions] is the reference reporter: it acts on every engine
    event at once, with no buffer, no window and no flush.  The batching reporter has
    the same effect; and on a server that does not evict, the index holds exactly the
    hints the actions describe. *)

From Stdlib Require Import SpecFloat.
From S2P Require Import Prelude Ordering GoRuntime IndexTypes IndexAccounting IndexMetrics IndexEviction.
From S2P Require Import IndexIngest IndexSpec IndexLookup IndexSystem Policy Fingerprint Service Subscriber.

(** ** Actions *)

Notation Hints := (gmap (string * string) (Z * Z)).

Inductive Action :=
  | ActAdd (e : PrefixEntry)
  | ActEvict (prefixHash adapterID : string)
  | ActClear.

(** An eviction without an adapter drops the hash in every partition. *)
Definition applyAction (H : Hints) (a : Action) : Hints :=
  match a with
  | ActAdd e => <[(pe_AdapterId e, pe_PrefixHash e) := (pe_TokenCount e, pe_Tier e)]> H
  | ActEvict h ad => filter (λ kv, ¬ (kv.1.2 = h ∧ (ad = "" ∨ kv.1.1 = ad))) H
  | ActClear => ∅
  end.

Definition applyActions (H : Hints) (l : list Action) : Hints := foldl applyAction H l.

Definition msgActions (m : Msg) : list Action :=
  match m with
  | MsgUpdate u => ActAdd <$> cu_Prefixes u
  | MsgEvent ev =>
      if ce_Type ev =? evPrefixEvicted then [ActEvict (ce_PrefixHash ev) (ce_AdapterId ev)]
      else if ce_Type ev =? evAllCleared then [ActClear]
      else []
  end.

Lemma applyActions_app H l l' : applyActions H (l ++ l') = applyActions (applyActions H l) l'.
Proof. apply foldl_app. Qed.

(** ** The reference reporter *)

Section reference.
Context (xxh3 : string → Z → Z) (c : Config) (l2TierPresent : bool).

Definition eventActions (p : positionalIndex) (ev : EngineEvent) : positionalIndex * list Action :=
  match ev with
  | EvStored e =>
      match AdapterID c (bs_LoRAID e) with
      | None => (p, [])
      | Some a => let '(out, p') := Stored xxh3 e a p in (p', ActAdd <$> out)
      end
  | EvRemoved hashes =>
      let '(evicted, p') := Removed hashes p in
      (p', if l2TierPresent then ActAdd ∘ downgrade <$> evicted
           else (λ ep, ActEvict (ep_PrefixHash ep) (ep_AdapterID ep)) <$> evicted)
  | EvCleared => (∅, [ActClear])
  end.

Definition eventsActions (p : positionalIndex) (evs : list EngineEvent) :
    positionalIndex * list Action :=
  foldl (λ '(p, out) ev, let '(p', out') := eventActions p ev in (p', out ++ out')) (p, []) evs.

Definition inputEvents (inp : Input) : list EngineEvent :=
  match inp with InBatch b => eb_Events b | InTick => [] end.

(** ** The batching reporter agrees with it *)

Context (maxPend : nat).

(** The reporter state [r] with messages [out] sent stands for the reference state
    [p] with actions [acts] taken. *)
Definition agrees (r : Reporter) (out : list Msg) (p : positionalIndex) (acts : list Action) : Prop :=
  rp_pos r = p ∧
  ∀ H, applyActions H ((out ≫= msgActions) ++ (ActAdd <$> rp_pending r)) = applyActions H acts.

Lemma sendAdds_actions prefixes ts : sendAdds c prefixes ts ≫= msgActions = ActAdd <$> prefixes.
Proof.
  unfold sendAdds, UpdateMsg. destruct prefixes as [|e ps]; [done|].
  cbn [length Nat.eqb mbind list_bind]. by rewrite app_nil_r.
Qed.

Lemma flush_agrees r out p acts :
  agrees r out p acts →
  agrees (flush c r).1 (out ++ (flush c r).2) p acts ∧ rp_pending (flush c r).1 = [] .
Proof.
  intros [Hp Ha]. unfold flush. destruct (rp_pending r) as [|e ps] eqn:Ep.
  - cbn. rewrite app_nil_r. split; [|done]. split; [done|]. by rewrite Ep.
  - cbn [length Nat.eqb fst snd]. split; [|done]. split; [done|]. intros H.
    rewrite bind_app, sendAdds_actions. cbn [rp_pending set_pending]. rewrite fmap_nil, app_nil_r.
    apply Ha.
Qed.

(** Sending [out'] right after a flush takes exactly its own actions. *)
Lemma agrees_send r out p acts p' out' acts' :
  agrees r out p acts → rp_pending r = [] → out' ≫= msgActions = acts' →
  agrees (set_pos p' r) (out ++ out') p' (acts ++ acts').
Proof.
  intros [Hp Ha] Hr Ho. split; [done|]. intros H. cbn [rp_pending set_pos]. rewrite Hr.
  rewrite bind_app, Ho. cbn [fmap list_fmap]. rewrite app_nil_r, !applyActions_app, <-Ha.
  by rewrite Hr, app_nil_r.
Qed.

Lemma onStored_agrees ts e r out p acts :
  agrees r out p acts →
  let st := onStored xxh3 c maxPend ts e r in
  let ref := eventActions p (EvStored e) in
  agrees st.1 (out ++ st.2) ref.1 (acts ++ ref.2).
Proof.
  intros [Hp Ha]. unfold onStored, eventActions. cbv zeta.
  destruct (AdapterID c (bs_LoRAID e)) as [a|].
  2: { cbn. rewrite !app_nil_r. unfold warnUnmappedAdapter. by destruct (bs_LoRAID e). }
  rewrite Hp. destruct (Stored xxh3 e a p) as [entries p']. cbn [fst snd].
  match goal with |- context [flush c ?x] => set (r' := x) end.
  assert (agrees r' out p' (acts ++ (ActAdd <$> entries))) as Hr'.
  { split; [done|]. intros H. cbn [rp_pending r' set_pending set_pos].
    rewrite fmap_app, app_assoc, !applyActions_app, <-Ha, applyActions_app. done. }
  destruct (_ <=? _)%nat; [|cbn; by rewrite app_nil_r].
  by apply flush_agrees.
Qed.

Lemma onRemoved_agrees ts hashes r out p acts :
  agrees r out p acts →
  let st := onRemoved c l2TierPresent ts hashes r in
  let ref := eventActions p (EvRemoved hashes) in
  agrees st.1 (out ++ st.2) ref.1 (acts ++ ref.2).
Proof.
  intros [Hp Ha]. unfold onRemoved, eventActions. cbv zeta. rewrite Hp.
  destruct (Removed hashes p) as [evicted p']. cbn [fst snd].
  assert (agrees (set_pos p' r) out p' acts) as Hr by done.
  destruct (flush_agrees _ _ _ _ Hr) as [Hf Hn].
  assert (rp_pos (flush c (set_pos p' r)).1 = p') as Hpos by (unfold flush; by case_match).
  destruct l2TierPresent.
  - destruct evicted as [|ep evicted]; [cbn; by rewrite !app_nil_r|]. cbn [length Nat.eqb].
    step_pair (flush c (set_pos p' r)) as r' out'. rewrite app_assoc.
    replace r' with (set_pos p' r') by (destruct r'; simpl in *; by subst).
    eapply agrees_send; [done|done|]. rewrite sendAdds_actions. by rewrite list_fmap_compose.
  - step_pair (flush c (set_pos p' r)) as r' out'. rewrite app_assoc.
    replace r' with (set_pos p' r') by (destruct r'; simpl in *; by subst).
    eapply agrees_send; [done|done|]. induction evicted as [|ep evicted IH]; [done|].
    cbn. by rewrite <-IH.
Qed.

(** A clear discards what is buffered, which the clear supersedes anyway. *)
Lemma onCleared_agrees ts r out p acts :
  agrees r out p acts →
  let st := onCleared c ts r in
  let ref := eventActions p EvCleared in
  agrees st.1 (out ++ st.2) ref.1 (acts ++ ref.2).
Proof.
  intros [Hp Ha] st ref. split; [done|]. intros H. unfold st, ref. cbn.
  rewrite app_nil_r, bind_app, !applyActions_app. done.
Qed.

Lemma onEvent_agrees ts ev r out p acts :
  agrees r out p acts →
  let st := onEvent xxh3 c l2TierPresent maxPend ts r ev in
  let ref := eventActions p ev in
  agrees st.1 (out ++ st.2) ref.1 (acts ++ ref.2).
Proof.
  destruct ev; [apply onStored_agrees|apply onRemoved_agrees|apply onCleared_agrees].
Qed.

(** Running a list of steps on both sides. *)
Lemma runSteps_agrees {A : Type} (f : Reporter → A → Reporter * list Msg)
    (g : positionalIndex → A → positionalIndex * list Action) l r out p acts :
  (∀ x r out p acts, agrees r out p acts →
     agrees (f r x).1 (out ++ (f r x).2) (g p x).1 (acts ++ (g p x).2)) →
  agrees r out p acts →
  let st := runSteps f r l in
  let ref := foldl (λ '(p, out) x, let '(p', out') := g p x in (p', out ++ out')) (p, []) l in
  agrees st.1 (out ++ st.2) ref.1 (acts ++ ref.2).
Proof.
  intros Hstep Hag. unfold runSteps. cbv zeta.
  assert (∀ l r out0 out1 p acts0 acts1, agrees r (out0 ++ out1) p (acts0 ++ acts1) →
    let st := foldl (λ '(r, out) x, let '(r', out') := f r x in (r', out ++ out')) (r, out1) l in
    let ref := foldl (λ '(p, out) x, let '(p', out') := g p x in (p', out ++ out')) (p, acts1) l in
    agrees st.1 (out0 ++ st.2) ref.1 (acts0 ++ ref.2)) as Hgen.
  { clear l r out p acts Hag. induction l as [|x l IH]; intros r out0 out1 p acts0 acts1 Hag; [done|].
    cbn [foldl]. specialize (Hstep x _ _ _ _ Hag).
    destruct (f r x) as [r' o'], (g p x) as [p' a']. cbn [fst snd] in *.
    rewrite <-!app_assoc in Hstep. by apply IH. }
  specialize (Hgen l r out [] p acts []). rewrite !app_nil_r in Hgen. by apply Hgen.
Qed.

(** The actions of a run of inputs, batch boundaries and ticks ignored. *)
Lemma inputs_agree inputs r out p acts :
  agrees r out p acts →
  let st := runSteps (onInput xxh3 c l2TierPresent maxPend) r inputs in
  let ref := foldl (λ '(p, out) inp,
    let '(p', out') := eventsActions p (inputEvents inp) in (p', out ++ out')) (p, []) inputs in
  agrees st.1 (out ++ st.2) ref.1 (acts ++ ref.2).
Proof.
  apply (runSteps_agrees (onInput xxh3 c l2TierPresent maxPend)
    (λ p inp, eventsActions p (inputEvents inp))).
  clear. intros [b|] r out p acts Hag; cbn [onInput inputEvents].
  - apply (runSteps_agrees (onEvent xxh3 c l2TierPresent maxPend (eb_TimestampSeconds b))
      eventActions); [|done].
    intros ev r' out' p' acts'. apply onEvent_agrees.
  - cbn. rewrite app_nil_r. by apply flush_agrees.
Qed.

Lemma eventsActions_app p evs evs' :
  eventsActions p (evs ++ evs') =
    ((eventsActions (eventsActions p evs).1 evs').1,
     (eventsActions p evs).2 ++ (eventsActions (eventsActions p evs).1 evs').2).
Proof.
  unfold eventsActions. rewrite foldl_app.
  destruct (foldl _ (p, []) evs) as [p1 a1]. cbn [fst snd].
  assert (∀ l p a, foldl (λ '(p, out) ev, let '(p', out') := eventActions p ev in (p', out ++ out'))
    (p, a) l =
    let st := foldl (λ '(p, out) ev, let '(p', out') := eventActions p ev in (p', out ++ out')) (p, []) l in
    (st.1, a ++ st.2)) as Hgen; [|apply Hgen].
  clear. induction l as [|ev l IH]; intros p a; cbn [foldl]; [by rewrite app_nil_r|].
  destruct (eventActions p ev) as [p' a']. rewrite IH. cbn [app].
  rewrite (IH p' a'). cbn [fst snd]. by rewrite app_assoc.
Qed.

Lemma inputs_events inputs p acts :
  foldl (λ '(p, out) inp,
    let '(p', out') := eventsActions p (inputEvents inp) in (p', out ++ out')) (p, acts) inputs =
  let st := eventsActions p (inputs ≫= inputEvents) in (st.1, acts ++ st.2).
Proof.
  revert p acts. induction inputs as [|inp inputs IH]; intros p acts.
  { cbn. by rewrite app_nil_r. }
  cbn [foldl mbind list_bind]. rewrite eventsActions_app.
  destruct (eventsActions p (inputEvents inp)) as [p' a']. cbn [fst snd].
  rewrite IH. cbv zeta. by rewrite app_assoc.
Qed.

(** The whole run. *)
Lemma run_transparent inputs H :
  let '(r, out) := ReporterRun xxh3 c l2TierPresent maxPend inputs in
  let '(p, acts) := eventsActions ∅ (inputs ≫= inputEvents) in
  rp_pos r = p ∧ rp_pending r = [] ∧
  applyActions H (out ≫= msgActions) = applyActions H acts.
Proof.
  unfold ReporterRun.
  assert (agrees NewReporter [] ∅ []) as H0 by done.
  pose proof (inputs_agree inputs _ _ _ _ H0) as Hag. cbn [app] in Hag. revert Hag. cbv zeta.
  rewrite inputs_events. cbn [app].
  destruct (runSteps _ _ _) as [r out]. destruct (eventsActions _ _) as [p acts]. cbn [fst snd].
  intros Hag. destruct (flush_agrees _ _ _ _ Hag) as [[Hp Ha] Hn].
  step_pair (flush c r) as r' out'. split_and!; [done|done|].
  rewrite <-Ha, Hn. cbn. by rewrite app_nil_r.
Qed.
End reference.

(** ** Own messages *)

Definition plainEntry (e : PrefixEntry) : Prop :=
  pe_BlockHashes e = [] ∧ pe_BlockTokenCounts e = [] ∧
  (pe_Tier e = CacheTierT1 ∨ pe_Tier e = CacheTierT2).

(** A message of this replica in the shape the reporter sends. *)
Definition ownMsg (c : Config) (m : Msg) : Prop :=
  match m with
  | MsgUpdate u =>
      cu_ReplicaId u = c_ReplicaID c ∧ cu_ModelId u = c_ModelID c ∧ cu_TenantId u = c_TenantID c ∧
      cu_HashScheme u = c_HashScheme c ∧ cu_AdapterId u = "" ∧ Forall plainEntry (cu_Prefixes u)
  | MsgEvent ev =>
      ce_ReplicaId ev = c_ReplicaID c ∧ ce_ModelId ev = c_ModelID c ∧
      ce_TenantId ev = c_TenantID c ∧ (ce_Type ev = evPrefixEvicted ∨ ce_Type ev = evAllCleared)
  end.

Lemma storeLoop_plain bs a phs hashes t p : Forall plainEntry (storeLoop bs a phs hashes t p).1.
Proof.
  revert hashes t p. induction phs as [|ph phs IH]; intros [|h hashes] t p; try constructor. simpl.
  match goal with |- context [storeLoop _ _ _ _ ?t' ?p'] => specialize (IH hashes t' p') end.
  destruct (storeLoop _ _ _ _ _ _). constructor; [|done]. unfold plainEntry. simpl. auto.
Qed.

Lemma Stored_plain xxh3 e a p : Forall plainEntry (Stored xxh3 e a p).1.
Proof. unfold Stored. repeat case_match; try constructor. apply storeLoop_plain. Qed.

Lemma sendAdds_own c ps ts : Forall plainEntry ps → Forall (ownMsg c) (sendAdds c ps ts).
Proof.
  intros Hps. unfold sendAdds, UpdateMsg. destruct ps; [constructor|]. cbn.
  constructor; [|constructor]. simpl. auto 10.
Qed.

Lemma runSteps_inv {A : Type} (f : Reporter → A → Reporter * list Msg) (P : Reporter → Prop)
    (Q : Msg → Prop) r l :
  (∀ r x, P r → P (f r x).1 ∧ Forall Q (f r x).2) → P r →
  P (runSteps f r l).1 ∧ Forall Q (runSteps f r l).2.
Proof.
  intros Hf HP. unfold runSteps. apply (foldl_inv (λ st, P st.1 ∧ Forall Q st.2)); [by split|].
  intros [r' out] x _ [HP' HQ]. cbn [fst snd] in *. destruct (Hf r' x HP') as [HP2 HQ2].
  step_pair (f r' x) as r2 out2. split; [done|]. by apply Forall_app.
Qed.

Section own.
Context (xxh3 : string → Z → Z) (c : Config) (l2 : bool) (maxPend : nat).

Lemma flush_own r :
  Forall plainEntry (rp_pending r) →
  Forall plainEntry (rp_pending (flush c r).1) ∧ Forall (ownMsg c) (flush c r).2.
Proof.
  intros Hp. unfold flush. case_match; cbn [fst snd]; [by split|].
  split; [constructor|by apply sendAdds_own].
Qed.

Lemma onEvent_own ts r ev :
  Forall plainEntry (rp_pending r) →
  Forall plainEntry (rp_pending (onEvent xxh3 c l2 maxPend ts r ev).1) ∧
  Forall (ownMsg c) (onEvent xxh3 c l2 maxPend ts r ev).2.
Proof.
  intros Hp. destruct ev as [e|hashes|]; cbn [onEvent].
  - unfold onStored. destruct (AdapterID c (bs_LoRAID e)) as [a|].
    2: { cbn. unfold warnUnmappedAdapter. by destruct (bs_LoRAID e). }
    pose proof (Stored_plain xxh3 e a (rp_pos r)) as Hs.
    destruct (Stored xxh3 e a (rp_pos r)) as [entries p']. cbn [fst] in Hs.
    case_match; [apply flush_own|]; cbn; rewrite ?Forall_app; auto.
  - unfold onRemoved. destruct (Removed hashes (rp_pos r)) as [evicted p'].
    destruct (flush_own (set_pos p' r) Hp) as [Hf Hm].
    step_pair (flush c (set_pos p' r)) as r' out'.
    destruct l2; [case_match; [by split|]|]; (split; [done|]); apply Forall_app; (split; [done|]).
    + apply sendAdds_own, Forall_fmap, Forall_true. intros ep. unfold plainEntry. simpl. auto.
    + apply Forall_fmap, Forall_true. intros ep. simpl. auto 10.
  - cbn. split; [constructor|]. constructor; [|constructor]. simpl. auto 10.
Qed.

Lemma run_own inputs : Forall (ownMsg c) (ReporterRun xxh3 c l2 maxPend inputs).2.
Proof.
  unfold ReporterRun.
  destruct (runSteps_inv (onInput xxh3 c l2 maxPend) (λ r, Forall plainEntry (rp_pending r))
    (ownMsg c) NewReporter inputs) as [HP HQ]; [|constructor|].
  - intros r [b|] Hr; cbn [onInput]; [|by apply flush_own].
    apply (runSteps_inv _ (λ r, Forall plainEntry (rp_pending r)) (ownMsg c)); [|done].
    intros r' ev Hr'. by apply onEvent_own.
  - step_pair (runSteps (onInput xxh3 c l2 maxPend) NewReporter inputs) as r out.
    destruct (flush_own r HP) as [_ Hm]. destruct (flush c r) as [r' out']. cbn [snd] in *.
    by apply Forall_app.
Qed.
End own.

(** ** Delivery *)

Definition deliverOne (cfg : IndexConfig) (i : Index) (tm : Time * Msg) : Index :=
  match tm.2 with
  | MsgUpdate u => (reportOne cfg tm.1 u i).1
  | MsgEvent ev => (PublishEvent cfg tm.1 ev i).1
  end.

(** Every message reaches the server, each with the clock reading at its arrival. *)
Definition deliver (cfg : IndexConfig) (tms : list (Time * Msg)) (i : Index) : Index :=
  foldl (deliverOne cfg) i tms.

Section delivery.
Context (cfg : IndexConfig) (c : Config).
Hypothesis (Hcap : cfg_maxEntries cfg ≤ 0).
Hypothesis (Hquota : tenantQuotaFor cfg (c_TenantID c) = None).
Hypothesis (Hscheme : c_HashScheme c ≠ "").
Hypothesis (Htenant : c_TenantID c ≠ ProbeTenantID).

Definition ownKey (ad h : string) : prefixKey :=
  PrefixKey (c_TenantID c) (c_ModelID c) (c_HashScheme c) ad h.

Definition hintOf (e : replicaEntry) : Z * Z := (tokenCount e, tier e).

Definition represents (E : entries) (H : Hints) : Prop :=
  ∀ ad h, hintOf <$> E !! (ownKey ad h, c_ReplicaID c) = H !! (ad, h).

Lemma represents_write ts E H e :
  plainEntry e → represents E H →
  represents
    (specWrite (c_ReplicaID c) ts E (ownKey (pe_AdapterId e) (pe_PrefixHash e), pe_TokenCount e,
       normalizeIngestTier (cacheTierFromProto (pe_Tier e))))
    (applyAction H (ActAdd e)).
Proof.
  intros (_ & _ & Ht) HE ad h. cbn [specWrite applyAction].
  destruct (decide ((ad, h) = (pe_AdapterId e, pe_PrefixHash e))) as [[= -> ->]|Hne].
  - rewrite !lookup_insert_eq. cbn. unfold hintOf. cbn. do 2 f_equal. by destruct Ht as [->| ->].
  - rewrite !lookup_insert_ne; [apply HE| |]; [congruence|]. unfold ownKey. congruence.
Qed.

Lemma prefixWrites_plain u e :
  ownMsg c (MsgUpdate u) → plainEntry e →
  prefixWrites (updateFromProto u) (prefixFromProto e) =
    [(ownKey (pe_AdapterId e) (pe_PrefixHash e), pe_TokenCount e,
      normalizeIngestTier (cacheTierFromProto (pe_Tier e)))].
Proof.
  intros (Hr & Hm & Ht & Hs & Ha & _) (Hb & Hc & _). unfold prefixWrites.
  cbn [prefixFromProto pr_BlockHashes pr_BlockTokenCounts pr_Adapter pr_PrefixHash pr_TokenCount
    pr_Tier updateFromProto u_Adapter u_Tenant u_Model u_HashScheme].
  rewrite Hb, Hc, Ha, Ht, Hm, Hs. unfold ownKey. do 4 f_equal.
  destruct (str_eqb (pe_AdapterId e) "") eqn:E; [|done]. by apply str_eqb_eq in E.
Qed.

Lemma represents_writes u ts E H :
  ownMsg c (MsgUpdate u) → represents E H →
  represents (foldl (specWrite (c_ReplicaID c) ts) E (updateWrites (updateFromProto u)))
    (applyActions H (msgActions (MsgUpdate u))).
Proof.
  intros Hown. unfold updateWrites. cbn [updateFromProto u_HashScheme u_Prefixes].
  assert (cu_HashScheme u = c_HashScheme c) as Hs by apply Hown.
  rewrite decide_False by congruence. cbn [msgActions].
  assert (Forall plainEntry (cu_Prefixes u)) as Hplain by apply Hown. revert E H.
  induction Hplain as [|e es He _ IH]; intros E H HE; [done|].
  cbn [fmap list_fmap mbind list_bind]. fold (updateFromProto u).
  rewrite (prefixWrites_plain u e Hown He). cbn [app foldl applyActions].
  apply IH. by apply represents_write.
Qed.

Lemma absEntries_report now u i :
  index_wf (cfg_reservedTenants cfg) i → ownMsg c (MsgUpdate u) →
  absEntries (reportOne cfg now u i).1 =
    foldl (specWrite (c_ReplicaID c) (stampOr now (microsToTime (cu_TimestampUs u)))) (absEntries i)
      (updateWrites (updateFromProto u)).
Proof.
  intros Hwf Hown. unfold reportOne.
  assert (cu_TenantId u = c_TenantID c) as Ht by apply Hown.
  assert (cu_ReplicaId u = c_ReplicaID c) as Hr by apply Hown.
  rewrite (proj2 (str_eqb_neq _ _)) by congruence.
  rewrite Ingest_fst. unfold enforceQuota. cbn [updateFromProto u_Tenant]. fold (updateFromProto u).
  rewrite Ht, Hquota. cbn [fst].
  assert (∀ j, enforceCapLocked cfg j = (j, ∅)) as ->.
  { intros j. unfold enforceCapLocked, enforceCapOver. by rewrite (proj2 (Z.leb_le _ _) Hcap). }
  cbn [fst].
  pose proof (absIndex_reportEntries cfg (ingested cfg now (updateFromProto u) i)) as Ha.
  rewrite absIndex_ingested in Ha by done. injection Ha as -> _.
  cbn [updateFromProto u_ReplicaID u_Timestamp]. fold (updateFromProto u). by rewrite Hr.
Qed.

Lemma represents_update now u i H :
  index_wf (cfg_reservedTenants cfg) i → ownMsg c (MsgUpdate u) →
  represents (absEntries i) H →
  represents (absEntries (reportOne cfg now u i).1) (applyActions H (msgActions (MsgUpdate u))).
Proof. intros Hwf Hown HE. rewrite absEntries_report by done. by apply represents_writes. Qed.

Lemma represents_event now ev i H :
  ownMsg c (MsgEvent ev) → represents (absEntries i) H →
  represents (absEntries (PublishEvent cfg now ev i).1) (applyActions H (msgActions (MsgEvent ev))).
Proof.
  intros (Hr & Hm & Ht & Hty) HE. unfold PublishEvent.
  rewrite (proj2 (str_eqb_neq _ _)) by congruence.
  destruct Hty as [Hty|Hty]; cbn [msgActions]; rewrite !Hty; cbn [eventTypeFromProto Z.eqb
      Pos.eqb evPrefixEvicted evAllCleared applyActions foldl applyAction];
    match goal with |- context [ApplyEvent _ _ ?e _] => set (ev' := e) end;
    rewrite (f_equal st_entries (ApplyEvent_refines cfg now ev' i) :
      absEntries (ApplyEvent cfg now ev' i).1 = _);
    unfold specEvent, ev'; cbn [ev_Type st_entries absIndex]; intros ad h;
    rewrite ?lookup_filter_if, <-?HE; destruct (absEntries i !! (ownKey ad h, c_ReplicaID c)) as [e|];
    try done; simpl.
  - unfold evictedBy. cbn [ev_Tenant ev_Model ev_PrefixHash ev_Adapter ownKey pk_tenant pk_model
      pk_prefixHash pk_adapter]. rewrite Ht, Hm, Hr. unfold str_eqb.
    repeat case_decide; repeat case_bool_decide; simpl in *; naive_solver.
  - unfold clearedBy. cbn [ev_Tenant ev_Model ownKey pk_tenant pk_model].
    rewrite Ht, Hm, Hr. case_decide as Hd; [|done]. by destruct Hd.
Qed.

Lemma wf_deliverOne tm i :
  index_wf (cfg_reservedTenants cfg) i → index_wf (cfg_reservedTenants cfg) (deliverOne cfg i tm).
Proof.
  intros Hwf. destruct tm as [now [u|ev]]; unfold deliverOne; cbn [fst snd].
  - unfold reportOne. case_match; auto with index_wf.
  - unfold PublishEvent. destruct (str_eqb _ _); [done|].
    destruct (eventTypeFromProto _); auto with index_wf.
Qed.

(** Delivered messages take exactly their actions on the hints of the replica. *)
Lemma deliver_represents tms i H :
  index_wf (cfg_reservedTenants cfg) i → Forall (ownMsg c) tms.*2 →
  represents (absEntries i) H →
  represents (absEntries (deliver cfg tms i)) (applyActions H (tms.*2 ≫= msgActions)).
Proof.
  revert i H. induction tms as [|[now m] tms IH]; intros i H Hwf Hown HE; [done|].
  apply Forall_cons in Hown as [Hm Hown].
  change (deliver cfg ((now, m) :: tms) i) with (deliver cfg tms (deliverOne cfg i (now, m))).
  rewrite fmap_cons. cbn [mbind list_bind snd]. rewrite applyActions_app.
  apply IH; [by apply wf_deliverOne|done|]. destruct m as [u|ev].
  - by apply represents_update.
  - by apply represents_event.
Qed.
End delivery.
