(* ===== verification/Pipeline.v ===== *)
(** * From an engine's block events to a routed prompt

    The lemmas that connect the subscriber's entries with the keys a lookup walks:
    both hash the same tokens, so a prompt whose leading blocks the engine cached is
    found by its chain.

    Properties of the subscriber and of the path from engine events to a routed prompt *)

From Stdlib Require Import SpecFloat.
From S2P Require Import Prelude Ordering GoRuntime IndexTypes IndexAccounting IndexMetrics IndexEviction.
From S2P Require Import IndexRanking IndexIngest IndexSpec IndexLookup IndexSystem Policy Fingerprint Service.
From S2P Require Import Subscriber ReporterSpec Samples.

Lemma sum_int32_replicate n b : sum_int32 (replicate n b) = wrap32 (Z.of_nat n * b).
Proof.
  unfold sum_int32.
  assert (∀ n a, foldl (λ acc v, wrap32 (acc + v)) (wrap32 a) (replicate n b) =
    wrap32 (a + Z.of_nat n * b)) as H.
  { clear n. induction n as [|n IH]; intros a; cbn [replicate foldl]; [f_equal; lia|].
    rewrite wrap32_add_l, IH. f_equal. lia. }
  specialize (H n 0). change (wrap32 0) with 0 in H. rewrite H. f_equal.
Qed.

(** Every key an update writes ends up stamped with the update's time. *)
Lemma written_stamp r ts ws E k :
  k ∈ (λ w : Write, w.1.1) <$> ws ∨ (∃ e, E !! (k, r) = Some e ∧ lastSeen e = ts) →
  ∃ e, foldl (specWrite r ts) E ws !! (k, r) = Some e ∧ lastSeen e = ts.
Proof.
  revert E. induction ws as [|[[k' tc] tr] ws IH]; intros E Hk; cbn [foldl].
  { destruct Hk as [?%not_elem_of_nil|?]; done. }
  apply IH. rewrite fmap_cons, elem_of_cons in Hk. cbn [specWrite fst].
  destruct (decide (k' = k)) as [->|Hne]; [right; rewrite lookup_insert_eq; eauto|].
  rewrite lookup_insert_ne by congruence. destruct Hk as [[?|?]|?]; [by subst|by left|by right].
Qed.

(** A replica that holds the first [n] blocks fresh has a run of at least [n]. *)
Lemma leadingRun_ge now ttl req i r hashes n :
  (n ≤ length hashes)%nat →
  Forall (λ h, is_Some (freshHold now ttl req i r h)) (take n hashes) →
  (n ≤ length (leadingRun now ttl req i r hashes))%nat.
Proof.
  revert n. induction hashes as [|h hashes IH]; intros [|n] Hn Hf; simpl in *; try lia.
  apply Forall_cons in Hf as [[le Hle] Hf]. rewrite Hle. simpl. 
  apply le_n_S, IH; [lia|done].
Qed.

Lemma leadingRun_length now ttl req i r hashes :
  (length (leadingRun now ttl req i r hashes) ≤ length hashes)%nat.
Proof.
  induction hashes as [|h hashes IH]; simpl; [done|]. destruct (freshHold _ _ _ _ _ _); simpl; lia.
Qed.

Section pipeline.
Context (xxh3 : string → Z → Z) (bs : Z).
Hypothesis (Hbs : 0 < bs < 2 ^ 31).

Lemma entries_keys adapterID tokens :
  pe_PrefixHash <$> entriesFrom xxh3 bs adapterID 0 false 0 tokens = (Chain xxh3 tokens bs).1.
Proof.
  unfold entriesFrom, Chain, PrefixHashes. cbn [fst]. rewrite fmap_imap.
  generalize (PrefixHashesFrom xxh3 tokens bs 0 false) as l. intros l.
  rewrite <-(imap_const Bytes l). by apply imap_ext.
Qed.

Lemma Chain_prefix t1 t2 n :
  length t1 = (n * Z.to_nat bs)%nat →
  take n (Chain xxh3 (t1 ++ t2) bs).1 = (Chain xxh3 t1 bs).1 ∧
  length (Chain xxh3 t1 bs).1 = n.
Proof.
  intros Hl. unfold Chain, PrefixHashes. cbn [fst].
  assert (length (PrefixHashesFrom xxh3 t1 bs 0 false) = n) as Hn
    by (by apply length_PrefixHashes_blocks; [lia|]).
  rewrite (PrefixHashesFrom_app _ t1 t2 bs 0 false n) by (done || lia). cbv zeta.
  rewrite fmap_app, take_app_length'; by rewrite ?length_fmap.
Qed.

(** The request a gateway sends for the tokens of a prompt. *)
Definition promptRequest (c : Config) (adapterID : string) (tokens : list Z) : LookupRequest :=
  mkLookupRequest (c_ModelID c) (c_TenantID c) (c_HashScheme c) adapterID "" 0
    (Chain xxh3 tokens bs).1 (Chain xxh3 tokens bs).2 0 0.

(** If the replica holds the blocks of [t1] fresh, a prompt that starts with [t1]
    matches at least [t1]. *)
Lemma prompt_found cfg c now adapterID t1 t2 n i :
  c_HashScheme c ≠ "" → (0 < n)%nat → length t1 = (n * Z.to_nat bs)%nat →
  Z.of_nat (length (t1 ++ t2)) < 2 ^ 31 →
  (∀ h, h ∈ (Chain xxh3 t1 bs).1 → is_Some (freshHold now (ttlFor cfg (c_TenantID c))
     (promptRequest c adapterID (t1 ++ t2)) i (c_ReplicaID c) h)) →
  ∃ s, s ∈ Lookup cfg now (promptRequest c adapterID (t1 ++ t2)) i ∧
       s_ReplicaID s = c_ReplicaID c ∧ Z.of_nat (length t1) ≤ s_MatchedTokens s.
Proof.
  intros Hs Hn Hl Hmax Hfresh. set (req := promptRequest c adapterID (t1 ++ t2)) in *.
  destruct (Chain_prefix t1 t2 n Hl) as [Htake Hlen].
  assert (lr_BlockTokenCounts req = replicate (length (lr_BlockHashes req)) bs) as Hcounts.
  { cbn. unfold Chain. cbn [fst snd]. rewrite length_fmap, wrap32_id by (unfold is_int32; lia).
    by apply const_fmap. }
  set (run := runOf cfg now req i (c_ReplicaID c)).
  assert (n ≤ length run ≤ length (lr_BlockHashes req))%nat as [Hrun Hrun'].
  { assert (n ≤ length (lr_BlockHashes req))%nat as Hnl.
    { rewrite <-Hlen, <-Htake. rewrite length_take. cbn [lr_BlockHashes req promptRequest]. lia. }
    split; [|apply leadingRun_length].
    apply leadingRun_ge; [done|]. cbn [lr_BlockHashes req promptRequest]. rewrite Htake.
    by apply Forall_forall. }
  assert (Z.of_nat (length (lr_BlockHashes req)) * bs < 2 ^ 31) as Hbound.
  { cbn. unfold Chain. cbn [fst]. rewrite length_fmap. unfold PrefixHashes.
    rewrite PrefixHashesFrom_length by lia.
    pose proof (Nat.Div0.mul_div_le (length (t1 ++ t2)) (Z.to_nat bs)). nia. }
  assert (matchedOf cfg now req i (c_ReplicaID c) = Z.of_nat (length run) * bs) as Hmatch.
  { unfold matchedOf. fold run. rewrite Hcounts, take_replicate, sum_int32_replicate, Nat.min_l by done.
    apply wrap32_id. unfold is_int32. nia. }
  assert (length (lr_BlockHashes req) = length (lr_BlockTokenCounts req)) as Hlens
    by (by rewrite Hcounts, length_replicate).
  assert (Forall is_int32 (lr_BlockTokenCounts req)) as Hint.
  { rewrite Hcounts. apply Forall_replicate. unfold is_int32. lia. }
  destruct (proj2 (lookupChain_elem cfg now req i (c_ReplicaID c) (Z.of_nat (length run) * bs)
    (worstOf run) (freshnessAt now (oldestOf run) (ttlFor cfg (lr_Tenant req))) Hlens Hint))
    as (s & Hin & Hid & Hmt & _); [split_and!; [nia|done..]|].
  exists s. split_and!; [|done|rewrite Hmt, Hl; nia].
  unfold Lookup, lookupWithHits. rewrite (proj2 (str_eqb_neq _ _)) by done.
  unfold chainBearing, chainMalformed. rewrite Hcounts, length_replicate, Nat.eqb_refl.
  destruct (length (lr_BlockHashes req)) eqn:E; [lia|]. done.
Qed.

(** What a report leaves in an index that does not evict: every reported key, held by
    the replica and stamped with the report's time. *)
Lemma reported_fresh cfg c now u i h adapterID req lookupNow e :
  index_wf (cfg_reservedTenants cfg) i → cfg_maxEntries cfg ≤ 0 →
  tenantQuotaFor cfg (c_TenantID c) = None → c_HashScheme c ≠ "" → c_TenantID c ≠ ProbeTenantID →
  ownMsg c (MsgUpdate u) → e ∈ cu_Prefixes u → pe_PrefixHash e = h → pe_AdapterId e = adapterID →
  reqKey req h = ownKey c adapterID h →
  let ts := stampOr now (microsToTime (cu_TimestampUs u)) in
  fle (freshnessAt lookupNow ts (ttlFor cfg (c_TenantID c))) f32_zero = false →
  is_Some (freshHold lookupNow (ttlFor cfg (c_TenantID c)) req (reportOne cfg now u i).1
    (c_ReplicaID c) h).
Proof.
  intros Hwf Hcap Hq Hs Ht Hown He Hh Ha Hkey ts Hf.
  assert (∃ x, entryAt (reportOne cfg now u i).1 (ownKey c adapterID h) (c_ReplicaID c) = Some x ∧
    lastSeen x = ts) as (x & Hx & Hls).
  { rewrite <-absEntries_lookup, (absEntries_report cfg c) by done. apply written_stamp. left.
    unfold updateWrites. cbn [updateFromProto u_HashScheme u_Prefixes]. fold (updateFromProto u).
    rewrite decide_False by (destruct Hown as (_&_&_&->&_); done).
    apply list_elem_of_fmap. eexists (ownKey c (pe_AdapterId e) (pe_PrefixHash e), _, _).
    split; [by rewrite Hh, Ha|]. apply list_elem_of_bind. exists (prefixFromProto e).
    split; [|by apply list_elem_of_fmap_2].
    rewrite (prefixWrites_plain c u e); [by left|done|].
    destruct Hown as (_&_&_&_&_&Hp). by eapply Forall_forall. }
  unfold freshHold. rewrite Hkey. rewrite entryAt_locAt in Hx.
  destruct (locAt _ _ _) as [l|]; [|done]. simpl in *. rewrite Hx. simpl. rewrite Hls, Hf. eauto.
Qed.

Lemma entriesFrom_plain adapterID ph has t tokens :
  Forall plainEntry (entriesFrom xxh3 bs adapterID ph has t tokens).
Proof.
  apply Forall_lookup. intros n e He. unfold entriesFrom in He.
  rewrite list_lookup_imap in He. apply fmap_Some in He as (h & _ & ->). unfold plainEntry. simpl. auto.
Qed.

Lemma entriesFrom_adapter adapterID ph has t tokens e :
  e ∈ entriesFrom xxh3 bs adapterID ph has t tokens → pe_AdapterId e = adapterID.
Proof.
  intros (n & He)%list_elem_of_lookup. unfold entriesFrom in He.
  rewrite list_lookup_imap in He. by apply fmap_Some in He as (h & _ & ->).
Qed.

Lemma pieces_length pieces :
  Forall (pieceOK bs) pieces → ∃ n, length (concat pieces.*2) = (n * Z.to_nat bs)%nat.
Proof.
  induction 1 as [|[hs toks] pieces [_ Hl] _ [n IH]]; [by exists 0%nat|].
  exists (length hs + n)%nat. cbn [fmap list_fmap concat snd] in *. rewrite length_app, IH. simpl in Hl. lia.
Qed.
End pipeline.

(** ** Staleness *)

Definition countStale (logs : list StatsLog) : nat :=
  length (List.filter (λ l, match l with LogStale _ => true | _ => false end) logs).
Definition countRecovered (logs : list StatsLog) : nat :=
  length (List.filter (λ l, match l with LogRecovered => true | _ => false end) logs).

Definition statsInv (r : StatsReporter) (logs : list StatsLog) : Prop :=
  countStale logs =
    (countRecovered logs + (if (staleThreshold <=? sr_consecFails r)%Z then 1 else 0))%nat ∧
  0 ≤ sr_consecFails r ∧
  (sr_everDelivered r = false → ∀ b, LogStale b ∈ logs → b = false).

Lemma statsInv_new : statsInv NewStatsReporter [].
Proof. split; [done|]. split; [done|]. intros _ b Hb. by apply not_elem_of_nil in Hb. Qed.

Lemma statsInv_stale r logs :
  statsInv r logs → statsInv (markStale r).1 (logs ++ (markStale r).2).
Proof.
  intros (Hc & Hn & Hd). unfold markStale, statsInv, staleThreshold in *. cbn [fst snd sr_consecFails sr_everDelivered].
  unfold countStale, countRecovered in *. rewrite !List.filter_app, !length_app.
  destruct (Z.eqb_spec (sr_consecFails r + 1) 3) as [E|E];
    [|destruct (Z.ltb_spec 3 (sr_consecFails r + 1))]; cbn [List.filter length];
    (split_and!; [repeat case_match; rewrite ?Z.leb_le, ?Z.leb_gt in *; lia|lia|]);
    intros He b; rewrite elem_of_app, list_elem_of_singleton; intros [Hb|Hb];
    try (by eapply Hd); congruence.
Qed.

Lemma statsInv_delivered r logs :
  statsInv r logs → statsInv (markDelivered r).1 (logs ++ (markDelivered r).2).
Proof.
  intros (Hc & Hn & Hd). unfold markDelivered, statsInv. cbn [fst snd sr_consecFails sr_everDelivered].
  unfold countStale, countRecovered in *. rewrite !List.filter_app, !length_app.
  split_and!; [|lia|done]. change (staleThreshold <=? 0) with false.
  destruct (staleThreshold <=? sr_consecFails r); cbn [List.filter length]; lia.
Qed.

Lemma statsInv_tick c nowUs r o logs :
  statsInv r logs →
  statsInv (statsTick c nowUs r o).1 (logs ++ (statsTick c nowUs r o).2).
Proof.
  intros Hinv. unfold statsTick. repeat case_match; auto using statsInv_stale, statsInv_delivered.
Qed.

(** However the engine cuts a sequence of blocks into events, each naming the last
    block of the one before as its parent, the subscriber reports exactly the keys a
    lookup of the whole token sequence walks, in order, each with the cumulative token
    count of its position, in the event's adapter partition, at tier T1. *)
Theorem stored_pieces_match_chain xxh3 bs adapterID pieces parent p :
  0 < bs < 2 ^ 31 → Forall (pieceOK bs) pieces → (parent ≫= λ h, p !! h) = None →
  let out := (storePieces xxh3 bs adapterID parent pieces p).1 in
  pe_PrefixHash <$> out = (Chain xxh3 (concat pieces.*2) bs).1 ∧
  (∀ n e, out !! n = Some e → pe_TokenCount e = wrap32 (Z.of_nat (S n) * bs) ∧
     pe_AdapterId e = adapterID ∧ pe_Tier e = CacheTierT1).
Proof.
  intros Hbs Hok Hp out. unfold out. clear out.
  rewrite (storePieces_entries xxh3 bs adapterID pieces p parent 0 false 0);
    [|lia|done|by unfold chainsFrom; rewrite Hp].
  split; [apply entries_keys|]. intros n e He. unfold entriesFrom in He.
  rewrite list_lookup_imap in He. apply fmap_Some in He as (h & _ & ->). simpl.
  split_and!; [f_equal; lia|done|done].
Qed.

(** A stand-in for XXH3: a polynomial over the bytes. *)
Definition toyHash (s : string) (seed : Z) : Z := (be_value 7 (String.length s) s * 31 + seed) mod 2 ^ 64.

Definition samplePieces : list (list string * list Z) :=
  [(["e1"; "e2"], [1; 2; 3; 4]); (["e3"], [5; 6])].

Lemma stored_pieces_match_chain_witness :
  pe_PrefixHash <$> (storePieces toyHash 2 "" (Some "root") samplePieces ∅).1 =
    (Chain toyHash [1; 2; 3; 4; 5; 6] 2).1.
Proof.
  apply (stored_pieces_match_chain toyHash 2 "" samplePieces (Some "root") ∅).
  - split; reflexivity.
  - repeat constructor; discriminate.
  - reflexivity.
Defined.

(** C33: batching is transparent: for every sequence of event batches and ticks and
    every buffer limit, the messages the reporter sends, followed by its final flush,
    have the same effect on the recorded hints as acting on each engine event at once:
    adds keep their order with removals and tier downgrades, a clear supersedes what is
    buffered, unmapped adapters are dropped, and nothing stays buffered. *)
Theorem reporter_batching_transparent xxh3 c l2TierPresent maxPend inputs H :
  let '(r, out) := ReporterRun xxh3 c l2TierPresent maxPend inputs in
  let '(p, acts) := eventsActions xxh3 c l2TierPresent ∅ (inputs ≫= inputEvents) in
  rp_pos r = p ∧ rp_pending r = [] ∧
  applyActions H (out ≫= msgActions) = applyActions H acts.
Proof. apply run_transparent. Qed.

(** C4: the index records exactly what the engine's events say: on a server that does
    not evict (no cap, no budget for the tenant), after every message of a run is
    delivered, at whatever times, the replica holds a key of its own scope with a given
    count and tier if and only if the unbatched actions of the engine events leave it
    with them. *)
Theorem delivered_hints_exact xxh3 cfg c l2TierPresent maxPend inputs tms i H :
  index_wf (cfg_reservedTenants cfg) i → cfg_maxEntries cfg ≤ 0 →
  tenantQuotaFor cfg (c_TenantID c) = None → c_HashScheme c ≠ "" →
  c_TenantID c ≠ ProbeTenantID →
  tms.*2 = (ReporterRun xxh3 c l2TierPresent maxPend inputs).2 →
  represents c (absEntries i) H →
  ∀ ad h, hintOf <$> entryAt (deliver cfg tms i) (ownKey c ad h) (c_ReplicaID c) =
    applyActions H (eventsActions xxh3 c l2TierPresent ∅ (inputs ≫= inputEvents)).2 !! (ad, h).
Proof.
  intros Hwf Hcap Hq Hs Ht Htms HE ad h.
  pose proof (run_transparent xxh3 c l2TierPresent maxPend inputs H) as Hrun.
  pose proof (run_own xxh3 c l2TierPresent maxPend inputs) as Hown. rewrite <-Htms in Hown.
  destruct (ReporterRun _ _ _ _ _) as [r out]. destruct (eventsActions _ _ _ _ _) as [p acts].
  destruct Hrun as (_ & _ & Hact). cbn [snd] in *. subst out. rewrite <-Hact.
  rewrite <-absEntries_lookup. by apply deliver_represents.
Qed.

(** An unbounded server configuration for the witnesses. *)
Definition openCfg : IndexConfig := {|
  cfg_ttl := DefaultTTL;
  cfg_sweepInterval := DefaultSweepInterval;
  cfg_maxEntries := 0;
  cfg_metrics := false;
  cfg_ranker := DefaultRankerConfig;
  cfg_ttlResolver := None;
  cfg_quotaResolver := None;
  cfg_evictionResolver := None;
  cfg_reservedTenants := {[ProbeTenantID]}
|}.

Definition sampleConfig : Config := mkConfig "r1" "m" "t" "vllm" {[1 := "sql"]}.

Definition sampleBatch : EventBatch :=
  mkEventBatch (f64_of_Z 5)
    [EvStored (mkBlockStored ["e1"; "e2"] (Some "root") [1; 2; 3; 4] 2 None);
     EvStored (mkBlockStored ["e3"] (Some "e2") [5; 6] 2 (Some 1));
     EvStored (mkBlockStored ["e9"] (Some "e2") [5; 6] 2 (Some 2));
     EvRemoved ["e2"; "zz"]].

Definition sampleInputs : list Input := [InTick; InBatch sampleBatch; InTick].

Lemma delivered_hints_exact_witness :
  let tms := (λ m, (t0, m)) <$> (ReporterRun toyHash sampleConfig false 4096 sampleInputs).2 in
  let k n := default "" ((Chain toyHash [1; 2; 3; 4; 5; 6] 2).1 !! n) in
  hintOf <$> entryAt (deliver openCfg tms emptyIndex) (ownKey sampleConfig "" (k 0%nat)) "r1"
    = Some (2, 1) ∧
  hintOf <$> entryAt (deliver openCfg tms emptyIndex) (ownKey sampleConfig "" (k 1%nat)) "r1"
    = None ∧
  hintOf <$> entryAt (deliver openCfg tms emptyIndex) (ownKey sampleConfig "sql" (k 2%nat)) "r1"
    = Some (6, 1).
Proof.
  intros tms k.
  assert (∀ ad h, hintOf <$> entryAt (deliver openCfg tms emptyIndex) (ownKey sampleConfig ad h) "r1" =
    applyActions ∅ (eventsActions toyHash sampleConfig false ∅ (sampleInputs ≫= inputEvents)).2
      !! (ad, h)) as H.
  { apply (delivered_hints_exact toyHash openCfg sampleConfig false 4096 sampleInputs tms emptyIndex ∅).
    - apply index_wf_empty.
    - vm_compute. discriminate.
    - reflexivity.
    - discriminate.
    - discriminate.
    - reflexivity.
    - intros ad h. reflexivity. }
  split; [|split]; rewrite H; vm_compute; reflexivity.
Defined.

(** C3: what the engine cached is found: after the subscriber's report of the blocks of
    a token sequence, cut into events in any way, reaches a server that does not evict,
    a lookup of any prompt that starts with those tokens returns the replica with at
    least that many matched tokens, whatever else the index holds, as long as the
    report is still fresh and the prompt is below 2^31 tokens. *)
Theorem cached_prompt_found xxh3 cfg c bs adapterID pieces more tsUs u i now lookupNow :
  0 < bs < 2 ^ 31 → Forall (pieceOK bs) pieces →
  let tokens := concat pieces.*2 in
  tokens ≠ [] → Z.of_nat (length (tokens ++ more)) < 2 ^ 31 →
  index_wf (cfg_reservedTenants cfg) i → cfg_maxEntries cfg ≤ 0 →
  tenantQuotaFor cfg (c_TenantID c) = None → c_HashScheme c ≠ "" → c_TenantID c ≠ ProbeTenantID →
  UpdateMsg c tsUs (storePieces xxh3 bs adapterID None pieces ∅).1 = Some u →
  fle (freshnessAt lookupNow (stampOr now (microsToTime tsUs)) (ttlFor cfg (c_TenantID c))) f32_zero
    = false →
  ∃ s, s ∈ Lookup cfg lookupNow (promptRequest xxh3 bs c adapterID (tokens ++ more))
             (reportOne cfg now u i).1 ∧
       s_ReplicaID s = c_ReplicaID c ∧ Z.of_nat (length tokens) ≤ s_MatchedTokens s.
Proof.
  intros Hbs Hok tokens Hne Hmax Hwf Hcap Hq Hs Ht Hu Hf.
  destruct (pieces_length bs Hbs pieces Hok) as [n Hn]. fold tokens in Hn.
  assert (0 < n)%nat as Hpos.
  { destruct n; [|lia]. by apply nil_length_inv in Hn. }
  rewrite (storePieces_entries xxh3 bs adapterID pieces ∅ None 0 false 0) in Hu by (done || lia).
  fold tokens in Hu. unfold UpdateMsg in Hu. case_match; [done|].
  injection Hu as <-. match goal with |- context [reportOne cfg now ?x i] => set (u := x) end.
  assert (ownMsg c (MsgUpdate u)) as Hown.
  { cbn. split_and!; try done. apply entriesFrom_plain. }
  apply (prompt_found xxh3 bs Hbs cfg c lookupNow adapterID tokens more n); [done..|].
  intros h Hh. rewrite <-(entries_keys xxh3 bs adapterID) in Hh.
  apply list_elem_of_fmap in Hh as (e & -> & He).
  apply (reported_fresh cfg c now u i _ adapterID _ lookupNow e); try done.
  by eapply entriesFrom_adapter.
Qed.

Lemma cached_prompt_found_witness :
  let u := mkCacheStateUpdate "r1" "m" "t" "vllm" "" 1000000
             (storePieces toyHash 2 "" None samplePieces ∅).1 None in
  ∃ s, s ∈ Lookup openCfg (t0 + Second)
             (promptRequest toyHash 2 sampleConfig "" ([1; 2; 3; 4; 5; 6] ++ [7; 8; 9]))
             (reportOne openCfg t0 u emptyIndex).1 ∧
       s_ReplicaID s = "r1" ∧ 6 ≤ s_MatchedTokens s.
Proof.
  intros u.
  apply (cached_prompt_found toyHash openCfg sampleConfig 2 "" samplePieces [7; 8; 9] 1000000 u
    emptyIndex t0 (t0 + Second)).
  - split; reflexivity.
  - repeat constructor; discriminate.
  - discriminate.
  - reflexivity.
  - apply index_wf_empty.
  - vm_compute. discriminate.
  - reflexivity.
  - discriminate.
  - discriminate.
  - reflexivity.
  - vm_compute. reflexivity.
Defined.

(** Staleness is logged exactly once per outage: over any sequence of ticks, the
    number of stale transitions logged exceeds the number of recoveries by one while
    at least three consecutive ticks failed to deliver, and equals it otherwise; the
    first stale log says whether a sample was ever delivered. *)
Theorem stale_logged_once_per_outage c ticks :
  let '(r, logs) :=
    foldl (λ '(r, logs) '(nowUs, o), let '(r', l) := statsTick c nowUs r o in (r', logs ++ l))
      (NewStatsReporter, []) ticks in
  countStale logs =
    (countRecovered logs + (if (staleThreshold <=? sr_consecFails r)%Z then 1 else 0))%nat ∧
  0 ≤ sr_consecFails r ∧
  (sr_everDelivered r = false → ∀ b, LogStale b ∈ logs → b = false).
Proof.
  set (step := λ '(r, logs) '(nowUs, o), _).
  pose proof (foldl_inv (λ st, statsInv st.1 st.2) step ticks (NewStatsReporter, [])) as H.
  destruct (foldl step _ ticks) as [r logs]. apply H; [apply statsInv_new|].
  intros [r' logs'] [nowUs o] _ Hinv. unfold step.
  pose proof (statsInv_tick c nowUs r' o logs' Hinv) as Hi. by destruct (statsTick _ _ _ _).
Qed.

(** Evicting a base-model block on a replica without an offload tier drops the
    same token prefix under every adapter: the event names the empty partition, which
    the server reads as "all partitions", so hints that are still valid are lost. *)
Lemma base_eviction_crosses_adapters :
  let evs := [EvStored (mkBlockStored ["base"] None [1; 2] 2 None);
              EvStored (mkBlockStored ["lora"] None [1; 2] 2 (Some 1));
              EvRemoved ["base"]] in
  let tms := (λ m, (t0, m)) <$>
    (ReporterRun toyHash sampleConfig false 4096 [InBatch (mkEventBatch (f64_of_Z 5) evs)]).2 in
  let h := default "" (head (Chain toyHash [1; 2] 2).1) in
  (ReporterRun toyHash sampleConfig false 4096 [InBatch (mkEventBatch (f64_of_Z 5) evs)]).1.(rp_pos)
    !! "lora" = Some (mkPosEntry (ContentHash toyHash [1; 2]) 2 "sql") ∧
  entryAt (deliver openCfg tms emptyIndex) (ownKey sampleConfig "sql" h) "r1" = None.
Proof. vm_compute. done. Qed.
