(* ===== verification/Scraper.v ===== *)
(** * The engine metrics scraper (subscriber/metrics_scraper.go), the prefix-cache canary
    (internal/canary) and the engine client (pkg/engineclient)

    One [Scrape] turns a Prometheus exposition into the statistics a replica reports.
    The HTTP exchange and the text parser are inputs ([HTTPOutcome]): the parsed
    families are a map from family name to series.  The scraper's state is the
    baseline of the two hit counters. *)

From Stdlib Require Import SpecFloat.
From S2P Require Import Prelude Ordering GoRuntime Floats GoText IndexTypes Service Subscriber.

(** ** The parsed exposition *)

Record Metric := mkMetric {
  mt_Label : list (string * string);
  mt_Gauge : option f64;
  mt_Counter : option f64
}.

Abbreviation Families := (gmap string (list Metric)).

(** ** Configuration *)

Definition CacheTierAuto : string := "auto".
Definition CacheTierKV : string := "kv".
Definition CacheTierGPU : string := "gpu".
Definition CacheTierCPU : string := "cpu".
Definition validCacheTiers : list string := [CacheTierAuto; CacheTierKV; CacheTierGPU; CacheTierCPU].

Definition IsValid (t : string) : bool := existsb (str_eqb t) validCacheTiers.
Definition ValidCacheTierNames : list string := validCacheTiers.

Definition metricKVUsage : string := "vllm:kv_cache_usage_perc".
Definition metricGPUUsage : string := "vllm:gpu_cache_usage_perc".
Definition metricCPUUsage : string := "vllm:cpu_cache_usage_perc".
Definition metricHits : string := "vllm:prefix_cache_hits".
Definition metricQueries : string := "vllm:prefix_cache_queries".
Definition metricExtHits : string := "vllm:external_prefix_cache_hits".
Definition metricExtQueries : string := "vllm:external_prefix_cache_queries".
Definition metricRunning : string := "vllm:num_requests_running".
Definition metricWaiting : string := "vllm:num_requests_waiting".
Definition defaultScrapeTimeout : Duration := 5 * Second.

Definition sglangUsage : string := "sglang:token_usage".
Definition sglangHitRate : string := "sglang:cache_hit_rate".
Definition sglangRunning : string := "sglang:num_running_reqs".
Definition sglangWaiting : string := "sglang:num_queue_reqs".

Inductive hitRateMode := hitRateCounterDelta | hitRateDirectGauge.

Record usageSpec := mkUsageSpec { us_kv : string; us_gpu : string; us_cpu : string }.

Record metricProfile := mkProfile {
  mp_scheme : string;
  mp_usage : usageSpec;
  mp_running : string;
  mp_waiting : string;
  mp_hitRateMode : hitRateMode;
  mp_hitGauge : string;
  mp_hits : string;
  mp_queries : string;
  mp_extHits : string;
  mp_extQueries : string
}.

Definition knownNames (p : metricProfile) : list string :=
  List.filter (λ n, negb (str_eqb n ""))
    [us_kv (mp_usage p); us_gpu (mp_usage p); us_cpu (mp_usage p); mp_running p; mp_waiting p;
     mp_hitGauge p; mp_hits p; mp_queries p; mp_extHits p; mp_extQueries p].

Definition vllmProfile : metricProfile :=
  mkProfile "vllm" (mkUsageSpec metricKVUsage metricGPUUsage metricCPUUsage) metricRunning
    metricWaiting hitRateCounterDelta "" metricHits metricQueries metricExtHits metricExtQueries.

Definition sglangProfile : metricProfile :=
  mkProfile "sglang" (mkUsageSpec sglangUsage "" "") sglangRunning sglangWaiting
    hitRateDirectGauge sglangHitRate "" "" "" "".

Definition profileForScheme (scheme : string) : metricProfile :=
  if str_eqb scheme "sglang" then sglangProfile else vllmProfile.

Record ScraperConfig := mkScraperConfig {
  sc_Scheme : string;
  sc_Tier : string;
  sc_ModelLabel : string;
  sc_CacheSizeBytes : Z;
  sc_MaxConcurrencyCeiling : Z;
  sc_Timeout : Duration
}.

Record MetricsScraper := mkScraper {
  ms_cfg : ScraperConfig;
  ms_profile : metricProfile;
  ms_prevHits : f64;
  ms_prevQueries : f64;
  ms_havePrev : bool
}.

Definition f64_zero : f64 := S754_zero false.

(** The scraper and whether the unknown scheme was logged. *)
Definition NewMetricsScraper (cfg : ScraperConfig) : MetricsScraper * bool :=
  let cfg := mkScraperConfig (sc_Scheme cfg)
    (if str_eqb (sc_Tier cfg) "" then CacheTierAuto else sc_Tier cfg) (sc_ModelLabel cfg)
    (sc_CacheSizeBytes cfg) (sc_MaxConcurrencyCeiling cfg)
    (if sc_Timeout cfg <=? 0 then defaultScrapeTimeout else sc_Timeout cfg) in
  let profile := profileForScheme (sc_Scheme cfg) in
  (mkScraper cfg profile f64_zero f64_zero false,
   negb (str_eqb (sc_Scheme cfg) "") && negb (str_eqb (sc_Scheme cfg) (mp_scheme profile))).

(** ** Reading series *)

(** The value of the first label with this name. *)
Definition labelValue (name : string) (m : Metric) : option string :=
  snd <$> List.find (λ lp, str_eqb lp.1 name) (mt_Label m).

Definition modelLabelName : string := "model_name".

Definition modelLabelMatches (m : Metric) (want : string) : bool :=
  if str_eqb want "" then true
  else match labelValue modelLabelName m with Some v => str_eqb v want | None => false end.

Definition isPriorityBreakdown (m : Metric) : bool :=
  match labelValue "priority" m with Some v => negb (str_eqb v "") | None => false end.

Inductive gaugeAgg := aggSumTotals | aggMax.

Definition isSum (agg : gaugeAgg) : bool := match agg with aggSumTotals => true | aggMax => false end.

(** One iteration of the loop of [aggregateGauge] on (acc, found). *)
Definition gaugeStep (modelLabel : string) (agg : gaugeAgg) (st : f64 * bool) (m : Metric) : f64 * bool :=
  let '(acc, found) := st in
  if negb (modelLabelMatches m modelLabel) then st
  else match mt_Gauge m with
       | None => st
       | Some v =>
           if isSum agg && isPriorityBreakdown m then st
           else if is_nan v || is_inf v then st
           else if negb found then (v, true)
           else match agg with
                | aggSumTotals => (f64_add acc v, found)
                | aggMax => if flt acc v then (v, found) else (acc, found)
                end
       end.

Definition aggregateGauge (families : Families) (name modelLabel : string) (agg : gaugeAgg) : f64 * bool :=
  match families !! name with
  | None => (f64_zero, false)
  | Some mf => foldl (gaugeStep modelLabel agg) (f64_zero, false) mf
  end.

Definition counterStep (modelLabel : string) (st : f64 * bool) (m : Metric) : f64 * bool :=
  let '(v, matched) := st in
  if negb (modelLabelMatches m modelLabel) then st
  else match mt_Counter m with
       | None => st
       | Some cv => if is_nan cv || is_inf cv then st else (f64_add v cv, true)
       end.

Definition counterFamily (families : Families) (name : string) : option (list Metric) :=
  match families !! (name +:+ "_total") with Some mf => Some mf | None => families !! name end.

Definition sumCounter (families : Families) (name modelLabel : string) : f64 * bool :=
  match counterFamily families name with
  | None => (f64_zero, false)
  | Some mf => foldl (counterStep modelLabel) (f64_zero, false) mf
  end.

Definition hasAnyKnownFamily (families : Families) (p : metricProfile) : bool :=
  existsb (λ name, bool_decide (is_Some (families !! name)) ||
                   bool_decide (is_Some (families !! (name +:+ "_total")))) (knownNames p).

Definition selectUsage (tier : string) (families : Families) (spec : usageSpec) (modelLabel : string) :
    f64 * bool :=
  if str_eqb tier CacheTierKV then aggregateGauge families (us_kv spec) modelLabel aggMax
  else if str_eqb tier CacheTierGPU then aggregateGauge families (us_gpu spec) modelLabel aggMax
  else if str_eqb tier CacheTierCPU then aggregateGauge families (us_cpu spec) modelLabel aggMax
  else
    let '(v, ok) := aggregateGauge families (us_kv spec) modelLabel aggMax in
    if (ok : bool) then (v, true)
    else
      let '(gpu, haveGPU) := aggregateGauge families (us_gpu spec) modelLabel aggMax in
      let '(cpu, haveCPU) := aggregateGauge families (us_cpu spec) modelLabel aggMax in
      if haveGPU && haveCPU then (if fle cpu gpu then (gpu, true) else (cpu, true))
      else if (haveGPU : bool) then (gpu, true)
      else if (haveCPU : bool) then (cpu, true)
      else (f64_zero, false).

(** ** Derived values *)

Definition clamp01 (v : f64) : f64 :=
  if flt v f64_zero then f64_zero else if flt f64_one v then f64_one else v.

Definition pressureFrom (load : f64) (ceiling : Z) : f64 :=
  if (ceiling <=? 0) || fle load f64_zero then f64_zero
  else clamp01 (f64_div load (f64_of_Z ceiling)).

Definition consumeHitRate (hits queries : f64) (present : bool) (s : MetricsScraper) :
    MetricsScraper * f64 :=
  if negb present then (s, f64_zero)
  else if negb (ms_havePrev s)
  then (mkScraper (ms_cfg s) (ms_profile s) hits queries true, f64_zero)
  else
    let dHits := f64_sub hits (ms_prevHits s) in
    let dQueries := f64_sub queries (ms_prevQueries s) in
    let s := mkScraper (ms_cfg s) (ms_profile s) hits queries (ms_havePrev s) in
    if flt dHits f64_zero || fle dQueries f64_zero then (s, f64_zero)
    else (s, clamp01 (f64_div dHits dQueries)).

Definition hitRate (families : Families) (s : MetricsScraper) : MetricsScraper * f64 :=
  let p := ms_profile s in
  match mp_hitRateMode p with
  | hitRateDirectGauge =>
      let '(v, ok) := aggregateGauge families (mp_hitGauge p) (sc_ModelLabel (ms_cfg s)) aggMax in
      if negb ok then (s, f64_zero) else (s, clamp01 v)
  | hitRateCounterDelta =>
      let '(hits, haveHits) := sumCounter families (mp_hits p) (sc_ModelLabel (ms_cfg s)) in
      let '(queries, haveQueries) := sumCounter families (mp_queries p) (sc_ModelLabel (ms_cfg s)) in
      consumeHitRate hits queries (haveHits && haveQueries) s
  end.

(** ** One scrape *)

Inductive HTTPOutcome :=
  | BuildFailed
  | DoFailed
  | Responded (status : Z) (parsed : option Families).   (* None: the body does not parse *)

Inductive ScrapeError :=
  | ErrBuildRequest | ErrTransport | ErrStatus (code : Z) | ErrParse
  | ErrNoKnownFamily | ErrLoadGauges (haveRunning haveWaiting : bool).

Definition Scrape (o : HTTPOutcome) (s : MetricsScraper) : MetricsScraper * (ScrapeError + StatsMsg) :=
  match o with
  | BuildFailed => (s, inl ErrBuildRequest)
  | DoFailed => (s, inl ErrTransport)
  | Responded status parsed =>
      if negb (status =? 200) then (s, inl (ErrStatus status))
      else match parsed with
      | None => (s, inl ErrParse)
      | Some families =>
          let p := ms_profile s in
          let cfg := ms_cfg s in
          if negb (hasAnyKnownFamily families p) then (s, inl ErrNoKnownFamily)
          else
            let '(running, haveRunning) := aggregateGauge families (mp_running p) (sc_ModelLabel cfg) aggSumTotals in
            let '(waiting, haveWaiting) := aggregateGauge families (mp_waiting p) (sc_ModelLabel cfg) aggSumTotals in
            if negb haveRunning || negb haveWaiting
            then (s, inl (ErrLoadGauges haveRunning haveWaiting))
            else
              let pressure := pressureFrom (f64_add running waiting) (sc_MaxConcurrencyCeiling cfg) in
              let usage := (selectUsage (sc_Tier cfg) families (mp_usage p) (sc_ModelLabel cfg)).1 in
              let '(s, hit) := hitRate families s in
              let extHits := (sumCounter families (mp_extHits p) (sc_ModelLabel cfg)).1 in
              let extQueries := (sumCounter families (mp_extQueries p) (sc_ModelLabel cfg)).1 in
              let cacheBytes :=
                if 0 <? sc_CacheSizeBytes cfg
                then int64_of_f64 (f64_mul usage (f64_of_Z (sc_CacheSizeBytes cfg))) else 0 in
              (s, inr (mkStatsMsg cacheBytes (f32_of_f64 hit) (f32_of_f64 pressure)
                         (int64_of_f64 extHits) (int64_of_f64 extQueries)))
      end
  end.

(** ** What is read *)

(** The readings of a family that take part: the model's, finite, no breakdown in a sum. *)
Definition gaugeReading (modelLabel : string) (agg : gaugeAgg) (m : Metric) : option f64 :=
  v ← mt_Gauge m;
  if modelLabelMatches m modelLabel && negb (isSum agg && isPriorityBreakdown m) && finite v
  then Some v else None.

Definition gaugeReadings (families : Families) (name modelLabel : string) (agg : gaugeAgg) : list f64 :=
  omap (gaugeReading modelLabel agg) (default [] (families !! name)).

Definition aggStep (agg : gaugeAgg) (acc v : f64) : f64 :=
  match agg with aggSumTotals => f64_add acc v | aggMax => if flt acc v then v else acc end.

Lemma gaugeStep_reading lbl agg acc found m :
  gaugeStep lbl agg (acc, found) m =
    match gaugeReading lbl agg m with
    | None => (acc, found)
    | Some v => (if found then aggStep agg acc v else v, true)
    end.
Proof.
  unfold gaugeStep, gaugeReading, finite, aggStep.
  destruct (modelLabelMatches m lbl), (mt_Gauge m) as [v|]; simpl; try done.
  destruct (isSum agg && isPriorityBreakdown m); simpl; [done|].
  destruct (is_nan v || is_inf v); simpl; [done|].
  destruct found, agg; simpl; try done. by destruct (flt acc v).
Qed.

Lemma gauge_fold lbl agg mf acc found :
  foldl (gaugeStep lbl agg) (acc, found) mf =
    match omap (gaugeReading lbl agg) mf with
    | [] => (acc, found)
    | v :: vs => (foldl (aggStep agg) (if found then aggStep agg acc v else v) vs, true)
    end.
Proof.
  revert acc found. induction mf as [|m mf IH]; intros acc found; [done|].
  cbn [foldl omap list_omap]. rewrite gaugeStep_reading.
  destruct (gaugeReading lbl agg m) as [v|]; [|apply IH]. rewrite IH.
  by destruct (omap _ mf).
Qed.

Lemma aggregateGauge_readings families name lbl agg :
  aggregateGauge families name lbl agg =
    match gaugeReadings families name lbl agg with
    | [] => (f64_zero, false)
    | v :: vs => (foldl (aggStep agg) v vs, true)
    end.
Proof.
  unfold aggregateGauge, gaugeReadings. destruct (families !! name) as [mf|]; [|done].
  simpl. by rewrite gauge_fold.
Qed.

Lemma readings_finite families name lbl agg v :
  v ∈ gaugeReadings families name lbl agg → finite v = true.
Proof.
  unfold gaugeReadings. rewrite list_elem_of_omap. intros (m & _ & Hm).
  unfold gaugeReading in Hm. destruct (mt_Gauge m) as [w|]; [|done]. simpl in Hm.
  destruct (_ && _) eqn:E; [|done]. injection Hm as ->. by apply andb_true_iff in E as [_ ?].
Qed.

Lemma max_fold v vs :
  Forall not_nan (v :: vs) →
  let r := foldl (aggStep aggMax) v vs in
  r ∈ v :: vs ∧ ∀ w, w ∈ v :: vs → fle w r = true.
Proof.
  revert v. induction vs as [|u vs IH]; intros v Hn; cbn [foldl].
  { split; [left|]. intros w [->|?%elem_of_nil]%elem_of_cons; [|done].
    inversion_clear Hn. by apply fle_refl. }
  inversion_clear Hn as [|?? Hv Hn']. inversion_clear Hn' as [|?? Hu Hvs].
  specialize (IH (aggStep aggMax v u)). revert IH.
  generalize (foldl (aggStep aggMax) (aggStep aggMax v u) vs) as r. intros r IH. cbn zeta in IH.
  cbn [aggStep] in IH.
  destruct IH as [Hin Hle]. { constructor; [by destruct (flt v u)|done]. }
  assert (not_nan r) as Hr.
  { rewrite Forall_forall in Hvs. apply elem_of_cons in Hin as [->|?]; [by destruct (flt v u)|auto]. }
  split.
  - apply elem_of_cons in Hin as [->|?]; [|by do 2 right].
    destruct (flt v u); [right; left|left].
  - assert (fle (if flt v u then u else v) r = true) as Hm by (apply Hle; left).
    intros w [->|[->|Hw]%elem_of_cons]%elem_of_cons; [| |apply Hle; by right].
    + destruct (flt v u) eqn:E; [|done]. apply (fle_trans v u r); auto. by apply flt_fle.
    + destruct (flt v u) eqn:E; [done|]. apply (fle_trans u v r); auto. by apply fle_flip.
Qed.

(** ** When a scrape is accepted *)

Definition hasReading (families : Families) (name modelLabel : string) : Prop :=
  gaugeReadings families name modelLabel aggSumTotals ≠ [].

Lemma hasReading_family families p lbl :
  mp_running p ≠ "" → hasReading families (mp_running p) lbl → hasAnyKnownFamily families p = true.
Proof.
  intros Hne Hr. unfold hasAnyKnownFamily. apply existsb_exists. exists (mp_running p). split.
  - unfold knownNames. apply filter_In. split; [simpl; tauto|].
    apply negb_true_iff. by apply str_eqb_neq.
  - apply orb_true_iff. left. apply bool_decide_eq_true. unfold hasReading, gaugeReadings in Hr.
    by destruct (families !! mp_running p).
Qed.

Lemma hitRate_config families s :
  ms_cfg (hitRate families s).1 = ms_cfg s ∧ ms_profile (hitRate families s).1 = ms_profile s.
Proof.
  unfold hitRate, consumeHitRate. repeat case_match; simplify_eq/=; done.
Qed.

(** The shape of an accepted scrape. *)
Lemma Scrape_inv o s s' st :
  Scrape o s = (s', inr st) →
  ∃ families, o = Responded 200 (Some families) ∧
    hasReading families (mp_running (ms_profile s)) (sc_ModelLabel (ms_cfg s)) ∧
    hasReading families (mp_waiting (ms_profile s)) (sc_ModelLabel (ms_cfg s)) ∧
    s' = (hitRate families s).1 ∧ sm_HitRate st = f32_of_f64 (hitRate families s).2.
Proof.
  unfold Scrape, hasReading. destruct o as [| |status [families|]]; try done.
  2:{ by destruct (negb _). }
  destruct (Z.eqb_spec status 200) as [->|]; simpl; [|done].
  destruct (hasAnyKnownFamily families _); simpl; [|done].
  rewrite !aggregateGauge_readings.
  destruct (gaugeReadings families (mp_running _) _ _) as [|r rs] eqn:Er; simpl.
  { by destruct (gaugeReadings families (mp_waiting _) _ _). }
  destruct (gaugeReadings families (mp_waiting _) _ _) as [|w ws] eqn:Ew; simpl; [done|].
  destruct (hitRate families s) as [s1 h] eqn:Eh. intros [= <- <-].
  exists families. by rewrite Er, Ew, Eh.
Qed.

Lemma Scrape_ok families s :
  mp_running (ms_profile s) ≠ "" →
  hasReading families (mp_running (ms_profile s)) (sc_ModelLabel (ms_cfg s)) →
  hasReading families (mp_waiting (ms_profile s)) (sc_ModelLabel (ms_cfg s)) →
  ∃ st, (Scrape (Responded 200 (Some families)) s).2 = inr st.
Proof.
  intros Hne Hr Hw. unfold Scrape. simpl. rewrite (hasReading_family _ _ _ Hne Hr). simpl.
  unfold hasReading in *. rewrite !aggregateGauge_readings.
  destruct (gaugeReadings families (mp_running _) _ _); [done|].
  destruct (gaugeReadings families (mp_waiting _) _ _); [done|]. simpl.
  destruct (hitRate families s). by eexists.
Qed.

Lemma Scrape_rejected o s s' e : Scrape o s = (s', inl e) → s' = s.
Proof.
  unfold Scrape. destruct o as [| |status [families|]]; try by intros [= <-].
  all: destruct (negb _); [by intros [= <-]|]; try by intros [= <-].
  destruct (negb _); [by intros [= <-]|].
  destruct (aggregateGauge _ _ _ _) as [r hr], (aggregateGauge _ _ _ _) as [w hw].
  destruct (negb hr || negb hw); [by intros [= <-]|]. by destruct (hitRate families s).
Qed.

(** ** The hit counters over time *)

(** The counters an accepted scrape carries, when it carries both. *)
Definition sampleOf (cfg : ScraperConfig) (p : metricProfile) (o : HTTPOutcome) : option (f64 * f64) :=
  match o with
  | Responded status (Some families) =>
      let '(hits, haveHits) := sumCounter families (mp_hits p) (sc_ModelLabel cfg) in
      let '(queries, haveQueries) := sumCounter families (mp_queries p) (sc_ModelLabel cfg) in
      if (status =? 200) && (haveHits && haveQueries) &&
         (aggregateGauge families (mp_running p) (sc_ModelLabel cfg) aggSumTotals).2 &&
         (aggregateGauge families (mp_waiting p) (sc_ModelLabel cfg) aggSumTotals).2
      then Some (hits, queries) else None
  | _ => None
  end.

(** The rate between two samples: nothing on a reset or without new queries. *)
Definition rateBetween (prev cur : option (f64 * f64)) : f64 :=
  match prev, cur with
  | Some (h0, q0), Some (h, q) =>
      if flt (f64_sub h h0) f64_zero || fle (f64_sub q q0) f64_zero then f64_zero
      else clamp01 (f64_div (f64_sub h h0) (f64_sub q q0))
  | _, _ => f64_zero
  end.

Definition baseline (s : MetricsScraper) : option (f64 * f64) :=
  if ms_havePrev s then Some (ms_prevHits s, ms_prevQueries s) else None.

Definition runScrapes (s : MetricsScraper) (os : list HTTPOutcome) : MetricsScraper :=
  foldl (λ s o, (Scrape o s).1) s os.

Lemma consumeHitRate_spec hits queries (present : bool) (s : MetricsScraper) :
  let cur := if present then Some (hits, queries) else None in
  let '(s', r) := consumeHitRate hits queries present s in
  r = rateBetween (baseline s) cur ∧
  baseline s' = (if cur then cur else baseline s) ∧
  ms_cfg s' = ms_cfg s ∧ ms_profile s' = ms_profile s.
Proof.
  unfold consumeHitRate, baseline, rateBetween. destruct present, (ms_havePrev s) eqn:E; simpl;
    rewrite ?E; try done.
  by destruct (_ || _); simpl; rewrite ?E.
Qed.

Lemma Scrape_step (o : HTTPOutcome) (s : MetricsScraper) :
  mp_running (ms_profile s) ≠ "" → mp_hitRateMode (ms_profile s) = hitRateCounterDelta →
  let cur := sampleOf (ms_cfg s) (ms_profile s) o in
  let '(s', r) := Scrape o s in
  ms_cfg s' = ms_cfg s ∧ ms_profile s' = ms_profile s ∧
  baseline s' = (if cur then cur else baseline s) ∧
  ∀ st, r = inr st → sm_HitRate st = f32_of_f64 (rateBetween (baseline s) cur).
Proof.
  intros Hne Hmode cur. destruct (Scrape o s) as [s' [e|st]] eqn:E.
  - assert (cur = None) as ->; [|by rewrite (Scrape_rejected _ _ _ _ E)].
    unfold cur, sampleOf. destruct o as [| |status [families|]]; try done.
    destruct (sumCounter families (mp_hits _) _) as [h hh], (sumCounter families (mp_queries _) _) as [q hq].
    destruct (Z.eqb_spec status 200) as [->|]; [|done]. destruct (hh && hq); [simpl|done].
    rewrite !aggregateGauge_readings. pose proof (Scrape_ok families s Hne) as Hok.
    unfold hasReading in Hok.
    destruct (gaugeReadings families (mp_running _) _ _); [done|].
    destruct (gaugeReadings families (mp_waiting _) _ _); [done|].
    destruct Hok as [st Hst]; [done..|]. by rewrite E in Hst.
  - apply Scrape_inv in E as (families & -> & Hr & Hw & -> & Hst).
    unfold hasReading in Hr, Hw. revert Hst. unfold cur, sampleOf, hitRate. rewrite Hmode.
    rewrite !aggregateGauge_readings.
    destruct (gaugeReadings families (mp_running _) _ _); [done|].
    destruct (gaugeReadings families (mp_waiting _) _ _); [done|].
    destruct (sumCounter families (mp_hits _) _) as [h hh], (sumCounter families (mp_queries _) _) as [q hq].
    pose proof (consumeHitRate_spec h q (hh && hq) s) as Hc. simpl in Hc.
    destruct (consumeHitRate h q (hh && hq) s) as [s' r]. destruct Hc as (-> & Hb & Hcfg & Hp).
    simpl. rewrite !andb_true_r. intros Hst. split_and!; try done.
    intros st' [= <-]. done.
Qed.

Lemma last_snoc_opt {A : Type} (l : list A) (x : option A) :
  last (l ++ option_list x) = (if x then x else last l).
Proof. destruct x; simpl; [apply last_snoc|by rewrite app_nil_r]. Qed.

Lemma runScrapes_baseline os s :
  mp_running (ms_profile s) ≠ "" → mp_hitRateMode (ms_profile s) = hitRateCounterDelta →
  baseline s = None →
  let s' := runScrapes s os in
  ms_cfg s' = ms_cfg s ∧ ms_profile s' = ms_profile s ∧
  baseline s' = last (omap (sampleOf (ms_cfg s) (ms_profile s)) os).
Proof.
  intros Hne Hmode Hb. induction os as [|o os IH] using rev_ind; [done|].
  unfold runScrapes in *. rewrite foldl_app. cbn [foldl]. set (s1 := foldl (λ s o, (Scrape o s).1) s os) in *.
  destruct IH as (Hc & Hp & IH).
  pose proof (Scrape_step o s1) as Hs. rewrite Hp, Hc in Hs. specialize (Hs Hne Hmode).
  simpl in Hs. destruct (Scrape o s1) as [s2 r]. simpl. destruct Hs as (Hc2 & Hp2 & Hb2 & _).
  split_and!; [congruence..|]. rewrite Hb2, IH, omap_app. simpl.
  destruct (sampleOf (ms_cfg s) (ms_profile s) o); simpl; [by rewrite last_snoc|by rewrite app_nil_r].
Qed.

(** The [max] aggregation reports the largest usable reading. *)
Lemma aggregateGauge_max families name lbl v :
  aggregateGauge families name lbl aggMax = (v, true) →
  v ∈ gaugeReadings families name lbl aggMax ∧
  ∀ w, w ∈ gaugeReadings families name lbl aggMax → fle w v = true.
Proof.
  rewrite aggregateGauge_readings.
  destruct (gaugeReadings families name lbl aggMax) as [|u us] eqn:E; [done|].
  intros [= <-]. apply max_fold. apply Forall_forall. intros w Hw.
  apply finite_not_nan. apply (readings_finite families name lbl aggMax). by rewrite E.
Qed.

(** A scrape is accepted exactly when the endpoint answered 200 with an exposition that
    has a usable reading (of the configured model, finite, not a per-priority breakdown) of
    both load gauges of the scraper's engine; so a wrong engine, port or model label fails
    instead of reporting zero load, and a rejected scrape leaves the scraper unchanged. *)
Theorem scrape_accepted_iff o s :
  ms_profile s = profileForScheme (sc_Scheme (ms_cfg s)) →
  let p := ms_profile s in
  let label := sc_ModelLabel (ms_cfg s) in
  ((∃ st, (Scrape o s).2 = inr st) ↔
   ∃ families, o = Responded 200 (Some families) ∧
     gaugeReadings families (mp_running p) label aggSumTotals ≠ [] ∧
     gaugeReadings families (mp_waiting p) label aggSumTotals ≠ []) ∧
  (∀ e, (Scrape o s).2 = inl e → (Scrape o s).1 = s).
Proof.
  intros Hp p label. split; [split|].
  - intros [st E]. destruct (Scrape o s) as [s' r] eqn:Es. simpl in E. subst r.
    apply Scrape_inv in Es as (families & -> & Hr & Hw & _). eauto.
  - intros (families & -> & Hr & Hw). apply Scrape_ok; [|done..].
    rewrite Hp. unfold profileForScheme. by destruct (str_eqb _ _).
  - intros e E. destruct (Scrape o s) as [s' r] eqn:Es. simpl in *. subst r.
    by eapply Scrape_rejected.
Qed.

Definition sampleScraperConfig : ScraperConfig := mkScraperConfig "vllm" "" "m" 1000 10 0.
Definition sampleScraper : MetricsScraper := (NewMetricsScraper sampleScraperConfig).1.
Definition gaugeOf (v : Z) : Metric := mkMetric [(modelLabelName, "m")] (Some (f64_of_Z v)) None.
Definition counterOf (v : Z) : Metric := mkMetric [(modelLabelName, "m")] None (Some (f64_of_Z v)).
Definition sampleFamilies (hits queries : Z) : Families :=
  <[metricRunning := [gaugeOf 2]]> (<[metricWaiting := [gaugeOf 3; gaugeOf 0]]>
    (<["vllm:prefix_cache_hits_total" := [counterOf hits]]>
      (<[metricQueries := [counterOf queries]]> ∅))).

Lemma scrape_accepted_iff_witness :
  ∃ st, (Scrape (Responded 200 (Some (sampleFamilies 1 4))) sampleScraper).2 = inr st.
Proof.
  apply (proj1 (scrape_accepted_iff (Responded 200 (Some (sampleFamilies 1 4))) sampleScraper
           ltac:(reflexivity))).
  exists (sampleFamilies 1 4). split; [done|]. by vm_compute.
Defined.

(** For an engine with hit counters, the hit rate of an accepted scrape is the ratio of the
    growth of the two counters since the last accepted scrape that carried both, clamped to
    [0,1]: failed scrapes and scrapes that lost a counter in between do not move the baseline,
    and the first sample, a counter reset and a tick without new queries report 0. *)
Theorem hit_rate_is_delta cfg os o s' st :
  profileForScheme (sc_Scheme cfg) = vllmProfile →
  Scrape o (runScrapes (NewMetricsScraper cfg).1 os) = (s', inr st) →
  let sample := sampleOf (ms_cfg (NewMetricsScraper cfg).1) vllmProfile in
  sm_HitRate st = f32_of_f64 (rateBetween (last (omap sample os)) (sample o)).
Proof.
  intros Hp E sample. set (s0 := (NewMetricsScraper cfg).1) in *.
  assert (ms_profile s0 = vllmProfile) as Hp0 by done.
  destruct (runScrapes_baseline os s0) as (Hc & Hpr & Hb); [by rewrite Hp0|by rewrite Hp0|done|].
  rewrite Hp0 in *. pose proof (Scrape_step o (runScrapes s0 os)) as Hs.
  rewrite Hpr, Hc, E in Hs. destruct Hs as (_ & _ & _ & Hs); [done..|].
  rewrite (Hs st eq_refl), Hb. done.
Qed.

Lemma hit_rate_is_delta_witness :
  ∃ st, (Scrape (Responded 200 (Some (sampleFamilies 4 8)))
           (runScrapes sampleScraper [Responded 200 (Some (sampleFamilies 1 4)); DoFailed])).2 = inr st ∧
    sm_HitRate st = f32_of_f64 (f64_div (f64_of_Z 3) (f64_of_Z 4)).
Proof.
  destruct (Scrape (Responded 200 (Some (sampleFamilies 4 8)))
    (runScrapes sampleScraper [Responded 200 (Some (sampleFamilies 1 4)); DoFailed])) as [s' [e|st]] eqn:E.
  - exfalso. apply (f_equal snd) in E. by vm_compute in E.
  - exists st. split; [done|].
    rewrite (hit_rate_is_delta sampleScraperConfig _ _ _ _ (ltac:(reflexivity)) E). by vm_compute.
Defined.

(** ** The prefix-cache canary and the engine client (internal/canary, pkg/engineclient) *)

(** [strings.TrimRight(s, slash)]. *)
Fixpoint trimSlashes (s : string) : string :=
  match s with
  | EmptyString => EmptyString
  | String a r =>
      let r' := trimSlashes r in
      if bool_decide (a = "/"%char) && str_eqb r' "" then EmptyString else String a r'
  end.

Record CompletionParams := mkCompletionParams { cpm_MaxTokens : Z; cpm_Temperature : f32 }.

Record Completion := mkCompletion { cn_Text : string; cn_FinishReason : string; cn_PromptTokens : Z; cn_CompletionTokens : Z }.

(** The request body; [max_tokens] is omitted when it is 0. *)
Record completionRequest := mkCompletionRequest {
  crq_Model : string;
  crq_Prompt : list Z;
  crq_MaxTokens : option Z;
  crq_Temperature : f32;
  crq_Stream : bool
}.

Record completionResponse := mkCompletionResponse { crs_Choices : list (string * string); crs_PromptTokens : Z; crs_CompletionTokens : Z }.

(** What the exchange comes to: no request, no response, a body that cannot be read, or the status
    line with its code, the first mebibyte of the body and what it decodes to. *)
Inductive EngineAnswer :=
  | EngineBuildFailed (err : string)
  | EngineDoFailed (err : string)
  | EngineReadFailed (err : string)
  | EngineAnswered (code : Z) (status body : string) (decoded : string + completionResponse).

Definition completionURL (endpoint : string) : string := trimSlashes endpoint +:+ "/v1/completions".

(** Complete with the exchange as a function of URL and body; a temperature that is not a number
    does not marshal. *)
Definition Complete (marshalError : string) (exchange : string → completionRequest → EngineAnswer) (endpoint model : string)
    (tokenIDs : list Z) (p : CompletionParams) : string + Completion :=
  if is_nan (cpm_Temperature p) || is_inf (cpm_Temperature p) then inl ("engineclient: marshal request: " +:+ marshalError)
  else
    let url := completionURL endpoint in
    let req := mkCompletionRequest model tokenIDs (if cpm_MaxTokens p =? 0 then None else Some (cpm_MaxTokens p)) (cpm_Temperature p) false in
    match exchange url req with
    | EngineBuildFailed err => inl ("engineclient: build request: " +:+ err)
    | EngineDoFailed err => inl ("engineclient: POST " +:+ url +:+ ": " +:+ err)
    | EngineReadFailed err => inl ("engineclient: read response: " +:+ err)
    | EngineAnswered code status body decoded =>
        if (code <? 200) || (300 <=? code) then inl ("engineclient: engine returned " +:+ status +:+ ": " +:+ TrimSpace body)
        else match decoded with
        | inl err => inl ("engineclient: decode response: " +:+ err)
        | inr parsed =>
            match crs_Choices parsed with
            | [] => inl ("engineclient: engine returned no choices: " +:+ TrimSpace body)
            | (text, reason) :: _ => inr (mkCompletion text reason (crs_PromptTokens parsed) (crs_CompletionTokens parsed))
            end
        end
    end.

(** The loop of closingBrace from index [i] on. *)
Fixpoint closingBraceFrom (i : nat) (inQuote escaped : bool) (s : string) : option nat :=
  match s with
  | EmptyString => None
  | String c s =>
      if escaped then closingBraceFrom (S i) inQuote false s
      else if inQuote && bool_decide (c = "\"%char) then closingBraceFrom (S i) inQuote true s
      else if bool_decide (c = byte_of_Z 34) then closingBraceFrom (S i) (negb inQuote) false s
      else if bool_decide (c = "}"%char) && negb inQuote then Some i
      else closingBraceFrom (S i) inQuote false s
  end.

Definition closingBrace (s : string) : option nat :=
  match s with EmptyString => None | String _ s => closingBraceFrom 1 false false s end.

(** [s[n:]]. *)
Fixpoint dropBytes (n : nat) (s : string) : string :=
  match n, s with
  | O, _ => s
  | S n, String _ s => dropBytes n s
  | S _, EmptyString => EmptyString
  end.

Definition isBlank (a : ascii) : bool := bool_decide (a = " "%char) || bool_decide (a = byte_of_Z 9).

(** The value token of a line of the metric, when the line is one of its series. *)
Definition seriesValue (metric line : string) : option string :=
  match line with
  | EmptyString => None
  | String a _ =>
      if bool_decide (a = "#"%char) then None
      else
        rest ← CutPrefix metric line;
        match rest with
        | EmptyString => None
        | String b _ =>
            if negb (isBlank b || bool_decide (b = "{"%char)) then None
            else
              rest ← (if bool_decide (b = "{"%char) then (λ e, dropBytes (S e) rest) <$> closingBrace rest else Some rest);
              Some (takeUntil isBlank (TrimSpace rest))
        end
  end.

(** [int(f)]: truncation; what does not fit is the least int64, as on amd64. *)
Definition truncF64 (f : f64) : Z :=
  match f with
  | S754_zero _ => 0
  | S754_finite s m e =>
      let v := (if s then Z.opp else id) (if 0 <=? e then Zpos m * 2 ^ e else Zpos m / 2 ^ (- e)) in
      if (MinInt64 <=? v) && (v <=? MaxInt64) then v else MinInt64
  | _ => MinInt64
  end.

(** The exchange with /metrics: an error, a status other than 200, or what the line scanner yields. *)
Inductive MetricsAnswer := MetricsFailed (err : string) | MetricsStatus (code : Z) (status : string) (lines : string + list string).

Section canary.
Context (parseFloat : string → option f64) (quote : string → string).

Definition scrapeStep (metric : string) (acc : f64 * bool) (line : string) : f64 * bool :=
  match seriesValue metric line ≫= parseFloat with Some v => (f64_add acc.1 v, true) | None => acc end.

Definition scrapeCounter (metric : string) (a : MetricsAnswer) : string + (Z * bool) :=
  match a with
  | MetricsFailed err => inl err
  | MetricsStatus code status lines =>
      if negb (code =? 200) then inl ("metrics endpoint returned " +:+ status)
      else match lines with
      | inl err => inl err
      | inr lines => let '(acc, found) := foldl (scrapeStep metric) (S754_zero false, false) lines in inr (truncF64 acc, found)
      end
  end.

Definition requireCounter (url metric : string) (a : MetricsAnswer) : string + Z :=
  match scrapeCounter metric a with
  | inl err => inl err
  | inr (v, found) => if negb found then inl ("metric " +:+ quote metric +:+ " not found at " +:+ url +:+ " (renamed/disabled?)") else inr v
  end.

Definition defaultHitsMetric : string := "vllm:prefix_cache_hits_total".
Definition defaultQueriesMetric : string := "vllm:prefix_cache_queries_total".

Record PrefixCacheProbe := mkPrefixCacheProbe {
  pcp_Client : bool;                               (* not nil *)
  pcp_EngineURL : string;
  pcp_MetricsURL : string;
  pcp_HitsMetric : string;
  pcp_QueriesMetric : string
}.

Record CanaryResult := mkCanaryResult { cr_HitsDelta : Z; cr_QueriesDelta : Z; cr_Cold : Completion; cr_Warm : Completion }.

(** The answers of one run, in the order of the calls. *)
Record CanaryAnswers := mkCanaryAnswers {
  ca_Cold : string + Completion;
  ca_HitsPre : MetricsAnswer;
  ca_QueriesPre : MetricsAnswer;
  ca_Warm : string + Completion;
  ca_HitsPost : MetricsAnswer;
  ca_QueriesPost : MetricsAnswer
}.

Definition orStr (s d : string) : string := if str_eqb s "" then d else s.

(** [if err != nil { return fmt.Errorf("canary: ...: %w", err) }]. *)
Definition orFail {A B : Type} (what : string) (x : string + A) (k : A → string + B) : string + B :=
  match x with inl err => inl ("canary: " +:+ what +:+ ": " +:+ err) | inr a => k a end.

Definition canaryRun (p : PrefixCacheProbe) (a : CanaryAnswers) : string + CanaryResult :=
  if negb (pcp_Client p) then inl "canary: PrefixCacheProbe.Client is nil"
  else
    let url := orStr (pcp_MetricsURL p) (trimSlashes (pcp_EngineURL p) +:+ "/metrics") in
    let hits := orStr (pcp_HitsMetric p) defaultHitsMetric in
    let queries := orStr (pcp_QueriesMetric p) defaultQueriesMetric in
    orFail "cold request" (ca_Cold a) (λ cold,
    orFail "scrape hits (pre)" (requireCounter url hits (ca_HitsPre a)) (λ hitsPre,
    orFail "scrape queries (pre)" (requireCounter url queries (ca_QueriesPre a)) (λ queriesPre,
    orFail "warm request" (ca_Warm a) (λ warm,
    orFail "scrape hits (post)" (requireCounter url hits (ca_HitsPost a)) (λ hitsPost,
    orFail "scrape queries (post)" (requireCounter url queries (ca_QueriesPost a)) (λ queriesPost,
    inr (mkCanaryResult (wrap64 (hitsPost - hitsPre)) (wrap64 (queriesPost - queriesPre)) cold warm))))))).

(** ** Skipping a label set *)

(** A label value as the exposition format escapes it, and a set of labels. *)
Fixpoint escapeLabel (s : string) : string :=
  match s with
  | EmptyString => EmptyString
  | String c s =>
      if bool_decide (c = "\"%char) || bool_decide (c = byte_of_Z 34) then String "\" (String c (escapeLabel s))
      else String c (escapeLabel s)
  end.

Definition plainName (s : string) : bool :=
  negb (ContainsByte s "}") && negb (ContainsByte s (byte_of_Z 34)).

Definition labelPair (l : string * string) : string := l.1 +:+ "=" +:+ dq +:+ escapeLabel l.2 +:+ dq.
Definition labelSet (ls : list (string * string)) : string := "{" +:+ String.concat "," (labelPair <$> ls) +:+ "}".

Lemma closing_plain i s rest :
  plainName s = true → closingBraceFrom i false false (s +:+ rest) = closingBraceFrom (i + String.length s) false false rest.
Proof.
  unfold plainName, ContainsByte. revert i. induction s as [|c s IH]; intros i; cbn [str_existsb String.append String.length]; [by rewrite Nat.add_0_r|].
  rewrite andb_true_iff, !negb_true_iff, !orb_false_iff. intros [[H1 H2] [H3 H4]]. apply bool_decide_eq_false in H1, H3.
  change (String c s +:+ rest) with (String c (s +:+ rest)). cbn [closingBraceFrom andb].
  rewrite !bool_decide_false by done. cbn [andb]. rewrite IH by (by rewrite H2, H4). f_equal. lia.
Qed.

Lemma closing_value i v rest :
  closingBraceFrom i true false (escapeLabel v +:+ dq +:+ rest) = closingBraceFrom (i + String.length (escapeLabel v) + 1) false false rest.
Proof.
  revert i. induction v as [|c v IH]; intros i.
  { change (escapeLabel "" +:+ dq +:+ rest) with (String (byte_of_Z 34) rest). cbn [closingBraceFrom andb escapeLabel String.length negb].
    rewrite (bool_decide_true (byte_of_Z 34 = byte_of_Z 34)) by done. rewrite bool_decide_false by done. f_equal. lia. }
  cbn [escapeLabel]. destruct (_ || _) eqn:E.
  - change (String "\" (String c (escapeLabel v)) +:+ dq +:+ rest) with (String "\" (String c (escapeLabel v +:+ dq +:+ rest))).
    cbn [closingBraceFrom andb]. rewrite bool_decide_true by done. rewrite IH. cbn [String.length]. f_equal. lia.
  - apply orb_false_iff in E as [E1%bool_decide_eq_false E2%bool_decide_eq_false].
    change (String c (escapeLabel v) +:+ dq +:+ rest) with (String c (escapeLabel v +:+ dq +:+ rest)).
    cbn [closingBraceFrom andb negb]. rewrite (bool_decide_false (c = "\"%char)), (bool_decide_false (c = byte_of_Z 34)) by done.
    rewrite andb_false_r, IH. cbn [String.length]. f_equal. lia.
Qed.

Lemma closing_pair i l rest :
  plainName l.1 = true →
  closingBraceFrom i false false (labelPair l +:+ rest) = closingBraceFrom (i + String.length (labelPair l)) false false rest.
Proof.
  intros Hp. unfold labelPair. rewrite !str_app_assoc, closing_plain by done. rewrite !str_length_app.
  change ("=" +:+ dq +:+ escapeLabel l.2 +:+ dq +:+ rest) with (String "=" (String (byte_of_Z 34) (escapeLabel l.2 +:+ dq +:+ rest))).
  cbn [closingBraceFrom andb bool_decide negb]. rewrite bool_decide_false by done. rewrite bool_decide_false by done. cbn [andb].
  rewrite bool_decide_true by done. rewrite closing_value. f_equal. cbn [String.length dq]. lia.
Qed.
Lemma closing_brace i rest : closingBraceFrom i false false ("}" +:+ rest) = Some i.
Proof. done. Qed.

Lemma closing_pairs i ls rest :
  Forall (λ l, plainName l.1 = true) ls →
  closingBraceFrom i false false (String.concat "," (labelPair <$> ls) +:+ "}" +:+ rest) =
    Some (i + String.length (String.concat "," (labelPair <$> ls)))%nat.
Proof.
  intros H. revert i. induction H as [|l ls Hl H IH]; intros i.
  { cbn [fmap list_fmap String.concat String.length]. change ("" +:+ "}" +:+ rest) with ("}" +:+ rest). by rewrite closing_brace, Nat.add_0_r. }
  destruct ls as [|l' ls].
  - cbn [fmap list_fmap String.concat]. by rewrite closing_pair, closing_brace.
  - change (String.concat "," (labelPair <$> l :: l' :: ls)) with (labelPair l +:+ "," +:+ String.concat "," (labelPair <$> l' :: ls)).
    rewrite !str_app_assoc, closing_pair by done. set (tl := String.concat "," _) in *.
    change ("," +:+ tl +:+ "}" +:+ rest) with (String "," (tl +:+ "}" +:+ rest)). cbn [closingBraceFrom andb].
    rewrite bool_decide_false by done. rewrite bool_decide_false by done. cbn [andb]. rewrite IH, !str_length_app. f_equal. cbn [String.length]. lia.
Qed.

Lemma dropBytes_past s x t : dropBytes (S (String.length s)) (s +:+ String x t) = t.
Proof. induction s as [|y s IH]; [done|]. exact IH. Qed.

(** Whatever the label values contain, quotes, braces and blanks included, the value token of a
    rendered series is read after its label set. *)
Lemma seriesValue_labels metric ls rest :
  metric ≠ "" → HasPrefix metric "#" = false → Forall (λ l, plainName l.1 = true) ls →
  seriesValue metric (metric +:+ labelSet ls +:+ rest) = Some (takeUntil isBlank (TrimSpace rest)).
Proof.
  intros Hne Hh Hls. unfold seriesValue. destruct metric as [|a metric]; [done|].
  rewrite (proj2 (CutPrefix_spec (String a metric) (String a metric +:+ labelSet ls +:+ rest) (labelSet ls +:+ rest))) by done.
  change (String a metric +:+ labelSet ls +:+ rest) with (String a (metric +:+ labelSet ls +:+ rest)). cbn [mbind option_bind].
  rewrite bool_decide_false by (intros ->; by vm_compute in Hh).
  unfold labelSet. rewrite !str_app_assoc. set (body := String.concat "," _).
  change ("{" +:+ body +:+ "}" +:+ rest) with (String "{" (body +:+ "}" +:+ rest)).
  change (isBlank "{") with false. cbn [orb negb]. rewrite !bool_decide_true by done. cbn [negb closingBrace].
  unfold body. rewrite closing_pairs by done. fold body. cbn [fmap option_fmap option_map mbind option_bind dropBytes]. do 3 f_equal.
  change (1 + String.length body)%nat with (S (String.length body)). cbn [dropBytes].
  apply dropBytes_past.
Qed.

(** A metric whose name only begins with the wanted one is not counted. *)
Lemma seriesValue_collision metric c s :
  isBlank c = false → c ≠ "{"%char → seriesValue metric (metric +:+ String c s) = None.
Proof.
  intros Hb Hc. unfold seriesValue. destruct (metric +:+ String c s) as [|a l] eqn:E; [done|]. case_bool_decide; [done|].
  rewrite <-E, (proj2 (CutPrefix_spec metric (metric +:+ String c s) (String c s))) by done. cbn [mbind option_bind].
  by rewrite Hb, bool_decide_false.
Qed.
End canary.

(** A series with a brace and a quote in a label value, with a timestamp; and a bucket of another
    metric. *)
Example series_value_sample :
  let label := ("path", "/a}b" +:+ dq) in
  seriesValue "m_total" ("m_total" +:+ labelSet [("engine", "0"); label] +:+ " 42 1700000000") = Some "42" ∧
  seriesValue "m_total" "m_total 7" = Some "7" ∧ seriesValue "m_total" "m_total_bucket 7" = None ∧
  seriesValue "m_total" "# HELP m_total" = None.
Proof. by vm_compute. Qed.
