(* ===== verification/Decode.v ===== *)
(** * Decoding engine events (subscriber/events.go) and adapter names (subscriber/config.go),
    and the socket loop (subscriber/subscriber.go)

    The msgpack library is a parameter: [Msgpack] lists the [Unmarshal] calls the code
    makes, one per target type, over an opaque raw message.  Everything the package
    itself decides (which wire form, which fields are required, ranges, skipped tags)
    is modelled.  The loop runs over the answers of the socket, the channel and the
    context. *)

From S2P Require Import Prelude Ordering GoRuntime Floats GoText IndexTypes Fingerprint Service Subscriber.

(** ** The library *)

(** A value decoded into [interface{}], by the cases the code distinguishes. *)
Inductive iface :=
  | VNil
  | VBytes (b : string)
  | VString (s : string)
  | VInt (z : Z)           (* reflect.Int .. Int64 *)
  | VUint (z : Z)          (* reflect.Uint .. Uint64 *)
  | VOther.

Record Msgpack (Raw : Type) := mkMsgpack {
  up_list : Raw → option (list Raw);              (* into []RawMessage *)
  up_map : Raw → option (gmap string Raw);        (* into map[string]RawMessage *)
  up_float : Raw → option f64;
  up_string : Raw → option string;
  up_int32 : Raw → option Z;
  up_any : Raw → option iface;
  up_int64s : Raw → option (list Z);
  raw_empty : Raw → bool                          (* len(raw) == 0 *)
}.
Arguments up_list {_}. Arguments up_map {_}. Arguments up_float {_}. Arguments up_string {_}.
Arguments up_int32 {_}. Arguments up_any {_}. Arguments up_int64s {_}. Arguments raw_empty {_}.

(** What the Go types of the targets guarantee. *)
Class MsgpackTyped {Raw : Type} (mp : Msgpack Raw) : Prop := {
  typed_int32 : ∀ r z, up_int32 mp r = Some z → is_int32 z;
  typed_int : ∀ r z, up_any mp r = Some (VInt z) → is_int64 z;
  typed_uint : ∀ r z, up_any mp r = Some (VUint z) → is_uint64 z
}.

Inductive DecodeError :=
  | ErrEnvelope | ErrBatchLength (n : nat) | ErrTs | ErrEvents
  | ErrEventShape | ErrTupleEmpty | ErrTag | ErrNoTag
  | ErrFieldCount (tag : string) (n : nat)
  | ErrRequired (tag field : string)
  | ErrField (tag field : string) (cause : option Z).    (* an out-of-range value, if any *)

Section decode.
Context {Raw : Type} (mp : Msgpack Raw).

(** An [Unmarshal] whose failure is the error [e]. *)
Definition orErr {A E : Type} (e : E) (o : option A) : E + A :=
  match o with Some x => inr x | None => inl e end.

(** ** Fields *)

Definition uint64BE (u : Z) : string := be_bytes 8 u.

Definition hashToBytes (v : iface) : option string :=
  match v with
  | VNil => None
  | VBytes b => Some b
  | VString s => Some s
  | VUint z => Some (uint64BE z)
  | VInt z => Some (uint64BE (wrapu64 z))
  | VOther => None
  end.

Definition decodeHashes (raw : Raw) : option (list string) :=
  elems ← up_list mp raw;
  mapM (λ e, v ← up_any mp e; hashToBytes v) elems.

Definition decodeParent (raw : Raw) : option (option string) :=
  if raw_empty mp raw then Some None
  else v ← up_any mp raw;
       match v with VNil => Some None | _ => Some <$> hashToBytes v end.

(** The error carries the out-of-range id. *)
Definition decodeLoRAID (raw : Raw) : option Z + option Z :=
  if raw_empty mp raw then inr None
  else match up_any mp raw with
       | None => inl None
       | Some VNil => inr None
       | Some (VInt z) => inr (Some z)
       | Some (VUint u) => if MaxInt64 <? u then inl (Some u) else inr (Some u)
       | Some _ => inl None
       end.

Definition tokenID (t : Z) : option Z + Z :=
  if (t <? 0) || (MaxUint32 <? t) then inl (Some t) else inr t.

Definition decodeTokenIDs (raw : Raw) : option Z + list Z :=
  if raw_empty mp raw then inr []
  else let? ids := orErr None (up_int64s mp raw) in mapE tokenID ids.

(** The error of a field of a tagged event. *)
Definition inField {A : Type} (tag field : string) (r : option Z + A) : DecodeError + A :=
  match r with inl c => inl (ErrField tag field c) | inr x => inr x end.

(** ** Events *)

Definition tagStored : string := "BlockStored".
Definition tagRemoved : string := "BlockRemoved".
Definition tagCleared : string := "AllBlocksCleared".

Definition decodeBlockSize (raw : Raw) : DecodeError + Z :=
  let? bs := inField tagStored "block_size" (orErr None (up_int32 mp raw)) in
  if bs <=? 0 then inl (ErrField tagStored "block_size" (Some bs)) else inr bs.

Definition decodeTupleEvent (fields : list Raw) : DecodeError + option EngineEvent :=
  match fields with
  | [] => inl ErrTupleEmpty
  | f0 :: _ =>
      let? tag := orErr ErrTag (up_string mp f0) in
      if str_eqb tag tagStored then
        match fields with
        | _ :: f1 :: f2 :: f3 :: f4 :: more =>
            let? hashes := inField tagStored "block_hashes" (orErr None (decodeHashes f1)) in
            let? parent := inField tagStored "parent_block_hash" (orErr None (decodeParent f2)) in
            let? tokenIDs := inField tagStored "token_ids" (decodeTokenIDs f3) in
            let? bs := decodeBlockSize f4 in
            let? loraID :=
              match more with
              | f5 :: _ => inField tagStored "lora_id" (decodeLoRAID f5)
              | [] => inr None
              end in
            inr (Some (EvStored (mkBlockStored hashes parent tokenIDs bs loraID)))
        | _ => inl (ErrFieldCount tagStored (length fields))
        end
      else if str_eqb tag tagRemoved then
        match fields with
        | _ :: f1 :: _ =>
            let? hashes := inField tagRemoved "block_hashes" (orErr None (decodeHashes f1)) in
            inr (Some (EvRemoved hashes))
        | _ => inl (ErrFieldCount tagRemoved (length fields))
        end
      else if str_eqb tag tagCleared then inr (Some EvCleared)
      else inr None
  end.

Definition decodeMapEvent (fields : gmap string Raw) : DecodeError + option EngineEvent :=
  let? tagRaw := orErr ErrNoTag (fields !! "type") in
  let? tag := orErr ErrTag (up_string mp tagRaw) in
  if str_eqb tag tagStored then
    let? hashesRaw := orErr (ErrRequired tagStored "block_hashes") (fields !! "block_hashes") in
    let? hashes := inField tagStored "block_hashes" (orErr None (decodeHashes hashesRaw)) in
    let? parent :=
      match fields !! "parent_block_hash" with
      | Some parentRaw => inField tagStored "parent_block_hash" (orErr None (decodeParent parentRaw))
      | None => inr None
      end in
    let? tokensRaw := orErr (ErrRequired tagStored "token_ids") (fields !! "token_ids") in
    let? tokenIDs := inField tagStored "token_ids" (decodeTokenIDs tokensRaw) in
    let? blockSizeRaw := orErr (ErrRequired tagStored "block_size") (fields !! "block_size") in
    let? blockSize := decodeBlockSize blockSizeRaw in
    let? loraID :=
      match fields !! "lora_id" with
      | Some loraRaw => inField tagStored "lora_id" (decodeLoRAID loraRaw)
      | None => inr None
      end in
    inr (Some (EvStored (mkBlockStored hashes parent tokenIDs blockSize loraID)))
  else if str_eqb tag tagRemoved then
    let? hashesRaw := orErr (ErrRequired tagRemoved "block_hashes") (fields !! "block_hashes") in
    let? hashes := inField tagRemoved "block_hashes" (orErr None (decodeHashes hashesRaw)) in
    inr (Some (EvRemoved hashes))
  else if str_eqb tag tagCleared then inr (Some EvCleared)
  else inr None.

(** [inr None] is a tag that is skipped. *)
Definition decodeEvent (raw : Raw) : DecodeError + option EngineEvent :=
  match up_map mp raw with
  | Some keyed => decodeMapEvent keyed
  | None =>
      let? fields := orErr ErrEventShape (up_list mp raw) in
      decodeTupleEvent fields
  end.

Definition DecodeEventBatch (payload : Raw) : DecodeError + EventBatch :=
  let? top := orErr ErrEnvelope (up_list mp payload) in
  match top with
  | t0 :: t1 :: _ =>
      let? ts := orErr ErrTs (up_float mp t0) in
      let? rawEvents := orErr ErrEvents (up_list mp t1) in
      let? evs := mapE decodeEvent rawEvents in
      inr (mkEventBatch ts (omap id evs))
  | _ => inl (ErrBatchLength (length top))
  end.

(** ** Decoded events are well typed *)

Definition event_typed (ev : EngineEvent) : Prop :=
  match ev with
  | EvStored e =>
      0 < bs_BlockSize e < 2 ^ 31 ∧ Forall is_uint32 (bs_TokenIDs e) ∧
      match bs_LoRAID e with Some id => is_int64 id | None => True end
  | _ => True
  end.

Lemma inField_inr {A : Type} tag f (r : option Z + A) x : inField tag f r = inr x → r = inr x.
Proof. destruct r; simpl; [done|]. by intros [= ->]. Qed.

Lemma tokenID_typed t t' : tokenID t = inr t' → is_uint32 t'.
Proof. unfold tokenID, is_uint32, MaxUint32. destruct (_ || _) eqn:E; [done|]. intros [= <-]. lia. Qed.

Lemma decodeTokenIDs_typed raw ids : decodeTokenIDs raw = inr ids → Forall is_uint32 ids.
Proof.
  unfold decodeTokenIDs, orErr. destruct (raw_empty mp raw); [intros [= <-]; constructor|].
  destruct (up_int64s mp raw); [|done]. apply mapE_Forall, tokenID_typed.
Qed.

Lemma decodeLoRAID_typed `{!MsgpackTyped mp} raw id : decodeLoRAID raw = inr (Some id) → is_int64 id.
Proof.
  unfold decodeLoRAID. destruct (raw_empty mp raw); [done|].
  destruct (up_any mp raw) as [[]|] eqn:E; try done.
  - intros [= <-]. by apply (typed_int raw).
  - destruct (Z.ltb_spec MaxInt64 z); [done|]. intros [= <-].
    apply typed_uint in E. unfold MaxInt64, is_int64, is_uint64 in *. lia.
Qed.

Lemma decodeBlockSize_typed `{!MsgpackTyped mp} raw bs : decodeBlockSize raw = inr bs → 0 < bs < 2 ^ 31.
Proof.
  unfold decodeBlockSize, orErr. destruct (up_int32 mp raw) eqn:E; simpl; [|done].
  destruct (Z.leb_spec z 0); [done|]. intros [= <-].
  apply typed_int32 in E. unfold is_int32 in E. lia.
Qed.
End decode.

(** Steps through the early returns of a decoder. *)
Ltac decode_steps :=
  repeat match goal with
  | H : inl _ = inr _ |- _ => discriminate H
  | H : (match ?c with inl _ => _ | inr _ => _ end) = inr _ |- _ => destruct c eqn:?
  | H : (if ?c then _ else _) = inr _ |- _ => destruct c eqn:?
  | H : (match ?c with [] => _ | _ :: _ => _ end) = inr _ |- _ => destruct c eqn:?
  | H : (match ?c with Some _ => _ | None => _ end) = inr _ |- _ => destruct c eqn:?
  | H : inr _ = inr _ |- _ => injection H as H
  | H : inField _ _ _ = inr _ |- _ => apply inField_inr in H
  end; subst.

Lemma decodeTupleEvent_typed {Raw} (mp : Msgpack Raw) `{!MsgpackTyped mp} fields ev :
  decodeTupleEvent mp fields = inr (Some ev) → event_typed ev.
Proof.
  unfold decodeTupleEvent, orErr. intros H. decode_steps; simpl; try done.
  all: split_and!; [eapply decodeBlockSize_typed; eassumption..|eapply decodeTokenIDs_typed; eassumption|].
  all: try done; (case_match; [subst; by eapply decodeLoRAID_typed|done]).
Qed.

Lemma decodeMapEvent_typed {Raw} (mp : Msgpack Raw) `{!MsgpackTyped mp} fields ev :
  decodeMapEvent mp fields = inr (Some ev) → event_typed ev.
Proof.
  unfold decodeMapEvent, orErr. intros H. decode_steps; simpl; try done.
  all: split_and!; [eapply decodeBlockSize_typed; eassumption..|eapply decodeTokenIDs_typed; eassumption|].
  all: try done; (case_match; [subst; by eapply decodeLoRAID_typed|done]).
Qed.

(** ** The wire formats

    An encoder as the engines use it, with what it and the library document: decoding
    gives back what was encoded, an array is not a map, integers come back in one of the
    integer kinds that holds them, and a nil is an empty raw message. *)

Record MsgpackEnc (Raw : Type) := mkMsgpackEnc {
  en_list : list Raw → Raw;
  en_map : gmap string Raw → Raw;
  en_float : f64 → Raw;
  en_string : string → Raw;
  en_int : Z → Raw;
  en_bytes : string → Raw;
  en_ints : list Z → Raw;
  en_nil : Raw
}.
Arguments en_list {_}. Arguments en_map {_}. Arguments en_float {_}. Arguments en_string {_}.
Arguments en_int {_}. Arguments en_bytes {_}. Arguments en_ints {_}. Arguments en_nil {_}.

Class MsgpackLaws {Raw : Type} (mp : Msgpack Raw) (en : MsgpackEnc Raw) : Prop := {
  law_list : ∀ l, up_list mp (en_list en l) = Some l;
  law_list_map : ∀ l, up_map mp (en_list en l) = None;
  law_map : ∀ m, up_map mp (en_map en m) = Some m;
  law_float : ∀ x, up_float mp (en_float en x) = Some x;
  law_string : ∀ s, up_string mp (en_string en s) = Some s;
  law_int32 : ∀ z, is_int32 z → up_int32 mp (en_int en z) = Some z;
  law_int : ∀ z, -2^63 ≤ z < 2^64 →
    up_any mp (en_int en z) = Some (VInt z) ∧ is_int64 z ∨
    up_any mp (en_int en z) = Some (VUint z) ∧ 0 ≤ z;
  law_bytes : ∀ b, up_any mp (en_bytes en b) = Some (VBytes b);
  law_text : ∀ s, up_any mp (en_string en s) = Some (VString s);
  law_ints : ∀ l, Forall is_int64 l → up_int64s mp (en_ints en l) = Some l;
  law_nil : raw_empty mp (en_nil en) = true;
  law_full_int : ∀ z, raw_empty mp (en_int en z) = false;
  law_full_bytes : ∀ b, raw_empty mp (en_bytes en b) = false;
  law_full_text : ∀ s, raw_empty mp (en_string en s) = false;
  law_full_ints : ∀ l, raw_empty mp (en_ints en l) = false
}.

Lemma omap_id_fmap {A B : Type} (f : A → option B) (l : list A) : omap id (f <$> l) = omap f l.
Proof.
  induction l as [|x l IH]; [done|]. cbn [fmap list_fmap omap list_omap id].
  destruct (f x); [by f_equal|done].
Qed.

(** A block hash as engines send it: an integer (a Python int of 64 bits, signed or
    not), binary, or text. *)
Inductive WireHash := HInt (z : Z) | HBytes (b : string) | HText (t : string).

Definition hash_ok (h : WireHash) : Prop :=
  match h with HInt z => -2^63 ≤ z < 2^64 | _ => True end.

(** The eight bytes of an integer, the most significant one first, in two's complement
    when it is negative. *)
Definition bigEndian8 (z : Z) : string :=
  foldr (λ k s, String (byte_of_Z (z / 256 ^ k)) s) "" [7; 6; 5; 4; 3; 2; 1; 0].

(** The identity the subscriber keeps for a hash: the bytes themselves, or those eight. *)
Definition hashIdentity (h : WireHash) : string :=
  match h with HInt z => bigEndian8 z | HBytes b => b | HText t => t end.

Lemma byte_of_Z_mod a b : a mod 256 = b mod 256 → byte_of_Z a = byte_of_Z b.
Proof. unfold byte_of_Z. by intros ->. Qed.

Lemma uint64BE_spec z : uint64BE z = bigEndian8 z.
Proof.
  unfold uint64BE, bigEndian8. cbn [be_bytes foldr].
  do 8 (apply f_equal2; [apply byte_of_Z_mod; by rewrite Z.shiftr_div_pow2|]). done.
Qed.

Lemma div_mod_low z k : 0 ≤ k ≤ 7 → ((z mod 2 ^ 64) / 256 ^ k) mod 256 = (z / 256 ^ k) mod 256.
Proof.
  intros Hk. rewrite (Z.div_mod z (2 ^ 64)) at 2 by lia.
  assert (2 ^ 64 = 256 ^ (7 - k) * 256 * 256 ^ k) as Hpow.
  { rewrite (Z.mul_comm _ 256), <-Z.pow_succ_r, <-Z.pow_add_r by lia.
    by replace (Z.succ (7 - k) + k) with 8 by lia. }
  rewrite Hpow at 2.
  set (m := z mod 2 ^ 64). set (q := z / 2 ^ 64).
  assert (256 ^ k ≠ 0) by (apply Z.pow_nonzero; lia).
  replace (256 ^ (7 - k) * 256 * 256 ^ k * q + m) with (m + (256 ^ (7 - k) * q * 256) * 256 ^ k) by ring.
  by rewrite Z.div_add, Z.mod_add by done.
Qed.

Lemma uint64BE_wrap z : uint64BE (wrapu64 z) = bigEndian8 z.
Proof.
  rewrite uint64BE_spec. unfold bigEndian8, wrapu64. cbn [foldr].
  do 8 (apply f_equal2; [apply byte_of_Z_mod; by rewrite div_mod_low|]). done.
Qed.

(** An event as an engine writes it. *)
Inductive WireEvent :=
  | WStored (hs : list WireHash) (parent : option WireHash) (ids : list Z) (bs : Z)
      (lora : option Z)
  | WRemoved (hs : list WireHash)
  | WCleared.

Definition wireMeaning (w : WireEvent) : EngineEvent :=
  match w with
  | WStored hs parent ids bs lora =>
      EvStored (mkBlockStored (hashIdentity <$> hs) (hashIdentity <$> parent) ids bs lora)
  | WRemoved hs => EvRemoved (hashIdentity <$> hs)
  | WCleared => EvCleared
  end.

Definition wire_ok (w : WireEvent) : Prop :=
  match w with
  | WStored hs parent ids bs lora =>
      Forall hash_ok hs ∧ (∀ h, parent = Some h → hash_ok h) ∧ Forall is_uint32 ids ∧
      0 < bs < 2 ^ 31 ∧ (∀ id, lora = Some id → is_int64 id)
  | WRemoved hs => Forall hash_ok hs
  | WCleared => True
  end.

Section wire.
Context {Raw : Type} (mp : Msgpack Raw) (en : MsgpackEnc Raw) {Hlaws : MsgpackLaws mp en}.

Definition encHash (h : WireHash) : Raw :=
  match h with HInt z => en_int en z | HBytes b => en_bytes en b | HText t => en_string en t end.

Definition encHashes (hs : list WireHash) : Raw := en_list en (encHash <$> hs).
Definition encOpt {A : Type} (f : A → Raw) (o : option A) : Raw := from_option f (en_nil en) o.

(** An event as a tagged tuple, with [more] fields the decoder does not know. *)
Definition encTuple (more : list Raw) (ev : WireEvent) : Raw :=
  en_list en
    match ev with
    | WStored hs parent ids bs lora =>
        [en_string en tagStored; encHashes hs; encOpt encHash parent; en_ints en ids;
         en_int en bs; encOpt (en_int en) lora] ++ more
    | WRemoved hs => [en_string en tagRemoved; encHashes hs] ++ more
    | WCleared => en_string en tagCleared :: more
    end.

(** The tuple of a base-model block that stops at the block size. *)
Definition encShort (hs : list WireHash) (parent : option WireHash) (ids : list Z) (bs : Z) : Raw :=
  en_list en [en_string en tagStored; encHashes hs; encOpt encHash parent; en_ints en ids;
              en_int en bs].

(** An optional field of a map, absent or an explicit nil when there is no value. *)
Definition putOpt {A : Type} (nils : bool) (key : string) (f : A → Raw) (o : option A)
    (m : gmap string Raw) : gmap string Raw :=
  match o with
  | Some x => <[key := f x]> m
  | None => if nils then <[key := en_nil en]> m else m
  end.

(** An event as a tagged map, over the [extra] fields the decoder does not know. *)
Definition encMap (nils : bool) (extra : gmap string Raw) (ev : WireEvent) : Raw :=
  en_map en
    match ev with
    | WStored hs parent ids bs lora =>
        putOpt nils "lora_id" (en_int en) lora (putOpt nils "parent_block_hash" encHash parent
          (<["type" := en_string en tagStored]> (<["block_hashes" := encHashes hs]>
          (<["token_ids" := en_ints en ids]> (<["block_size" := en_int en bs]> extra)))))
    | WRemoved hs => <["type" := en_string en tagRemoved]> (<["block_hashes" := encHashes hs]> extra)
    | WCleared => <["type" := en_string en tagCleared]> extra
    end.

(** What an engine puts in a batch: events in either form, and events of other types in
    either form. *)
Inductive WireItem :=
  | WTuple (ev : WireEvent) (more : list Raw)
  | WShort (hs : list WireHash) (parent : option WireHash) (ids : list Z) (bs : Z)
  | WMap (ev : WireEvent) (nils : bool) (extra : gmap string Raw)
  | WUnknownTuple (tag : string) (more : list Raw)
  | WUnknownMap (tag : string) (extra : gmap string Raw).

Definition knownTag (tag : string) : Prop := tag = tagStored ∨ tag = tagRemoved ∨ tag = tagCleared.

Definition encItem (w : WireItem) : Raw :=
  match w with
  | WTuple ev more => encTuple more ev
  | WShort hs parent ids bs => encShort hs parent ids bs
  | WMap ev nils extra => encMap nils extra ev
  | WUnknownTuple tag more => en_list en (en_string en tag :: more)
  | WUnknownMap tag extra => en_map en (<["type" := en_string en tag]> extra)
  end.

Definition itemEvent (w : WireItem) : option EngineEvent :=
  match w with
  | WTuple ev _ | WMap ev _ _ => Some (wireMeaning ev)
  | WShort hs parent ids bs => Some (wireMeaning (WStored hs parent ids bs None))
  | WUnknownTuple _ _ | WUnknownMap _ _ => None
  end.

(** Values in range; the extra fields of a map are not its optional ones. *)
Definition item_ok (w : WireItem) : Prop :=
  match w with
  | WTuple ev _ => wire_ok ev
  | WShort hs parent ids bs => wire_ok (WStored hs parent ids bs None)
  | WMap ev _ extra =>
      wire_ok ev ∧ extra !! "parent_block_hash" = None ∧ extra !! "lora_id" = None
  | WUnknownTuple tag _ | WUnknownMap tag _ => ¬ knownTag tag
  end.

Definition encBatch (ts : f64) (items : list WireItem) (more : list Raw) : Raw :=
  en_list en ([en_float en ts; en_list en (encItem <$> items)] ++ more).

Lemma hashToBytes_enc h :
  hash_ok h → ∃ v, up_any mp (encHash h) = Some v ∧ v ≠ VNil ∧ hashToBytes v = Some (hashIdentity h).
Proof.
  destruct h as [z|b|t]; simpl; intros Hz.
  - destruct (law_int z Hz) as [[-> _]|[-> _]]; eexists; (split; [done|]); (split; [done|]); simpl.
    + by rewrite uint64BE_wrap.
    + by rewrite uint64BE_spec.
  - rewrite law_bytes. by eexists.
  - rewrite law_text. by eexists.
Qed.

Lemma encHash_full h : raw_empty mp (encHash h) = false.
Proof. destruct h; simpl; [apply law_full_int|apply law_full_bytes|apply law_full_text]. Qed.

Lemma decodeHashes_enc hs :
  Forall hash_ok hs → decodeHashes mp (encHashes hs) = Some (hashIdentity <$> hs).
Proof.
  intros Hhs. unfold decodeHashes, encHashes. rewrite law_list. simpl. apply mapM_Some_2.
  induction Hhs as [|h hs Hh _ IH]; constructor; [|done].
  destruct (hashToBytes_enc h Hh) as (v & -> & _ & Hv). by rewrite <-Hv.
Qed.

Lemma decodeParent_enc h :
  hash_ok h → decodeParent mp (encHash h) = Some (Some (hashIdentity h)).
Proof.
  intros Hh. unfold decodeParent. rewrite encHash_full.
  destruct (hashToBytes_enc h Hh) as (v & -> & Hn & Hv). simpl. destruct v; [done|by rewrite Hv..].
Qed.

Lemma decodeParent_nil : decodeParent mp (en_nil en) = Some None.
Proof. unfold decodeParent. by rewrite law_nil. Qed.

Lemma decodeParent_encOpt p :
  (∀ h, p = Some h → hash_ok h) → decodeParent mp (encOpt encHash p) = Some (hashIdentity <$> p).
Proof.
  destruct p as [h|]; simpl; intros Hp; [by apply decodeParent_enc, Hp|apply decodeParent_nil].
Qed.

Lemma decodeTokenIDs_enc ids : Forall is_uint32 ids → decodeTokenIDs mp (en_ints en ids) = inr ids.
Proof.
  intros Hids. unfold decodeTokenIDs. rewrite law_full_ints, law_ints.
  - simpl. rewrite <-(list_fmap_id ids) at 1. rewrite <-(list_fmap_id ids) at 2.
    apply mapE_fmap. intros t Ht. rewrite Forall_forall in Hids. specialize (Hids t Ht).
    unfold tokenID, is_uint32, MaxUint32 in *. simpl.
    rewrite (proj2 (Z.ltb_ge t 0)), (proj2 (Z.ltb_ge (2 ^ 32 - 1) t)) by lia. done.
  - eapply Forall_impl; [done|]. unfold is_uint32, is_int64. intros. simpl in *. lia.
Qed.

Lemma decodeLoRAID_enc id : is_int64 id → decodeLoRAID mp (en_int en id) = inr (Some id).
Proof.
  intros Hid. unfold decodeLoRAID. rewrite law_full_int.
  destruct (law_int id) as [[-> _]|[-> ?]]; [unfold is_int64 in Hid; lia|done|].
  rewrite (proj2 (Z.ltb_ge MaxInt64 id)); [done|]. unfold is_int64, MaxInt64 in *. lia.
Qed.

Lemma decodeLoRAID_nil : decodeLoRAID mp (en_nil en) = inr None.
Proof. unfold decodeLoRAID. by rewrite law_nil. Qed.

Lemma decodeLoRAID_encOpt o :
  (∀ id, o = Some id → is_int64 id) → decodeLoRAID mp (encOpt (en_int en) o) = inr o.
Proof.
  destruct o as [id|]; simpl; intros Ho; [by apply decodeLoRAID_enc, Ho|apply decodeLoRAID_nil].
Qed.

Lemma decodeBlockSize_enc bs : 0 < bs < 2 ^ 31 → decodeBlockSize mp (en_int en bs) = inr bs.
Proof.
  intros Hbs. unfold decodeBlockSize. rewrite law_int32 by (unfold is_int32; lia). simpl.
  by rewrite (proj2 (Z.leb_gt bs 0)) by lia.
Qed.

Lemma decodeEvent_tuple ev more :
  wire_ok ev → decodeEvent mp (encTuple more ev) = inr (Some (wireMeaning ev)).
Proof.
  intros Hok. unfold decodeEvent, encTuple. rewrite law_list_map, law_list.
  destruct ev as [hs p ids bs id|hs|]; simpl in *; rewrite law_string; simpl.
  - destruct Hok as (Hhs & Hp & Hids & Hbs & Hid).
    by rewrite decodeHashes_enc, decodeParent_encOpt, decodeTokenIDs_enc, decodeBlockSize_enc,
      decodeLoRAID_encOpt.
  - by rewrite decodeHashes_enc.
  - done.
Qed.

Lemma decodeEvent_short hs p ids bs :
  wire_ok (WStored hs p ids bs None) →
  decodeEvent mp (encShort hs p ids bs) = inr (Some (wireMeaning (WStored hs p ids bs None))).
Proof.
  intros (Hhs & Hp & Hids & Hbs & _). unfold decodeEvent, encShort. rewrite law_list_map, law_list.
  simpl. rewrite law_string. simpl.
  by rewrite decodeHashes_enc, decodeParent_encOpt, decodeTokenIDs_enc, decodeBlockSize_enc.
Qed.

Lemma decodeEvent_map nils extra ev :
  wire_ok ev → extra !! "parent_block_hash" = None → extra !! "lora_id" = None →
  decodeEvent mp (encMap nils extra ev) = inr (Some (wireMeaning ev)).
Proof.
  intros Hok Hep Hel. unfold decodeEvent, encMap. rewrite law_map.
  destruct ev as [hs p ids bs id|hs|]; unfold decodeMapEvent, putOpt; simpl in Hok.
  - destruct Hok as (Hhs & Hp & Hids & Hbs & Hid).
    destruct p as [p|], id as [id|], nils; simplify_map_eq; rewrite law_string; simpl;
      rewrite decodeHashes_enc by done; simpl;
      rewrite ?decodeParent_enc, ?decodeParent_nil by eauto; simpl;
      rewrite decodeTokenIDs_enc by done; simpl; rewrite decodeBlockSize_enc by done; simpl;
      rewrite ?decodeLoRAID_enc, ?decodeLoRAID_nil by eauto; done.
  - simplify_map_eq. rewrite law_string. simpl. by rewrite decodeHashes_enc.
  - simplify_map_eq. by rewrite law_string.
Qed.

Lemma decodeEvent_unknown tag more :
  ¬ knownTag tag → decodeEvent mp (en_list en (en_string en tag :: more)) = inr None.
Proof.
  intros Hn. unfold decodeEvent. rewrite law_list_map, law_list. simpl. rewrite law_string. simpl.
  unfold knownTag in Hn. by rewrite !(proj2 (str_eqb_neq tag _)) by tauto.
Qed.

Lemma decodeEvent_unknownMap tag extra :
  ¬ knownTag tag → decodeEvent mp (en_map en (<["type" := en_string en tag]> extra)) = inr None.
Proof.
  intros Hn. unfold decodeEvent. rewrite law_map. unfold decodeMapEvent. simplify_map_eq.
  rewrite law_string. simpl. unfold knownTag in Hn.
  by rewrite !(proj2 (str_eqb_neq tag _)) by tauto.
Qed.

Lemma decodeEvent_item w : item_ok w → decodeEvent mp (encItem w) = inr (itemEvent w).
Proof.
  destruct w; simpl; intros Hok.
  - by apply decodeEvent_tuple.
  - by apply decodeEvent_short.
  - destruct Hok as (? & ? & ?). by apply decodeEvent_map.
  - by apply decodeEvent_unknown.
  - by apply decodeEvent_unknownMap.
Qed.

Lemma decodeBatch_enc ts items more :
  Forall item_ok items →
  DecodeEventBatch mp (encBatch ts items more) = inr (mkEventBatch ts (omap itemEvent items)).
Proof.
  intros Hok. unfold DecodeEventBatch, encBatch. rewrite law_list. simpl.
  rewrite law_float, law_list. simpl. rewrite (mapE_fmap encItem (decodeEvent mp) itemEvent).
  - by rewrite omap_id_fmap.
  - intros w Hw. apply decodeEvent_item. rewrite Forall_forall in Hok. auto.
Qed.
End wire.

Lemma decodeEvent_typed {Raw} (mp : Msgpack Raw) `{!MsgpackTyped mp} raw ev :
  decodeEvent mp raw = inr (Some ev) → event_typed ev.
Proof.
  unfold decodeEvent, orErr. intros H. destruct (up_map mp raw); [by eapply decodeMapEvent_typed|].
  destruct (up_list mp raw); [|done]. by eapply decodeTupleEvent_typed.
Qed.

(** C39: Every event of a successfully decoded batch has the types the rest of the subscriber
    relies on: a positive int32 block size, token ids that are uint32 values and, when an
    adapter is named, an int64 adapter id.  Block hashes are opaque bytes of any length. *)
Theorem decoded_batch_typed {Raw} (mp : Msgpack Raw) `{!MsgpackTyped mp} payload b :
  DecodeEventBatch mp payload = inr b → Forall event_typed (eb_Events b).
Proof.
  unfold DecodeEventBatch, orErr. intros H. decode_steps. simpl.
  apply Forall_forall. intros ev (o & Ho & E)%list_elem_of_omap. simpl in E. subst o.
  match goal with H : mapE _ _ = inr _ |- _ =>
    eapply (mapE_Forall (λ o, ∀ ev, o = Some ev → event_typed ev)) in H as Hall end.
  - rewrite Forall_forall in Hall. by eapply Hall.
  - intros x y Hx ev' ->. by eapply decodeEvent_typed.
Qed.

(** A concrete codec: messages as trees. *)
Inductive tree :=
  | TNil | TInt (z : Z) | TFloat (x : f64) | TStr (s : string) | TBytes (b : string)
  | TList (l : list tree) | TMap (m : list (string * tree)).

Definition treeAny (z : Z) : option iface :=
  if (MinInt64 <=? z) && (z <=? MaxInt64) then Some (VInt z)
  else if (MaxInt64 <? z) && (z <? 2 ^ 64) then Some (VUint z) else None.

Definition treeInt (t : tree) : option Z :=
  match t with TInt z => if (MinInt64 <=? z) && (z <=? MaxInt64) then Some z else None | _ => None end.

Arguments treeInt : simpl never.
Arguments treeAny : simpl never.

Definition treeMsgpack : Msgpack tree := {|
  up_list t := match t with TList l => Some l | _ => None end;
  up_map t := match t with TMap m => Some (list_to_map m) | _ => None end;
  up_float t := match t with TFloat x => Some x | _ => None end;
  up_string t := match t with TStr s => Some s | _ => None end;
  up_int32 t := match t with
                | TInt z => if (- 2 ^ 31 <=? z) && (z <? 2 ^ 31) then Some z else None
                | _ => None end;
  up_any t := match t with
              | TNil => Some VNil | TBytes b => Some (VBytes b) | TStr s => Some (VString s)
              | TInt z => treeAny z | _ => Some VOther end;
  up_int64s t := match t with TList l => mapM treeInt l | _ => None end;
  raw_empty t := match t with TNil => true | _ => false end
|}.

Definition treeEnc : MsgpackEnc tree := {|
  en_list := TList; en_map m := TMap (map_to_list m); en_float := TFloat; en_string := TStr;
  en_int := TInt; en_bytes := TBytes; en_ints l := TList (TInt <$> l); en_nil := TNil
|}.

Lemma treeInt_Some t z : treeInt t = Some z → is_int64 z.
Proof.
  unfold treeInt, is_int64, MinInt64, MaxInt64. destruct t; try done.
  destruct (_ && _) eqn:E; [|done]. intros [= <-]. lia.
Qed.

Lemma treeInt_int z : is_int64 z → treeInt (TInt z) = Some z.
Proof.
  unfold treeInt, is_int64, MinInt64, MaxInt64. intros.
  by rewrite (proj2 (Z.leb_le _ _)), (proj2 (Z.leb_le _ _)) by lia.
Qed.

Lemma treeAny_cases z :
  treeAny z = Some (VInt z) ∧ is_int64 z ∨
  treeAny z = Some (VUint z) ∧ is_uint64 z ∧ 2 ^ 63 ≤ z ∨
  treeAny z = None ∧ ¬ -2^63 ≤ z < 2^64.
Proof.
  unfold treeAny, is_int64, is_uint64, MinInt64, MaxInt64.
  destruct (_ && _) eqn:E; [left|right; destruct (_ && _) eqn:E' in |- *; [left|right]];
    (split; [done|lia]).
Qed.

#[export] Instance tree_typed : MsgpackTyped treeMsgpack.
Proof.
  split; simpl.
  - intros r z. destruct r; try done. destruct (_ && _) eqn:E; [|done]. intros [= <-].
    unfold is_int32. lia.
  - intros r z. destruct r; try done. destruct (treeAny_cases z0) as [[-> ?]|[[-> _]|[-> _]]]; congruence.
  - intros r z. destruct r; try done. destruct (treeAny_cases z0) as [[-> _]|[[-> [? _]]|[-> _]]]; congruence.
Qed.

#[export] Instance tree_laws : MsgpackLaws treeMsgpack treeEnc.
Proof.
  split; simpl; try done.
  - intros m. by rewrite list_to_map_to_list.
  - unfold is_int32. intros z Hz. by rewrite (proj2 (Z.leb_le _ _)), (proj2 (Z.ltb_lt _ _)) by lia.
  - intros z Hz. destruct (treeAny_cases z) as [[-> ?]|[[-> [_ ?]]|[_ ?]]]; [by left|right|done].
    split; [done|lia].
  - intros l Hl. apply mapM_Some_2. induction Hl as [|z l Hz Hl IH]; constructor; [|done].
    by apply treeInt_int.
Qed.

(** Integer, binary and text hashes; a full tuple, a five-field one, maps with absent
    and with nil fields, and events of other types in both forms. *)
Definition sampleStored : WireEvent :=
  WStored [HInt 10; HInt (-2)] (Some (HInt (2 ^ 64 - 1))) [1; 2; 3; 4] 2 (Some 7).

Definition sampleItems : list (WireItem (Raw:=tree)) :=
  [WTuple sampleStored [TNil]; WUnknownTuple "BlockMoved" [TNil];
   WShort [HBytes "h1"; HText "h2"] None [5; 6] 2; WMap sampleStored false {["medium" := TStr "GPU"]};
   WUnknownMap "BlockMoved" ∅; WMap (WStored [HText "h3"] None [7] 1 None) true ∅;
   WMap (WRemoved [HInt 10]) false ∅; WTuple WCleared []].

(** Ranges of concrete values. *)
Ltac wire_values :=
  repeat match goal with
  | |- _ ∧ _ => split
  | |- Forall _ [] => constructor
  | |- Forall _ (_ :: _) => constructor
  | |- ∀ _, None = Some _ → _ => discriminate
  | |- ∀ _, Some _ = Some _ → _ => intros ? [= <-]
  | |- _ => first [assumption | reflexivity | exact I
                  | unfold hash_ok, is_uint32, is_int64; lia]
  end.

Definition sampleEvents : list EngineEvent := omap itemEvent sampleItems.

Definition eightBytes (l : list Z) : string := String.string_of_list_ascii (byte_of_Z <$> l).

Lemma decoded_batch_typed_witness :
  Forall event_typed sampleEvents ∧ length sampleEvents = 6%nat.
Proof.
  split; [|by vm_compute].
  apply (decoded_batch_typed treeMsgpack (encBatch treeEnc (f64_of_Z 1) sampleItems [])
    (mkEventBatch (f64_of_Z 1) sampleEvents)).
  by vm_compute.
Defined.

(** C34: A batch an engine encodes decodes to exactly its events, in order, whichever wire
    form each event uses: a tagged map, with its optional fields absent or nil and with fields
    the decoder does not know, or a tagged tuple with trailing fields, the five-field one of a
    base-model block included.  Block hashes and parents may be binary, text or integers; the
    first two keep their bytes and an integer of 64 bits, signed or not, becomes its eight bytes in big-endian
    order.  Events of unknown types, in either form, are skipped. *)
Theorem decode_roundtrip {Raw} (mp : Msgpack Raw) (en : MsgpackEnc Raw) `{!MsgpackLaws mp en}
    ts items more :
  Forall item_ok items →
  DecodeEventBatch mp (encBatch en ts items more) = inr (mkEventBatch ts (omap itemEvent items)).
Proof. by apply decodeBatch_enc. Qed.

Lemma decode_roundtrip_witness :
  DecodeEventBatch treeMsgpack (encBatch treeEnc (f64_of_Z 1) sampleItems [TNil]) =
    inr (mkEventBatch (f64_of_Z 1) sampleEvents) ∧
  head sampleEvents = Some (EvStored (mkBlockStored
    [eightBytes [0; 0; 0; 0; 0; 0; 0; 10]; eightBytes [255; 255; 255; 255; 255; 255; 255; 254]]
    (Some (eightBytes [255; 255; 255; 255; 255; 255; 255; 255])) [1; 2; 3; 4] 2 (Some 7))).
Proof.
  split; [|by vm_compute].
  apply (decode_roundtrip treeMsgpack treeEnc (f64_of_Z 1) sampleItems [TNil]).
  assert (¬ knownTag "BlockMoved") by (unfold knownTag; intros [?|[?|?]]; discriminate).
  unfold sampleItems, sampleStored. repeat (apply Forall_cons; split); [..|constructor]; simpl; wire_values.
Defined.

(** ** Adapter names *)

Inductive AdapterNamesError :=
  | ENotPair (p : string) | ENonInteger (p : string) | EEmptyName (p : string)
  | EDuplicate (id : Z).

(** One non-blank entry of the list. *)
Definition parsePair (p : string) : AdapterNamesError + (Z * string) :=
  let? idName := orErr (ENotPair p) (Cut "=" p) in
  let? id := orErr (ENonInteger p) (ParseInt64 (TrimSpace idName.1)) in
  let name := TrimSpace idName.2 in
  if str_eqb name "" then inl (EEmptyName p) else inr (id, name).

Fixpoint parsePairs (pairs : list string) (out : gmap Z string) : AdapterNamesError + gmap Z string :=
  match pairs with
  | [] => inr out
  | p :: pairs =>
      let p := TrimSpace p in
      if str_eqb p "" then parsePairs pairs out
      else
        let? idName := parsePair p in
        if bool_decide (is_Some (out !! idName.1)) then inl (EDuplicate idName.1)
        else parsePairs pairs (<[idName.1 := idName.2]> out)
  end.

Definition ParseAdapterNames (s : string) : AdapterNamesError + gmap Z string :=
  parsePairs (Split "," s) ∅.

(** The entries of the list that are not blank. *)
Definition adapterEntries (s : string) : list string :=
  List.filter (λ p, negb (str_eqb p "")) (TrimSpace <$> Split "," s).

Lemma parsePair_name p id name : parsePair p = inr (id, name) → name ≠ "".
Proof.
  unfold parsePair, orErr. intros H. decode_steps. by apply str_eqb_neq.
Qed.

Lemma parsePairs_spec pairs out m :
  parsePairs pairs out = inr m ↔
  ∃ entries,
    Forall2 (λ p e, parsePair p = inr e)
      (List.filter (λ p, negb (str_eqb p "")) (TrimSpace <$> pairs)) entries ∧
    NoDup entries.*1 ∧ (∀ id, id ∈ entries.*1 → out !! id = None) ∧
    m = list_to_map entries ∪ out.
Proof.
  revert out. induction pairs as [|p pairs IH]; intros out; simpl.
  { split.
    - intros [= <-]. exists []. split_and!; [constructor|constructor|by intros ? ?%elem_of_nil|].
      simpl. by rewrite (left_id_L ∅ (∪)).
    - intros (es & Hes & _ & _ & ->). inversion Hes; subst. simpl. by rewrite (left_id_L ∅ (∪)). }
  destruct (str_eqb (TrimSpace p) "") eqn:Eb; simpl; [apply IH|].
  destruct (parsePair (TrimSpace p)) as [err|[id name]] eqn:Ep; simpl.
  { split; [done|]. intros (es & Hes & _). inversion Hes; congruence. }
  case_bool_decide as Hdup.
  { split; [done|]. intros (es & Hes & _ & Hfresh & _). inversion Hes as [|?? e es' He]; subst.
    rewrite Ep in He. injection He as <-. destruct Hdup as [x Hx].
    rewrite (Hfresh id) in Hx by (simpl; left). done. }
  apply eq_None_not_Some in Hdup. rewrite IH. split.
  - intros (es & Hes & Hnd & Hfresh & ->). exists ((id, name) :: es). split_and!.
    + by constructor.
    + simpl. constructor; [|done]. intros Hin. apply Hfresh in Hin. by rewrite lookup_insert_eq in Hin.
    + simpl. intros id' [->|Hin]%elem_of_cons; [done|]. apply Hfresh in Hin.
      by apply lookup_insert_None in Hin as [? _].
    + simpl. rewrite <-insert_union_l, insert_union_r; [done|]. apply not_elem_of_list_to_map_1.
      intros Hin. apply Hfresh in Hin. by rewrite lookup_insert_eq in Hin.
  - intros (es & Hes & Hnd & Hfresh & ->). inversion Hes as [|?? e es' He Hes']; subst.
    rewrite Ep in He. injection He as <-. simpl in Hnd. apply NoDup_cons in Hnd as [Hni Hnd].
    exists es'. split_and!; [done|done| |].
    + intros id' Hin. rewrite lookup_insert_ne; [|by intros ->]. apply Hfresh. simpl. by right.
    + simpl. rewrite <-insert_union_l, insert_union_r; [done|]. by apply not_elem_of_list_to_map_1.
Qed.

(** ParseAdapterNames succeeds exactly when every non-blank entry is a well-formed
    "id=name" (int64 id, non-empty name) and no id occurs twice; the result maps exactly those
    ids, and a subscriber configured with it puts a block of adapter id into the partition of
    its name, the base model into the default one, and drops every id the list does not name. *)
Theorem parse_adapter_names_exact s m :
  (ParseAdapterNames s = inr m ↔
    ∃ entries, Forall2 (λ p e, parsePair p = inr e) (adapterEntries s) entries ∧
      NoDup entries.*1 ∧ m = list_to_map entries) ∧
  (ParseAdapterNames s = inr m → ∀ c, c_AdapterNames c = m →
    AdapterID c None = Some "" ∧ ∀ id, AdapterID c (Some id) = m !! id).
Proof.
  assert (ParseAdapterNames s = inr m ↔ ∃ entries,
    Forall2 (λ p e, parsePair p = inr e) (adapterEntries s) entries ∧
    NoDup entries.*1 ∧ m = list_to_map entries) as Hspec.
  { unfold ParseAdapterNames. rewrite parsePairs_spec. split.
    - intros (es & ? & ? & _ & ->). exists es. by rewrite (right_id_L ∅ (∪)).
    - intros (es & ? & ? & ->). exists es. by rewrite (right_id_L ∅ (∪)). }
  split; [done|]. intros (es & Hes & Hnd & ->)%Hspec c Hc. split; [done|].
  intros id. simpl. rewrite Hc. destruct (list_to_map es !! id) as [name|] eqn:E; [|done].
  apply elem_of_list_to_map_2 in E.
  assert (Forall (λ e : Z * string, e.2 ≠ "") es) as Hall.
  { clear -Hes. induction Hes as [|? [] ]; constructor; [by eapply parsePair_name|done]. }
  rewrite Forall_forall in Hall. specialize (Hall _ E).
  by rewrite (proj2 (str_eqb_neq name "")).
Qed.

Lemma parse_adapter_names_exact_witness :
  ParseAdapterNames " 1 = sql-lora , -2=chat,," = inr (<[1 := "sql-lora"]> {[-2 := "chat"]}).
Proof.
  apply (parse_adapter_names_exact " 1 = sql-lora , -2=chat,,").
  exists [(1, "sql-lora"); (-2, "chat")]. split_and!; [|simpl; repeat (constructor; [set_solver|]); constructor|done].
  by repeat constructor; vm_compute.
Defined.

(** ** The socket loop (subscriber/subscriber.go) *)

Section transport.
Context {Raw : Type} (mp : Msgpack Raw) (quote : string → string).

(** The backoff of NewSubscriber, from the option when it is given. *)
Definition subscriberBackoff (option : option Duration) : Duration :=
  let backoff := default Second option in
  if backoff <=? 0 then Second else backoff.

(** dialZMQ with the answers of the socket: how often it is closed, and the error. *)
Definition dialZMQ (endpoint topic : string) (dial subscribe : option string) : nat * option string :=
  match dial with
  | Some err => (1%nat, Some ("zmq dial " +:+ endpoint +:+ ": " +:+ err))
  | None =>
      match subscribe with
      | Some err => (1%nat, Some ("zmq subscribe " +:+ quote topic +:+ ": " +:+ err))
      | None => (0%nat, None)
      end
  end.

(** One Recv: an error, or the frames and whether the channel took the batch before the context
    was done. *)
Inductive RecvOutcome := RecvError | RecvFrames (frames : list Raw) (taken : bool).

(** Whether a loop returned, or is still waiting after the answers given. *)
Inductive LoopEnd := LoopReturned | LoopWaiting.

Fixpoint consume (recvs : list RecvOutcome) : list EventBatch * LoopEnd :=
  match recvs with
  | [] => ([], LoopWaiting)
  | RecvError :: _ => ([], LoopReturned)
  | RecvFrames frames taken :: recvs =>
      match last frames with
      | None => consume recvs
      | Some payload =>
          match DecodeEventBatch mp payload with
          | inl _ => consume recvs
          | inr batch => if taken then let '(batches, e) := consume recvs in (batch :: batches, e) else ([], LoopReturned)
          end
      end
  end.

(** One turn of Run: whether the context is done at the top, the answers of the socket, what is
    received, and whether the backoff was slept through. *)
Record Turn := mkTurn {
  tn_Cancelled : bool;
  tn_Dial : option string;
  tn_Subscribe : option string;
  tn_Recvs : list RecvOutcome;
  tn_Slept : bool
}.

Record RunTrace := mkRunTrace { rt_Batches : list EventBatch; rt_Opened : nat; rt_Closed : nat; rt_End : LoopEnd }.

Definition afterTurn (batches : list EventBatch) (opened closed : nat) (t : RunTrace) : RunTrace :=
  mkRunTrace (batches ++ rt_Batches t) (opened + rt_Opened t) (closed + rt_Closed t) (rt_End t).

Fixpoint subscriberRun (endpoint topic : string) (turns : list Turn) : RunTrace :=
  match turns with
  | [] => mkRunTrace [] 0 0 LoopWaiting
  | t :: turns =>
      let rest := if tn_Slept t then subscriberRun endpoint topic turns else mkRunTrace [] 0 0 LoopReturned in
      if tn_Cancelled t then mkRunTrace [] 0 0 LoopReturned
      else match dialZMQ endpoint topic (tn_Dial t) (tn_Subscribe t) with
           | (closed, Some _) => afterTurn [] 1 closed rest
           | (_, None) =>
               match consume (tn_Recvs t) with
               | (batches, LoopReturned) => afterTurn batches 1 1 rest
               | (batches, LoopWaiting) => mkRunTrace batches 1 0 LoopWaiting
               end
           end
  end.

(** ** What the loop delivers *)

Definition turnConnects (t : Turn) : bool := negb (tn_Cancelled t) && bool_decide (tn_Dial t = None) && bool_decide (tn_Subscribe t = None).

(** What arrives before the first receive error. *)
Fixpoint received (recvs : list RecvOutcome) : list (list Raw) :=
  match recvs with
  | RecvFrames frames _ :: recvs => frames :: received recvs
  | _ => []
  end.

(** The batch of a message, unless it is empty or does not decode. *)
Definition batchOf (frames : list Raw) : option EventBatch :=
  last frames ≫= λ payload, match DecodeEventBatch mp payload with inr b => Some b | inl _ => None end.

Definition takenAll (recvs : list RecvOutcome) : Prop :=
  Forall (λ r, match r with RecvFrames _ taken => taken = true | RecvError => True end) recvs.

Lemma consume_delivers recvs : takenAll recvs → (consume recvs).1 = omap batchOf (received recvs).
Proof.
  induction recvs as [|[|frames taken] recvs IH]; intros H; [done|done|]. apply Forall_cons in H as [Ht H]. specialize (IH H).
  cbn [consume received omap list_omap]. unfold batchOf at 1. destruct (last frames) as [payload|]; cbn [mbind option_bind]; [|by rewrite IH].
  destruct (DecodeEventBatch mp payload) as [|b]; [by rewrite IH|]. rewrite Ht. destruct (consume recvs) as [bs e]. simpl. by f_equal.
Qed.

Lemma consume_returns recvs : takenAll recvs → (consume recvs).2 = LoopReturned ↔ RecvError ∈ recvs.
Proof.
  induction recvs as [|[|frames taken] recvs IH]; intros H; [simpl; split; [done|by intros ?%elem_of_nil]|split; [intros _; left|done]|].
  apply Forall_cons in H as [Ht H]. specialize (IH H). rewrite elem_of_cons. cbn [consume].
  trans ((consume recvs).2 = LoopReturned); [|rewrite IH; naive_solver].
  destruct (last frames) as [payload|]; [|done]. destruct (DecodeEventBatch mp payload) as [|b]; [done|]. rewrite Ht. by destruct (consume recvs).
Qed.

(** While the context is not done, every message that decodes is delivered in order, whatever
    connections fail in between: a message that does not decode is skipped and costs no other. *)
Lemma subscriber_delivers endpoint topic turns :
  Forall (λ t, tn_Cancelled t = false ∧ tn_Slept t = true ∧ takenAll (tn_Recvs t) ∧ RecvError ∈ tn_Recvs t) turns →
  rt_Batches (subscriberRun endpoint topic turns) =
    mjoin ((λ t, if turnConnects t then omap batchOf (received (tn_Recvs t)) else []) <$> turns) ∧
  rt_End (subscriberRun endpoint topic turns) = LoopWaiting.
Proof.
  induction turns as [|t turns IH]; intros H; [done|]. apply Forall_cons in H as [(Hc & Hs & Ht & He) H]. destruct (IH H) as [IH1 IH2].
  cbn [subscriberRun fmap list_fmap mjoin list_join]. unfold turnConnects at 1, dialZMQ. rewrite Hc, Hs. cbn [negb andb].
  destruct (tn_Dial t); cbn; [by rewrite IH1, IH2|]. destruct (tn_Subscribe t); cbn; [by rewrite IH1, IH2|].
  pose proof (consume_delivers _ Ht) as Hd. pose proof (proj2 (consume_returns _ Ht) He) as Hr.
  destruct (consume (tn_Recvs t)) as [bs e]. cbn [fst snd] in Hd, Hr. rewrite Hr. cbn. by rewrite Hd, IH1, IH2.
Qed.

(** Every socket opened is closed, but the one the loop is still reading. *)
Lemma subscriber_closes endpoint topic turns :
  let t := subscriberRun endpoint topic turns in
  rt_Opened t = rt_Closed t ∨ rt_End t = LoopWaiting ∧ rt_Opened t = S (rt_Closed t).
Proof.
  induction turns as [|t turns IH]; [by left|]. cbn [subscriberRun]. cbv zeta in *.
  set (rest := if tn_Slept t then _ else _).
  assert (rt_Opened rest = rt_Closed rest ∨ rt_End rest = LoopWaiting ∧ rt_Opened rest = S (rt_Closed rest)) as Hr
    by (unfold rest; destruct (tn_Slept t); [done|by left]).
  destruct (tn_Cancelled t); [by left|]. unfold dialZMQ.
  destruct (tn_Dial t); [cbn; destruct Hr as [->|[? ->]]; [by left|by right]|].
  destruct (tn_Subscribe t); [cbn; destruct Hr as [->|[? ->]]; [by left|by right]|].
  destruct (consume (tn_Recvs t)) as [bs []]; cbn; [destruct Hr as [->|[? ->]]; [by left|by right]|by right].
Qed.

(** Run returns only when the context is done: at the top of a turn or during the backoff. *)
Lemma subscriber_returns endpoint topic turns :
  rt_End (subscriberRun endpoint topic turns) = LoopReturned → Exists (λ t, tn_Cancelled t = true ∨ tn_Slept t = false) turns.
Proof.
  induction turns as [|t turns IH]; [done|]. cbn [subscriberRun]. set (rest := if tn_Slept t then _ else _).
  assert (rt_End rest = LoopReturned → Exists (λ t, tn_Cancelled t = true ∨ tn_Slept t = false) (t :: turns)) as Hr.
  { unfold rest. destruct (tn_Slept t) eqn:Es; [intros Hx; right; by apply IH|]. intros _. left. by right. }
  destruct (tn_Cancelled t) eqn:Ec; [intros _; left; by left|]. unfold dialZMQ.
  destruct (tn_Dial t); [done|]. destruct (tn_Subscribe t); [done|]. by destruct (consume (tn_Recvs t)) as [bs []].
Qed.
End transport.
