(* ===== verification/CoreV1.v ===== *)
(** * The Kubernetes objects the webhooks and adapters read and write

    The fields of core/v1 the program touches; other fields of a Pod are copied verbatim by
    every operation and are not represented.  Maps are finite maps: a nil and an empty map
    print alike (omitempty) and read alike.  [resource.Quantity] and the validators of
    apimachinery are third-party: a class of operations each, with the documented laws in a
    class of their own. *)

From S2P Require Import Prelude Ordering GoRuntime GoText.

(** [err.Error()] of a non-nil error. *)
Abbreviation goError := (option string).

(** Fallible code: [inl] of the message, or the result. *)
Definition ebind {A B : Type} (e : string + A) (k : A → string + B) : string + B :=
  match e with inl m => inl m | inr a => k a end.
Notation "'let*' x := e 'in' k" := (ebind e (λ x, k))
  (at level 200, x pattern, e at level 100, k at level 200, only parsing) : go_scope.

(** [if err := f(); err != nil { return err }]. *)
Definition echeck (e : goError) : string + unit := match e with Some m => inl m | None => inr tt end.

Lemma ebind_inr {A B : Type} (e : string + A) (k : A → string + B) b :
  ebind e k = inr b ↔ ∃ a, e = inr a ∧ k a = inr b.
Proof. destruct e; simpl; naive_solver. Qed.

(** ** resource.Quantity *)

Class QuantityOps := {
  Quantity : Type;
  Quantity_eq_dec :: EqDecision Quantity;
  qZero : Quantity;                        (* the zero value of the struct *)
  qSign : Quantity → Z;
  qCmp : Quantity → Quantity → Z;
  qValue : Quantity → Z;                   (* rounded up to an integer *)
  qAsInt64 : Quantity → option Z;          (* none when fractional *)
  qString : Quantity → string;
  qAdd : Quantity → Quantity → Quantity;
  ParseQuantity : string → option Quantity
}.

(** [resource.MustParse], which panics where [ParseQuantity] fails; the program only calls it
    on the literals of [QuantityLaws]. *)
Definition MustParse `{QuantityOps} (s : string) : Quantity := default qZero (ParseQuantity s).

(** What the program relies on: a quantity stands for a number, [Cmp] compares the numbers,
    [Sign] is the sign, [Value] rounds away from zero, and the literals parse. *)
Class QuantityLaws `{QuantityOps} := {
  q_value_pos q : 0 < qValue q ↔ 0 < qSign q;
  q_cmp_refl q : qCmp q q = 0;
  q_cmp_sym x y : qCmp x y < 0 ↔ 0 < qCmp y x;
  q_cmp_trans x y z : qCmp x y ≤ 0 → qCmp y z ≤ 0 → qCmp x z ≤ 0;
  q_sign_mono x y : qCmp x y ≤ 0 → 0 < qSign x → 0 < qSign y;
  q_literals : Forall (λ s, is_Some (ParseQuantity s)) ["1Gi"; "10m"; "32Mi"; "50m"; "64Mi"; "128Mi"; "200m"; "256Mi"; "4Gi"; "8Gi"]
}.

(** ** Name validation of apimachinery: the list of problems *)

Class KValidation := {
  IsValidLabelValue : string → list string;
  IsQualifiedName : string → list string;
  IsDNS1123Label : string → list string;
  IsDNS1123Subdomain : string → list string;
  IsConfigMapKey : string → list string;
  IsEnvVarName : string → list string
}.

(** Names that pass contain no slash and are not empty. *)
Class KValidationLaws `{KValidation} := {
  label_plain s : IsDNS1123Label s = [] → s ≠ EmptyString ∧ ContainsByte s "/" = false;
  subdomain_plain s : IsDNS1123Subdomain s = [] → s ≠ EmptyString ∧ ContainsByte s "/" = false
}.

Section core.
Context `{QO : QuantityOps}.

(** ** Environment variables *)

(** corev1.SecretKeySelector and ConfigMapKeySelector. *)
Record KeySelector := mkKeySelector {
  ks_Name : string;
  ks_Key : string;
  ks_Optional : option bool
}.

(** corev1.EnvVarSource: its pointer fields (k8s.io/api v0.36). *)
Record EnvVarSource := mkEnvVarSource {
  es_FieldRef : option (string * string);              (* apiVersion, fieldPath *)
  es_ResourceFieldRef : option (string * string * Quantity); (* container, resource, divisor *)
  es_ConfigMapKeyRef : option KeySelector;
  es_SecretKeyRef : option KeySelector;
  es_FileKeyRef : option (string * string * KeySelector)     (* volume, path, key *)
}.

Record EnvVar := mkEnvVar {
  ev_Name : string;
  ev_Value : string;
  ev_ValueFrom : option EnvVarSource
}.

#[export] Instance KeySelector_eq_dec : EqDecision KeySelector.
Proof. solve_decision. Defined.
#[export] Instance EnvVarSource_eq_dec : EqDecision EnvVarSource.
Proof. solve_decision. Defined.
#[export] Instance EnvVar_eq_dec : EqDecision EnvVar.
Proof. solve_decision. Defined.

(** ** Resources *)

Record ResourceRequirements := mkResources {
  rr_Requests : gmap string Quantity;
  rr_Limits : gmap string Quantity;
  rr_Claims : list string
}.

Definition noResources : ResourceRequirements := mkResources ∅ ∅ [].

#[export] Instance ResourceRequirements_eq_dec : EqDecision ResourceRequirements.
Proof. solve_decision. Defined.

(** ** Containers and pods *)

Record VolumeMount := mkVolumeMount {
  vm_Name : string;
  vm_MountPath : string;
  vm_SubPath : string;
  vm_SubPathExpr : string;
  vm_ReadOnly : bool
}.

Record ContainerPort := mkContainerPort {
  port_Name : string;
  port_ContainerPort : Z;
  port_HostPort : Z;
  port_Protocol : string
}.

(** corev1.ProbeHandler, on a named port. *)
Inductive ProbeHandler :=
  | HTTPGet (path port : string)
  | TCPSocket (port : string)
  | ExecProbe (command : list string).

Record Probe := mkProbe {
  pr_Handler : ProbeHandler;
  pr_InitialDelaySeconds : Z;
  pr_PeriodSeconds : Z;
  pr_FailureThreshold : Z;
  pr_TimeoutSeconds : Z
}.

(** corev1.EnvFromSource: prefix, ConfigMap name, Secret name. *)
Record EnvFromSource := mkEnvFrom {
  ef_Prefix : string;
  ef_ConfigMapRef : option string;
  ef_SecretRef : option string
}.

Record SecurityContext := mkSecurityContext {
  sc_RunAsNonRoot : option bool;
  sc_RunAsUser : option Z;
  sc_RunAsGroup : option Z;
  sc_AllowPrivilegeEscalation : option bool;
  sc_ReadOnlyRootFilesystem : option bool;
  sc_DropCapabilities : list string;
  sc_SeccompProfile : option string
}.

Record Container := mkContainer {
  cn_Name : string;
  cn_Image : string;
  cn_ImagePullPolicy : string;
  cn_RestartPolicy : option string;
  cn_WorkingDir : string;
  cn_Command : list string;
  cn_Args : list string;
  cn_Env : list EnvVar;
  cn_EnvFrom : list EnvFromSource;
  cn_Resources : ResourceRequirements;
  cn_VolumeMounts : list VolumeMount;
  cn_VolumeDevices : list (string * string);       (* name, device path *)
  cn_Ports : list ContainerPort;
  cn_StartupProbe : option Probe;
  cn_ReadinessProbe : option Probe;
  cn_LivenessProbe : option Probe;
  cn_SecurityContext : option SecurityContext;
  cn_TerminationMessage : string * string          (* path, policy *)
}.

Record EmptyDir := mkEmptyDir { ed_Medium : string; ed_SizeLimit : option Quantity }.

(** corev1.VolumeSource: the sources the program looks at; [read-only] flags of the others. *)
Record VolumeSource := mkVolumeSource {
  vs_EmptyDir : option EmptyDir;
  vs_HostPath : option (string * string);
  vs_ConfigMap : bool;
  vs_Secret : bool;
  vs_DownwardAPI : bool;
  vs_Projected : bool;
  vs_PVC : option bool;
  vs_CSI : option (option bool);
  vs_NFS : option bool
}.

Record Volume := mkVolume { vol_Name : string; vol_Source : VolumeSource }.

Record PodSpec := mkPodSpec {
  psp_InitContainers : list Container;
  psp_Containers : list Container;
  psp_Volumes : list Volume
}.

Record Pod := mkPod {
  p_Namespace : string;
  p_Name : string;
  p_UID : string;
  p_Labels : gmap string string;
  p_Annotations : gmap string string;
  p_Spec : PodSpec
}.

#[export] Instance VolumeMount_eq_dec : EqDecision VolumeMount.
Proof. solve_decision. Defined.
#[export] Instance ContainerPort_eq_dec : EqDecision ContainerPort.
Proof. solve_decision. Defined.
#[export] Instance ProbeHandler_eq_dec : EqDecision ProbeHandler.
Proof. solve_decision. Defined.
#[export] Instance Probe_eq_dec : EqDecision Probe.
Proof. solve_decision. Defined.
#[export] Instance EnvFromSource_eq_dec : EqDecision EnvFromSource.
Proof. solve_decision. Defined.
#[export] Instance SecurityContext_eq_dec : EqDecision SecurityContext.
Proof. solve_decision. Defined.
#[export] Instance EmptyDir_eq_dec : EqDecision EmptyDir.
Proof. solve_decision. Defined.
#[export] Instance VolumeSource_eq_dec : EqDecision VolumeSource.
Proof. solve_decision. Defined.
#[export] Instance Container_eq_dec : EqDecision Container.
Proof. solve_decision. Defined.
#[export] Instance Volume_eq_dec : EqDecision Volume.
Proof. solve_decision. Defined.
#[export] Instance PodSpec_eq_dec : EqDecision PodSpec.
Proof. solve_decision. Defined.
#[export] Instance Pod_eq_dec : EqDecision Pod.
Proof. solve_decision. Defined.

(** ** Updates of one field *)

Definition set_engine (args : list string) (env : list EnvVar) (c : Container) : Container :=
  mkContainer (cn_Name c) (cn_Image c) (cn_ImagePullPolicy c) (cn_RestartPolicy c) (cn_WorkingDir c) (cn_Command c) args env
    (cn_EnvFrom c) (cn_Resources c) (cn_VolumeMounts c) (cn_VolumeDevices c) (cn_Ports c) (cn_StartupProbe c) (cn_ReadinessProbe c)
    (cn_LivenessProbe c) (cn_SecurityContext c) (cn_TerminationMessage c).

Definition set_mounts (m : list VolumeMount) (c : Container) : Container :=
  mkContainer (cn_Name c) (cn_Image c) (cn_ImagePullPolicy c) (cn_RestartPolicy c) (cn_WorkingDir c) (cn_Command c) (cn_Args c)
    (cn_Env c) (cn_EnvFrom c) (cn_Resources c) m (cn_VolumeDevices c) (cn_Ports c) (cn_StartupProbe c) (cn_ReadinessProbe c)
    (cn_LivenessProbe c) (cn_SecurityContext c) (cn_TerminationMessage c).

Definition set_containers (cs : list Container) (s : PodSpec) : PodSpec :=
  mkPodSpec (psp_InitContainers s) cs (psp_Volumes s).
Definition set_init (cs : list Container) (s : PodSpec) : PodSpec :=
  mkPodSpec cs (psp_Containers s) (psp_Volumes s).
Definition set_volumes (vs : list Volume) (s : PodSpec) : PodSpec :=
  mkPodSpec (psp_InitContainers s) (psp_Containers s) vs.

Definition set_spec (s : PodSpec) (p : Pod) : Pod :=
  mkPod (p_Namespace p) (p_Name p) (p_UID p) (p_Labels p) (p_Annotations p) s.
Definition set_annotations (a : gmap string string) (p : Pod) : Pod :=
  mkPod (p_Namespace p) (p_Name p) (p_UID p) (p_Labels p) a (p_Spec p).
Definition set_labels (l : gmap string string) (p : Pod) : Pod :=
  mkPod (p_Namespace p) (p_Name p) (p_UID p) l (p_Annotations p) (p_Spec p).

(** [m[k]] on a map of strings. *)
Definition strGet (m : gmap string string) (k : string) : string := default EmptyString (m !! k).

(** labels.SelectorFromSet(want).Matches(have): every wanted pair is there. *)
Definition selectorMatches (want have : gmap string string) : bool :=
  bool_decide (map_Forall (λ k v, have !! k = Some v) want).
End core.

(** A Go raw string literal: the backquote stands for the double quote, which neither a Go raw
    string nor the literals here can contain. *)
Fixpoint goRaw (s : string) : string :=
  match s with
  | EmptyString => EmptyString
  | String a s => String (if Z_of_byte a =? 96 then byte_of_Z 34 else a) (goRaw s)
  end.

(** ** A quantity as a number of thousandths, for witnesses *)

Module MilliQuantity.
(** Decimal digits with an optional unit of the witnesses. *)
Definition units : list (string * Z) :=
  [("m", 1); ("Mi", 1000 * 2 ^ 20); ("Gi", 1000 * 2 ^ 30); ("", 1000)].

Definition parse (s : string) : option Z :=
  head (omap (λ u : string * Z, d ← CutSuffix u.1 s; v ← parseUint d; Some (v * u.2)) units).

#[export] Instance milliOps : QuantityOps := {
  Quantity := Z;
  qZero := 0;
  qSign := Z.sgn;
  qCmp x y := x - y;
  qValue q := Z.sgn q * ((Z.abs q + 999) / 1000);
  qAsInt64 q := if q mod 1000 =? 0 then Some (q / 1000) else None;
  qString q := FormatInt q;
  qAdd := Z.add;
  ParseQuantity := parse
}.

#[export] Instance milliLaws : QuantityLaws.
Proof.
  split; simpl; try lia.
  - intros q. split; intros H.
    + assert (0 ≤ (Z.abs q + 999) / 1000) by (apply Z.div_pos; lia).
      destruct (Z.sgn_spec q) as [[? E]|[[? E]|[? E]]]; rewrite E in *; lia.
    + assert (0 < q) by lia. rewrite Z.sgn_pos, Z.abs_eq by lia.
      assert (1 ≤ (q + 999) / 1000) by (apply Z.div_le_lower_bound; lia). lia.
  - repeat constructor; vm_compute; eauto.
Qed.
End MilliQuantity.
