(* ===== verification/BackendApi.v ===== *)
(** * The CacheBackend API (api/v1alpha1/cachebackend_types.go, cachebackend_effective.go) and
    the identities the webhooks and controllers stamp (internal/enginebinding)

    String enums are strings, pointers are options.  The one pointer whose address is
    observable, [sizeGB] of a HiCache spec, keeps it: an admission error prints it. *)

From S2P Require Import Prelude Ordering GoRuntime GoText CoreV1.

(** ** Constants *)

Definition CacheBackendRuntimeVLLM : string := "VLLM".
Definition CacheBackendRuntimeSGLang : string := "SGLang".
Definition CacheBackendDomainLabel : string := "inferencecache.io/cache-domain".
Definition CacheBackendTypeLMCache : string := "LMCache".
Definition CacheBackendTypeSGLangHiCache : string := "SGLangHiCache".
Definition CacheBackendRemoteStorageProviderRedis : string := "Redis".
Definition OwnershipManaged : string := "Managed".
Definition OwnershipExternal : string := "External".
Definition LMCacheTopologyPodLocal : string := "PodLocal".
Definition LMCacheTopologyNodeLocal : string := "NodeLocal".
Definition RoleReadOnly : string := "ReadOnly".
Definition RoleWriteOnly : string := "WriteOnly".
Definition RoleReadWrite : string := "ReadWrite".
Definition ModeOffload : string := "Offload".
Definition ModeEventsOnly : string := "EventsOnly".

Definition LabelLMCacheMPMetrics : string := "inferencecache.io/lmcache-mp-metrics".
Definition AnnotationSkip : string := "inferencecache.io/skip-inject".
Definition AnnotationInjectedBy : string := "inferencecache.io/injected-by".
Definition AnnotationInjectedByUID : string := "inferencecache.io/injected-by-uid".
Definition AnnotationInjectedGeneration : string := "inferencecache.io/injected-generation".
Definition AnnotationInjectSkipped : string := "inferencecache.io/inject-skipped".
Definition InjectSkippedReasonSkipAnnotation : string := "skip-inject-annotation".
Definition SubscriberContainerName : string := "kvevent-subscriber".
Definition LMCacheKernelCheckContainerName : string := "lmcache-kernel-check".
Definition AnnotationLMCacheKernelCheck : string := "inferencecache.io/lmcache-kernel-check".

(** ** Types *)

(** [*int32] with the address the process gave it. *)
Record Int32Ptr := mkInt32Ptr { ptr_addr : Z; ptr_val : Z }.

Record SGLangHiCacheSpec := mkHiCache {
  hc_SizeGB : option Int32Ptr;
  hc_Ratio : string;
  hc_WritePolicy : string;
  hc_IOBackend : string;
  hc_MemoryLayout : string
}.

Section api.
Context `{QO : QuantityOps}.

Record LMCachePodLocalServerSpec := mkPodLocalServer {
  pls_Image : string;
  pls_Port : Z;
  pls_L1Capacity : Quantity;
  pls_MaxWorkers : Z;
  pls_Resources : ResourceRequirements
}.

Record LMCacheNodeLocalServerSpec := mkNodeLocalServer {
  nls_Image : string;
  nls_Port : Z;
  nls_HTTPPort : Z;
  nls_L1Capacity : Quantity;
  nls_MaxGPUWorkers : Z;
  nls_MaxCPUWorkers : Z;
  nls_Resources : ResourceRequirements
}.

(** LMCacheNodeLocalSpec; its scheduling block is copied verbatim and not represented. *)
Record LMCacheNodeLocalSpec := mkNodeLocal {
  nl_Server : option LMCacheNodeLocalServerSpec;
  nl_IdleRetentionSeconds : Z
}.

(** LMCacheEngineSpec; [podLocal] is a block around an optional server. *)
Record LMCacheEngineSpec := mkLMCache {
  lm_Topology : string;
  lm_PodLocal : option (option LMCachePodLocalServerSpec);
  lm_NodeLocal : option LMCacheNodeLocalSpec;
  lm_ChunkSizeTokens : option Z
}.

(** RedisAuthenticationSpec. *)
Record RedisAuthenticationSpec := mkRedisAuth {
  ra_Username : option KeySelector;
  ra_Password : KeySelector
}.

(** RedisRemoteStorageSpec; the TLS block is (CA certificate, server name). *)
Record RedisRemoteStorageSpec := mkRedis {
  rd_Image : string;
  rd_Resources : option ResourceRequirements;
  rd_Authentication : option RedisAuthenticationSpec;
  rd_TLS : option (KeySelector * string);
  rd_Database : option Z
}.

(** CacheBackendRemoteStorageSpec; of the managed workload block only its presence is read
    here. *)
Record CacheBackendRemoteStorageSpec := mkRemoteStorage {
  rs_Provider : string;
  rs_Ownership : string;
  rs_Endpoint : string;
  rs_Workload : bool;
  rs_Redis : option RedisRemoteStorageSpec
}.

Record CacheBackendObservationSpec := mkObservation {
  ob_ModelID : string;
  ob_FirstEventTimeout : option Duration
}.

Record EngineInjectionOverrides := mkOverrides {
  eo_Args : list string;
  eo_SuppressArgs : list string;
  eo_Env : list EnvVar;
  eo_SuppressEnv : list string
}.

Record CacheBackendIntegrationSpec := mkIntegration {
  in_Mode : string;
  in_Role : string;
  in_FailOpen : option bool;
  in_EngineOverrides : option EngineInjectionOverrides
}.

Record CacheBackendSpec := mkBackendSpec {
  bs_Runtime : string;
  bs_Type : string;
  bs_LMCache : option LMCacheEngineSpec;
  bs_RemoteStorage : option CacheBackendRemoteStorageSpec;
  bs_Observation : option CacheBackendObservationSpec;
  bs_Integration : option CacheBackendIntegrationSpec;
  bs_EngineSelector : option (gmap string string);
  bs_HiCache : option SGLangHiCacheSpec;
  bs_AllowCrossNamespace : bool
}.

(** CacheBackend: its identity, spec and, of the status, the resolved remote endpoint. *)
Record CacheBackend := mkCacheBackend {
  cb_Namespace : string;
  cb_Name : string;
  cb_UID : string;
  cb_Generation : Z;
  cb_Annotations : gmap string string;
  cb_Spec : CacheBackendSpec;
  cb_StatusRemoteEndpoint : option string
}.

Definition cbKey (cb : CacheBackend) : string * string := (cb_Namespace cb, cb_Name cb).

(** ** Reading a spec *)

Definition EffectiveRuntime (s : CacheBackendSpec) : string := bs_Runtime s.

Definition EffectiveCacheType (s : CacheBackendSpec) : string :=
  if str_eqb (bs_Type s) "" then CacheBackendTypeLMCache else bs_Type s.

Definition EffectiveRemoteStorage (s : CacheBackendSpec) : option CacheBackendRemoteStorageSpec :=
  bs_RemoteStorage s.

Definition EffectiveObservationModelID (s : CacheBackendSpec) : string :=
  match bs_Observation s with Some o => ob_ModelID o | None => "" end.

Definition EffectiveFirstEventTimeout (s : CacheBackendSpec) : option Duration :=
  o ← bs_Observation s; ob_FirstEventTimeout o.

Definition IntegrationFailOpen (i : option CacheBackendIntegrationSpec) : bool :=
  match i with
  | Some i => default true (in_FailOpen i)
  | None => true
  end.

Definition IntegrationMode (i : option CacheBackendIntegrationSpec) : string :=
  match i with
  | None => ModeOffload
  | Some i => if str_eqb (in_Mode i) "" then ModeOffload else in_Mode i
  end.

Definition IsEventsOnly (s : CacheBackendSpec) : bool :=
  str_eqb (IntegrationMode (bs_Integration s)) ModeEventsOnly.

(** [len(cb.Spec.EngineSelector.MatchLabels)], 0 without a selector. *)
Definition matchLabels (cb : CacheBackend) : gmap string string :=
  default ∅ (bs_EngineSelector (cb_Spec cb)).

(** ** The defaulting webhook (webhook/v1alpha1/cachebackend_defaulter.go) *)

Definition defaultFirstEventTimeout : Duration := 5 * Minute.

Definition emptyIntegration : CacheBackendIntegrationSpec := mkIntegration "" "" None None.
Definition emptyObservation : CacheBackendObservationSpec := mkObservation "" None.

Definition Default (cb : CacheBackend) : CacheBackend :=
  let s := cb_Spec cb in
  let i := match bs_Integration s with None => emptyIntegration | Some i => i end in
  let o := match bs_Observation s with None => emptyObservation | Some o => o end in
  let o := match ob_FirstEventTimeout o with
           | None => mkObservation (ob_ModelID o) (Some defaultFirstEventTimeout)
           | Some _ => o
           end in
  mkCacheBackend (cb_Namespace cb) (cb_Name cb) (cb_UID cb) (cb_Generation cb) (cb_Annotations cb)
    (mkBackendSpec (bs_Runtime s) (bs_Type s) (bs_LMCache s) (bs_RemoteStorage s) (Some o) (Some i)
       (bs_EngineSelector s) (bs_HiCache s) (bs_AllowCrossNamespace s))
    (cb_StatusRemoteEndpoint cb).
End api.

(** ** internal/enginebinding *)

Definition SkipAnnotationOptsOut (value : string) : bool :=
  if str_eqb value "" then false
  else match ParseBool value with
       | Some parsed => parsed
       | None => negb (bool_decide (ToLower value ∈ ["no"; "off"; "disable"; "disabled"]))
       end.

Definition IsValidKernelCheckMode (s : string) : bool :=
  bool_decide (s ∈ [""; "auto"; "report-only"; "strict"; "off"]).

(** Defaulting is idempotent, keeps every choice of the operator and leaves no readiness
    deadline unset. *)
Lemma Default_spec `{QuantityOps} cb :
  Default (Default cb) = Default cb ∧
  is_Some (EffectiveFirstEventTimeout (cb_Spec (Default cb))) ∧
  (∀ d, EffectiveFirstEventTimeout (cb_Spec cb) = Some d →
     EffectiveFirstEventTimeout (cb_Spec (Default cb)) = Some d) ∧
  IsEventsOnly (cb_Spec (Default cb)) = IsEventsOnly (cb_Spec cb) ∧
  EffectiveObservationModelID (cb_Spec (Default cb)) = EffectiveObservationModelID (cb_Spec cb).
Proof.
  destruct cb as [ns n u g a [r t lm rs ob i es hc x] se].
  destruct ob as [[m [d|]]|], i as [i|]; cbn; split_and!; eauto; try by intros ? [=].
Qed.
