(* ===== verification/Endpoints.v ===== *)
(** * Endpoints: the shape admission accepts, the namespace it detects, and the split the
    renderer uses (pkg/adapters/backend/endpoint.go, webhook/v1alpha1/
    cachebackend_storage_validation.go, adapters/builtin/runtime/runtime_helpers.go) *)

From S2P Require Import Prelude Ordering GoRuntime GoText CoreV1 BackendApi.

Section endpoint.
(** [%q] of fmt. *)
Variable quote : string → string.

Definition ValidateExternalEndpoint (provider endpoint : string) : goError :=
  if negb (str_eqb provider CacheBackendRemoteStorageProviderRedis) then
    Some ("remote-storage provider " +:+ quote provider +:+ " has no endpoint protocol")
  else
    let value := TrimSpace endpoint in
    if str_eqb value "" then Some "endpoint is empty"
    else if Contains value "://" then
      Some ("endpoint schemes are not supported for remoteStorage.provider=" +:+ provider +:+ "; use bare host:port")
    else if containsRune (spaceRunes ++ controlRunes) (bytesOf value) then
      Some "endpoint must not contain whitespace or control characters"
    else
      match SplitHostPort value with
      | None => Some "endpoint must be a non-empty host and port (for example redis.example.com:6379)"
      | Some (host, port) =>
          if str_eqb host "" || str_eqb port "" then
            Some "endpoint must be a non-empty host and port (for example redis.example.com:6379)"
          else
            match ParseUint16 port with
            | Some n => if n =? 0 then Some ("endpoint port " +:+ quote port +:+ " must be an integer in 1-65535")
                        else None
            | None => Some ("endpoint port " +:+ quote port +:+ " must be an integer in 1-65535")
            end
      end.
End endpoint.

(** ** The namespace of an in-cluster name *)

Definition k8sClusterDomain : string := "cluster.local".

Definition serviceDNSNamespace (endpoint : string) : option string :=
  let host := TrimSpace endpoint in
  if str_eqb host "" then None
  else
    let host := ToLower host in
    let host := match CutStr "://" host with Some (_, rest) => rest | None => host end in
    let host := takeUntil (λ a, bool_decide (a ∈ ["/"%char; "?"%char])) host in
    let host := match CutLast ":" host with
                | Some (before, after) => if ContainsByte after "." then host else before
                | None => host
                end in
    let host := TrimSuffix host "." in
    let host := TrimSuffix host ("." +:+ k8sClusterDomain) in
    if negb (HasSuffix host ".svc") then None
    else
      let parts := Split "." (TrimSuffix host ".svc") in
      if (length parts <? 2)%nat then None
      else match last parts with
           | Some ns => if str_eqb ns "" then None else Some ns
           | None => None
           end.

(** ** The renderer's split: (host, port, hasPort) *)

Definition splitLMCacheHostPort (s : string) : string * string * bool :=
  if str_eqb s "" then ("", "", false)
  else if HasPrefix s "[" then
    match Cut "]" s with
    | None => ("", "", false)
    | Some (pre, tail) =>
        if (String.length pre <=? 1)%nat then ("", "", false)
        else
          let host := TrimPrefix pre "[" in
          if str_eqb tail "" then (host, "", false)
          else if negb (HasPrefix tail ":") || ContainsByte (TrimPrefix tail ":") ":" then ("", "", false)
          else (host, TrimPrefix tail ":", true)
    end
  else if 1 <? countByte ":" s then ("", "", false)
  else match CutLast ":" s with
       | Some (host, port) => (host, port, true)
       | None => (s, "", false)
       end.

(** ** Agreement of the two splits *)

Lemma SplitHostPort_split v host port :
  SplitHostPort v = Some (host, port) → host ≠ "" → splitLMCacheHostPort v = (host, port, true).
Proof.
  unfold SplitHostPort, splitLMCacheHostPort. intros H Hh.
  destruct (CutLast ":" v) as [[before port']|] eqn:Ec; [|done].
  pose proof (proj1 (CutLast_spec _ _ _ _) Ec) as [Hv Hport].
  assert (str_eqb v "" = false) as -> by (apply str_eqb_neq; rewrite Hv; by destruct before).
  destruct (CutPrefix "[" v) as [rest|] eqn:Ep.
  - apply CutPrefix_spec in Ep. rewrite Ep, HasPrefix_app.
    destruct (Cut "]" rest) as [[h tail]|] eqn:Er; [|done].
    apply Cut_spec in Er as [Er Hh']. destruct (bool_decide (tail = String ":" port')) eqn:Et; [|done].
    apply bool_decide_eq_true in Et. subst tail.
    destruct (_ || _); [done|]. injection H as -> ->.
    rewrite (proj2 (Cut_spec "]" _ ("[" +:+ host) (String ":" port))).
    2: { rewrite Er. split; [done|]. by rewrite (str_existsb_app _ "[" host : ContainsByte ("[" +:+ host) "]" = _). }
    assert (String.length ("[" +:+ host) <=? 1 = false)%nat as ->.
    { apply Nat.leb_gt. rewrite str_length_app. destruct host; [done|]. simpl. lia. }
    rewrite TrimPrefix_app. change (String ":" port) with (":" +:+ port).
    rewrite HasPrefix_app, TrimPrefix_app, Hport. done.
  - assert (HasPrefix v "[" = false) as ->.
    { unfold HasPrefix. rewrite Ep. by apply bool_decide_eq_false_2; intros [? ?]. }
    destruct (ContainsByte before ":") eqn:Eb; [done|]. destruct (_ || _); [done|]. injection H as -> ->.
    assert (1 <? countByte ":" v = false) as ->; [|done].
    rewrite Hv, countByte_app. change (String ":" port) with (":" +:+ port). rewrite countByte_app.
    rewrite (countByte_none _ _ Hport), (countByte_none _ _ Eb). done.
Qed.

Lemma digitsValue_nonneg acc s v : digitsValue acc s = Some v → 0 ≤ acc → 0 ≤ v.
Proof.
  revert acc. induction s as [|a s IH]; intros acc; simpl; [by intros [= <-]|].
  unfold digitOf. destruct ((48 <=? Z_of_byte a) && (Z_of_byte a <=? 57)) eqn:E; [|done].
  simpl. intros H ?. eapply IH; [exact H|]. apply andb_true_iff in E as [E _]. apply Z.leb_le in E. lia.
Qed.

(** What reads as an unsigned 16-bit number reads as the same signed 32-bit number. *)
Lemma ParseUint16_ParseInt32 port n :
  ParseUint16 port = Some n → ParseInt32 port = Some n ∧ 0 ≤ n ≤ 65535.
Proof.
  unfold ParseUint16. intros H. destruct (parseUint port) as [v|] eqn:E; [|done]. simpl in H.
  destruct (Z.leb_spec v 65535) as [Hv|]; [|done]. injection H as ->.
  assert (0 ≤ n) as Hn.
  { unfold parseUint in E. destruct port; [done|]. by eapply digitsValue_nonneg. }
  split; [|lia].
  assert (ParseInt64 port = Some n) as E64.
  { unfold ParseInt64. destruct port as [|a rest] eqn:Ep; [done|].
    assert (is_Some (digitOf a)) as Hd.
    { simpl in E. destruct (digitOf a); [eauto|done]. }
    assert (bool_decide (a = "+"%char) = false) as ->
      by (apply bool_decide_eq_false_2; intros ->; by destruct Hd).
    assert (bool_decide (a = "-"%char) = false) as ->
      by (apply bool_decide_eq_false_2; intros ->; by destruct Hd).
    rewrite E. cbn [mbind option_bind]. unfold MinInt64, MaxInt64.
    assert ((- 2 ^ 63 <=? n) && (n <=? 2 ^ 63 - 1) = true) as -> by lia. done. }
  unfold ParseInt32. rewrite E64. cbn [mbind option_bind].
  assert ((-2147483648 <=? n) && (n <=? 2147483647) = true) as -> by lia. done.
Qed.

(** The renderer's reading of an endpoint of the accepted shape: it splits where the check
    split, at a host and a port in range. *)
Lemma endpoint_split quote provider e :
  ValidateExternalEndpoint quote provider e = None →
  ∃ host port n, SplitHostPort (TrimSpace e) = Some (host, port) ∧
    splitLMCacheHostPort (TrimSpace e) = (host, port, true) ∧ host ≠ "" ∧ port ≠ "" ∧
    ParseInt32 port = Some n ∧ 1 ≤ n ≤ 65535.
Proof.
  unfold ValidateExternalEndpoint. destruct (negb _); [done|]. set (v := TrimSpace e).
  destruct (str_eqb v ""); [done|]. destruct (Contains v _); [done|]. destruct (containsRune _ _); [done|].
  destruct (SplitHostPort v) as [[host port]|] eqn:Es; [|done].
  destruct (str_eqb host "") eqn:Eh; [done|]. destruct (str_eqb port "") eqn:Ep; [done|].
  apply str_eqb_neq in Eh, Ep. simpl.
  destruct (ParseUint16 port) as [n|] eqn:En; [|done]. destruct (Z.eqb_spec n 0); [done|]. intros _.
  apply ParseUint16_ParseInt32 in En as [? ?]. exists host, port, n.
  split_and!; auto using SplitHostPort_split; lia.
Qed.

(** ** Which names the namespace check sees *)

Definition labelChar (a : ascii) : bool :=
  let n := Z_of_byte a in
  ((97 <=? n) && (n <=? 122)) || ((48 <=? n) && (n <=? 57)) || (n =? 45).
Definition dnsChar (a : ascii) : bool := labelChar a || bool_decide (a = "."%char).

(** [:port], or nothing. *)
Definition portSuffix (p : string) : Prop :=
  p = "" ∨ ∃ d, p = String ":" d ∧ str_forallb labelChar d = true.

Lemma str_existsb_false p q s :
  (∀ a, q a = true → p a = false) → str_forallb q s = true → str_existsb p s = false.
Proof.
  intros Hpq. induction s as [|a s IH]; [done|]. rewrite str_forallb_cons.
  intros [Ha Hs]%andb_true_iff. simpl. by rewrite Hpq, IH.
Qed.

(** Cutting [:port] off a name. *)
Lemma cut_port name p :
  str_forallb dnsChar name = true → portSuffix p →
  match CutLast ":" (name +:+ p) with
  | Some (before, after) => if ContainsByte after "." then name +:+ p else before
  | None => name +:+ p
  end = name.
Proof.
  intros Hn [->|(d & -> & Hd)].
  - rewrite str_app_nil_r, CutLast_none; [done|]. by apply (str_forallb_excludes dnsChar).
  - rewrite (proj2 (CutLast_spec ":" _ name d)).
    + by rewrite (str_forallb_excludes labelChar "." d).
    + split; [done|]. by apply (str_forallb_excludes labelChar).
Qed.

(** Every in-cluster name, in any letter case, with or without the cluster domain, the root
    dot and a port, is attributed to the namespace it names. *)
Lemma serviceDNS_detects e pre ns (cluster dot : bool) p :
  ToLower (TrimSpace e) =
    (pre +:+ String "." ns +:+ ".svc" +:+ (if cluster then ".cluster.local" else "") +:+
     (if dot then "." else "")) +:+ p →
  str_forallb dnsChar pre = true → str_forallb labelChar ns = true → ns ≠ "" → portSuffix p →
  serviceDNSNamespace e = Some ns.
Proof.
  intros He Hpre Hns Hne Hp. unfold serviceDNSNamespace.
  assert (str_eqb (TrimSpace e) "" = false) as ->.
  { apply str_eqb_neq. intros E. rewrite E in He. by destruct pre. }
  rewrite He. set (core := pre +:+ String "." ns).
  set (name := pre +:+ _).
  assert (name = core +:+ ".svc" +:+ (if cluster then ".cluster.local" else "") +:+ (if dot then "." else "")) as En.
  { unfold name, core. rewrite str_app_assoc. f_equal. }
  assert (str_forallb dnsChar name = true) as Hname.
  { assert (str_forallb dnsChar ns = true) as Hns'.
    { unfold str_forallb. rewrite (str_existsb_false _ labelChar); [done| |done].
      intros a Ha. unfold dnsChar. by rewrite Ha. }
    rewrite En. unfold core. rewrite !str_forallb_app, Hpre, str_forallb_cons, Hns'. by destruct cluster, dot. }
  assert (ContainsByte (name +:+ p) "/" = false) as Hsl.
  { unfold ContainsByte. rewrite str_existsb_app.
    rewrite (str_forallb_excludes dnsChar "/" name eq_refl Hname : str_existsb _ name = false).
    destruct Hp as [->|(d & -> & Hd)]; [done|]. simpl.
    apply (str_forallb_excludes labelChar "/" d eq_refl Hd). }
  rewrite (CutStr_none _ "/") by done.
  rewrite takeUntil_none.
  2: { rewrite str_existsb_app. rewrite (str_existsb_false _ dnsChar name); [|intros a|done].
       - destruct Hp as [->|(d & -> & Hd)]; [done|]. cbn [str_existsb orb].
         rewrite bool_decide_eq_false_2 by set_solver.
         apply (str_existsb_false _ labelChar); [|done]. intros a Ha.
         apply bool_decide_eq_false_2. intros [->|[->|[]%elem_of_nil]%elem_of_cons]%elem_of_cons; done.
       - intros Ha. apply bool_decide_eq_false_2.
         intros [->|[->|[]%elem_of_nil]%elem_of_cons]%elem_of_cons; done. }
  rewrite (cut_port name p) by done.
  assert (TrimSuffix name "." = core +:+ ".svc" +:+ (if cluster then ".cluster.local" else "")) as ->.
  { rewrite En. destruct dot.
    - rewrite <-(str_app_assoc ".svc"), <-str_app_assoc. apply (TrimSuffix_app _ ".").
    - rewrite str_app_nil_r. destruct cluster.
      + change (".svc" +:+ ".cluster.local") with (".svc.cluster.loca" +:+ "l"). rewrite <-str_app_assoc.
        by apply (TrimSuffix_other _ "" "l" ".").
      + rewrite str_app_nil_r. change ".svc" with (".sv" +:+ "c"). rewrite <-str_app_assoc.
        by apply (TrimSuffix_other _ "" "c" "."). }
  assert (TrimSuffix (core +:+ ".svc" +:+ (if cluster then ".cluster.local" else ""))
            ("." +:+ k8sClusterDomain) = core +:+ ".svc") as ->.
  { destruct cluster.
    - rewrite <-str_app_assoc. apply (TrimSuffix_app _ ".cluster.local").
    - rewrite str_app_nil_r. change ".svc" with (".sv" +:+ "c"). rewrite <-str_app_assoc.
      by apply (TrimSuffix_other _ ".cluster.loca" "c" "l"). }
  rewrite HasSuffix_app, TrimSuffix_app. cbn [negb]. unfold core. rewrite Split_app.
  rewrite (Split_none _ ns) by (by apply (str_forallb_excludes labelChar)).
  rewrite length_app, last_snoc. destruct (Split "." pre) as [|w ws] eqn:Ews; [by apply Split_nonempty in Ews|].
  cbn [length]. assert (S (length ws) + 1 <? 2 = false)%nat as -> by (apply Nat.ltb_ge; lia).
  by apply str_eqb_neq in Hne as ->.
Qed.
