(* ===== verification/Adapters.v ===== *)
(** * Adapters and their registries (pkg/adapters/backend/backend.go, pkg/adapters/runtime/adapter.go)

    An adapter is a record of its operations; the optional interfaces of the Go code
    (LMCacheMPRuntimeAdapter, InitContainerProvider, PairLister) are optional fields.  A failed
    operation is [inl] of its message; a mutation of a pod spec returns the new spec. *)

From S2P Require Import Prelude Ordering GoRuntime GoText CoreV1 BackendApi.

Definition RuntimeVLLM : string := "vllm".
Definition RuntimeSGLang : string := "sglang".
Definition ProtocolRESP : string := "resp".

Section adapters.
Context `{QO : QuantityOps}.
(** [%q] of fmt. *)
Variable quote : string → string.

(** ** Bindings *)

Record RedisBinding := mkRedisBinding {
  rb_Authentication : option RedisAuthenticationSpec;
  rb_TLS : option (KeySelector * string);
  rb_Database : option Z
}.

Record Binding := mkBinding {
  b_Protocol : string;
  b_Endpoint : string;
  b_Redis : option RedisBinding
}.

Definition ErrNoProvider : string := "no remote-storage provider supports the declaration".

Definition BindingFor (storage : option CacheBackendRemoteStorageSpec) (protocol resolvedEndpoint : string) :
    option Binding :=
  s ← storage;
  Some (mkBinding protocol resolvedEndpoint
    (if str_eqb (rs_Provider s) CacheBackendRemoteStorageProviderRedis then
       r ← rs_Redis s; Some (mkRedisBinding (rd_Authentication r) (rd_TLS r) (rd_Database r))
     else None)).

Definition ProtocolFor (storage : option CacheBackendRemoteStorageSpec) : string + string :=
  match storage with
  | None => inr ""
  | Some s =>
      if str_eqb (rs_Provider s) CacheBackendRemoteStorageProviderRedis then inr ProtocolRESP
      else inl (ErrNoProvider +:+ ": unknown provider=" +:+ quote (rs_Provider s))
  end.

(** ** Storage providers *)

(** The Service a provider asks for: its type, and per port the name, number, named target and
    protocol. *)
Record RenderedService := mkRenderedService {
  svc_Type : string;
  svc_Ports : list (string * Z * string * string)
}.

(** RenderedStorage; the workload and its Service are absent for External ownership. *)
Record RenderedStorage := mkRenderedStorage {
  rst_PodSpec : option PodSpec;
  rst_Service : option RenderedService;
  rst_Protocol : string
}.

Record Provider := mkProvider {
  pv_Supports : CacheBackendRemoteStorageSpec → bool;
  pv_Render : CacheBackend → string + RenderedStorage
}.

(** [Register]: a nil provider (or adapter) is ignored. *)
Definition Register {A : Type} (x : option A) (r : list A) : list A :=
  match x with Some x => r ++ [x] | None => r end.

Definition SelectProvider (r : list Provider) (storage : option CacheBackendRemoteStorageSpec) :
    string + Provider :=
  match storage with
  | None => inl (ErrNoProvider +:+ ": remoteStorage=<nil>")
  | Some s =>
      match List.find (λ p, pv_Supports p s) r with
      | Some p => inr p
      | None => inl (ErrNoProvider +:+ ": provider=" +:+ quote (rs_Provider s) +:+ " ownership=" +:+ quote (rs_Ownership s))
      end
  end.

(** ** Runtime adapters *)

Record SupportedPair := mkPair { sp_Runtime : string; sp_Backend : string }.

#[export] Instance SupportedPair_eq_dec : EqDecision SupportedPair.
Proof. solve_decision. Defined.

Definition pairString (p : SupportedPair) : string := sp_Runtime p +:+ "/" +:+ sp_Backend p.

Record KVCacheRuntimeAdapter := mkAdapter {
  ad_Supports : string → CacheBackend → bool;
  ad_SupportsBinding : option Binding → bool;
  ad_InjectEngineConfig : PodSpec → option Binding → CacheBackend → string + PodSpec;
  ad_ObservationSidecar : CacheBackend → Pod → string + option Container;
  ad_ReservedArgs : list string;
  ad_ReservedEnv : list string;
  ad_EngineContainerName : string;
  ad_ValidateMPEnginePod : option (Pod → CacheBackend → goError);
  ad_KernelCheckInitContainer : option (CacheBackend → Pod → string + option Container);
  ad_SupportedPairs : option (list SupportedPair)
}.

Definition ErrNoAdapter : string := "no runtime adapter supports the runtime/backend pair".

Definition Select (r : list KVCacheRuntimeAdapter) (runtime : string) (cache : CacheBackend) :
    string + KVCacheRuntimeAdapter :=
  match List.find (λ a, ad_Supports a runtime cache) r with
  | Some a => inr a
  | None => inl (ErrNoAdapter +:+ ": runtime=" +:+ quote runtime +:+ " backend=" +:+ quote (bs_Type (cb_Spec cache)))
  end.

(** The union of the listed pairs, in registration order, without repetition. *)
Definition addPair (out : list SupportedPair) (p : SupportedPair) : list SupportedPair :=
  if bool_decide (p ∈ out) then out else out ++ [p].

Definition SupportedPairs (r : list KVCacheRuntimeAdapter) : list SupportedPair :=
  foldl addPair [] (r ≫= λ a, default [] (ad_SupportedPairs a)).

Definition ResolveRuntimeID (cache : CacheBackend) : string := ToLower (bs_Runtime (cb_Spec cache)).

(** ** Facts *)

Lemma Select_inr r runtime cache a :
  Select r runtime cache = inr a → a ∈ r ∧ ad_Supports a runtime cache = true.
Proof.
  unfold Select. destruct (List.find _ r) as [a'|] eqn:E; [|done]. intros [= ->].
  apply find_some in E as [Hin Hs]. split; [by apply list_elem_of_In|done].
Qed.

(** First match wins: an adapter registered later never displaces an earlier one. *)
Lemma Select_app r r' runtime cache a :
  Select r runtime cache = inr a → Select (r ++ r') runtime cache = inr a.
Proof.
  unfold Select. destruct (List.find (λ a, ad_Supports a runtime cache) r) as [a'|] eqn:E; [|done].
  intros [= ->].
  assert (List.find (λ a, ad_Supports a runtime cache) (r ++ r') = Some a) as ->; [|done].
  clear -E. induction r as [|x r IH]; [done|]. simpl in *. destruct (ad_Supports x runtime cache); auto.
Qed.

Lemma addPair_fold ps out :
  NoDup out → NoDup (foldl addPair out ps) ∧ ∀ p, p ∈ foldl addPair out ps ↔ p ∈ out ∨ p ∈ ps.
Proof.
  revert out. induction ps as [|q ps IH]; intros out Hnd; simpl; [by set_solver|].
  assert (NoDup (addPair out q)) as Hq.
  { unfold addPair. case_bool_decide; [done|]. apply NoDup_app. set_solver by eauto using NoDup_singleton. }
  destruct (IH _ Hq) as [H1 H2]. split; [done|]. intros p. rewrite H2. unfold addPair.
  case_bool_decide; set_solver.
Qed.
End adapters.
