(* ===== verification/Renderer.v ===== *)
(** * Rendering the LMCache server and the engine's side of it
    (adapters/builtin/runtime/runtime_helpers.go, lmcache_mp_renderer.go, and the engine part
    of lmcache_mp_nodelocal.go)

    A renderer maps a pod spec to the wired spec or a message; the Go code works on a deep copy
    and commits it at the end, so a failed render leaves the pod as it was. *)

From S2P Require Import Prelude Ordering GoRuntime GoText GoNumbers CoreV1 BackendApi Endpoints Adapters.

(** ** Arguments *)

Definition UpsertFlag (args : list string) (flag : string) : list string :=
  if bool_decide (flag ∈ args) then args else args ++ [flag].

Fixpoint UpsertArgPair (args : list string) (flag value : string) : list string :=
  match args with
  | [] => [flag; value]
  | arg :: rest =>
      if str_eqb arg flag then
        match rest with [] => [arg; value] | _ :: rest => arg :: value :: rest end
      else if HasPrefix arg (flag +:+ "=") then flag :: value :: rest
      else arg :: UpsertArgPair rest flag value
  end.

(** The values of a flag, and whether an occurrence has none. *)
Fixpoint argValues (args : list string) (flag : string) : list string * bool :=
  match args with
  | [] => ([], false)
  | arg :: rest =>
      if str_eqb arg flag then
        match rest with
        | [] => ([], true)
        | v :: rest' =>
            if HasPrefix v "--" then let '(vs, _) := argValues rest flag in (vs, true)
            else let '(vs, bad) := argValues rest' flag in (v :: vs, bad)
        end
      else if HasPrefix arg (flag +:+ "=") then
        let v := TrimPrefix arg (flag +:+ "=") in
        let '(vs, bad) := argValues rest flag in
        if str_eqb v "" then (vs, true) else (v :: vs, bad)
      else argValues rest flag
  end.

Definition hasArg (args : list string) (flag : string) : bool :=
  existsb (λ arg, str_eqb arg flag || HasPrefix arg (flag +:+ "=")) args.

Definition lmCacheMPTransferModeArg : string := "--supported-transfer-mode".
Definition lmCacheMPTransferModeLMCacheDriven : string := "lmcache_driven".
Definition lmCacheMPL1NonLazyArg : string := "--no-l1-use-lazy".
Definition lmCacheMPL1LazyArg : string := "--l1-use-lazy".
Definition lmCacheMPShmNameArg : string := "--shm-name".

(** The CUDA-only transfer and private L1 contract of a server's arguments. *)
Definition IsLMCacheMPCUDAServerProfile (args : list string) : bool :=
  let '(transferModes, transferMalformed) := argValues args lmCacheMPTransferModeArg in
  let '(shmNames, shmMalformed) := argValues args lmCacheMPShmNameArg in
  negb transferMalformed && bool_decide (transferModes = [lmCacheMPTransferModeLMCacheDriven]) &&
  negb shmMalformed && bool_decide (shmNames = [""]) &&
  (length (List.filter (str_eqb lmCacheMPL1NonLazyArg) args) =? 1)%nat &&
  (length (List.filter (str_eqb lmCacheMPL1LazyArg) args) =? 0)%nat.

Section renderer.
Context `{QO : QuantityOps}.
(** [%q] and [%v] of fmt on strings and lists of them. *)
Variable quote : string → string.

(** ** Helpers *)

Definition UpsertEnv (env : list EnvVar) (want : EnvVar) : list EnvVar :=
  match list_find (λ e, ev_Name e = ev_Name want) env with
  | Some (i, _) => <[i := want]> env
  | None => env ++ [want]
  end.

Definition removeEnv (env : list EnvVar) (name : string) : list EnvVar :=
  List.filter (λ e, negb (str_eqb (ev_Name e) name)) env.

Definition findContainerByName (containers : list Container) (name : string) : option Container :=
  List.find (λ c, str_eqb (cn_Name c) name) containers.

Definition EngineContainerIndexNamed (pod : PodSpec) (name : string) : string + nat :=
  match list_find (λ c, cn_Name c = name) (psp_Containers pod) with
  | Some (i, _) => inr i
  | None =>
      if (length (psp_Containers pod) =? 1)%nat then inr 0%nat
      else inl ("inject engine config: pod has " +:+ FormatInt (Z.of_nat (length (psp_Containers pod))) +:+
                " containers [" +:+ Join " " (cn_Name <$> psp_Containers pod) +:+ "] but none is named " +:+ quote name +:+
                "; injecting engine flags into unrelated sidecars would crash them — name the engine container " +:+ quote name)
  end.

Definition FailOpenString (cache : CacheBackend) : string :=
  if IntegrationFailOpen (bs_Integration (cb_Spec cache)) then "true" else "false".

Definition IntegrationRole (cache : CacheBackend) : string :=
  match bs_Integration (cb_Spec cache) with
  | None => RoleReadWrite
  | Some i => if str_eqb (in_Role i) "" then RoleReadWrite else in_Role i
  end.

Definition mountAtPath (mounts : list VolumeMount) (path : string) : option VolumeMount :=
  List.find (λ m, str_eqb (vm_MountPath m) path) mounts.

Definition upsertMountByName (mounts : list VolumeMount) (want : VolumeMount) : list VolumeMount :=
  match list_find (λ m, vm_Name m = vm_Name want) mounts with
  | Some (i, _) => <[i := want]> mounts
  | None => mounts ++ [want]
  end.

Definition lmCacheMPServerSecurityContext : SecurityContext :=
  mkSecurityContext None None None (Some false) None ["ALL"] (Some "RuntimeDefault").

(** Replace an object of that name if the wire is ours, refuse it if it is not, or append. *)
Definition adopt {A : Type} (name : A → string) (l : list A) (want : A) (owned : bool) (refusal : string) :
    string + list A :=
  match list_find (λ x, name x = name want) l with
  | Some (i, _) => if owned then inr (<[i := want]> l) else inl refusal
  | None => inr (l ++ [want])
  end.

Definition adoptContainer (containers : list Container) (want : Container) (owned : bool) : string + list Container :=
  adopt cn_Name containers want owned
    ("inject engine config: pod already has a container named " +:+ quote (cn_Name want) +:+
     " that this adapter did not render; that name is reserved for the LMCache MP native sidecar — rename your container").

Definition adoptVolume (volumes : list Volume) (want : Volume) (owned : bool) : string + list Volume :=
  adopt vol_Name volumes want owned
    ("inject engine config: pod already has a volume named " +:+ quote (vol_Name want) +:+
     " that this adapter did not render; that name is reserved for the LMCache MP wire — rename your volume").

Definition noSource : VolumeSource := mkVolumeSource None None false false false false None None None.

Definition lmCacheMPShmMountPath : string := "/dev/shm".

Definition readOnlySource (s : VolumeSource) : bool :=
  vs_ConfigMap s || vs_Secret s || vs_DownwardAPI s || vs_Projected s || default false (vs_PVC s) ||
  default false (default None (vs_CSI s)) || default false (vs_NFS s).

Definition checkLMCacheMPShmReusable (volumes : list Volume) (mount : VolumeMount) : goError :=
  if vm_ReadOnly mount then
    Some ("inject engine config: engine container mounts " +:+ quote lmCacheMPShmMountPath +:+ " read-only (volume " +:+
          quote (vm_Name mount) +:+ "), but the LMCache MP data path writes there — drop readOnly or mount it elsewhere")
  else if negb (str_eqb (vm_SubPathExpr mount) "") then
    Some ("inject engine config: engine container mounts " +:+ quote lmCacheMPShmMountPath +:+ " with subPathExpr " +:+
          quote (vm_SubPathExpr mount) +:+ " (volume " +:+ quote (vm_Name mount) +:+
          "); the LMCache MP server cannot reproduce that expansion in its own env — use a literal subPath, or mount " +:+
          quote lmCacheMPShmMountPath +:+ " without it")
  else match List.find (λ v, str_eqb (vol_Name v) (vm_Name mount)) volumes with
       | None => None
       | Some v =>
           if readOnlySource (vol_Source v) then
             Some ("inject engine config: engine container mounts " +:+ quote lmCacheMPShmMountPath +:+ " from read-only volume " +:+
                   quote (vm_Name mount) +:+ ", but the LMCache MP data path writes there — use an emptyDir (medium: Memory) instead")
           else None
       end.

(** ** The PodLocal server *)

Definition lmCacheMPServerContainerName : string := "lmcache-mp-server".
Definition lmCacheMPServerManagedEnv : string := "INFERENCECACHE_MP_SERVER".
Definition lmCacheMPConfigVolumeName : string := "lmcache-mp-config".
Definition lmCacheMPConfigMountPath : string := "/var/run/inference-cache/lmcache".
Definition lmCacheMPConfigFilePath : string := lmCacheMPConfigMountPath +:+ "/client.yaml".
Definition lmCacheMPShmVolumeName : string := "lmcache-mp-shm".
Definition lmCacheMPShmHeadroom : string := "1Gi".
Definition lmCacheMPHTTPPortName : string := "lmcache-http".
Definition rendererHTTPPort : Z := 8080.
Definition lmCacheRESPUsernameEnv : string := "LMCACHE_RESP_USERNAME".
Definition lmCacheRESPPasswordEnv : string := "LMCACHE_RESP_PASSWORD".

Record lmCacheMPServerConfig := mkMPConfig {
  mc_Image : string;
  mc_Port : Z;
  mc_ChunkSizeTokens : Z;
  mc_L1Capacity : Quantity;
  mc_MaxWorkers : Z;
  mc_Resources : ResourceRequirements;
  mc_Binding : option Binding;
  mc_WriteClientConfig : bool
}.

Definition lmCacheMPMemoryBudget (l1Capacity : Quantity) : Quantity :=
  qAdd l1Capacity (MustParse lmCacheMPShmHeadroom).

Definition checkLMCacheMPShmBudget (volumes : list Volume) (mount : VolumeMount) (budget : Quantity) : goError :=
  match List.find (λ v, str_eqb (vol_Name v) (vm_Name mount)) volumes with
  | None => Some ("render LMCache MP server: engine /dev/shm mount references missing volume " +:+ quote (vm_Name mount))
  | Some v =>
      match vs_EmptyDir (vol_Source v) with
      | Some ed =>
          if negb (str_eqb (ed_Medium ed) "Memory") then
            Some ("render LMCache MP server: engine container mounts " +:+ quote lmCacheMPShmMountPath +:+ " from volume " +:+
                  quote (vm_Name mount) +:+ ", but the PodLocal CUDA IPC budget requires a memory-backed emptyDir")
          else
            let bad got := Some ("render LMCache MP server: engine /dev/shm volume " +:+ quote (vm_Name mount) +:+ " has sizeLimit " +:+
                  got +:+ ", need at least " +:+ qString budget +:+ " (l1Capacity + " +:+ lmCacheMPShmHeadroom +:+ " headroom)") in
            match ed_SizeLimit ed with
            | None => bad "unbounded"
            | Some lim => if qCmp lim budget <? 0 then bad (qString lim) else None
            end
      | None =>
          Some ("render LMCache MP server: engine container mounts " +:+ quote lmCacheMPShmMountPath +:+ " from volume " +:+
                quote (vm_Name mount) +:+ ", but the PodLocal CUDA IPC budget requires a memory-backed emptyDir")
      end
  end.

Definition validateLMCacheMPServerConfig (cfg : lmCacheMPServerConfig) : goError :=
  if str_eqb (TrimSpace (mc_Image cfg)) "" then Some "render LMCache MP server: image is empty"
  else if (mc_Port cfg <? 1) || (65535 <? mc_Port cfg) then
    Some ("render LMCache MP server: port " +:+ FormatInt (mc_Port cfg) +:+ " is outside 1-65535")
  else if mc_Port cfg =? rendererHTTPPort then
    Some ("render LMCache MP server: MP port " +:+ FormatInt (mc_Port cfg) +:+ " collides with HTTP health/control port")
  else if mc_ChunkSizeTokens cfg <? 1 then Some "render LMCache MP server: chunkSizeTokens must be at least 1"
  else if qSign (mc_L1Capacity cfg) <=? 0 then Some "render LMCache MP server: l1Capacity must be greater than zero"
  else if mc_MaxWorkers cfg <? 1 then Some "render LMCache MP server: maxWorkers must be at least 1"
  else None.

(** The L2 adapter argument (empty without a binding) and the credentials it needs. *)
Definition renderLMCacheMPL2Binding (binding : option Binding) : string + (string * list EnvVar) :=
  match binding with
  | None => inr ("", [])
  | Some b =>
      if negb (str_eqb (b_Protocol b) ProtocolRESP) then
        inl ("render LMCache MP server: unsupported remote protocol " +:+ quote (b_Protocol b))
      else
        let tls := r ← b_Redis b; rb_TLS r in
        let db := r ← b_Redis b; rb_Database r in
        if bool_decide (is_Some tls) then inl "render LMCache MP server: LMCache 0.5.3 resp adapter does not support TLS"
        else if bool_decide (is_Some db) then
          inl "render LMCache MP server: LMCache 0.5.3 resp adapter does not support database selection"
        else
          let '(host, portText, ok) := splitLMCacheHostPort (TrimSpace (b_Endpoint b)) in
          if negb ok || str_eqb host "" || str_eqb portText "" then
            inl ("render LMCache MP server: Redis endpoint " +:+ quote (b_Endpoint b) +:+ " is not host:port")
          else
            match ParseInt32 portText with
            | Some port =>
                if (port <? 1) || (65535 <? port) then
                  inl ("render LMCache MP server: Redis endpoint " +:+ quote (b_Endpoint b) +:+ " has invalid port " +:+ quote portText)
                else
                  let secret name sel := mkEnvVar name "" (Some (mkEnvVarSource None None None (Some sel) None)) in
                  let env :=
                    match r ← b_Redis b; rb_Authentication r with
                    | None => []
                    | Some auth =>
                        match ra_Username auth with Some u => [secret lmCacheRESPUsernameEnv u] | None => [] end ++
                        [secret lmCacheRESPPasswordEnv (ra_Password auth)]
                    end in
                  inr (jsonObject [("host", jsonString host); ("port", FormatInt port); ("type", jsonString "resp")], env)
            | None => inl ("render LMCache MP server: Redis endpoint " +:+ quote (b_Endpoint b) +:+ " has invalid port " +:+ quote portText)
            end
  end.

Definition quantityAsGiB (q : Quantity) : string + string :=
  let bytes := qValue q in
  let gib := 2 ^ 30 in
  if bytes <=? 0 then inl "render LMCache MP server: l1Capacity must be greater than zero"
  else if Z.rem bytes gib =? 0 then inr (FormatInt (Z.quot bytes gib))
  else inr (FormatFloat64 (f64_div (f64_of_Z bytes) (f64_of_Z gib))).

Definition lmCacheMPHTTPProbe (period failures : Z) : Probe :=
  mkProbe (HTTPGet "/healthcheck" lmCacheMPHTTPPortName) 0 period failures 2.

Definition clientConfigScript : string := goRaw "set -eu
config_path=`$1`
chunk_size=`$2`
mp_port=`$3`
shift 3
printf 'chunk_size: %s\nmp_host: `127.0.0.1`\nmp_port: %s\n' `$chunk_size` `$mp_port` > `$config_path`
exec `$@`".

Definition serverArgs (cfg : lmCacheMPServerConfig) (l1GiB l2Adapter : string) : list string :=
  ["server"; lmCacheMPTransferModeArg; lmCacheMPTransferModeLMCacheDriven; lmCacheMPL1NonLazyArg;
   lmCacheMPShmNameArg; ""; "--host"; "127.0.0.1"; "--port"; FormatInt (mc_Port cfg);
   "--http-host"; "0.0.0.0"; "--http-port"; FormatInt rendererHTTPPort;
   "--chunk-size"; FormatInt (mc_ChunkSizeTokens cfg); "--l1-size-gb"; l1GiB;
   "--eviction-policy"; "LRU"; "--max-workers"; FormatInt (mc_MaxWorkers cfg)] ++
  (if str_eqb l2Adapter "" then [] else ["--l2-adapter"; l2Adapter]).

Definition lmCacheMPServerContainer (cfg : lmCacheMPServerConfig) (l2Adapter : string) (bindingEnv : list EnvVar)
    (shmMount : VolumeMount) : string + Container :=
  let* l1GiB := quantityAsGiB (mc_L1Capacity cfg) in
  let args := serverArgs cfg l1GiB l2Adapter in
  let '(command, args, mounts) :=
    if mc_WriteClientConfig cfg then
      (["/bin/sh"; "-c"],
       [clientConfigScript; "inference-cache-lmcache-config"; lmCacheMPConfigFilePath;
        FormatInt (mc_ChunkSizeTokens cfg); FormatInt (mc_Port cfg); "lmcache"] ++ args,
       [shmMount; mkVolumeMount lmCacheMPConfigVolumeName lmCacheMPConfigMountPath "" "" false])
    else (["lmcache"], args, [shmMount]) in
  let env := foldl UpsertEnv [mkEnvVar "NVIDIA_VISIBLE_DEVICES" "all" None; mkEnvVar lmCacheMPServerManagedEnv "true" None]
               bindingEnv in
  inr (mkContainer lmCacheMPServerContainerName (TrimSpace (mc_Image cfg)) "IfNotPresent" (Some "Always") ""
    command args env [] (mc_Resources cfg) mounts []
    [mkContainerPort "lmcache-mp" (mc_Port cfg) 0 "TCP"; mkContainerPort lmCacheMPHTTPPortName rendererHTTPPort 0 "TCP"]
    (Some (lmCacheMPHTTPProbe 3 40)) (Some (lmCacheMPHTTPProbe 5 3)) (Some (lmCacheMPHTTPProbe 10 3))
    (Some lmCacheMPServerSecurityContext) ("", "")).

(** A container this renderer wrote carries its marker. *)
Definition managedBy (name env : string) (pod : PodSpec) : bool :=
  match findContainerByName (psp_InitContainers pod) name with
  | None => false
  | Some c => existsb (λ e, str_eqb (ev_Name e) env && str_eqb (ev_Value e) "true") (cn_Env c)
  end.

Definition lmCacheMPWireIsOurs : PodSpec → bool := managedBy lmCacheMPServerContainerName lmCacheMPServerManagedEnv.

(** [work.Containers[engineIndex]] updated. *)
Definition updateEngine (f : Container → Container) (i : nat) (pod : PodSpec) : PodSpec :=
  set_containers (alter f i (psp_Containers pod)) pod.

Definition engineMounts (i : nat) (pod : PodSpec) : list VolumeMount :=
  match psp_Containers pod !! i with Some c => cn_VolumeMounts c | None => [] end.

Definition mountOn (m : VolumeMount) (i : nat) (pod : PodSpec) : PodSpec :=
  updateEngine (λ c, set_mounts (upsertMountByName (cn_VolumeMounts c) m) c) i pod.

(** The client-config volume, when the engine reads a file. *)
Definition renderConfigVolume (owned : bool) (i : nat) (work : PodSpec) : string + PodSpec :=
  let* _ := echeck match mountAtPath (engineMounts i work) lmCacheMPConfigMountPath with
    | Some existing =>
        if owned && str_eqb (vm_Name existing) lmCacheMPConfigVolumeName then None
        else Some ("render LMCache MP server: engine container already mounts " +:+ quote lmCacheMPConfigMountPath +:+
                   " from volume " +:+ quote (vm_Name existing) +:+ "; that path is reserved for the LMCache MP client config")
    | None => None
    end in
  let* vols := adoptVolume (psp_Volumes work) (mkVolume lmCacheMPConfigVolumeName
    (mkVolumeSource (Some (mkEmptyDir "" None)) None false false false false None None None)) owned in
  inr (mountOn (mkVolumeMount lmCacheMPConfigVolumeName lmCacheMPConfigMountPath "" "" false) i (set_volumes vols work)).

(** The shared memory mount: the engine's own when it has one, ours otherwise. *)
Definition renderShm (owned : bool) (budget : Quantity) (i : nat) (work : PodSpec) : string + (VolumeMount * PodSpec) :=
  let ours := mkVolumeMount lmCacheMPShmVolumeName lmCacheMPShmMountPath "" "" false in
  let adoptOurs :=
    let* vols := adoptVolume (psp_Volumes work) (mkVolume lmCacheMPShmVolumeName
      (mkVolumeSource (Some (mkEmptyDir "Memory" (Some budget))) None false false false false None None None)) owned in
    inr (ours, mountOn ours i (set_volumes vols work)) in
  match mountAtPath (engineMounts i work) lmCacheMPShmMountPath with
  | Some existing =>
      if owned && str_eqb (vm_Name existing) lmCacheMPShmVolumeName then adoptOurs
      else
        let* _ := echeck (checkLMCacheMPShmReusable (psp_Volumes work) existing) in
        let* _ := echeck (checkLMCacheMPShmBudget (psp_Volumes work) existing budget) in
        inr (mkVolumeMount (vm_Name existing) lmCacheMPShmMountPath (vm_SubPath existing) "" false, work)
  | None => adoptOurs
  end.

(** The wired spec and the path of the client config. *)
Definition renderLMCachePodLocalServer (pod : PodSpec) (engineContainerName : string) (cfg : lmCacheMPServerConfig) :
    string + (PodSpec * string) :=
  let* i := EngineContainerIndexNamed pod engineContainerName in
  let* _ := echeck (validateLMCacheMPServerConfig cfg) in
  let* (l2Adapter, bindingEnv) := renderLMCacheMPL2Binding (mc_Binding cfg) in
  let owned := lmCacheMPWireIsOurs pod in
  let* work := if mc_WriteClientConfig cfg then renderConfigVolume owned i pod else inr pod in
  let* (shmMount, work) := renderShm owned (lmCacheMPMemoryBudget (mc_L1Capacity cfg)) i work in
  let* server := lmCacheMPServerContainer cfg l2Adapter bindingEnv shmMount in
  let* inits := adoptContainer (psp_InitContainers work) server owned in
  inr (set_init inits work, if mc_WriteClientConfig cfg then lmCacheMPConfigFilePath else "").
End renderer.
