(* ===== verification/EngineWire.v ===== *)
(** * Wiring around the engine container: the NodeLocal engine side, the subscriber sidecar and
    the kernel check (adapters/builtin/runtime/lmcache_mp_nodelocal.go, subscriber.go,
    lmcachecheck.go)

    As in [Renderer], a renderer maps a pod spec to the wired spec or a message. *)

From S2P Require Import Prelude Ordering GoRuntime GoText GoNumbers CoreV1 BackendApi Endpoints Adapters.
From S2P Require Import Renderer.

Definition lmCacheNodeLocalGateContainerName : string := "lmcache-node-local-gate".
Definition lmCacheNodeLocalGateManagedEnv : string := "INFERENCECACHE_NODE_LOCAL_GATE".
Definition lmCacheNodeLocalShmVolumeName : string := "lmcache-node-shm".
Definition lmCacheNodeLocalConfigVolumeName : string := "lmcache-node-config".
Definition lmCacheNodeLocalConfigMountPath : string := "/var/run/inference-cache/lmcache-node".
Definition lmCacheNodeLocalConfigFilePath : string := lmCacheNodeLocalConfigMountPath +:+ "/client.yaml".
Definition lmCacheNodeIPEnv : string := "INFERENCECACHE_NODE_IP".
Definition lmCacheNodeLocalShmHostRoot : string := "/dev/shm/inference-cache".
Definition hostPathComponentMaxLength : Z := 255.

Definition gateScript : string := goRaw "import json, os, time, urllib.request
ip = os.environ[`INFERENCECACHE_NODE_IP`]
host = `[` + ip + `]` if `:` in ip else ip
base = `http://%s:%s` % (host, os.environ[`EXPECTED_HTTP_PORT`])
expected = {
    `instance_id`: os.environ[`EXPECTED_INSTANCE_ID`],
    `supported_transfer_mode`: `lmcache_driven`,
    `shm_name`: ``,
    `port`: int(os.environ[`EXPECTED_MP_PORT`]),
    `chunk_size`: int(os.environ[`EXPECTED_CHUNK_SIZE`]),
    `max_gpu_workers`: int(os.environ[`EXPECTED_MAX_GPU_WORKERS`]),
    `max_cpu_workers`: int(os.environ[`EXPECTED_MAX_CPU_WORKERS`]),
}
while True:
    try:
        with urllib.request.urlopen(base + `/config`, timeout=2) as response:
            config = json.load(response)
        mp = config.get(`mp`, {})
        http = config.get(`http`, {})
        for key, value in expected.items():
            if mp.get(key) != value:
                raise RuntimeError(`server config %s=%r, expected %r` % (key, mp.get(key), value))
        memory = config.get(`storage_manager`, {}).get(`l1_manager_config`, {}).get(`memory_config`, {})
        if memory.get(`use_lazy`) is not False:
            raise RuntimeError(`effective L1 use_lazy=%r, expected False` % memory.get(`use_lazy`))
        if memory.get(`shm_name`) != ``:
            raise RuntimeError(`effective L1 shm_name=%r, expected empty` % memory.get(`shm_name`))
        if http.get(`http_port`) != int(os.environ[`EXPECTED_HTTP_PORT`]):
            raise RuntimeError(`server HTTP port does not match`)
        with urllib.request.urlopen(base + `/healthcheck`, timeout=2) as response:
            health = json.load(response)
        if health.get(`status`) != `healthy`:
            raise RuntimeError(`server health is %r` % health)
        config_path = os.environ.get(`CLIENT_CONFIG_PATH`, ``)
        if config_path:
            tmp = config_path + `.tmp`
            with open(tmp, `w`, encoding=`utf-8`) as output:
                # LMCache's SGLang MP adapter adds the tcp:// scheme itself;
                # unlike vLLM's connector JSON, this YAML field is a bare host.
                output.write('chunk_size: %s\nmp_host: `%s`\nmp_port: %s\n' % (expected[`chunk_size`], ip, expected[`port`]))
            os.replace(tmp, config_path)
        print(`verified healthy same-node LMCache server ` + expected[`instance_id`], flush=True)
        break
    except Exception as exc:
        print(`waiting for ownership-verified same-node LMCache server: %s` % exc, flush=True)
        time.sleep(2)
".

Definition kernelCheckScript : string := goRaw "
import sys, os, glob, importlib, importlib.util, ctypes
STRICT = os.environ.get(`KERNEL_CHECK_STRICT`) == `1`
MSG = `/dev/termination-log`
def emit(s):
    try:
        with open(MSG, `w`) as f: f.write(s[:3500])
    except Exception:
        pass
def fail(s):
    emit(`FAIL: ` + s)
    sys.exit(1 if STRICT else 0)
try:
    spec = importlib.util.find_spec(`lmcache`)
    locs = list(spec.submodule_search_locations) if spec else []
    if not locs:
        fail(`lmcache not importable`)
    sos = sorted(glob.glob(os.path.join(locs[0], `c_ops*.so`)))
    if not sos:
        fail(`no native c_ops extension present (pure-python/CPU build)`)
    import torch  # required: c_ops.so DT_NEEDED libtorch (libc10.so)
    # dlopen the native extension to force the dynamic loader to resolve every
    # DT_NEEDED lib (libtorch, libcudart, ...). This is where a CUDA-kernel
    # mismatch surfaces (e.g. a cu13 wheel on a cu12 image → `libcudart.so.13:
    # cannot open shared object file`). ctypes.CDLL is used rather than
    # importlib.exec_module on purpose: exec_module derives the C init symbol
    # (PyInit_<module>) from the spec name and would FAIL to find it for any
    # name other than the extension's own, false-failing a HEALTHY engine.
    # CDLL needs no init symbol — it tests exactly the dlopen/DT_NEEDED
    # resolution where the kernel/CUDA mismatch lives.
    ctypes.CDLL(sos[0])
    # LMCache c_ops loading alone does not certify the surrounding vLLM image:
    # vLLM's core extension can carry a different libcudart dependency. Stable
    # ABI wheels use _C_stable_libtorch; older wheels use _C. Probe in that
    # order and import the first extension actually shipped by the image.
    core = None
    for candidate in (`vllm._C_stable_libtorch`, `vllm._C`):
        if importlib.util.find_spec(candidate) is not None:
            core = candidate
            break
    if core is None:
        fail(`no supported vLLM native core extension present (tried vllm._C_stable_libtorch, vllm._C)`)
    importlib.import_module(core)
    emit(`OK`)
except SystemExit:
    raise
except BaseException as e:
    fail(`%s: %r` % (type(e).__name__, e))
".

Section wire.
Context `{QO : QuantityOps}.
(** [%q] of fmt on a string, and on the first rune of a string. *)
Variable quote quoteRune : string → string.

(** ** NodeLocal *)

Definition effectiveLMCacheChunkSize (spec : option LMCacheEngineSpec) : Z :=
  default 256 (lm ← spec; lm_ChunkSizeTokens lm).

Definition validateLMCacheNodeLocalServerConfig (server : LMCacheNodeLocalServerSpec) (chunkSize : Z) : goError :=
  let outside p := (p <? 1) || (65535 <? p) in
  let badPort p := Some ("render LMCache NodeLocal server: port " +:+ FormatInt p +:+ " is outside 1-65535") in
  if str_eqb (TrimSpace (nls_Image server)) "" then Some "render LMCache NodeLocal server: image is empty"
  else if outside (nls_Port server) then badPort (nls_Port server)
  else if outside (nls_HTTPPort server) then badPort (nls_HTTPPort server)
  else if nls_Port server =? nls_HTTPPort server then Some "render LMCache NodeLocal server: host ports must be distinct"
  else if (chunkSize <? 1) || (qSign (nls_L1Capacity server) <=? 0) || (nls_MaxGPUWorkers server <? 1) ||
          (nls_MaxCPUWorkers server <? 1) then
    Some "render LMCache NodeLocal server: chunk size, L1 capacity, and worker counts must be positive"
  else None.

Definition lmCacheNodeLocalInstanceID (cache : CacheBackend) : string :=
  cb_Namespace cache +:+ "/" +:+ cb_Name cache +:+ "@" +:+ cb_UID cache +:+ "#" +:+ FormatInt (cb_Generation cache).

(** A byte of a UID that may appear in a path component. *)
Definition safeUIDByte (a : ascii) : bool :=
  let n := Z_of_byte a in
  ((97 <=? n) && (n <=? 122)) || ((65 <=? n) && (n <=? 90)) || ((48 <=? n) && (n <=? 57)) ||
  (n =? 45) || (n =? 95) || (n =? 46).

(** The rest of the string from its first unsafe rune. *)
Fixpoint unsafeAt (s : string) : option string :=
  match s with
  | EmptyString => None
  | String a s' => if safeUIDByte a then unsafeAt s' else Some s
  end.

Definition nodeLocalBackendUID (cache : CacheBackend) : string + string :=
  let uid := cb_UID cache in
  if str_eqb uid "" then inl "derive LMCache NodeLocal host path: CacheBackend UID is empty"
  else match unsafeAt uid with
  | Some rest => inl ("derive LMCache NodeLocal host path: CacheBackend UID contains unsafe character " +:+ quoteRune rest)
  | None =>
      let n := Z.of_nat (String.length uid) in
      if hostPathComponentMaxLength <? n then
        inl ("derive LMCache NodeLocal host path: " +:+ FormatInt n +:+ "-byte UID exceeds path-component limit " +:+
             FormatInt hostPathComponentMaxLength)
      else inr uid
  end.

Definition NodeLocalServerShmHostPath (cache : CacheBackend) : string + string :=
  let* uid := nodeLocalBackendUID cache in inr (lmCacheNodeLocalShmHostRoot +:+ "/" +:+ uid).

Definition checkNodeLocalHostShm (volumes : list Volume) (mount : VolumeMount) (wantHostPath : string) : goError :=
  if vm_ReadOnly mount || negb (str_eqb (vm_SubPath mount) "") || negb (str_eqb (vm_SubPathExpr mount) "") then
    Some "render LMCache NodeLocal engine: /dev/shm must be a writable whole-volume hostPath mount"
  else match List.find (λ v, str_eqb (vol_Name v) (vm_Name mount)) volumes with
  | None => Some ("render LMCache NodeLocal engine: /dev/shm mount references missing volume " +:+ quote (vm_Name mount))
  | Some v =>
      if bool_decide (vs_HostPath (vol_Source v) = Some (wantHostPath, "DirectoryOrCreate")) then None
      else Some ("render LMCache NodeLocal engine: /dev/shm must use UID-scoped hostPath " +:+ quote wantHostPath +:+
                 " with type DirectoryOrCreate for cross-Pod CUDA IPC")
  end.

Definition lmCacheNodeLocalWireIsOurs : PodSpec → bool :=
  managedBy lmCacheNodeLocalGateContainerName lmCacheNodeLocalGateManagedEnv.

Definition adoptNodeLocalGate (containers : list Container) (want : Container) (owned : bool) : string + list Container :=
  adopt cn_Name containers want owned
    ("render LMCache NodeLocal engine: init container name " +:+ quote (cn_Name want) +:+
     " is reserved for the ownership-verification gate").

(** A value from a field of the pod. *)
Definition fieldEnv (name path : string) : EnvVar :=
  mkEnvVar name "" (Some (mkEnvVarSource (Some ("", path)) None None None None)).

Definition nodeIPEnv : EnvVar := fieldEnv lmCacheNodeIPEnv "status.hostIP".

Definition lmCacheNodeLocalGateContainer (cache : CacheBackend) (server : LMCacheNodeLocalServerSpec) (configPath : string)
    (mounts : list VolumeMount) : Container :=
  let lit n v := mkEnvVar n v None in
  mkContainer lmCacheNodeLocalGateContainerName (TrimSpace (nls_Image server)) "IfNotPresent" None ""
    ["python3"; "-c"] [gateScript]
    [lit lmCacheNodeLocalGateManagedEnv "true"; nodeIPEnv;
     lit "EXPECTED_INSTANCE_ID" (lmCacheNodeLocalInstanceID cache);
     lit "EXPECTED_MP_PORT" (FormatInt (nls_Port server));
     lit "EXPECTED_HTTP_PORT" (FormatInt (nls_HTTPPort server));
     lit "EXPECTED_CHUNK_SIZE" (FormatInt (effectiveLMCacheChunkSize (bs_LMCache (cb_Spec cache))));
     lit "EXPECTED_MAX_GPU_WORKERS" (FormatInt (nls_MaxGPUWorkers server));
     lit "EXPECTED_MAX_CPU_WORKERS" (FormatInt (nls_MaxCPUWorkers server));
     lit "CLIENT_CONFIG_PATH" configPath] []
    (mkResources {["cpu" := MustParse "10m"; "memory" := MustParse "32Mi"]} {["memory" := MustParse "128Mi"]} [])
    mounts [] [] None None None (Some lmCacheMPServerSecurityContext) ("", "").

(** The node address in the engine's environment. *)
Definition renderNodeIP (owned : bool) (i : nat) (work : PodSpec) : string + PodSpec :=
  let env := match psp_Containers work !! i with Some c => cn_Env c | None => [] end in
  if existsb (λ e, str_eqb (ev_Name e) lmCacheNodeIPEnv && negb owned && negb (bool_decide (e = nodeIPEnv))) env then
    inl ("render LMCache NodeLocal engine: environment variable " +:+ quote lmCacheNodeIPEnv +:+
         " is reserved for the node address")
  else inr (updateEngine (λ c, set_engine (cn_Args c) (UpsertEnv (cn_Env c) nodeIPEnv) c) i work).

(** The node's shared memory: the engine's own mount when it is the same directory. *)
Definition renderNodeShm (owned : bool) (shmHostPath : string) (i : nat) (work : PodSpec) : string + PodSpec :=
  let shmMount := mkVolumeMount lmCacheNodeLocalShmVolumeName lmCacheMPShmMountPath "" "" false in
  match mountAtPath (engineMounts i work) lmCacheMPShmMountPath with
  | Some existing => let* _ := echeck (checkNodeLocalHostShm (psp_Volumes work) existing shmHostPath) in inr work
  | None =>
      let* vols := adoptVolume quote (psp_Volumes work) (mkVolume lmCacheNodeLocalShmVolumeName
        (mkVolumeSource None (Some (shmHostPath, "DirectoryOrCreate")) false false false false None None None)) owned in
      inr (mountOn shmMount i (set_volumes vols work))
  end.

Definition nodeConfigMount : VolumeMount :=
  mkVolumeMount lmCacheNodeLocalConfigVolumeName lmCacheNodeLocalConfigMountPath "" "" false.

Definition renderNodeConfig (owned : bool) (i : nat) (work : PodSpec) : string + PodSpec :=
  let* _ := echeck match mountAtPath (engineMounts i work) lmCacheNodeLocalConfigMountPath with
    | Some existing =>
        if owned && str_eqb (vm_Name existing) lmCacheNodeLocalConfigVolumeName then None
        else Some ("render LMCache NodeLocal engine: engine already mounts reserved config path " +:+
                   quote lmCacheNodeLocalConfigMountPath)
    | None => None
    end in
  let* vols := adoptVolume quote (psp_Volumes work) (mkVolume lmCacheNodeLocalConfigVolumeName
    (mkVolumeSource (Some (mkEmptyDir "" None)) None false false false false None None None)) owned in
  inr (mountOn nodeConfigMount i (set_volumes vols work)).

Definition renderLMCacheNodeLocalEngine (pod : PodSpec) (engineContainerName : string) (cache : CacheBackend)
    (writeClientConfig : bool) : string + (PodSpec * string) :=
  let* i := EngineContainerIndexNamed quote pod engineContainerName in
  match (lm ← bs_LMCache (cb_Spec cache); nl ← lm_NodeLocal lm; nl_Server nl), str_eqb (cb_UID cache) "" with
  | Some server, false =>
      let* _ := echeck (validateLMCacheNodeLocalServerConfig server (effectiveLMCacheChunkSize (bs_LMCache (cb_Spec cache)))) in
      let* shmHostPath := NodeLocalServerShmHostPath cache in
      let owned := lmCacheNodeLocalWireIsOurs pod in
      let* work := renderNodeIP owned i pod in
      let* work := renderNodeShm owned shmHostPath i work in
      let* work := if writeClientConfig then renderNodeConfig owned i work else inr work in
      let configPath := if writeClientConfig then lmCacheNodeLocalConfigFilePath else "" in
      let gate := lmCacheNodeLocalGateContainer cache server configPath (if writeClientConfig then [nodeConfigMount] else []) in
      let* inits := adoptNodeLocalGate (psp_InitContainers work) gate owned in
      inr (set_init inits work, configPath)
  | _, _ => inl "render LMCache NodeLocal engine: complete typed NodeLocal configuration and CacheBackend UID are required"
  end.

(** ** The subscriber sidecar *)

Definition DefaultPolicyServerGRPCAddress : string :=
  "inference-cache-server.inference-cache-system.svc.cluster.local:9090".

Record SubscriberConfig := mkSubscriberConfig {
  su_Image : string;
  su_PolicyServerGRPCAddress : string
}.

Record subscriberSidecarParams := mkSidecarParams {
  sd_Config : SubscriberConfig;
  sd_HashScheme : string;
  sd_EngineZMQPortStr : string;
  sd_EngineMetricsPortStr : string;
  sd_EngineContainerName : string
}.

Definition resolveEnvRef (v : string) (env : list EnvVar) : string :=
  if negb (HasPrefix v "$(") || negb (HasSuffix v ")") then v
  else
    let name := TrimSuffix (TrimPrefix v "$(") ")" in
    match List.find (λ e, str_eqb (ev_Name e) name) env with
    | Some e => ev_Value e
    | None => ""
    end.

(** The port of the last well-formed [--port]; [port] is the one found so far. *)
Fixpoint enginePortLoop (env : list EnvVar) (argv : list string) (port : string) : string :=
  match argv with
  | [] => port
  | a :: rest =>
      let v := if HasPrefix a "--port=" then Some (TrimPrefix a "--port=")
               else if str_eqb a "--port" then head rest
               else None in
      let port := match v with
                  | None => port
                  | Some v =>
                      match ParseInt64 (resolveEnvRef v env) with
                      | Some n => if (0 <? n) && (n <? 65536) then FormatInt n else port
                      | None => port
                      end
                  end in
      enginePortLoop env rest port
  end.

Definition enginePortFromContainer (pod : Pod) (containerName : string) : string :=
  if str_eqb containerName "" then ""
  else match EngineContainerIndexNamed quote (p_Spec pod) containerName with
  | inl _ => ""
  | inr i =>
      match psp_Containers (p_Spec pod) !! i with
      | Some c => enginePortLoop (cn_Env c) (cn_Command c ++ cn_Args c) ""
      | None => ""
      end
  end.

(** The arguments of the sidecar for a model. *)
Definition subscriberArgs (p : subscriberSidecarParams) (cache : CacheBackend) (pod : Pod) (modelID : string) : list string :=
  let serverAddr := if str_eqb (su_PolicyServerGRPCAddress (sd_Config p)) "" then DefaultPolicyServerGRPCAddress
                    else su_PolicyServerGRPCAddress (sd_Config p) in
  let custom := enginePortFromContainer pod (sd_EngineContainerName p) in
  let metricsPort := if str_eqb custom "" then sd_EngineMetricsPortStr p else custom in
  ["--engine-endpoint=tcp://127.0.0.1:" +:+ sd_EngineZMQPortStr p; "--server=" +:+ serverAddr;
   "--replica-id=$(POD_NAME)"; "--tenant-id=$(POD_NAMESPACE)"; "--model-id=" +:+ modelID;
   "--hash-scheme=" +:+ sd_HashScheme p] ++
  (if str_eqb metricsPort "" then [] else ["--engine-metrics-url=http://127.0.0.1:" +:+ metricsPort +:+ "/metrics"]) ++
  (if IsEventsOnly (cb_Spec cache) then [] else ["--ignore-block-removed=true"]).

Definition renderSubscriberSidecar (p : subscriberSidecarParams) (cache : CacheBackend) (pod : Pod) :
    string + option Container :=
  let modelID := EffectiveObservationModelID (cb_Spec cache) in
  if str_eqb (su_Image (sd_Config p)) "" then inr None
  else if str_eqb modelID "" then inr None
  else inr (Some (mkContainer SubscriberContainerName (su_Image (sd_Config p)) "IfNotPresent" None "" []
    (subscriberArgs p cache pod modelID)
    [fieldEnv "POD_NAME" "metadata.name"; fieldEnv "POD_NAMESPACE" "metadata.namespace"] []
    (mkResources {["cpu" := MustParse "10m"; "memory" := MustParse "64Mi"]}
       {["cpu" := MustParse "200m"; "memory" := MustParse "128Mi"]} [])
    [] [] [] None None None
    (Some (mkSecurityContext (Some true) (Some 65532) None (Some false) (Some true) ["ALL"] None)) ("", ""))).

(** ** The kernel check *)

Definition EngineContainerName : string := "vllm".
Definition gpuResourceName : string := "nvidia.com/gpu".
Definition KernelCheckModeAuto : string := "auto".
Definition KernelCheckModeReportOnly : string := "report-only".
Definition KernelCheckModeStrict : string := "strict".
Definition KernelCheckModeOff : string := "off".
Definition EnvKernelCheckStrict : string := "KERNEL_CHECK_STRICT".

Definition resolveKernelCheckMode (cache : CacheBackend) : string :=
  let v := strGet (cb_Annotations cache) AnnotationLMCacheKernelCheck in
  if bool_decide (v ∈ [KernelCheckModeReportOnly; KernelCheckModeStrict; KernelCheckModeOff]) then v
  else KernelCheckModeAuto.

Definition engineContainerForKernelCheck (pod : Pod) : option Container :=
  match findContainerByName (psp_Containers (p_Spec pod)) EngineContainerName with
  | Some c => Some c
  | None => match psp_Containers (p_Spec pod) with [c] => Some c | _ => None end
  end.

Definition requestsGPU (c : Container) : bool :=
  existsb (λ rl : gmap string Quantity, match rl !! gpuResourceName with Some q => 0 <? qSign q | None => false end)
    [rr_Limits (cn_Resources c); rr_Requests (cn_Resources c)].

Definition kernelCheckResources : ResourceRequirements :=
  mkResources {["cpu" := MustParse "50m"; "memory" := MustParse "256Mi"]} ∅ [].

Definition KernelCheckInitContainer (cache : CacheBackend) (pod : Pod) : string + option Container :=
  let mode := resolveKernelCheckMode cache in
  if str_eqb mode KernelCheckModeOff then inr None
  else match engineContainerForKernelCheck pod with
  | None => inr None
  | Some engine =>
      if str_eqb (cn_Image engine) "" then inr None
      else if str_eqb mode KernelCheckModeAuto && negb (requestsGPU engine) then inr None
      else
        let strictValue := if str_eqb mode KernelCheckModeStrict then "1" else "0" in
        let env := removeEnv (cn_Env engine) EnvKernelCheckStrict ++ [mkEnvVar EnvKernelCheckStrict strictValue None] in
        inr (Some (mkContainer LMCacheKernelCheckContainerName (cn_Image engine) (cn_ImagePullPolicy engine) None
          (cn_WorkingDir engine) ["python3"; "-c"; kernelCheckScript] [] env (cn_EnvFrom engine) kernelCheckResources
          (cn_VolumeMounts engine) (cn_VolumeDevices engine) [] None None None (cn_SecurityContext engine)
          ("/dev/termination-log", "File")))
  end.
End wire.
