(* ===== verification/EngineAdapters.v ===== *)
(** * The built-in runtime adapters (adapters/builtin/runtime/vllm_lmcache_mp.go,
    sglang_lmcache.go, sglang_hicache.go) and the registry they ship in (builtin/registry.go)

    A module per adapter with the operations of its Go type; [newRegistry] is the list
    [builtin.New] registers, in order. *)

From Stdlib Require Import SpecFloat.
From S2P Require Import Prelude Ordering GoRuntime GoText GoNumbers CoreV1 BackendApi Endpoints Adapters.
From S2P Require Import Renderer EngineWire.

Definition EnvInferenceCacheFailOpen : string := "INFERENCECACHE_FAIL_OPEN".

(** [argValues]'s verdict that a flag occurs at most once, with a value. *)
Definition atMostOnce (args : list string) (flag : string) : bool :=
  let '(values, malformed) := argValues args flag in negb malformed && (length values <=? 1)%nat.

Section inputs.
Context `{QO : QuantityOps}.

(** The nil checks are the types'; what is left is that the pod has a container. *)
Definition validateInjectPodCacheInputs (pod : PodSpec) (role : string) : goError :=
  match psp_Containers pod with [] => Some ("inject " +:+ role +:+ " config: pod has no containers") | _ => None end.

(** A typed LMCache topology both engines speak. *)
Definition typedTopology (s : CacheBackendSpec) : bool :=
  match bs_LMCache s with
  | Some lm => str_eqb (lm_Topology lm) LMCacheTopologyPodLocal || str_eqb (lm_Topology lm) LMCacheTopologyNodeLocal
  | None => false
  end.

Definition supportsLMCache (want runtime : string) (cache : CacheBackend) : bool :=
  str_eqb runtime want && str_eqb (EffectiveCacheType (cb_Spec cache)) CacheBackendTypeLMCache &&
  (IsEventsOnly (cb_Spec cache) || typedTopology (cb_Spec cache)).

Definition supportsRESP (binding : option Binding) : bool :=
  match binding with None => true | Some b => str_eqb (b_Protocol b) ProtocolRESP end.

(** The server configuration of a PodLocal topology. *)
Definition podLocalConfig (server : LMCachePodLocalServerSpec) (lm : LMCacheEngineSpec) (binding : option Binding)
    (write : bool) : lmCacheMPServerConfig :=
  mkMPConfig (pls_Image server) (pls_Port server) (effectiveLMCacheChunkSize (Some lm)) (pls_L1Capacity server)
    (pls_MaxWorkers server) (pls_Resources server) binding write.
End inputs.

(** ** vLLM with LMCache *)

Module VLLM.

Definition defaultEngineKVTransferConfigArg : string := "--kv-transfer-config".
Definition vllmDisableHybridKVCacheArg : string := "--disable-hybrid-kv-cache-manager".
Definition EnvPythonHashSeed : string := "PYTHONHASHSEED".

(** One argument against the aliases of a flag: the values it declares, and how many of the
    following arguments they take. *)
Fixpoint parallelFlags (flags : list string) (arg : string) (rest : list string) (skip : nat) :
    string + (list (string * string) * nat) :=
  match flags with
  | [] => inr ([], skip)
  | flag :: flags =>
      let malformed := inl (flag +:+ " is malformed; declare one positive integer value") in
      if str_eqb arg flag then
        match rest !! skip with
        | None => malformed
        | Some v =>
            if HasPrefix v "-" then malformed
            else let* (vs, skip) := parallelFlags flags arg rest (S skip) in inr ((flag, v) :: vs, skip)
        end
      else if HasPrefix arg (flag +:+ "=") then
        let v := TrimPrefix arg (flag +:+ "=") in
        if str_eqb v "" then malformed
        else let* (vs, skip) := parallelFlags flags arg rest skip in inr ((flag, v) :: vs, skip)
      else parallelFlags flags arg rest skip
  end.

Fixpoint parallelValues (flags args : list string) (skip : nat) : string + list (string * string) :=
  match args with
  | [] => inr []
  | arg :: rest =>
      match skip with
      | S skip => parallelValues flags rest skip
      | O =>
          let* (vs, skip) := parallelFlags flags arg rest 0 in
          let* more := parallelValues flags rest skip in
          inr (vs ++ more)
      end
  end.

Section adapter.
Context `{QO : QuantityOps}.
Variable quote quoteRune : string → string.

Definition positiveParallelSize (args flags : list string) (fallback : Z) : string + Z :=
  let* values := parallelValues flags args 0 in
  match values with
  | [] => inr fallback
  | [(flag, v)] =>
      match ParseInt32 v with
      | Some n => if n <? 1 then inl (flag +:+ "=" +:+ quote v +:+ " must be a positive integer") else inr n
      | None => inl (flag +:+ "=" +:+ quote v +:+ " must be a positive integer")
      end
  | _ => inl ("parallel-size aliases are duplicated: " +:+ Join ", " (fst <$> values))
  end.

(** The loop with the count so far. *)
Fixpoint booleanArgLoop (args : list string) (flag : string) (count : nat) : string + nat :=
  match args with
  | [] => inr count
  | arg :: rest =>
      if str_eqb arg flag then
        match rest with
        | next :: _ =>
            if bool_decide (ToLower next ∈ ["true"; "false"; "0"; "1"]) then
              inl ("vLLM LMCache MP " +:+ flag +:+ " is a boolean flag and must not carry value " +:+ quote next)
            else booleanArgLoop rest flag (S count)
        | [] => booleanArgLoop rest flag (S count)
        end
      else if HasPrefix arg (flag +:+ "=") then
        inl ("vLLM LMCache MP " +:+ flag +:+ " is a boolean flag and must not carry a value")
      else booleanArgLoop rest flag count
  end.

Definition validateVLLMBooleanArg (args : list string) (flag : string) : goError :=
  match booleanArgLoop args flag 0 with
  | inl err => Some err
  | inr count => if (1 <? count)%nat then Some ("vLLM LMCache MP " +:+ flag +:+ " is duplicated") else None
  end.

Definition dataParallelFlags : list string :=
  ["--data-parallel-rank"; "--data-parallel-start-rank"; "--data-parallel-size-local"; "--data-parallel-address";
   "--data-parallel-rpc-port"].

Definition wrapErr {A : Type} (what : string) (e : string + A) : string + A :=
  match e with inl m => inl (what +:+ ": " +:+ m) | inr a => inr a end.

Definition checkEngineArgs (args : list string) : string + unit :=
  let* _ := wrapErr "vLLM LMCache MP tensor parallelism" (positiveParallelSize args ["--tensor-parallel-size"; "-tp"] 1) in
  let* pp := wrapErr "vLLM LMCache MP pipeline parallelism" (positiveParallelSize args ["--pipeline-parallel-size"; "-pp"] 1) in
  let* _ := echeck (if pp =? 1 then None else Some ("vLLM LMCache MP pipeline parallel size " +:+ FormatInt pp +:+
    " is not supported by the initial PodLocal profile; use 1")) in
  let* dp := wrapErr "vLLM LMCache MP data parallelism" (positiveParallelSize args ["--data-parallel-size"; "-dp"] 1) in
  let* _ := echeck (if dp =? 1 then None else Some ("vLLM LMCache MP data parallel size " +:+ FormatInt dp +:+
    " is not supported by the initial PodLocal profile; use 1")) in
  let* _ := echeck (flag ← List.find (hasArg args) dataParallelFlags;
    Some ("vLLM LMCache MP multi-process data parallel flag " +:+ flag +:+ " is not supported by the initial PodLocal profile")) in
  let* _ := echeck (validateVLLMBooleanArg args vllmDisableHybridKVCacheArg) in
  echeck (if atMostOnce args defaultEngineKVTransferConfigArg then None
          else Some ("vLLM LMCache MP " +:+ defaultEngineKVTransferConfigArg +:+ " must appear at most once with one JSON value")).

Definition ValidateMPEnginePod (pod : Pod) (cache : CacheBackend) : goError :=
  match bs_LMCache (cb_Spec cache) with
  | None => Some "vLLM LMCache MP CacheBackend configuration is missing"
  | Some lm =>
      let missing : goError :=
        if str_eqb (lm_Topology lm) LMCacheTopologyPodLocal then
          match mjoin (lm_PodLocal lm) with Some _ => None | None => Some "vLLM LMCache PodLocal server configuration is missing" end
        else if str_eqb (lm_Topology lm) LMCacheTopologyNodeLocal then
          match nl ← lm_NodeLocal lm; nl_Server nl with Some _ => None | None => Some "vLLM LMCache NodeLocal server configuration is missing" end
        else Some ("vLLM LMCache MP topology " +:+ quote (lm_Topology lm) +:+ " is not implemented") in
      match
        (let* _ := echeck missing in
         let* i := EngineContainerIndexNamed quote (p_Spec pod) EngineContainerName in
         checkEngineArgs (match psp_Containers (p_Spec pod) !! i with Some c => cn_Args c | None => [] end))
      with inl err => Some err | inr _ => None end
  end.

(** ** The connector configuration *)

Definition kvRole (role : string) : option string :=
  if str_eqb role RoleReadOnly then Some "kv_consumer"
  else if str_eqb role RoleWriteOnly then Some "kv_producer"
  else if str_eqb role "" || str_eqb role RoleReadWrite then Some "kv_both"
  else None.

Definition vllmMPKVTransferConfigJSONForHost (role host : string) (port : Z) : string + string :=
  match kvRole role with
  | None => inl ("vLLM LMCache MP integration role " +:+ quote role +:+ " is unsupported")
  | Some r => inr (jsonObject
      [("kv_connector", jsonString "LMCacheMPConnector");
       ("kv_connector_module_path", jsonString "lmcache.integration.vllm.lmcache_mp_connector");
       ("kv_role", jsonString r);
       ("kv_connector_extra_config", jsonObject
          [("lmcache.mp.host", jsonString host); ("lmcache.mp.port", jsonString (FormatInt port));
           ("lmcache.mp.mp_transfer_mode", jsonString lmCacheMPTransferModeLMCacheDriven)])])
  end.

Definition vllmMPKVTransferConfigJSON (role : string) (port : Z) : string + string :=
  vllmMPKVTransferConfigJSONForHost role "tcp://127.0.0.1" port.

(** The wire of the topology, and the connector configuration that points at it. *)
Definition renderTopology (pod : PodSpec) (binding : option Binding) (cache : CacheBackend) (lm : LMCacheEngineSpec) :
    string + (PodSpec * string) :=
  if str_eqb (lm_Topology lm) LMCacheTopologyPodLocal then
    match mjoin (lm_PodLocal lm) with
    | None => inl "inject vLLM LMCache MP: typed PodLocal server configuration is required"
    | Some server =>
        let* configJSON := vllmMPKVTransferConfigJSON (IntegrationRole cache) (pls_Port server) in
        let* (work, _) := renderLMCachePodLocalServer quote pod EngineContainerName (podLocalConfig server lm binding false) in
        inr (work, configJSON)
    end
  else if str_eqb (lm_Topology lm) LMCacheTopologyNodeLocal then
    match nl ← lm_NodeLocal lm; nl_Server nl with
    | None => inl "inject vLLM LMCache MP: typed NodeLocal server configuration is required"
    | Some server =>
        let* configJSON := vllmMPKVTransferConfigJSONForHost (IntegrationRole cache)
          ("tcp://$(" +:+ lmCacheNodeIPEnv +:+ ")") (nls_Port server) in
        let* (work, _) := renderLMCacheNodeLocalEngine quote quoteRune pod EngineContainerName cache false in
        inr (work, configJSON)
    end
  else inl ("inject vLLM LMCache MP: topology " +:+ quote (lm_Topology lm) +:+ " is not implemented").

(** The engine's launch surface. *)
Definition wireEngine (configJSON failOpen : string) (c : Container) : Container :=
  set_engine
    (UpsertFlag (UpsertArgPair (cn_Args c) defaultEngineKVTransferConfigArg configJSON) vllmDisableHybridKVCacheArg)
    (removeEnv (removeEnv (cn_Env c) EnvPythonHashSeed ++ [mkEnvVar EnvPythonHashSeed "0" None]) EnvInferenceCacheFailOpen ++
     [mkEnvVar EnvInferenceCacheFailOpen failOpen None]) c.

Definition InjectEngineConfig (pod : PodSpec) (binding : option Binding) (cache : CacheBackend) : string + PodSpec :=
  let* _ := echeck (validateInjectPodCacheInputs pod "engine") in
  match bs_LMCache (cb_Spec cache) with
  | None => inl "inject vLLM LMCache MP: typed server configuration is required"
  | Some lm =>
      if negb (supportsRESP binding) then
        inl ("vLLM LMCache MP adapter does not support remote binding protocol " +:+
             quote (match binding with Some b => b_Protocol b | None => "" end))
      else
        let* (work, configJSON) := renderTopology pod binding cache lm in
        let* i := EngineContainerIndexNamed quote work EngineContainerName in
        inr (updateEngine (wireEngine configJSON (FailOpenString cache)) i work)
  end.

Definition ReservedArgs : list string := [defaultEngineKVTransferConfigArg; vllmDisableHybridKVCacheArg].
Definition ReservedEnv : list string := [EnvPythonHashSeed; EnvInferenceCacheFailOpen].

Definition vllmLMCacheMPAdapter (subscriber : SubscriberConfig) : KVCacheRuntimeAdapter :=
  mkAdapter (supportsLMCache RuntimeVLLM) supportsRESP InjectEngineConfig
    (renderSubscriberSidecar quote (mkSidecarParams subscriber "vllm" "5557" "8000" EngineContainerName))
    ReservedArgs ReservedEnv EngineContainerName
    (Some ValidateMPEnginePod) (Some KernelCheckInitContainer) (Some [mkPair RuntimeVLLM CacheBackendTypeLMCache]).
End adapter.
End VLLM.

(** ** SGLang *)

Definition SGLangEngineContainerName : string := "sglang".
Definition SGLangEnableLMCacheArg : string := "--enable-lmcache".
Definition SGLangEnableMetricsArg : string := "--enable-metrics".
Definition SGLangConfigFileArg : string := "--lmcache-config-file".

(** The sidecar of both SGLang adapters. *)
Definition sglangSidecar (subscriber : SubscriberConfig) : subscriberSidecarParams :=
  mkSidecarParams subscriber "sglang" "5557" "30000" SGLangEngineContainerName.

Module SGLangLMCache.

Definition EnvLMCacheUseExperimental : string := "LMCACHE_USE_EXPERIMENTAL".
Definition pageSizeFlag : string := "--page-size".

Section adapter.
Context `{QO : QuantityOps}.
Variable quote quoteRune : string → string.

Definition ensureSGLangMetricsForSubscriber (pod : PodSpec) (cache : CacheBackend) (subscriber : SubscriberConfig) :
    string + PodSpec :=
  if str_eqb (su_Image subscriber) "" || str_eqb (EffectiveObservationModelID (cb_Spec cache)) "" then inr pod
  else
    let* i := EngineContainerIndexNamed quote pod SGLangEngineContainerName in
    inr (updateEngine (λ c, set_engine (UpsertFlag (cn_Args c) SGLangEnableMetricsArg) (cn_Env c) c) i pod).

Definition validateSGLangMPPageSize (args : list string) (chunkSize : Z) : goError :=
  let '(values, malformed) := argValues args pageSizeFlag in
  if malformed then Some ("SGLang LMCache MP " +:+ pageSizeFlag +:+ " is malformed; declare one positive integer value")
  else match values with
  | [] => Some ("SGLang LMCache MP engine must explicitly declare " +:+ pageSizeFlag +:+ " so chunk-size compatibility can be verified")
  | [v] =>
      match ParseInt32 v with
      | Some pageSize =>
          if pageSize <? 1 then Some ("SGLang LMCache MP " +:+ pageSizeFlag +:+ "=" +:+ quote v +:+ " must be a positive integer")
          else if negb (Z.rem chunkSize pageSize =? 0) then
            Some ("LMCache chunk size " +:+ FormatInt chunkSize +:+ " must be a multiple of SGLang page size " +:+ FormatInt pageSize)
          else None
      | None => Some ("SGLang LMCache MP " +:+ pageSizeFlag +:+ "=" +:+ quote v +:+ " must be a positive integer")
      end
  | _ => Some ("SGLang LMCache MP " +:+ pageSizeFlag +:+ " is duplicated")
  end.

Definition ValidateMPEnginePod (pod : Pod) (cache : CacheBackend) : goError :=
  match bs_LMCache (cb_Spec cache) with
  | None => Some "SGLang LMCache MP CacheBackend configuration is missing"
  | Some lm =>
      let missing : goError :=
        if str_eqb (lm_Topology lm) LMCacheTopologyPodLocal then
          match mjoin (lm_PodLocal lm) with Some _ => None | None => Some "SGLang LMCache PodLocal server configuration is missing" end
        else if str_eqb (lm_Topology lm) LMCacheTopologyNodeLocal then
          match nl ← lm_NodeLocal lm; nl_Server nl with Some _ => None | None => Some "SGLang LMCache NodeLocal server configuration is missing" end
        else Some ("SGLang LMCache MP topology " +:+ quote (lm_Topology lm) +:+ " is not implemented") in
      match
        (let* _ := echeck missing in
         let* i := EngineContainerIndexNamed quote (p_Spec pod) SGLangEngineContainerName in
         echeck (validateSGLangMPPageSize (match psp_Containers (p_Spec pod) !! i with Some c => cn_Args c | None => [] end)
                   (effectiveLMCacheChunkSize (Some lm))))
      with inl err => Some err | inr _ => None end
  end.

(** The wire of the topology, and the client configuration the engine reads. *)
Definition renderTopology (pod : PodSpec) (binding : option Binding) (cache : CacheBackend) (lm : LMCacheEngineSpec) :
    string + (PodSpec * string) :=
  if str_eqb (lm_Topology lm) LMCacheTopologyPodLocal then
    match mjoin (lm_PodLocal lm) with
    | None => inl "inject SGLang LMCache MP: typed PodLocal server configuration is required"
    | Some server =>
        renderLMCachePodLocalServer quote pod SGLangEngineContainerName (podLocalConfig server lm binding true)
    end
  else if str_eqb (lm_Topology lm) LMCacheTopologyNodeLocal then
    match nl ← lm_NodeLocal lm; nl_Server nl with
    | None => inl "inject SGLang LMCache MP: typed NodeLocal server configuration is required"
    | Some _ => renderLMCacheNodeLocalEngine quote quoteRune pod SGLangEngineContainerName cache true
    end
  else inl ("inject SGLang LMCache MP: topology " +:+ quote (lm_Topology lm) +:+ " is not implemented").

Definition wireEngine (configPath failOpen : string) (c : Container) : Container :=
  set_engine
    (UpsertArgPair (UpsertFlag (cn_Args c) SGLangEnableLMCacheArg) SGLangConfigFileArg configPath)
    (UpsertEnv (UpsertEnv (cn_Env c) (mkEnvVar EnvLMCacheUseExperimental "True" None))
       (mkEnvVar EnvInferenceCacheFailOpen failOpen None)) c.

Definition injectSGLangLMCacheMP (pod : PodSpec) (binding : option Binding) (cache : CacheBackend) : string + PodSpec :=
  let* _ := echeck (validateInjectPodCacheInputs pod "engine") in
  match bs_LMCache (cb_Spec cache) with
  | None => inl "inject SGLang LMCache MP: typed server configuration is required"
  | Some lm =>
      let* (work, configPath) := renderTopology pod binding cache lm in
      let* i := EngineContainerIndexNamed quote work SGLangEngineContainerName in
      inr (updateEngine (wireEngine configPath (FailOpenString cache)) i work)
  end.

Definition InjectEngineConfig (subscriber : SubscriberConfig) (pod : PodSpec) (binding : option Binding) (cache : CacheBackend) :
    string + PodSpec :=
  let* pod := injectSGLangLMCacheMP pod binding cache in
  ensureSGLangMetricsForSubscriber pod cache subscriber.

Definition ReservedArgs : list string := [SGLangEnableLMCacheArg; SGLangConfigFileArg; SGLangEnableMetricsArg].
Definition ReservedEnv : list string := [EnvLMCacheUseExperimental; EnvInferenceCacheFailOpen].

Definition sglangLMCacheAdapter (subscriber : SubscriberConfig) : KVCacheRuntimeAdapter :=
  mkAdapter (supportsLMCache RuntimeSGLang) supportsRESP (InjectEngineConfig subscriber)
    (renderSubscriberSidecar quote (sglangSidecar subscriber)) ReservedArgs ReservedEnv SGLangEngineContainerName
    (Some ValidateMPEnginePod) None (Some [mkPair RuntimeSGLang CacheBackendTypeLMCache]).
End adapter.
End SGLangLMCache.

(** ** SGLang HiCache *)

Module HiCache.

Definition SGLangEnableHiCacheArg : string := "--enable-hierarchical-cache".
Definition SGLangHiCacheSizeArg : string := "--hicache-size".
Definition SGLangHiCacheRatioArg : string := "--hicache-ratio".
Definition SGLangHiCacheWritePolicyArg : string := "--hicache-write-policy".
Definition SGLangHiCacheIOBackendArg : string := "--hicache-io-backend".
Definition SGLangHiCacheMemoryLayoutArg : string := "--hicache-mem-layout".

Definition hiCacheReservedArgs : list string :=
  [SGLangEnableHiCacheArg; SGLangHiCacheSizeArg; SGLangHiCacheRatioArg; SGLangHiCacheWritePolicyArg;
   SGLangHiCacheIOBackendArg; SGLangHiCacheMemoryLayoutArg; SGLangEnableMetricsArg].

Definition leadingFlagToken (arg : string) : string :=
  if HasPrefix arg "-" then takeUntil (λ a, bool_decide (a = "="%char)) arg else "".

Definition validWritePolicy (v : string) : bool :=
  bool_decide (v ∈ [""; "write_back"; "write_through"; "write_through_selective"]).
Definition validIOBackend (v : string) : bool :=
  bool_decide (v ∈ [""; "direct"; "kernel"; "kernel_ascend"]).
Definition validMemoryLayout (v : string) : bool :=
  bool_decide (v ∈ [""; "layer_first"; "page_first"; "page_first_direct"; "page_first_kv_split"; "page_head"]).

Definition validateEnableArg (args : list string) : goError :=
  if existsb (λ a, HasPrefix a (SGLangEnableHiCacheArg +:+ "=")) args then
    Some ("inject SGLang HiCache config: " +:+ SGLangEnableHiCacheArg +:+ " is a boolean flag and must not carry a value")
  else if (1 <? length (List.filter (str_eqb SGLangEnableHiCacheArg) args))%nat then
    Some ("inject SGLang HiCache config: " +:+ SGLangEnableHiCacheArg +:+ " is duplicated")
  else None.

Definition rejectPresentArg (args : list string) (flag reason : string) : goError :=
  let '(values, malformed) := argValues args flag in
  if malformed then Some ("inject SGLang HiCache config: " +:+ flag +:+ " is malformed")
  else match values with
       | [] => None
       | _ => Some ("inject SGLang HiCache config: existing " +:+ flag +:+ " " +:+ reason)
       end.

Definition equivalentInteger (actual desired : string) : bool :=
  match ParseInt64 actual, ParseInt64 desired with Some a, Some d => a =? d | _, _ => false end.

Definition equivalentNumber (actual desired : string) : bool :=
  match ParseFloat64 actual, ParseFloat64 desired with
  | Some a, Some d => negb (is_nan a) && negb (is_nan d) && negb (is_inf a) && negb (is_inf d) && SFeqb a d
  | _, _ => false
  end.

Record desiredArg := mkDesired {
  da_flag : string;
  da_value : string;
  da_equivalent : string → string → bool
}.

Section adapter.
Context `{QO : QuantityOps}.
Variable quote : string → string.

Record resolvedHiCacheConfig := mkResolved {
  rc_sizeGB : option Z;
  rc_ratio : string;
  rc_writePolicy : string;
  rc_ioBackend : string;
  rc_memoryLayout : string
}.

Definition fail {A : Type} (m : string) : string + A := inl ("resolve SGLang HiCache config: " +:+ m).

(** The overrides an object that bypassed admission may carry. *)
Definition checkOverrides (o : EngineInjectionOverrides) : string + unit :=
  match List.find (λ a, bool_decide (leadingFlagToken a ∈ hiCacheReservedArgs)) (eo_Args o) with
  | Some a => fail ("engine override for reserved argument " +:+ quote (leadingFlagToken a) +:+ " is unsupported")
  | None =>
      match List.find (λ f, bool_decide (f ∈ hiCacheReservedArgs)) (eo_SuppressArgs o) with
      | Some f => fail ("suppression of reserved argument " +:+ quote f +:+ " is unsupported")
      | None => inr tt
      end
  end.

Definition checkIntegration (cache : CacheBackend) : string + unit :=
  match bs_Integration (cb_Spec cache) with
  | None => inr tt
  | Some i =>
      if negb (str_eqb (in_Role i) "") && negb (str_eqb (in_Role i) RoleReadWrite) then fail "integration.role must be ReadWrite"
      else if negb (IntegrationFailOpen (Some i)) then fail "integration.failOpen must be true"
      else inr tt
  end.

(** [err != nil || ratio <= 0 || IsNaN(ratio) || IsInf(ratio, 0)]. *)
Definition ratioRefused (s : string) : bool :=
  match ParseFloat64 s with
  | None => true
  | Some r => SFleb r (S754_zero false) || is_nan r || is_inf r
  end.

Definition resolveBlock (spec : SGLangHiCacheSpec) : string + resolvedHiCacheConfig :=
  if bool_decide (hc_SizeGB spec = None) && str_eqb (hc_Ratio spec) "" ||
     bool_decide (is_Some (hc_SizeGB spec)) && negb (str_eqb (hc_Ratio spec) "") then
    fail "exactly one of spec.hiCache.sizeGB and ratio must be set"
  else if match hc_SizeGB spec with Some p => ptr_val p <? 1 | None => false end then fail "sizeGB must be at least 1"
  else if negb (str_eqb (hc_Ratio spec) "") && ratioRefused (hc_Ratio spec) then
    fail "ratio must be a finite number greater than zero"
  else if negb (validWritePolicy (hc_WritePolicy spec)) then fail ("unsupported writePolicy " +:+ quote (hc_WritePolicy spec))
  else if negb (validIOBackend (hc_IOBackend spec)) then fail ("unsupported ioBackend " +:+ quote (hc_IOBackend spec))
  else if negb (validMemoryLayout (hc_MemoryLayout spec)) then fail ("unsupported memoryLayout " +:+ quote (hc_MemoryLayout spec))
  else inr (mkResolved (ptr_val <$> hc_SizeGB spec) (hc_Ratio spec) (hc_WritePolicy spec) (hc_IOBackend spec) (hc_MemoryLayout spec)).

Definition resolveHiCacheConfig (cache : CacheBackend) : string + resolvedHiCacheConfig :=
  let spec := cb_Spec cache in
  if negb (str_eqb (bs_Type spec) CacheBackendTypeSGLangHiCache) then
    fail ("backend type must be " +:+ quote CacheBackendTypeSGLangHiCache)
  else if negb (str_eqb (ResolveRuntimeID cache) RuntimeSGLang) then fail "spec.runtime must be SGLang"
  else if negb (str_eqb (IntegrationMode (bs_Integration spec)) ModeOffload) then fail "integration.mode must be Offload"
  else
    let* _ := checkIntegration cache in
    if bool_decide (matchLabels cache = ∅) then fail "spec.engineSelector.matchLabels is required"
    else
      let* _ := match i ← bs_Integration spec; in_EngineOverrides i with Some o => checkOverrides o | None => inr tt end in
      match bs_HiCache spec with
      | None => fail "spec.hiCache is required"
      | Some hc => resolveBlock hc
      end.

Definition ValidateHiCacheBackend (cache : CacheBackend) : goError :=
  match resolveHiCacheConfig cache with inl err => Some err | inr _ => None end.

(** The arguments the configuration asks for. *)
Definition desiredArgs (cfg : resolvedHiCacheConfig) : list desiredArg :=
  let opt flag v := if str_eqb v "" then [] else [mkDesired flag v str_eqb] in
  match rc_sizeGB cfg with
  | Some n => [mkDesired SGLangHiCacheSizeArg (FormatInt n) equivalentInteger]
  | None => [mkDesired SGLangHiCacheRatioArg (rc_ratio cfg) equivalentNumber]
  end ++ opt SGLangHiCacheWritePolicyArg (rc_writePolicy cfg) ++ opt SGLangHiCacheIOBackendArg (rc_ioBackend cfg) ++
  opt SGLangHiCacheMemoryLayoutArg (rc_memoryLayout cfg).

(** Those that are not there yet; an equivalent one is kept, another one refuses the pod. *)
Fixpoint missingArgs (args : list string) (desired : list desiredArg) : string + list desiredArg :=
  match desired with
  | [] => inr []
  | want :: desired =>
      let '(values, malformed) := argValues args (da_flag want) in
      if malformed || (1 <? length values)%nat then
        inl ("inject SGLang HiCache config: " +:+ da_flag want +:+ " is duplicated or malformed")
      else match values with
      | [] => let* more := missingArgs args desired in inr (want :: more)
      | v :: _ =>
          if da_equivalent want v (da_value want) then missingArgs args desired
          else inl ("inject SGLang HiCache config: existing " +:+ da_flag want +:+ "=" +:+ quote v +:+
                    " conflicts with desired value " +:+ quote (da_value want))
      end
  end.

(** The engine's arguments with HiCache turned on. *)
Definition hiCacheArgs (args : list string) (cfg : resolvedHiCacheConfig) : string + list string :=
  let* _ := echeck (if hasArg args SGLangEnableLMCacheArg || hasArg args SGLangConfigFileArg then
    Some "inject SGLang HiCache config: native HiCache conflicts with SGLang LMCache arguments" else None) in
  let* _ := echeck (validateEnableArg args) in
  let* _ := echeck (flag ← List.find (λ f, negb (atMostOnce args f))
      [SGLangHiCacheWritePolicyArg; SGLangHiCacheIOBackendArg; SGLangHiCacheMemoryLayoutArg];
    Some ("inject SGLang HiCache config: " +:+ flag +:+ " is duplicated or malformed")) in
  let* _ := echeck match rc_sizeGB cfg with
    | Some _ => rejectPresentArg args SGLangHiCacheRatioArg "conflicts with spec.hiCache.sizeGB"
    | None => rejectPresentArg args SGLangHiCacheSizeArg "conflicts with spec.hiCache.ratio"
    end in
  let* missing := missingArgs args (desiredArgs cfg) in
  let updated := UpsertFlag args SGLangEnableHiCacheArg ++ (missing ≫= λ d, [da_flag d; da_value d]) in
  inr (UpsertFlag updated SGLangEnableMetricsArg).

Definition InjectEngineConfig (pod : PodSpec) (binding : option Binding) (cache : CacheBackend) : string + PodSpec :=
  match binding with
  | Some b => inl ("SGLang HiCache adapter does not support remote binding protocol " +:+ quote (b_Protocol b))
  | None =>
      let* cfg := resolveHiCacheConfig cache in
      let* _ := echeck match psp_Containers pod with
        | [] => Some "inject SGLang HiCache config: pod has no containers" | _ => None end in
      let* i := EngineContainerIndexNamed quote pod SGLangEngineContainerName in
      let* args := hiCacheArgs (match psp_Containers pod !! i with Some c => cn_Args c | None => [] end) cfg in
      inr (updateEngine (λ c, set_engine args (cn_Env c) c) i pod)
  end.

Definition sglangHiCacheAdapter (subscriber : SubscriberConfig) : KVCacheRuntimeAdapter :=
  mkAdapter
    (λ runtime cache, str_eqb runtime RuntimeSGLang && str_eqb (bs_Type (cb_Spec cache)) CacheBackendTypeSGLangHiCache)
    (λ binding, bool_decide (binding = None)) InjectEngineConfig
    (renderSubscriberSidecar quote (sglangSidecar subscriber)) hiCacheReservedArgs [] SGLangEngineContainerName
    None None (Some [mkPair RuntimeSGLang CacheBackendTypeSGLangHiCache]).
End adapter.
End HiCache.

(** ** The registry of the controller binary *)

Definition newRegistry `{QuantityOps} (quote quoteRune : string → string) (subscriber : SubscriberConfig) :
    list KVCacheRuntimeAdapter :=
  Register (Some (HiCache.sglangHiCacheAdapter quote subscriber))
  (Register (Some (SGLangLMCache.sglangLMCacheAdapter quote quoteRune subscriber))
  (Register (Some (VLLM.vllmLMCacheMPAdapter quote quoteRune subscriber)) [])).
