(* ===== verification/LiveObjects.v ===== *)
(** * Live objects as the CacheBackend controller observes them

    Pods with their placement and container states, the managed Deployment and Service, and
    the status of a CacheBackend (api/v1alpha1 cachebackend_types.go).  The operations of
    apimachinery on a list of conditions are a class with the documented laws in a class of
    their own; the transition time they choose is an operation of the class, as nothing
    modelled reads it.  A time stored in a status is kept with a resolution of one second. *)

From S2P Require Import Prelude Ordering GoRuntime GoText K8s ControlPlane IndexPoller CoreV1 BackendApi.

(** ** metav1.ConditionStatus *)

Definition ConditionTrue : string := "True".
Definition ConditionFalse : string := "False".
Definition ConditionUnknown : string := "Unknown".

(** ** k8s.io/apimachinery/pkg/api/meta *)

Class ConditionOps := {
  FindStatusCondition : list Condition → string → option Condition;
  SetStatusCondition : Time → list Condition → Condition → list Condition;
  RemoveStatusCondition : list Condition → string → list Condition;
  transitionTime : Time → list Condition → Condition → Time
}.

(** The condition that is found after [SetStatusCondition]. *)
Definition published `{ConditionOps} (now : Time) (cs : list Condition) (c : Condition) : Condition :=
  mkCondition (cd_Type c) (cd_Status c) (cd_Reason c) (cd_Message c) (cd_ObservedGeneration c)
    (transitionTime now cs c).

Class ConditionLaws `{ConditionOps} := {
  find_set_eq now cs c : FindStatusCondition (SetStatusCondition now cs c) (cd_Type c) = Some (published now cs c);
  find_set_ne now cs c t : t ≠ cd_Type c → FindStatusCondition (SetStatusCondition now cs c) t = FindStatusCondition cs t;
  find_remove_eq cs t : FindStatusCondition (RemoveStatusCondition cs t) t = None;
  find_remove_ne cs t t' : t' ≠ t → FindStatusCondition (RemoveStatusCondition cs t) t' = FindStatusCondition cs t';
  find_type cs t c : FindStatusCondition cs t = Some c → cd_Type c = t
}.

Definition IsStatusConditionFalse `{ConditionOps} (cs : list Condition) (t : string) : bool :=
  match FindStatusCondition cs t with
  | Some c => str_eqb (cd_Status c) ConditionFalse
  | None => false
  end.

(** ** Pods *)

Record ContainerStateTerminated := mkTerminated {
  te_ExitCode : Z;
  te_Reason : string;
  te_Message : string
}.

Record ContainerStatus := mkContainerStatus {
  cst_Name : string;
  cst_Ready : bool;
  cst_Running : bool;                                  (* state.running is set *)
  cst_WaitingReason : option string;
  cst_Terminated : option ContainerStateTerminated;
  cst_LastTerminated : option ContainerStateTerminated
}.

Record PodCondition := mkPodCondition {
  pc_Type : string;
  pc_Status : string;
  pc_Reason : string;
  pc_Message : string
}.

(** The reference with [controller: true], if any. *)
Record OwnerReference := mkOwnerRef {
  or_APIVersion : string;
  or_Kind : string;
  or_Name : string;
  or_UID : string
}.

(** corev1.Affinity: pinned to one node by name, or anything else. *)
Inductive Affinity :=
  | exactNodeAffinity (nodeName : string)
  | otherAffinity (description : string).

(** Scheduling fields that are copied, never interpreted. *)
Record PodScheduling := mkPodScheduling {
  sd_Tolerations : list string;
  sd_ImagePullSecrets : list string;
  sd_ServiceAccountName : string;
  sd_SecurityContext : option string;
  sd_PriorityClassName : string;
  sd_SchedulerName : string;
  sd_RuntimeClassName : option string;
  sd_TerminationGracePeriodSeconds : option Z
}.

(** Host and token settings; [None] is unset. *)
Record HostSettings := mkHostSettings {
  hs_HostNetwork : bool;
  hs_DNSPolicy : string;
  hs_AutomountServiceAccountToken : option bool;
  hs_EnableServiceLinks : option bool
}.

#[export] Instance HostSettings_eq_dec : EqDecision HostSettings.
Proof. solve_decision. Defined.
#[export] Instance Terminated_eq_dec : EqDecision ContainerStateTerminated.
Proof. solve_decision. Defined.
#[export] Instance ContainerStatus_eq_dec : EqDecision ContainerStatus.
Proof. solve_decision. Defined.
#[export] Instance PodCondition_eq_dec : EqDecision PodCondition.
Proof. solve_decision. Defined.
#[export] Instance OwnerReference_eq_dec : EqDecision OwnerReference.
Proof. solve_decision. Defined.
#[export] Instance Affinity_eq_dec : EqDecision Affinity.
Proof. solve_decision. Defined.
#[export] Instance PodScheduling_eq_dec : EqDecision PodScheduling.
Proof. solve_decision. Defined.

Definition PodSucceeded : string := "Succeeded".
Definition PodFailed : string := "Failed".

Section live.
Context `{QO : QuantityOps}.

(** A Pod of the apiserver: its metadata and spec as admitted, its placement and its status.
    [lp_MountPropagation]: some mount of a container sets mountPropagation. *)
Record LivePod := mkLivePod {
  lp_Pod : Pod;
  lp_Controller : option OwnerReference;
  lp_Deleting : bool;                                  (* deletionTimestamp is set *)
  lp_NodeName : string;
  lp_SchedulingGates : list string;
  lp_Affinity : option Affinity;
  lp_Scheduling : PodScheduling;
  lp_Host : HostSettings;
  lp_RestartPolicy : string;
  lp_EphemeralContainers : nat;
  lp_MountPropagation : bool;
  lp_Phase : string;
  lp_Conditions : list PodCondition;
  lp_InitContainerStatuses : list ContainerStatus;
  lp_ContainerStatuses : list ContainerStatus
}.

#[export] Instance LivePod_eq_dec : EqDecision LivePod.
Proof. solve_decision. Defined.

Definition lpKey (p : LivePod) : NamespacedName := (p_Namespace (lp_Pod p), p_Name (lp_Pod p)).
Definition lpAnnotation (p : LivePod) (k : string) : string := strGet (p_Annotations (lp_Pod p)) k.
Definition lpLabel (p : LivePod) (k : string) : string := strGet (p_Labels (lp_Pod p)) k.

(** metav1.IsControlledBy(obj, backend). *)
Definition controlledBy (owner : option OwnerReference) (cb : CacheBackend) : bool :=
  match owner with Some o => str_eqb (or_UID o) (cb_UID cb) | None => false end.

Definition IsControlledBy (p : LivePod) (cb : CacheBackend) : bool := controlledBy (lp_Controller p) cb.

(** [reader.List(ctx, &pods, InNamespace(ns), MatchingLabelsSelector{want})]: the answer holds
    the pods of the cluster when the call does not fail. *)
Definition listIn (answer : ListResult LivePod) (ns : string) (want : gmap string string) :
    option (list LivePod) :=
  match answer with
  | ListOK items =>
      Some (List.filter (λ p, str_eqb (p_Namespace (lp_Pod p)) ns && selectorMatches want (p_Labels (lp_Pod p))) items)
  | _ => None
  end.

(** Neither deleted nor in a terminal phase. *)
Definition terminalPhase (p : LivePod) : bool :=
  str_eqb (lp_Phase p) PodSucceeded || str_eqb (lp_Phase p) PodFailed.
Definition activePod (p : LivePod) : bool := negb (lp_Deleting p) && negb (terminalPhase p).

(** ** The managed workload *)

Record Deployment := mkDeployment {
  dp_Generation : Z;
  dp_Controller : option OwnerReference;
  dp_TemplateLabels : gmap string string;
  dp_Replicas : option Z;
  dp_ObservedGeneration : Z;
  dp_UpdatedReplicas : Z;
  dp_AvailableReplicas : Z
}.

(** A Service: its name, owner and port numbers. *)
Record ServiceObject := mkServiceObject {
  so_Namespace : string;
  so_Name : string;
  so_Controller : option OwnerReference;
  so_Ports : list Z
}.
End live.

(** ** CacheBackendStatus *)

Record EnginePodCoverage := mkCoverage {
  ec_Name : string;
  ec_NodeName : string;
  ec_Ready : bool;
  ec_Covered : bool;
  ec_Reason : string
}.

Record ConnectorStatus := mkConnector {
  cs_Mode : string;
  cs_Topology : string;
  cs_MatchedEnginePods : Z;
  cs_ReadyEnginePods : Z;
  cs_DesiredServers : Z;
  cs_ReadyServers : Z;
  cs_CoveredEnginePods : Z;
  cs_UncoveredEnginePods : Z;
  cs_EnginePodCoverage : list EnginePodCoverage
}.

Record RemoteStorageStatus := mkRemoteStatus {
  rss_Provider : string;
  rss_Endpoint : string;
  rss_Ready : string
}.

Record CacheBackendStatus := mkStatus {
  st_Connector : option ConnectorStatus;
  st_RemoteStorage : option RemoteStorageStatus;
  st_MatchedEnginePods : option Z;
  st_EngineSelectorMessage : string;
  st_FailOpen : option bool;
  st_ObservedGeneration : Z;
  st_FirstKVEventObservedAt : option Time;
  st_FirstAvailableAt : option Time;
  st_IndexParticipation : option CacheBackendIndexParticipation;
  st_Conditions : list Condition
}.

#[export] Instance EnginePodCoverage_eq_dec : EqDecision EnginePodCoverage.
Proof. solve_decision. Defined.
#[export] Instance ConnectorStatus_eq_dec : EqDecision ConnectorStatus.
Proof. solve_decision. Defined.
#[export] Instance RemoteStorageStatus_eq_dec : EqDecision RemoteStorageStatus.
Proof. solve_decision. Defined.
#[export] Instance CacheBackendStatus_eq_dec : EqDecision CacheBackendStatus.
Proof. solve_decision. Defined.

Definition emptyStatus : CacheBackendStatus := mkStatus None None None "" None 0 None None None [].

(** Assignments to one field. *)
Definition set_Conditions (cs : list Condition) (s : CacheBackendStatus) : CacheBackendStatus :=
  mkStatus (st_Connector s) (st_RemoteStorage s) (st_MatchedEnginePods s) (st_EngineSelectorMessage s) (st_FailOpen s)
    (st_ObservedGeneration s) (st_FirstKVEventObservedAt s) (st_FirstAvailableAt s) (st_IndexParticipation s) cs.
Definition set_Connector (c : option ConnectorStatus) (s : CacheBackendStatus) : CacheBackendStatus :=
  mkStatus c (st_RemoteStorage s) (st_MatchedEnginePods s) (st_EngineSelectorMessage s) (st_FailOpen s)
    (st_ObservedGeneration s) (st_FirstKVEventObservedAt s) (st_FirstAvailableAt s) (st_IndexParticipation s) (st_Conditions s).
Definition set_RemoteStorage (r : option RemoteStorageStatus) (s : CacheBackendStatus) : CacheBackendStatus :=
  mkStatus (st_Connector s) r (st_MatchedEnginePods s) (st_EngineSelectorMessage s) (st_FailOpen s)
    (st_ObservedGeneration s) (st_FirstKVEventObservedAt s) (st_FirstAvailableAt s) (st_IndexParticipation s) (st_Conditions s).
Definition set_Matched (n : option Z) (msg : string) (s : CacheBackendStatus) : CacheBackendStatus :=
  mkStatus (st_Connector s) (st_RemoteStorage s) n msg (st_FailOpen s)
    (st_ObservedGeneration s) (st_FirstKVEventObservedAt s) (st_FirstAvailableAt s) (st_IndexParticipation s) (st_Conditions s).
Definition set_FailOpen (b : option bool) (s : CacheBackendStatus) : CacheBackendStatus :=
  mkStatus (st_Connector s) (st_RemoteStorage s) (st_MatchedEnginePods s) (st_EngineSelectorMessage s) b
    (st_ObservedGeneration s) (st_FirstKVEventObservedAt s) (st_FirstAvailableAt s) (st_IndexParticipation s) (st_Conditions s).
Definition set_ObservedGeneration (g : Z) (s : CacheBackendStatus) : CacheBackendStatus :=
  mkStatus (st_Connector s) (st_RemoteStorage s) (st_MatchedEnginePods s) (st_EngineSelectorMessage s) (st_FailOpen s)
    g (st_FirstKVEventObservedAt s) (st_FirstAvailableAt s) (st_IndexParticipation s) (st_Conditions s).
Definition set_FirstKVEventObservedAt (t : option Time) (s : CacheBackendStatus) : CacheBackendStatus :=
  mkStatus (st_Connector s) (st_RemoteStorage s) (st_MatchedEnginePods s) (st_EngineSelectorMessage s) (st_FailOpen s)
    (st_ObservedGeneration s) t (st_FirstAvailableAt s) (st_IndexParticipation s) (st_Conditions s).
Definition set_FirstAvailableAt (t : option Time) (s : CacheBackendStatus) : CacheBackendStatus :=
  mkStatus (st_Connector s) (st_RemoteStorage s) (st_MatchedEnginePods s) (st_EngineSelectorMessage s) (st_FailOpen s)
    (st_ObservedGeneration s) (st_FirstKVEventObservedAt s) t (st_IndexParticipation s) (st_Conditions s).
Definition set_IndexParticipation (p : option CacheBackendIndexParticipation) (s : CacheBackendStatus) : CacheBackendStatus :=
  mkStatus (st_Connector s) (st_RemoteStorage s) (st_MatchedEnginePods s) (st_EngineSelectorMessage s) (st_FailOpen s)
    (st_ObservedGeneration s) (st_FirstKVEventObservedAt s) (st_FirstAvailableAt s) p (st_Conditions s).

(** metav1.Time is written as RFC 3339: whole seconds. *)
Definition storedTime (t : Time) : Time := t - t mod Second.

(** A status as the apiserver returns it. *)
Definition storedStatus (s : CacheBackendStatus) : CacheBackendStatus :=
  set_FirstKVEventObservedAt (storedTime <$> st_FirstKVEventObservedAt s)
    (set_FirstAvailableAt (storedTime <$> st_FirstAvailableAt s) s).

Section conditions.
Context `{CO : ConditionOps}.

(** [meta.FindStatusCondition(backend.Status.Conditions, t)]. *)
Definition find (s : CacheBackendStatus) (t : string) : option Condition := FindStatusCondition (st_Conditions s) t.

(** [meta.SetStatusCondition(&backend.Status.Conditions, ...)]. *)
Definition setCond (now : Time) (typ status reason message : string) (generation : Z) (s : CacheBackendStatus) :
    CacheBackendStatus :=
  set_Conditions (SetStatusCondition now (st_Conditions s) (condition typ status reason message generation)) s.

Definition removeCond (typ : string) (s : CacheBackendStatus) : CacheBackendStatus :=
  set_Conditions (RemoveStatusCondition (st_Conditions s) typ) s.

(** What a reader sees of a condition: status, reason, message and generation. *)
Definition seen (s : CacheBackendStatus) (t : string) : option (string * string * string * Z) :=
  (λ c, (cd_Status c, cd_Reason c, cd_Message c, cd_ObservedGeneration c)) <$> find s t.

Context {CL : ConditionLaws}.

Lemma seen_set_eq now typ st r m g s : seen (setCond now typ st r m g s) typ = Some (st, r, m, g).
Proof. unfold seen, find, setCond. simpl. by rewrite (find_set_eq now _ (condition typ st r m g)). Qed.

Lemma seen_set_ne now typ st r m g s t : t ≠ typ → seen (setCond now typ st r m g s) t = seen s t.
Proof. intros Ht. unfold seen, find, setCond. simpl. by rewrite find_set_ne. Qed.

Lemma seen_remove_eq typ s : seen (removeCond typ s) typ = None.
Proof. unfold seen, find, removeCond. simpl. by rewrite find_remove_eq. Qed.

Lemma seen_remove_ne typ s t : t ≠ typ → seen (removeCond typ s) t = seen s t.
Proof. intros Ht. unfold seen, find, removeCond. simpl. by rewrite find_remove_ne. Qed.
End conditions.

(** The lists of conditions read through [seen]; type names are literals. *)
Create HintDb conditions.
#[export] Hint Rewrite @seen_set_eq @seen_remove_eq using typeclasses eauto : conditions.
#[export] Hint Rewrite @seen_set_ne @seen_remove_ne using first [done | typeclasses eauto] : conditions.

Lemma storedTime_le t : 0 ≤ t → 0 ≤ storedTime t ≤ t.
Proof. intros H. unfold storedTime. pose proof (Z.mod_pos_bound t Second ltac:(done)). pose proof (Z.mod_le t Second H ltac:(done)). lia. Qed.

Lemma storedTime_lower t : t - Second < storedTime t.
Proof. unfold storedTime. pose proof (Z.mod_pos_bound t Second ltac:(done)). lia. Qed.

Lemma storedTime_idem t : storedTime (storedTime t) = storedTime t.
Proof.
  unfold storedTime. enough ((t - t mod Second) mod Second = 0) by lia.
  rewrite Zminus_mod_idemp_r, Z.sub_diag. done.
Qed.
