(* ===== verification/Doctor.v ===== *)
(** * The doctor command (internal/cli/doctor, cmd/inferencecache)

    The findings and their severities, every check as a function of the answers it gets, the run in
    its documented order, the three output formats and the exit code.  A list call of the
    Kubernetes client is a function of the namespace it is given; the gRPC and HTTP exchanges, the
    TCP dialer, the file system, the clock and the terminal are inputs.  An error is its text. *)

From S2P Require Import Prelude Ordering GoRuntime GoText GoNumbers K8s ControlPlane IndexPoller CoreV1 BackendApi LiveObjects.

(** ** Findings (doctor/finding.go) *)

Inductive Status := StatusOK | StatusInfo | StatusWarn | StatusFail.

#[export] Instance Status_eq_dec : EqDecision Status.
Proof. solve_decision. Defined.

(** The value of the constant. *)
Definition rank (s : Status) : Z :=
  match s with StatusOK => 0 | StatusInfo => 1 | StatusWarn => 2 | StatusFail => 3 end.

Definition statusString (s : Status) : string :=
  match s with StatusOK => "OK" | StatusInfo => "INFO" | StatusWarn => "WARN" | StatusFail => "FAIL" end.

Definition CodeAPIReadFailed : string := "API001".
Definition CodeServerUnreachable : string := "SV001".
Definition CodeServerNotServing : string := "SV002".
Definition CodeServerServing : string := "SV003".
Definition CodeSnapshotUnreachable : string := "SN001".
Definition CodeSnapshotBadBody : string := "SN002".
Definition CodeSnapshotUnauthenticated : string := "SN003".
Definition CodeSnapshotOK : string := "SN004".
Definition CodeSnapshotAuthGated : string := "SN005".
Definition CodePolicyRouteMissing : string := "PL001".
Definition CodePolicyRouteWired : string := "PL002".
Definition CodePolicyRouteUnexpected : string := "PL003".
Definition CodeProbeRouteMissing : string := "PB001".
Definition CodeProbeRouteWired : string := "PB002".
Definition CodeProbeRouteUnexpected : string := "PB003".
Definition CodeBackendNotReady : string := "CB001".
Definition CodeBackendSelectorMismatch : string := "CB002".
Definition CodeBackendNotReportingState : string := "CB003".
Definition CodeBackendStale : string := "CB004".
Definition CodeBackendEndpointUnreachable : string := "CB005".
Definition CodeBackendHealthy : string := "CB006".
Definition CodeBackendFunctionalProbeFailing : string := "CB007".
Definition CodeEnginePodNotInjected : string := "EP001".
Definition CodeEnginePodInjected : string := "EP002".
Definition CodeEngineSelectorAmbiguous : string := "EP003".
Definition CodeOrphanPod : string := "OP001".
Definition CodeTenantQuotaExceeded : string := "CT001".
Definition CodeTenantHealthy : string := "CT002".
Definition CodePolicyCoverageMissing : string := "CP001".
Definition CodePolicyCoveragePresent : string := "CP002".
Definition CodePolicyCoverageDuplicate : string := "CP003".

Record Finding := mkFinding {
  fd_Code : string;
  fd_Status : Status;
  fd_Check : string;
  fd_Resource : string;
  fd_Message : string
}.

(** Report.Findings, in the order of emission. *)
Abbreviation Report := (list Finding).

Definition Worst (r : Report) : Status :=
  foldl (λ worst f, if rank worst <? rank (fd_Status f) then fd_Status f else worst) StatusOK r.

Definition ExitCode (r : Report) : Z :=
  match Worst r with StatusFail => 2 | StatusWarn => 1 | _ => 0 end.

Definition FindingsByStatus (r : Report) (want : Status) : list Finding :=
  List.filter (λ f, bool_decide (fd_Status f = want)) r.

Definition emptyCounts : gmap string Z := {["OK" := 0; "INFO" := 0; "WARN" := 0; "FAIL" := 0]}.

Definition Counts (r : Report) : gmap string Z :=
  foldl (λ m f, <[statusString (fd_Status f) := default 0 (m !! statusString (fd_Status f)) + 1]> m) emptyCounts r.

Definition OrderedStatuses : list Status := [StatusFail; StatusWarn; StatusInfo; StatusOK].

Definition SortedCodes (r : Report) : list string :=
  go_sort str_lt (elements (list_to_set (fd_Code <$> r) : gset string)).

(** ** Helpers of the checks (checks/checks.go) *)

Definition DefaultStaleWindow : Duration := 2 * Minute.
Definition DefaultOrphanWindow : Duration := 24 * 60 * Minute.

Definition conditionReady : string := "Ready".
Definition conditionQuotaExceeded : string := "QuotaExceeded".
Definition conditionFunctionalProbeOK : string := "FunctionalProbeOK".
Definition annotationInjectedBy : string := "inferencecache.io/injected-by".
Definition annotationInjectedByUID : string := "inferencecache.io/injected-by-uid".
Definition eventInjectedByCacheBackend : string := "InjectedByCacheBackend".
Definition eventNoMatchingCacheBackend : string := "NoMatchingCacheBackend".

Definition checkServerReachability : string := "ServerReachability".
Definition checkSnapshotReachability : string := "SnapshotReachability".
Definition checkPolicyReachability : string := "PolicyReachability".
Definition checkProbeReachability : string := "ProbeReachability".
Definition checkCacheBackendHealth : string := "CacheBackendHealth".
Definition checkEnginePodInjection : string := "EnginePodInjectionAudit".
Definition checkOrphanPods : string := "OrphanPodCheck".
Definition checkCacheTenantHealth : string := "CacheTenantHealth".
Definition checkCachePolicyCoverage : string := "CachePolicyCoverage".

(** [c.List(ctx, &list, client.InNamespace(ns))]: the empty namespace means all. *)
Definition Listed (A : Type) : Type := string → string + list A.

Definition findCondition (conds : list Condition) (condType : string) : option Condition :=
  List.find (λ c, str_eqb (cd_Type c) condType) conds.

(** [labels[k] != v] reads an absent label as the empty string. *)
Definition labelsMatch (matchLabels labels : gmap string string) : bool :=
  negb (bool_decide (matchLabels = ∅)) && bool_decide (map_Forall (λ k v, strGet labels k = v) matchLabels).

Definition resourceRef (kind namespace name : string) : string := to_lower kind +:+ "/" +:+ namespace +:+ "/" +:+ name.

Definition listError (check kind err : string) : Finding :=
  mkFinding CodeAPIReadFailed StatusFail check kind ("could not list " +:+ kind +:+ " objects: " +:+ err).

(** The fields of core/v1 and events.k8s.io/v1 Events the checks read. *)
Record LegacyEvent := mkLegacyEvent {
  le_Reason : string;
  le_Kind : string;
  le_Namespace : string;
  le_Name : string;
  le_UID : string;
  le_Message : string;
  le_SeriesLast : option Time;
  le_LastTimestamp : Time;
  le_EventTime : Time;
  le_CreationTimestamp : Time
}.

Record ModernEvent := mkModernEvent {
  me_Reason : string;
  me_Kind : string;
  me_Namespace : string;
  me_Name : string;
  me_UID : string;
  me_Note : string;
  me_SeriesLast : option Time;
  me_EventTime : Time;
  me_CreationTimestamp : Time
}.

Record normalizedEvent := mkNormalized {
  ne_Reason : string;
  ne_Kind : string;
  ne_Namespace : string;
  ne_Name : string;
  ne_UID : string;
  ne_When : Time;
  ne_Message : string;
  ne_APIVersion : string
}.

(** [series != nil && !series.LastObservedTime.IsZero()]. *)
Definition observed (series : option Time) : option Time :=
  match series with Some t => if time_is_zero t then None else Some t | None => None end.

Definition legacyEventTime (e : LegacyEvent) : Time :=
  match observed (le_SeriesLast e) with
  | Some t => t
  | None => if negb (time_is_zero (le_LastTimestamp e)) then le_LastTimestamp e
            else if negb (time_is_zero (le_EventTime e)) then le_EventTime e
            else le_CreationTimestamp e
  end.

Definition modernEventTime (e : ModernEvent) : Time :=
  match observed (me_SeriesLast e) with
  | Some t => t
  | None => if negb (time_is_zero (me_EventTime e)) then me_EventTime e else me_CreationTimestamp e
  end.

Definition ofLegacy (e : LegacyEvent) : normalizedEvent :=
  mkNormalized (le_Reason e) (le_Kind e) (le_Namespace e) (le_Name e) (le_UID e) (legacyEventTime e) (le_Message e) "core/v1".

Definition ofModern (e : ModernEvent) : normalizedEvent :=
  mkNormalized (me_Reason e) (me_Kind e) (me_Namespace e) (me_Name e) (me_UID e) (modernEventTime e) (me_Note e) "events.k8s.io/v1".

Definition listAllEvents (legacy : Listed LegacyEvent) (modern : Listed ModernEvent) (ns : string) :
    string + list normalizedEvent :=
  match legacy ns with
  | inl err => inl err
  | inr l => match modern ns with
             | inl err => inl err
             | inr m => inr ((ofLegacy <$> l) ++ (ofModern <$> m))
             end
  end.

(** ** Endpoints (checks/endpoints.go) *)

Definition snapshotBodyLimit : Z := 8 * 2 ^ 20.

(** What io.LimitReader lets through. *)
Fixpoint limitBytes (n : Z) (s : string) : string :=
  match s with
  | EmptyString => EmptyString
  | String a s => if 0 <? n then String a (limitBytes (n - 1) s) else EmptyString
  end.

(** An HTTP request of the doctor, and what the exchange comes to: a status and the body, unless
    reading it fails. *)
Record DoctorRequest := mkDoctorRequest { dr_Method : string; dr_URL : string; dr_Authorization : option string }.

Record HTTPDoer := mkDoer {
  hd_NewRequest : string → option string;                         (* the error of http.NewRequestWithContext *)
  hd_Do : DoctorRequest → string + (Z * (string + string))
}.

Section checks.
Context `{QO : QuantityOps}.
(** [%q] of fmt and [json.Valid]. *)
Variable quote : string → string.
Variable jsonValid : string → bool.

(** [health]: no client, the error of Check, or the status by name. *)
Definition ServerReachability (health : option (string + string)) (target : string) : list Finding :=
  let mk code status := mkFinding code status checkServerReachability target in
  match health with
  | None => [mk CodeServerUnreachable StatusFail
      "could not establish a gRPC connection to the cache-plane server; pass --server-endpoint (host:port) or check that the inference-cache-server Service exists and is reachable"]
  | Some (inl err) => [mk CodeServerUnreachable StatusFail ("gRPC health check failed: " +:+ err)]
  | Some (inr status) =>
      if negb (str_eqb status "SERVING") then
        [mk CodeServerNotServing StatusFail ("server reported health status " +:+ status +:+ ", want SERVING")]
      else [mk CodeServerServing StatusOK "gRPC health check reports SERVING"]
  end.

Definition snapshotBody (url token : string) (body : string + string) : list Finding :=
  let mk code status := mkFinding code status checkSnapshotReachability url in
  match body with
  | inl err => [mk CodeSnapshotBadBody StatusWarn ("GET /snapshot returned 200 but the body could not be read: " +:+ err)]
  | inr body =>
      if negb (jsonValid (limitBytes snapshotBodyLimit body)) then
        [mk CodeSnapshotBadBody StatusWarn "GET /snapshot returned 200 but the body did not parse as JSON"]
      else
        mk CodeSnapshotOK StatusOK "GET /snapshot returned 200 with a JSON-parseable body" ::
        if str_eqb token "" then
          [mk CodeSnapshotUnauthenticated StatusInfo
             "/snapshot answered without a bearer token — no ServiceAccount token was available, or snapshot authentication is not enforced on this install"]
        else []
  end.

Definition SnapshotReachability (doer : option HTTPDoer) (url token : string) : list Finding :=
  let mk code status := mkFinding code status checkSnapshotReachability url in
  match doer with
  | None => [mk CodeSnapshotUnreachable StatusFail
      "could not resolve the server /snapshot endpoint; pass --server-endpoint or check the inference-cache-server Service"]
  | Some d =>
      if str_eqb url "" then [mk CodeSnapshotUnreachable StatusFail
        "could not resolve the server /snapshot endpoint; pass --server-endpoint or check the inference-cache-server Service"]
      else match hd_NewRequest d url with
      | Some err => [mk CodeSnapshotUnreachable StatusFail ("could not build /snapshot request: " +:+ err)]
      | None =>
          match hd_Do d (mkDoctorRequest "GET" url (if str_eqb token "" then None else Some ("Bearer " +:+ token))) with
          | inl err => [mk CodeSnapshotUnreachable StatusFail ("GET /snapshot failed: " +:+ err)]
          | inr (code, body) =>
              if (code =? 401) || (code =? 403) then
                [mk CodeSnapshotAuthGated StatusWarn
                   ("/snapshot is reachable but returned HTTP " +:+ FormatInt code +:+
                    " (auth enforced): doctor's token was missing or rejected — pass an audience-bound controller token via --snapshot-token-file to verify the snapshot body")]
              else if negb (code =? 200) then
                [mk CodeSnapshotUnreachable StatusFail ("GET /snapshot returned HTTP " +:+ FormatInt code +:+ ", want 200")]
              else snapshotBody url token body
          end
      end
  end.

Record routeCodes := mkRouteCodes { rt_missing : string; rt_wired : string; rt_unexpected : string }.

Definition routeStatusWired (code : Z) : bool :=
  ((200 <=? code) && (code <? 300)) || (code =? 401) || (code =? 403) || (code =? 405).

Definition routeReachability (doer : option HTTPDoer) (url check name : string) (codes : routeCodes) : list Finding :=
  let missing msg := [mkFinding (rt_missing codes) StatusFail check url msg] in
  match doer with
  | None => missing ("could not resolve the server " +:+ name +:+ " endpoint; pass --server-endpoint or check the inference-cache-server Service")
  | Some d =>
      if str_eqb url "" then
        missing ("could not resolve the server " +:+ name +:+ " endpoint; pass --server-endpoint or check the inference-cache-server Service")
      else match hd_NewRequest d url with
      | Some err => missing ("could not build " +:+ name +:+ " request: " +:+ err)
      | None =>
          match hd_Do d (mkDoctorRequest "HEAD" url None) with
          | inl err => missing ("HEAD " +:+ name +:+ " failed to connect: " +:+ err)
          | inr (code, _) =>
              if code =? 404 then
                missing ("HEAD " +:+ name +:+ " returned HTTP 404 — the " +:+ name +:+
                         " route is not mounted on the server (a wired route answers 200/401/403/405, never 404)")
              else if routeStatusWired code then
                [mkFinding (rt_wired codes) StatusOK check url
                   (name +:+ " route is wired (HTTP " +:+ FormatInt code +:+ " to a non-mutating HEAD)")]
              else
                [mkFinding (rt_unexpected codes) StatusWarn check url
                   (name +:+ " is mounted but answered HTTP " +:+ FormatInt code +:+
                    " (expected 2xx/401/403/405) — the server or its middleware may be erroring")]
          end
      end
  end.

Definition PolicyReachability (doer : option HTTPDoer) (url : string) : list Finding :=
  routeReachability doer url checkPolicyReachability "/policy"
    (mkRouteCodes CodePolicyRouteMissing CodePolicyRouteWired CodePolicyRouteUnexpected).

Definition ProbeReachability (doer : option HTTPDoer) (url : string) : list Finding :=
  routeReachability doer url checkProbeReachability "/probe"
    (mkRouteCodes CodeProbeRouteMissing CodeProbeRouteWired CodeProbeRouteUnexpected).

(** ** CacheBackends (checks/cachebackend.go) *)

(** A CacheBackend with its status. *)
Definition StoredBackend : Type := CacheBackend * CacheBackendStatus.

Definition hasEngineSelector (cb : CacheBackend) : bool := negb (bool_decide (matchLabels cb = ∅)).

(** time.Duration.Round. *)
Definition durationRound (d m : Duration) : Duration :=
  if m <=? 0 then d
  else
    let r := Z.rem d m in
    if d <? 0 then
      let r := - r in
      if r + r <? m then d + r
      else let d1 := wrap64 (d - m + r) in if d1 <? d then d1 else MinInt64
    else
      if r + r <? m then d - r
      else let d1 := wrap64 (d + m - r) in if d <? d1 then d1 else MaxInt64.

Definition notReadyMessage (ready : option Condition) : string :=
  match ready with
  | None => "Ready condition is not set yet — the controller has not reconciled this backend, or it has never observed a KV event"
  | Some c => "Ready=" +:+ cd_Status c +:+ " (reason " +:+ cd_Reason c +:+ "): " +:+ cd_Message c
  end.

Definition staleMessage (lastEventAt now : Time) (staleWindow : Duration) : string :=
  "status.indexParticipation.lastEventAt is " +:+ durationString (durationRound (time_sub now lastEventAt) Second) +:+
  " old (EngineStale): exceeds the " +:+ durationString staleWindow +:+ " freshness window — KV events have stopped flowing".

Definition participationFinding (ip : option CacheBackendIndexParticipation) (firstEventAt : option Time) (ref : string)
    (now : Time) (staleWindow : Duration) : option Finding :=
  let mk code := mkFinding code StatusWarn checkCacheBackendHealth ref in
  let lastEventAt := ip ≫= ip_LastEventAt in
  if negb (bool_decide (is_Some firstEventAt) || bool_decide (is_Some lastEventAt)) then
    Some (mk CodeBackendNotReportingState
      "no KV event ever observed for this backend (EngineNotReportingState): status.firstKVEventObservedAt and indexParticipation.lastEventAt are both unset — the engine's KV-event publisher may be silent or the subscriber sidecar absent")
  else match lastEventAt with
       | Some t => if staleWindow <? time_sub now t then Some (mk CodeBackendStale (staleMessage t now staleWindow)) else None
       | None => None
       end.

Definition matchedEnginePodCount (pods : Listed Pod) (cb : CacheBackend) (st : CacheBackendStatus) : string + Z :=
  match st_MatchedEnginePods st with
  | Some n => inr n
  | None => match pods (cb_Namespace cb) with
            | inl err => inl err
            | inr l => inr (Z.of_nat (length (List.filter (λ p, labelsMatch (matchLabels cb) (p_Labels p)) l)))
            end
  end.

(** [dial]: None when no dialer is configured, otherwise the error of dialling an address. *)
Definition endpointFinding (st : CacheBackendStatus) (ref : string) (dial : option (string → option string)) : option Finding :=
  let mk := mkFinding CodeBackendEndpointUnreachable StatusWarn checkCacheBackendHealth ref in
  let endpoint := match st_RemoteStorage st with Some r => rss_Endpoint r | None => "" end in
  if str_eqb endpoint "" then Some (mk "status.remoteStorage.endpoint is empty — the remote tier has no published address")
  else match dial with
       | None => None
       | Some d =>
           match d endpoint with
           | Some err => Some (mk ("status.remoteStorage.endpoint " +:+ quote endpoint +:+ " is not reachable over TCP: " +:+ err))
           | None => None
           end
       end.

Definition prefixCount (ip : option CacheBackendIndexParticipation) : Z :=
  match ip with Some p => ip_PrefixCount p | None => 0 end.

Definition healthyMessage (cb : CacheBackend) (st : CacheBackendStatus) (managed hasRemoteStorage dialed : bool) : string :=
  let endpoint := if dialed then "endpoint reachable" else "endpoint present" in
  if negb managed then "External backend: Ready, " +:+ endpoint
  else
    let endpoint := if hasRemoteStorage then endpoint else "host-only (endpoint not applicable)" in
    let matched := if hasEngineSelector cb then "engine pods matched" else "no engineSelector (engine-pod matching not applicable)" in
    "Ready, " +:+ matched +:+ ", " +:+ FormatInt (prefixCount (st_IndexParticipation st)) +:+ " prefix(es) indexed, " +:+ endpoint.

Definition selectorFinding (pods : Listed Pod) (cb : CacheBackend) (st : CacheBackendStatus) (ref : string) : option Finding :=
  if hasEngineSelector cb then
    match matchedEnginePodCount pods cb st with
    | inl err => Some (mkFinding CodeAPIReadFailed StatusFail checkCacheBackendHealth ref
        ("could not determine matched engine pods (selector-mismatch check inconclusive): " +:+ err))
    | inr count =>
        if count =? 0 then Some (mkFinding CodeBackendSelectorMismatch StatusWarn checkCacheBackendHealth ref
          "status.matchedEnginePods is 0 (LikelySelectorMismatch): spec.engineSelector matches no engine pods — the engine Deployment may be missing, scaled to zero, or its pod labels have drifted from the selector")
        else None
    end
  else None.

Definition readyFinding (st : CacheBackendStatus) (ref : string) : option Finding :=
  let ready := findCondition (st_Conditions st) conditionReady in
  if bool_decide (cd_Status <$> ready = Some ConditionTrue) then None
  else Some (mkFinding CodeBackendNotReady StatusWarn checkCacheBackendHealth ref (notReadyMessage ready)).

Definition functionalFinding (st : CacheBackendStatus) (ref : string) : option Finding :=
  match findCondition (st_Conditions st) conditionFunctionalProbeOK with
  | Some fp =>
      if str_eqb (cd_Status fp) ConditionTrue then None
      else Some (mkFinding CodeBackendFunctionalProbeFailing StatusWarn checkCacheBackendHealth ref
        ("FunctionalProbeOK=" +:+ cd_Status fp +:+ " (reason " +:+ cd_Reason fp +:+
         "): the controller's end-to-end functional self-test is failing for this backend — " +:+ cd_Message fp))
  | None => None
  end.

Definition isExternal (cb : CacheBackend) : bool :=
  match EffectiveRemoteStorage (cb_Spec cb) with
  | Some s => str_eqb (rs_Ownership s) OwnershipExternal
  | None => false
  end.

(** The failing axes of one backend, in the order the code notes them. *)
Definition backendNotes (pods : Listed Pod) (now : Time) (staleWindow : Duration) (dial : option (string → option string))
    (b : StoredBackend) : list Finding :=
  let '(cb, st) := b in
  let ref := resourceRef "CacheBackend" (cb_Namespace cb) (cb_Name cb) in
  omap id
    ([readyFinding st ref] ++
     (if isExternal cb then []
      else [selectorFinding pods cb st ref;
            participationFinding (st_IndexParticipation st) (st_FirstKVEventObservedAt st) ref now staleWindow;
            functionalFinding st ref]) ++
     (if bool_decide (is_Some (EffectiveRemoteStorage (cb_Spec cb))) then [endpointFinding st ref dial] else [])).

Definition backendFindings (pods : Listed Pod) (now : Time) (staleWindow : Duration) (dial : option (string → option string))
    (b : StoredBackend) : list Finding :=
  match backendNotes pods now staleWindow dial b with
  | [] =>
      let '(cb, st) := b in
      [mkFinding CodeBackendHealthy StatusOK checkCacheBackendHealth (resourceRef "CacheBackend" (cb_Namespace cb) (cb_Name cb))
         (healthyMessage cb st (negb (isExternal cb)) (bool_decide (is_Some (EffectiveRemoteStorage (cb_Spec cb))))
            (bool_decide (is_Some dial)))]
  | notes => notes
  end.

Definition CacheBackendHealth (backends : Listed StoredBackend) (pods : Listed Pod) (ns : string) (now : Time)
    (staleWindow : Duration) (dial : option (string → option string)) : list Finding :=
  match backends ns with
  | inl err => [listError checkCacheBackendHealth "CacheBackend" err]
  | inr items => mjoin (backendFindings pods now staleWindow dial <$> items)
  end.

(** ** Pods (checks/podaudit.go) *)

(** The [sel] of a backend: name, UID, labels. *)
Record sel := mkSel { sel_backend : string; sel_uid : string; sel_labels : gmap string string }.

Definition selOf (cb : CacheBackend) : sel := mkSel (cb_Name cb) (cb_UID cb) (matchLabels cb).

(** [byNamespace]: the selectors of a namespace, sorted by name. *)
Definition byNamespace (items : list CacheBackend) (ns : string) : list sel :=
  go_sort (λ a b, str_lt (sel_backend a) (sel_backend b))
    (selOf <$> List.filter (λ cb, hasEngineSelector cb && str_eqb (cb_Namespace cb) ns) items).

Definition injectedPodUIDs (events : list normalizedEvent) : gset string :=
  list_to_set (ne_UID <$> List.filter (λ e, str_eqb (ne_Reason e) eventInjectedByCacheBackend && str_eqb (ne_Kind e) "Pod" &&
                                           negb (str_eqb (ne_UID e) "")) events).

(** [%q] of a []string. *)
Definition quoteAll (names : list string) : string := "[" +:+ Join " " (quote <$> names) +:+ "]".

Definition stampedBy (pod : Pod) (s : sel) : bool :=
  let owner := strGet (p_Annotations pod) annotationInjectedBy in
  negb (str_eqb owner "") && str_eqb owner (p_Namespace pod +:+ "/" +:+ sel_backend s) &&
  negb (str_eqb (sel_uid s) "") && str_eqb (strGet (p_Annotations pod) annotationInjectedByUID) (sel_uid s).

Definition auditPod (items : list CacheBackend) (uids : gset string) (pod : Pod) : list Finding :=
  let ref := resourceRef "Pod" (p_Namespace pod) (p_Name pod) in
  let mk code status := mkFinding code status checkEnginePodInjection ref in
  match List.filter (λ s, labelsMatch (sel_labels s) (p_Labels pod)) (byNamespace items (p_Namespace pod)) with
  | [] => []
  | [selected] =>
      if stampedBy pod selected then
        [mk CodeEnginePodInjected StatusOK
           ("engine pod is injected by CacheBackend " +:+ quote (strGet (p_Annotations pod) annotationInjectedBy) +:+
            " (inferencecache.io/injected-by annotation validated against the backend UID)")]
      else if bool_decide (p_UID pod ∈ uids) then
        [mk CodeEnginePodInjected StatusOK
           ("engine pod matches CacheBackend " +:+ quote (sel_backend selected) +:+
            " (engineSelector) and carries an InjectedByCacheBackend Event for its current UID — it was injected by the cache plane (the Event does not record which backend; the inferencecache.io/injected-by annotation is the authoritative per-backend signal and is absent or unvalidated here)")]
      else
        [mk CodeEnginePodNotInjected StatusWarn
           ("engine pod matches CacheBackend " +:+ quote (sel_backend selected) +:+
            " (engineSelector) but has no injection marker (no validated inferencecache.io/injected-by annotation and no InjectedByCacheBackend Event for its UID) — it may be running uncached; recreate it (e.g. kubectl rollout restart) so the mutating webhook re-evaluates")]
  | matched =>
      [mk CodeEngineSelectorAmbiguous StatusWarn
         ("engine pod matches multiple CacheBackends " +:+ quoteAll (sel_backend <$> matched) +:+ " in namespace " +:+
          quote (p_Namespace pod) +:+
          "; no backend is selected implicitly, and fresh Pod admission would deny this ambiguity — make the engineSelectors disjoint")]
  end.

Definition EnginePodInjectionAudit (backends : Listed StoredBackend) (pods : Listed Pod) (legacy : Listed LegacyEvent)
    (modern : Listed ModernEvent) (ns : string) : list Finding :=
  match backends ns with
  | inl err => [listError checkEnginePodInjection "CacheBackend" err]
  | inr items =>
      let items := items.*1 in
      if negb (existsb hasEngineSelector items) then []
      else match pods ns with
      | inl err => [listError checkEnginePodInjection "Pod" err]
      | inr pods =>
          match listAllEvents legacy modern ns with
          | inl err => [listError checkEnginePodInjection "Event" err]
          | inr events => mjoin (auditPod items (injectedPodUIDs events) <$> pods)
          end
      end
  end.

Definition orphaned (cutoff : Time) (e : normalizedEvent) : bool :=
  str_eqb (ne_Reason e) eventNoMatchingCacheBackend && str_eqb (ne_Kind e) "Pod" && negb (time_before (ne_When e) cutoff).

Definition OrphanPods (legacy : Listed LegacyEvent) (modern : Listed ModernEvent) (ns : string) (now : Time) (window : Duration) :
    list Finding :=
  match listAllEvents legacy modern ns with
  | inl err => [listError checkOrphanPods "Event" err]
  | inr events =>
      (λ e, mkFinding CodeOrphanPod StatusWarn checkOrphanPods (resourceRef "Pod" (ne_Namespace e) (ne_Name e))
              ("pod recorded a NoMatchingCacheBackend Event (LikelyOperatorMisconfiguration): " +:+ ne_Message e))
        <$> List.filter (orphaned (now - window)) events
  end.

(** ** Tenants and policies (checks/tenant_policy.go) *)

Definition quotaExceededMessage (ct : CacheTenant) (cond : Condition) : string :=
  let entries := match tst_IndexEntries (ct_Status ct) with Some n => FormatInt n | None => "unknown" end in
  let quota := match ct_Quota ct ≫= qs_MaxIndexEntries with Some n => FormatInt n | None => "unset" end in
  "QuotaExceeded=True for tenant " +:+ quote (ct_TenantID ct) +:+ ": " +:+ entries +:+
  " index entries against a maxIndexEntries quota of " +:+ quota +:+
  (if str_eqb (cd_Message cond) "" then "" else " — " +:+ cd_Message cond).

Definition tenantFinding (ct : CacheTenant) : Finding :=
  let mk code status := mkFinding code status checkCacheTenantHealth (resourceRef "CacheTenant" (ct_Namespace ct) (ct_Name ct)) in
  let healthy := mk CodeTenantHealthy StatusOK ("tenant " +:+ quote (ct_TenantID ct) +:+ " is within quota") in
  match findCondition (tst_Conditions (ct_Status ct)) conditionQuotaExceeded with
  | Some cond =>
      if str_eqb (cd_Status cond) ConditionTrue then mk CodeTenantQuotaExceeded StatusWarn (quotaExceededMessage ct cond) else healthy
  | None => healthy
  end.

Definition CacheTenantHealth (tenants : Listed CacheTenant) (ns : string) : list Finding :=
  match tenants ns with
  | inl err => [listError checkCacheTenantHealth "CacheTenant" err]
  | inr items => tenantFinding <$> items
  end.

Definition coverageFinding (policies : list CachePolicy) (n : string) : Finding :=
  let mk code status := mkFinding code status checkCachePolicyCoverage ("namespace/" +:+ n) in
  let count := Z.of_nat (length (List.filter (λ p, str_eqb (cp_Namespace p) n) policies)) in
  if count =? 0 then
    mk CodePolicyCoverageMissing StatusInfo
      ("namespace " +:+ quote n +:+ " has CacheBackends but no CachePolicy — the server's default eviction/lookup policy applies")
  else if 1 <? count then
    mk CodePolicyCoverageDuplicate StatusWarn
      ("namespace " +:+ quote n +:+ " has " +:+ FormatInt count +:+
       " CachePolicies — at most one is allowed; the controller keeps only the lexicographically-first and the rest are inert. Delete the extras to avoid confusion about which policy is in effect")
  else mk CodePolicyCoveragePresent StatusOK ("namespace " +:+ quote n +:+ " has 1 CachePolicy").

Definition backendNamespaces (items : list StoredBackend) : gset string := list_to_set ((λ b, cb_Namespace b.1) <$> items).

Definition CachePolicyCoverage (backends : Listed StoredBackend) (policies : Listed CachePolicy) (ns : string) : list Finding :=
  match backends ns with
  | inl err => [listError checkCachePolicyCoverage "CacheBackend" err]
  | inr items =>
      if bool_decide (backendNamespaces items = ∅) then []
      else match policies ns with
      | inl err => [listError checkCachePolicyCoverage "CachePolicy" err]
      | inr policies => coverageFinding policies <$> go_sort str_lt (elements (backendNamespaces items))
      end
  end.

(** ** The run (checks/checks.go) *)

(** What the cluster answers to each check; the checks read it one after the other, so two checks
    may see different states. *)
Record Cluster := mkCluster {
  kc_HealthBackends : Listed StoredBackend;
  kc_HealthPods : Listed Pod;
  kc_AuditBackends : Listed StoredBackend;
  kc_AuditPods : Listed Pod;
  kc_AuditLegacy : Listed LegacyEvent;
  kc_AuditModern : Listed ModernEvent;
  kc_OrphanLegacy : Listed LegacyEvent;
  kc_OrphanModern : Listed ModernEvent;
  kc_Tenants : Listed CacheTenant;
  kc_CoverageBackends : Listed StoredBackend;
  kc_Policies : Listed CachePolicy
}.

Record Deps := mkDeps {
  dp_K8s : Cluster;
  dp_Namespace : string;
  dp_Health : option (string + string);
  dp_ServerTarget : string;
  dp_HTTP : option HTTPDoer;
  dp_SnapshotURL : string;
  dp_PolicyURL : string;
  dp_ProbeURL : string;
  dp_Token : string;
  dp_DialTCP : option (string → option string);
  dp_Now : Time;
  dp_StaleWindow : Duration;
  dp_OrphanWindow : Duration;
  dp_SkipEndpointChecks : bool;
  dp_EndpointDiscoveryErr : option string
}.

Definition staleWindow (d : Deps) : Duration := if 0 <? dp_StaleWindow d then dp_StaleWindow d else DefaultStaleWindow.
Definition orphanWindow (d : Deps) : Duration := if 0 <? dp_OrphanWindow d then dp_OrphanWindow d else DefaultOrphanWindow.

(** Checks 1 to 4. *)
Definition endpointChecks (d : Deps) : list Finding :=
  if dp_SkipEndpointChecks d then []
  else match dp_EndpointDiscoveryErr d with
  | Some err =>
      [mkFinding CodeServerUnreachable StatusFail checkServerReachability (dp_ServerTarget d)
         ("could not resolve the cache-plane server endpoint: " +:+ err +:+
          " — pass --server-endpoint, or check the inference-cache-server Service and the caller's RBAC to read/list Services")]
  | None =>
      ServerReachability (dp_Health d) (dp_ServerTarget d) ++
      SnapshotReachability (dp_HTTP d) (dp_SnapshotURL d) (dp_Token d) ++
      PolicyReachability (dp_HTTP d) (dp_PolicyURL d) ++
      ProbeReachability (dp_HTTP d) (dp_ProbeURL d)
  end.

Definition Run (d : Deps) : Report :=
  let k := dp_K8s d in
  let ns := dp_Namespace d in
  endpointChecks d ++
  CacheBackendHealth (kc_HealthBackends k) (kc_HealthPods k) ns (dp_Now d) (staleWindow d) (dp_DialTCP d) ++
  EnginePodInjectionAudit (kc_AuditBackends k) (kc_AuditPods k) (kc_AuditLegacy k) (kc_AuditModern k) ns ++
  OrphanPods (kc_OrphanLegacy k) (kc_OrphanModern k) ns (dp_Now d) (orphanWindow d) ++
  CacheTenantHealth (kc_Tenants k) ns ++
  CachePolicyCoverage (kc_CoverageBackends k) (kc_Policies k) ns.

(** ** Output (doctor/output) *)

Definition FormatHuman : string := "human".
Definition FormatJSON : string := "json".
Definition FormatTable : string := "table".

Definition ParseFormat (s : string) : string + string :=
  if str_eqb s FormatHuman then inr FormatHuman
  else if str_eqb s FormatJSON then inr FormatJSON
  else if str_eqb s FormatTable then inr FormatTable
  else inl ("invalid output format " +:+ quote s +:+ " (want one of: human, json, table)").

Definition nl : string := String (byte_of_Z 10) EmptyString.
Definition tab : string := String (byte_of_Z 9) EmptyString.
Definition esc : string := String (byte_of_Z 27) EmptyString.

Definition ansiReset : string := esc +:+ "[0m".
Definition ansiBold : string := esc +:+ "[1m".
Definition ansiRed : string := esc +:+ "[31m".
Definition ansiYellow : string := esc +:+ "[33m".
Definition ansiGreen : string := esc +:+ "[32m".
Definition ansiCyan : string := esc +:+ "[36m".

Definition statusColor (s : Status) : string :=
  match s with StatusFail => ansiRed | StatusWarn => ansiYellow | StatusInfo => ansiCyan | StatusOK => ansiGreen end.

(** [%-4s]. *)
Fixpoint padRight (n : nat) (s : string) : string :=
  match n with
  | O => s
  | S n => match s with
           | EmptyString => String " " (padRight n EmptyString)
           | String a s => String a (padRight n s)
           end
  end.

Definition humanFinding (color : bool) (f : Finding) : string :=
  let tag := padRight 4 (statusString (fd_Status f)) +:+ " " +:+ fd_Code f in
  let tag := if color then statusColor (fd_Status f) +:+ tag +:+ ansiReset else tag in
  "  " +:+ tag +:+ (if str_eqb (fd_Resource f) "" then "" else "  " +:+ fd_Resource f) +:+ nl +:+ "      " +:+ fd_Message f +:+ nl.

Definition humanSection (color : bool) (r : Report) (status : Status) : list string :=
  match FindingsByStatus r status with
  | [] => []
  | fs =>
      let label := statusString status in
      let label := if color then ansiBold +:+ statusColor status +:+ label +:+ ansiReset else label in
      (label +:+ nl) :: (humanFinding color <$> fs) ++ [nl]
  end.

Definition count (r : Report) (label : string) : Z := default 0 (Counts r !! label).

(** The writes of renderHuman, one per printf. *)
Definition humanChunks (r : Report) (color : bool) : list string :=
  let bold s := if color then ansiBold +:+ s +:+ ansiReset else s in
  (bold "inferencecache doctor" +:+ nl +:+ nl) ::
  mjoin (humanSection color r <$> OrderedStatuses) ++
  [bold ("Summary: " +:+ FormatInt (count r "OK") +:+ " OK, " +:+ FormatInt (count r "INFO") +:+ " INFO, " +:+
         FormatInt (count r "WARN") +:+ " WARN, " +:+ FormatInt (count r "FAIL") +:+ " FAIL  (exit " +:+ FormatInt (ExitCode r) +:+ ")") +:+ nl].

(** A writer that takes a number of writes and then fails. *)
Record Writer := mkWriter { wr_Accepts : nat; wr_Error : string }.

(** errWriter: after the first failed write the rest are skipped.  The text written, and the error. *)
Definition printAll (w : Writer) (chunks : list string) : string * option string :=
  (String.concat "" (take (wr_Accepts w) chunks),
   if (wr_Accepts w <? length chunks)%nat then Some (wr_Error w) else None).

Definition renderHuman (w : Writer) (r : Report) (color : bool) : string * option string := printAll w (humanChunks r color).

Definition jsonMember (indent name value : string) : string := indent +:+ jsonString name +:+ ": " +:+ value.

Definition jsonFinding (f : Finding) : string :=
  let m := jsonMember "      " in
  "    {" +:+ nl +:+
  String.concat ("," +:+ nl)
    ([m "code" (jsonString (fd_Code f)); m "status" (jsonString (statusString (fd_Status f))); m "check" (jsonString (fd_Check f))] ++
     (if str_eqb (fd_Resource f) "" then [] else [m "resource" (jsonString (fd_Resource f))]) ++
     [m "message" (jsonString (fd_Message f))]) +:+ nl +:+
  "    }".

(** The document of the encoder with two-space indentation, and its final newline. *)
Definition jsonText (r : Report) : string :=
  let m := jsonMember "    " in
  "{" +:+ nl +:+
  jsonMember "  " "summary" ("{" +:+ nl +:+
    String.concat ("," +:+ nl)
      [m "ok" (FormatInt (count r "OK")); m "info" (FormatInt (count r "INFO")); m "warn" (FormatInt (count r "WARN"));
       m "fail" (FormatInt (count r "FAIL")); m "exitCode" (FormatInt (ExitCode r))] +:+ nl +:+ "  }") +:+ "," +:+ nl +:+
  jsonMember "  " "findings"
    (match r with
     | [] => "[]"
     | _ => "[" +:+ nl +:+ String.concat ("," +:+ nl) (jsonFinding <$> r) +:+ nl +:+ "  ]"
     end) +:+ nl +:+ "}" +:+ nl.

Definition renderJSON (w : Writer) (r : Report) : string * option string := printAll w [jsonText r].

(** strings.Fields: the runs of non-space runes. *)
Fixpoint fieldsLoop (fuel : nat) (cur : list Z) (l : list Z) : list (list Z) :=
  let close := match cur with [] => [] | _ => [reverse cur] end in
  match fuel with
  | O => close
  | S fuel =>
      match l with
      | [] => close
      | b :: rest =>
          match leadRune spaceRunes l with
          | O => fieldsLoop fuel (b :: cur) rest
          | n => close ++ fieldsLoop fuel [] (drop n l)
          end
      end
  end.

Definition Fields (s : string) : list string := ofBytes <$> fieldsLoop (String.length s) [] (bytesOf s).

Definition oneLine (s : string) : string := Join " " (Fields s).

Definition tableRow (f : Finding) : string :=
  statusString (fd_Status f) +:+ tab +:+ fd_Code f +:+ tab +:+ fd_Check f +:+ tab +:+
  (if str_eqb (fd_Resource f) "" then "-" else fd_Resource f) +:+ tab +:+ oneLine (fd_Message f) +:+ nl.

(** The tab-separated text that renderTable hands to the tabwriter, which only aligns the cells. *)
Definition tableText (r : Report) : string :=
  "STATUS" +:+ tab +:+ "CODE" +:+ tab +:+ "CHECK" +:+ tab +:+ "RESOURCE" +:+ tab +:+ "MESSAGE" +:+ nl +:+
  String.concat "" (tableRow <$> r).

(** [align]: text/tabwriter with two blanks between columns. *)
Variable align : string → string.

Definition renderTable (w : Writer) (r : Report) : string * option string := printAll w [align (tableText r)].

Definition Render (w : Writer) (r : Report) (format : string) (color : bool) : string * option string :=
  if str_eqb format FormatHuman then renderHuman w r color
  else if str_eqb format FormatJSON then renderJSON w r
  else if str_eqb format FormatTable then renderTable w r
  else ("", Some ("unknown output format " +:+ quote format)).

(** ** The command (cmd/inferencecache/doctor.go, main.go) *)

Definition defaultServerService : string := "inference-cache-server".
Definition defaultSystemNamespace : string := "inference-cache-system".
Definition defaultGRPCPort : string := "9090".
Definition defaultSnapshotPort : string := "8081".

Record doctorOptions := mkOptions {
  do_namespace : string;
  do_serverEndpoint : string;
  do_tokenFile : string;
  do_outputFormat : string;
  do_noColor : bool;
  do_configOnly : bool
}.

(** net.JoinHostPort. *)
Definition JoinHostPort (host port : string) : string :=
  if ContainsByte host ":" || ContainsByte host "%" then "[" +:+ host +:+ "]:" +:+ port else host +:+ ":" +:+ port.

(** The Services read by the discovery: the Get of the default one (an error has its text), and the
    namespaces and names of a cluster-wide list. *)
Record ServiceReads := mkServiceReads {
  sr_Get : string + bool;                                  (* found or not *)
  sr_List : string + list (string * string)                (* namespace, name *)
}.

Definition findServerServiceNamespace (r : ServiceReads) : string + string :=
  match sr_Get r with
  | inr true => inr defaultSystemNamespace
  | inl err => inl ("get Service " +:+ defaultSystemNamespace +:+ "/" +:+ defaultServerService +:+ ": " +:+ err)
  | inr false =>
      match sr_List r with
      | inl err => inl ("list Services to discover " +:+ quote defaultServerService +:+ ": " +:+ err)
      | inr svcs =>
          match List.find (λ s, str_eqb s.2 defaultServerService) svcs with
          | Some s => inr s.1
          | None => inl ("could not find a " +:+ quote defaultServerService +:+ " Service in any namespace; pass --server-endpoint")
          end
      end
  end.

Record ServerEndpoints := mkEndpoints { se_grpc : string; se_snapshot : string; se_policy : string; se_probe : string }.

Definition resolveEndpoints (r : ServiceReads) (override : string) : string + ServerEndpoints :=
  let build host grpcPort :=
    let base := "http://" +:+ JoinHostPort host defaultSnapshotPort in
    mkEndpoints (JoinHostPort host grpcPort) (base +:+ "/snapshot") (base +:+ "/policy") (base +:+ "/probe") in
  if negb (str_eqb override "") then
    match SplitHostPort override with
    | Some (h, p) => inr (build h p)
    | None => inr (build override defaultGRPCPort)
    end
  else match findServerServiceNamespace r with
       | inl err => inl err
       | inr ns => inr (build (defaultServerService +:+ "." +:+ ns +:+ ".svc") defaultGRPCPort)
       end.

Definition readToken (read : string → FileRead) (path : string) : string :=
  if str_eqb path "" then ""
  else match read path with FileData b => TrimSpace b | _ => "" end.

Definition stripScheme (addr : string) : string :=
  if HasPrefix addr "http://" then TrimPrefix addr "http://"
  else if HasPrefix addr "https://" then TrimPrefix addr "https://"
  else addr.

(** The world of one invocation: the rest config, the Kubernetes client, the reads, the dialled
    server, the network, the clock and the terminal. *)
Record World := mkWorld {
  wd_RestConfig : option string;
  wd_Client : option string;
  wd_Cluster : Cluster;
  wd_Services : ServiceReads;
  wd_GRPCClient : string → option string;
  wd_Health : string → string + string;
  wd_HTTP : HTTPDoer;
  wd_Dial : string → option string;
  wd_Files : string → FileRead;
  wd_Now : Time;
  wd_Terminal : bool;
  wd_Stdout : Writer
}.

(** dialTCP, with the network's answer. *)
Definition dialTCP (w : World) (addr : string) : option string := wd_Dial w (stripScheme addr).

Definition depsOf (w : World) (opts : doctorOptions) : string + Deps :=
  let base health target http e token dial err :=
    mkDeps (wd_Cluster w) (do_namespace opts) health target http (se_snapshot e) (se_policy e) (se_probe e) token dial (wd_Now w) 0 0
      (do_configOnly opts) err in
  let none := mkEndpoints "" "" "" "" in
  if do_configOnly opts then inr (base None "" None none "" None None)
  else match resolveEndpoints (wd_Services w) (do_serverEndpoint opts) with
  | inl err => inr (base None "" None none "" (Some (dialTCP w)) (Some err))
  | inr e =>
      match wd_GRPCClient w (se_grpc e) with
      | Some err => inl ("dial server gRPC " +:+ quote (se_grpc e) +:+ ": " +:+ err)
      | None => inr (base (Some (wd_Health w (se_grpc e))) (se_grpc e) (Some (wd_HTTP w)) e (readToken (wd_Files w) (do_tokenFile opts))
                       (Some (dialTCP w)) None)
      end
  end.

(** The text on stdout, and the exit code or the error. *)
Definition runDoctor (w : World) (opts : doctorOptions) : string * (string + Z) :=
  match ParseFormat (do_outputFormat opts) with
  | inl err => ("", inl err)
  | inr format =>
      match wd_RestConfig w with
      | Some err => ("", inl ("load kubeconfig: " +:+ err))
      | None =>
          match wd_Client w with
          | Some err => ("", inl ("build Kubernetes client: " +:+ err))
          | None =>
              match depsOf w opts with
              | inl err => ("", inl err)
              | inr deps =>
                  let report := Run deps in
                  let color := str_eqb format FormatHuman && negb (do_noColor opts) && wd_Terminal w in
                  match Render (wd_Stdout w) report format color with
                  | (text, Some err) => (text, inl ("render output: " +:+ err))
                  | (text, None) => (text, inr (ExitCode report))
                  end
              end
          end
      end
  end.

(** main.run: the process exit code. *)
Definition run (w : World) (opts : doctorOptions) : string * Z :=
  match runDoctor w opts with
  | (text, inl _) => (text, 1)
  | (text, inr code) => (text, code)
  end.
End checks.
