(* ===== verification/HttpServer.v ===== *)
(** * The HTTP listeners and the lifecycle of the server (server/server.go)

    The options, the routes of the public and of the controller-facing listener, the three
    authenticators in front of the controller's handlers, and the server with any number of
    requests in flight.  A request's path is the unescaped one; bodies arrive decoded, as in
    Policy.v and Probe.v. *)

From Stdlib Require Import SpecFloat.
From S2P Require Import Prelude Ordering GoRuntime Floats GoText IndexTypes IndexAccounting IndexIngest IndexSnapshot IndexSystem.
From S2P Require Import Policy Service Probe Server Auth IndexPoller.

(** ** http.ServeMux *)

(** path.Clean of a rooted path: the segments that remain. *)
Definition cleanStep (acc : list string) (seg : string) : list string :=
  if str_eqb seg "" || str_eqb seg "." then acc
  else if str_eqb seg ".." then tail acc
  else seg :: acc.

Definition cleanRooted (p : string) : string :=
  "/" +:+ Join "/" (reverse (foldl cleanStep [] (Split "/" p))).

Definition cleanPath (p : string) : string :=
  if str_eqb p "" then "/"
  else
    let p := if HasPrefix p "/" then p else "/" +:+ p in
    let np := cleanRooted p in
    if HasSuffix p "/" && negb (str_eqb np "/") then np +:+ "/" else np.

Inductive Routed (A : Type) := Found (a : A) | Redirected | NotFound.
Arguments Found {A} _. Arguments Redirected {A}. Arguments NotFound {A}.

(** Patterns that are plain paths: an unclean path is redirected, unless the method is CONNECT. *)
Definition route {A : Type} (patterns : list (string * A)) (method path : string) : Routed A :=
  if negb (str_eqb method "CONNECT") && negb (str_eqb (cleanPath path) path) then Redirected
  else match List.find (λ e, str_eqb e.1 path) patterns with
       | Some e => Found e.2
       | None => NotFound
       end.

(** ** Configuration *)

Record Config := mkConfig { cfg_GRPCAddr : string; cfg_HTTPAddr : string; cfg_SnapshotAddr : string }.

Definition DefaultConfig : Config := mkConfig ":9090" ":8080" ":8081".

Record controllerAuthConfig := mkControllerAuth { cac_reviewer : bool; cac_saName : string; cac_audience : string }.

(** The fields of Service the options set; [Tok] is the type of tokenizers. *)
Record ServiceOptions (Tok : Type) := mkServiceOptions {
  so_controllerAuth : option controllerAuthConfig;
  so_policyAudience : string;
  so_tokenizer : option Tok;
  so_blockSize : Z;
  so_grpcTLS : bool
}.
Arguments mkServiceOptions {Tok} _ _ _ _ _. Arguments so_controllerAuth {Tok} _. Arguments so_policyAudience {Tok} _.
Arguments so_tokenizer {Tok} _. Arguments so_blockSize {Tok} _. Arguments so_grpcTLS {Tok} _.

Section options.
Context {Tok : Type}.
Implicit Types (o : ServiceOptions Tok).

Definition noOptions : ServiceOptions Tok := mkServiceOptions None "" None 0 false.

Definition WithControllerAuth (reviewer : bool) (expectedSA audience : string) o : ServiceOptions Tok :=
  mkServiceOptions (Some (mkControllerAuth reviewer expectedSA audience)) (so_policyAudience o) (so_tokenizer o) (so_blockSize o) (so_grpcTLS o).
Definition WithPolicyAudience (audience : string) o : ServiceOptions Tok :=
  mkServiceOptions (so_controllerAuth o) audience (so_tokenizer o) (so_blockSize o) (so_grpcTLS o).
Definition WithTokenizer (tk : Tok) o : ServiceOptions Tok :=
  mkServiceOptions (so_controllerAuth o) (so_policyAudience o) (Some tk) (so_blockSize o) (so_grpcTLS o).
Definition WithEngineBlockSize (n : Z) o : ServiceOptions Tok :=
  mkServiceOptions (so_controllerAuth o) (so_policyAudience o) (so_tokenizer o) n (so_grpcTLS o).

(** [for _, opt := range opts { opt(s) }]. *)
Definition applyOptions (opts : list (ServiceOptions Tok → ServiceOptions Tok)) : ServiceOptions Tok :=
  foldl (λ o f, f o) noOptions opts.

(** The tokenizer and block size the gRPC service gets. *)
Definition serviceTokenizer (unavailable : Tok) o : Tok := default unavailable (so_tokenizer o).
Definition serviceBlockSize (dflt : Z) o : Z := if 0 <? so_blockSize o then so_blockSize o else dflt.
End options.

(** ** The controller-facing endpoints *)

Inductive Endpoint := EpSnapshot | EpPolicy | EpProbe.

#[export] Instance Endpoint_eq_dec : EqDecision Endpoint.
Proof. solve_decision. Defined.

Definition snapshotRoutes : list (string * Endpoint) := [("/snapshot", EpSnapshot); ("/policy", EpPolicy); ("/probe", EpProbe)].

(** The Authenticators in front of them; without WithControllerAuth there are none. *)
Record Authenticators := mkAuthenticators { au_snapshot : Authenticator; au_policy : Authenticator; au_probe : Authenticator }.

Definition authOptions (c : controllerAuthConfig) (audience : string) : Options :=
  mkOptions (cac_reviewer c) (cac_saName c) audience true 0 0.

Definition newErrorText (e : NewError) : string :=
  match e with
  | ReviewerRequired => "auth: Reviewer is required"
  | ExpectedServiceAccountRequired => "auth: ExpectedServiceAccount is required"
  end.

(** The audience of an endpoint: /policy falls back to the common one. *)
Definition audienceOf {Tok : Type} (o : ServiceOptions Tok) (c : controllerAuthConfig) (ep : Endpoint) : string :=
  match ep with
  | EpPolicy => if str_eqb (so_policyAudience o) "" then cac_audience c else so_policyAudience o
  | _ => cac_audience c
  end.

(** The authentication part of New: [inl] is the panic. *)
Definition newAuthenticators {Tok : Type} (o : ServiceOptions Tok) : string + option Authenticators :=
  match so_controllerAuth o with
  | None => inr None
  | Some c =>
      match NewAuthenticator (authOptions c (audienceOf o c EpSnapshot)) with
      | inl err => inl ("server: snapshot auth: " +:+ newErrorText err)
      | inr sn =>
          match NewAuthenticator (authOptions c (audienceOf o c EpPolicy)) with
          | inl err => inl ("server: policy auth: " +:+ newErrorText err)
          | inr po =>
              match NewAuthenticator (authOptions c (audienceOf o c EpProbe)) with
              | inl err => inl ("server: probe auth: " +:+ newErrorText err)
              | inr pr => inr (Some (mkAuthenticators sn po pr))
              end
          end
      end
  end.

Definition authenticatorOf (a : Authenticators) (ep : Endpoint) : Authenticator :=
  match ep with EpSnapshot => au_snapshot a | EpPolicy => au_policy a | EpProbe => au_probe a end.

(** ** The handlers *)

Record HttpRequest := mkHttpRequest {
  hq_Method : string;
  hq_Path : string;
  hq_Authorization : string;
  hq_Policy : option PolicySnapshot;       (* the body as /policy decodes it *)
  hq_Probe : option ProbeRequest           (* the body as /probe decodes it *)
}.

Inductive HttpResponse :=
  | HError (code : Z)
  | HSnapshot (body : WireSnapshot)
  | HNoContent
  | HProbe (body : ProbeResult).

Definition httpCode (r : HttpResponse) : Z :=
  match r with HError c => c | HNoContent => 204 | _ => 200 end.

Definition statusCode (s : HTTPStatus) : Z :=
  match s with StatusNoContent => 204 | StatusBadRequest => 400 | StatusMethodNotAllowed => 405 end.

(** Time.MarshalJSON accepts the years 0 to 9999 (of times in UTC); a float must be finite. *)
Definition secondsPerDay : Z := 86400.
Definition minJSONTime : Time := - (366 * secondsPerDay * Second).
Definition endJSONTime : Time := 3652059 * secondsPerDay * Second.
Definition timeEncodes (t : Time) : bool := (minJSONTime <=? t) && (t <? endJSONTime).
Definition floatEncodes (f : f32) : bool := negb (is_nan f || is_inf f).

Definition rowEncodes (r : ReplicaSnapshot) : bool :=
  floatEncodes (rsn_HitRate r) && floatEncodes (rsn_Pressure r) && timeEncodes (rsn_LastUpdate r) && timeEncodes (rsn_LastEventAt r).

(** json.Encoder writes a value only when all of it encodes. *)
Definition snapshotEncodes (s : WireSnapshot) : bool :=
  forallb rowEncodes (ws_Replicas s) && forallb (λ t, floatEncodes (ts_HitRate t)) (ws_Tenants s).

(** What the handlers read besides the request: the enumeration of the stats map for /snapshot and
    what other callers do during a probe. *)
Record HandlerEnv := mkHandlerEnv { he_stats : list (statsKey * statEntry); he_probe : ProbeEnv }.

Definition snapshotHandler (method : string) (env : HandlerEnv) (s : Server) : HttpResponse :=
  if negb (str_eqb method "GET") then HError 405
  else
    let body := snapshotForControlPlane (takeSnapshot (serverConfig (sv_policies s)) (he_stats env) (sv_index s)) in
    if snapshotEncodes body then HSnapshot body else HError 500.

Section server.
Context (sha256 : string → string) (range : gmap string Time → list (string * Time)).

(** The handler behind an endpoint; the prober of New has no tier-2 client. *)
Definition endpointHandler (ep : Endpoint) (req : HttpRequest) (env : HandlerEnv) (s : Server) : HttpResponse * Server :=
  match ep with
  | EpSnapshot => (snapshotHandler (hq_Method req) env s, s)
  | EpPolicy =>
      let '(st, policies) := policyHandler (hq_Method req) (hq_Policy req) (sv_policies s) in
      (match st with StatusNoContent => HNoContent | _ => HError (statusCode st) end, mkServer policies (sv_index s))
  | EpProbe =>
      match probeHandler sha256 None (serverConfig (sv_policies s)) (hq_Method req) (hq_Probe req) (he_probe env) (sv_index s) with
      | inl st => (HError (statusCode st), s)
      | inr (result, i) => (HProbe result, mkServer (sv_policies s) i)
      end
  end.

(** ** Requests in flight *)

(** A handler that ran: for which endpoint, request and token, when, and what it answered. *)
Record Served := mkServed {
  sd_Endpoint : Endpoint;
  sd_Request : HttpRequest;
  sd_Token : string;
  sd_Time : Time;
  sd_Response : HttpResponse
}.

Record HttpSys := mkHttpSys {
  hy_server : Server;
  hy_auth : Endpoint → option AuthSys;             (* the middleware of the endpoint, when there is one *)
  hy_pending : gmap positive (Endpoint * HttpRequest);
  hy_served : list Served                          (* newest first *)
}.

Inductive HttpEvent :=
  | HttpArrive (id : positive) (req : HttpRequest) (now : Time) (env : HandlerEnv)
  | HttpReviewed (id : positive) (o : ReviewOutcome) (now : Time) (env : HandlerEnv)
  | Traffic (op : ServerOp).                       (* gRPC calls, sweeps and credits *)

Definition setAuth (ep : Endpoint) (a : AuthSys) (f : Endpoint → option AuthSys) : Endpoint → option AuthSys :=
  λ ep', if decide (ep' = ep) then Some a else f ep'.

(** [next.ServeHTTP]. *)
Definition serveNext (ep : Endpoint) (req : HttpRequest) (token : string) (now : Time) (env : HandlerEnv) (s : HttpSys) : HttpSys :=
  let '(resp, srv) := endpointHandler ep req env (hy_server s) in
  mkHttpSys srv (hy_auth s) (hy_pending s) (mkServed ep req token now resp :: hy_served s).

(** What the middleware answers at arrival and after the review, when it answers. *)
Definition arrivalOutcome (a : AuthSys) (header : string) (now : Time) : option Response :=
  match (mwBegin sha256 header now (as_auth a)).2 with inl r => Some r | inr _ => None end.
Definition reviewOutcome (a : AuthSys) (token : string) (o : ReviewOutcome) (now : Time) : Response :=
  (mwReview sha256 range token o now (as_auth a)).2.

Definition serveIf (r : option Response) ep req token now env (s : HttpSys) : HttpSys :=
  match r with Some ServedNext => serveNext ep req token now env s | _ => s end.

Definition arrive (id : positive) (req : HttpRequest) (now : Time) (env : HandlerEnv) (s : HttpSys) : HttpSys :=
  match route snapshotRoutes (hq_Method req) (hq_Path req) with
  | Found ep =>
      match hy_auth s ep with
      | None => serveNext ep req "" now env s
      | Some a =>
          let outcome := arrivalOutcome a (hq_Authorization req) now in
          let pending := match outcome with None => <[id := (ep, req)]> (hy_pending s) | Some _ => hy_pending s end in
          serveIf outcome ep req (default "" (extractBearer (hq_Authorization req))) now env
            (mkHttpSys (hy_server s) (setAuth ep (authStep sha256 range a (Arrive id (hq_Authorization req) now)) (hy_auth s))
               pending (hy_served s))
      end
  | _ => s
  end.

Definition reviewed (id : positive) (o : ReviewOutcome) (now : Time) (env : HandlerEnv) (s : HttpSys) : HttpSys :=
  match hy_pending s !! id with
  | None => s
  | Some (ep, req) =>
      match hy_auth s ep ≫= λ a, (λ spec, (a, spec)) <$> as_flight a !! id with
      | None => s
      | Some (a, spec) =>
          serveIf (Some (reviewOutcome a (tr_Token spec) o now)) ep req (tr_Token spec) now env
            (mkHttpSys (hy_server s) (setAuth ep (authStep sha256 range a (Reviewed id o now)) (hy_auth s))
               (delete id (hy_pending s)) (hy_served s))
      end
  end.

(** Calls that do not come through the controller-facing listener. *)
Definition isTraffic (op : ServerOp) : bool :=
  match op with SrvPolicy _ _ | SrvProbeIngest _ _ _ _ | SrvProbeCleanup _ _ _ => false | _ => true end.

(** A request id stands for one connection: an id in flight cannot arrive again. *)
Definition httpStep (s : HttpSys) (ev : HttpEvent) : HttpSys :=
  match ev with
  | HttpArrive id req now env => if bool_decide (is_Some (hy_pending s !! id)) then s else arrive id req now env s
  | HttpReviewed id o now env => reviewed id o now env s
  | Traffic op => if isTraffic op then mkHttpSys (serverStep (hy_server s) op) (hy_auth s) (hy_pending s) (hy_served s) else s
  end.

(** A fresh service. *)
Definition NewService {Tok : Type} (o : ServiceOptions Tok) : string + HttpSys :=
  match newAuthenticators o with
  | inl panic => inl panic
  | inr auths => inr (mkHttpSys NewServer (λ ep, (λ a, mkAuthSys (authenticatorOf a ep) ∅ [] []) <$> auths) ∅ [])
  end.

Definition httpRun (s : HttpSys) (evs : list HttpEvent) : HttpSys := foldl httpStep s evs.

(** The status line of a request that is not left waiting, as the client sees it. *)
Definition answer (review : TokenReviewSpec → ReviewOutcome) (req : HttpRequest) (now : Time) (env : HandlerEnv) (s : HttpSys) : HttpResponse :=
  match route snapshotRoutes (hq_Method req) (hq_Path req) with
  | NotFound => HError 404
  | Redirected => HError 301
  | Found ep =>
      match hy_auth s ep with
      | None => (endpointHandler ep req env (hy_server s)).1
      | Some a =>
          match (Middleware sha256 range review (hq_Authorization req) now now (as_auth a)).2 with
          | ServedNext => (endpointHandler ep req env (hy_server s)).1
          | HTTPError c => HError c
          end
      end
  end.
End server.

(** ** The public listener and the lifecycle *)

Inductive PublicEndpoint := EpHealthz | EpReadyz | EpMetrics.

Definition publicRoutes : list (string * PublicEndpoint) := [("/healthz", EpHealthz); ("/readyz", EpReadyz); ("/metrics", EpMetrics)].

(** The status of a public request; the scrape itself is the Prometheus library's. *)
Definition publicCode (ready : bool) (method path : string) : Z :=
  match route publicRoutes method path with
  | Found EpReadyz => if ready then 200 else 503
  | Found _ => 200
  | Redirected => 301
  | NotFound => 404
  end.

Inductive Listener := GRPCListener | HTTPListener | SnapshotListener.

(** ListenAndServe up to Serve: the listeners opened and closed, and the error. *)
Definition openListeners (listen : Listener → option string) : list Listener * list Listener * option string :=
  match listen GRPCListener with
  | Some err => ([], [], Some ("listen for grpc: " +:+ err))
  | None =>
      match listen HTTPListener with
      | Some err => ([GRPCListener], [GRPCListener], Some ("listen for http: " +:+ err))
      | None =>
          match listen SnapshotListener with
          | Some err => ([GRPCListener; HTTPListener], [GRPCListener; HTTPListener], Some ("listen for snapshot: " +:+ err))
          | None => ([GRPCListener; HTTPListener; SnapshotListener], [], None)
          end
      end
  end.

(** What Serve does, in order. *)
Inductive LifecycleStep :=
  | StartIndex | SetUp (v : Z) | Launch (l : Listener) | GracefulStop | ShutdownPublic | ShutdownSnapshot | CancelServe.

(** How the wait ends: the caller's context, or the first error of a listener. *)
Inductive ServeEnd := ContextDone | ListenerError (l : Listener) (err : string).

Definition listenerErrorText (l : Listener) (err : string) : string :=
  match l with
  | GRPCListener => "serve grpc: " +:+ err
  | HTTPListener => "serve http: " +:+ err
  | SnapshotListener => "serve snapshot http: " +:+ err
  end.

(** The deferred calls run last in, first out. *)
Definition Serve (e : ServeEnd) : list LifecycleStep * option string :=
  ([StartIndex; SetUp 1; Launch GRPCListener; Launch HTTPListener; Launch SnapshotListener;
    GracefulStop; ShutdownPublic; ShutdownSnapshot; SetUp 0; CancelServe],
   match e with ContextDone => None | ListenerError l err => Some (listenerErrorText l err) end).
