(* ===== verification/ReadinessGate.v ===== *)
(** * The readiness of a managed backend (controller/cachebackend_status.go,
      cachebackend_lmcache_mp_status.go)

    The pure verdicts: the rollout of the Deployment, the aggregation of the LMCache connector
    with the remote storage, the KV-event gate on top, and the Progressing condition derived from
    the result. *)

From S2P Require Import Prelude Ordering GoRuntime GoText GoNumbers K8s ControlPlane IndexPoller CoreV1.
From S2P Require Import BackendApi LiveObjects.

Definition conditionTypeReady : string := "Ready".
Definition conditionTypeProgressing : string := "Progressing".
Definition conditionTypeDegraded : string := "Degraded".
Definition conditionTypeT2Degraded : string := "T2Degraded".
Definition conditionTypeEngineCompatibility : string := "EngineCompatibility".
Definition conditionTypeFunctionalProbeOK : string := "FunctionalProbeOK".
Definition conditionTypeEngineKernelsHealthy : string := "EngineKernelsHealthy".
Definition conditionTypeConnectorReady : string := "ConnectorReady".
Definition conditionTypeRemoteStorageReady : string := "RemoteStorageReady".

Definition annotationRequireKVEvents : string := "inferencecache.io/require-kv-events".

Definition reasonAwaitingFirstKVEvent : string := "AwaitingFirstKVEvent".
Definition reasonKVEventsObserved : string := "KVEventsObserved".
Definition reasonNoKVEventsObserved : string := "NoKVEventsObserved".
Definition reasonNotDegraded : string := "NotDegraded".
Definition conditionReasonBackendReady : string := "BackendReady".
Definition conditionReasonScaledToZero : string := "ScaledToZero".
Definition conditionReasonRolloutInProgress : string := "RolloutInProgress".
Definition conditionReasonEventsOnlyActive : string := "EventsOnlyActive".
Definition conditionReasonHostOnlyActive : string := "HostOnlyActive".
Definition conditionReasonReplicasUnavailable : string := "ReplicasUnavailable".
Definition reasonConnectorReady : string := "ConnectorReady".
Definition reasonConnectorUnverified : string := "ConnectorInjectionUnverified".
Definition reasonRemoteStorageReady : string := "RemoteStorageReady".
Definition reasonRemoteStorageAbsent : string := "RemoteStorageNotConfigured".
Definition reasonRemoteStoragePending : string := "RemoteStoragePending".
Definition reasonRemoteStorageUnavailable : string := "RemoteStorageUnavailable".

(** A condition without its type: status, reason and message. *)
Abbreviation Verdict := (string * string * string)%type.

(** [minNonZero]: zero is "no requeue requested". *)
Definition minNonZero (a b : Duration) : Duration :=
  if a =? 0 then b else if b =? 0 then a else if a <? b then a else b.

Section gate.
Context `{QO : QuantityOps} `{CO : ConditionOps}.
Implicit Types (cb : CacheBackend) (st : CacheBackendStatus).

(** ** The Deployment *)

Definition desiredReplicas (dep : Deployment) : Z := default 1 (dp_Replicas dep).

Definition managedReadiness (dep : Deployment) : Verdict :=
  let want := desiredReplicas dep in
  if want =? 0 then (ConditionFalse, conditionReasonScaledToZero, "backend scaled to zero replicas")
  else
    let rolledOut := dp_Generation dep <=? dp_ObservedGeneration dep in
    let available := FormatInt (dp_AvailableReplicas dep) +:+ "/" +:+ FormatInt want +:+ " replicas available" in
    if rolledOut && (want <=? dp_UpdatedReplicas dep) && (want <=? dp_AvailableReplicas dep) then
      (ConditionTrue, conditionReasonBackendReady, available)
    else if negb rolledOut || (dp_UpdatedReplicas dep <? want) then
      (ConditionFalse, conditionReasonRolloutInProgress,
       FormatInt (dp_UpdatedReplicas dep) +:+ "/" +:+ FormatInt want +:+ " replicas updated")
    else (ConditionFalse, conditionReasonReplicasUnavailable, available).

Definition progressingFromReady (readyStatus reason message : string) : Verdict :=
  if str_eqb readyStatus ConditionTrue then (ConditionFalse, "Synced", "rendered children match desired state")
  else if str_eqb reason conditionReasonRolloutInProgress || str_eqb reason reasonAwaitingFirstKVEvent then
    (ConditionTrue, reason, message)
  else if str_eqb reason conditionReasonReplicasUnavailable then (ConditionFalse, "Degraded", message)
  else (ConditionFalse, reason, message).

(** ** The typed LMCache connector *)

Definition isTypedLMCache (topology : string) cb : bool :=
  str_eqb (EffectiveCacheType (cb_Spec cb)) CacheBackendTypeLMCache &&
  match bs_LMCache (cb_Spec cb) with Some l => str_eqb (lm_Topology l) topology | None => false end.

Definition isTypedLMCachePodLocal cb : bool := isTypedLMCache LMCacheTopologyPodLocal cb.
Definition isTypedLMCacheNodeLocal cb : bool := isTypedLMCache LMCacheTopologyNodeLocal cb.
Definition isTypedLMCacheMP cb : bool := isTypedLMCachePodLocal cb || isTypedLMCacheNodeLocal cb.

Definition lmCacheMPReadyBase cb st (remoteStatus remoteReason remoteMessage : string) : Verdict :=
  if negb (isTypedLMCacheMP cb) then (remoteStatus, remoteReason, remoteMessage)
  else
    let unverified :=
      (ConditionUnknown, reasonConnectorUnverified,
       "connector health for the current CacheBackend generation has not been observed yet") in
    match find st conditionTypeConnectorReady with
    | None => unverified
    | Some connector =>
        if negb (cd_ObservedGeneration connector =? cb_Generation cb) then unverified
        else if negb (str_eqb (cd_Status connector) ConditionTrue) then
          (cd_Status connector, cd_Reason connector, cd_Message connector)
        else
          let storage := bool_decide (is_Some (EffectiveRemoteStorage (cb_Spec cb))) in
          let remoteDown := negb (str_eqb remoteStatus ConditionTrue) in
          if storage && negb (IntegrationFailOpen (bs_Integration (cb_Spec cb))) && remoteDown then
            (remoteStatus, remoteReason, remoteMessage)
          else if storage && remoteDown then
            (ConditionTrue, reasonConnectorReady,
             "the LMCache MP connector is ready; remote storage is degraded but does not gate Ready while failOpen is true")
          else (ConditionTrue, reasonConnectorReady, cd_Message connector)
    end.

Definition setRemoteStorageStatus cb (now : Time) (endpoint ready reason message : string) (observedGeneration : Z) st :
    CacheBackendStatus :=
  match (if isTypedLMCacheMP cb then EffectiveRemoteStorage (cb_Spec cb) else None) with
  | None => removeCond conditionTypeRemoteStorageReady (set_RemoteStorage None st)
  | Some storage =>
      setCond now conditionTypeRemoteStorageReady ready reason message observedGeneration
        (set_RemoteStorage (Some (mkRemoteStatus (rs_Provider storage) endpoint ready)) st)
  end.

(** ** The KV-event gate *)

Record kvReadiness := mkKV {
  readyStatus : string;
  readyReason : string;
  readyMessage : string;
  degradedStatus : string;
  degradedReason : string;
  degradedMessage : string;
  requeueAfter : Duration
}.

Definition kvEventGateEnabled cb : bool :=
  negb (str_eqb (strGet (cb_Annotations cb) annotationRequireKVEvents) "false").

Definition currentLastEventAt st : option Time := ip ← st_IndexParticipation st; ip_LastEventAt ip.

Definition lastKVEventSeen st : bool :=
  bool_decide (is_Some (st_FirstKVEventObservedAt st)) || bool_decide (is_Some (currentLastEventAt st)).

Definition firstEventTimeout cb : Duration :=
  match EffectiveFirstEventTimeout (cb_Spec cb) with
  | Some timeout => if 0 <? timeout then timeout else defaultFirstEventTimeout
  | None => defaultFirstEventTimeout
  end.

Definition readyConditionReason st : string :=
  match find st conditionTypeReady with Some c => cd_Reason c | None => "" end.

Definition notDegraded (status reason message : string) (requeue : Duration) : kvReadiness :=
  mkKV status reason message ConditionFalse reasonNotDegraded "backend is not in a degraded state" requeue.

(** Where the window starts, in words. *)
Definition awaitingMessage cb (timeout : string) : string :=
  (if IsEventsOnly (cb_Spec cb) then "events-only backend is wired" else "cache-backend workload is Available") +:+
  " but no KV events observed yet; waiting up to " +:+ timeout +:+ " for the engine to report state".

Definition noEventsMessage cb (timeout : string) : string :=
  "no KV events observed within " +:+ timeout +:+ " of " +:+
  (if IsEventsOnly (cb_Spec cb) then "the events-only backend being wired" else "the workload becoming Available") +:+
  "; check that engine pods are attached and their --kv-events-config / ZMQ publisher is healthy".

Definition noEventsDegradedMessage cb (timeout : string) : string :=
  "no KV events observed within " +:+ timeout +:+ " of " +:+
  (if IsEventsOnly (cb_Spec cb) then "the events-only backend being wired"
   else "the cache-backend workload becoming Available").

Definition evaluateKVEventReadiness cb st (status reason message : string) (anchor now : Time) (freshWindow : bool) :
    kvReadiness :=
  let base :=
    if str_eqb status ConditionFalse && str_eqb reason conditionReasonReplicasUnavailable then
      mkKV status reason message ConditionTrue reason message 0
    else notDegraded status reason message 0 in
  if negb (kvEventGateEnabled cb) || negb (str_eqb status ConditionTrue) then base
  else if lastKVEventSeen st then
    notDegraded ConditionTrue reasonKVEventsObserved
      "at least one KV event observed; cache is receiving engine state" 0
  else if negb freshWindow && str_eqb (readyConditionReason st) reasonNoKVEventsObserved then
    mkKV ConditionFalse reasonNoKVEventsObserved
      "no KV events observed before the first-event timeout; staying Degraded until an event arrives"
      ConditionTrue reasonNoKVEventsObserved "no KV events observed before the first-event timeout" 0
  else
    let timeout := firstEventTimeout cb in
    let text := durationString timeout in
    let anchor := if time_is_zero anchor then now else anchor in
    let elapsed := time_sub now anchor in
    if elapsed <? timeout then
      notDegraded ConditionFalse reasonAwaitingFirstKVEvent (awaitingMessage cb text) (wrap64 (timeout - elapsed))
    else
      mkKV ConditionFalse reasonNoKVEventsObserved (noEventsMessage cb text)
        ConditionTrue reasonNoKVEventsObserved (noEventsDegradedMessage cb text) 0.
End gate.

(** ** Facts *)

Section facts.
Context `{QO : QuantityOps} `{CO : ConditionOps}.
Implicit Types (cb : CacheBackend) (st : CacheBackendStatus).

Lemma minNonZero_le a b : 0 < a → 0 ≤ b → 0 < minNonZero a b ≤ a.
Proof. intros. unfold minNonZero. destruct (a =? 0) eqn:?, (b =? 0) eqn:?, (a <? b) eqn:?; lia. Qed.

Lemma minNonZero_comm a b : 0 ≤ a → 0 ≤ b → minNonZero a b = minNonZero b a.
Proof. intros. unfold minNonZero. destruct (a =? 0) eqn:?, (b =? 0) eqn:?, (a <? b) eqn:?, (b <? a) eqn:?; lia. Qed.

Lemma firstEventTimeout_pos cb : 0 < firstEventTimeout cb.
Proof. unfold firstEventTimeout. destruct (EffectiveFirstEventTimeout _) as [t|]; [|done]. by destruct (0 <? t) eqn:E; [apply Z.ltb_lt|]. Qed.

(** The Deployment is Ready exactly when its current generation is rolled out and enough replicas
    are updated and available. *)
Lemma managedReadiness_true dep :
  (managedReadiness dep).1.1 = ConditionTrue ↔
  desiredReplicas dep ≠ 0 ∧ dp_Generation dep ≤ dp_ObservedGeneration dep ∧
  desiredReplicas dep ≤ dp_UpdatedReplicas dep ∧ desiredReplicas dep ≤ dp_AvailableReplicas dep.
Proof.
  unfold managedReadiness.
  destruct (desiredReplicas dep =? 0) eqn:E0; [split; [done|lia]|].
  destruct (_ && _ && _) eqn:E1; [split; [lia|done]|].
  split; [|lia]. destruct (_ || _); done.
Qed.

(** The gate passes exactly when what is below it is Ready and, unless opted out, an event was seen. *)
Lemma gate_ready cb st status reason message anchor now fresh :
  readyStatus (evaluateKVEventReadiness cb st status reason message anchor now fresh) = ConditionTrue ↔
  status = ConditionTrue ∧ (kvEventGateEnabled cb = true → lastKVEventSeen st = true).
Proof.
  unfold evaluateKVEventReadiness.
  destruct (kvEventGateEnabled cb); simpl; last first.
  { destruct (_ && _); simpl; intuition done. }
  destruct (str_eqb status ConditionTrue) eqn:Es; simpl; last first.
  { apply str_eqb_neq in Es. destruct (_ && _); simpl; intuition done. }
  apply str_eqb_eq in Es. destruct (lastKVEventSeen st); simpl; [intuition done|].
  destruct (_ && _); simpl; [intuition done|].
  destruct (_ <? _); simpl; intuition done.
Qed.
End facts.
