(* ===== verification/ProbeGate.v ===== *)
(** * The functional-probe gate (controller/cachebackend_probe.go, probe_client.go)

    The client of the server's /probe endpoint, the rate limiter, and the verdict the probe adds to
    the readiness of a backend.  The file system and the HTTP exchange are inputs of a call.  A
    stage outcome is the string on the wire: a newer server may send one this controller does not
    know. *)

From S2P Require Import Prelude Ordering GoRuntime GoText GoNumbers K8s IndexTypes IndexLookup Policy Service.
From S2P Require Import Probe ControlPlane IndexPoller CoreV1 BackendApi LiveObjects ReadinessGate.

(** ** The wire types (controlplaneapi/probe.go) *)

Definition stageOK : string := "ok".
Definition stageFailed : string := "failed".
Definition stageSkipped : string := "skipped".
Definition ProbeStageIngest : string := "ingest".
Definition ProbeStageRouting : string := "routing".
Definition ProbeStageT2 : string := "t2".

(** controlplaneapi.ProbeResult as decoded; an error is its stage and message. *)
Record WireProbeResult := mkWireProbe {
  wp_Backend : string;
  wp_Ingest : string;
  wp_Routing : string;
  wp_T2 : string;
  wp_Errors : list (string * string)
}.

Definition wireStagePassed (stage : string) : bool := str_eqb stage stageOK || str_eqb stage stageSkipped.

Definition wireAllPassed (r : WireProbeResult) : bool :=
  wireStagePassed (wp_Ingest r) && wireStagePassed (wp_Routing r) && wireStagePassed (wp_T2 r).

(** ** The client *)

Record ProbeClient := mkProbeClient { pcl_ProbeURL : string; pcl_BearerTokenPath : string }.

(** What the exchange comes to; [decoded] is the result of the JSON decoder on the body. *)
Inductive ProbeAnswer :=
  | DoErr (err : string)
  | Answered (code : Z) (body : string) (decoded : string + WireProbeResult).

Record ProbeIO := mkProbeIO {
  io_newRequest : string → goError;             (* http.NewRequestWithContext on the URL *)
  io_readFile : string → FileRead;
  io_readError : string;                        (* the error of a failed read *)
  io_do : HTTPRequest ProbeRequest → ProbeAnswer
}.

Inductive ProbeError :=
  | ErrProbeClientDisabled
  | ErrProbe (msg : string).

Definition probeFixedModel : string := "functional-self-test".
Definition DefaultProbeRateLimit : Duration := 30 * Second.
Definition annotationSkipFunctionalProbe : string := "inferencecache.io/skip-functional-probe".
Definition reasonProbeOK : string := "ProbeOK".
Definition reasonProbeIngestFailed : string := "ProbeIngestFailed".
Definition reasonProbeRoutingFailed : string := "ProbeRoutingFailed".
Definition reasonProbeT2Failed : string := "ProbeT2Failed".
Definition reasonProbeBypassed : string := "ProbeBypassed".
Definition reasonProbeError : string := "ProbeError".

(** The last recorded call per backend. *)
Abbreviation probeRateLimiter := (gmap string Time).

Section probe.
Context `{QO : QuantityOps} `{CO : ConditionOps}.
(** [%q] of fmt. *)
Variable quote : string → string.

Definition tokenPath (c : ProbeClient) : string :=
  if str_eqb (pcl_BearerTokenPath c) "" then DefaultBearerTokenPath else pcl_BearerTokenPath c.

Definition checkProbeAnswer (url : string) (req : ProbeRequest) (answer : ProbeAnswer) : ProbeError + WireProbeResult :=
  match answer with
  | DoErr err => inl (ErrProbe ("probe client: POST " +:+ url +:+ ": " +:+ err))
  | Answered code body decoded =>
      if negb (Z.quot code 100 =? 2) then
        inl (ErrProbe ("probe client: " +:+ url +:+ ": unexpected status " +:+ FormatInt code +:+ ": " +:+
                       TrimSpace (String.substring 0 1024 body)))
      else
        match decoded with
        | inl err => inl (ErrProbe ("probe client: decode response: " +:+ err))
        | inr result =>
            if negb (str_eqb (wp_Backend result) (pq_Backend req)) then
              inl (ErrProbe ("probe client: backend mismatch — requested " +:+ quote (pq_Backend req) +:+
                             ", server returned " +:+ quote (wp_Backend result)))
            else inr result
        end
  end.

Definition RunProbe (c : option ProbeClient) (io : ProbeIO) (req : ProbeRequest) : ProbeError + WireProbeResult :=
  match c with
  | None => inl ErrProbeClientDisabled
  | Some c =>
      let url := pcl_ProbeURL c in
      if str_eqb url "" then inl ErrProbeClientDisabled
      else
        match io_newRequest io url with
        | Some err => inl (ErrProbe ("probe client: build request: " +:+ err))
        | None =>
            match bearerToken (io_readFile io) (pcl_BearerTokenPath c) DefaultBearerTokenPath with
            | (_, true) =>
                inl (ErrProbe ("probe client: bearer token: read bearer token " +:+ quote (tokenPath c) +:+ ": " +:+
                               io_readError io))
            | (token, false) =>
                checkProbeAnswer url req (io_do io (mkHTTPRequest "POST" url (bearerHeader token) req))
            end
        end
  end.

(** ** The rate limiter *)

Definition lastCalled (p : probeRateLimiter) (key : string) : Time := default time_zero (p !! key).

Definition allow (p : probeRateLimiter) (key : string) (now : Time) (rateLimit : Duration) : bool :=
  let prev := lastCalled p key in
  if time_is_zero prev then true else rateLimit <=? time_sub now prev.

Definition markCalled (p : probeRateLimiter) (key : string) (now : Time) : probeRateLimiter := <[key := now]> p.
Definition forget (p : probeRateLimiter) (key : string) : probeRateLimiter := delete key p.

(** ** The verdict *)

(** [commitMark] is the closure that records the call, run after the status is written. *)
Record functionalProbeVerdict := mkProbeVerdict {
  fv_shouldWriteCondition : bool;
  fv_condition : Verdict;
  fv_removeCondition : bool;
  fv_downgradeReady : bool;
  fv_readyReason : string;
  fv_readyMessage : string;
  fv_requeueAfter : Duration;
  fv_commitMark : option (string * Time)
}.

Definition noVerdict : functionalProbeVerdict :=
  mkProbeVerdict false (EmptyString, EmptyString, EmptyString) false false "" "" 0 None.

Definition writeVerdict (v : Verdict) (requeue : Duration) (mark : option (string * Time)) : functionalProbeVerdict :=
  mkProbeVerdict true v false false "" "" requeue mark.

Definition truncateMessage (s : string) : string :=
  if Z.of_nat (String.length s) <=? 512 then s else String.substring 0 509 s +:+ "...".

Definition requeueUntilNextProbe (lastAt : Time) (rateLimit : Duration) (now : Time) : Duration :=
  if time_is_zero lastAt then rateLimit
  else
    let remaining := wrap64 (rateLimit - time_sub now lastAt) in
    if remaining <=? 0 then Second else remaining.

Definition errorMessageForStage (result : WireProbeResult) (stage fallback : string) : string :=
  match List.find (λ e : string * string, str_eqb e.1 stage && negb (str_eqb (TrimSpace e.2) "")) (wp_Errors result) with
  | Some e => truncateMessage e.2
  | None => fallback
  end.

Definition stageReasonAndMessage (result : WireProbeResult) : string * string :=
  if str_eqb (wp_Ingest result) stageFailed then
    (reasonProbeIngestFailed, errorMessageForStage result ProbeStageIngest "in-process index ingest path is broken")
  else if str_eqb (wp_Routing result) stageFailed then
    (reasonProbeRoutingFailed, errorMessageForStage result ProbeStageRouting "index routing/key-derivation regression")
  else if str_eqb (wp_T2 result) stageFailed then
    (reasonProbeT2Failed, errorMessageForStage result ProbeStageT2 "tier-2 put/get cycle failed")
  else
    (reasonProbeError,
     "probe returned an unrecognized stage outcome (ingest=" +:+ quote (wp_Ingest result) +:+ " routing=" +:+
     quote (wp_Routing result) +:+ " t2=" +:+ quote (wp_T2 result) +:+
     "); upgrade the controller if a newer server has added stages").

(** The increments of the result counter: backend, stage, outcome. *)
Definition recordProbeResult (backendKey : string) (result : WireProbeResult) : list (string * string * string) :=
  (λ s : string * string,
     (backendKey, s.1, if bool_decide (s.2 ∈ [stageOK; stageSkipped; stageFailed]) then s.2 else stageFailed)) <$>
  [(ProbeStageIngest, wp_Ingest result); (ProbeStageRouting, wp_Routing result); (ProbeStageT2, wp_T2 result)].

Definition isProbeBypassed (cb : CacheBackend) : bool :=
  str_eqb (strGet (cb_Annotations cb) annotationSkipFunctionalProbe) "true".

Definition probeHashSchemeForBackend (cb : CacheBackend) : string :=
  if str_eqb (bs_Runtime (cb_Spec cb)) "" then "vllm" else ToLower (bs_Runtime (cb_Spec cb)).

(** The key of a backend, also [client.ObjectKeyFromObject(backend).String()]. *)
Definition backendKey (cb : CacheBackend) : string := cb_Namespace cb +:+ "/" +:+ cb_Name cb.

Definition probeRequestFor (cb : CacheBackend) : ProbeRequest :=
  mkProbeRequest (backendKey cb) probeFixedModel (probeHashSchemeForBackend cb) (bs_Type (cb_Spec cb)).

(** An existing FunctionalProbeOK=False keeps Ready down. *)
Definition inheritDowngrade (st : CacheBackendStatus) (requeue : Duration) : option functionalProbeVerdict :=
  existing ← find st conditionTypeFunctionalProbeOK;
  if str_eqb (cd_Status existing) ConditionFalse then
    Some (mkProbeVerdict false (EmptyString, EmptyString, EmptyString) false true (cd_Reason existing) (cd_Message existing)
            requeue None)
  else None.

Definition evaluateFunctionalProbe (cb : CacheBackend) (st : CacheBackendStatus) (upstream : kvReadiness)
    (probe : option ProbeClient) (io : ProbeIO) (limiter : probeRateLimiter) (rateLimit : Duration) (now : Time) :
    functionalProbeVerdict * list (string * string * string) :=
  let disabled := match probe with None => true | Some c => str_eqb (pcl_ProbeURL c) "" end in
  let key := backendKey cb in
  if disabled then
    (if bool_decide (is_Some (find st conditionTypeFunctionalProbeOK)) then
       mkProbeVerdict false (EmptyString, EmptyString, EmptyString) true false "" "" 0 None
     else noVerdict, [])
  else if negb (str_eqb (readyStatus upstream) ConditionTrue) then (noVerdict, [])
  else if isProbeBypassed cb then
    (writeVerdict (ConditionTrue, reasonProbeBypassed,
       "functional probe bypassed via " +:+ annotationSkipFunctionalProbe +:+ ": " +:+ dq +:+ "true" +:+ dq) 0 None, [])
  else if negb (allow limiter key now rateLimit) then
    let requeue := requeueUntilNextProbe (lastCalled limiter key) rateLimit now in
    (default (mkProbeVerdict false (EmptyString, EmptyString, EmptyString) false false "" "" requeue None)
       (inheritDowngrade st requeue), [])
  else
    match RunProbe probe io (probeRequestFor cb) with
    | inl ErrProbeClientDisabled => (noVerdict, [])
    | inl (ErrProbe msg) =>
        (default (writeVerdict (ConditionUnknown, reasonProbeError, "probe call failed: " +:+ truncateMessage msg) rateLimit None)
           (inheritDowngrade st rateLimit), [])
    | inr result =>
        let metrics := recordProbeResult key result in
        if wireAllPassed result then
          (writeVerdict (ConditionTrue, reasonProbeOK, "functional probe round-trip succeeded across all enabled stages")
             rateLimit (Some (key, now)), metrics)
        else
          let '(reason, message) := stageReasonAndMessage result in
          (mkProbeVerdict true (ConditionFalse, reason, message) false true reason message rateLimit (Some (key, now)), metrics)
    end.

Definition downgradeReadyVerdict (upstream : kvReadiness) (v : functionalProbeVerdict) : kvReadiness :=
  if negb (fv_downgradeReady v) then upstream
  else mkKV ConditionFalse (fv_readyReason v) ("functional probe failed: " +:+ fv_readyMessage v)
         (degradedStatus upstream) (degradedReason upstream) (degradedMessage upstream) (requeueAfter upstream).
End probe.
