(* ===== verification/EngineHealth.v ===== *)
(** * Observing the engine pods of a backend (controller/cachebackend_kernelcheck.go,
      cachebackend_engine_compat.go, cachebackend_lmcache_mp_status.go, cachebackend_status.go)

    The kernel-check verdict, the crash-loop diagnosis, the count of selected pods and the status
    of the LMCache connector.  The answer to each List is an input; a listed pod is in the
    namespace and matches the selector.  Counters are int32. *)

From S2P Require Import Prelude Ordering GoRuntime GoText GoNumbers K8s ControlPlane IndexPoller CoreV1.
From S2P Require Import BackendApi Adapters Renderer EngineWire LiveObjects ReadinessGate ProbeGate.

Definition KernelCheckMsgOK : string := "OK".
Definition KernelCheckMsgFailPrefix : string := "FAIL:".
Definition reasonKernelsHealthy : string := "KernelsHealthy".
Definition reasonKernelLoadFailed : string := "KernelLoadFailed".
Definition reasonKernelCheckError : string := "KernelCheckError".
Definition reasonKernelCheckPending : string := "KernelCheckPending".
Definition reasonEngineKernelDegraded : string := "EngineKernelDegraded".
Definition reasonInjectedEngineCrashLooping : string := "InjectedEngineCrashLooping".
Definition crashLoopBackOffReason : string := "CrashLoopBackOff".

Section health.
Context `{QO : QuantityOps} `{CO : ConditionOps}.
(** [%q] of fmt. *)
Variable quote : string → string.
Implicit Types (cb : CacheBackend) (st : CacheBackendStatus) (pod : LivePod) (pods : list LivePod).

(** The webhook's stamp of this backend: name and UID. *)
Definition injectedBy cb pod : bool :=
  str_eqb (lpAnnotation pod AnnotationInjectedBy) (backendKey cb) &&
  negb (str_eqb (cb_UID cb) "") && str_eqb (lpAnnotation pod AnnotationInjectedByUID) (cb_UID cb).

(** ** The kernel check *)

Definition kernelCheckInSpec pod : bool :=
  existsb (λ c, str_eqb (cn_Name c) LMCacheKernelCheckContainerName) (psp_InitContainers (p_Spec (lp_Pod pod))).

Definition kernelCheckAdmittedStrict pod : bool :=
  existsb (λ c, str_eqb (cn_Name c) LMCacheKernelCheckContainerName &&
                existsb (λ e, str_eqb (ev_Name e) EnvKernelCheckStrict && str_eqb (ev_Value e) "1") (cn_Env c))
    (psp_InitContainers (p_Spec (lp_Pod pod))).

Definition findKernelCheckStatus pod : option ContainerStatus :=
  List.find (λ s, str_eqb (cst_Name s) LMCacheKernelCheckContainerName) (lp_InitContainerStatuses pod).

Definition kernelTermination pod : option ContainerStateTerminated :=
  s ← findKernelCheckStatus pod;
  match cst_Terminated s with Some t => Some t | None => cst_LastTerminated s end.

(** The classification of one pod that carries the check. *)
Inductive KernelOutcome :=
  | KernelPending
  | KernelFailed (msg : string)
  | KernelOK
  | KernelIndeterminate (detail : string).

Definition kernelErrDetail (t : ContainerStateTerminated) (msg : string) : string :=
  "exit " +:+ FormatInt (te_ExitCode t) +:+ (if str_eqb (te_Reason t) "" then "" else " " +:+ te_Reason t) +:+
  (if str_eqb msg "" then "" else ": " +:+ msg).

Definition kernelOutcome pod : KernelOutcome :=
  match kernelTermination pod with
  | None => KernelPending
  | Some term =>
      let msg := TrimSpace (te_Message term) in
      if HasPrefix msg KernelCheckMsgFailPrefix then KernelFailed msg
      else if str_eqb msg KernelCheckMsgOK && (te_ExitCode term =? 0) then KernelOK
      else KernelIndeterminate (kernelErrDetail term msg)
  end.

Record KernelTally := mkTally {
  kt_seen : bool;
  kt_failMsg : string;
  kt_errDetail : string;
  kt_nFail : Z;
  kt_nErr : Z;
  kt_nPending : Z;
  kt_nOK : Z;
  kt_strictFail : bool
}.

Definition kernelStep (t : KernelTally) pod : KernelTally :=
  if negb (kernelCheckInSpec pod) then t
  else
    match kernelOutcome pod with
    | KernelPending =>
        mkTally true (kt_failMsg t) (kt_errDetail t) (kt_nFail t) (kt_nErr t) (kt_nPending t + 1) (kt_nOK t) (kt_strictFail t)
    | KernelFailed msg =>
        mkTally true (if str_eqb (kt_failMsg t) "" then msg else kt_failMsg t) (kt_errDetail t) (kt_nFail t + 1) (kt_nErr t)
          (kt_nPending t) (kt_nOK t) (kt_strictFail t || kernelCheckAdmittedStrict pod)
    | KernelOK =>
        mkTally true (kt_failMsg t) (kt_errDetail t) (kt_nFail t) (kt_nErr t) (kt_nPending t) (kt_nOK t + 1) (kt_strictFail t)
    | KernelIndeterminate detail =>
        mkTally true (kt_failMsg t) (if str_eqb (kt_errDetail t) "" then detail else kt_errDetail t) (kt_nFail t)
          (kt_nErr t + 1) (kt_nPending t) (kt_nOK t) (kt_strictFail t)
    end.

Definition kernelTally pods : KernelTally := foldl kernelStep (mkTally false "" "" 0 0 0 0 false) pods.

(** The condition (without type), whether the gate is active, and whether a strict pod failed. *)
Definition aggregateKernelHealth pods : option (Verdict * bool) :=
  let t := kernelTally pods in
  if negb (kt_seen t) then None
  else
    let mk status reason message := Some ((status, reason, truncateMessage message), kt_strictFail t) in
    if 0 <? kt_nFail t then
      mk ConditionFalse reasonKernelLoadFailed
        ("native vLLM/LMCache CUDA extensions failed to load on " +:+ FormatInt (kt_nFail t) +:+ " engine pod(s): " +:+ kt_failMsg t)
    else if 0 <? kt_nErr t then
      mk ConditionUnknown reasonKernelCheckError
        ("kernel-check init container on " +:+ FormatInt (kt_nErr t) +:+
         " engine pod(s) terminated without a recognized result message (" +:+ kt_errDetail t +:+ ")")
    else if 0 <? kt_nPending t then
      mk ConditionUnknown reasonKernelCheckPending
        ("kernel-check init container has not completed on " +:+ FormatInt (kt_nPending t) +:+ " engine pod(s)")
    else
      mk ConditionTrue reasonKernelsHealthy
        ("native vLLM/LMCache CUDA extensions loaded on " +:+ FormatInt (kt_nOK t) +:+ " engine pod(s)").

Record kernelHealthVerdict := mkKernelVerdict {
  kv_shouldWriteCondition : bool;
  kv_condition : Verdict;
  kv_removeCondition : bool;
  kv_downgradeReady : bool;
  kv_readyReason : string;
  kv_readyMessage : string
}.

Definition noKernelVerdict : kernelHealthVerdict :=
  mkKernelVerdict false (EmptyString, EmptyString, EmptyString) false false "" "".

Definition kernelDegradedMessage : string :=
  "vLLM/LMCache CUDA extensions failed to load on one or more engine pods; in strict mode those pods stay in Init holding their GPU reservation without serving — fix the engine image's vLLM/LMCache/CUDA alignment or set " +:+
  AnnotationLMCacheKernelCheck +:+ "=report-only".

Definition evaluateEngineKernelHealth st pods (listedOK : bool) : kernelHealthVerdict :=
  if negb listedOK then noKernelVerdict
  else
    match aggregateKernelHealth pods with
    | None =>
        if bool_decide (is_Some (find st conditionTypeEngineKernelsHealthy)) then
          mkKernelVerdict false (EmptyString, EmptyString, EmptyString) true false "" ""
        else noKernelVerdict
    | Some (cond, strictFail) =>
        if str_eqb cond.1.1 ConditionFalse && strictFail then
          mkKernelVerdict true cond false true reasonEngineKernelDegraded kernelDegradedMessage
        else mkKernelVerdict true cond false false "" ""
    end.

Definition downgradeKernelReadyVerdict (upstream : kvReadiness) (v : kernelHealthVerdict) : kvReadiness :=
  if negb (kv_downgradeReady v) then upstream
  else mkKV ConditionFalse (kv_readyReason v) (kv_readyMessage v) (degradedStatus upstream) (degradedReason upstream)
         (degradedMessage upstream) (requeueAfter upstream).

(** The pods this backend wired among the selected ones; [None] when they could not be listed. *)
Definition listMatchedEnginePods cb (answer : ListResult LivePod) : option (list LivePod) :=
  if bool_decide (matchLabels cb = ∅) then Some []
  else pods ← listIn answer (cb_Namespace cb) (matchLabels cb); Some (List.filter (injectedBy cb) pods).

(** ** The crash loop of an injected engine *)

Definition engineContainerStatus pod (engineContainerName : string) : option ContainerStatus :=
  if str_eqb engineContainerName "" then None
  else
    match List.find (λ s, str_eqb (cst_Name s) engineContainerName) (lp_ContainerStatuses pod) with
    | Some s => Some s
    | None =>
        match List.filter (λ s, negb (str_eqb (cst_Name s) SubscriberContainerName)) (lp_ContainerStatuses pod) with
        | [engine] => Some engine
        | _ => None
        end
    end.

Definition engineContainerName cb (registry : option (list KVCacheRuntimeAdapter)) : string :=
  match registry with
  | None => ""
  | Some r =>
      match Select quote r (ResolveRuntimeID cb) cb with
      | inr adapter => ad_EngineContainerName adapter
      | inl _ => ""
      end
  end.

Definition crashLoopMessage (container podName : string) : string :=
  "container " +:+ quote container +:+ " in engine pod " +:+ quote podName +:+
  " is in CrashLoopBackOff after the cache plane injected a KV connector. A structural engine↔connector incompatibility is a common cause — hybrid-attention models (Qwen3.6/Next gated-DeltaNet, Mamba/Jamba, KDA, Falcon-H, Granite-hybrid, …) disable vLLM's hybrid KV-cache manager the moment a KV connector loads (KV-spec unification fails at init) — but a crash-loop can also be a bad image, command, missing dependency/secret, or OOM, so check the engine logs to confirm. If it is the connector, remove it — note the inferencecache.io/skip-inject annotation opts the pod out of cache wiring entirely (the kvevent-subscriber included), so on its own it stops routing too and is not a routing-preserving workaround.".

Definition crashLooping cb (container : string) pod : option ContainerStatus :=
  if negb (injectedBy cb pod) then None
  else
    cs ← engineContainerStatus pod container;
    if bool_decide (cst_WaitingReason cs = Some crashLoopBackOffReason) then Some cs else None.

(** The diagnosis ("" when there is none), or [None] when the pods could not be listed. *)
Definition detectEngineConnectorCrashLoop cb (registry : option (list KVCacheRuntimeAdapter)) (answer : ListResult LivePod) :
    option string :=
  pods ← listIn answer (cb_Namespace cb) ∅;
  let container := engineContainerName cb registry in
  Some (default "" (head (omap (λ p, cs ← crashLooping cb container p; Some (crashLoopMessage (cst_Name cs) (p_Name (lp_Pod p)))) pods))).

(** ** The selected pods *)

Definition formatMatchLabels (m : gmap string string) : string :=
  String.concat "," ((λ k, k +:+ ":" +:+ strGet m k) <$> go_sort str_lt (map_to_list m).*1).

Definition engineSelectorUnmatchedMessage (m : gmap string string) : string :=
  "spec.engineSelector.matchLabels={" +:+ formatMatchLabels m +:+ "}; no Pods in namespace match".

Definition nonTerminalPodCount pods : Z := wrap32 (Z.of_nat (length (List.filter (λ p, negb (terminalPhase p)) pods))).

(** The desired replicas of the Deployments whose template the selector matches; [None] when they
    could not be listed, [Some None] when there is none. *)
Definition desiredEngineReplicas (matcher : gmap string string) (answer : ListResult Deployment) : option (option Z) :=
  match answer with
  | ListOK deps =>
      let matching := List.filter (λ d, selectorMatches matcher (dp_TemplateLabels d)) deps in
      Some (if bool_decide (matching = []) then None
            else Some (sum_int32 ((λ d, default 1 (dp_Replicas d)) <$> matching)))
  | _ => None
  end.

(** An event recorded on the backend: type, reason, message. *)
Record Event := mkEvent { evt_Type : string; evt_Reason : string; evt_Message : string }.

Definition EventTypeNormal : string := "Normal".
Definition EventTypeWarning : string := "Warning".
Definition eventReasonEngineSelectorUnmatched : string := "EngineSelectorUnmatched".

(** The new count and message, whether they are reliable, and whether pods are churning; [None]
    when the tick is skipped. *)
Definition matchedObservation cb st (podAnswer : ListResult LivePod) (depAnswer : ListResult Deployment) :
    option (option Z * string * bool * bool) :=
  let sel := matchLabels cb in
  if bool_decide (sel = ∅) then Some (None, EmptyString, true, false)
  else
    pods ← listIn podAnswer (cb_Namespace cb) sel;
    let count := wrap32 (Z.of_nat (length pods)) in
    let desired := desiredEngineReplicas sel depAnswer in
    let churn := match desired with Some (Some d) => negb (d =? nonTerminalPodCount pods) | _ => false end in
    let message :=
      if 0 <? count then ""
      else match desired with
           | None => st_EngineSelectorMessage st
           | Some None => engineSelectorUnmatchedMessage sel
           | Some (Some d) => if 0 <? d then engineSelectorUnmatchedMessage sel else ""
           end in
    Some (Some count, message, bool_decide (is_Some desired), churn).

(** The new status, the events, and whether the pods are churning. *)
Definition refreshMatchedEnginePods cb (recorder : bool) (podAnswer : ListResult LivePod) (depAnswer : ListResult Deployment)
    (patchOK : bool) st : CacheBackendStatus * list Event * bool :=
  match matchedObservation cb st podAnswer depAnswer with
  | None => (st, [], false)
  | Some (count, message, reliable, churn) =>
      if bool_decide (st_MatchedEnginePods st = count) && str_eqb (st_EngineSelectorMessage st) message then (st, [], churn)
      else if negb patchOK then (st, [], churn)
      else
        let st' := set_Matched count message st in
        let newly := match st_MatchedEnginePods st with None => true | Some n => 0 <? n end || str_eqb (st_EngineSelectorMessage st) "" in
        (st', if recorder && reliable && bool_decide (count = Some 0) && negb (str_eqb message "") && newly
              then [mkEvent EventTypeNormal eventReasonEngineSelectorUnmatched message] else [], churn)
  end.
End health.
