(* ===== verification/ConnectorHealth.v ===== *)
(** * The status of the LMCache connector (controller/cachebackend_lmcache_mp_status.go)

    PodLocal: each selected engine pod needs the webhook's record of this generation and a Ready
    native sidecar.  NodeLocal: each needs exactly one Ready server on its node, and no more engines
    on a node than the server has GPU workers. *)

From S2P Require Import Prelude Ordering GoRuntime GoText GoNumbers K8s ControlPlane IndexPoller CoreV1.
From S2P Require Import BackendApi Adapters Renderer EngineWire LiveObjects ReadinessGate ProbeGate.
From S2P Require Import EngineHealth.

Definition LabelLMCacheNodeLocalServer : string := "inferencecache.io/lmcache-node-server".
Definition LabelLMCacheNodeLocalCleanup : string := "inferencecache.io/lmcache-node-shm-cleanup".
Definition LabelCacheBackendUID : string := "inferencecache.io/cache-backend-uid".
Definition AnnotationNodeLocalOwner : string := "inferencecache.io/node-local-owner".
Definition AnnotationNodeLocalOwnerUID : string := "inferencecache.io/node-local-owner-uid".
Definition AnnotationNodeLocalGeneration : string := "inferencecache.io/node-local-generation".
Definition AnnotationNodeLocalTargetNode : string := "inferencecache.io/node-local-target-node".
Definition AnnotationNodeLocalIdleSince : string := "inferencecache.io/node-local-idle-since".

Definition reasonNoEnginePods : string := "NoEnginePods".
Definition reasonMPServersNotReady : string := "MPServersNotReady".
Definition reasonNodeLocalPoolPending : string := "NodeLocalServerPoolPending".
Definition reasonNodeLocalHostPortConflict : string := "NodeLocalHostPortConflict".
Definition reasonNodeLocalWorkerCapacity : string := "NodeLocalWorkerCapacityExceeded".
Definition reasonNodeLocalAmbiguousServers : string := "AmbiguousNodeLocalServers".
Definition LMCacheConnectorModeMultiprocess : string := "Multiprocess".
Definition lmCacheMPServerStatusContainerName : string := "lmcache-mp-server".

(** [int32] counters: how many elements satisfy [p]. *)
Definition count32 {A : Type} (p : A → bool) (l : list A) : Z := wrap32 (Z.of_nat (length (List.filter p l))).

Section connector.
Context `{QO : QuantityOps} `{CO : ConditionOps}.
(** [%q] of a rune. *)
Variable quoteRune : string → string.
Implicit Types (cb : CacheBackend) (st : CacheBackendStatus) (pod : LivePod) (pods : list LivePod).

(** ** Readings of a pod *)

(** nativeSidecarReady on init containers, normalContainerReady on the others. *)
Definition containerReady (statuses : list ContainerStatus) (name : string) : bool :=
  match List.find (λ s, str_eqb (cst_Name s) name) statuses with
  | Some s => cst_Ready s && cst_Running s
  | None => false
  end.

Definition podReady pod : bool :=
  match List.find (λ c, str_eqb (pc_Type c) "Ready") (lp_Conditions pod) with
  | Some c => str_eqb (pc_Status c) ConditionTrue
  | None => false
  end.

Definition nodeLocalHostPortConflict pod : bool :=
  existsb (λ c, str_eqb (pc_Type c) "PodScheduled" && str_eqb (pc_Status c) ConditionFalse &&
                str_eqb (pc_Reason c) "Unschedulable" &&
                let message := ToLower (pc_Message c) in
                (Contains message "free ports" || Contains message "hostport" || Contains message "host port"))
    (lp_Conditions pod).

Definition nodeLocalServerHasRuntimeIdentity pod (wantHostPath : string) : bool :=
  if str_eqb wantHostPath "" then false
  else
    match List.find (λ c, str_eqb (cn_Name c) lmCacheMPServerStatusContainerName) (psp_Containers (p_Spec (lp_Pod pod))) with
    | None => false
    | Some container =>
        match List.find (λ m, str_eqb (vm_MountPath m) "/dev/shm" && negb (vm_ReadOnly m) && str_eqb (vm_SubPath m) "" &&
                              str_eqb (vm_SubPathExpr m) "") (cn_VolumeMounts container) with
        | None => false
        | Some mount =>
            negb (str_eqb (vm_Name mount) "") &&
            existsb (λ v, str_eqb (vol_Name v) (vm_Name mount) &&
                          bool_decide (vs_HostPath (vol_Source v) = Some (wantHostPath, "DirectoryOrCreate")))
              (psp_Volumes (p_Spec (lp_Pod pod))) &&
            IsLMCacheMPCUDAServerProfile (cn_Args container)
        end
    end.

Definition injectedNow cb pod : bool :=
  injectedBy cb pod && str_eqb (lpAnnotation pod AnnotationInjectedGeneration) (FormatInt (cb_Generation cb)).

(** The selected engine pods, none without a selector; [None] when they could not be listed. *)
Definition selectedEngines cb (answer : ListResult LivePod) : option (list LivePod) :=
  if bool_decide (matchLabels cb = ∅) then Some [] else listIn answer (cb_Namespace cb) (matchLabels cb).

(** ** PodLocal *)

Definition sidecarReady cb pod : bool :=
  injectedNow cb pod && containerReady (lp_InitContainerStatuses pod) lmCacheMPServerStatusContainerName.

Definition podLocalCoverage cb pod : EnginePodCoverage :=
  mkCoverage (p_Name (lp_Pod pod)) (lp_NodeName pod) (podReady pod) (sidecarReady cb pod)
    (if negb (injectedNow cb pod) then reasonConnectorUnverified
     else if sidecarReady cb pod then reasonConnectorReady else reasonMPServersNotReady).

Definition sortCoverage (l : list EnginePodCoverage) : list EnginePodCoverage :=
  go_sort (λ a b, str_lt (ec_Name a) (ec_Name b)) l.

Definition podLocalConnector cb pods : ConnectorStatus * Verdict :=
  let active := List.filter activePod pods in
  let matched := count32 (λ _, true) active in
  let verified := count32 (injectedNow cb) active in
  let readyServers := count32 (sidecarReady cb) active in
  let readyEngines := count32 (λ p, sidecarReady cb p && podReady p) active in
  (mkConnector LMCacheConnectorModeMultiprocess LMCacheTopologyPodLocal matched readyEngines matched readyServers readyServers
     (wrap32 (matched - readyServers)) (sortCoverage (podLocalCoverage cb <$> active)),
   if matched =? 0 then (ConditionFalse, reasonNoEnginePods, "no active engine Pods match spec.engineSelector")
   else if negb (verified =? matched) then
     (ConditionUnknown, reasonConnectorUnverified,
      FormatInt verified +:+ "/" +:+ FormatInt matched +:+
      " selected engine Pods carry the webhook-authenticated injection record for this CacheBackend generation; unverified Pods are left un-injected")
   else if (readyServers =? matched) && (readyEngines =? matched) then
     (ConditionTrue, reasonConnectorReady,
      "all " +:+ FormatInt matched +:+ " selected engine Pods have a Ready LMCache MP server and connector")
   else
     (ConditionFalse, reasonMPServersNotReady,
      FormatInt readyServers +:+ "/" +:+ FormatInt matched +:+ " selected engine Pods have a Ready LMCache MP native sidecar; " +:+
      FormatInt readyEngines +:+ " engine Pods are Ready with the connector")).

(** ** NodeLocal *)

(** A server of this backend at its current generation and profile. *)
Definition currentServer cb (shmHostPath : string) pod : bool :=
  IsControlledBy pod cb && negb (lp_Deleting pod) &&
  str_eqb (lpAnnotation pod AnnotationNodeLocalOwner) (backendKey cb) &&
  str_eqb (lpAnnotation pod AnnotationNodeLocalOwnerUID) (cb_UID cb) &&
  str_eqb (lpAnnotation pod AnnotationNodeLocalGeneration) (FormatInt (cb_Generation cb)) &&
  nodeLocalServerHasRuntimeIdentity pod shmHostPath.

Definition targets pod (node : string) : bool := str_eqb (lpAnnotation pod AnnotationNodeLocalTargetNode) node.

Definition serverReadyOn (node : string) pod : bool :=
  targets pod node && negb (str_eqb node "") && str_eqb (lp_NodeName pod) node && podReady pod &&
  containerReady (lp_ContainerStatuses pod) lmCacheMPServerStatusContainerName.

Section nodeLocal.
Context (cb : CacheBackend) (shmHostPath : string) (maxGPUWorkers : Z).
Context (servers engines : list LivePod).

Definition currentServers : list LivePod := List.filter (currentServer cb shmHostPath) servers.
Definition activeEngines : list LivePod := List.filter activePod engines.

(** The entries of readyByNode, conflictByNode and engineCountByNode. *)
Definition readyByNode (node : string) : Z := count32 (serverReadyOn node) currentServers.
Definition conflictByNode (node : string) : bool :=
  existsb (λ p, targets p node && nodeLocalHostPortConflict p) currentServers.
Definition ownedScheduled (pod : LivePod) : bool := injectedBy cb pod && negb (str_eqb (lp_NodeName pod) "").
Definition engineCountByNode (node : string) : Z :=
  count32 (λ p, ownedScheduled p && str_eqb (lp_NodeName p) node) activeEngines.
Definition desiredNodes : gset string := list_to_set (lp_NodeName <$> List.filter ownedScheduled activeEngines).

Definition withinWorkers (node : string) : bool :=
  negb (str_eqb node "") && (0 <? engineCountByNode node) && (engineCountByNode node <=? maxGPUWorkers).

Definition isCovered (pod : LivePod) : bool :=
  injectedNow cb pod && withinWorkers (lp_NodeName pod) && (readyByNode (lp_NodeName pod) =? 1).

Definition overCapacity (pod : LivePod) : bool :=
  injectedNow cb pod && negb (str_eqb (lp_NodeName pod) "") && negb (withinWorkers (lp_NodeName pod)).

Definition ambiguous (pod : LivePod) : bool :=
  injectedNow cb pod && negb (str_eqb (lp_NodeName pod) "") && withinWorkers (lp_NodeName pod) &&
  (1 <? readyByNode (lp_NodeName pod)).

Definition nodeLocalCoverage (pod : LivePod) : EnginePodCoverage :=
  let node := lp_NodeName pod in
  mkCoverage (p_Name (lp_Pod pod)) node (podReady pod) (isCovered pod)
    (if negb (injectedNow cb pod) then reasonConnectorUnverified
     else if str_eqb node "" then "EngineSchedulingPending"
     else if negb (withinWorkers node) then reasonNodeLocalWorkerCapacity
     else if 1 <? readyByNode node then reasonNodeLocalAmbiguousServers
     else if isCovered pod then reasonConnectorReady
     else reasonMPServersNotReady).

Definition nodeLocalConnector : ConnectorStatus * Verdict :=
  let matched := wrap32 (Z.of_nat (length activeEngines)) in
  let verified := count32 (injectedNow cb) activeEngines in
  let covered := count32 isCovered activeEngines in
  let readyEngines := count32 (λ p, isCovered p && podReady p) activeEngines in
  let desiredServers := wrap32 (Z.of_nat (size desiredNodes)) in
  let readyServers := count32 (λ node, readyByNode node =? 1) (elements desiredNodes) in
  let hostPortConflict := existsb conflictByNode (elements desiredNodes) in
  (mkConnector LMCacheConnectorModeMultiprocess LMCacheTopologyNodeLocal matched readyEngines desiredServers readyServers covered
     (wrap32 (matched - covered)) (sortCoverage (nodeLocalCoverage <$> activeEngines)),
   if matched =? 0 then (ConditionFalse, reasonNoEnginePods, "no active engine Pods match spec.engineSelector")
   else if negb (verified =? matched) then
     (ConditionUnknown, reasonConnectorUnverified,
      FormatInt verified +:+ "/" +:+ FormatInt matched +:+
      " selected engine Pods carry the current CacheBackend name, UID, and generation injection record")
   else if desiredServers =? 0 then
     (ConditionFalse, reasonNodeLocalPoolPending, "selected engine Pods have not been scheduled onto a node yet")
   else if hostPortConflict then
     (ConditionFalse, reasonNodeLocalHostPortConflict,
      "a NodeLocal server Pod is unschedulable because a declared host port is already allocated; choose disjoint MP and HTTP ports")
   else if existsb overCapacity activeEngines then
     (ConditionFalse, reasonNodeLocalWorkerCapacity,
      "at least one node has more selected engine instances than maxGPUWorkers=" +:+ FormatInt maxGPUWorkers)
   else if existsb ambiguous activeEngines then
     (ConditionFalse, reasonNodeLocalAmbiguousServers,
      "more than one healthy current-generation NodeLocal server claims the same engine node")
   else if (readyServers =? desiredServers) && (covered =? matched) && (readyEngines =? matched) then
     (ConditionTrue, reasonConnectorReady,
      "all " +:+ FormatInt matched +:+
      " selected engine Pods are Ready and covered by exactly one healthy same-node server; all " +:+
      FormatInt desiredServers +:+ " engine-demanded servers are Ready")
   else
     (ConditionFalse, reasonNodeLocalPoolPending,
      FormatInt readyServers +:+ "/" +:+ FormatInt desiredServers +:+ " engine-demanded LMCache MP servers are Ready; " +:+
      FormatInt covered +:+ "/" +:+ FormatInt matched +:+ " selected engine Pods have exactly one healthy same-node server")).
End nodeLocal.

(** ** The refresh *)

(** equality.Semantic.DeepEqual on this representation of a status is equality. *)
Definition writeStatus (patchOK : bool) (before after : CacheBackendStatus) : CacheBackendStatus :=
  if bool_decide (before = after) then after else if patchOK then storedStatus after else before.

Definition publishConnector cb (now : Time) (c : ConnectorStatus * Verdict) (patchOK : bool) st : CacheBackendStatus :=
  let '(connector, (status, reason, message)) := c in
  writeStatus patchOK st
    (setCond now conditionTypeConnectorReady status reason message (cb_Generation cb) (set_Connector (Some connector) st)).

Definition nodeLocalServerLabels cb : gmap string string :=
  {[LabelLMCacheNodeLocalServer := "true"; LabelCacheBackendUID := cb_UID cb]}.

Definition refreshLMCacheNodeLocalConnectorStatus cb (now : Time) (engineAnswer serverAnswer : ListResult LivePod)
    (patchOK : bool) st : CacheBackendStatus :=
  match (l ← bs_LMCache (cb_Spec cb); n ← lm_NodeLocal l; nl_Server n) with
  | None => st
  | Some server =>
      match selectedEngines cb engineAnswer with
      | None => st
      | Some engines =>
          match listIn serverAnswer (cb_Namespace cb) (nodeLocalServerLabels cb) with
          | None => st
          | Some servers =>
              match NodeLocalServerShmHostPath quoteRune cb with
              | inl _ => st
              | inr shmHostPath =>
                  publishConnector cb now (nodeLocalConnector cb shmHostPath (nls_MaxGPUWorkers server) servers engines) patchOK st
              end
          end
      end
  end.

Definition refreshLMCacheMPConnectorStatus cb (now : Time) (engineAnswer serverAnswer : ListResult LivePod)
    (patchOK : bool) st : CacheBackendStatus :=
  if negb (isTypedLMCacheMP cb) then
    if bool_decide (st_Connector st = None) && bool_decide (find st conditionTypeConnectorReady = None) then st
    else if patchOK then storedStatus (removeCond conditionTypeConnectorReady (set_Connector None st)) else st
  else if isTypedLMCacheNodeLocal cb then
    refreshLMCacheNodeLocalConnectorStatus cb now engineAnswer serverAnswer patchOK st
  else
    match selectedEngines cb engineAnswer with
    | None => st
    | Some pods => publishConnector cb now (podLocalConnector cb pods) patchOK st
    end.
End connector.
