(* ===== verification/StatusPublish.v ===== *)
(** * Publishing the status of a backend (controller/cachebackend_status.go,
      cachebackend_serverless.go)

    The status writers of the three modes of a backend and their common parts.  A writer computes
    the verdicts from the status it read, applies its mutation, and keeps it only if the apiserver
    accepts it; the rate-limit slot of a probe call is taken only then. *)

From S2P Require Import Prelude Ordering GoRuntime GoText GoNumbers K8s ControlPlane IndexPoller CoreV1.
From S2P Require Import BackendApi Endpoints Adapters LiveObjects ReadinessGate ProbeGate EngineHealth.
From S2P Require Import ConnectorHealth.

Definition reasonT2ZeroHitRate : string := "T2ZeroHitRate".
Definition reasonT2Serving : string := "T2Serving".
Definition conditionReasonExternalEndpointAccepted : string := "ExternalEndpointAccepted".
Definition conditionReasonExternalEndpointMissing : string := "ExternalEndpointMissing".
Definition conditionReasonExternalEndpointInvalid : string := "ExternalEndpointInvalid".

Section publish.
Context `{QO : QuantityOps} `{CO : ConditionOps}.
Variable quote : string → string.
Implicit Types (cb : CacheBackend) (st : CacheBackendStatus).

(** The reconciler's configuration that the status depends on. *)
Record Reconciler := mkBackendReconciler {
  rc_Registry : option (list KVCacheRuntimeAdapter);
  rc_BackendRegistry : option (list Provider);
  rc_Recorder : bool;
  rc_ProbeClient : option ProbeClient;
  rc_ProbeRateLimit : Duration;
  rc_MatchedEnginePodsRequeueInterval : Duration;
  rc_MatchedEnginePodsChurnRequeueInterval : Duration;
  rc_NodeLocalShmCleanupImage : string
}.

Definition probeRateLimit (r : Reconciler) : Duration :=
  if 0 <? rc_ProbeRateLimit r then rc_ProbeRateLimit r else DefaultProbeRateLimit.

(** What one status pass sees of the world. *)
Record StatusInputs := mkStatusInputs {
  si_Now : Time;
  si_Probe : ProbeIO;
  si_KernelPods : ListResult LivePod;
  si_CompatPods : ListResult LivePod;
  si_PatchOK : bool
}.

(** The outcome of a status pass. *)
Record Outcome := mkOutcome {
  oc_Status : CacheBackendStatus;
  oc_Limiter : probeRateLimiter;
  oc_Events : list Event;
  oc_Metrics : list (string * string * string);
  oc_RequeueAfter : Duration;
  oc_Err : bool
}.

(** ** Common parts *)

(** The new status and whether the call succeeded; a rejected mutation is rolled back. *)
Definition patchStatus cb (patchOK : bool) (mutate : CacheBackendStatus → CacheBackendStatus) st : CacheBackendStatus * bool :=
  let st' := set_FailOpen (Some (IntegrationFailOpen (bs_Integration (cb_Spec cb)))) (mutate st) in
  if bool_decide (st = st') then (st', true) else if patchOK then (storedStatus st', true) else (st, false).

Definition setVerdict (now : Time) (typ : string) (v : Verdict) (generation : Z) st : CacheBackendStatus :=
  let '(status, reason, message) := v in setCond now typ status reason message generation st.

(** Write-once. *)
Definition latchFirstEvent st : CacheBackendStatus :=
  match st_FirstKVEventObservedAt st with
  | Some _ => st
  | None => match currentLastEventAt st with Some at_ => set_FirstKVEventObservedAt (Some at_) st | None => st end
  end.

Definition latchFirstAvailable (now : Time) (status : string) st : CacheBackendStatus :=
  match st_FirstAvailableAt st with
  | None => if str_eqb status ConditionTrue then set_FirstAvailableAt (Some now) st else st
  | Some _ => st
  end.

(** The serverless modes: re-anchored on a transition, cleared while there is nothing to anchor. *)
Definition anchorAvailability (now : Time) (canAnchor transitioned : bool) st : CacheBackendStatus :=
  if transitioned && negb canAnchor then set_FirstAvailableAt None st
  else if canAnchor && (bool_decide (st_FirstAvailableAt st = None) || transitioned) then set_FirstAvailableAt (Some now) st
  else st.

Definition publishReadiness (now : Time) (gate : kvReadiness) (generation : Z) st : CacheBackendStatus :=
  let st := setCond now conditionTypeReady (readyStatus gate) (readyReason gate) (readyMessage gate) generation st in
  let st := setCond now conditionTypeDegraded (degradedStatus gate) (degradedReason gate) (degradedMessage gate) generation st in
  setVerdict now conditionTypeProgressing (progressingFromReady (readyStatus gate) (readyReason gate) (readyMessage gate)) generation st.

(** Write, remove or leave alone. *)
Definition publishVerdict (now : Time) (typ : string) (write : bool) (v : Verdict) (remove : bool) (generation : Z) st :
    CacheBackendStatus :=
  if write then setVerdict now typ v generation st else if remove then removeCond typ st else st.

Definition publishEngineCompatibility (now : Time) (diagnosis : option string) (generation : Z) st : CacheBackendStatus :=
  match diagnosis with
  | None => st
  | Some msg =>
      if str_eqb msg "" then removeCond conditionTypeEngineCompatibility st
      else setCond now conditionTypeEngineCompatibility ConditionFalse reasonInjectedEngineCrashLooping msg generation st
  end.

Definition publishT2 (now : Time) (generation : Z) st : CacheBackendStatus :=
  match ip ← st_IndexParticipation st; ip_T2HitRate ip with
  | None => removeCond conditionTypeT2Degraded st
  | Some rate =>
      if str_eqb rate "0" then
        setCond now conditionTypeT2Degraded ConditionTrue reasonT2ZeroHitRate
          "Tier-2 (external offload) cache is wired but served zero reloads; check the remote server's availability/sizing and the engine/server version + hash-scheme compatibility."
          generation st
      else
        setCond now conditionTypeT2Degraded ConditionFalse reasonT2Serving
          ("Tier-2 (external offload) cache is serving reloads (hitRate=" +:+ rate +:+ ").") generation st
  end.

(** The Warning on the transition into a crash loop. *)
Definition crashLoopEvent (recorder ok : bool) (diagnosis : option string) st : list Event :=
  match diagnosis with
  | Some msg =>
      if ok && negb (str_eqb msg "") && negb (IsStatusConditionFalse (st_Conditions st) conditionTypeEngineCompatibility) && recorder
      then [mkEvent EventTypeWarning reasonInjectedEngineCrashLooping msg] else []
  | None => []
  end.

(** ** Managed *)

(** The verdict on the remote storage, from the Deployment's readiness and the endpoint. *)
Definition remoteVerdict (dep : Deployment) (endpoint : string) : Verdict :=
  let '(status, reason, message) := managedReadiness dep in
  if str_eqb reason conditionReasonRolloutInProgress then
    (ConditionUnknown, reasonRemoteStoragePending, "managed remote-storage rollout is still converging")
  else if str_eqb endpoint "" then
    (ConditionFalse, reasonRemoteStorageUnavailable, "managed remote storage has no live Service endpoint")
  else if str_eqb status ConditionTrue then
    (status, reasonRemoteStorageReady, "managed remote storage workload is Available and its Service endpoint is published")
  else (status, reasonRemoteStorageUnavailable, message).

(** The readiness below the KV-event gate. *)
Definition managedBase cb st (endpoint : string) (dep : Deployment) : Verdict :=
  if isTypedLMCacheMP cb then
    let '(s, r, m) := remoteVerdict dep endpoint in lmCacheMPReadyBase cb st s r m
  else managedReadiness dep.

Definition managedGate cb st (base : Verdict) (now : Time) : kvReadiness :=
  let '(status, reason, message) := base in
  let anchor := match st_FirstAvailableAt st with
                | Some t => t
                | None => if str_eqb status ConditionTrue then now else time_zero
                end in
  evaluateKVEventReadiness cb st status reason message anchor now false.

(** The kernel check of the engines this backend wired. *)
Definition engineKernels cb (inp : StatusInputs) st : kernelHealthVerdict :=
  let pods := listMatchedEnginePods cb (si_KernelPods inp) in
  evaluateEngineKernelHealth st (default [] pods) (bool_decide (is_Some pods)).

(** The closure that updateManagedStatus hands to patchStatus. *)
Definition mutateManaged cb (now : Time) (endpoint : string) (remote base : Verdict) (gate : kvReadiness)
    (probe : functionalProbeVerdict) (kernel : kernelHealthVerdict) (diagnosis : option string) (publishedGen : Z) st :
    CacheBackendStatus :=
  let '(remoteStatus, remoteReason, remoteMessage) := remote in
  let st := setRemoteStorageStatus cb now endpoint remoteStatus remoteReason remoteMessage publishedGen st in
  let st := latchFirstEvent (set_ObservedGeneration publishedGen st) in
  let st := latchFirstAvailable now base.1.1 st in
  let st := publishReadiness now gate publishedGen st in
  let st := publishVerdict now conditionTypeFunctionalProbeOK (fv_shouldWriteCondition probe) (fv_condition probe)
              (fv_removeCondition probe) publishedGen st in
  let st := publishVerdict now conditionTypeEngineKernelsHealthy (kv_shouldWriteCondition kernel) (kv_condition kernel)
              (kv_removeCondition kernel) publishedGen st in
  publishEngineCompatibility now diagnosis publishedGen (publishT2 now publishedGen st).

(** [probeVerdict.commitMark()] after a successful patch. *)
Definition commit (probe : functionalProbeVerdict) (ok : bool) (limiter : probeRateLimiter) : probeRateLimiter :=
  match fv_commitMark probe with
  | Some (key, at_) => if ok then markCalled limiter key at_ else limiter
  | None => limiter
  end.

Definition updateManagedStatus (r : Reconciler) cb (endpoint : string) (dep : Deployment) (applyOK : bool) (inp : StatusInputs)
    st (limiter : probeRateLimiter) : Outcome :=
  let now := si_Now inp in
  let base := managedBase cb st endpoint dep in
  let kvGate := managedGate cb st base now in
  let probe := evaluateFunctionalProbe quote cb st kvGate (rc_ProbeClient r) (si_Probe inp) limiter (probeRateLimit r) now in
  let kernel := engineKernels cb inp st in
  let gate := downgradeKernelReadyVerdict (downgradeReadyVerdict kvGate probe.1) kernel in
  let publishedGen := if applyOK then cb_Generation cb else st_ObservedGeneration st in
  let diagnosis := detectEngineConnectorCrashLoop quote cb (rc_Registry r) (si_CompatPods inp) in
  let patched := patchStatus cb (si_PatchOK inp)
    (mutateManaged cb now endpoint (remoteVerdict dep endpoint) base gate probe.1 kernel diagnosis publishedGen) st in
  mkOutcome patched.1 (commit probe.1 patched.2 limiter) (crashLoopEvent (rc_Recorder r) patched.2 diagnosis st) probe.2
    (minNonZero (requeueAfter gate) (fv_requeueAfter probe.1)) (negb patched.2).

(** ** External *)

(** The verdict on the declared endpoint. *)
Definition externalVerdict cb (endpoint : string) : Verdict :=
  if str_eqb endpoint "" then
    (ConditionFalse, conditionReasonExternalEndpointMissing, "the external remote-storage endpoint is empty")
  else
    let provider := match EffectiveRemoteStorage (cb_Spec cb) with Some s => rs_Provider s | None => "" end in
    match ValidateExternalEndpoint quote provider endpoint with
    | Some err => (ConditionFalse, conditionReasonExternalEndpointInvalid, "spec.remoteStorage." +:+ err)
    | None => (ConditionTrue, conditionReasonExternalEndpointAccepted,
               "External endpoint accepted; controller does not provision cache pods for External backends")
    end.

Definition externalEndpoint cb : string :=
  match EffectiveRemoteStorage (cb_Spec cb) with Some s => TrimSpace (rs_Endpoint s) | None => "" end.

Definition removeConds (types : list string) st : CacheBackendStatus := foldl (λ s t, removeCond t s) st types.

Definition mutateExternal cb (now : Time) st : CacheBackendStatus :=
  let gen := cb_Generation cb in
  let endpoint := externalEndpoint cb in
  let st := set_ObservedGeneration gen st in
  let verdict := externalVerdict cb endpoint in
  let '(remoteStatus, remoteReason, remoteMessage) :=
    if str_eqb verdict.1.1 ConditionTrue then
      (ConditionTrue, reasonRemoteStorageReady, "external remote-storage binding was accepted; reachability is owned by the operator")
    else verdict in
  let st := setRemoteStorageStatus cb now endpoint remoteStatus remoteReason remoteMessage gen st in
  let '(readyS, readyR, readyM) :=
    if isTypedLMCacheMP cb then lmCacheMPReadyBase cb st remoteStatus remoteReason remoteMessage else verdict in
  let st := setVerdict now conditionTypeProgressing (progressingFromReady readyS readyR readyM) gen st in
  let st := setCond now conditionTypeReady readyS readyR readyM gen st in
  removeConds [conditionTypeDegraded; conditionTypeFunctionalProbeOK; conditionTypeEngineKernelsHealthy;
               conditionTypeT2Degraded; conditionTypeEngineCompatibility] st.

Definition reconcileExternal cb (now : Time) (patchOK : bool) st (limiter : probeRateLimiter) : Outcome :=
  let patched := patchStatus cb patchOK (mutateExternal cb now) st in
  mkOutcome patched.1 (forget limiter (backendKey cb)) [] [] 0 (negb patched.2).

(** ** Serverless: events-only and host-only *)

(** The status still carries the remote storage of the mode before. *)
Definition transitionedFromServerMode st : bool := bool_decide (is_Some (st_RemoteStorage st)).

Definition serverlessBase cb st (activeReason activeMessage : string) : Verdict :=
  if IsEventsOnly (cb_Spec cb) then (ConditionTrue, activeReason, activeMessage)
  else lmCacheMPReadyBase cb st ConditionTrue activeReason activeMessage.

Definition serverlessGate cb st (base : Verdict) (now : Time) : kvReadiness :=
  let '(status, reason, message) := base in
  let transitioned := transitionedFromServerMode st in
  let anchor := match st_FirstAvailableAt st with Some t => if transitioned then now else t | None => now end in
  evaluateKVEventReadiness cb st status reason message anchor now transitioned.

(** The closure that reconcileServerless hands to patchStatus. *)
Definition mutateServerless cb (now : Time) (base : Verdict) (transitioned : bool) (gate : kvReadiness) (kernel : kernelHealthVerdict)
    (diagnosis : option string) st : CacheBackendStatus :=
  let gen := cb_Generation cb in
  let eventsOnly := IsEventsOnly (cb_Spec cb) in
  let st := set_ObservedGeneration gen st in
  let st := if eventsOnly then removeCond conditionTypeRemoteStorageReady (set_RemoteStorage None st)
            else setRemoteStorageStatus cb now "" ConditionTrue reasonRemoteStorageAbsent
                   "no remote storage is configured; the MP server operates with Pod-local L1 only" gen st in
  let st := latchFirstEvent st in
  let canAnchor := eventsOnly || negb (isTypedLMCacheMP cb) || str_eqb base.1.1 ConditionTrue in
  let st := anchorAvailability now canAnchor transitioned st in
  let st := publishReadiness now gate gen st in
  let st := removeCond conditionTypeFunctionalProbeOK st in
  let st := if eventsOnly then removeCond conditionTypeEngineKernelsHealthy st
            else publishVerdict now conditionTypeEngineKernelsHealthy (kv_shouldWriteCondition kernel) (kv_condition kernel)
                   (kv_removeCondition kernel) gen st in
  let st := removeCond conditionTypeT2Degraded st in
  if eventsOnly then removeCond conditionTypeEngineCompatibility st else publishEngineCompatibility now diagnosis gen st.

Definition reconcileServerless (r : Reconciler) cb (activeReason activeMessage : string) (inp : StatusInputs) st
    (limiter : probeRateLimiter) : Outcome :=
  let now := si_Now inp in
  let eventsOnly := IsEventsOnly (cb_Spec cb) in
  let base := serverlessBase cb st activeReason activeMessage in
  let kernel := if eventsOnly then noKernelVerdict else engineKernels cb inp st in
  let gate := downgradeKernelReadyVerdict (serverlessGate cb st base now) kernel in
  let diagnosis := if eventsOnly then None else detectEngineConnectorCrashLoop quote cb (rc_Registry r) (si_CompatPods inp) in
  let patched := patchStatus cb (si_PatchOK inp)
    (mutateServerless cb now base (transitionedFromServerMode st) gate kernel diagnosis) st in
  mkOutcome patched.1 (forget limiter (backendKey cb)) (crashLoopEvent (rc_Recorder r) patched.2 diagnosis st) []
    (requeueAfter gate) (negb patched.2).

Definition reconcileEventsOnly (r : Reconciler) cb : StatusInputs → CacheBackendStatus → probeRateLimiter → Outcome :=
  reconcileServerless r cb conditionReasonEventsOnlyActive
    "events-only backend active; routing tier wired with no offload server".

Definition reconcileHostOnly (r : Reconciler) cb : StatusInputs → CacheBackendStatus → probeRateLimiter → Outcome :=
  reconcileServerless r cb conditionReasonHostOnlyActive
    "host-only cache active; engine-local cache wired with no remote provider".

(** ** Unmanaged *)

Definition managedConditions : list string :=
  [conditionTypeReady; conditionTypeProgressing; conditionTypeDegraded; conditionTypeFunctionalProbeOK;
   conditionTypeEngineKernelsHealthy; conditionTypeT2Degraded; conditionTypeEngineCompatibility;
   conditionTypeConnectorReady; conditionTypeRemoteStorageReady].

Definition mutateUnmanaged cb st : CacheBackendStatus :=
  set_FirstAvailableAt None
    (removeConds managedConditions
       (set_ObservedGeneration (cb_Generation cb) (set_RemoteStorage None (set_Connector None st)))).

(** [shed]: the owned workload was deleted without an error. *)
Definition reconcileUnmanaged cb (shed patchOK : bool) st (limiter : probeRateLimiter) : Outcome :=
  if negb shed then mkOutcome st limiter [] [] 0 true
  else
    let patched := patchStatus cb patchOK (mutateUnmanaged cb) st in
    mkOutcome patched.1 (forget limiter (backendKey cb)) [] [] 0 (negb patched.2).
End publish.
