(* ===== verification/ManagedWorkload.v ===== *)
(** * The managed storage workload (controller/cachebackend_workload.go)

    What the controller builds for a managed provider, how it merges it into the live Deployment
    and Service, and how it sheds them.  controllerutil.CreateOrUpdate reads the object, mutates it
    and writes it back; retry.RetryOnConflict repeats that on a conflict: one list of answers of the
    apiserver, an attempt each. *)

From S2P Require Import Prelude Ordering GoRuntime GoText K8s ControlPlane IndexPoller CoreV1 BackendApi.
From S2P Require Import Adapters LiveObjects ReadinessGate ProbeGate.

(** The scheduling and identity fields of a PodSpec, and of the managed workload block; nil and
    empty differ.  Affinity, tolerations and the security context are copied, never read. *)
Record WorkloadFields := mkWorkloadFields {
  wf_NodeSelector : option (gmap string string);
  wf_Affinity : option string;
  wf_Tolerations : option (list string);
  wf_TopologySpreadConstraints : option (list string);
  wf_ImagePullSecrets : option (list string);
  wf_ServiceAccountName : string;
  wf_SecurityContext : option string;
  wf_PriorityClassName : string;
  wf_RuntimeClassName : option string;
  wf_SchedulerName : string;
  wf_TerminationGracePeriodSeconds : option Z
}.

Definition noFields : WorkloadFields := mkWorkloadFields None None None None None "" None "" None "" None.

#[export] Instance WorkloadFields_eq_dec : EqDecision WorkloadFields.
Proof. solve_decision. Defined.

Section workload.
Context `{QO : QuantityOps}.

Record WorkloadSpec := mkWorkloadSpec {
  wk_Pod : PodSpec;
  wk_Fields : WorkloadFields;
  wk_HostNetwork : bool;
  wk_DNSPolicy : string
}.

(** A rendered PodSpec: the renderer sets containers and volumes only. *)
Definition renderedSpec (p : PodSpec) : WorkloadSpec := mkWorkloadSpec p noFields false "".

Record DeploymentSpec := mkDeploymentSpec {
  ds_Labels : gmap string string;
  ds_Replicas : option Z;
  ds_Selector : gmap string string;
  ds_TemplateLabels : gmap string string;
  ds_Template : WorkloadSpec;
  ds_Strategy : string * bool                  (* type, and whether a rollingUpdate block is set *)
}.

Record ServiceSpec := mkServiceSpec {
  vs_Labels : gmap string string;
  vs_Type : string;
  vs_Selector : gmap string string;
  vs_Ports : list (string * Z * string * string);
  vs_ClusterIP : string
}.

#[export] Instance WorkloadSpec_eq_dec : EqDecision WorkloadSpec.
Proof. solve_decision. Defined.
#[export] Instance DeploymentSpec_eq_dec : EqDecision DeploymentSpec.
Proof. solve_decision. Defined.
#[export] Instance ServiceSpec_eq_dec : EqDecision ServiceSpec.
Proof. solve_decision. Defined.

(** ** What is desired *)

Definition selectorLabels (name : string) : gmap string string :=
  {["app.kubernetes.io/name" := "cachebackend"; "app.kubernetes.io/instance" := name;
    "app.kubernetes.io/managed-by" := "inference-cache-controller"]}.

Definition podTemplateLabels (cb : CacheBackend) : gmap string string :=
  let t := bs_Type (cb_Spec cb) in
  if str_eqb t "" then selectorLabels (cb_Name cb)
  else <["inferencecache.io/backend-type" := t]> (selectorLabels (cb_Name cb)).

(** [if override.X != nil { spec.X = override.X }], and the same for strings. *)
Definition orElse {A : Type} (override base : option A) : option A := match override with Some _ => override | None => base end.
Definition orElseStr (override base : string) : string := if str_eqb override "" then base else override.

Definition overrideFields (o base : WorkloadFields) : WorkloadFields :=
  mkWorkloadFields (orElse (wf_NodeSelector o) (wf_NodeSelector base)) (orElse (wf_Affinity o) (wf_Affinity base))
    (orElse (wf_Tolerations o) (wf_Tolerations base))
    (orElse (wf_TopologySpreadConstraints o) (wf_TopologySpreadConstraints base))
    (orElse (wf_ImagePullSecrets o) (wf_ImagePullSecrets base))
    (orElseStr (wf_ServiceAccountName o) (wf_ServiceAccountName base))
    (orElse (wf_SecurityContext o) (wf_SecurityContext base))
    (orElseStr (wf_PriorityClassName o) (wf_PriorityClassName base))
    (orElse (wf_RuntimeClassName o) (wf_RuntimeClassName base))
    (orElseStr (wf_SchedulerName o) (wf_SchedulerName base))
    (orElse (wf_TerminationGracePeriodSeconds o) (wf_TerminationGracePeriodSeconds base)).

Definition defaultFields (f : WorkloadFields) : WorkloadFields :=
  mkWorkloadFields (wf_NodeSelector f) (wf_Affinity f) (wf_Tolerations f) (wf_TopologySpreadConstraints f)
    (wf_ImagePullSecrets f) (wf_ServiceAccountName f) (wf_SecurityContext f) (wf_PriorityClassName f)
    (wf_RuntimeClassName f) (orElseStr (wf_SchedulerName f) "default-scheduler")
    (orElse (wf_TerminationGracePeriodSeconds f) (Some 30)).

(** [workload] is the workload block of the storage declaration. *)
Definition applyManagedWorkload (storage : option CacheBackendRemoteStorageSpec) (workload : option WorkloadFields)
    (spec : WorkloadSpec) : WorkloadSpec :=
  let fields := defaultFields (wk_Fields spec) in
  let managed := match storage with Some s => str_eqb (rs_Ownership s) OwnershipManaged | None => false end in
  mkWorkloadSpec (wk_Pod spec)
    (match workload with Some o => if managed then overrideFields o fields else fields | None => fields end)
    (wk_HostNetwork spec) (wk_DNSPolicy spec).

Definition buildDeployment (cb : CacheBackend) (workload : option WorkloadFields) (pod : PodSpec) : DeploymentSpec :=
  mkDeploymentSpec (podTemplateLabels cb) (Some 1) (selectorLabels (cb_Name cb)) (podTemplateLabels cb)
    (applyManagedWorkload (bs_RemoteStorage (cb_Spec cb)) workload (renderedSpec pod)) (EmptyString, false).

Definition buildService (cb : CacheBackend) (src : RenderedService) : ServiceSpec :=
  mkServiceSpec (podTemplateLabels cb) (orElseStr (svc_Type src) "ClusterIP") (selectorLabels (cb_Name cb)) (svc_Ports src) "".

Definition serviceEndpoint (name namespace : string) (ports : list Z) : string :=
  match ports with
  | [] => ""
  | port :: _ => name +:+ "." +:+ namespace +:+ ".svc.cluster.local:" +:+ FormatInt port
  end.

(** ** Merging into the live Deployment *)

(** The fields the controller owns in a live container. *)
Definition updateContainer (want live : Container) : Container :=
  mkContainer (cn_Name live) (cn_Image want) (cn_ImagePullPolicy want) (cn_RestartPolicy live) (cn_WorkingDir live)
    (cn_Command want) (cn_Args want) (cn_Env want) (cn_EnvFrom live) (cn_Resources want) (cn_VolumeMounts want)
    (cn_VolumeDevices live) (cn_Ports want) (cn_StartupProbe want) (cn_ReadinessProbe want) (cn_LivenessProbe want)
    (cn_SecurityContext want) (cn_TerminationMessage live).

(** The first live container of the name is updated, or the desired one appended. *)
Fixpoint upsertContainer (want : Container) (live : list Container) : list Container :=
  match live with
  | [] => [want]
  | c :: rest => if str_eqb (cn_Name c) (cn_Name want) then updateContainer want c :: rest else c :: upsertContainer want rest
  end.

Definition reconcileManagedContainer (live desired : list Container) : list Container :=
  if bool_decide (desired = []) then live
  else foldl (λ l want, upsertContainer want l)
         (List.filter (λ c, bool_decide (cn_Name c ∈ (cn_Name <$> desired))) live) desired.

Definition reconcileManagedPodSpec (live desired : WorkloadSpec) : WorkloadSpec :=
  mkWorkloadSpec
    (mkPodSpec (psp_InitContainers (wk_Pod live)) (reconcileManagedContainer (psp_Containers (wk_Pod live)) (psp_Containers (wk_Pod desired)))
       (psp_Volumes (wk_Pod desired)))
    (wk_Fields desired) (wk_HostNetwork desired) (orElseStr (wk_DNSPolicy desired) "ClusterFirst").

Definition mutateDeployment (desired : DeploymentSpec) (live : option DeploymentSpec) : DeploymentSpec :=
  match live with
  | None => desired
  | Some d =>
      let want := orElseStr (ds_Strategy desired).1 "RollingUpdate" in
      mkDeploymentSpec (ds_Labels desired) (ds_Replicas desired) (ds_Selector d) (ds_TemplateLabels d)
        (reconcileManagedPodSpec (ds_Template d) (ds_Template desired))
        (if str_eqb (ds_Strategy d).1 want then ds_Strategy d else (want, false))
  end.

Definition mutateService (desired : ServiceSpec) (live : option ServiceSpec) : ServiceSpec :=
  match live with
  | None => desired
  | Some s => mkServiceSpec (vs_Labels desired) (vs_Type desired) (vs_Selector desired) (vs_Ports desired)
                (orElseStr (vs_ClusterIP s) (vs_ClusterIP desired))
  end.

(** controllerutil.SetControllerReference fails on an object another controller owns. *)
Definition SetControllerReference (cb : CacheBackend) (owner : option OwnerReference) : option OwnerReference :=
  match owner with
  | Some o => if str_eqb (or_UID o) (cb_UID cb) then Some o else None
  | None => Some (mkOwnerRef "inferencecache.io/v1alpha1" "CacheBackend" (cb_Name cb) (cb_UID cb))
  end.

(** ** Writing *)

Inductive WriteAnswer := WriteOK | WriteConflict | WriteErr.

(** One attempt: what Get returns (the object with its controller), and the answer to the write. *)
Record Attempt (Spec : Type) := mkAttempt {
  at_Get : GetResult (Spec * option OwnerReference);
  at_Write : WriteAnswer
}.
Arguments mkAttempt {Spec} _ _.
Arguments at_Get {Spec} _.
Arguments at_Write {Spec} _.

(** What one attempt comes to: done with the object that was written (or found right already),
    failed, or to be repeated. *)
Inductive AttemptResult (Spec : Type) :=
  | Applied (written : option Spec)
  | ApplyFailed
  | ApplyConflict.
Arguments Applied {Spec} _.
Arguments ApplyFailed {Spec}.
Arguments ApplyConflict {Spec}.

Definition createOrUpdate {Spec : Type} `{EqDecision Spec} (cb : CacheBackend) (mutate : option Spec → Spec) (a : Attempt Spec) :
    AttemptResult Spec :=
  let write s := match at_Write a with WriteOK => Applied (Some s) | WriteConflict => ApplyConflict | WriteErr => ApplyFailed end in
  match at_Get a with
  | GetErr => ApplyFailed
  | GetNotFound => write (mutate None)
  | GetOK (live, owner) =>
      match SetControllerReference cb owner with
      | None => ApplyFailed
      | Some owner' =>
          let s := mutate (Some live) in
          if bool_decide (s = live) && bool_decide (owner = Some owner') then Applied None else write s
      end
  end.

(** retry.DefaultRetry makes five attempts; the error after the last one is returned. *)
Definition maxAttempts : nat := 5.

Fixpoint retryOnConflict {Spec : Type} `{EqDecision Spec} (n : nat) (cb : CacheBackend) (mutate : option Spec → Spec)
    (answers : nat → Attempt Spec) : option (option Spec) :=
  match n with
  | O => None
  | S n =>
      match createOrUpdate cb mutate (answers O) with
      | Applied w => Some w
      | ApplyFailed => None
      | ApplyConflict => retryOnConflict n cb mutate (λ i, answers (S i))
      end
  end.

Definition applyDeployment (cb : CacheBackend) (desired : DeploymentSpec) (answers : nat → Attempt DeploymentSpec) :
    option (option DeploymentSpec) :=
  retryOnConflict maxAttempts cb (mutateDeployment desired) answers.

Definition applyService (cb : CacheBackend) (desired : ServiceSpec) (answers : nat → Attempt ServiceSpec) :
    option (option ServiceSpec) :=
  retryOnConflict maxAttempts cb (mutateService desired) answers.

(** ** Shedding *)

(** Was the object deleted; [None] on an error.  [deleteAnswer]: [GetOK], gone, or an error. *)
Definition deleteIfOwned (cb : CacheBackend) (get : GetResult (option OwnerReference)) (deleteAnswer : GetResult unit) :
    option bool :=
  match get with
  | GetNotFound => Some false
  | GetErr => None
  | GetOK owner =>
      if negb (controlledBy owner cb) then Some false
      else match deleteAnswer with GetErr => None | _ => Some true end
  end.

Record CleanupAnswers := mkCleanupAnswers {
  ca_GetDeployment : GetResult (option OwnerReference);
  ca_DeleteDeployment : GetResult unit;
  ca_GetService : GetResult (option OwnerReference);
  ca_DeleteService : GetResult unit
}.

(** The objects deleted (Deployment, Service), and whether it succeeded. *)
Definition cleanupOwnedWorkload (cb : CacheBackend) (a : CleanupAnswers) : bool * bool * bool :=
  match deleteIfOwned cb (ca_GetDeployment a) (ca_DeleteDeployment a) with
  | None => (false, false, false)
  | Some dep =>
      match deleteIfOwned cb (ca_GetService a) (ca_DeleteService a) with
      | None => (dep, false, false)
      | Some svc => (dep, svc, true)
      end
  end.
End workload.
Arguments mkAttempt {Spec} _ _.
Arguments at_Get {Spec} _.
Arguments at_Write {Spec} _.
Arguments Applied {Spec} _.
Arguments ApplyFailed {Spec}.
Arguments ApplyConflict {Spec}.

(** ** Facts *)

Section facts.
Context `{QO : QuantityOps}.

(** The first container of the name carries the desired fields. *)
Definition settled (want : Container) (l : list Container) : Prop :=
  ∃ c, List.find (λ c, str_eqb (cn_Name c) (cn_Name want)) l = Some c ∧ updateContainer want c = c.

Lemma updateContainer_idem want c : updateContainer want (updateContainer want c) = updateContainer want c.
Proof. done. Qed.

Lemma updateContainer_self want : updateContainer want want = want.
Proof. by destruct want. Qed.

Lemma upsertContainer_settles want l : settled want (upsertContainer want l).
Proof.
  unfold settled. induction l as [|c l IH]; simpl.
  - rewrite (proj2 (str_eqb_eq _ _)) by done. eauto using updateContainer_self.
  - destruct (str_eqb (cn_Name c) (cn_Name want)) eqn:E; simpl; rewrite E; eauto using updateContainer_idem.
Qed.

Lemma upsertContainer_settled want l : settled want l → upsertContainer want l = l.
Proof.
  intros (c & Hf & Hc). induction l as [|d l IH]; simpl in *; [done|].
  destruct (str_eqb (cn_Name d) (cn_Name want)); [|f_equal; auto]. simplify_eq. by rewrite Hc.
Qed.

Lemma upsertContainer_other want want' l :
  cn_Name want' ≠ cn_Name want → settled want l → settled want (upsertContainer want' l).
Proof.
  intros Hn (c & Hf & Hc). exists c. split; [|done]. induction l as [|d l IH]; simpl in *; [done|].
  destruct (str_eqb (cn_Name d) (cn_Name want')) eqn:E; simpl.
  - apply str_eqb_eq in E. destruct (str_eqb (cn_Name d) (cn_Name want)) eqn:E'; [|done].
    apply str_eqb_eq in E'. congruence.
  - destruct (str_eqb (cn_Name d) (cn_Name want)); auto.
Qed.

Lemma upsertContainer_names want l n : n ∈ (cn_Name <$> upsertContainer want l) ↔ n = cn_Name want ∨ n ∈ (cn_Name <$> l).
Proof.
  induction l as [|c l IH]; simpl; [set_solver|].
  destruct (str_eqb (cn_Name c) (cn_Name want)) eqn:E; simpl; rewrite !elem_of_cons.
  - apply str_eqb_eq in E. simpl. rewrite E. tauto.
  - rewrite IH. tauto.
Qed.

Lemma foldl_upsert_settles desired l want :
  NoDup (cn_Name <$> desired) → (want ∈ desired ∨ settled want l ∧ cn_Name want ∉ (cn_Name <$> desired)) →
  settled want (foldl (λ l want, upsertContainer want l) l desired).
Proof.
  revert l. induction desired as [|d desired IH]; intros l; simpl.
  - intros _ [H|[H _]]; [by apply elem_of_nil in H|done].
  - intros [Hd Hnd]%NoDup_cons [[->|Hin]%elem_of_cons|[Hs Hn]]; apply (IH _ Hnd).
    + right. split; [apply upsertContainer_settles|done].
    + by left.
    + apply not_elem_of_cons in Hn as [Hne Hn]. right. split; [by apply upsertContainer_other|done].
Qed.

Lemma foldl_upsert_id desired l :
  (∀ want, want ∈ desired → settled want l) → foldl (λ l want, upsertContainer want l) l desired = l.
Proof.
  revert l. induction desired as [|d desired IH]; intros l H; simpl; [done|].
  rewrite upsertContainer_settled by (apply H; left). apply IH. intros want Hw. apply H. by right.
Qed.

Lemma foldl_upsert_names desired l n :
  n ∈ (cn_Name <$> foldl (λ l want, upsertContainer want l) l desired) ↔ n ∈ (cn_Name <$> desired) ∨ n ∈ (cn_Name <$> l).
Proof.
  revert l. induction desired as [|d desired IH]; intros l; simpl; [set_solver|].
  rewrite IH, upsertContainer_names, elem_of_cons. tauto.
Qed.

(** The merge leaves exactly the desired containers, each with the desired fields, and a second
    merge changes nothing. *)
Lemma reconcileManagedContainer_spec live desired :
  desired ≠ [] → NoDup (cn_Name <$> desired) →
  let merged := reconcileManagedContainer live desired in
  (∀ n, n ∈ (cn_Name <$> merged) ↔ n ∈ (cn_Name <$> desired)) ∧
  (∀ want, want ∈ desired → settled want merged) ∧
  reconcileManagedContainer merged desired = merged.
Proof.
  intros Hne Hnd merged. subst merged. unfold reconcileManagedContainer. rewrite bool_decide_eq_false_2 by done.
  set (kept := List.filter _ live).
  assert (Hnames : ∀ n, n ∈ (cn_Name <$> foldl (λ l want, upsertContainer want l) kept desired) ↔ n ∈ (cn_Name <$> desired)).
  { intros n. rewrite foldl_upsert_names. split; [|tauto]. intros [?|Hin]; [done|].
    apply list_elem_of_fmap in Hin as (c & -> & [Hc _]%elem_of_List_filter). by apply bool_decide_eq_true in Hc. }
  split; [done|]. split; [intros want Hw; apply foldl_upsert_settles; auto|].
  set (merged := foldl _ kept desired) in *.
  replace (List.filter _ merged) with merged.
  { apply foldl_upsert_id. intros want Hw. apply foldl_upsert_settles; auto. }
  clearbody merged. symmetry. revert Hnames. generalize (cn_Name <$> desired). intros names Hnames.
  assert (Forall (λ c, cn_Name c ∈ names) merged) as HF.
  { apply Forall_forall. intros c Hc. apply Hnames, list_elem_of_fmap. eauto. }
  clear Hnames. induction HF as [|c l Hc HF IH]; simpl; [done|]. rewrite bool_decide_eq_true_2 by done. by rewrite IH.
Qed.

(** Merging is idempotent, keeps the immutable selector and the template's labels, and takes
    everything else from the desired object. *)
Lemma mutateDeployment_idem desired live :
  psp_Containers (wk_Pod (ds_Template desired)) ≠ [] → NoDup (cn_Name <$> psp_Containers (wk_Pod (ds_Template desired))) →
  let once := mutateDeployment desired (Some live) in
  mutateDeployment desired (Some once) = once.
Proof.
  intros Hne Hnd. destruct (reconcileManagedContainer_spec (psp_Containers (wk_Pod (ds_Template live))) _ Hne Hnd) as (_ & _ & Hid).
  cbn. unfold mutateDeployment, reconcileManagedPodSpec at 1. cbn. rewrite Hid. f_equal.
  destruct (str_eqb (ds_Strategy live).1 _) eqn:E; [by rewrite E|]. simpl. by rewrite (proj2 (str_eqb_eq _ _)).
Qed.

(** Nothing is written to an object of another controller. *)
Lemma createOrUpdate_foreign {Spec : Type} `{EqDecision Spec} cb (mutate : option Spec → Spec) live o w :
  or_UID o ≠ cb_UID cb → createOrUpdate cb mutate (mkAttempt (GetOK (live, Some o)) w) = ApplyFailed.
Proof. intros Ho. unfold createOrUpdate. simpl. by rewrite (proj2 (str_eqb_neq _ _)). Qed.

(** A successful attempt: the object was found as desired, or the desired one was written. *)
Definition appliedBy {Spec : Type} (cb : CacheBackend) (mutate : option Spec → Spec) (a : Attempt Spec) (w : option Spec) : Prop :=
  match at_Get a with
  | GetErr => False
  | GetNotFound => w = Some (mutate None) ∧ at_Write a = WriteOK
  | GetOK (live, owner) =>
      is_Some (SetControllerReference cb owner) ∧
      match w with
      | Some s => s = mutate (Some live) ∧ at_Write a = WriteOK
      | None => mutate (Some live) = live
      end
  end.

Lemma createOrUpdate_applied {Spec : Type} `{EqDecision Spec} cb (mutate : option Spec → Spec) a w :
  createOrUpdate cb mutate a = Applied w → appliedBy cb mutate a w.
Proof.
  unfold createOrUpdate, appliedBy. destruct (at_Get a) as [[live owner]| |]; [|by destruct (at_Write a); [intros [= <-]|..]|done].
  destruct (SetControllerReference cb owner) as [o|] eqn:Eo; [|done].
  destruct (bool_decide (mutate (Some live) = live) && _) eqn:Ed.
  - intros [= <-]. apply andb_true_iff in Ed as [Ed _]. by apply bool_decide_eq_true in Ed.
  - by destruct (at_Write a); [intros [= <-]|..].
Qed.

Lemma retryOnConflict_applied {Spec : Type} `{EqDecision Spec} n cb (mutate : option Spec → Spec) answers w :
  retryOnConflict n cb mutate answers = Some w → ∃ i, (i < n)%nat ∧ appliedBy cb mutate (answers i) w.
Proof.
  revert answers. induction n as [|n IH]; intros answers; simpl; [done|].
  destruct (createOrUpdate cb mutate (answers O)) as [w'| |] eqn:E; [|done|].
  - intros [= ->]. exists O. split; [lia|]. by apply createOrUpdate_applied.
  - intros (i & Hi & Ha)%IH. exists (S i). split; [lia|done].
Qed.
End facts.
