(* ===== verification/NodeLocalPods.v ===== *)
(** * The pods of the NodeLocal topology (adapters/builtin/runtime/lmcache_mp_nodelocal.go)

    The server of one node, and the one-shot pod that clears a backend's shared-memory directory.
    A rendered pod has no placement and no status; SHA-256 is a parameter. *)

From S2P Require Import Prelude Ordering GoRuntime GoText K8s Auth ControlPlane IndexPoller CoreV1 BackendApi.
From S2P Require Import Adapters Renderer EngineWire LiveObjects ReadinessGate ProbeGate EngineHealth.
From S2P Require Import ConnectorHealth.

Definition lmCacheNodeLocalShmCleanupName : string := "lmcache-node-shm-cleanup".
Definition lmCacheNodeLocalShmCleanupGate : string := "inferencecache.io/await-shm-quiescence".
Definition lmCacheNodeLocalShmCleanupPath : string := "/var/run/inference-cache/shm-pool".
Definition lmCacheMPServerPortName : string := "lmcache-mp".

(** [strings.TrimRight(s, cutset)]. *)
Fixpoint TrimRight (cut : ascii → bool) (s : string) : string :=
  match s with
  | EmptyString => EmptyString
  | String a r =>
      let r' := TrimRight cut r in
      if cut a && str_eqb r' "" then EmptyString else String a r'
  end.

(** [append(base, extra...)] without what is already there. *)
Definition mergeMissing (base extra : list string) : list string :=
  foldl (λ out x, if bool_decide (x ∈ out) then out else out ++ [x]) base extra.

Section pods.
Context `{QO : QuantityOps}.
(** [%q] of fmt on strings and runes, and SHA-256. *)
Variables (quote quoteRune : string → string) (sha256 : string → string).
Implicit Types (cb : CacheBackend) (pod : LivePod).

(** [fmt.Sprintf("%x", sum[:n])]. *)
Definition hexPrefix (n : nat) (data : string) : string := hexEncode (String.substring 0 n (sha256 data)).

(** ** Names *)

Definition trimName (s : string) : string := TrimRight (λ a, bool_decide (a = "."%char) || bool_decide (a = "-"%char)) s.

Definition NodeLocalServerPodName (backendName nodeName : string) : string :=
  let suffix := hexPrefix 6 nodeName in
  let maxPrefix := 253 - Z.of_nat (String.length suffix) - 1 in
  let prefix := trimName backendName in
  let prefix := if maxPrefix <? Z.of_nat (String.length prefix) then trimName (String.substring 0 (Z.to_nat maxPrefix) prefix)
                else prefix in
  prefix +:+ "-" +:+ suffix.

Definition nul : string := String (byte_of_Z 0) EmptyString.

Definition NodeLocalCleanupPodName (uid nodeName : string) : string :=
  "lmcache-shm-cleanup-" +:+ hexPrefix 12 (uid +:+ nul +:+ nodeName).

Definition NodeLocalCleanupRetryPodName (uid nodeName failedName : string) : string :=
  NodeLocalCleanupPodName uid nodeName +:+ "-retry-" +:+ hexPrefix 6 failedName.

Definition lowerHex (a : ascii) : bool :=
  let z := Z_of_byte a in (48 <=? z) && (z <=? 57) || (97 <=? z) && (z <=? 102).

Definition IsNodeLocalCleanupPodName (uid nodeName name : string) : bool :=
  let base := NodeLocalCleanupPodName uid nodeName in
  if str_eqb name base then true
  else
    match CutPrefix (base +:+ "-retry-") name with
    | None => false
    | Some suffix => (String.length suffix =? 12)%nat && str_forallb lowerHex suffix
    end.

(** ** The server *)

Definition mergeScheduling (source : PodScheduling) (scheduling : option PodScheduling) : PodScheduling :=
  let base := mkPodScheduling (sd_Tolerations source) (sd_ImagePullSecrets source) "" None (sd_PriorityClassName source)
                (sd_SchedulerName source) (sd_RuntimeClassName source) (Some 30) in
  let merged :=
    match scheduling with
    | None => base
    | Some s =>
        mkPodScheduling (mergeMissing (sd_Tolerations base) (sd_Tolerations s))
          (mergeMissing (sd_ImagePullSecrets base) (sd_ImagePullSecrets s)) (sd_ServiceAccountName s) (sd_SecurityContext s)
          (if str_eqb (sd_PriorityClassName s) "" then sd_PriorityClassName base else sd_PriorityClassName s)
          (if str_eqb (sd_SchedulerName s) "" then sd_SchedulerName base else sd_SchedulerName s)
          (match sd_RuntimeClassName s with Some r => Some r | None => sd_RuntimeClassName base end)
          (match sd_TerminationGracePeriodSeconds s with Some g => Some g | None => sd_TerminationGracePeriodSeconds base end)
    end in
  mkPodScheduling (sd_Tolerations merged) (sd_ImagePullSecrets merged) (sd_ServiceAccountName merged) (sd_SecurityContext merged)
    (sd_PriorityClassName merged)
    (if str_eqb (sd_SchedulerName merged) "" then "default-scheduler" else sd_SchedulerName merged)
    (sd_RuntimeClassName merged) (sd_TerminationGracePeriodSeconds merged).

Definition nodeLocalServerArgs cb (server : LMCacheNodeLocalServerSpec) (l1GiB l2Adapter : string) : list string :=
  ["server"; "--instance-id"; lmCacheNodeLocalInstanceID cb; lmCacheMPTransferModeArg; lmCacheMPTransferModeLMCacheDriven;
   lmCacheMPL1NonLazyArg; lmCacheMPShmNameArg; ""; "--host"; "$(" +:+ lmCacheNodeIPEnv +:+ ")"; "--port"; FormatInt (nls_Port server);
   "--http-host"; "$(" +:+ lmCacheNodeIPEnv +:+ ")"; "--http-port"; FormatInt (nls_HTTPPort server);
   "--chunk-size"; FormatInt (effectiveLMCacheChunkSize (bs_LMCache (cb_Spec cb))); "--l1-size-gb"; l1GiB;
   "--eviction-policy"; "LRU"; "--max-gpu-workers"; FormatInt (nls_MaxGPUWorkers server);
   "--max-cpu-workers"; FormatInt (nls_MaxCPUWorkers server)] ++
  (if str_eqb l2Adapter "" then [] else ["--l2-adapter"; l2Adapter]).

Definition nodeLocalServerContainer cb (server : LMCacheNodeLocalServerSpec) (l1GiB l2Adapter : string) (bindingEnv : list EnvVar) :
    Container :=
  mkContainer lmCacheMPServerContainerName (TrimSpace (nls_Image server)) "IfNotPresent" None "" ["lmcache"]
    (nodeLocalServerArgs cb server l1GiB l2Adapter)
    (foldl UpsertEnv [mkEnvVar "NVIDIA_VISIBLE_DEVICES" "all" None; mkEnvVar lmCacheMPServerManagedEnv "true" None; nodeIPEnv] bindingEnv)
    [] (nls_Resources server) [mkVolumeMount lmCacheNodeLocalShmVolumeName lmCacheMPShmMountPath "" "" false] []
    [mkContainerPort lmCacheMPServerPortName (nls_Port server) (nls_Port server) "TCP";
     mkContainerPort lmCacheMPHTTPPortName (nls_HTTPPort server) (nls_HTTPPort server) "TCP"]
    (Some (lmCacheMPHTTPProbe 3 40)) (Some (lmCacheMPHTTPProbe 5 3)) (Some (lmCacheMPHTTPProbe 10 3))
    (Some lmCacheMPServerSecurityContext) (EmptyString, EmptyString).

Definition shmVolume (shmHostPath : string) : Volume :=
  mkVolume lmCacheNodeLocalShmVolumeName
    (mkVolumeSource None (Some (shmHostPath, "DirectoryOrCreate")) false false false false None None None).

(** [scheduling] is the scheduling block of the NodeLocal spec. *)
Definition RenderLMCacheNodeLocalServerPod cb (scheduling : option PodScheduling) (binding : option Binding) (nodeName : string)
    (source : option LivePod) : string + LivePod :=
  match l ← bs_LMCache (cb_Spec cb); if str_eqb (lm_Topology l) LMCacheTopologyNodeLocal then n ← lm_NodeLocal l; nl_Server n else None with
  | None => inl "render LMCache NodeLocal server Pod: complete typed NodeLocal configuration is required"
  | Some server =>
      if str_eqb (cb_UID cb) "" then inl "render LMCache NodeLocal server Pod: CacheBackend UID is empty"
      else
        match source with
        | Some src =>
            if str_eqb (TrimSpace nodeName) "" || negb (str_eqb (lp_NodeName src) nodeName) then
              inl "render LMCache NodeLocal server Pod: a scheduled source engine on the target node is required"
            else
              let* _ := echeck (validateLMCacheNodeLocalServerConfig server (effectiveLMCacheChunkSize (bs_LMCache (cb_Spec cb)))) in
              let* (l2Adapter, bindingEnv) := renderLMCacheMPL2Binding quote binding in
              let* l1GiB := quantityAsGiB (nls_L1Capacity server) in
              let* shmHostPath := NodeLocalServerShmHostPath quoteRune cb in
              inr (mkLivePod
                (mkPod (cb_Namespace cb) (NodeLocalServerPodName (cb_Name cb) nodeName) ""
                   {["app.kubernetes.io/name" := "lmcache-mp-server"; "app.kubernetes.io/managed-by" := "inference-cache-controller";
                     LabelLMCacheNodeLocalServer := "true"; LabelCacheBackendUID := cb_UID cb; LabelLMCacheMPMetrics := "true"]}
                   {[AnnotationNodeLocalOwner := cb_Namespace cb +:+ "/" +:+ cb_Name cb; AnnotationNodeLocalOwnerUID := cb_UID cb;
                     AnnotationNodeLocalGeneration := FormatInt (cb_Generation cb); AnnotationNodeLocalTargetNode := nodeName]}
                   (mkPodSpec [] [nodeLocalServerContainer cb server l1GiB l2Adapter bindingEnv] [shmVolume shmHostPath]))
                None false "" [] (Some (exactNodeAffinity nodeName)) (mergeScheduling (lp_Scheduling src) scheduling)
                (mkHostSettings true "ClusterFirstWithHostNet" (Some false) (Some false)) "Always" 0 false "" [] [] [])
        | None => inl "render LMCache NodeLocal server Pod: a scheduled source engine on the target node is required"
        end
  end.

(** ** Cleanup *)

Definition nodeLocalShmHelperSecurityContext : SecurityContext :=
  mkSecurityContext (Some false) (Some 0) (Some 0) (Some false) (Some true) ["ALL"] (Some "RuntimeDefault").

Definition nodeLocalShmHelperResources : ResourceRequirements :=
  mkResources {["cpu" := MustParse "10m"; "memory" := MustParse "32Mi"]} {["memory" := MustParse "128Mi"]} [].

Definition cleanupContainer (image : string) : Container :=
  mkContainer lmCacheNodeLocalShmCleanupName image "IfNotPresent" None "" ["/node-local-shm-cleanup"] [lmCacheNodeLocalShmCleanupPath]
    [] [] nodeLocalShmHelperResources [mkVolumeMount lmCacheNodeLocalShmVolumeName lmCacheNodeLocalShmCleanupPath "" "" false] [] []
    None None None (Some nodeLocalShmHelperSecurityContext) (EmptyString, EmptyString).

(** [pullSecrets] are those of the scheduling block of a NodeLocal spec. *)
Definition RenderLMCacheNodeLocalCleanupPod cb (pullSecrets : list string) (nodeName image : string) (source : LivePod) : string + LivePod :=
  if str_eqb (cb_UID cb) "" || str_eqb (TrimSpace image) "" || str_eqb (TrimSpace nodeName) "" then
    inl "render LMCache NodeLocal SHM cleanup Pod: backend UID, target node, cleanup image, and scheduling source are required"
  else
    let* shmHostPath := NodeLocalServerShmHostPath quoteRune cb in
    let src := lp_Scheduling source in
    inr (mkLivePod
      (mkPod (cb_Namespace cb) (NodeLocalCleanupPodName (cb_UID cb) nodeName) ""
         {["app.kubernetes.io/name" := "lmcache-shm-cleanup"; "app.kubernetes.io/managed-by" := "inference-cache-controller";
           LabelLMCacheNodeLocalCleanup := "true"; LabelCacheBackendUID := cb_UID cb]}
         {[AnnotationNodeLocalOwner := cb_Namespace cb +:+ "/" +:+ cb_Name cb; AnnotationNodeLocalOwnerUID := cb_UID cb;
           AnnotationNodeLocalTargetNode := nodeName]}
         (mkPodSpec [] [cleanupContainer (TrimSpace image)] [shmVolume shmHostPath]))
      None false "" [lmCacheNodeLocalShmCleanupGate] (Some (exactNodeAffinity nodeName))
      (mkPodScheduling (sd_Tolerations src) pullSecrets "" None (sd_PriorityClassName src) (sd_SchedulerName src) None (Some 5))
      (mkHostSettings false "" (Some false) (Some false)) "Never" 0 false "" [] [] []).

Definition RenderLMCacheNodeLocalCleanupRetryPod cb (failed : LivePod) : string + LivePod :=
  let p := lp_Pod failed in
  if str_eqb (cb_UID cb) "" || str_eqb (TrimSpace (p_Name p)) "" then
    inl "render LMCache NodeLocal SHM cleanup retry: backend UID and failed cleanup Pod are required"
  else
    let nodeName := lpAnnotation failed AnnotationNodeLocalTargetNode in
    if str_eqb (TrimSpace nodeName) "" then inl "render LMCache NodeLocal SHM cleanup retry: target node is required"
    else
      inr (mkLivePod
        (mkPod (cb_Namespace cb) (NodeLocalCleanupRetryPodName (cb_UID cb) nodeName (p_Name p)) "" (p_Labels p) (p_Annotations p) (p_Spec p))
        None false "" [lmCacheNodeLocalShmCleanupGate] (lp_Affinity failed) (lp_Scheduling failed) (lp_Host failed)
        (lp_RestartPolicy failed) (lp_EphemeralContainers failed) (lp_MountPropagation failed) "" [] [] []).

Definition LMCacheNodeLocalCleanupIsGated pod : bool :=
  bool_decide (lp_SchedulingGates pod = [lmCacheNodeLocalShmCleanupGate]).

Definition IsLMCacheNodeLocalCleanupPod pod cb (nodeName image : string) : bool :=
  let p := lp_Pod pod in
  negb (str_eqb (cb_UID cb) "") && negb (str_eqb (TrimSpace nodeName) "") && negb (str_eqb (TrimSpace image) "") &&
  str_eqb (p_Namespace p) (cb_Namespace cb) && IsControlledBy pod cb && IsNodeLocalCleanupPodName (cb_UID cb) nodeName (p_Name p) &&
  str_eqb (lpLabel pod LabelLMCacheNodeLocalCleanup) "true" && str_eqb (lpLabel pod LabelCacheBackendUID) (cb_UID cb) &&
  str_eqb (lpAnnotation pod AnnotationNodeLocalOwnerUID) (cb_UID cb) &&
  str_eqb (lpAnnotation pod AnnotationNodeLocalTargetNode) nodeName &&
  (str_eqb (lp_NodeName pod) "" || str_eqb (lp_NodeName pod) nodeName) &&
  bool_decide (lp_Affinity pod = Some (exactNodeAffinity nodeName)) && str_eqb (lp_RestartPolicy pod) "Never" &&
  bool_decide (psp_InitContainers (p_Spec p) = []) && (lp_EphemeralContainers pod =? 0)%nat &&
  (bool_decide (lp_SchedulingGates pod = []) || LMCacheNodeLocalCleanupIsGated pod) &&
  match psp_Containers (p_Spec p), psp_Volumes (p_Spec p) with
  | [c], [v] =>
      match NodeLocalServerShmHostPath quoteRune cb with
      | inl _ => false
      | inr wantPath =>
          bool_decide (vol_Name v = lmCacheNodeLocalShmVolumeName) &&
          bool_decide (vs_HostPath (vol_Source v) = Some (wantPath, "DirectoryOrCreate")) &&
          str_eqb (cn_Name c) lmCacheNodeLocalShmCleanupName && str_eqb (cn_Image c) (TrimSpace image) &&
          bool_decide (cn_Command c = ["/node-local-shm-cleanup"]) && bool_decide (cn_Args c = [lmCacheNodeLocalShmCleanupPath]) &&
          bool_decide (cn_VolumeMounts c = [mkVolumeMount lmCacheNodeLocalShmVolumeName lmCacheNodeLocalShmCleanupPath "" "" false]) &&
          negb (lp_MountPropagation pod)
      end
  | _, _ => false
  end.

Definition LMCacheNodeLocalCleanupSucceeded pod (nodeName : string) : bool :=
  str_eqb (lp_Phase pod) PodSucceeded && str_eqb (lp_NodeName pod) nodeName &&
  match lp_ContainerStatuses pod with
  | [status] =>
      str_eqb (cst_Name status) lmCacheNodeLocalShmCleanupName &&
      match cst_Terminated status with Some t => te_ExitCode t =? 0 | None => false end
  | _ => false
  end.
End pods.
