(* ===== verification/NodeLocalServers.v ===== *)
(** * The lifecycle of NodeLocal servers (controller/cachebackend_lmcache_nodelocal.go)

    One server per node that hosts an injected engine, retired after an idle period, and a cleanup
    pod that clears the node's shared-memory directory once nothing uses it.  The calls that write
    are recorded in order ([PodCall]); what the apiserver answers to each call and to each List is
    an input ([NodeLocalAnswers]).  An error ends the pass; the calls made so far stay made. *)

From S2P Require Import Prelude Ordering GoRuntime GoText K8s Auth ControlPlane IndexPoller CoreV1 BackendApi.
From S2P Require Import Adapters Renderer EngineWire LiveObjects ReadinessGate ProbeGate EngineHealth.
From S2P Require Import ConnectorHealth NodeLocalPods.

Definition nodeLocalShmCleanupFinalizer : string := "inferencecache.io/nodelocal-shm-cleanup".
Definition nodeLocalShmCleanupRetryAnnotation : string := "inferencecache.io/node-local-shm-cleanup-retry".
Definition nodeLocalShmCleanupMaxRetryAttempts : Z := 3.

Section lifecycle.
Context `{QO : QuantityOps}.
Variables (quote quoteRune : string → string) (sha256 : string → string).
(** time.Parse and Time.Format with RFC3339Nano. *)
Variables (parseTime : string → option Time) (formatTime : Time → string).
Implicit Types (cb : CacheBackend) (pod : LivePod) (pods : list LivePod) (node : string).

(** ** Calls and answers *)

Inductive PodCall :=
  | CreatePod (p : LivePod)
  | DeletePod (p : LivePod)
  | PatchIdle (p : LivePod) (since : option Time)     (* the idle-since annotation *)
  | ReleaseGate (p : LivePod).                        (* scheduling gates removed *)

Inductive CreateAnswer :=
  | CreateOK
  | CreateExists (existing : GetResult LivePod)       (* AlreadyExists, and the Get that follows *)
  | CreateErr.

(** [na_Delete] is true also when the object is already gone. *)
Record NodeLocalAnswers := mkNodeLocalAnswers {
  na_Now : Time;
  na_Engines : ListResult LivePod;                    (* selected engines *)
  na_Servers : ListResult LivePod;
  na_Cleanups : ListResult LivePod;                   (* in reconcileLMCacheNodeLocalCleanupPods *)
  na_EnsureCleanups : string → ListResult LivePod;    (* per node, in ensure...ForNode *)
  na_Consumers : string → ListResult LivePod;         (* cluster-wide, per node *)
  na_NamespacePods : ListResult LivePod;              (* in ensure...ForConsumers *)
  na_Create : LivePod → CreateAnswer;
  na_Delete : LivePod → bool;
  na_Patch : LivePod → bool
}.

(** A pass: the calls made, and its result or an error. *)
Definition Pass (A : Type) : Type := list PodCall * option A.
Definition done_ {A : Type} (a : A) : Pass A := ([], Some a).
Definition fail_ {A : Type} : Pass A := ([], None).
Definition andThen {A B : Type} (m : Pass A) (k : A → Pass B) : Pass B :=
  match m.2 with
  | None => (m.1, None)
  | Some a => (m.1 ++ (k a).1, (k a).2)
  end.
Notation "'let!' x := m 'in' k" := (andThen m (λ x, k))
  (at level 200, x pattern, m at level 100, k at level 200, only parsing).

Definition ofOption {A : Type} (o : option A) : Pass A := ([], o).
Definition ofSum {A : Type} (s : string + A) : Pass A := ([], match s with inr a => Some a | inl _ => None end).

(** A fold whose steps may fail. *)
Fixpoint passFold {A B : Type} (f : A → B → Pass A) (a : A) (l : list B) : Pass A :=
  match l with
  | [] => done_ a
  | b :: l => let! a' := f a b in passFold f a' l
  end.

Section rounds.
Context (ans : NodeLocalAnswers) (image : string) (scheduling : option PodScheduling).

Definition deletePod pod : Pass unit := ([DeletePod pod], if na_Delete ans pod then Some tt else None).

(** Unless it is being deleted already. *)
Definition deleteLive pod : Pass unit := if lp_Deleting pod then done_ tt else deletePod pod.

(** ** Demand *)

Definition nodeLocalEngineDemand cb : option (gmap string LivePod) :=
  if bool_decide (matchLabels cb = ∅) then Some ∅
  else
    pods ← listIn (na_Engines ans) (cb_Namespace cb) (matchLabels cb);
    Some (foldl (λ out p,
            if activePod p && negb (str_eqb (lp_NodeName p) "") &&
               str_eqb (lpAnnotation p AnnotationInjectedBy) (backendKey cb) &&
               str_eqb (lpAnnotation p AnnotationInjectedByUID) (cb_UID cb)
            then match out !! lp_NodeName p with Some _ => out | None => <[lp_NodeName p := p]> out end
            else out) (∅ : gmap string LivePod)
          (go_sort (λ a b, str_lt (p_Name (lp_Pod a)) (p_Name (lp_Pod b))) pods)).

Definition nodeLocalServerTargetNode pod : string :=
  let n := lpAnnotation pod AnnotationNodeLocalTargetNode in if str_eqb n "" then lp_NodeName pod else n.

Definition usesHostPath pod (wantHostPath : string) : bool :=
  existsb (λ v, match vs_HostPath (vol_Source v) with Some (path, _) => str_eqb path wantHostPath | None => false end)
    (psp_Volumes (p_Spec (lp_Pod pod))).

Definition nodeLocalServerUsesShmHostPath pod (wantHostPath : string) : bool :=
  negb (str_eqb wantHostPath "") && usesHostPath pod wantHostPath.

Definition cleanupLabels cb : gmap string string :=
  {[LabelLMCacheNodeLocalCleanup := "true"; LabelCacheBackendUID := cb_UID cb]}.

(** ** Cleanup intents *)

Definition isCleanup cb pod node : bool := IsLMCacheNodeLocalCleanupPod quoteRune sha256 pod cb node image.

Definition pullSecrets cb : list string :=
  match l ← bs_LMCache (cb_Spec cb); lm_NodeLocal l with
  | Some _ => match scheduling with Some s => sd_ImagePullSecrets s | None => [] end
  | None => []
  end.

(** The controller reference of a created object. *)
Definition owned cb (p : LivePod) : LivePod :=
  mkLivePod (lp_Pod p) (Some (mkOwnerRef "inferencecache.io/v1alpha1" "CacheBackend" (cb_Name cb) (cb_UID cb))) (lp_Deleting p)
    (lp_NodeName p) (lp_SchedulingGates p) (lp_Affinity p) (lp_Scheduling p) (lp_Host p) (lp_RestartPolicy p)
    (lp_EphemeralContainers p) (lp_MountPropagation p) (lp_Phase p) (lp_Conditions p) (lp_InitContainerStatuses p)
    (lp_ContainerStatuses p).

Definition createPod (p : LivePod) (onExists : LivePod → bool) : Pass unit :=
  ([CreatePod p],
   match na_Create ans p with
   | CreateOK => Some tt
   | CreateErr => None
   | CreateExists (GetOK existing) => if onExists existing then Some tt else None
   | CreateExists _ => None
   end).

Definition ensureLMCacheNodeLocalCleanupForNode cb node (source : LivePod) : Pass unit :=
  let! cleanups := ofOption (listIn (na_EnsureCleanups ans node) (cb_Namespace cb) (cleanupLabels cb)) in
  match List.find (λ c, IsControlledBy c cb && str_eqb (lpAnnotation c AnnotationNodeLocalTargetNode) node) cleanups with
  | Some cleanup =>
      if isCleanup cb cleanup node && LMCacheNodeLocalCleanupIsGated cleanup then done_ tt
      else let! _ := deletePod cleanup in fail_
  | None =>
      let! desired := ofSum (RenderLMCacheNodeLocalCleanupPod quoteRune sha256 cb (pullSecrets cb) node image source) in
      createPod (owned cb desired) (λ existing, isCleanup cb existing node && LMCacheNodeLocalCleanupIsGated existing)
  end.

Definition ensureLMCacheNodeLocalCleanupPod cb (server : LivePod) : Pass unit :=
  if negb (IsControlledBy server cb) then fail_
  else ensureLMCacheNodeLocalCleanupForNode cb (nodeLocalServerTargetNode server) server.

Definition ensureLMCacheNodeLocalCleanupForConsumers cb : Pass unit :=
  if str_eqb (cb_UID cb) "" then done_ tt
  else
    let! wantPath := ofSum (NodeLocalServerShmHostPath quoteRune cb) in
    let! pods := ofOption (listIn (na_NamespacePods ans) (cb_Namespace cb) ∅) in
    passFold (λ _ p,
      if str_eqb (lp_NodeName p) "" || str_eqb (lpLabel p LabelLMCacheNodeLocalCleanup) "true" ||
         negb (str_eqb (lpAnnotation p AnnotationInjectedBy) (backendKey cb)) ||
         negb (str_eqb (lpAnnotation p AnnotationInjectedByUID) (cb_UID cb))
      then done_ tt
      else if usesHostPath p wantPath then ensureLMCacheNodeLocalCleanupForNode cb (lp_NodeName p) p
      else done_ tt) tt pods.

(** ** Consumers of the directory *)

Definition consumes cb (wantPath node : string) pod : bool :=
  negb (str_eqb (lp_NodeName pod) "") && negb (terminalPhase pod) &&
  (str_eqb node "" || str_eqb (lp_NodeName pod) node) &&
  negb (str_eqb (p_Namespace (lp_Pod pod)) (cb_Namespace cb) && str_eqb (lpLabel pod LabelLMCacheNodeLocalCleanup) "true" &&
        IsControlledBy pod cb) &&
  usesHostPath pod wantPath.

Definition nodeLocalShmConsumers cb node : option (list string) :=
  match NodeLocalServerShmHostPath quoteRune cb with
  | inl _ => None
  | inr wantPath =>
      match na_Consumers ans node with
      | ListOK pods => Some ((λ p, p_Namespace (lp_Pod p) +:+ "/" +:+ p_Name (lp_Pod p)) <$> List.filter (consumes cb wantPath node) pods)
      | _ => None
      end
  end.

(** ** Advancing the cleanup pods *)

Definition targetOf pod : string := lpAnnotation pod AnnotationNodeLocalTargetNode.

(** The number of retries so far, unless it is malformed or exhausted. *)
Definition retryCount pod : option Z :=
  let text := lpAnnotation pod nodeLocalShmCleanupRetryAnnotation in
  n ← (if str_eqb text "" then Some 0 else ParseInt64 text);
  if (n <? 0) || (nodeLocalShmCleanupMaxRetryAttempts <=? n) then None else Some n.

(** The first pass over the pods: refuse an invalid one, note the active and the succeeded. *)
Definition cleanupActive pod : bool :=
  negb (LMCacheNodeLocalCleanupSucceeded pod (targetOf pod)) && negb (terminalPhase pod) && negb (lp_Deleting pod).

Definition checkCleanups cb pods : Pass unit :=
  passFold (λ _ p,
    if negb (IsControlledBy p cb) || isCleanup cb p (targetOf p) then done_ tt
    else let! _ := deleteLive p in fail_) tt pods.

(** The state of the second pass: the blocked nodes and the nodes with an active cleanup. *)
Record CleanupState := mkCleanupState { cl_blocked : gset string; cl_active : gset string }.

Definition block node (s : CleanupState) : CleanupState := mkCleanupState ({[node]} ∪ cl_blocked s) (cl_active s).

(** The annotations of the retry carry the next count. *)
Definition withRetryCount (n : Z) (p : LivePod) : LivePod :=
  mkLivePod (set_annotations (<[nodeLocalShmCleanupRetryAnnotation := FormatInt n]> (p_Annotations (lp_Pod p))) (lp_Pod p))
    (lp_Controller p) (lp_Deleting p) (lp_NodeName p) (lp_SchedulingGates p) (lp_Affinity p) (lp_Scheduling p) (lp_Host p)
    (lp_RestartPolicy p) (lp_EphemeralContainers p) (lp_MountPropagation p) (lp_Phase p) (lp_Conditions p)
    (lp_InitContainerStatuses p) (lp_ContainerStatuses p).

Definition retryCleanup cb (n : Z) (failed : LivePod) : Pass unit :=
  let! retry := ofSum (RenderLMCacheNodeLocalCleanupRetryPod sha256 cb failed) in
  createPod (owned cb (withRetryCount (n + 1) retry)) (λ existing, IsControlledBy existing cb).

Definition advanceFailed cb (succeeded : gset string) (s : CleanupState) pod : Pass CleanupState :=
  let node := targetOf pod in
  let s := block node s in
  if bool_decide (node ∈ succeeded) then let! _ := deleteLive pod in done_ s
  else
    match retryCount pod with
    | None => done_ s
    | Some n =>
        if bool_decide (node ∈ cl_active s) then let! _ := deleteLive pod in done_ s
        else
          let! _ := retryCleanup cb n pod in
          let s := mkCleanupState (cl_blocked s) ({[node]} ∪ cl_active s) in
          let! _ := deleteLive pod in done_ s
    end.

Definition advanceCleanup cb (demand : gmap string LivePod) (cancelOnDemand : bool) (succeeded : gset string)
    (s : CleanupState) pod : Pass CleanupState :=
  if negb (IsControlledBy pod cb) then done_ s
  else
    let node := targetOf pod in
    if LMCacheNodeLocalCleanupSucceeded pod node then let! _ := deleteLive pod in done_ s
    else if terminalPhase pod then advanceFailed cb succeeded s pod
    else
      let gated := negb (bool_decide (lp_SchedulingGates pod = [])) in
      if gated && cancelOnDemand && bool_decide (is_Some (demand !! node)) then let! _ := deleteLive pod in done_ s
      else
        let s := block node s in
        if negb gated || lp_Deleting pod then done_ s
        else
          let! consumers := ofOption (nodeLocalShmConsumers cb node) in
          if negb (bool_decide (consumers = [])) then done_ s
          else ([ReleaseGate pod], if na_Patch ans pod then Some s else None).

(** The nodes on which a cleanup is pending. *)
Definition reconcileLMCacheNodeLocalCleanupPods cb (demand : gmap string LivePod) (cancelOnDemand : bool) : Pass (gset string) :=
  if str_eqb (cb_UID cb) "" then done_ ∅
  else
    let! pods := ofOption (listIn (na_Cleanups ans) (cb_Namespace cb) (cleanupLabels cb)) in
    let! _ := checkCleanups cb pods in
    let mine := List.filter (λ p, IsControlledBy p cb) pods in
    let active := list_to_set (targetOf <$> List.filter cleanupActive mine) in
    let succeeded := list_to_set (targetOf <$> List.filter (λ p, LMCacheNodeLocalCleanupSucceeded p (targetOf p)) mine) in
    let! s := passFold (advanceCleanup cb demand cancelOnDemand succeeded) (mkCleanupState ∅ active) pods in
    done_ (cl_blocked s).

(** ** The server pods *)

Definition cleanupLMCacheNodeLocalServerPods cb : Pass unit :=
  if str_eqb (cb_UID cb) "" then done_ tt
  else
    let! pods := ofOption (listIn (na_Servers ans) (cb_Namespace cb) (nodeLocalServerLabels cb)) in
    let! wantPath := ofSum (NodeLocalServerShmHostPath quoteRune cb) in
    let! _ := passFold (λ _ p,
           if negb (IsControlledBy p cb) || lp_Deleting p then done_ tt
           else
             let! _ := (if nodeLocalServerUsesShmHostPath p wantPath then ensureLMCacheNodeLocalCleanupPod cb p else done_ tt) in
             deletePod p) tt pods in
    let! _ := reconcileLMCacheNodeLocalCleanupPods cb ∅ false in
    done_ tt.

(** Nodes with a live server, and nodes whose cleanup blocks a new one. *)
Record ServerState := mkServerState { sv_live : gset string; sv_cleanup : gset string }.

Definition currentFor cb (wantPath : string) pod : bool :=
  str_eqb (lpAnnotation pod AnnotationNodeLocalOwnerUID) (cb_UID cb) &&
  str_eqb (lpAnnotation pod AnnotationNodeLocalGeneration) (FormatInt (cb_Generation cb)) &&
  str_eqb (p_Name (lp_Pod pod)) (NodeLocalServerPodName sha256 (cb_Name cb) (nodeLocalServerTargetNode pod)) &&
  nodeLocalServerHasRuntimeIdentity pod wantPath.

(** A pod of another generation or profile. *)
Definition retireStale cb (wantPath : string) (wanted : bool) (s : ServerState) pod : Pass ServerState :=
  if lp_Deleting pod then done_ s
  else
    let cleans := nodeLocalServerUsesShmHostPath pod wantPath &&
                  (negb (nodeLocalServerHasRuntimeIdentity pod wantPath) || negb wanted) in
    let! s := (if cleans then
            let! _ := ensureLMCacheNodeLocalCleanupPod cb pod in
            done_ (mkServerState (sv_live s) ({[nodeLocalServerTargetNode pod]} ∪ sv_cleanup s))
          else done_ s) in
    let! _ := deletePod pod in done_ s.

(** A current pod on a node without engines. *)
Definition retireIdle cb (retention : Duration) (s : ServerState) pod : Pass ServerState :=
  let retire := let! _ := ensureLMCacheNodeLocalCleanupPod cb pod in let! _ := deletePod pod in done_ s in
  if retention <=? 0 then if lp_Deleting pod then done_ s else retire
  else
    match parseTime (lpAnnotation pod AnnotationNodeLocalIdleSince) with
    | None => ([PatchIdle pod (Some (na_Now ans))], if na_Patch ans pod then Some s else None)
    | Some idleSince =>
        if (retention <=? time_sub (na_Now ans) idleSince) && negb (lp_Deleting pod) then retire else done_ s
    end.

(** A current pod on a node with engines. *)
Definition keepServer (s : ServerState) pod : Pass ServerState :=
  let node := nodeLocalServerTargetNode pod in
  let! _ := (match p_Annotations (lp_Pod pod) !! AnnotationNodeLocalIdleSince with
        | Some _ => ([PatchIdle pod None], if na_Patch ans pod then Some tt else None)
        | None => done_ tt
        end) in
  if bool_decide (node ∈ sv_live s) then let! _ := deleteLive pod in done_ s
  else done_ (mkServerState ({[node]} ∪ sv_live s) (sv_cleanup s)).

Definition reviewServer cb (wantPath : string) (retention : Duration) (demand : gmap string LivePod) (s : ServerState) pod :
    Pass ServerState :=
  if negb (IsControlledBy pod cb) then done_ s
  else
    let wanted := bool_decide (is_Some (demand !! nodeLocalServerTargetNode pod)) in
    if negb (currentFor cb wantPath pod) then retireStale cb wantPath wanted s pod
    else if negb wanted then retireIdle cb retention s pod
    else keepServer s pod.

(** A controller reference can always be set on a fresh object; a colliding name is tolerated only
    while this backend's previous server is being deleted. *)
Definition createServer cb (binding : option Binding) (demand : gmap string LivePod) (s : ServerState) (_ : unit) node : Pass unit :=
  if bool_decide (node ∈ sv_live s) || bool_decide (node ∈ sv_cleanup s) then done_ tt
  else
    let! desired := ofSum (RenderLMCacheNodeLocalServerPod quote quoteRune sha256 cb scheduling binding node (demand !! node)) in
    createPod (owned cb desired) (λ existing, IsControlledBy existing cb && lp_Deleting existing).

Definition idleRetention cb : Duration :=
  match l ← bs_LMCache (cb_Spec cb); lm_NodeLocal l with
  | Some n => wrap64 (nl_IdleRetentionSeconds n * Second)
  | None => 0
  end.

Definition reconcileLMCacheNodeLocalServerPods cb (hasFinalizer : bool) (binding : option Binding) : Pass unit :=
  if negb (isTypedLMCacheNodeLocal cb) then
    let! _ := (if hasFinalizer then ensureLMCacheNodeLocalCleanupForConsumers cb else done_ tt) in
    cleanupLMCacheNodeLocalServerPods cb
  else
    let! demand := ofOption (nodeLocalEngineDemand cb) in
    let! wantPath := ofSum (NodeLocalServerShmHostPath quoteRune cb) in
    let! servers := ofOption (listIn (na_Servers ans) (cb_Namespace cb) (nodeLocalServerLabels cb)) in
    let! cleanupNodes := reconcileLMCacheNodeLocalCleanupPods cb demand true in
    let! s := passFold (reviewServer cb wantPath (idleRetention cb) demand) (mkServerState ∅ cleanupNodes) servers in
    passFold (createServer cb binding demand s) tt (go_sort str_lt (map_to_list demand).*1).
End rounds.

(** ** Deletion of the backend *)

(** The rounds of a finalization see the cluster at different times: the answers to the consumers
    and servers, to the cleanup pods, and to the last look.  It comes to an error, another round in
    a second, or the finalizer removed. *)
Definition finalizeLMCacheNodeLocal (ans1 ans2 ans3 : NodeLocalAnswers) (image : string) (scheduling : option PodScheduling) cb
    (workloadGone patchFinalizer : bool) : Pass (Duration * bool) :=
  if negb workloadGone then fail_
  else
    let! _ := ensureLMCacheNodeLocalCleanupForConsumers ans1 image scheduling cb in
    let! _ := cleanupLMCacheNodeLocalServerPods ans1 image scheduling cb in
    let! _ := reconcileLMCacheNodeLocalCleanupPods ans2 image cb ∅ false in
    let! servers := ofOption (listIn (na_Servers ans3) (cb_Namespace cb) (nodeLocalServerLabels cb)) in
    let! cleanups := ofOption (listIn (na_Cleanups ans3) (cb_Namespace cb) (cleanupLabels cb)) in
    if negb (bool_decide (servers = [])) || negb (bool_decide (cleanups = [])) then done_ (Second, false)
    else
      let! consumers := ofOption (nodeLocalShmConsumers ans3 cb "") in
      if negb (bool_decide (consumers = [])) then done_ (Second, false)
      else if patchFinalizer then done_ (0, true) else fail_.
End lifecycle.
