(* ===== verification/BackendSamples.v ===== *)
(** * Concrete backends, pods and validators for the witnesses *)

From S2P Require Import Prelude Ordering GoRuntime GoText CoreV1 BackendApi Endpoints Adapters Renderer.
From S2P Require Import EngineWire EngineAdapters.
Import MilliQuantity.

(** Names of letters, digits, dashes and, where [dots], dots. *)
Definition sampleName (dots : bool) (s : string) : list string :=
  if negb (str_eqb s "") && str_forallb (if dots then dnsChar else labelChar) s then [] else ["invalid name"].

#[export] Instance sampleValidation : KValidation := {
  IsValidLabelValue s := if str_forallb dnsChar s then [] else ["invalid label value"];
  IsQualifiedName s := if ContainsByte s "/" then [] else ["unqualified name"];
  IsDNS1123Label := sampleName false;
  IsDNS1123Subdomain := sampleName true;
  IsConfigMapKey := sampleName true;
  IsEnvVarName s := if str_eqb s "" then ["empty name"] else []
}.

Lemma sampleName_plain dots s : sampleName dots s = [] → s ≠ "" ∧ ContainsByte s "/" = false.
Proof.
  unfold sampleName. destruct (str_eqb s "") eqn:E; [done|]. apply str_eqb_neq in E. cbn [negb andb].
  destruct dots, (str_forallb _ s) eqn:Ef; [|done| |done]; intros _; (split; [done|]).
  - by apply (str_forallb_excludes dnsChar).
  - by apply (str_forallb_excludes labelChar).
Qed.

#[export] Instance sampleValidationLaws : KValidationLaws.
Proof. split; apply sampleName_plain. Qed.

Definition sampleQuote (s : string) : string := dq +:+ s +:+ dq.

Definition noResources : ResourceRequirements := mkResources ∅ ∅ [].

Definition plainContainer (name : string) (args : list string) (env : list EnvVar) : Container :=
  mkContainer name "img" "" None "" [] args env [] noResources [] [] [] None None None None ("", "").

Definition samplePod (labels annotations : gmap string string) (c : Container) : Pod :=
  mkPod "team" "engine-0" "pod-uid" labels annotations (mkPodSpec [] [c] []).

Definition mpServer : LMCachePodLocalServerSpec := mkPodLocalServer
  "lmcache@sha256:0123456789abcdef0123456789abcdef0123456789abcdef0123456789abcdef" 5555 (1000 * 2 ^ 31) 1
  (mkResources {["memory" := 1000 * 2 ^ 32; "cpu" := 1000]} {["memory" := 1000 * 2 ^ 32; "cpu" := 1000]} []).

Definition mpSpec (o : option EngineInjectionOverrides) : CacheBackendSpec :=
  mkBackendSpec CacheBackendRuntimeVLLM CacheBackendTypeLMCache
    (Some (mkLMCache LMCacheTopologyPodLocal (Some (Some mpServer)) None None))
    None None (Some (mkIntegration "" "" None o)) (Some {[CacheBackendDomainLabel := "team-a"]}) None false.

Definition mpBackend (o : option EngineInjectionOverrides) : CacheBackend :=
  mkCacheBackend "team" "cache" "uid-1" 7 ∅ (mpSpec o) None.

Definition hiBackend : CacheBackend :=
  mkCacheBackend "team" "hicache" "uid-2" 1 ∅
    (mkBackendSpec CacheBackendRuntimeSGLang CacheBackendTypeSGLangHiCache None None None
       (Some (mkIntegration "" "" None None)) (Some {[CacheBackendDomainLabel := "team-b"]})
       (Some (mkHiCache (Some (mkInt32Ptr 4096 16)) "" "write_back" "" "")) false) None.

Definition sampleRegistry : list KVCacheRuntimeAdapter :=
  newRegistry sampleQuote sampleQuote (mkSubscriberConfig "subscriber:v1" "server:9090").

(** ** An encoding of pods, for the handlers that store them *)

Module PodCodec.
(** Values as lists of numbers, read back from the front. *)
Class Ser (A : Type) := {
  put : A → list Z;
  get : list Z → option (A * list Z);
  get_put a r : get (put a ++ r) = Some (a, r)
}.

#[local] Instance Z_ser : Ser Z.
Proof. by refine {| put z := [z]; get l := match l with z :: r => Some (z, r) | [] => None end |}. Defined.

Lemma iso_get_put {A B : Type} `{Ser B} (f : A → B) (g : B → A) (Hgf : ∀ a, g (f a) = a) a r :
  ('(b, r') ← get (put (f a) ++ r); Some (g b, r')) = Some (a, r).
Proof. rewrite get_put. simpl. by rewrite Hgf. Qed.

Definition iso_ser {A B : Type} `{Ser B} (f : A → B) (g : B → A) (Hgf : ∀ a, g (f a) = a) : Ser A :=
  {| put a := put (f a); get l := '(b, r) ← get l; Some (g b, r); get_put := iso_get_put f g Hgf |}.

Ltac by_fields f g := refine (iso_ser f g _); by intros [].

#[local] Instance Quantity_ser : Ser Quantity := Z_ser.

#[local] Instance prod_ser {A B : Type} `{Ser A, Ser B} : Ser (A * B).
Proof.
  refine {| put x := put x.1 ++ put x.2; get l := '(a, r) ← get l; '(b, r') ← get r; Some ((a, b), r') |}.
  intros [a b] r. rewrite <-app_assoc, get_put. simpl. by rewrite get_put.
Defined.

#[local] Instance sum_ser {A B : Type} `{Ser A, Ser B} : Ser (A + B).
Proof.
  refine {| put x := match x with inl a => 0 :: put a | inr b => 1 :: put b end;
            get l := match l with
                     | 0 :: r => '(a, r') ← get r; Some (inl a, r')
                     | _ :: r => '(b, r') ← get r; Some (inr b, r')
                     | [] => None
                     end |}.
  intros [a|b] r; simpl; by rewrite get_put.
Defined.

#[local] Instance unit_ser : Ser unit.
Proof. refine {| put _ := []; get l := Some (tt, l) |}. by intros [] r. Defined.
#[local] Instance bool_ser : Ser bool.
Proof. refine (iso_ser (λ b : bool, if b then 1 else 0) (λ z, bool_decide (z = 1)) _). by intros []. Defined.
#[local] Instance option_ser {A : Type} `{Ser A} : Ser (option A).
Proof.
  refine (iso_ser (λ o, match o with Some a => inr a | None => inl tt end)
    (λ s : () + A, match s with inl _ => None | inr a => Some a end) _). by intros [].
Defined.

Fixpoint getN {A : Type} `{Ser A} (n : nat) (l : list Z) : option (list A * list Z) :=
  match n with
  | O => Some ([], l)
  | S n => '(a, r) ← get l; '(x, r') ← getN n r; Some (a :: x, r')
  end.

Lemma getN_puts {A : Type} `{Ser A} (x : list A) r : getN (length x) ((x ≫= put) ++ r) = Some (x, r).
Proof. induction x as [|a x IH]; [done|]. simpl. rewrite <-app_assoc, get_put. simpl. change (list_bind _ _ put x) with (x ≫= put). by rewrite IH. Qed.

#[local] Instance list_ser {A : Type} `{Ser A} : Ser (list A).
Proof.
  refine {| put x := Z.of_nat (length x) :: (x ≫= put);
            get l := match l with n :: r => getN (Z.to_nat n) r | [] => None end |}.
  intros x r. simpl. rewrite Nat2Z.id. apply getN_puts.
Defined.

#[local] Instance string_ser : Ser string.
Proof.
  refine (iso_ser (λ s, Z_of_byte <$> String.list_ascii_of_string s) (λ l, String.string_of_list_ascii (byte_of_Z <$> l)) _).
  intros s. rewrite <-list_fmap_compose. rewrite (list_fmap_ext _ id), list_fmap_id, String.string_of_list_ascii_of_string; [done|].
  intros i a _. by destruct a as [[] [] [] [] [] [] [] []].
Defined.

#[local] Instance gmap_ser {A : Type} `{Ser A} : Ser (gmap string A).
Proof. refine (iso_ser (B := list (string * A)) (λ m : gmap string A, map_to_list m) (λ l, list_to_map l) _). apply list_to_map_to_list. Defined.

#[local] Instance KeySelector_ser : Ser KeySelector.
Proof. by_fields (λ k, (ks_Name k, ks_Key k, ks_Optional k)) (λ '(a, b, c), mkKeySelector a b c). Defined.
#[local] Instance EnvVarSource_ser : Ser EnvVarSource.
Proof.
  by_fields (λ k, (es_FieldRef k, es_ResourceFieldRef k, es_ConfigMapKeyRef k, es_SecretKeyRef k, es_FileKeyRef k))
    (λ '(a, b, c, d, e), mkEnvVarSource a b c d e).
Defined.
#[local] Instance EnvVar_ser : Ser EnvVar.
Proof. by_fields (λ k, (ev_Name k, ev_Value k, ev_ValueFrom k)) (λ '(a, b, c), mkEnvVar a b c). Defined.
#[local] Instance ResourceRequirements_ser : Ser ResourceRequirements.
Proof. by_fields (λ k, (rr_Requests k, rr_Limits k, rr_Claims k)) (λ '(a, b, c), mkResources a b c). Defined.
#[local] Instance VolumeMount_ser : Ser VolumeMount.
Proof.
  by_fields (λ k, (vm_Name k, vm_MountPath k, vm_SubPath k, vm_SubPathExpr k, vm_ReadOnly k))
    (λ '(a, b, c, d, e), mkVolumeMount a b c d e).
Defined.
#[local] Instance ContainerPort_ser : Ser ContainerPort.
Proof.
  by_fields (λ k, (port_Name k, port_ContainerPort k, port_HostPort k, port_Protocol k))
    (λ '(a, b, c, d), mkContainerPort a b c d).
Defined.
#[local] Instance ProbeHandler_ser : Ser ProbeHandler.
Proof.
  by_fields (λ k, match k with HTTPGet a b => inl (a, b) | TCPSocket a => inr (inl a) | ExecProbe l => inr (inr l) end)
    (λ k : (string * string) + (string + list string),
       match k with inl (a, b) => HTTPGet a b | inr (inl a) => TCPSocket a | inr (inr l) => ExecProbe l end).
Defined.
#[local] Instance Probe_ser : Ser Probe.
Proof.
  by_fields (λ k, (pr_Handler k, pr_InitialDelaySeconds k, pr_PeriodSeconds k, pr_FailureThreshold k, pr_TimeoutSeconds k))
    (λ '(a, b, c, d, e), mkProbe a b c d e).
Defined.
#[local] Instance EnvFromSource_ser : Ser EnvFromSource.
Proof. by_fields (λ k, (ef_Prefix k, ef_ConfigMapRef k, ef_SecretRef k)) (λ '(a, b, c), mkEnvFrom a b c). Defined.
#[local] Instance SecurityContext_ser : Ser SecurityContext.
Proof.
  by_fields (λ k, (sc_RunAsNonRoot k, sc_RunAsUser k, sc_RunAsGroup k, sc_AllowPrivilegeEscalation k,
                   sc_ReadOnlyRootFilesystem k, sc_DropCapabilities k, sc_SeccompProfile k))
    (λ '(a, b, c, d, e, f, g), mkSecurityContext a b c d e f g).
Defined.
#[local] Instance Container_ser : Ser Container.
Proof.
  by_fields (λ k, ((cn_Name k, cn_Image k, cn_ImagePullPolicy k, cn_RestartPolicy k, cn_WorkingDir k, cn_Command k, cn_Args k, cn_Env k),
                   (cn_EnvFrom k, cn_Resources k, cn_VolumeMounts k, cn_VolumeDevices k, cn_Ports k, cn_StartupProbe k,
                    cn_ReadinessProbe k, cn_LivenessProbe k, cn_SecurityContext k, cn_TerminationMessage k)))
    (λ '((a, b, c, d, e, f, g, h), (i, j, k, l, m, n, o, p, q, r)), mkContainer a b c d e f g h i j k l m n o p q r).
Defined.
#[local] Instance EmptyDir_ser : Ser EmptyDir.
Proof. by_fields (λ k, (ed_Medium k, ed_SizeLimit k)) (λ '(a, b), mkEmptyDir a b). Defined.
#[local] Instance VolumeSource_ser : Ser VolumeSource.
Proof.
  by_fields (λ k, (vs_EmptyDir k, vs_HostPath k, vs_ConfigMap k, vs_Secret k, vs_DownwardAPI k, vs_Projected k, vs_PVC k, vs_CSI k, vs_NFS k))
    (λ '(a, b, c, d, e, f, g, h, i), mkVolumeSource a b c d e f g h i).
Defined.
#[local] Instance Volume_ser : Ser Volume.
Proof. by_fields (λ k, (vol_Name k, vol_Source k)) (λ '(a, b), mkVolume a b). Defined.
#[local] Instance PodSpec_ser : Ser PodSpec.
Proof. by_fields (λ k, (psp_InitContainers k, psp_Containers k, psp_Volumes k)) (λ '(a, b, c), mkPodSpec a b c). Defined.
#[local] Instance Pod_ser : Ser Pod.
Proof.
  by_fields (λ k, (p_Namespace k, p_Name k, p_UID k, p_Labels k, p_Annotations k, p_Spec k))
    (λ '(a, b, c, d, e, f), mkPod a b c d e f).
Defined.

Fixpoint bits (p : positive) : string :=
  match p with xH => "" | xO p => String "0" (bits p) | xI p => String "1" (bits p) end.
Fixpoint unbits (s : string) : positive :=
  match s with "" => xH | String a s => if bool_decide (a = "1"%char) then xI (unbits s) else xO (unbits s) end.

Lemma unbits_bits p : unbits (bits p) = p.
Proof. induction p as [p IH|p IH|]; cbn; by rewrite ?IH. Qed.

Definition marshal (p : Pod) : string + string := inr (bits (encode (put p))).
Definition unmarshal (s : string) : string + Pod :=
  match l ← decode (unbits s); get l with Some (p, []) => inr p | _ => inl "invalid pod" end.

Lemma unmarshal_marshal p : ∃ s, marshal p = inr s ∧ unmarshal s = inr p.
Proof. eexists. split; [done|]. unfold unmarshal. rewrite unbits_bits, decode_encode. cbn [mbind option_bind]. pose proof (get_put p []) as E. rewrite app_nil_r in E. by rewrite E. Qed.
End PodCodec.
