(* ===== verification/StorageProviders.v ===== *)
(** * The built-in storage providers (adapters/builtin/storage)

    The managed Redis workload, the external declaration, and the registry of both. *)

From S2P Require Import Prelude Ordering GoRuntime GoText CoreV1 BackendApi Adapters.

Definition defaultRedisImage : string := "docker.io/library/redis:7.4-alpine".
Definition defaultRedisPort : Z := 6379.
Definition defaultRedisPortName : string := "redis".
Definition redisMaxmemoryDefaultBytes : Z := 8 * 1024 * 1024 * 1024.
Definition redisPasswordEnv : string := "REDIS_PASSWORD".
Definition redisCLIAuthEnv : string := "REDISCLI_AUTH".

Section storage.
Context `{QO : QuantityOps}.
(** [%q] of fmt. *)
Variable quote : string → string.

(** ** Effective configuration *)

Definition defaultProviderResources : ResourceRequirements :=
  mkResources {["memory" := MustParse "4Gi"]} {["memory" := MustParse "8Gi"]} [].

Definition effectiveProviderResources (cache : CacheBackend) : ResourceRequirements :=
  match EffectiveRemoteStorage (cb_Spec cache) with
  | Some storage =>
      if str_eqb (rs_Provider storage) CacheBackendRemoteStorageProviderRedis then
        default defaultProviderResources (r ← rs_Redis storage; rd_Resources r)
      else defaultProviderResources
  | None => defaultProviderResources
  end.

Definition effectiveProviderImage (cache : CacheBackend) (provider fallback : string) : string :=
  match EffectiveRemoteStorage (cb_Spec cache) with
  | Some storage =>
      if str_eqb (rs_Provider storage) provider && str_eqb provider CacheBackendRemoteStorageProviderRedis then
        match rs_Redis storage with
        | Some r => if str_eqb (rd_Image r) "" then fallback else rd_Image r
        | None => fallback
        end
      else fallback
  | None => fallback
  end.

(** ** Managed Redis *)

(** [base - base/5] of the memory limit, or of the default. *)
Definition redisMaxmemoryBytes (cache : CacheBackend) : Z :=
  let base := match rr_Limits (effectiveProviderResources cache) !! "memory" with
              | Some q => if 0 <? qValue q then qValue q else redisMaxmemoryDefaultBytes
              | None => redisMaxmemoryDefaultBytes
              end in
  base - Z.quot base 5.

Definition redisArgs (cache : CacheBackend) : list string :=
  ["redis-server"; "--save"; ""; "--appendonly"; "no"; "--protected-mode"; "no";
   "--maxmemory"; FormatInt (redisMaxmemoryBytes cache); "--maxmemory-policy"; "allkeys-lru"].

(** The container, with the password's Secret when authentication is declared. *)
Definition redisContainer (cache : CacheBackend) (password : option KeySelector) : Container :=
  let secret n sel := mkEnvVar n "" (Some (mkEnvVarSource None None None (Some sel) None)) in
  let '(args, env, probe) :=
    match password with
    | None => (redisArgs cache, [], mkProbe (TCPSocket defaultRedisPortName) 3 10 6 0)
    | Some sel =>
        (redisArgs cache ++ ["--requirepass"; "$(" +:+ redisPasswordEnv +:+ ")"],
         [secret redisPasswordEnv sel; secret redisCLIAuthEnv sel],
         mkProbe (ExecProbe ["redis-cli"; "ping"]) 3 10 6 2)
    end in
  mkContainer "redis-l2" (effectiveProviderImage cache CacheBackendRemoteStorageProviderRedis defaultRedisImage)
    "IfNotPresent" None "" [] args env [] (effectiveProviderResources cache) [] []
    [mkContainerPort defaultRedisPortName defaultRedisPort 0 "TCP"] None (Some probe) None None ("", "").

Definition ResolveRedisL2Server (cache : CacheBackend) : string + (PodSpec * RenderedService) :=
  let render password :=
    inr (mkPodSpec [] [redisContainer cache password] [],
         mkRenderedService "ClusterIP" [(defaultRedisPortName, defaultRedisPort, defaultRedisPortName, "TCP")]) in
  match s ← EffectiveRemoteStorage (cb_Spec cache); r ← rs_Redis s; rd_Authentication r with
  | None => render None
  | Some auth =>
      match ra_Username auth with
      | Some _ => inl "resolve redis L2: managed Redis supports password authentication with the default user only"
      | None => render (Some (ra_Password auth))
      end
  end.

(** ** Providers *)

Definition providerSupports (provider ownership : string) (storage : CacheBackendRemoteStorageSpec) : bool :=
  str_eqb (rs_Provider storage) provider && str_eqb (rs_Ownership storage) ownership.

Definition managedProvider (provider : string) (render : CacheBackend → string + RenderedStorage) : Provider :=
  mkProvider (providerSupports provider OwnershipManaged) render.

Definition externalProvider (provider protocol : string) : Provider :=
  mkProvider (providerSupports provider OwnershipExternal) (λ _, inr (mkRenderedStorage None None protocol)).

Definition DefaultRegistry : list Provider :=
  Register (Some (externalProvider CacheBackendRemoteStorageProviderRedis ProtocolRESP))
  (Register (Some (managedProvider CacheBackendRemoteStorageProviderRedis (λ cache,
     let* (pod, service) := ResolveRedisL2Server cache in
     inr (mkRenderedStorage (Some pod) (Some service) ProtocolRESP)))) []).

(** ** Facts *)

(** The memory budget handed to Redis is positive, within what the pod may use and at least
    four fifths of it. *)
Lemma redisMaxmemory_bounds cache :
  let base := match rr_Limits (effectiveProviderResources cache) !! "memory" with
              | Some q => if 0 <? qValue q then qValue q else redisMaxmemoryDefaultBytes
              | None => redisMaxmemoryDefaultBytes
              end in
  0 < redisMaxmemoryBytes cache ≤ base ∧ 4 * base ≤ 5 * redisMaxmemoryBytes cache ∧
  (5 ≤ base → redisMaxmemoryBytes cache < base).
Proof.
  cbn zeta. unfold redisMaxmemoryBytes.
  set (base := match rr_Limits (effectiveProviderResources cache) !! "memory" with Some q => _ | None => _ end).
  assert (0 < base) as Hb.
  { unfold base. destruct (rr_Limits _ !! _) as [q|]; [destruct (Z.ltb_spec 0 (qValue q)); [done|]|]; done. }
  cbn zeta. rewrite Z.quot_div_nonneg by lia.
  pose proof (Z.div_mod base 5 ltac:(lia)). pose proof (Z.mod_pos_bound base 5 ltac:(lia)). lia.
Qed.

(** Every declaration admission can accept has exactly one provider, and it speaks RESP. *)
Lemma DefaultRegistry_exact storage :
  is_Some (match SelectProvider quote DefaultRegistry (Some storage) with inr p => Some p | inl _ => None end) ↔
  rs_Provider storage = CacheBackendRemoteStorageProviderRedis ∧ rs_Ownership storage ∈ [OwnershipManaged; OwnershipExternal].
Proof.
  unfold SelectProvider, DefaultRegistry, Register. cbn [app List.find pv_Supports managedProvider externalProvider].
  unfold providerSupports. destruct (str_eqb (rs_Provider storage) _) eqn:Ep; cbn [andb].
  - apply str_eqb_eq in Ep. destruct (str_eqb (rs_Ownership storage) OwnershipManaged) eqn:Em;
      [apply str_eqb_eq in Em|destruct (str_eqb (rs_Ownership storage) OwnershipExternal) eqn:Ee; [apply str_eqb_eq in Ee|]].
    + split; [|eauto]. intros _. split; [done|]. rewrite Em. set_solver.
    + split; [|eauto]. intros _. split; [done|]. rewrite Ee. set_solver.
    + split; [by intros [??]|]. intros [_ H]. apply str_eqb_neq in Em, Ee. set_solver.
  - apply str_eqb_neq in Ep. split; [by intros [??]|]. by intros [? _].
Qed.
End storage.
