(* ===== verification/UpsertFacts.v ===== *)
(** * Keyed updates of lists, and of argument lists

    Every renderer edits its lists the same way: replace the first element with the key, or
    append.  [upsertBy] is that edit, and [first] the element a reader of the list finds; an
    edit that is already there changes nothing, and edits of different keys commute with what
    is found. *)

From S2P Require Import Prelude Ordering GoRuntime GoText CoreV1 BackendApi Endpoints Adapters Renderer.

Definition first {A : Type} (key : A → string) (k : string) (l : list A) : option A :=
  List.find (λ x, str_eqb (key x) k) l.

Fixpoint upsertBy {A : Type} (key : A → string) (l : list A) (w : A) : list A :=
  match l with
  | [] => [w]
  | x :: l => if str_eqb (key x) (key w) then w :: l else x :: upsertBy key l w
  end.

Section keyed.
Context {A : Type} (key : A → string).

Lemma upsertBy_find l w :
  match list_find (λ x, key x = key w) l with Some (i, _) => <[i := w]> l | None => l ++ [w] end = upsertBy key l w.
Proof.
  induction l as [|x l IH]; [done|]. cbn [list_find upsertBy]. destruct (str_eqb (key x) (key w)) eqn:E.
  - apply str_eqb_eq in E. by case_decide.
  - apply str_eqb_neq in E. case_decide; [done|]. rewrite <-IH.
    by destruct (list_find (λ y, key y = key w) l) as [[i y]|].
Qed.

Lemma first_key k l x : first key k l = Some x → key x = k.
Proof. intros [_ H]%find_some. by apply str_eqb_eq. Qed.

Lemma first_elem k l x : first key k l = Some x → x ∈ l.
Proof. intros [H _]%find_some. by apply list_elem_of_In. Qed.

Lemma first_app k l l' : first key k (l ++ l') = match first key k l with Some x => Some x | None => first key k l' end.
Proof. unfold first. induction l as [|x l IH]; [done|]. simpl. by destruct (str_eqb (key x) k). Qed.

Lemma upsertBy_first l w : first key (key w) (upsertBy key l w) = Some w.
Proof.
  unfold first. induction l as [|x l IH]; simpl; [by rewrite str_eqb_refl|].
  destruct (str_eqb (key x) (key w)) eqn:E; simpl; [by rewrite str_eqb_refl|by rewrite E].
Qed.

Lemma upsertBy_other k l w : k ≠ key w → first key k (upsertBy key l w) = first key k l.
Proof.
  intros Hk. assert (str_eqb (key w) k = false) as Hw by (by apply str_eqb_neq).
  unfold first. induction l as [|x l IH]; simpl; [by rewrite Hw|].
  destruct (str_eqb (key x) (key w)) eqn:E; simpl.
  - apply str_eqb_eq in E. by rewrite Hw, E, Hw.
  - by rewrite IH.
Qed.

Lemma upsertBy_id l w : first key (key w) l = Some w → upsertBy key l w = l.
Proof.
  unfold first. induction l as [|x l IH]; [done|]. simpl.
  destruct (str_eqb (key x) (key w)); [by intros [= ->]|]. intros H. by rewrite IH.
Qed.

Lemma upsertBy_idemp l w : upsertBy key (upsertBy key l w) w = upsertBy key l w.
Proof. apply upsertBy_id, upsertBy_first. Qed.

Lemma upsertBy_Forall (P : A → Prop) l w : Forall P l → P w → Forall P (upsertBy key l w).
Proof.
  intros Hl Hw. induction Hl as [|x l Hx Hl IH]; cbn [upsertBy]; [by constructor|].
  destruct (str_eqb _ _); by constructor.
Qed.

(** What a reader by another key finds. *)
Lemma upsertBy_at (g : A → string) l w :
  (∀ x, first g (g w) l = Some x → key x = key w) → first g (g w) (upsertBy key l w) = Some w.
Proof.
  unfold first. induction l as [|x l IH]; simpl; [by rewrite str_eqb_refl|]. intros H.
  destruct (str_eqb (key x) (key w)) eqn:E; simpl; [by rewrite str_eqb_refl|].
  destruct (str_eqb (g x) (g w)) eqn:Eg; [|by apply IH].
  apply str_eqb_neq in E. by destruct E; apply H.
Qed.

Lemma upsertBy_past (g : A → string) k l w x :
  first g k l = Some x → key x ≠ key w → g w ≠ k → first g k (upsertBy key l w) = Some x.
Proof.
  intros H Hx Hw. apply str_eqb_neq in Hw. revert H. unfold first. induction l as [|y l IH]; [done|]. simpl.
  destruct (str_eqb (g y) k) eqn:Ey.
  - intros [= ->]. assert (str_eqb (key x) (key w) = false) as -> by (by apply str_eqb_neq). simpl. by rewrite Ey.
  - intros H. destruct (str_eqb (key y) (key w)); simpl; [by rewrite Hw|]. rewrite Ey. auto.
Qed.

Lemma first_filter (p : A → bool) k l :
  (∀ x, key x = k → p x = true) → first key k (List.filter p l) = first key k l.
Proof.
  intros Hp. unfold first. induction l as [|x l IH]; [done|]. simpl. destruct (str_eqb (key x) k) eqn:E.
  - apply str_eqb_eq in E as E'. rewrite (Hp x E'). simpl. by rewrite E.
  - destruct (p x); simpl; by rewrite ?E.
Qed.

(** Adopting an object is an edit too, when it is not refused. *)
Lemma adopt_upsert l w owned m l' : adopt key l w owned m = inr l' → l' = upsertBy key l w.
Proof.
  unfold adopt. rewrite <-upsertBy_find. destruct (list_find _ l) as [[i x]|]; [destruct owned|]; by intros [= <-].
Qed.

Lemma adopt_again l w m : first key (key w) l = Some w → adopt key l w true m = inr l.
Proof.
  intros H. pose proof (upsertBy_id l w H) as E. rewrite <-upsertBy_find in E. unfold adopt.
  destruct (list_find _ l) as [[i x]|]; by rewrite E.
Qed.
End keyed.

Section renderer_edits.
Context `{QO : QuantityOps}.

Lemma UpsertEnv_upsert env w : UpsertEnv env w = upsertBy ev_Name env w.
Proof. apply upsertBy_find. Qed.

Lemma upsertMount_upsert ms w : upsertMountByName ms w = upsertBy vm_Name ms w.
Proof. apply upsertBy_find. Qed.

Lemma removeEnv_app n l l' : removeEnv (l ++ l') n = removeEnv l n ++ removeEnv l' n.
Proof. apply List.filter_app. Qed.

Lemma removeEnv_none n l : removeEnv (removeEnv l n) n = removeEnv l n.
Proof.
  unfold removeEnv. induction l as [|e l IH]; [done|]. simpl. destruct (negb (str_eqb (ev_Name e) n)) eqn:E; [|done].
  simpl. by rewrite E, IH.
Qed.

Lemma removeEnv_comm a b l : removeEnv (removeEnv l a) b = removeEnv (removeEnv l b) a.
Proof.
  unfold removeEnv. induction l as [|e l IH]; [done|]. simpl.
  destruct (negb (str_eqb (ev_Name e) a)) eqn:Ea, (negb (str_eqb (ev_Name e) b)) eqn:Eb; simpl; rewrite ?Ea, ?Eb, ?IH; done.
Qed.

(** Two fixed variables moved to the end, in order. *)
Lemma pin_two l p f :
  ev_Name p ≠ ev_Name f →
  removeEnv (removeEnv l (ev_Name p) ++ [p]) (ev_Name f) ++ [f] =
  removeEnv (removeEnv l (ev_Name p)) (ev_Name f) ++ [p; f].
Proof.
  intros Hne. rewrite removeEnv_app. assert (removeEnv [p] (ev_Name f) = [p]) as ->.
  { unfold removeEnv. simpl. by apply str_eqb_neq in Hne as ->. }
  by rewrite <-app_assoc.
Qed.

Lemma pin_two_idemp l p f :
  ev_Name p ≠ ev_Name f →
  let pin l := removeEnv (removeEnv l (ev_Name p) ++ [p]) (ev_Name f) ++ [f] in pin (pin l) = pin l.
Proof.
  intros Hne pin. unfold pin. rewrite !pin_two by done. f_equal. rewrite !removeEnv_app.
  assert (removeEnv (removeEnv [p; f] (ev_Name p)) (ev_Name f) = []) as ->.
  { unfold removeEnv. simpl. rewrite str_eqb_refl. apply not_eq_sym, str_eqb_neq in Hne as ->. simpl. by rewrite str_eqb_refl. }
  by rewrite app_nil_r, (removeEnv_comm (ev_Name f) (ev_Name p)), !removeEnv_none.
Qed.
End renderer_edits.

(** ** Arguments *)

(** Induction for loops that consume one or two arguments. *)
Lemma list_ind2 {A : Type} (P : list A → Prop) :
  P [] → (∀ x, P [x]) → (∀ x y l, P l → P (y :: l) → P (x :: y :: l)) → ∀ l, P l.
Proof.
  intros H0 H1 H2. enough (∀ l, P l ∧ ∀ x, P (x :: l)) as H by (intros l; apply H).
  induction l as [|y l [IH1 IH2]]; split; auto.
Qed.

Lemma UpsertFlag_in args flag : flag ∈ UpsertFlag args flag.
Proof. unfold UpsertFlag. case_bool_decide; [done|]. set_solver. Qed.

Lemma UpsertFlag_id args flag : flag ∈ args → UpsertFlag args flag = args.
Proof. intros H. unfold UpsertFlag. by rewrite bool_decide_true. Qed.

Lemma UpsertFlag_app args flag : ∃ t, UpsertFlag args flag = args ++ t.
Proof. unfold UpsertFlag. case_bool_decide; [exists []; by rewrite app_nil_r|eauto]. Qed.

Lemma UpsertArgPair_idemp args f v : UpsertArgPair (UpsertArgPair args f v) f v = UpsertArgPair args f v.
Proof.
  induction args as [|a args IH]; cbn [UpsertArgPair]; [by rewrite str_eqb_refl|].
  destruct (str_eqb a f) eqn:Ea; [|destruct (HasPrefix a (f +:+ "=")) eqn:Ep].
  - destruct args; cbn [UpsertArgPair]; by rewrite Ea.
  - cbn [UpsertArgPair]. by rewrite str_eqb_refl.
  - cbn [UpsertArgPair]. by rewrite Ea, Ep, IH.
Qed.

(** A pair that is set stays so when arguments are appended. *)
Lemma UpsertArgPair_app args f v t : UpsertArgPair args f v = args → UpsertArgPair (args ++ t) f v = args ++ t.
Proof.
  induction args as [|a args IH]; [done|]. cbn [app UpsertArgPair].
  destruct (str_eqb a f) eqn:Ea; [|destruct (HasPrefix a (f +:+ "=")) eqn:Ep].
  - destruct args as [|b args]; [done|]. by intros [= ->].
  - intros [= <- _]. by rewrite str_eqb_refl in Ea.
  - intros [= H]. by rewrite IH.
Qed.

Lemma argValues_cons args flag a :
  argValues (a :: args) flag =
  if str_eqb a flag then
    match args with
    | [] => ([], true)
    | v :: rest => if HasPrefix v "--" then ((argValues args flag).1, true)
                   else (v :: (argValues rest flag).1, (argValues rest flag).2)
    end
  else if HasPrefix a (flag +:+ "=") then
    if str_eqb (TrimPrefix a (flag +:+ "=")) "" then ((argValues args flag).1, true)
    else (TrimPrefix a (flag +:+ "=") :: (argValues args flag).1, (argValues args flag).2)
  else argValues args flag.
Proof.
  cbn [argValues]. destruct (str_eqb a flag).
  - destruct args as [|v rest]; [done|]. destruct (HasPrefix v "--"); [by destruct (argValues (v :: rest) flag)|].
    by destruct (argValues rest flag).
  - destruct (HasPrefix a (flag +:+ "=")); [|done]. by destruct (argValues args flag), (str_eqb _ _).
Qed.

(** A well-formed list of arguments followed by more. *)
Lemma argValues_app args more flag :
  (argValues args flag).2 = false →
  argValues (args ++ more) flag = ((argValues args flag).1 ++ (argValues more flag).1, (argValues more flag).2).
Proof.
  assert (∀ a args, (argValues args flag).2 = false → argValues (args ++ more) flag = ((argValues args flag).1 ++ (argValues more flag).1, (argValues more flag).2) →
    str_eqb a flag = false → (argValues (a :: args) flag).2 = false →
    argValues ((a :: args) ++ more) flag = ((argValues (a :: args) flag).1 ++ (argValues more flag).1, (argValues more flag).2)) as Hone.
  { intros a l Hl IH Ea. rewrite <-app_comm_cons, !argValues_cons, Ea, IH.
    destruct (HasPrefix a (flag +:+ "=")); [|done]. by destruct (str_eqb (TrimPrefix a (flag +:+ "=")) ""). }
  assert (∀ a args, str_eqb a flag = false → (argValues (a :: args) flag).2 = false → (argValues args flag).2 = false) as Htl.
  { intros a l Ea. rewrite argValues_cons, Ea. destruct (HasPrefix _ _); [|done]. destruct (str_eqb (TrimPrefix _ _) ""); simpl; done. }
  induction args as [|a|a v args IH1 IH2] using list_ind2; [intros _; simpl; by destruct (argValues more flag)|..].
  - destruct (str_eqb a flag) eqn:Ea; [by rewrite argValues_cons, Ea|]. intros H.
    apply Hone; [done|simpl; by destruct (argValues more flag)|done..].
  - destruct (str_eqb a flag) eqn:Ea; [|intros H; apply Hone; eauto].
    cbn [app]. rewrite !(argValues_cons _ _ a), Ea. destruct (HasPrefix v "--"); [done|].
    cbn [fst snd]. intros H. by rewrite IH1.
Qed.

(** Setting a pair keeps every other flag, unless one stood where its value belongs. *)
Lemma UpsertArgPair_keeps args f v x :
  x ∈ args → (argValues args f).2 = false → HasPrefix x "--" = true → x ≠ f → HasPrefix x (f +:+ "=") = false →
  x ∈ UpsertArgPair args f v.
Proof.
  intros Hin Hwf Hx Hne Hp. induction args as [|a args IH]; [by apply elem_of_nil in Hin|].
  rewrite argValues_cons in Hwf. cbn [UpsertArgPair]. destruct (str_eqb a f) eqn:Ea.
  - apply str_eqb_eq in Ea as ->. destruct args as [|w args]; [done|]. destruct (HasPrefix w "--") eqn:Ew; [done|].
    apply elem_of_cons in Hin as [->|[->|Hin]%elem_of_cons]; [done|by rewrite Hx in Ew|set_solver].
  - destruct (HasPrefix a (f +:+ "=")) eqn:Ep.
    + apply elem_of_cons in Hin as [->|Hin]; [by rewrite Hp in Ep|set_solver].
    + apply elem_of_cons in Hin as [->|Hin]; [left|right; auto].
Qed.
