(* ===== verification/AdapterTheorems.v ===== *)
(** * Injection is stable

    What a successful injection leaves in the pod, and that injecting again changes nothing:
    the renderers converge in place. *)

From Stdlib Require Import SpecFloat.
From S2P Require Import Prelude Ordering GoRuntime GoText GoNumbers CoreV1 BackendApi Endpoints Adapters.
From S2P Require Import Renderer EngineWire EngineAdapters UpsertFacts.

Section wire.
Context `{QO : QuantityOps}.
Variable quote quoteRune : string → string.

(** ** The engine container *)

Lemma index_names p q n :
  cn_Name <$> psp_Containers p = cn_Name <$> psp_Containers q →
  EngineContainerIndexNamed quote p n = EngineContainerIndexNamed quote q n.
Proof.
  intros E. assert (length (psp_Containers p) = length (psp_Containers q)) as Hl.
  { apply (f_equal length) in E. by rewrite !length_fmap in E. }
  assert (∀ l : list Container, fst <$> list_find (λ c, cn_Name c = n) l = fst <$> list_find (λ s, s = n) (cn_Name <$> l)) as H.
  { intros l. rewrite list_find_fmap. unfold compose. by destruct (list_find _ l) as [[]|]. }
  pose proof (H (psp_Containers p)) as Hp. pose proof (H (psp_Containers q)) as Hq. rewrite E in Hp. rewrite <-Hq in Hp.
  unfold EngineContainerIndexNamed.
  destruct (list_find _ (psp_Containers p)) as [[i c]|], (list_find _ (psp_Containers q)) as [[j d]|]; simplify_eq/=; [done|].
  by rewrite Hl, E.
Qed.

Lemma index_lookup p n i : EngineContainerIndexNamed quote p n = inr i → is_Some (psp_Containers p !! i).
Proof.
  unfold EngineContainerIndexNamed. destruct (list_find _ _) as [[j c]|] eqn:E.
  - intros [= <-]. apply list_find_Some in E as [-> _]. eauto.
  - destruct (length _ =? 1)%nat eqn:El; [|done]. apply Nat.eqb_eq in El. intros [= <-].
    by apply lookup_lt_is_Some; rewrite El; lia.
Qed.

(** Edits of the engine container that keep its name and mounts. *)
Definition launchEdit (f : Container → Container) : Prop :=
  ∀ c, cn_Name (f c) = cn_Name c ∧ cn_VolumeMounts (f c) = cn_VolumeMounts c.

Lemma alter_names f i (l : list Container) : (∀ c, cn_Name (f c) = cn_Name c) → cn_Name <$> alter f i l = cn_Name <$> l.
Proof.
  intros Hf. revert i. induction l as [|c l IH]; intros [|i]; [done..| |].
  - cbn. by rewrite Hf.
  - cbn. f_equal. apply IH.
Qed.

Lemma updateEngine_names f i p : (∀ c, cn_Name (f c) = cn_Name c) →
  cn_Name <$> psp_Containers (updateEngine f i p) = cn_Name <$> psp_Containers p.
Proof. apply alter_names. Qed.

Lemma updateEngine_mounts f i p : launchEdit f → engineMounts i (updateEngine f i p) = engineMounts i p.
Proof.
  intros Hf. unfold engineMounts, updateEngine. cbn [psp_Containers set_containers]. rewrite list_lookup_alter_eq.
  destruct (psp_Containers p !! i) as [c|]; simpl; [by apply Hf|done].
Qed.

Lemma mountOn_mounts m i p :
  is_Some (psp_Containers p !! i) → engineMounts i (mountOn m i p) = upsertBy vm_Name (engineMounts i p) m.
Proof.
  intros [c Hc]. unfold mountOn, updateEngine, engineMounts. cbn [psp_Containers set_containers].
  rewrite list_lookup_alter_eq, Hc. simpl. by rewrite upsertMount_upsert.
Qed.

Lemma mountOn_id m i p :
  first vm_Name (vm_Name m) (engineMounts i p) = Some m → mountOn m i p = p.
Proof.
  intros H. unfold mountOn, updateEngine. destruct p as [ini cs vols]. unfold set_containers. cbn [psp_InitContainers psp_Containers psp_Volumes].
  f_equal. apply list_eq. intros j. destruct (decide (j = i)) as [->|Hj]; [|by rewrite list_lookup_alter_ne].
  rewrite list_lookup_alter_eq. unfold engineMounts in H. cbn [psp_Containers] in H. destruct (cs !! i) as [c|]; [|done].
  simpl. rewrite upsertMount_upsert, upsertBy_id by done. by destruct c.
Qed.

Lemma updateEngine_idemp f i p : (∀ c, f (f c) = f c) → updateEngine f i (updateEngine f i p) = updateEngine f i p.
Proof.
  intros Hf. unfold updateEngine, set_containers. cbn [psp_Containers psp_InitContainers psp_Volumes]. f_equal.
  apply list_eq. intros j. destruct (decide (j = i)) as [->|Hj]; [|by rewrite !list_lookup_alter_ne].
  rewrite !list_lookup_alter_eq. destruct (psp_Containers p !! i) as [c|]; simpl; [by rewrite Hf|done].
Qed.

Lemma mountOn_names m i p : cn_Name <$> psp_Containers (mountOn m i p) = cn_Name <$> psp_Containers p.
Proof. by apply updateEngine_names. Qed.

Lemma mountOn_lookup m i p : is_Some (psp_Containers p !! i) → is_Some (psp_Containers (mountOn m i p) !! i).
Proof.
  intros [c Hc]. unfold mountOn, updateEngine. cbn [psp_Containers set_containers]. rewrite list_lookup_alter_eq, Hc. eauto.
Qed.

(** ** The PodLocal wire *)

Definition configVolume : Volume :=
  mkVolume lmCacheMPConfigVolumeName (mkVolumeSource (Some (mkEmptyDir "" None)) None false false false false None None None).
Definition configMount : VolumeMount := mkVolumeMount lmCacheMPConfigVolumeName lmCacheMPConfigMountPath "" "" false.
Definition shmVolume (budget : Quantity) : Volume :=
  mkVolume lmCacheMPShmVolumeName (mkVolumeSource (Some (mkEmptyDir "Memory" (Some budget))) None false false false false None None None).
Definition ownShmMount : VolumeMount := mkVolumeMount lmCacheMPShmVolumeName lmCacheMPShmMountPath "" "" false.

(** A volume and a mount of it that are in place. *)
Definition mounted (v : Volume) (m : VolumeMount) (i : nat) (pod : PodSpec) : Prop :=
  first vol_Name (vol_Name v) (psp_Volumes pod) = Some v ∧
  first vm_Name (vm_Name m) (engineMounts i pod) = Some m ∧
  first vm_MountPath (vm_MountPath m) (engineMounts i pod) = Some m.

(** The shared memory in place: ours, or the engine's own under another name. *)
Definition shmWired (budget : Quantity) (i : nat) (m : VolumeMount) (pod : PodSpec) : Prop :=
  (m = ownShmMount ∧ mounted (shmVolume budget) ownShmMount i pod) ∨
  ∃ existing, mountAtPath (engineMounts i pod) lmCacheMPShmMountPath = Some existing ∧
    vm_Name existing ≠ lmCacheMPShmVolumeName ∧
    checkLMCacheMPShmReusable quote (psp_Volumes pod) existing = None ∧
    checkLMCacheMPShmBudget quote (psp_Volumes pod) existing budget = None ∧
    m = mkVolumeMount (vm_Name existing) lmCacheMPShmMountPath (vm_SubPath existing) "" false.

(** The engine mounts nothing under the name reserved for our shared memory, unless the wire
    is ours. *)
Definition shmNotTaken (i : nat) (pod : PodSpec) : Prop :=
  lmCacheMPWireIsOurs pod = false → Forall (λ m, vm_Name m ≠ lmCacheMPShmVolumeName) (engineMounts i pod).

(** Adopting a volume and mounting it. *)
Lemma adopt_mounted v m owned i pod vols :
  is_Some (psp_Containers pod !! i) →
  adoptVolume quote (psp_Volumes pod) v owned = inr vols →
  (∀ x, first vm_MountPath (vm_MountPath m) (engineMounts i pod) = Some x → vm_Name x = vm_Name m) →
  mounted v m i (mountOn m i (set_volumes vols pod)).
Proof.
  intros Hi Hv%adopt_upsert Hat. unfold mounted. rewrite mountOn_mounts by done.
  change (engineMounts i (set_volumes vols pod)) with (engineMounts i pod).
  change (psp_Volumes (mountOn m i (set_volumes vols pod))) with vols. subst vols.
  split_and!; [apply upsertBy_first..|by apply upsertBy_at].
Qed.

Lemma mounted_again v m i pod :
  mounted v m i pod →
  ebind (adoptVolume quote (psp_Volumes pod) v true) (λ vols, inr (mountOn m i (set_volumes vols pod)) : string + PodSpec) = inr pod.
Proof.
  intros (Hv & Hm & _). unfold adoptVolume. rewrite (adopt_again _ _ _ _ Hv). simpl. f_equal.
  assert (set_volumes (psp_Volumes pod) pod = pod) as -> by (by destruct pod). by apply mountOn_id.
Qed.

(** Adopting another volume and mounting it elsewhere does not disturb one in place. *)
Lemma mounted_other v m v' m' owned i pod vols :
  is_Some (psp_Containers pod !! i) → mounted v m i pod → adoptVolume quote (psp_Volumes pod) v' owned = inr vols →
  vol_Name v ≠ vol_Name v' → vm_Name m ≠ vm_Name m' → vm_MountPath m' ≠ vm_MountPath m →
  mounted v m i (mountOn m' i (set_volumes vols pod)).
Proof.
  intros Hi (Hv & Hm & Hp) Hvols%adopt_upsert Hnv Hnm Hpath. unfold mounted. rewrite mountOn_mounts by done.
  change (engineMounts i (set_volumes vols pod)) with (engineMounts i pod).
  change (psp_Volumes (mountOn m' i (set_volumes vols pod))) with vols. subst vols.
  split_and!; [by rewrite upsertBy_other|by rewrite upsertBy_other|by apply upsertBy_past].
Qed.

Lemma renderConfig_mounted owned i pod work :
  is_Some (psp_Containers pod !! i) → renderConfigVolume quote owned i pod = inr work →
  mounted configVolume configMount i work ∧ cn_Name <$> psp_Containers work = cn_Name <$> psp_Containers pod ∧
  is_Some (psp_Containers work !! i) ∧ psp_InitContainers work = psp_InitContainers pod ∧
  (∀ P : VolumeMount → Prop, P configMount → Forall P (engineMounts i pod) → Forall P (engineMounts i work)).
Proof.
  intros Hi. unfold renderConfigVolume. intros ([] & Hc & (vols & Hv & [= <-])%ebind_inr)%ebind_inr.
  split_and!.
  - apply (adopt_mounted configVolume configMount owned); [done..|]. intros x Hx.
    change (first vm_MountPath _ _) with (mountAtPath (engineMounts i pod) lmCacheMPConfigMountPath) in Hx.
    rewrite Hx in Hc. destruct (owned && _) eqn:E; [|done]. apply andb_true_iff in E as [_ E]. by apply str_eqb_eq in E.
  - apply (mountOn_names configMount i (set_volumes vols pod)).
  - by apply mountOn_lookup.
  - done.
  - intros P HP Hall. rewrite mountOn_mounts by done. by apply upsertBy_Forall.
Qed.

Lemma renderConfig_again i pod : mounted configVolume configMount i pod → renderConfigVolume quote true i pod = inr pod.
Proof.
  intros H. unfold renderConfigVolume. destruct H as (Hv & Hm & Hp) eqn:E.
  change (first vm_MountPath _ _) with (mountAtPath (engineMounts i pod) lmCacheMPConfigMountPath) in Hp. rewrite Hp.
  simpl. by apply mounted_again.
Qed.

Lemma renderShm_wired owned budget i pod m work :
  is_Some (psp_Containers pod !! i) →
  (owned = false → Forall (λ m, vm_Name m ≠ lmCacheMPShmVolumeName) (engineMounts i pod)) →
  renderShm quote owned budget i pod = inr (m, work) →
  shmWired budget i m work ∧ cn_Name <$> psp_Containers work = cn_Name <$> psp_Containers pod ∧
  psp_InitContainers work = psp_InitContainers pod ∧
  (mounted configVolume configMount i pod → mounted configVolume configMount i work).
Proof.
  intros Hi Hfree. unfold renderShm.
  assert (∀ vols, adoptVolume quote (psp_Volumes pod) (shmVolume budget) owned = inr vols →
    (∀ x, mountAtPath (engineMounts i pod) lmCacheMPShmMountPath = Some x → vm_Name x = lmCacheMPShmVolumeName) →
    let w := mountOn ownShmMount i (set_volumes vols pod) in
    shmWired budget i ownShmMount w ∧ cn_Name <$> psp_Containers w = cn_Name <$> psp_Containers pod ∧
    psp_InitContainers w = psp_InitContainers pod ∧
    (mounted configVolume configMount i pod → mounted configVolume configMount i w)) as Hours.
  { intros vols Hv Hat w. split_and!; [left; split; [done|by apply (adopt_mounted _ _ owned)]|apply (mountOn_names ownShmMount i (set_volumes vols pod))|done|].
    intros Hc. by apply (mounted_other _ _ (shmVolume budget) _ owned). }
  destruct (mountAtPath (engineMounts i pod) lmCacheMPShmMountPath) as [x|] eqn:Ex.
  - destruct (owned && str_eqb (vm_Name x) _) eqn:E.
    + apply andb_true_iff in E as [_ E%str_eqb_eq]. intros (vols & Hv & [= <- <-])%ebind_inr.
      apply Hours; [done|]. intros y [= <-]. done.
    + intros ([] & H1 & ([] & H2 & [= <- <-])%ebind_inr)%ebind_inr. split_and!; [|done..]. right. exists x.
      split_and!; [done| | | |done].
      * destruct owned; [by apply str_eqb_neq|]. apply first_elem in Ex. by eapply Forall_forall in Hfree.
      * by destruct (checkLMCacheMPShmReusable _ _ _).
      * by destruct (checkLMCacheMPShmBudget _ _ _ _).
  - intros (vols & Hv & [= <- <-])%ebind_inr. by apply Hours.
Qed.

Lemma renderShm_again budget i pod m : shmWired budget i m pod → renderShm quote true budget i pod = inr (m, pod).
Proof.
  intros [[-> H]|(x & Hx & Hn & H1 & H2 & ->)]; unfold renderShm.
  - pose proof (mounted_again _ _ _ _ H) as Hag. destruct H as (Hv & Hm & Hp).
    change (first vm_MountPath _ _) with (mountAtPath (engineMounts i pod) lmCacheMPShmMountPath) in Hp. rewrite Hp.
    apply ebind_inr in Hag as (vols & Hvols & Hm'). apply (inj inr) in Hm'.
    change (vm_Name ownShmMount) with lmCacheMPShmVolumeName. rewrite str_eqb_refl. cbn [andb].
    fold (shmVolume budget). fold ownShmMount. rewrite Hvols. cbn [ebind]. by rewrite Hm'.
  - rewrite Hx. apply str_eqb_neq in Hn. rewrite Hn. simpl. by rewrite H1, H2.
Qed.

Lemma existsb_first {A : Type} (key : A → string) (p : A → bool) k l x :
  first key k l = Some x → p x = true → existsb p l = true.
Proof. intros [Hin _]%find_some Hp. apply existsb_exists. eauto. Qed.

Lemma binding_env b l2 env :
  renderLMCacheMPL2Binding quote b = inr (l2, env) → Forall (λ e, ev_Name e ≠ lmCacheMPServerManagedEnv) env.
Proof.
  unfold renderLMCacheMPL2Binding. destruct b as [b|]; [|by intros [= <- <-]].
  destruct (negb _); [done|]. destruct (bool_decide (is_Some (b_Redis b ≫= rb_TLS))); [done|].
  destruct (bool_decide _); [done|]. destruct (splitLMCacheHostPort _) as [[h p] ok]. destruct (_ || _); [done|].
  destruct (ParseInt32 p) as [z|]; [|done]. destruct (_ || _); [done|]. intros H. injection H as _ <-.
  destruct (b_Redis b ≫= rb_Authentication) as [auth|]; [|done]. destruct (ra_Username auth); by repeat constructor.
Qed.

(** The server container carries the marker that makes the wire ours. *)
Lemma server_marked cfg l2 env m c :
  lmCacheMPServerContainer cfg l2 env m = inr c → Forall (λ e, ev_Name e ≠ lmCacheMPServerManagedEnv) env →
  cn_Name c = lmCacheMPServerContainerName ∧
  existsb (λ e, str_eqb (ev_Name e) lmCacheMPServerManagedEnv && str_eqb (ev_Value e) "true") (cn_Env c) = true.
Proof.
  unfold lmCacheMPServerContainer. intros (l1 & _ & H)%ebind_inr Henv. revert H.
  set (base := [_; _] : list EnvVar). assert (first ev_Name lmCacheMPServerManagedEnv (foldl UpsertEnv base env) =
    Some (mkEnvVar lmCacheMPServerManagedEnv "true" None)) as Hf.
  { assert (first ev_Name lmCacheMPServerManagedEnv base = Some (mkEnvVar lmCacheMPServerManagedEnv "true" None)) as Hb by done.
    clearbody base. revert base Hb. induction Henv as [|e env He _ IH]; intros base Hb; [done|]. cbn [foldl]. apply IH.
    by rewrite UpsertEnv_upsert, upsertBy_other. }
  destruct (mc_WriteClientConfig cfg); intros [= <-]; cbn [cn_Name cn_Env];
    (split; [done|by apply (existsb_first ev_Name _ _ _ _ Hf)]).
Qed.

Lemma managedBy_first name env pod c :
  first cn_Name name (psp_InitContainers pod) = Some c →
  existsb (λ e, str_eqb (ev_Name e) env && str_eqb (ev_Value e) "true") (cn_Env c) = true → managedBy name env pod = true.
Proof.
  intros Hf He. unfold managedBy. change (findContainerByName (psp_InitContainers pod) name) with (first cn_Name name (psp_InitContainers pod)).
  by rewrite Hf.
Qed.

(** The PodLocal wire in place. *)
Definition podLocalWired (cfg : lmCacheMPServerConfig) (i : nat) (pod : PodSpec) : Prop :=
  validateLMCacheMPServerConfig cfg = None ∧
  ∃ l2 env m server,
    renderLMCacheMPL2Binding quote (mc_Binding cfg) = inr (l2, env) ∧
    (mc_WriteClientConfig cfg = true → mounted configVolume configMount i pod) ∧
    shmWired (lmCacheMPMemoryBudget (mc_L1Capacity cfg)) i m pod ∧
    lmCacheMPServerContainer cfg l2 env m = inr server ∧
    first cn_Name lmCacheMPServerContainerName (psp_InitContainers pod) = Some server.

Lemma podLocal_again name cfg i pod :
  podLocalWired cfg i pod → EngineContainerIndexNamed quote pod name = inr i →
  renderLMCachePodLocalServer quote pod name cfg =
    inr (pod, if mc_WriteClientConfig cfg then lmCacheMPConfigFilePath else "").
Proof.
  intros (Hval & l2 & env & m & server & Hb & Hc & Hs & Hsv & Hf) Hi.
  pose proof (binding_env _ _ _ Hb) as Henv. destruct (server_marked _ _ _ _ _ Hsv Henv) as [Hname Hmark].
  pose proof (managedBy_first _ _ _ _ Hf Hmark) as Hown.
  unfold renderLMCachePodLocalServer. rewrite Hi, Hval, Hb. cbn [ebind echeck]. unfold lmCacheMPWireIsOurs. rewrite Hown.
  assert ((if mc_WriteClientConfig cfg then renderConfigVolume quote true i pod else inr pod) = inr pod) as ->.
  { destruct (mc_WriteClientConfig cfg); [|done]. by apply renderConfig_again, Hc. }
  cbn [ebind]. rewrite (renderShm_again _ _ _ _ Hs). cbn [ebind]. rewrite Hsv. cbn [ebind].
  unfold adoptContainer. rewrite adopt_again by (by rewrite Hname). cbn [ebind]. f_equal. f_equal. by destruct pod.
Qed.

Lemma podLocal_wired name cfg i pod pod' path :
  EngineContainerIndexNamed quote pod name = inr i → shmNotTaken i pod →
  renderLMCachePodLocalServer quote pod name cfg = inr (pod', path) →
  podLocalWired cfg i pod' ∧ EngineContainerIndexNamed quote pod' name = inr i ∧
  path = if mc_WriteClientConfig cfg then lmCacheMPConfigFilePath else "".
Proof.
  intros Hi Hfree. pose proof (index_lookup _ _ _ Hi) as Hlk. unfold renderLMCachePodLocalServer. rewrite Hi. cbn [ebind].
  intros ([] & Hval & ([l2 env] & Hb & (work & Hw & ([m work'] & Hs & (server & Hsv & (inits & Hin & H)%ebind_inr)%ebind_inr)%ebind_inr)%ebind_inr)%ebind_inr)%ebind_inr.
  injection H as <- <-. apply adopt_upsert in Hin as ->.
  assert (is_Some (psp_Containers work !! i) ∧ cn_Name <$> psp_Containers work = cn_Name <$> psp_Containers pod ∧
    psp_InitContainers work = psp_InitContainers pod ∧
    (lmCacheMPWireIsOurs pod = false → Forall (λ m, vm_Name m ≠ lmCacheMPShmVolumeName) (engineMounts i work)) ∧
    (mc_WriteClientConfig cfg = true → mounted configVolume configMount i work)) as (Hlk' & Hn & _ & Hfree' & Hc).
  { destruct (mc_WriteClientConfig cfg); [|by injection Hw as <-].
    destruct (renderConfig_mounted _ _ _ _ Hlk Hw) as (H1 & H2 & H3 & H4 & H5).
    split_and!; [done..| |done]. intros Ho. apply H5; [done|]. by apply Hfree. }
  destruct (renderShm_wired _ _ _ _ _ _ Hlk' Hfree' Hs) as (Hsw & Hn' & _ & Hc').
  destruct (server_marked _ _ _ _ _ Hsv (binding_env _ _ _ Hb)) as [Hname _].
  split_and!; [split| |done].
  - by destruct (validateLMCacheMPServerConfig cfg).
  - exists l2, env, m, server. split_and!; [done|by intros ?; apply Hc', Hc|done|done|].
    cbn [psp_InitContainers set_init]. rewrite <-Hname. apply upsertBy_first.
  - rewrite <-Hi. apply index_names. cbn [psp_Containers set_init]. by rewrite Hn', Hn.
Qed.

Lemma podLocalWired_edit f cfg i pod :
  launchEdit f → podLocalWired cfg i pod → podLocalWired cfg i (updateEngine f i pod).
Proof.
  intros Hf (Hval & l2 & env & m & server & Hb & Hc & Hs & Hsv & Hi). split; [done|]. exists l2, env, m, server.
  unfold shmWired, mounted in *. rewrite updateEngine_mounts by done. split_and!; done.
Qed.

(** ** The NodeLocal wire *)

Definition nodeConfigVolume : Volume :=
  mkVolume lmCacheNodeLocalConfigVolumeName (mkVolumeSource (Some (mkEmptyDir "" None)) None false false false false None None None).
Definition nodeShmVolume (path : string) : Volume :=
  mkVolume lmCacheNodeLocalShmVolumeName
    (mkVolumeSource None (Some (path, "DirectoryOrCreate")) false false false false None None None).
Definition nodeShmMount : VolumeMount := mkVolumeMount lmCacheNodeLocalShmVolumeName lmCacheMPShmMountPath "" "" false.

Definition engineEnv (i : nat) (pod : PodSpec) : list EnvVar :=
  match psp_Containers pod !! i with Some c => cn_Env c | None => [] end.

(** The node's shared memory in place. *)
Definition nodeShmWired (path : string) (i : nat) (pod : PodSpec) : Prop :=
  ∃ m, mountAtPath (engineMounts i pod) lmCacheMPShmMountPath = Some m ∧
    checkNodeLocalHostShm quote (psp_Volumes pod) m path = None.

(** The engine does not mount a volume of the reserved config name at /dev/shm. *)
Definition nodeShmNotTaken (i : nat) (pod : PodSpec) : Prop :=
  ∀ m, mountAtPath (engineMounts i pod) lmCacheMPShmMountPath = Some m → vm_Name m ≠ lmCacheNodeLocalConfigVolumeName.

Definition nodeLocalWired (cache : CacheBackend) (write : bool) (i : nat) (pod : PodSpec) : Prop :=
  ∃ server path,
    (lm ← bs_LMCache (cb_Spec cache); nl ← lm_NodeLocal lm; nl_Server nl) = Some server ∧
    str_eqb (cb_UID cache) "" = false ∧
    validateLMCacheNodeLocalServerConfig server (effectiveLMCacheChunkSize (bs_LMCache (cb_Spec cache))) = None ∧
    NodeLocalServerShmHostPath quoteRune cache = inr path ∧
    first ev_Name lmCacheNodeIPEnv (engineEnv i pod) = Some nodeIPEnv ∧
    nodeShmWired path i pod ∧
    (write = true → mounted nodeConfigVolume nodeConfigMount i pod) ∧
    first cn_Name lmCacheNodeLocalGateContainerName (psp_InitContainers pod) =
      Some (lmCacheNodeLocalGateContainer cache server (if write then lmCacheNodeLocalConfigFilePath else "")
              (if write then [nodeConfigMount] else [])).

(** Edits that also keep the node address. *)
Definition nodeEdit (f : Container → Container) : Prop :=
  launchEdit f ∧ ∀ c, first ev_Name lmCacheNodeIPEnv (cn_Env (f c)) = first ev_Name lmCacheNodeIPEnv (cn_Env c).

Lemma nodeLocalWired_edit f cache write i pod :
  nodeEdit f → nodeLocalWired cache write i pod → nodeLocalWired cache write i (updateEngine f i pod).
Proof.
  intros [Hf He] (server & path & H1 & H2 & H3 & H4 & H5 & H6 & H7 & H8). exists server, path.
  unfold nodeShmWired, mounted in *. rewrite updateEngine_mounts by done. split_and!; try done.
  revert H5. unfold engineEnv, updateEngine. cbn [psp_Containers set_containers]. rewrite list_lookup_alter_eq.
  destruct (psp_Containers pod !! i) as [c|]; [|done]. simpl. by rewrite He.
Qed.

Definition addNodeIP (c : Container) : Container := set_engine (cn_Args c) (UpsertEnv (cn_Env c) nodeIPEnv) c.

Lemma renderNodeIP_wired owned i pod work :
  is_Some (psp_Containers pod !! i) → renderNodeIP quote owned i pod = inr work →
  work = updateEngine addNodeIP i pod ∧ first ev_Name lmCacheNodeIPEnv (engineEnv i work) = Some nodeIPEnv.
Proof.
  intros [c Hc]. unfold renderNodeIP. destruct (existsb _ _); [done|]. intros [= <-]. split; [done|].
  unfold engineEnv, updateEngine. cbn [psp_Containers set_containers]. rewrite list_lookup_alter_eq, Hc. simpl.
  rewrite UpsertEnv_upsert. apply (upsertBy_first ev_Name (cn_Env c) nodeIPEnv).
Qed.

Lemma renderNodeIP_again i pod :
  first ev_Name lmCacheNodeIPEnv (engineEnv i pod) = Some nodeIPEnv → renderNodeIP quote true i pod = inr pod.
Proof.
  intros H. unfold renderNodeIP. assert (∀ l : list EnvVar, existsb (λ e, str_eqb (ev_Name e) lmCacheNodeIPEnv && negb true &&
    negb (bool_decide (e = nodeIPEnv))) l = false) as ->.
  { intros l. induction l as [|e l IH]; [done|]. simpl. by rewrite andb_false_r. }
  f_equal. unfold updateEngine. destruct pod as [ini cs vols]. unfold set_containers. cbn [psp_InitContainers psp_Containers psp_Volumes].
  f_equal. apply list_eq. intros j. destruct (decide (j = i)) as [->|Hj]; [|by rewrite list_lookup_alter_ne].
  rewrite list_lookup_alter_eq. unfold engineEnv in H. cbn [psp_Containers] in H. destruct (cs !! i) as [c|]; [|done].
  simpl. rewrite UpsertEnv_upsert, upsertBy_id by done. by destruct c.
Qed.

Lemma renderNodeShm_wired owned path i pod work :
  is_Some (psp_Containers pod !! i) → nodeShmNotTaken i pod → renderNodeShm quote owned path i pod = inr work →
  nodeShmWired path i work ∧ nodeShmNotTaken i work ∧ is_Some (psp_Containers work !! i) ∧
  cn_Name <$> psp_Containers work = cn_Name <$> psp_Containers pod ∧
  psp_InitContainers work = psp_InitContainers pod ∧ engineEnv i work = engineEnv i pod.
Proof.
  intros Hi Hnt. unfold renderNodeShm. destruct (mountAtPath _ _) as [x|] eqn:Ex.
  - intros ([] & Hc & [= <-])%ebind_inr. split_and!; try done. exists x. split; [done|].
    by destruct (checkNodeLocalHostShm _ _ _ _).
  - intros (vols & Hv & [= <-])%ebind_inr. fold (nodeShmVolume path) in Hv. fold nodeShmMount.
    pose proof (adopt_mounted (nodeShmVolume path) nodeShmMount owned i pod vols Hi Hv) as Hm.
    destruct Hm as (H1 & H2 & H3). { intros y Hy. change (mountAtPath (engineMounts i pod) lmCacheMPShmMountPath = Some y) in Hy. by rewrite Ex in Hy. }
    split_and!.
    + exists nodeShmMount. split; [done|]. unfold checkNodeLocalHostShm. cbn [vm_ReadOnly vm_SubPath vm_SubPathExpr nodeShmMount orb].
      change (negb (str_eqb "" "")) with false. cbn [orb]. change (List.find _ ?l) with (first vol_Name lmCacheNodeLocalShmVolumeName l).
      change (vol_Name (nodeShmVolume path)) with lmCacheNodeLocalShmVolumeName in H1. rewrite H1. by rewrite bool_decide_true.
    + intros y Hy. change (vm_MountPath nodeShmMount) with lmCacheMPShmMountPath in H3.
      change (mountAtPath ?l ?p) with (first vm_MountPath p l) in Hy. rewrite H3 in Hy. by injection Hy as <-.
    + by apply mountOn_lookup.
    + apply (mountOn_names nodeShmMount i (set_volumes vols pod)).
    + done.
    + unfold engineEnv, mountOn, updateEngine. cbn [psp_Containers set_containers set_volumes]. rewrite list_lookup_alter_eq.
      by destruct (psp_Containers pod !! i).
Qed.

Lemma nodeShm_past path i pod v m owned vols :
  is_Some (psp_Containers pod !! i) → nodeShmWired path i pod → nodeShmNotTaken i pod →
  vol_Name v = lmCacheNodeLocalConfigVolumeName → vm_Name m = lmCacheNodeLocalConfigVolumeName →
  vm_MountPath m ≠ lmCacheMPShmMountPath → adoptVolume quote (psp_Volumes pod) v owned = inr vols →
  nodeShmWired path i (mountOn m i (set_volumes vols pod)).
Proof.
  intros Hi (x & Hx & Hc) Hnt Hv Hm Hp Hvols%adopt_upsert. exists x. rewrite mountOn_mounts by done. split.
  - apply (upsertBy_past vm_Name vm_MountPath); [done| |done]. rewrite Hm. by apply Hnt.
  - revert Hc. unfold checkNodeLocalHostShm. destruct (_ || _); [done|].
    change (psp_Volumes (mountOn m i (set_volumes vols pod))) with vols. subst vols.
    change (List.find _ ?l) with (first vol_Name (vm_Name x) l). rewrite upsertBy_other; [done|]. rewrite Hv. by apply Hnt.
Qed.

Lemma renderNodeConfig_wired owned i pod work path :
  is_Some (psp_Containers pod !! i) → nodeShmWired path i pod → nodeShmNotTaken i pod →
  renderNodeConfig quote owned i pod = inr work →
  mounted nodeConfigVolume nodeConfigMount i work ∧ nodeShmWired path i work ∧
  cn_Name <$> psp_Containers work = cn_Name <$> psp_Containers pod ∧
  psp_InitContainers work = psp_InitContainers pod ∧ engineEnv i work = engineEnv i pod.
Proof.
  intros Hi Hs Hnt. unfold renderNodeConfig. intros ([] & Hc & (vols & Hv & [= <-])%ebind_inr)%ebind_inr.
  split_and!.
  - apply (adopt_mounted nodeConfigVolume nodeConfigMount owned); [done..|]. intros x Hx.
    change (first vm_MountPath _ _) with (mountAtPath (engineMounts i pod) lmCacheNodeLocalConfigMountPath) in Hx.
    rewrite Hx in Hc. destruct (owned && _) eqn:E; [|done]. apply andb_true_iff in E as [_ E]. by apply str_eqb_eq in E.
  - by apply (nodeShm_past path i pod nodeConfigVolume nodeConfigMount owned).
  - apply (mountOn_names nodeConfigMount i (set_volumes vols pod)).
  - done.
  - unfold engineEnv, mountOn, updateEngine. cbn [psp_Containers set_containers set_volumes]. rewrite list_lookup_alter_eq.
    by destruct (psp_Containers pod !! i).
Qed.

Lemma renderNodeConfig_again i pod : mounted nodeConfigVolume nodeConfigMount i pod → renderNodeConfig quote true i pod = inr pod.
Proof.
  intros H. unfold renderNodeConfig. destruct H as (Hv & Hm & Hp) eqn:E.
  change (first vm_MountPath _ _) with (mountAtPath (engineMounts i pod) lmCacheNodeLocalConfigMountPath) in Hp. rewrite Hp.
  simpl. by apply mounted_again.
Qed.

Lemma gate_marked cache server path mounts :
  existsb (λ e, str_eqb (ev_Name e) lmCacheNodeLocalGateManagedEnv && str_eqb (ev_Value e) "true")
    (cn_Env (lmCacheNodeLocalGateContainer cache server path mounts)) = true.
Proof. done. Qed.

Lemma nodeLocal_again name cache write i pod :
  nodeLocalWired cache write i pod → EngineContainerIndexNamed quote pod name = inr i →
  renderLMCacheNodeLocalEngine quote quoteRune pod name cache write =
    inr (pod, if write then lmCacheNodeLocalConfigFilePath else "").
Proof.
  intros (server & path & H1 & H2 & H3 & H4 & H5 & (x & Hx & Hc) & H7 & H8) Hi.
  pose proof (managedBy_first _ _ _ _ H8 (gate_marked _ _ _ _)) as Hown.
  unfold renderLMCacheNodeLocalEngine. rewrite Hi. cbn [ebind]. rewrite H1, H2, H3, H4. cbn [ebind echeck].
  unfold lmCacheNodeLocalWireIsOurs. rewrite Hown, (renderNodeIP_again _ _ H5). cbn [ebind].
  unfold renderNodeShm. rewrite Hx, Hc. cbn [ebind echeck].
  assert ((if write then renderNodeConfig quote true i pod else inr pod) = inr pod) as ->.
  { destruct write; [|done]. by apply renderNodeConfig_again, H7. }
  cbn [ebind]. unfold adoptNodeLocalGate. rewrite adopt_again by done. cbn [ebind]. f_equal. f_equal. by destruct pod.
Qed.

Lemma nodeLocal_wired name cache write i pod pod' path' :
  EngineContainerIndexNamed quote pod name = inr i → nodeShmNotTaken i pod →
  renderLMCacheNodeLocalEngine quote quoteRune pod name cache write = inr (pod', path') →
  nodeLocalWired cache write i pod' ∧ EngineContainerIndexNamed quote pod' name = inr i ∧
  path' = if write then lmCacheNodeLocalConfigFilePath else "".
Proof.
  intros Hi Hnt. pose proof (index_lookup _ _ _ Hi) as Hlk. unfold renderLMCacheNodeLocalEngine. rewrite Hi. cbn [ebind].
  destruct (bs_LMCache (cb_Spec cache) ≫= _) as [server|] eqn:Hsrv; [|done]. destruct (str_eqb (cb_UID cache) "") eqn:Huid; [done|].
  intros ([] & Hval & (path & Hpath & (w1 & Hip & (w2 & Hshm & (w3 & Hcfg & (inits & Hin & H)%ebind_inr)%ebind_inr)%ebind_inr)%ebind_inr)%ebind_inr)%ebind_inr.
  injection H as <- <-. apply adopt_upsert in Hin as ->.
  destruct (renderNodeIP_wired _ _ _ _ Hlk Hip) as [-> Henv].
  assert (launchEdit addNodeIP) as Hle by done.
  assert (is_Some (psp_Containers (updateEngine addNodeIP i pod) !! i)) as Hlk1.
  { unfold updateEngine. cbn [psp_Containers set_containers]. rewrite list_lookup_alter_eq. destruct Hlk as [c ->]. simpl. eauto. }
  assert (nodeShmNotTaken i (updateEngine addNodeIP i pod)) as Hnt1.
  { unfold nodeShmNotTaken. by rewrite updateEngine_mounts. }
  destruct (renderNodeShm_wired _ _ _ _ _ Hlk1 Hnt1 Hshm) as (Hs & Hnt2 & Hlk2 & Hn2 & Hi2 & He2).
  assert ((write = true → mounted nodeConfigVolume nodeConfigMount i w3) ∧ nodeShmWired path i w3 ∧
    cn_Name <$> psp_Containers w3 = cn_Name <$> psp_Containers w2 ∧ engineEnv i w3 = engineEnv i w2) as (Hm3 & Hs3 & Hn3 & He3).
  { destruct write; [|by injection Hcfg as <-].
    destruct (renderNodeConfig_wired _ _ _ _ _ Hlk2 Hs Hnt2 Hcfg) as (? & ? & ? & ? & ?). by split_and!. }
  split_and!; [|rewrite <-Hi; apply index_names; cbn [psp_Containers set_init]; rewrite Hn3, Hn2; by apply updateEngine_names|done].
  exists server, path. split_and!; try done.
  - by destruct (validateLMCacheNodeLocalServerConfig _ _).
  - change (engineEnv i (set_init _ w3)) with (engineEnv i w3). by rewrite He3, He2.
  - cbn [psp_InitContainers set_init].
    set (g := lmCacheNodeLocalGateContainer _ _ _ _). apply (upsertBy_first cn_Name _ g).
Qed.

(** ** vLLM *)

(** The template leaves the reserved volume names alone. *)
Definition reservedFree (name : string) (pod : PodSpec) : Prop :=
  ∀ i, EngineContainerIndexNamed quote pod name = inr i → shmNotTaken i pod ∧ nodeShmNotTaken i pod.

Lemma vllm_edit json fo : nodeEdit (VLLM.wireEngine json fo).
Proof.
  split; [done|]. intros c. unfold VLLM.wireEngine. cbn [cn_Env set_engine].
  rewrite (pin_two _ (mkEnvVar VLLM.EnvPythonHashSeed "0" None) (mkEnvVar EnvInferenceCacheFailOpen fo None)) by done.
  rewrite first_app. unfold removeEnv. rewrite !first_filter; [by destruct (first _ _ _)|by intros x ->..].
Qed.

Lemma vllm_edit_idemp json fo c : VLLM.wireEngine json fo (VLLM.wireEngine json fo c) = VLLM.wireEngine json fo c.
Proof.
  unfold VLLM.wireEngine. destruct c. unfold set_engine. simpl. f_equal.
  - destruct (UpsertFlag_app (UpsertArgPair cn_Args VLLM.defaultEngineKVTransferConfigArg json) VLLM.vllmDisableHybridKVCacheArg) as [t Ht].
    rewrite Ht at 1. rewrite (UpsertArgPair_app _ _ _ t) by apply UpsertArgPair_idemp. rewrite <-Ht.
    apply UpsertFlag_id, UpsertFlag_in.
  - by apply (pin_two_idemp _ (mkEnvVar VLLM.EnvPythonHashSeed "0" None) (mkEnvVar EnvInferenceCacheFailOpen fo None)).
Qed.

(** The wire of the topology in place; [file] says whether the engine reads a client file. *)
Definition topologyWired (cache : CacheBackend) (binding : option Binding) (lm : LMCacheEngineSpec) (file : bool)
    (i : nat) (pod : PodSpec) : Prop :=
  if str_eqb (lm_Topology lm) LMCacheTopologyPodLocal then
    ∃ server, mjoin (lm_PodLocal lm) = Some server ∧ podLocalWired (podLocalConfig server lm binding file) i pod
  else lm_Topology lm = LMCacheTopologyNodeLocal ∧ nodeLocalWired cache file i pod.

Lemma topologyWired_edit f cache binding lm file i pod :
  nodeEdit f → topologyWired cache binding lm file i pod → topologyWired cache binding lm file i (updateEngine f i pod).
Proof.
  intros Hf. unfold topologyWired. destruct (str_eqb _ _).
  - intros (server & Hs & Hw). exists server. split; [done|]. by apply podLocalWired_edit; [apply Hf|].
  - intros [Ht Hw]. split; [done|]. by apply nodeLocalWired_edit.
Qed.

Lemma vllm_topology cache binding lm i pod work json :
  bs_LMCache (cb_Spec cache) = Some lm →
  EngineContainerIndexNamed quote pod EngineContainerName = inr i → shmNotTaken i pod → nodeShmNotTaken i pod →
  VLLM.renderTopology quote quoteRune pod binding cache lm = inr (work, json) →
  topologyWired cache binding lm false i work ∧ EngineContainerIndexNamed quote work EngineContainerName = inr i ∧
  ∀ pod', topologyWired cache binding lm false i pod' → EngineContainerIndexNamed quote pod' EngineContainerName = inr i →
    VLLM.renderTopology quote quoteRune pod' binding cache lm = inr (pod', json).
Proof.
  intros Hlm Hi H1 H2. unfold VLLM.renderTopology, topologyWired. destruct (str_eqb (lm_Topology lm) LMCacheTopologyPodLocal).
  - destruct (mjoin (lm_PodLocal lm)) as [server|]; [|done].
    intros (j & Hj & ([w p] & Hw & [= <- <-])%ebind_inr)%ebind_inr.
    destruct (podLocal_wired _ _ _ _ _ _ Hi H1 Hw) as (Hp & Hi' & _). split_and!; [by exists server|done|].
    intros pod' (s & [= <-] & Hp') Hi''. rewrite Hj. cbn [ebind]. by rewrite (podLocal_again _ _ _ _ Hp' Hi'').
  - destruct (str_eqb (lm_Topology lm) LMCacheTopologyNodeLocal) eqn:Et; [|done]. apply str_eqb_eq in Et.
    destruct (lm_NodeLocal lm ≫= _) as [server|] eqn:Es; [|done].
    intros (j & Hj & ([w p] & Hw & [= <- <-])%ebind_inr)%ebind_inr.
    destruct (nodeLocal_wired _ _ _ _ _ _ _ Hi H2 Hw) as (Hp & Hi' & _). split_and!; [done|done|done|].
    intros pod' [_ Hp'] Hi''. rewrite Hj. cbn [ebind]. by rewrite (nodeLocal_again _ _ _ _ _ Hp' Hi'').
Qed.

Lemma index_nonempty p n i :
  EngineContainerIndexNamed quote p n = inr i → validateInjectPodCacheInputs p "engine" = None.
Proof. intros [c Hc]%index_lookup. unfold validateInjectPodCacheInputs. by destruct (psp_Containers p). Qed.

(** ** SGLang *)

Lemma sglang_edit path fo : nodeEdit (SGLangLMCache.wireEngine path fo).
Proof.
  split; [done|]. intros c. unfold SGLangLMCache.wireEngine. cbn [cn_Env set_engine].
  by rewrite !UpsertEnv_upsert, !upsertBy_other.
Qed.

(** No flag stands where the value of [--lmcache-config-file] belongs. *)
Definition configArgOK (c : Container) : Prop := (argValues (cn_Args c) SGLangConfigFileArg).2 = false.

Definition addMetrics (c : Container) : Container := set_engine (UpsertFlag (cn_Args c) SGLangEnableMetricsArg) (cn_Env c) c.

Lemma sglang_env_idemp env fo :
  let pin env := UpsertEnv (UpsertEnv env (mkEnvVar SGLangLMCache.EnvLMCacheUseExperimental "True" None))
                   (mkEnvVar EnvInferenceCacheFailOpen fo None) in pin (pin env) = pin env.
Proof.
  intros pin. unfold pin. rewrite !UpsertEnv_upsert. rewrite (upsertBy_id ev_Name _ (mkEnvVar SGLangLMCache.EnvLMCacheUseExperimental "True" None)).
  - apply upsertBy_idemp.
  - rewrite upsertBy_other by done. apply (upsertBy_first ev_Name env (mkEnvVar SGLangLMCache.EnvLMCacheUseExperimental "True" None)).
Qed.

Lemma sglang_args_idemp args path t :
  (argValues args SGLangConfigFileArg).2 = false →
  let pin args := UpsertArgPair (UpsertFlag args SGLangEnableLMCacheArg) SGLangConfigFileArg path in
  pin (pin args ++ t) = pin args ++ t.
Proof.
  intros Hwf pin. unfold pin. assert ((argValues (UpsertFlag args SGLangEnableLMCacheArg) SGLangConfigFileArg).2 = false) as Hwf'.
  { unfold UpsertFlag. case_bool_decide; [done|]. by rewrite argValues_app. }
  rewrite (UpsertFlag_id _ SGLangEnableLMCacheArg).
  - apply UpsertArgPair_app, UpsertArgPair_idemp.
  - apply elem_of_app. left. apply UpsertArgPair_keeps; [apply UpsertFlag_in|done..].
Qed.

(** Turning metrics on after wiring leaves the wiring as it is. *)
Lemma sglang_edit_idemp path fo (f : Container → Container) c :
  configArgOK c → f = id ∨ f = addMetrics →
  let w := SGLangLMCache.wireEngine path fo in w (f (w c)) = f (w c) ∧ f (f (w c)) = f (w c).
Proof.
  intros Hc Hf w. unfold w, SGLangLMCache.wireEngine.
  destruct Hf as [->| ->]; split; unfold id, addMetrics; destruct c; unfold set_engine; simpl; f_equal; try apply sglang_env_idemp.
  - pose proof (sglang_args_idemp cn_Args path [] Hc) as H. cbn zeta in H. rewrite app_nil_r in H. done.
  - destruct (UpsertFlag_app (UpsertArgPair (UpsertFlag cn_Args SGLangEnableLMCacheArg) SGLangConfigFileArg path)
      SGLangEnableMetricsArg) as [t Ht]. rewrite Ht.
    by apply sglang_args_idemp.
  - apply UpsertFlag_id, UpsertFlag_in.
Qed.

Lemma sglang_topology cache binding lm i pod work path :
  bs_LMCache (cb_Spec cache) = Some lm →
  EngineContainerIndexNamed quote pod SGLangEngineContainerName = inr i → shmNotTaken i pod → nodeShmNotTaken i pod →
  SGLangLMCache.renderTopology quote quoteRune pod binding cache lm = inr (work, path) →
  topologyWired cache binding lm true i work ∧ EngineContainerIndexNamed quote work SGLangEngineContainerName = inr i ∧
  ∀ pod', topologyWired cache binding lm true i pod' → EngineContainerIndexNamed quote pod' SGLangEngineContainerName = inr i →
    SGLangLMCache.renderTopology quote quoteRune pod' binding cache lm = inr (pod', path).
Proof.
  intros Hlm Hi H1 H2. unfold SGLangLMCache.renderTopology, topologyWired. destruct (str_eqb (lm_Topology lm) LMCacheTopologyPodLocal).
  - destruct (mjoin (lm_PodLocal lm)) as [server|]; [|done]. intros Hw.
    destruct (podLocal_wired _ _ _ _ _ _ Hi H1 Hw) as (Hp & Hi' & ->). split_and!; [by exists server|done|].
    intros pod' (s & [= <-] & Hp') Hi''. by rewrite (podLocal_again _ _ _ _ Hp' Hi'').
  - destruct (str_eqb (lm_Topology lm) LMCacheTopologyNodeLocal) eqn:Et; [|done]. apply str_eqb_eq in Et.
    destruct (lm_NodeLocal lm ≫= _) as [server|] eqn:Es; [|done]. intros Hw.
    destruct (nodeLocal_wired _ _ _ _ _ _ _ Hi H2 Hw) as (Hp & Hi' & ->). split_and!; [done|done|done|].
    intros pod' [_ Hp'] Hi''. by rewrite (nodeLocal_again _ _ _ _ _ Hp' Hi'').
Qed.

(** ** What rendering leaves alone *)

Definition engineArgs (i : nat) (pod : PodSpec) : list string :=
  match psp_Containers pod !! i with Some c => cn_Args c | None => [] end.

Lemma updateEngine_args f i j pod :
  (∀ c, cn_Args (f c) = cn_Args c) → engineArgs j (updateEngine f i pod) = engineArgs j pod.
Proof.
  intros Hf. unfold engineArgs, updateEngine. cbn [psp_Containers set_containers]. destruct (decide (j = i)) as [->|Hj].
  - rewrite list_lookup_alter_eq. destruct (psp_Containers pod !! i) as [c|]; simpl; [by rewrite Hf|done].
  - by rewrite list_lookup_alter_ne.
Qed.

Lemma mountOn_args m i j vols pod : engineArgs j (mountOn m i (set_volumes vols pod)) = engineArgs j pod.
Proof. unfold mountOn. by rewrite updateEngine_args. Qed.

Lemma podLocal_args name cfg pod pod' path j :
  renderLMCachePodLocalServer quote pod name cfg = inr (pod', path) → engineArgs j pod' = engineArgs j pod.
Proof.
  unfold renderLMCachePodLocalServer.
  intros (i & _ & ([] & _ & ([l2 env] & _ & (work & Hw & ([m work'] & Hs & (server & _ & (inits & _ & H)%ebind_inr)%ebind_inr)%ebind_inr)%ebind_inr)%ebind_inr)%ebind_inr)%ebind_inr.
  injection H as <- _. change (engineArgs j (set_init inits work')) with (engineArgs j work').
  transitivity (engineArgs j work).
  - revert Hs. unfold renderShm.
    destruct (mountAtPath _ _) as [x|]; [destruct (_ && _)|]; intros Hs.
    + apply ebind_inr in Hs as (vols & _ & [= _ <-]). apply mountOn_args.
    + apply ebind_inr in Hs as ([] & _ & ([] & _ & [= _ <-])%ebind_inr). done.
    + apply ebind_inr in Hs as (vols & _ & [= _ <-]). apply mountOn_args.
  - destruct (mc_WriteClientConfig cfg); [|by injection Hw as <-].
    unfold renderConfigVolume in Hw. apply ebind_inr in Hw as ([] & _ & (vols & _ & [= <-])%ebind_inr). apply mountOn_args.
Qed.

Lemma nodeLocal_args name cache write pod pod' path j :
  renderLMCacheNodeLocalEngine quote quoteRune pod name cache write = inr (pod', path) → engineArgs j pod' = engineArgs j pod.
Proof.
  unfold renderLMCacheNodeLocalEngine. intros (i & _ & H)%ebind_inr. revert H.
  destruct (bs_LMCache (cb_Spec cache) ≫= _) as [server|]; [|done]. destruct (str_eqb (cb_UID cache) ""); [done|].
  intros ([] & _ & (hp & _ & (w1 & Hip & (w2 & Hshm & (w3 & Hcfg & (inits & _ & H)%ebind_inr)%ebind_inr)%ebind_inr)%ebind_inr)%ebind_inr)%ebind_inr.
  injection H as <- _. change (engineArgs j (set_init inits w3)) with (engineArgs j w3).
  transitivity (engineArgs j w2); [|transitivity (engineArgs j w1)].
  - destruct write; [|by injection Hcfg as <-].
    unfold renderNodeConfig in Hcfg. apply ebind_inr in Hcfg as ([] & _ & (vols & _ & [= <-])%ebind_inr). apply mountOn_args.
  - revert Hshm. unfold renderNodeShm. destruct (mountAtPath _ _) as [x|].
    + by intros ([] & _ & [= <-])%ebind_inr.
    + intros (vols & _ & [= <-])%ebind_inr. apply mountOn_args.
  - unfold renderNodeIP in Hip. destruct (existsb _ _); [done|]. injection Hip as <-. by apply updateEngine_args.
Qed.

Lemma podLocal_index name cfg pod r :
  renderLMCachePodLocalServer quote pod name cfg = inr r → ∃ j, EngineContainerIndexNamed quote pod name = inr j.
Proof. unfold renderLMCachePodLocalServer. intros (j & Hj & _)%ebind_inr. eauto. Qed.

Lemma nodeLocal_index name cache write pod r :
  renderLMCacheNodeLocalEngine quote quoteRune pod name cache write = inr r → ∃ j, EngineContainerIndexNamed quote pod name = inr j.
Proof. unfold renderLMCacheNodeLocalEngine. intros (j & Hj & _)%ebind_inr. eauto. Qed.

Lemma sglang_render cache binding lm pod work path :
  SGLangLMCache.renderTopology quote quoteRune pod binding cache lm = inr (work, path) →
  (∃ j, EngineContainerIndexNamed quote pod SGLangEngineContainerName = inr j) ∧ ∀ j, engineArgs j work = engineArgs j pod.
Proof.
  unfold SGLangLMCache.renderTopology. destruct (str_eqb _ _); [|destruct (str_eqb _ _); [|done]].
  - destruct (mjoin _) as [server|]; [|done]. intros H. split; [by apply podLocal_index in H|]. intros j. by apply podLocal_args with (j := j) in H.
  - destruct (_ ≫= _) as [server|]; [|done]. intros H. split; [by apply nodeLocal_index in H|]. intros j. by apply nodeLocal_args with (j := j) in H.
Qed.

Lemma vllm_render cache binding lm pod work json :
  VLLM.renderTopology quote quoteRune pod binding cache lm = inr (work, json) →
  (∃ j, EngineContainerIndexNamed quote pod EngineContainerName = inr j) ∧ ∀ j, engineArgs j work = engineArgs j pod.
Proof.
  unfold VLLM.renderTopology. destruct (str_eqb _ _); [|destruct (str_eqb _ _); [|done]].
  - destruct (mjoin _) as [server|]; [|done]. intros (? & _ & ([w p] & H & [= <- _])%ebind_inr)%ebind_inr.
    split; [by apply podLocal_index in H|]. intros j. by apply podLocal_args with (j := j) in H.
  - destruct (_ ≫= _) as [server|]; [|done]. intros (? & _ & ([w p] & H & [= <- _])%ebind_inr)%ebind_inr.
    split; [by apply nodeLocal_index in H|]. intros j. by apply nodeLocal_args with (j := j) in H.
Qed.

Lemma vllm_idempotent pod binding cache pod' :
  reservedFree EngineContainerName pod →
  VLLM.InjectEngineConfig quote quoteRune pod binding cache = inr pod' →
  VLLM.InjectEngineConfig quote quoteRune pod' binding cache = inr pod'.
Proof.
  intros Hfree. unfold VLLM.InjectEngineConfig. intros ([] & Hne & H)%ebind_inr. revert H.
  destruct (bs_LMCache (cb_Spec cache)) as [lm|] eqn:Hlm; [|done]. destruct (negb (supportsRESP binding)); [done|].
  intros ([work json] & Ht & (i & Hi & [= <-])%ebind_inr)%ebind_inr.
  destruct (vllm_render _ _ _ _ _ _ Ht) as [[j Hj] _].
  destruct (Hfree j Hj) as [Hs Hn]. destruct (vllm_topology _ _ _ _ _ _ _ Hlm Hj Hs Hn Ht) as (Hw & Hij & Hag).
  assert (i = j) as -> by congruence.
  set (pod' := updateEngine _ _ _).
  assert (EngineContainerIndexNamed quote pod' EngineContainerName = inr j) as Hi'.
  { rewrite <-Hij. apply index_names. by apply updateEngine_names. }
  rewrite (index_nonempty _ _ _ Hi'). cbn [ebind echeck]. rewrite Hag; [|by apply topologyWired_edit, Hw; apply vllm_edit|done].
  cbn [ebind]. rewrite Hi'. cbn [ebind]. f_equal. apply updateEngine_idemp, vllm_edit_idemp.
Qed.

Lemma updateEngine_compose f g i pod : updateEngine f i (updateEngine g i pod) = updateEngine (f ∘ g) i pod.
Proof.
  unfold updateEngine, set_containers. cbn [psp_Containers psp_InitContainers psp_Volumes]. f_equal.
  apply list_eq. intros j. destruct (decide (j = i)) as [->|Hj]; [|by rewrite !list_lookup_alter_ne].
  rewrite !list_lookup_alter_eq. by destruct (psp_Containers pod !! i).
Qed.

Lemma updateEngine_fix f g i pod :
  (∀ c, psp_Containers pod !! i = Some c → f (g c) = g c) → updateEngine f i (updateEngine g i pod) = updateEngine g i pod.
Proof.
  intros H. unfold updateEngine, set_containers. cbn [psp_Containers psp_InitContainers psp_Volumes]. f_equal.
  apply list_eq. intros j. destruct (decide (j = i)) as [->|Hj]; [|by rewrite !list_lookup_alter_ne].
  rewrite !list_lookup_alter_eq. destruct (psp_Containers pod !! i) as [c|]; simpl; [by rewrite H|done].
Qed.

Lemma ensureMetrics_edit pod cache subscriber i pod' :
  EngineContainerIndexNamed quote pod SGLangEngineContainerName = inr i →
  SGLangLMCache.ensureSGLangMetricsForSubscriber quote pod cache subscriber = inr pod' →
  ∃ f, (f = id ∨ f = addMetrics) ∧ pod' = updateEngine f i pod ∧
    ∀ p, EngineContainerIndexNamed quote p SGLangEngineContainerName = inr i →
      SGLangLMCache.ensureSGLangMetricsForSubscriber quote p cache subscriber = inr (updateEngine f i p).
Proof.
  intros Hi. unfold SGLangLMCache.ensureSGLangMetricsForSubscriber.
  assert (∀ p, updateEngine id i p = p) as Hid.
  { intros p. unfold updateEngine. destruct p as [ini cs vols]. unfold set_containers. cbn [psp_Containers psp_InitContainers psp_Volumes].
    f_equal. apply list_eq. intros j. destruct (decide (j = i)) as [->|Hj]; [|by rewrite list_lookup_alter_ne].
    rewrite list_lookup_alter_eq. by destruct (cs !! i). }
  destruct (_ || _).
  - intros [= <-]. exists id. split_and!; [by left|by rewrite Hid|]. intros p _. by rewrite Hid.
  - rewrite Hi. cbn [ebind]. intros [= <-]. exists addMetrics. split_and!; [by right|done|]. intros p Hp. by rewrite Hp.
Qed.

Lemma sglang_idempotent subscriber pod binding cache pod' :
  reservedFree SGLangEngineContainerName pod →
  (∀ i, EngineContainerIndexNamed quote pod SGLangEngineContainerName = inr i →
     (argValues (engineArgs i pod) SGLangConfigFileArg).2 = false) →
  SGLangLMCache.InjectEngineConfig quote quoteRune subscriber pod binding cache = inr pod' →
  SGLangLMCache.InjectEngineConfig quote quoteRune subscriber pod' binding cache = inr pod'.
Proof.
  intros Hfree Hok. unfold SGLangLMCache.InjectEngineConfig at 1. intros (mid & Hm & Hen)%ebind_inr. revert Hm.
  unfold SGLangLMCache.injectSGLangLMCacheMP. intros ([] & Hne & H)%ebind_inr. revert H.
  destruct (bs_LMCache (cb_Spec cache)) as [lm|] eqn:Hlm; [|done].
  intros ([work path] & Ht & (i & Hi & [= <-])%ebind_inr)%ebind_inr.
  destruct (sglang_render _ _ _ _ _ _ Ht) as [[j Hj] Hargs]. destruct (Hfree j Hj) as [Hs Hn].
  destruct (sglang_topology _ _ _ _ _ _ _ Hlm Hj Hs Hn Ht) as (Hw & Hij & Hag). assert (i = j) as -> by congruence.
  set (w := SGLangLMCache.wireEngine path (FailOpenString cache)) in *.
  assert (EngineContainerIndexNamed quote (updateEngine w j work) SGLangEngineContainerName = inr j) as Hi1.
  { rewrite <-Hij. apply index_names. by apply updateEngine_names. }
  destruct (ensureMetrics_edit _ _ _ _ _ Hi1 Hen) as (f & Hf & -> & Hen').
  assert (nodeEdit f) as Hfe by (by destruct Hf as [-> | ->]).
  assert (EngineContainerIndexNamed quote (updateEngine f j (updateEngine w j work)) SGLangEngineContainerName = inr j) as Hi2.
  { rewrite <-Hi1. apply index_names. apply updateEngine_names. intros c. by apply Hfe. }
  assert (∀ c, psp_Containers work !! j = Some c → configArgOK c) as Hcok.
  { intros c Hc. specialize (Hok j Hj). rewrite <-Hargs in Hok. unfold engineArgs in Hok. by rewrite Hc in Hok. }
  unfold SGLangLMCache.InjectEngineConfig, SGLangLMCache.injectSGLangLMCacheMP.
  rewrite (index_nonempty _ _ _ Hi2). cbn [ebind echeck]. rewrite Hlm.
  rewrite Hag; [|apply topologyWired_edit, topologyWired_edit, Hw; [done|apply sglang_edit]|done].
  cbn [ebind]. rewrite Hi2. cbn [ebind]. fold w.
  assert (updateEngine w j (updateEngine f j (updateEngine w j work)) = updateEngine f j (updateEngine w j work)) as ->.
  { rewrite !(updateEngine_compose f w). apply updateEngine_fix. intros c Hc. unfold compose.
    by apply (sglang_edit_idemp path (FailOpenString cache) f c (Hcok c Hc) Hf). }
  rewrite Hen' by done. f_equal. rewrite !(updateEngine_compose f w). apply updateEngine_fix. intros c Hc. unfold compose.
  by apply (sglang_edit_idemp path (FailOpenString cache) f c (Hcok c Hc) Hf).
Qed.
End wire.
