(* ===== verification/Overrides.v ===== *)
(** * Engine overrides (webhook/pod/overrides.go)

    The merge of [spec.integration.engineOverrides] into the arguments and environment an
    adapter rendered.  [pre] and [post] are the engine container before and after injection:
    what the adapter added or changed is adapter-owned, the rest of [pre] is the user's.
    Sets of flags and names are finite sets.

    What the override merge leaves alone *)

From S2P Require Import Prelude Ordering GoRuntime GoText CoreV1 BackendApi Endpoints Adapters Renderer.
From S2P Require Import UpsertFacts.

(** ** Arguments *)

(** The leading flag token; empty for a positional.  [overrideArgFlagToken] of the validating
    webhook has the same body. *)
Definition argFlagToken (arg : string) : string :=
  if HasPrefix arg "-" then takeUntil (λ a, bool_decide (a = "="%char)) arg else "".

(** [i+1 < len(args) && !strings.HasPrefix(args[i+1], "-")]: the value slot of a bare flag. *)
Definition valueSlot (arg : string) (rest : list string) : option string :=
  if ContainsByte arg "=" then None
  else match rest with v :: _ => if HasPrefix v "-" then None else Some v | [] => None end.

Fixpoint argsByFlag (args : list string) (out : gmap string string) : gmap string string :=
  match args with
  | [] => out
  | arg :: rest =>
      let token := argFlagToken arg in
      if str_eqb token "" then argsByFlag rest out
      else if ContainsByte arg "=" then
        argsByFlag rest (<[token := TrimPrefix arg (token +:+ "=")]> out)
      else match rest with
           | v :: rest' =>
               if negb (HasPrefix v "-") then argsByFlag rest' (<[token := v]> out)
               else argsByFlag rest (<[token := ""]> out)
           | [] => <[token := ""]> out
           end
  end.

(** The keys the adapter added or changed, and the keys it left alone. *)
Definition changedKeys {A : Type} `{EqDecision A} (pre post : gmap string A) : gset string :=
  dom (filter (λ kv, pre !! kv.1 ≠ Some kv.2) post).

Definition classifyArgFlags (pre post : list string) : gset string * gset string :=
  let preMap := argsByFlag pre ∅ in
  let adapter := changedKeys preMap (argsByFlag post ∅) in
  (adapter, dom preMap ∖ adapter).

Fixpoint suppressLoop (drop : gset string) (args : list string) : list string :=
  match args with
  | [] => []
  | arg :: rest =>
      let token := argFlagToken arg in
      if negb (str_eqb token "") && bool_decide (token ∈ drop) then
        match rest with
        | v :: rest' =>
            if negb (ContainsByte arg "=") && negb (HasPrefix v "-") then suppressLoop drop rest'
            else suppressLoop drop rest
        | [] => []
        end
      else arg :: suppressLoop drop rest
  end.

Definition suppressArgs (args suppress : list string) (adapter : gset string) : list string :=
  let drop := list_to_set (List.filter (λ s, bool_decide (s ∈ adapter)) suppress) in
  if bool_decide (drop = ∅) then args else suppressLoop drop args.

Fixpoint replaceArgFlag (args : list string) (flag : string) (replacement : list string) : list string :=
  match args with
  | [] => replacement
  | arg :: rest =>
      if negb (str_eqb (argFlagToken arg) flag) then arg :: replaceArgFlag rest flag replacement
      else match valueSlot arg rest with
           | Some _ => replacement ++ tail rest
           | None => replacement ++ rest
           end
  end.

Fixpoint overrideArgs (args overrides : list string) (adapter user : gset string) : list string :=
  let apply token replacement :=
    if str_eqb token "" then args ++ replacement
    else if bool_decide (token ∈ adapter) then replaceArgFlag args token replacement
    else if bool_decide (token ∈ user) then args
    else args ++ replacement in
  match overrides with
  | [] => args
  | entry :: rest =>
      let token := argFlagToken entry in
      match rest with
      | v :: rest' =>
          if negb (str_eqb token "") && negb (ContainsByte entry "=") && negb (HasPrefix v "-") then
            overrideArgs (apply token [entry; v]) rest' adapter user
          else overrideArgs (apply token [entry]) rest adapter user
      | [] => apply token [entry]
      end
  end.

Section overrides.
Context `{QO : QuantityOps}.

(** ** Environment *)

Definition envByName (env : list EnvVar) : gmap string EnvVar :=
  foldl (λ m e, <[ev_Name e := e]> m) ∅ env.

Definition classifyEnvNames (pre post : list EnvVar) : gset string * gset string :=
  let preMap := envByName pre in
  let adapter := changedKeys preMap (envByName post) in
  (adapter, dom preMap ∖ adapter).

Definition suppressEnv (env : list EnvVar) (suppress : list string) (adapter : gset string) : list EnvVar :=
  let drop := list_to_set (C := gset string) (List.filter (λ s, bool_decide (s ∈ adapter)) suppress) in
  if bool_decide (drop = ∅) then env else List.filter (λ e, negb (bool_decide (ev_Name e ∈ drop))) env.

(** Replace the first entry of that name, or append. *)
Fixpoint replaceEnv (env : list EnvVar) (ovr : EnvVar) : list EnvVar :=
  match env with
  | [] => [ovr]
  | e :: env => if str_eqb (ev_Name e) (ev_Name ovr) then ovr :: env else e :: replaceEnv env ovr
  end.

Definition overrideEnvStep (adapter user : gset string) (env : list EnvVar) (ovr : EnvVar) : list EnvVar :=
  if bool_decide (ev_Name ovr ∈ adapter) then replaceEnv env ovr
  else if bool_decide (ev_Name ovr ∈ user) then env
  else env ++ [ovr].

Definition overrideEnv (env overrides : list EnvVar) (adapter user : gset string) : list EnvVar :=
  foldl (overrideEnvStep adapter user) env overrides.

(** ** The merge *)

Definition applyEngineInjectionOverrides (preArgs postArgs : list string) (preEnv postEnv : list EnvVar)
    (overrides : option EngineInjectionOverrides) : list string * list EnvVar :=
  match overrides with
  | None => (postArgs, postEnv)
  | Some o =>
      let '(adapterArgs, userArgs) := classifyArgFlags preArgs postArgs in
      let '(adapterEnv, userEnv) := classifyEnvNames preEnv postEnv in
      (overrideArgs (suppressArgs postArgs (eo_SuppressArgs o) adapterArgs) (eo_Args o) adapterArgs userArgs,
       overrideEnv (suppressEnv postEnv (eo_SuppressEnv o) adapterEnv) (eo_Env o) adapterEnv userEnv)
  end.

Definition engineOverridesFor (cache : CacheBackend) : option EngineInjectionOverrides :=
  i ← bs_Integration (cb_Spec cache); in_EngineOverrides i.

(** The container the overrides apply to. *)
Definition overrideTargetIndex (containers : list Container) (engineContainerName : string) : option nat :=
  if str_eqb engineContainerName "" then None
  else match list_find (λ c, cn_Name c = engineContainerName) containers with
       | Some (i, _) => Some i
       | None => if (length containers =? 1)%nat then Some 0%nat else None
       end.
End overrides.

(** ** The value a flag ends up with *)

Definition ownValue (arg : string) (rest : list string) : string :=
  if ContainsByte arg "=" then TrimPrefix arg (argFlagToken arg +:+ "=") else default "" (valueSlot arg rest).

(** The last occurrence of flag [r] decides, as in an engine's own parser. *)
Fixpoint flagVal (r : string) (args : list string) : option string :=
  match args with
  | [] => None
  | arg :: rest =>
      match flagVal r rest with
      | Some v => Some v
      | None => if str_eqb (argFlagToken arg) r then Some (ownValue arg rest) else None
      end
  end.

Lemma argFlagToken_positional v : HasPrefix v "-" = false → argFlagToken v = "".
Proof. unfold argFlagToken. by intros ->. Qed.

Lemma flagVal_positional r v rest : r ≠ "" → HasPrefix v "-" = false → flagVal r (v :: rest) = flagVal r rest.
Proof.
  intros Hr Hv. simpl. rewrite argFlagToken_positional by done.
  assert (str_eqb "" r = false) as -> by (by apply str_eqb_neq). by destruct (flagVal r rest).
Qed.

Lemma argsByFlag_cons arg rest out :
  argsByFlag (arg :: rest) out =
  if str_eqb (argFlagToken arg) "" then argsByFlag rest out
  else if ContainsByte arg "=" then argsByFlag rest (<[argFlagToken arg := ownValue arg rest]> out)
  else match rest with
       | v :: rest' => if negb (HasPrefix v "-") then argsByFlag rest' (<[argFlagToken arg := v]> out)
                       else argsByFlag rest (<[argFlagToken arg := ""]> out)
       | [] => <[argFlagToken arg := ""]> out
       end.
Proof. unfold ownValue. simpl. by destruct (ContainsByte arg "="). Qed.

(** The parse of the code computes it. *)
Lemma argsByFlag_lookup args out r :
  r ≠ "" → argsByFlag args out !! r = match flagVal r args with Some v => Some v | None => out !! r end.
Proof.
  intros Hr. revert out.
  assert (∀ t v (out : gmap string string), <[t:=v]> out !! r = if str_eqb t r then Some v else out !! r) as Hins.
  { intros t v out. destruct (str_eqb t r) eqn:E; [apply str_eqb_eq in E as ->; by rewrite lookup_insert_eq|].
    apply str_eqb_neq in E. by rewrite lookup_insert_ne. }
  assert (∀ arg, str_eqb (argFlagToken arg) "" = true → str_eqb (argFlagToken arg) r = false) as Hemp.
  { intros arg E%str_eqb_eq. rewrite E. by apply str_eqb_neq. }
  assert (∀ arg rest (out : gmap string string), match flagVal r (arg :: rest) with Some v => Some v | None => out !! r end =
    match flagVal r rest with Some v => Some v
    | None => if str_eqb (argFlagToken arg) r then Some (ownValue arg rest) else out !! r end) as Hcons.
  { intros arg rest out'. simpl. destruct (flagVal r rest); [done|]. by destruct (str_eqb _ r). }
  induction args as [|arg|arg v args IH1 IH2] using list_ind2; intros out; [done|..];
    rewrite argsByFlag_cons, (Hcons arg); destruct (str_eqb (argFlagToken arg) "") eqn:Et.
  - by rewrite (Hemp arg).
  - unfold ownValue, valueSlot. destruct (ContainsByte arg "="); simpl; rewrite Hins; by destruct (str_eqb _ r).
  - by rewrite (Hemp arg), IH2.
  - destruct (ContainsByte arg "=") eqn:Ee; [by rewrite IH2, Hins|].
    unfold ownValue, valueSlot. rewrite Ee. destruct (HasPrefix v "-") eqn:Ev; cbn [negb default].
    + by rewrite IH2, Hins.
    + by rewrite IH1, Hins, (flagVal_positional r v).
Qed.

(** ** What an edit keeps *)

(** A flag stays present or absent, and a non-empty value it has stays; a flag without value
    may get one (see [flagKept] for which). *)
Definition keeps (x y : option string) : Prop :=
  (x = None ↔ y = None) ∧ ∀ v, v ≠ "" → x = Some v → y = Some v.

#[export] Instance keeps_refl : Reflexive keeps.
Proof. by split. Qed.

#[export] Instance keeps_trans : Transitive keeps.
Proof. intros x y z [H1 H2] [H3 H4]. split; [by rewrite H1|eauto]. Qed.

(** An argument list whose first element is no value for a flag before it. *)
Definition noValueAhead (args : list string) : Prop :=
  match args with v :: _ => HasPrefix v "-" = true | [] => True end.

Definition avoids (r : string) (args : list string) : Prop := Forall (λ a, argFlagToken a ≠ r) args.

Lemma flagVal_avoids r m rest : avoids r m → flagVal r (m ++ rest) = flagVal r rest.
Proof.
  induction 1 as [|a m Ha _ IH]; [done|]. simpl. rewrite IH. apply str_eqb_neq in Ha as ->.
  by destruct (flagVal r rest).
Qed.

Lemma flagVal_cons_keeps r arg l l' :
  keeps (flagVal r l) (flagVal r l') → (ownValue arg l = "" ∨ ownValue arg l = ownValue arg l') →
  keeps (flagVal r (arg :: l)) (flagVal r (arg :: l')).
Proof.
  intros [H1 H2] Ho. simpl. destruct (flagVal r l) as [v|] eqn:E1, (flagVal r l') as [v'|] eqn:E2;
    [by split|by destruct H1 as [_ H1]; specialize (H1 eq_refl)|by destruct H1 as [H1 _]; specialize (H1 eq_refl)|].
  destruct (str_eqb (argFlagToken arg) r); [|done]. split; [done|]. intros w Hw [= <-].
  destruct Ho as [Ho|Ho]; [done|by rewrite Ho].
Qed.

Lemma valueSlot_app arg p l : p ≠ [] → valueSlot arg (p ++ l) = valueSlot arg p.
Proof. unfold valueSlot. destruct p; [done|]. done. Qed.

Lemma ownValue_noValue arg l l' : noValueAhead l → ownValue arg l = "" ∨ ownValue arg l = ownValue arg l'.
Proof.
  intros Hl. unfold ownValue. destruct (ContainsByte arg "=") eqn:Ee; [by right|left].
  unfold valueSlot. rewrite Ee. destruct l as [|v l]; [done|]. simpl in Hl. by rewrite Hl.
Qed.

(** Replacing a block that neither defines [r] nor is the value of a flag before it. *)
Lemma keeps_splice r p m m' q :
  avoids r m → avoids r m' → noValueAhead (m ++ q) →
  keeps (flagVal r (p ++ m ++ q)) (flagVal r (p ++ m' ++ q)).
Proof.
  intros Hm Hm' Hq. induction p as [|a p IH].
  - simpl. by rewrite !flagVal_avoids.
  - cbn [app]. apply flagVal_cons_keeps; [done|]. destruct p as [|b p].
    + by apply ownValue_noValue.
    + right. unfold ownValue. by rewrite !valueSlot_app.
Qed.

Lemma token_flag a t : argFlagToken a = t → t ≠ "" → HasPrefix a "-" = true.
Proof. unfold argFlagToken. destruct (HasPrefix a "-"); naive_solver. Qed.

Lemma suppressLoop_keeps r drop args :
  r ≠ "" → r ∉ drop → keeps (flagVal r args) (flagVal r (suppressLoop drop args)).
Proof.
  intros Hr Hd. induction args as [|arg|arg v args IH1 IH2] using list_ind2; [done|..]; cbn [suppressLoop].
  - destruct (negb _ && _) eqn:E; [|done]. apply andb_true_iff in E as [_ E%bool_decide_eq_true].
    simpl. assert (str_eqb (argFlagToken arg) r = false) as ->; [|done].
    apply str_eqb_neq. by intros <-.
  - destruct (negb _ && _) eqn:E.
    + apply andb_true_iff in E as [E1 E%bool_decide_eq_true].
      assert (argFlagToken arg ≠ r) as Ha by (by intros <-).
      destruct (negb (ContainsByte arg "=") && negb (HasPrefix v "-")) eqn:Ev.
      * apply andb_true_iff in Ev as [_ Ev%negb_true_iff].
        etrans; [|apply IH1]. change (arg :: v :: args) with ([arg; v] ++ args). rewrite flagVal_avoids; [done|].
        repeat constructor; [done|]. rewrite argFlagToken_positional by done. congruence.
      * etrans; [|apply IH2]. change (arg :: v :: args) with ([arg] ++ v :: args).
        rewrite flagVal_avoids; [done|]. by repeat constructor.
    + apply flagVal_cons_keeps; [done|]. destruct (HasPrefix v "-") eqn:Ev; [by apply ownValue_noValue|].
      right. cbn [suppressLoop]. rewrite (argFlagToken_positional v), str_eqb_refl by done. cbn [negb andb].
      unfold ownValue, valueSlot. by rewrite Ev.
Qed.

Lemma replaceArgFlag_keeps r args flag replacement :
  r ≠ "" → flag ≠ "" → flag ≠ r → avoids r replacement →
  keeps (flagVal r args) (flagVal r (replaceArgFlag args flag replacement)).
Proof.
  intros Hr Hf Hfr Hrep.
  assert (∃ p m q, args = p ++ m ++ q ∧ replaceArgFlag args flag replacement = p ++ replacement ++ q ∧
    avoids r m ∧ noValueAhead (m ++ q)) as (p & m & q & -> & -> & Hm & Hq).
  { induction args as [|arg rest IH]; cbn [replaceArgFlag].
    - exists [], [], []. split_and!; [done|by rewrite app_nil_r|constructor|done].
    - destruct (str_eqb (argFlagToken arg) flag) eqn:E; cbn [negb].
      + apply str_eqb_eq in E. assert (HasPrefix arg "-" = true) as Hp by (by eapply token_flag).
        assert (argFlagToken arg ≠ r) by congruence.
        destruct (valueSlot arg rest) as [v|] eqn:Ev.
        * exists [], [arg; v], (tail rest). unfold valueSlot in Ev. destruct (ContainsByte arg "="); [done|].
          destruct rest as [|w rest]; [done|]. destruct (HasPrefix w "-") eqn:Ew; [done|]. injection Ev as ->.
          split_and!; [done..| |done]. repeat constructor; [done|]. rewrite argFlagToken_positional by done. congruence.
        * exists [], [arg], rest. split_and!; [done..| |done]. by repeat constructor.
      + destruct IH as (p & m & q & -> & -> & ? & ?). by exists (arg :: p), m, q. }
  by apply keeps_splice.
Qed.

Lemma append_keeps r args extra : avoids r extra → keeps (flagVal r args) (flagVal r (args ++ extra)).
Proof.
  intros He. pose proof (keeps_splice r args [] extra []) as H. rewrite !app_nil_r in H.
  apply H; [constructor|done|done].
Qed.

(** An entry does not touch [k]: it names another key, or [k] belongs to the user. *)
Definition spares (adapter user : gset string) (k t : string) : Prop :=
  t = k → k ∉ adapter ∧ k ∈ user.

Lemma overrideArgs_keeps r args overrides adapter user :
  r ≠ "" → Forall (λ e, spares adapter user r (argFlagToken e)) overrides →
  keeps (flagVal r args) (flagVal r (overrideArgs args overrides adapter user)).
Proof.
  intros Hr. revert args.
  assert (∀ args token replacement, spares adapter user r token → (token ≠ r → avoids r replacement) →
    keeps (flagVal r args)
      (flagVal r (if str_eqb token "" then args ++ replacement
                  else if bool_decide (token ∈ adapter) then replaceArgFlag args token replacement
                  else if bool_decide (token ∈ user) then args else args ++ replacement))) as Hstep.
  { intros args token replacement Ht Ha. destruct (decide (token = r)) as [->|Hne].
    { destruct (Ht eq_refl) as [H1 H2]. assert (str_eqb r "" = false) as -> by (by apply str_eqb_neq).
      by rewrite bool_decide_false, bool_decide_true. }
    destruct (str_eqb token "") eqn:E; [apply append_keeps; auto|].
    apply str_eqb_neq in E. destruct (bool_decide (token ∈ adapter)); [apply replaceArgFlag_keeps; auto|].
    destruct (bool_decide (token ∈ user)); [done|]. apply append_keeps; auto. }
  induction overrides as [|e|e v overrides IH1 IH2] using list_ind2; intros args Hall; [done|..]; cbn [overrideArgs].
  - apply Forall_cons in Hall as [He _]. apply Hstep; [done|by repeat constructor].
  - apply Forall_cons in Hall as [He Hall]. destruct (negb _ && _ && _) eqn:E.
    + apply andb_true_iff in E as [_ E%negb_true_iff]. apply Forall_cons in Hall as [Hv Hall].
      etrans; [|by apply IH1]. apply Hstep; [done|]. intros ?. repeat constructor; [done|].
      rewrite argFlagToken_positional by done. congruence.
    + etrans; [|by apply IH2]. apply Hstep; [done|by repeat constructor].
Qed.

(** ** Where the arguments of the merge come from *)

(** The arguments that spell flag [r], in order. *)
Definition flagArgs (r : string) : list string → list string :=
  List.filter (λ a, str_eqb (argFlagToken a) r).

Lemma flagArgs_app r l l' : flagArgs r (l ++ l') = flagArgs r l ++ flagArgs r l'.
Proof. apply List.filter_app. Qed.

Lemma flagArgs_avoids r l : avoids r l → flagArgs r l = [].
Proof.
  induction 1 as [|a l Ha _ IH]; [done|]. unfold flagArgs in *. simpl. by apply str_eqb_neq in Ha as ->.
Qed.

(** An edit of an argument list that neither adds nor drops a spelling of [r] and takes
    every argument it adds from [extra]. *)
Record spells (r : string) (extra args args' : list string) : Prop := {
  sp_flags : flagArgs r args' = flagArgs r args;
  sp_from : ∀ a, a ∈ args' → a ∈ args ∨ a ∈ extra
}.

#[export] Instance spells_refl r extra : Reflexive (spells r extra).
Proof. split; auto. Qed.

#[export] Instance spells_trans r extra : Transitive (spells r extra).
Proof.
  intros x y z [H1 H2] [H3 H4]. split; [by rewrite H3|]. intros a [Ha|Ha]%H4; [by apply H2|by right].
Qed.

Lemma spells_cons r extra a l l' : spells r extra l l' → spells r extra (a :: l) (a :: l').
Proof.
  intros [H1 H2]. split; [unfold flagArgs in *; simpl; by rewrite H1|].
  intros b [->|Hb]%elem_of_cons; [left; left|]. destruct (H2 b Hb); [left; by right|by right].
Qed.

Lemma spells_drop r extra m l : avoids r m → spells r extra (m ++ l) l.
Proof.
  intros Hm. split; [by rewrite flagArgs_app, (flagArgs_avoids r m)|].
  intros a Ha. left. apply elem_of_app. by right.
Qed.

Lemma spells_add r extra m p q :
  avoids r m → (∀ a, a ∈ m → a ∈ extra) → spells r extra (p ++ q) (p ++ m ++ q).
Proof.
  intros Hm Hx. split; [by rewrite !flagArgs_app, (flagArgs_avoids r m)|].
  intros a. rewrite !elem_of_app. naive_solver.
Qed.

Lemma suppressLoop_spells r extra drop args :
  r ≠ "" → r ∉ drop → spells r extra args (suppressLoop drop args).
Proof.
  intros Hr Hd. induction args as [|arg|arg v args IH1 IH2] using list_ind2; [done|..]; cbn [suppressLoop].
  - destruct (negb _ && _) eqn:E; [|done]. apply andb_true_iff in E as [_ E%bool_decide_eq_true].
    apply (spells_drop r extra [arg]). repeat constructor. by intros <-.
  - destruct (negb _ && _) eqn:E; [|by apply spells_cons].
    apply andb_true_iff in E as [_ E%bool_decide_eq_true].
    assert (argFlagToken arg ≠ r) as Ha by (by intros <-).
    destruct (negb (ContainsByte arg "=") && negb (HasPrefix v "-")) eqn:Ev.
    + apply andb_true_iff in Ev as [_ Ev%negb_true_iff]. etrans; [|apply IH1].
      apply (spells_drop r extra [arg; v]). repeat constructor; [done|].
      rewrite argFlagToken_positional by done. congruence.
    + etrans; [|apply IH2]. apply (spells_drop r extra [arg]). by repeat constructor.
Qed.

Lemma replaceArgFlag_spells r extra args flag replacement :
  r ≠ "" → flag ≠ r → avoids r replacement → (∀ a, a ∈ replacement → a ∈ extra) →
  spells r extra args (replaceArgFlag args flag replacement).
Proof.
  intros Hr Hf Hrep Hx. induction args as [|arg rest IH]; cbn [replaceArgFlag].
  - pose proof (spells_add r extra replacement [] []) as H. rewrite !app_nil_r in H. by apply H.
  - destruct (str_eqb (argFlagToken arg) flag) eqn:E; cbn [negb]; [|by apply spells_cons].
    apply str_eqb_eq in E. assert (argFlagToken arg ≠ r) by congruence.
    destruct (valueSlot arg rest) as [v|] eqn:Ev.
    + unfold valueSlot in Ev. destruct (ContainsByte arg "="); [done|]. destruct rest as [|w rest]; [done|].
      destruct (HasPrefix w "-") eqn:Ew; [done|]. cbn [tail].
      etrans; [apply (spells_drop r extra [arg; w])|by apply (spells_add r extra replacement [])].
      repeat constructor; [done|]. rewrite argFlagToken_positional by done. congruence.
    + etrans; [apply (spells_drop r extra [arg])|by apply (spells_add r extra replacement [])].
      by repeat constructor.
Qed.

Lemma overrideArgs_spells r extra args overrides adapter user :
  r ≠ "" → Forall (λ e, spares adapter user r (argFlagToken e) ∧ e ∈ extra) overrides →
  spells r extra args (overrideArgs args overrides adapter user).
Proof.
  intros Hr. revert args.
  assert (∀ args token replacement, spares adapter user r token → (token ≠ r → avoids r replacement) →
    (∀ a, a ∈ replacement → a ∈ extra) →
    spells r extra args
      (if str_eqb token "" then args ++ replacement
       else if bool_decide (token ∈ adapter) then replaceArgFlag args token replacement
       else if bool_decide (token ∈ user) then args else args ++ replacement)) as Hstep.
  { intros args token replacement Ht Ha Hx. destruct (decide (token = r)) as [->|Hne].
    { destruct (Ht eq_refl) as [H1 H2]. assert (str_eqb r "" = false) as -> by (by apply str_eqb_neq).
      by rewrite bool_decide_false, bool_decide_true. }
    assert (spells r extra args (args ++ replacement)) as Happ.
    { pose proof (spells_add r extra replacement args []) as H. rewrite !app_nil_r in H. by apply H; auto. }
    destruct (str_eqb token ""); [done|].
    destruct (bool_decide (token ∈ adapter)); [by apply replaceArgFlag_spells; auto|].
    by destruct (bool_decide (token ∈ user)). }
  induction overrides as [|e|e v overrides IH1 IH2] using list_ind2; intros args Hall; [done|..]; cbn [overrideArgs].
  - apply Forall_cons in Hall as [[He Hx] _].
    apply Hstep; [done|by repeat constructor|by intros a ->%list_elem_of_singleton].
  - apply Forall_cons in Hall as [[He Hx] Hall]. destruct (negb _ && _ && _) eqn:E.
    + apply andb_true_iff in E as [_ E%negb_true_iff]. apply Forall_cons in Hall as [[Hv Hxv] Hall].
      etrans; [|by apply IH1]. apply Hstep; [done| |].
      * intros ?. repeat constructor; [done|]. rewrite argFlagToken_positional by done. congruence.
      * by intros a [->|[->|?%elem_of_nil]%elem_of_cons]%elem_of_cons.
    + etrans; [|by apply IH2]. apply Hstep; [done|by repeat constructor|by intros a ->%list_elem_of_singleton].
Qed.

(** The value of a flag is that of its last spelling: behind the equals sign, or the
    positional after it. *)
Lemma flagVal_last r l w :
  flagVal r l = Some w →
  ∃ a, last (flagArgs r l) = Some a ∧
    (if ContainsByte a "=" then w = TrimPrefix a (r +:+ "=")
     else w = "" ∨ w ∈ l ∧ HasPrefix w "-" = false).
Proof.
  induction l as [|a l IH]; simpl; [done|]. unfold flagArgs in *. cbn [List.filter].
  destruct (flagVal r l) as [v|] eqn:Ev.
  - intros [= <-]. destruct (IH eq_refl) as (b & Hb & Hw). exists b. split.
    + destruct (str_eqb (argFlagToken a) r); [|done]. by rewrite last_cons, Hb.
    + destruct (ContainsByte b "="); [done|]. destruct Hw as [?|[? ?]]; [by left|right].
      split; [by right|done].
  - destruct (str_eqb (argFlagToken a) r) eqn:Er; [|done]. intros [= <-]. exists a. split.
    + rewrite last_cons. assert (List.filter (λ b, str_eqb (argFlagToken b) r) l = []) as ->; [|done].
      clear -Ev. induction l as [|b l IH]; [done|]. simpl in *. destruct (flagVal r l); [done|].
      destruct (str_eqb (argFlagToken b) r); [done|]. by apply IH.
    + apply str_eqb_eq in Er. unfold ownValue, valueSlot. rewrite Er. destruct (ContainsByte a "="); [done|].
      destruct l as [|v l]; [by left|]. destruct (HasPrefix v "-") eqn:Hv; [by left|right].
      split; [right; left|done].
Qed.

(** What the merge does to a flag the overrides cannot take: its spellings stay as they are,
    none is added, and it keeps its value.  The one thing a flag without value may get is a
    positional argument that now follows it. *)
Definition flagKept (extra args args' : list string) (r : string) : Prop :=
  flagArgs r args' = flagArgs r args ∧
  match argsByFlag args ∅ !! r, argsByFlag args' ∅ !! r with
  | None, None => True
  | Some v, Some w => w = v ∨ v = "" ∧ HasPrefix w "-" = false ∧ (w ∈ args ∨ w ∈ extra)
  | _, _ => False
  end.

Lemma flagKept_intro r extra args args' :
  r ≠ "" → keeps (argsByFlag args ∅ !! r) (argsByFlag args' ∅ !! r) → spells r extra args args' →
  flagKept extra args args' r.
Proof.
  intros Hr. assert (∀ a, argsByFlag a ∅ !! r = flagVal r a) as Hfv.
  { intros a. rewrite argsByFlag_lookup, lookup_empty by done. by destruct (flagVal r a). }
  unfold flagKept. rewrite !Hfv. intros [Hn Hk] [Hf Hx]. split; [done|].
  destruct (flagVal r args) as [v|] eqn:Ev, (flagVal r args') as [w|] eqn:Ew;
    [|by pose proof (proj2 Hn eq_refl)|by pose proof (proj1 Hn eq_refl)|done].
  destruct (decide (v = "")) as [->|Hv]; [|left; specialize (Hk v Hv eq_refl); congruence].
  destruct (flagVal_last _ _ _ Ev) as (a & Ha & Hav), (flagVal_last _ _ _ Ew) as (b & Hb & Hbw).
  rewrite Hf, Ha in Hb. injection Hb as <-. destruct (ContainsByte a "="); [left; congruence|].
  destruct Hbw as [->|[Hin Hp]]; [by left|right]. split_and!; [done..|]. by apply Hx.
Qed.

Lemma flagKept_refl r extra args : flagKept extra args args r.
Proof. split; [done|]. destruct (argsByFlag args ∅ !! r); [by left|done]. Qed.

(** ** Environment *)

Section env.
Context `{QO : QuantityOps}.

Definition named (n : string) : list EnvVar → list EnvVar := List.filter (λ e, str_eqb (ev_Name e) n).

Lemma named_app n l l' : named n (l ++ l') = named n l ++ named n l'.
Proof. apply List.filter_app. Qed.

Lemma suppressEnv_named n env suppress adapter :
  n ∉ suppress ∨ n ∉ adapter → named n (suppressEnv env suppress adapter) = named n env.
Proof.
  intros Hn. unfold suppressEnv. case_bool_decide; [done|]. unfold named.
  induction env as [|e env IH]; [done|]. cbn [List.filter]. destruct (str_eqb (ev_Name e) n) eqn:E.
  - pose proof E as E'. apply str_eqb_eq in E'. rewrite bool_decide_false.
    + cbn [negb List.filter]. by rewrite E, IH.
    + rewrite E', elem_of_list_to_set, elem_of_List_filter, bool_decide_eq_true. tauto.
  - destruct (negb _); [|done]. cbn [List.filter]. by rewrite E.
Qed.

Lemma overrideEnvStep_named n env ovr adapter user :
  spares adapter user n (ev_Name ovr) → named n (overrideEnvStep adapter user env ovr) = named n env.
Proof.
  intros Hsp. unfold overrideEnvStep. destruct (decide (ev_Name ovr = n)) as [Heq|Hn].
  { destruct (Hsp Heq) as [H1 H2]. rewrite Heq. by rewrite bool_decide_false, bool_decide_true. }
  assert (named n [ovr] = []) as Ho by (unfold named; simpl; by apply str_eqb_neq in Hn as ->).
  destruct (bool_decide (_ ∈ adapter)); [|destruct (bool_decide _); [done|]].
  - induction env as [|e env IH]; [done|]. cbn [replaceEnv]. destruct (str_eqb (ev_Name e) (ev_Name ovr)) eqn:E.
    + apply str_eqb_eq in E. unfold named. cbn [List.filter]. rewrite E. by apply str_eqb_neq in Hn as ->.
    + unfold named in *. cbn [List.filter]. by rewrite IH.
  - by rewrite named_app, Ho, app_nil_r.
Qed.

Lemma overrideEnv_named n env overrides adapter user :
  Forall (λ e, spares adapter user n (ev_Name e)) overrides →
  named n (overrideEnv env overrides adapter user) = named n env.
Proof.
  intros Hall. unfold overrideEnv. revert env. induction Hall as [|o overrides Ho _ IH]; intros env; [done|].
  simpl. by rewrite IH, overrideEnvStep_named.
Qed.

(** ** The merge *)

(** A flag (or variable) the overrides cannot take: they do not name it, or the user's pod
    template has it and the adapter left it as it was. *)
Definition sparedArg (preArgs postArgs : list string) (o : EngineInjectionOverrides) (r : string) : Prop :=
  (Forall (λ e, argFlagToken e ≠ r) (eo_Args o) ∧ r ∉ eo_SuppressArgs o) ∨
  (is_Some (argsByFlag preArgs ∅ !! r) ∧ (argsByFlag postArgs ∅ !! r = argsByFlag preArgs ∅ !! r)).

Definition sparedEnv (preEnv postEnv : list EnvVar) (o : EngineInjectionOverrides) (n : string) : Prop :=
  (Forall (λ e, ev_Name e ≠ n) (eo_Env o) ∧ n ∉ eo_SuppressEnv o) ∨
  (is_Some (envByName preEnv !! n) ∧ (envByName postEnv !! n = envByName preEnv !! n)).

Lemma user_owned {A : Type} `{EqDecision A} (pre post : gmap string A) k :
  is_Some (pre !! k) → post !! k = pre !! k →
  k ∉ changedKeys pre post ∧ k ∈ dom pre ∖ changedKeys pre post.
Proof.
  intros Hk Heq. assert (k ∉ changedKeys pre post) as Hc.
  { unfold changedKeys. rewrite elem_of_dom. intros [v [Hv Hne]%map_lookup_filter_Some].
    apply Hne. simpl. by rewrite <-Heq. }
  split; [done|]. apply elem_of_difference. split; [by apply elem_of_dom|done].
Qed.

Lemma merge_keeps_args preArgs postArgs preEnv postEnv o r :
  r ≠ "" → sparedArg preArgs postArgs o r →
  keeps (argsByFlag postArgs ∅ !! r)
    (argsByFlag (applyEngineInjectionOverrides preArgs postArgs preEnv postEnv (Some o)).1 ∅ !! r).
Proof.
  intros Hr Hsp. unfold applyEngineInjectionOverrides, classifyArgFlags.
  destruct (classifyEnvNames _ _) as [adapterEnv userEnv]. cbn [fst].
  set (pre := argsByFlag preArgs ∅) in *. set (post := argsByFlag postArgs ∅) in *.
  assert (∀ a, argsByFlag a ∅ !! r = flagVal r a) as Hfv.
  { intros a. rewrite argsByFlag_lookup, lookup_empty by done. by destruct (flagVal r a). }
  unfold post at 1. rewrite !Hfv. etrans; [|apply overrideArgs_keeps; [done|]].
  - unfold suppressArgs. case_bool_decide; [done|]. apply suppressLoop_keeps; [done|].
    rewrite elem_of_list_to_set, elem_of_List_filter, bool_decide_eq_true.
    destruct Hsp as [[_ ?]|[H1 H2]]; [tauto|]. intros [Hc _]. by apply (user_owned pre post r).
  - destruct Hsp as [[Ha _]|[H1 H2]].
    + apply (Forall_impl _ _ _ Ha). by intros e He ?.
    + apply Forall_true. intros e _. by apply user_owned.
Qed.

Lemma merge_keeps_flag preArgs postArgs preEnv postEnv o r :
  r ≠ "" → sparedArg preArgs postArgs o r →
  flagKept (eo_Args o) postArgs
    (applyEngineInjectionOverrides preArgs postArgs preEnv postEnv (Some o)).1 r.
Proof.
  intros Hr Hsp. apply flagKept_intro; [done|by apply merge_keeps_args|].
  unfold applyEngineInjectionOverrides, classifyArgFlags.
  destruct (classifyEnvNames _ _) as [adapterEnv userEnv]. cbn [fst].
  set (pre := argsByFlag preArgs ∅) in *. set (post := argsByFlag postArgs ∅) in *.
  etrans; [|apply overrideArgs_spells; [done|]].
  - unfold suppressArgs. case_bool_decide; [done|]. apply suppressLoop_spells; [done|].
    rewrite elem_of_list_to_set, elem_of_List_filter, bool_decide_eq_true.
    destruct Hsp as [[_ ?]|[H1 H2]]; [tauto|]. intros [Hc _]. by apply (user_owned pre post r).
  - apply Forall_forall. intros e He. split; [|done]. destruct Hsp as [[Ha _]|[H1 H2]].
    + rewrite Forall_forall in Ha. intros E. by destruct (Ha e He).
    + intros _. by apply user_owned.
Qed.

Lemma merge_keeps_env preArgs postArgs preEnv postEnv o n :
  sparedEnv preEnv postEnv o n →
  named n (applyEngineInjectionOverrides preArgs postArgs preEnv postEnv (Some o)).2 = named n postEnv.
Proof.
  intros Hsp. unfold applyEngineInjectionOverrides, classifyEnvNames.
  destruct (classifyArgFlags _ _) as [adapterArgs userArgs]. cbn [snd].
  rewrite overrideEnv_named, suppressEnv_named; [done|..].
  - destruct Hsp as [[_ ?]|[H1 H2]]; [by left|right]. by apply user_owned.
  - destruct Hsp as [[Ha _]|[H1 H2]].
    + apply (Forall_impl _ _ _ Ha). by intros e He ?.
    + apply Forall_true. intros e _. by apply user_owned.
Qed.
End env.
