(* ===== verification/BackendAdmission.v ===== *)
(** * Admission of CacheBackends: the rules (webhook/v1alpha1/cachebackend_validator.go,
    cachebackend_storage_validation.go, cachebackend_integration_validation.go,
    cachebackend_lmcache_mp_validation.go, cachebackend_override_validation.go)

    Each rule maps a CacheBackend to its violations.  Field paths are printed; ranging over a
    resource list is a fold over its [map_to_list], so only the set of errors is meant. *)

From Stdlib Require Import SpecFloat.
From S2P Require Import Prelude Ordering GoRuntime GoText GoNumbers K8s Admission CoreV1 BackendApi Endpoints.
From S2P Require Import Adapters Overrides.

(** ** Field errors *)

Definition errInvalid (path : string) (bad : BadValue) (detail : string) : FieldError :=
  mkFieldError ErrorTypeInvalid path bad detail.
Definition errForbidden (path detail : string) : FieldError :=
  mkFieldError ErrorTypeForbidden path NoValue detail.
Definition errRequired (path detail : string) : FieldError :=
  mkFieldError ErrorTypeRequired path NoValue detail.
Definition errInternal (path detail : string) : FieldError :=
  mkFieldError ErrorTypeInternal path BadNil detail.

(** [path.Child(c)], [path.Key(k)], [path.Index(i)]. *)
Definition child (p c : string) : string := p +:+ "." +:+ c.
Definition key (p k : string) : string := p +:+ "[" +:+ k +:+ "]".
Definition index (p : string) (i : nat) : string := p +:+ "[" +:+ FormatInt (Z.of_nat i) +:+ "]".

(** One error when [b]. *)
Definition errWhen (b : bool) (e : FieldError) : list FieldError := if b then [e] else [].

Section rules.
Context `{QO : QuantityOps} `{KV : KValidation}.
(** [%q] of fmt. *)
Variable quote : string → string.

(** [%q] of a rejected value among those supported. *)
Definition errNotSupported (path : string) (bad : BadValue) (values : list string) : FieldError :=
  mkFieldError ErrorTypeNotSupported path bad ("supported values: " +:+ Join ", " (quote <$> values)).

(** ** Resource lists *)

Definition isOvercommittableResource (name : string) : bool :=
  bool_decide (name ∈ ["cpu"; "memory"; "ephemeral-storage"]).

Definition hugePagesPrefix : string := "hugepages-".

(** The message of a rejected container resource name; none when it is accepted. *)
Definition validateContainerResourceName (name : string) : option string :=
  if isOvercommittableResource name then None
  else if HasPrefix name hugePagesPrefix then
    match ParseQuantity (TrimPrefix name hugePagesPrefix) with
    | Some qty => if qSign qty <=? 0 then Some (quote name +:+ " is not a valid container resource name: " +:+
                    quote hugePagesPrefix +:+ " must be followed by a positive page-size quantity (e.g. " +:+
                    dq +:+ "hugepages-2Mi" +:+ dq +:+ ")")
                  else None
    | None => Some (quote name +:+ " is not a valid container resource name: " +:+
                    quote hugePagesPrefix +:+ " must be followed by a positive page-size quantity (e.g. " +:+
                    dq +:+ "hugepages-2Mi" +:+ dq +:+ ")")
    end
  else if negb (ContainsByte name "/") then
    Some (quote name +:+ " is not a valid container resource name: must be one of " +:+ quote "cpu" +:+ "/" +:+
          quote "memory" +:+ "/" +:+ quote "ephemeral-storage" +:+ ", a hugepages-<size> variant (e.g. " +:+ dq +:+
          "hugepages-2Mi" +:+ dq +:+ "), or a vendor-prefixed extended resource (e.g. " +:+ dq +:+ "nvidia.com/gpu" +:+ dq +:+ ")")
  else if HasPrefix name "kubernetes.io/" || HasPrefix name "requests.kubernetes.io/" then
    Some (quote name +:+ " is not a valid container resource name: " +:+ quote "kubernetes.io/" +:+ " and " +:+
          quote "requests.kubernetes.io/" +:+
          " are K8s-reserved prefixes — extended resources must use a third-party vendor domain (e.g. " +:+ dq +:+ "nvidia.com/gpu" +:+ dq +:+ ")")
  else match IsQualifiedName name with
       | msg :: _ => Some (quote name +:+ " is not a valid container resource name: " +:+ msg)
       | [] => None
       end.

(** The provider's resource block and its path. *)
Definition selectedProviderResources (cb : CacheBackend) : option (ResourceRequirements * string) :=
  storage ← bs_RemoteStorage (cb_Spec cb);
  if str_eqb (rs_Provider storage) CacheBackendRemoteStorageProviderRedis then
    redis ← rs_Redis storage;
    res ← rd_Resources redis;
    Some (res, "spec.remoteStorage.redis.resources")
  else None.

(** A rule on the provider's resources. *)
Definition onResources (rule : ResourceRequirements → string → list FieldError) (cb : CacheBackend) :
    list FieldError :=
  match selectedProviderResources cb with Some (res, path) => rule res path | None => [] end.

(** [for name, q := range list]. *)
Definition eachResource (rl : gmap string Quantity) (f : string → Quantity → list FieldError) :
    list FieldError :=
  map_to_list rl ≫= λ nq, f nq.1 nq.2.

(** [check(requests, "requests"); check(limits, "limits")]. *)
Definition bothLists (r : ResourceRequirements) (path : string)
    (f : string → string → Quantity → list FieldError) : list FieldError :=
  eachResource (rr_Requests r) (f (child path "requests")) ++ eachResource (rr_Limits r) (f (child path "limits")).

Definition limitsBelowRequests (r : ResourceRequirements) (path : string) : list FieldError :=
  eachResource (rr_Requests r) (λ name req,
    match rr_Limits r !! name with
    | None => []
    | Some lim =>
        if isOvercommittableResource name then
          errWhen (qCmp lim req <? 0) (errInvalid (key (child path "limits") name) (BadString (qString lim))
            ("must be greater than or equal to " +:+ child path "requests" +:+ "[" +:+ name +:+ "] (" +:+ qString req +:+ ")"))
        else
          errWhen (negb (qCmp lim req =? 0)) (errInvalid (key (child path "limits") name) (BadString (qString lim))
            ("must equal " +:+ child path "requests" +:+ "[" +:+ name +:+ "] (" +:+ qString req +:+ ") — " +:+ quote name +:+
             " is a non-overcommittable resource (hugepages and extended resources require request == limit)"))
    end).
Definition rejectResourceLimitsBelowRequests : CacheBackend → list FieldError := onResources limitsBelowRequests.

Definition requestsOnly (r : ResourceRequirements) (path : string) : list FieldError :=
  eachResource (rr_Requests r) (λ name qty,
    if isOvercommittableResource name then []
    else match rr_Limits r !! name with
         | Some _ => []
         | None => [errInvalid (key (child path "requests") name) (BadString (qString qty))
             (quote name +:+ " is a non-overcommittable resource — it must also be set in " +:+ child path "limits" +:+
              " with the same value (hugepages and extended resources require requests and limits to be declared together)")]
         end).
Definition rejectRequestsOnlyForNonOvercommittableResources : CacheBackend → list FieldError := onResources requestsOnly.

Definition rejectResourceClaims : CacheBackend → list FieldError := onResources (λ r path,
  match rr_Claims r with
  | [] => []
  | _ => [errForbidden (child path "claims") (child path "claims" +:+
      " is not supported in v1alpha1: the runtime adapter does not plumb pod.spec.resourceClaims, so a claim-bound container.resources.claims would render a pod the apiserver rejects")]
  end).

Definition negativeQuantities (r : ResourceRequirements) (path : string) : list FieldError :=
  bothLists r path (λ p name qty,
    errWhen (qSign qty <? 0) (errInvalid (key p name) (BadString (qString qty)) "must be a non-negative quantity")).
Definition rejectNegativeResourceQuantities : CacheBackend → list FieldError := onResources negativeQuantities.

Definition invalidNames (r : ResourceRequirements) (path : string) : list FieldError :=
  bothLists r path (λ p name _,
    match validateContainerResourceName name with
    | Some msg => [errInvalid (key p name) (BadString name) msg]
    | None => []
    end).
Definition rejectInvalidResourceNames : CacheBackend → list FieldError := onResources invalidNames.

Definition fractionalExtended (r : ResourceRequirements) (path : string) : list FieldError :=
  bothLists r path (λ p name qty,
    if isOvercommittableResource name then []
    else if HasPrefix name hugePagesPrefix then []
    else match qAsInt64 qty with
         | Some _ => []
         | None => [errInvalid (key p name) (BadString (qString qty))
             (quote name +:+ " is an extended resource and must be an integer quantity — K8s allocates extended resources by whole units")]
         end).
Definition rejectFractionalExtendedResources : CacheBackend → list FieldError := onResources fractionalExtended.

Definition misalignedHugepages (r : ResourceRequirements) (path : string) : list FieldError :=
  bothLists r path (λ p name qty,
    if negb (HasPrefix name hugePagesPrefix) then []
    else
      let suffix := TrimPrefix name hugePagesPrefix in
      match ParseQuantity suffix with
      | None => []
      | Some pageSize =>
          if qSign pageSize <=? 0 then []
          else if qValue qty <=? 0 then []
          else errWhen (negb (Z.rem (qValue qty) (qValue pageSize) =? 0))
                 (errInvalid (key p name) (BadString (qString qty))
                    ("must be a multiple of the page size " +:+ suffix +:+
                     " — the Linux kernel allocates hugepages in whole-page chunks"))
      end).
Definition rejectMisalignedHugepageQuantities : CacheBackend → list FieldError := onResources misalignedHugepages.

(** ** Storage *)

Definition validateCacheHierarchy (cb : CacheBackend) : list FieldError :=
  let spec := cb_Spec cb in
  errWhen (bool_decide (is_Some (bs_LMCache spec)) && negb (str_eqb (EffectiveCacheType spec) CacheBackendTypeLMCache))
    (errForbidden "spec.lmCache" "spec.lmCache is valid only when spec.type=LMCache") ++
  match bs_RemoteStorage spec with
  | None => []
  | Some storage =>
      let path := "spec.remoteStorage" in
      let ext := str_eqb (rs_Ownership storage) OwnershipExternal in
      errWhen (str_eqb (rs_Provider storage) "") (errRequired (child path "provider") "select a remote-storage provider") ++
      errWhen (str_eqb (rs_Ownership storage) "") (errRequired (child path "ownership") "select Managed or External ownership") ++
      (if str_eqb (rs_Ownership storage) OwnershipManaged then
         errWhen (negb (str_eqb (TrimSpace (rs_Endpoint storage)) "")) (errForbidden (child path "endpoint")
           "managed providers publish their observed endpoint in status.remoteStorage.endpoint")
       else if ext then
         (if str_eqb (TrimSpace (rs_Endpoint storage)) "" then
            [errRequired (child path "endpoint") "required when remoteStorage.ownership=External"]
          else match ValidateExternalEndpoint quote (rs_Provider storage) (rs_Endpoint storage) with
               | Some err => [errInvalid (child path "endpoint") (BadString (rs_Endpoint storage)) err]
               | None => []
               end) ++
         errWhen (rs_Workload storage) (errForbidden (child path "workload") "valid only with Managed ownership")
       else []) ++
      match rs_Redis storage with
      | None => []
      | Some redis =>
          errWhen (negb (str_eqb (rs_Provider storage) CacheBackendRemoteStorageProviderRedis))
            (errForbidden (child path "redis") ("configuration belongs to provider Redis, but remoteStorage.provider=" +:+ rs_Provider storage)) ++
          (if ext then
             errWhen (negb (str_eqb (TrimSpace (rd_Image redis)) ""))
               (errForbidden (child path "redis.image") "valid only with Managed ownership") ++
             errWhen (bool_decide (is_Some (rd_Resources redis)))
               (errForbidden (child path "redis.resources") "valid only with Managed ownership")
           else [])
      end
  end.

Definition rejectCrossNamespaceEndpointWithoutOptIn (cb : CacheBackend) : list FieldError :=
  match bs_RemoteStorage (cb_Spec cb) with
  | None => []
  | Some storage =>
      match serviceDNSNamespace (rs_Endpoint storage) with
      | None => []
      | Some ns =>
          if str_eqb ns (cb_Namespace cb) then []
          else if bs_AllowCrossNamespace (cb_Spec cb) then []
          else [errForbidden "spec.remoteStorage.endpoint"
                  ("spec.remoteStorage.endpoint references namespace " +:+ quote ns +:+ " but CacheBackend is in namespace " +:+
                   quote (cb_Namespace cb) +:+ "; set spec.allowCrossNamespace=true to opt in to the cross-namespace reference")]
      end
  end.

(** ** LMCache topology *)

(** [^[^[:space:]@]+@sha256:[a-f0-9]{64}$]. *)
Definition asciiSpace (a : ascii) : bool :=
  let n := Z_of_byte a in ((9 <=? n) && (n <=? 13)) || (n =? 32).
Definition lowerHex (a : ascii) : bool :=
  let n := Z_of_byte a in ((97 <=? n) && (n <=? 102)) || ((48 <=? n) && (n <=? 57)).
Definition sha256ImagePattern (s : string) : bool :=
  match Cut "@" s with
  | None => false
  | Some (name, rest) =>
      negb (str_eqb name "") && negb (str_existsb asciiSpace name) &&
      match CutPrefix "sha256:" rest with
      | Some d => (String.length d =? 64)%nat && str_forallb lowerHex d
      | None => false
      end
  end.

Definition validateDigestPinnedImage (image path requiredMessage : string) : list FieldError :=
  let trimmed := TrimSpace image in
  if str_eqb trimmed "" then [errRequired path requiredMessage]
  else if negb (sha256ImagePattern trimmed) then
    [errInvalid path (BadString image)
       "must be pinned by sha256 digest (for example registry.example/image@sha256:<64-hex-digest>)"]
  else [].

Definition validateMPServerResourceRequirements (r : ResourceRequirements) (path : string) : list FieldError :=
  match rr_Claims r with
  | [] => []
  | _ => [errForbidden (child path "claims")
      "MP server resource claims are not supported because the injector does not own pod.spec.resourceClaims"]
  end ++
  bothLists r path (λ p name quantity,
    match validateContainerResourceName name with
    | Some msg => [errInvalid (key p name) (BadString name) msg]
    | None =>
        errWhen (qSign quantity <? 0) (errInvalid (key p name) (BadString (qString quantity)) "must be a non-negative quantity") ++
        (if negb (isOvercommittableResource name) && negb (HasPrefix name hugePagesPrefix) then
           match qAsInt64 quantity with
           | Some _ => []
           | None => [errInvalid (key p name) (BadString (qString quantity))
               (quote name +:+ " is an extended resource and must be an integer quantity")]
           end
         else []) ++
        (if HasPrefix name hugePagesPrefix && (0 <? qSign quantity) then
           match ParseQuantity (TrimPrefix name hugePagesPrefix) with
           | Some pageSize =>
               errWhen ((0 <? qSign pageSize) && negb (Z.rem (qValue quantity) (qValue pageSize) =? 0))
                 (errInvalid (key p name) (BadString (qString quantity))
                    ("must be a multiple of the page size " +:+ qString pageSize))
           | None => []
           end
         else [])
    end) ++
  eachResource (rr_Requests r) (λ name request,
    match rr_Limits r !! name with
    | None =>
        errWhen (negb (isOvercommittableResource name))
          (errInvalid (key (child path "requests") name) (BadString (qString request))
             (quote name +:+ " is non-overcommittable and must also have an equal limit"))
    | Some limit =>
        errWhen (isOvercommittableResource name && (qCmp limit request <? 0))
          (errInvalid (key (child path "limits") name) (BadString (qString limit))
             ("must be greater than or equal to request " +:+ qString request)) ++
        errWhen (negb (isOvercommittableResource name) && negb (qCmp limit request =? 0))
          (errInvalid (key (child path "limits") name) (BadString (qString limit))
             ("must equal request " +:+ qString request +:+ " for non-overcommittable resource " +:+ quote name))
    end).

Definition lmcacheMPMemoryHeadroom : string := "1Gi".

(** l1Capacity plus the headroom; none when the capacity is not positive. *)
Definition memoryBudget (l1Capacity : Quantity) : option Quantity :=
  if 0 <? qSign l1Capacity then Some (qAdd l1Capacity (MustParse lmcacheMPMemoryHeadroom)) else None.

Definition budgetText (l1Capacity budget : Quantity) : string :=
  "must be at least " +:+ qString budget +:+ " (l1Capacity " +:+ qString l1Capacity +:+ " + " +:+
  lmcacheMPMemoryHeadroom +:+ " headroom)".

Definition validateMPServer (image : string) (port : Z) (l1Capacity : Quantity) (r : ResourceRequirements)
    (path : string) (reservedPorts : list (Z * string)) : list FieldError :=
  let res := child path "resources" in
  let reqMem := key (child res "requests") "memory" in
  let limMem := key (child res "limits") "memory" in
  validateDigestPinnedImage image (child path "image") "a CacheBackend-owned LMCache MP server image is required" ++
  (if (port <? 1) || (65535 <? port) then
     [errInvalid (child path "port") (BadInt port) "must be between 1 and 65535"]
   else match List.find (λ po, po.1 =? port) reservedPorts with
        | Some (_, owner) => [errInvalid (child path "port") (BadInt port)
            ("collides with the " +:+ owner +:+ " port " +:+ FormatInt port)]
        | None => []
        end) ++
  errWhen (qSign l1Capacity <=? 0) (errInvalid (child path "l1Capacity") (BadString (qString l1Capacity)) "must be greater than zero") ++
  validateMPServerResourceRequirements r res ++
  match rr_Requests r !! "cpu" with
  | Some q => errWhen (qSign q <=? 0) (errRequired (key (child res "requests") "cpu") "a positive CPU request is required for the MP server")
  | None => [errRequired (key (child res "requests") "cpu") "a positive CPU request is required for the MP server"]
  end ++
  match rr_Requests r !! "memory" with
  | None => [errRequired reqMem "a positive memory request is required for the MP server"]
  | Some q =>
      if qSign q <=? 0 then [errRequired reqMem "a positive memory request is required for the MP server"]
      else match memoryBudget l1Capacity with
           | Some b => errWhen (qCmp q b <? 0) (errInvalid reqMem (BadString (qString q)) (budgetText l1Capacity b +:+
               " so scheduling accounts for the eagerly allocated pinned L1 and server overhead"))
           | None => []
           end
  end ++
  match rr_Limits r !! "memory" with
  | None => [errRequired limMem "a positive memory limit is required for the MP server"]
  | Some l =>
      if qSign l <=? 0 then [errRequired limMem "a positive memory limit is required for the MP server"]
      else
        match rr_Requests r !! "memory" with
        | Some q => errWhen (qCmp l q <? 0) (errInvalid limMem (BadString (qString l))
            ("must be greater than or equal to the memory request " +:+ qString q))
        | None => []
        end ++
        match memoryBudget l1Capacity with
        | Some b => errWhen (qCmp l b <? 0) (errInvalid limMem (BadString (qString l)) (budgetText l1Capacity b +:+
            " to cover the eagerly allocated pinned L1 and server overhead"))
        | None => []
        end
  end.

Definition lmcacheKVEventPort : Z := 5557.
Definition lmcacheMPHTTPPort : Z := 8080.

Definition validatePodLocalServer (server : LMCachePodLocalServerSpec) (path : string) : list FieldError :=
  validateMPServer (pls_Image server) (pls_Port server) (pls_L1Capacity server) (pls_Resources server) path
    [(lmcacheKVEventPort, "engine KV-event publisher"); (lmcacheMPHTTPPort, "LMCache MP HTTP health/control")] ++
  errWhen (pls_MaxWorkers server <? 1) (errInvalid (child path "maxWorkers") (BadInt (pls_MaxWorkers server)) "must be at least 1").

(** The listener ports, each in range and distinct from those before it. *)
Definition portStep (path : string) (st : list FieldError * list (Z * string)) (item : string * Z) :
    list FieldError * list (Z * string) :=
  let '(errs, seen) := st in
  let '(name, port) := item in
  if (port <? 1) || (65535 <? port) then
    (errs ++ [errInvalid (child path name) (BadInt port) "must be between 1 and 65535"], seen)
  else match List.find (λ po, po.1 =? port) seen with
       | Some (_, prior) => (errs ++ [errInvalid (child path name) (BadInt port)
           ("must be distinct from " +:+ prior +:+ " because both listeners bind the node network namespace")], seen)
       | None => (errs, (port, name) :: seen)
       end.

Definition gpuMessage : string :=
  "NodeLocal MP servers use NVIDIA_VISIBLE_DEVICES=all for CUDA IPC and must not reserve engine allocatable GPUs".

Definition validateNodeLocalServer (server : LMCacheNodeLocalServerSpec) (path : string) : list FieldError :=
  let r := nls_Resources server in
  validateMPServer (nls_Image server) (nls_Port server) (nls_L1Capacity server) r path [] ++
  errWhen (nls_MaxGPUWorkers server <? 1) (errInvalid (child path "maxGPUWorkers") (BadInt (nls_MaxGPUWorkers server)) "must be at least 1") ++
  errWhen (nls_MaxCPUWorkers server <? 1) (errInvalid (child path "maxCPUWorkers") (BadInt (nls_MaxCPUWorkers server)) "must be at least 1") ++
  (foldl (portStep path) ([], []) [("port", nls_Port server); ("httpPort", nls_HTTPPort server)]).1 ++
  errWhen (bool_decide (is_Some (rr_Requests r !! "nvidia.com/gpu"))) (errForbidden (key (child path "resources.requests") "nvidia.com/gpu") gpuMessage) ++
  errWhen (bool_decide (is_Some (rr_Limits r !! "nvidia.com/gpu"))) (errForbidden (key (child path "resources.limits") "nvidia.com/gpu") gpuMessage).

Definition validateLMCacheTopology (cb : CacheBackend) : list FieldError :=
  let spec := cb_Spec cb in
  if negb (str_eqb (EffectiveCacheType spec) CacheBackendTypeLMCache) then []
  else if IsEventsOnly spec then
    match bs_LMCache spec with
    | Some _ => [errForbidden "spec.lmCache"
        "LMCache topology is invalid with integration.mode=EventsOnly because that mode injects no KV connector or MP server"]
    | None => []
    end
  else match bs_LMCache spec with
  | None => [errRequired "spec.lmCache" "required for the LMCache multiprocess data plane"]
  | Some lm =>
      if str_eqb (lm_Topology lm) "" then
        [errRequired "spec.lmCache.topology" "required when podLocal or nodeLocal is configured"]
      else if str_eqb (lm_Topology lm) LMCacheTopologyPodLocal then
        match lm_PodLocal lm with
        | None => [errRequired "spec.lmCache.podLocal" "required when topology=PodLocal"]
        | Some None => [errRequired "spec.lmCache.podLocal.server" "required when topology=PodLocal"]
        | Some (Some server) => validatePodLocalServer server "spec.lmCache.podLocal.server"
        end ++
        errWhen (bool_decide (is_Some (lm_NodeLocal lm)))
          (errForbidden "spec.lmCache.nodeLocal" "must be omitted when topology=PodLocal")
      else if str_eqb (lm_Topology lm) LMCacheTopologyNodeLocal then
        match lm_NodeLocal lm with
        | None => [errRequired "spec.lmCache.nodeLocal" "required when topology=NodeLocal"]
        | Some nl =>
            match nl_Server nl with
            | None => [errRequired "spec.lmCache.nodeLocal.server" "required when topology=NodeLocal"]
            | Some server =>
                validateNodeLocalServer server "spec.lmCache.nodeLocal.server" ++
                errWhen ((nl_IdleRetentionSeconds nl <? 0) || (86400 <? nl_IdleRetentionSeconds nl))
                  (errInvalid "spec.lmCache.nodeLocal.idleRetentionSeconds" (BadInt (nl_IdleRetentionSeconds nl))
                     "must be between 0 and 86400 seconds")
            end
        end ++
        errWhen (bool_decide (is_Some (lm_PodLocal lm)))
          (errForbidden "spec.lmCache.podLocal" "must be omitted when topology=NodeLocal") ++
        errWhen (bool_decide (matchLabels cb = ∅))
          (errRequired "spec.engineSelector.matchLabels" "NodeLocal requires a non-empty engine selector to define its trust domain")
      else [errNotSupported "spec.lmCache.topology" (BadString (lm_Topology lm)) [LMCacheTopologyPodLocal; LMCacheTopologyNodeLocal]]
  end.

(** ** Redis *)

Definition validateRedisSecretKeySelector (sel : KeySelector) (path : string) : list FieldError :=
  let name := TrimSpace (ks_Name sel) in
  let k := TrimSpace (ks_Key sel) in
  (if str_eqb name "" then [errRequired (child path "name") "a namespace-local Secret name is required"]
   else match IsDNS1123Subdomain name with
        | [] => []
        | messages => [errInvalid (child path "name") (BadString (ks_Name sel)) (Join "; " messages)]
        end) ++
  (if str_eqb k "" then [errRequired (child path "key") "a Secret data key is required"]
   else match IsConfigMapKey k with
        | [] => []
        | messages => [errInvalid (child path "key") (BadString (ks_Key sel)) (Join "; " messages)]
        end) ++
  errWhen (default false (ks_Optional sel)) (errForbidden (child path "optional")
    "authentication Secret keys are required; optional credentials could start the cache plane unauthenticated or unusable").

Definition isTypedMP (spec : CacheBackendSpec) : bool :=
  match bs_LMCache spec with
  | None => false
  | Some lm =>
      str_eqb (EffectiveCacheType spec) CacheBackendTypeLMCache &&
      (str_eqb (lm_Topology lm) LMCacheTopologyPodLocal || str_eqb (lm_Topology lm) LMCacheTopologyNodeLocal) &&
      (str_eqb (bs_Runtime spec) CacheBackendRuntimeSGLang || str_eqb (bs_Runtime spec) CacheBackendRuntimeVLLM)
  end.

Definition rejectUnimplementedRedisBindingFeatures (cb : CacheBackend) : list FieldError :=
  match storage ← bs_RemoteStorage (cb_Spec cb); redis ← rs_Redis storage; Some (storage, redis) with
  | None => []
  | Some (storage, redis) =>
      let path := "spec.remoteStorage.redis" in
      match rd_Authentication redis with
      | None => []
      | Some auth =>
          let authPath := child path "authentication" in
          if negb (isTypedMP (cb_Spec cb)) then
            [errForbidden authPath "Redis authentication is currently rendered only by a typed LMCache MP adapter"]
          else
            match ra_Username auth with
            | Some u => validateRedisSecretKeySelector u (child authPath "username")
            | None => []
            end ++
            validateRedisSecretKeySelector (ra_Password auth) (child authPath "password") ++
            errWhen (str_eqb (rs_Ownership storage) OwnershipManaged && bool_decide (is_Some (ra_Username auth)))
              (errForbidden (child authPath "username")
                 "managed Redis provisions the default user and currently supports password authentication only")
      end ++
      errWhen (bool_decide (is_Some (rd_TLS redis))) (errForbidden (child path "tls")
        "the pinned LMCache 0.5.3 resp adapter does not support TLS; refusing inert TLS configuration") ++
      errWhen (bool_decide (is_Some (rd_Database redis))) (errForbidden (child path "database")
        "the pinned LMCache 0.5.3 resp adapter does not support database selection; refusing inert adapter configuration")
  end.
End rules.
