(* ===== verification/BackendValidator.v ===== *)
(** * Admission of CacheBackends: engine integration, adapters and the webhook
    (webhook/v1alpha1/cachebackend_integration_validation.go, cachebackend_override_validation.go,
    cachebackend_validator.go)

    [backendStep] is the apiserver serving one request after another; the overlap check reads
    the stored objects through the live reader. *)

From Stdlib Require Import SpecFloat.
From S2P Require Import Prelude Ordering GoRuntime GoText GoNumbers K8s Admission CoreV1 BackendApi Endpoints.
From S2P Require Import Adapters Overrides BackendAdmission.

Section validator.
Context `{QO : QuantityOps} `{KV : KValidation}.
(** [%q] of fmt. *)
Variable quote : string → string.

(** ** SGLang HiCache *)

Definition validHiCacheWritePolicy (v : string) : bool :=
  bool_decide (v ∈ [""; "write_back"; "write_through"; "write_through_selective"]).
Definition validHiCacheIOBackend (v : string) : bool :=
  bool_decide (v ∈ [""; "direct"; "kernel"; "kernel_ascend"]).
Definition validHiCacheMemoryLayout (v : string) : bool :=
  bool_decide (v ∈ [""; "layer_first"; "page_first"; "page_first_direct"; "page_first_kv_split"; "page_head"]).

(** [fmt.Sprintf("%v", spec)] of a [*SGLangHiCacheSpec]: the nested pointer prints as an address. *)
Definition hiCacheValue (spec : SGLangHiCacheSpec) : BadValue :=
  BadStruct (ptr_addr <$> hc_SizeGB spec)
    [hc_Ratio spec; hc_WritePolicy spec; hc_IOBackend spec; hc_MemoryLayout spec].

(** [err != nil || ratio <= 0 || IsNaN(ratio) || IsInf(ratio, 0)]. *)
Definition badRatio (s : string) : bool :=
  match ParseFloat64 s with
  | None => true
  | Some r => is_nan r || is_inf r || SFleb r (S754_zero false)
  end.

Definition validateHiCacheBlock (spec : SGLangHiCacheSpec) : list FieldError :=
  let path := "spec.hiCache" in
  let hasRatio := negb (str_eqb (hc_Ratio spec) "") in
  match hc_SizeGB spec, hasRatio with
  | None, false => [errRequired path "exactly one of sizeGB and ratio must be set"]
  | Some _, true => [errInvalid path (hiCacheValue spec) "sizeGB and ratio are mutually exclusive"]
  | _, _ => []
  end ++
  match hc_SizeGB spec with
  | Some p => errWhen (ptr_val p <? 1) (errInvalid (child path "sizeGB") (BadInt (ptr_val p)) "must be at least 1")
  | None => []
  end ++
  errWhen (hasRatio && badRatio (hc_Ratio spec))
    (errInvalid (child path "ratio") (BadString (hc_Ratio spec)) "must be a finite number greater than zero") ++
  errWhen (negb (validHiCacheWritePolicy (hc_WritePolicy spec)))
    (errNotSupported quote (child path "writePolicy") (BadString (hc_WritePolicy spec))
       ["write_back"; "write_through"; "write_through_selective"]) ++
  errWhen (negb (validHiCacheIOBackend (hc_IOBackend spec)))
    (errNotSupported quote (child path "ioBackend") (BadString (hc_IOBackend spec)) ["direct"; "kernel"; "kernel_ascend"]) ++
  errWhen (negb (validHiCacheMemoryLayout (hc_MemoryLayout spec)))
    (errNotSupported quote (child path "memoryLayout") (BadString (hc_MemoryLayout spec))
       ["layer_first"; "page_first"; "page_first_direct"; "page_first_kv_split"; "page_head"]).

Definition validateSGLangHiCache (cb : CacheBackend) : list FieldError :=
  let spec := cb_Spec cb in
  if negb (str_eqb (bs_Type spec) CacheBackendTypeSGLangHiCache) then
    errWhen (bool_decide (is_Some (bs_HiCache spec)))
      (errForbidden "spec.hiCache" ("spec.hiCache is only valid when spec.type=" +:+ quote CacheBackendTypeSGLangHiCache))
  else
    match bs_HiCache spec with
    | None => [errRequired "spec.hiCache" ("required when spec.type=" +:+ quote CacheBackendTypeSGLangHiCache)]
    | Some hc => validateHiCacheBlock hc
    end ++
    errWhen (negb (str_eqb (ResolveRuntimeID cb) RuntimeSGLang))
      (errInvalid "spec.runtime" (BadString (bs_Runtime spec)) "SGLangHiCache requires runtime=SGLang") ++
    errWhen (bool_decide (matchLabels cb = ∅))
      (errRequired "spec.engineSelector.matchLabels" "SGLangHiCache must select the engine Pods to inject") ++
    errWhen (negb (str_eqb (IntegrationMode (bs_Integration spec)) ModeOffload))
      (errNotSupported quote "spec.integration.mode"
         (BadString (match bs_Integration spec with Some i => in_Mode i | None => "" end)) [ModeOffload]) ++
    match bs_Integration spec with
    | None => []
    | Some i =>
        errWhen (negb (str_eqb (in_Role i) "") && negb (str_eqb (in_Role i) RoleReadWrite))
          (errNotSupported quote "spec.integration.role" (BadString (in_Role i)) [RoleReadWrite]) ++
        errWhen (negb (IntegrationFailOpen (Some i)))
          (errNotSupported quote "spec.integration.failOpen" (BadBool false) ["true"])
    end.

(** ** Integration *)

Definition rejectUnsupportedLMCacheRole (cb : CacheBackend) : list FieldError :=
  match bs_Integration (cb_Spec cb) with
  | None => []
  | Some i =>
      if str_eqb (in_Role i) "" || str_eqb (in_Role i) RoleReadWrite then []
      else if negb (str_eqb (bs_Type (cb_Spec cb)) CacheBackendTypeLMCache) then []
      else [errInvalid "spec.integration.role" (BadString (in_Role i))
              ("LMCache integrations currently support only " +:+ quote RoleReadWrite +:+ " (the default); " +:+
               quote RoleReadOnly +:+ " / " +:+ quote RoleWriteOnly +:+
               " are rejected until a validated connector enforces directional cache access")]
  end.

Definition rejectInvalidKernelCheckAnnotation (cb : CacheBackend) : list FieldError :=
  match cb_Annotations cb !! AnnotationLMCacheKernelCheck with
  | None => []
  | Some v =>
      if IsValidKernelCheckMode v then []
      else [errInvalid (key "metadata.annotations" AnnotationLMCacheKernelCheck) (BadString v)
              ("must be one of " +:+ quote "auto" +:+ ", " +:+ quote "report-only" +:+ ", " +:+ quote "strict" +:+ ", " +:+
               quote "off" +:+ " (or unset)")]
  end.

Definition rejectEventsOnlyMisconfiguration (cb : CacheBackend) : list FieldError :=
  let spec := cb_Spec cb in
  if negb (IsEventsOnly spec) then []
  else
    errWhen (negb (bool_decide (bs_Type spec ∈ [""; CacheBackendTypeLMCache])))
      (errForbidden "spec.integration.mode"
         ("mode " +:+ quote ModeEventsOnly +:+ " is only supported with spec.type " +:+ quote CacheBackendTypeLMCache +:+
          "; got spec.type " +:+ quote (bs_Type spec) +:+ ". Events-only wires no KV connector")) ++
    errWhen (bool_decide (is_Some (bs_RemoteStorage spec)))
      (errForbidden "spec.remoteStorage"
         ("events-only backends (spec.integration.mode=" +:+ quote ModeEventsOnly +:+
          ") provision no remote-storage provider; remove spec.remoteStorage")).

(** ** Ownership of engine pods *)

Definition domainPath : string := key "spec.engineSelector.matchLabels" CacheBackendDomainLabel.

Definition validateEngineSelectorDomain (cb : CacheBackend) : list FieldError :=
  let labels := matchLabels cb in
  if bool_decide (labels = ∅) then []
  else
    let domain := strGet labels CacheBackendDomainLabel in
    if str_eqb domain "" then
      [errRequired domainPath "every non-empty engineSelector must declare one cache compatibility domain"]
    else match IsValidLabelValue domain with
    | problem :: _ => [errInvalid domainPath (BadString domain) problem]
    | [] =>
        if negb (size labels =? 1)%nat then
          [errForbidden "spec.engineSelector.matchLabels"
             ("must contain only " +:+ quote CacheBackendDomainLabel +:+
              "; engine Pods may carry other labels, but they do not define CacheBackend ownership")]
        else []
    end.

(** ** The validator *)

Definition DefaultValidationRules : list (CacheBackend → list FieldError) :=
  [validateEngineSelectorDomain;
   validateCacheHierarchy quote;
   validateLMCacheTopology quote;
   rejectUnimplementedRedisBindingFeatures;
   rejectCrossNamespaceEndpointWithoutOptIn quote;
   rejectResourceLimitsBelowRequests quote;
   rejectRequestsOnlyForNonOvercommittableResources quote;
   rejectResourceClaims;
   rejectNegativeResourceQuantities;
   rejectInvalidResourceNames quote;
   rejectFractionalExtendedResources quote;
   rejectMisalignedHugepageQuantities;
   rejectEventsOnlyMisconfiguration;
   validateSGLangHiCache;
   rejectInvalidKernelCheckAnnotation;
   rejectUnsupportedLMCacheRole].

Record CacheBackendValidator := mkBackendValidator {
  bv_Rules : list (CacheBackend → list FieldError);
  bv_Registry : option (list KVCacheRuntimeAdapter);
  bv_Reader : option (string → ListResult CacheBackend)
}.

Definition unsupportedPairMessage (engine backend : string) (registry : list KVCacheRuntimeAdapter) : string :=
  let pretty := go_sort str_lt (pairString <$> SupportedPairs registry) in
  let pairs := if (0 <? length pretty)%nat then Join ", " pretty else "(none)" in
  "no runtime adapter supports the (engine=" +:+ quote engine +:+ ", backend=" +:+ quote backend +:+
  ") pair; supported pairs in this build: " +:+ pairs.

Definition checkRuntimeAdapter (v : CacheBackendValidator) (cb : CacheBackend) : list FieldError :=
  let spec := cb_Spec cb in
  if str_eqb (bs_Type spec) "" then []
  else match bv_Registry v with
  | None => [errInternal "spec.runtime" "runtime adapter registry is not configured"]
  | Some registry =>
      let runtimeID := ResolveRuntimeID cb in
      match Select quote registry runtimeID cb with
      | inl _ => [errInvalid "spec.runtime" (BadString (bs_Runtime spec))
                    (unsupportedPairMessage runtimeID (bs_Type spec) registry)]
      | inr adapter =>
          let storage := EffectiveRemoteStorage spec in
          match ProtocolFor quote storage with
          | inl err => [errInvalid "spec.remoteStorage.provider"
                          (match storage with Some s => BadString (rs_Provider s) | None => BadNil end) err]
          | inr protocol =>
              if ad_SupportsBinding adapter (BindingFor storage protocol "") then []
              else
                let '(path, bad) := match storage with
                                    | Some s => ("spec.remoteStorage.provider", BadString (rs_Provider s))
                                    | None => ("spec.remoteStorage", BadNil)
                                    end in
                [errInvalid path bad ("runtime " +:+ runtimeID +:+ " with cache type " +:+ EffectiveCacheType spec +:+
                   " does not accept remote-storage protocol " +:+ quote protocol)]
          end
      end
  end.

(** ** Overrides *)

(** The number of non-nil pointer fields. *)
Definition envVarSourceCount (src : EnvVarSource) : Z :=
  Z.b2z (bool_decide (is_Some (es_FieldRef src))) + Z.b2z (bool_decide (is_Some (es_ResourceFieldRef src))) +
  Z.b2z (bool_decide (is_Some (es_ConfigMapKeyRef src))) + Z.b2z (bool_decide (is_Some (es_SecretKeyRef src))) +
  Z.b2z (bool_decide (is_Some (es_FileKeyRef src))).

Definition checkEnvVarSource (src : EnvVarSource) (path : string) : list FieldError :=
  let n := envVarSourceCount src in
  if n =? 0 then [errRequired path
    "valueFrom must select exactly one source (e.g. fieldRef, resourceFieldRef, configMapKeyRef, or secretKeyRef)"]
  else if 1 <? n then [errInvalid path (BadInt n) "valueFrom must select exactly one source — multiple set"]
  else [].

Definition checkEnvEntry (entryPath : string) (entry : EnvVar) : list FieldError :=
  (if str_eqb (ev_Name entry) "" then
     [errRequired (child entryPath "name") "engineOverrides env entries must declare a Name"]
   else (λ msg, errInvalid (child entryPath "name") (BadString (ev_Name entry)) ("invalid env var name: " +:+ msg)) <$>
          IsEnvVarName (ev_Name entry)) ++
  match ev_ValueFrom entry with
  | None => []
  | Some src =>
      errWhen (negb (str_eqb (ev_Value entry) "")) (errInvalid entryPath (BadString (ev_Name entry))
        "env entry may set value OR valueFrom, not both — engine pods carrying this entry would fail Kubernetes Pod validation") ++
      checkEnvVarSource src (child entryPath "valueFrom")
  end.

(** [for i, entry := range entries]. *)
Definition eachIndexed {A : Type} (path : string) (f : string → A → list FieldError) (entries : list A) :
    list FieldError :=
  mjoin (imap (λ i e, f (index path i) e) entries).

Definition checkEngineOverrideEnvShape (env : list EnvVar) (basePath : string) : list FieldError :=
  eachIndexed basePath checkEnvEntry env.

Definition reservedArgMessage (flag runtimeID : string) : string :=
  "arg " +:+ quote flag +:+ " is reserved by the " +:+ quote runtimeID +:+
  " runtime adapter and cannot be overridden or suppressed via spec.integration.engineOverrides; the adapter strictly requires this flag for the integration to function".

Definition reservedEnvMessage (name runtimeID : string) : string :=
  "env " +:+ quote name +:+ " is reserved by the " +:+ quote runtimeID +:+
  " runtime adapter and cannot be overridden or suppressed via spec.integration.engineOverrides; the adapter strictly requires this env for the integration to function".

Definition overridesPath : string := "spec.integration.engineOverrides".

(** The entries that touch what the adapter reserves. *)
Definition reservedErrors (adapter : KVCacheRuntimeAdapter) (runtimeID : string) (o : EngineInjectionOverrides) :
    list FieldError :=
  eachIndexed (child overridesPath "args") (λ p entry,
    let token := argFlagToken entry in
    errWhen (negb (str_eqb token "") && bool_decide (token ∈ ad_ReservedArgs adapter))
      (errForbidden p (reservedArgMessage token runtimeID))) (eo_Args o) ++
  eachIndexed (child overridesPath "suppressArgs") (λ p entry,
    errWhen (bool_decide (entry ∈ ad_ReservedArgs adapter))
      (errForbidden p (reservedArgMessage entry runtimeID))) (eo_SuppressArgs o) ++
  eachIndexed (child overridesPath "env") (λ p entry,
    errWhen (bool_decide (ev_Name entry ∈ ad_ReservedEnv adapter))
      (errForbidden (child p "name") (reservedEnvMessage (ev_Name entry) runtimeID))) (eo_Env o) ++
  eachIndexed (child overridesPath "suppressEnv") (λ p entry,
    errWhen (bool_decide (entry ∈ ad_ReservedEnv adapter))
      (errForbidden p (reservedEnvMessage entry runtimeID))) (eo_SuppressEnv o).

Definition checkEngineOverrides (v : CacheBackendValidator) (cb : CacheBackend) : list FieldError :=
  match engineOverridesFor cb with
  | None => []
  | Some o =>
      checkEngineOverrideEnvShape (eo_Env o) (child overridesPath "env") ++
      (if str_eqb (bs_Type (cb_Spec cb)) "" then []
       else match bv_Registry v with
       | None => [errInternal overridesPath "runtime adapter registry is not configured"]
       | Some registry =>
           let runtimeID := ResolveRuntimeID cb in
           match Select quote registry runtimeID cb with
           | inl _ => []
           | inr adapter => reservedErrors adapter runtimeID o
           end
       end)
  end.

(** ** The webhook *)

Definition collectErrors (v : CacheBackendValidator) (cb : CacheBackend) : list FieldError :=
  collectSpecErrors DefaultValidationRules (bv_Rules v) cb ++ checkRuntimeAdapter v cb ++ checkEngineOverrides v cb.

(** The first sibling by name that owns the same domain; [None] is a failed listing. *)
Definition ownsDomain (cb other : CacheBackend) : bool :=
  if str_eqb (cb_Name other) (cb_Name cb) then false
  else
    let domain := strGet (matchLabels cb) CacheBackendDomainLabel in
    negb (bool_decide (matchLabels other = ∅)) && negb (str_eqb domain "") &&
    str_eqb domain (strGet (matchLabels other) CacheBackendDomainLabel).

Definition checkOverlappingEngineSelectors (v : CacheBackendValidator) (cb : CacheBackend) :
    option (list FieldError) :=
  if bool_decide (matchLabels cb = ∅) then Some []
  else match bv_Reader v with
  | None => Some []
  | Some reader =>
      match reader (cb_Namespace cb) with
      | ListOK siblings =>
          Some match List.find (ownsDomain cb) (go_sort (λ a b, str_lt (cb_Name a) (cb_Name b)) siblings) with
               | Some other => [errForbidden domainPath
                   ("cache domain " +:+ quote (strGet (matchLabels cb) CacheBackendDomainLabel) +:+
                    " is already owned by CacheBackend " +:+ quote (cb_Name other) +:+ " in namespace " +:+ quote (cb_Namespace cb))]
               | None => []
               end
      | _ => None
      end
  end.

Definition invalidCacheBackend (errs : list FieldError) : Verdict := verdictOf errs.

Definition ValidateCreate (v : CacheBackendValidator) (cb : CacheBackend) : Verdict :=
  let errs := collectErrors v cb in
  match checkOverlappingEngineSelectors v cb with
  | None => CheckFailed
  | Some selectorErrs => invalidCacheBackend (errs ++ selectorErrs)
  end.

Definition ValidateUpdate (v : CacheBackendValidator) (oldCB newCB : CacheBackend) : Verdict :=
  let newErrs := collectErrors v newCB in
  match checkOverlappingEngineSelectors v newCB with
  | None => CheckFailed
  | Some newSelectorErrs =>
      if (length newErrs =? 0)%nat && (length newSelectorErrs =? 0)%nat then Accepted
      else
        let introduced := filterIntroducedErrors (collectErrors v oldCB) newErrs in
        let introduced := introduced ++ filterIntroducedErrors introduced (validateEngineSelectorDomain newCB) in
        verdictOf (introduced ++ newSelectorErrs)
  end.

Definition ValidateDelete (v : CacheBackendValidator) (cb : CacheBackend) : Verdict := Accepted.

(** ** The apiserver serving one request after another *)

Definition liveBackends (rules : list (CacheBackend → list FieldError)) (registry : option (list KVCacheRuntimeAdapter))
    (c : list CacheBackend) : CacheBackendValidator :=
  mkBackendValidator rules registry
    (Some (λ ns, ListOK (List.filter (λ cb, str_eqb (cb_Namespace cb) ns) c))).

Inductive backendStep (rules : list (CacheBackend → list FieldError)) (registry : option (list KVCacheRuntimeAdapter)) :
    list CacheBackend → list CacheBackend → Prop :=
  | backend_create c cb :
      cbKey cb ∉ cbKey <$> c →
      ValidateCreate (liveBackends rules registry c) cb = Accepted →
      backendStep rules registry c (cb :: c)
  | backend_update l1 l2 old new :
      cbKey new = cbKey old →
      ValidateUpdate (liveBackends rules registry (l1 ++ old :: l2)) old new = Accepted →
      backendStep rules registry (l1 ++ old :: l2) (l1 ++ new :: l2)
  | backend_delete l1 l2 cb :
      ValidateDelete (liveBackends rules registry (l1 ++ cb :: l2)) cb = Accepted →
      backendStep rules registry (l1 ++ cb :: l2) (l1 ++ l2).
End validator.
