(* ===== verification/PodInjector.v ===== *)
(** * The pod injector (webhook/pod/podinjector.go)

    [Handle] maps an admission request to a response.  Decoding and encoding a Pod are
    parameters; a response is a verdict, or the pair of documents the patch goes between. *)

From S2P Require Import Prelude Ordering GoRuntime GoText CoreV1 BackendApi Endpoints Adapters Overrides.

Inductive Response :=
  | Allowed (reason : string)
  | Denied (reason : string)
  | Patched (original new : string).

Record Request := mkRequest {
  rq_Operation : string;
  rq_Namespace : string;
  rq_Raw : string
}.

Section injector.
Context `{QO : QuantityOps}.
(** [%q] of fmt, and encoding/json at corev1.Pod. *)
Variable quote : string → string.
Variable unmarshal : string → string + Pod.
Variable marshal : Pod → string + string.

(** EngineInjector: the CacheBackends of a namespace, or an error; the registry when wired. *)
Record EngineInjector := mkInjector {
  ei_Reader : string → string + list CacheBackend;
  ei_Registry : option (list KVCacheRuntimeAdapter)
}.

(** ** Which backend owns the pod *)

Inductive Selection :=
  | NoBackend
  | OneBackend (cb : CacheBackend)
  | Ambiguous (names : list string)
  | LookupFailed (err : string).

Definition claims (pod : Pod) (cb : CacheBackend) : bool :=
  negb (bool_decide (matchLabels cb = ∅)) && selectorMatches (matchLabels cb) (p_Labels pod).

Definition selectCacheBackend (h : EngineInjector) (pod : Pod) : Selection :=
  match ei_Reader h (p_Namespace pod) with
  | inl err => LookupFailed ("list CacheBackends in " +:+ p_Namespace pod +:+ ": " +:+ err)
  | inr items =>
      match List.filter (claims pod) (go_sort (λ a b, str_lt (cb_Name a) (cb_Name b)) items) with
      | [] => NoBackend
      | [cb] => OneBackend cb
      | matches => Ambiguous (cb_Name <$> matches)
      end
  end.

Definition ambiguityError (namespace : string) (names : list string) : string :=
  "Pod labels match multiple CacheBackends in namespace " +:+ quote namespace +:+ " (" +:+ Join ", " names +:+
  "); engine admission requires exactly one CacheBackend owner".

(** ** The address to wire *)

Definition effectiveEndpoint (cache : CacheBackend) : string :=
  let managed :=
    match bs_LMCache (cb_Spec cache), cb_StatusRemoteEndpoint cache with
    | Some lm, Some e => if str_eqb (lm_Topology lm) "" then "" else TrimSpace e
    | _, _ => ""
    end in
  match EffectiveRemoteStorage (cb_Spec cache) with
  | Some storage =>
      if str_eqb (rs_Ownership storage) OwnershipExternal then
        let ep := TrimSpace (rs_Endpoint storage) in
        if str_eqb ep "" then ""
        else match ValidateExternalEndpoint quote (rs_Provider storage) (rs_Endpoint storage) with
             | Some _ => ""
             | None => ep
             end
      else managed
  | None => managed
  end.

(** ** Containers by name *)

Definition containerIndexByName (containers : list Container) (name : string) : option nat :=
  fst <$> list_find (λ c, cn_Name c = name) containers.

Definition hasContainer (containers : list Container) (name : string) : bool :=
  bool_decide (is_Some (containerIndexByName containers name)).

Definition removeContainerByName (containers : list Container) (name : string) : list Container :=
  match containerIndexByName containers name with
  | Some i => take i containers ++ drop (S i) containers
  | None => containers
  end.

(** ** Responses *)

Definition injectionStamps : list string :=
  [AnnotationInjectedBy; AnnotationInjectedByUID; AnnotationInjectedGeneration; AnnotationInjectSkipped].

Definition clearStamps (ks : list string) (a : gmap string string) : gmap string string :=
  foldl (λ m k, delete k m) a ks.

Definition failOpen (raw : string) (pod : Pod) (reason : string) : Response :=
  if forallb (λ k, str_eqb (strGet (p_Annotations pod) k) "") injectionStamps then Allowed reason
  else match marshal (set_annotations (clearStamps injectionStamps (p_Annotations pod)) pod) with
       | inl _ => Allowed reason
       | inr new => Patched raw new
       end.

Definition identityStamps : list string :=
  [AnnotationInjectedBy; AnnotationInjectedByUID; AnnotationInjectedGeneration].

Definition skipInjection (raw : string) (pod : Pod) : Response :=
  let a := p_Annotations pod in
  let mutated := set_annotations
    (<[AnnotationInjectSkipped := InjectSkippedReasonSkipAnnotation]> (clearStamps identityStamps a)) pod in
  if str_eqb (strGet a AnnotationInjectSkipped) InjectSkippedReasonSkipAnnotation &&
     forallb (λ k, str_eqb (strGet a k) "") identityStamps
  then Allowed ("skipped via " +:+ AnnotationSkip)
  else match marshal mutated with
       | inl _ => Allowed ("skipped via " +:+ AnnotationSkip)
       | inr new => Patched raw new
       end.

(** ** Injection into a decoded pod owned by [cache] *)

(** The engine container before injection, when overrides apply to it. *)
Definition overrideTarget (adapter : KVCacheRuntimeAdapter) (cache : CacheBackend) (pod : Pod) :
    option (EngineInjectionOverrides * nat * Container) :=
  o ← engineOverridesFor cache;
  i ← overrideTargetIndex (psp_Containers (p_Spec pod)) (ad_EngineContainerName adapter);
  c ← psp_Containers (p_Spec pod) !! i;
  Some (o, i, c).

Definition applyOverrides (target : option (EngineInjectionOverrides * nat * Container)) (spec : PodSpec) : PodSpec :=
  match target with
  | None => spec
  | Some (o, i, pre) =>
      set_containers (alter (λ c,
        let '(args, env) := applyEngineInjectionOverrides (cn_Args pre) (cn_Args c) (cn_Env pre) (cn_Env c) (Some o) in
        set_engine args env c) i (psp_Containers spec)) spec
  end.

(** The engine config and the overrides; events-only leaves the pod alone. *)
Definition injectEngine (adapter : KVCacheRuntimeAdapter) (cache : CacheBackend) (binding : option Binding) (pod : Pod) :
    string + Pod :=
  if IsEventsOnly (cb_Spec cache) then inr pod
  else match ad_InjectEngineConfig adapter (p_Spec pod) binding cache with
       | inl err => inl err
       | inr spec => inr (set_spec (applyOverrides (overrideTarget adapter cache pod) spec) pod)
       end.

(** The kernel-check init container: the webhook replaces, adds or removes it. *)
Definition injectKernelCheck (adapter : KVCacheRuntimeAdapter) (cache : CacheBackend) (pod : Pod) : Pod :=
  let remove := set_spec (set_init (removeContainerByName (psp_InitContainers (p_Spec pod))
                                      LMCacheKernelCheckContainerName) (p_Spec pod)) pod in
  match ad_KernelCheckInitContainer adapter with
  | None => pod
  | Some icp =>
      if IsEventsOnly (cb_Spec cache) then remove
      else match icp cache pod with
           | inl _ => pod
           | inr (Some initC) =>
               let inits := psp_InitContainers (p_Spec pod) in
               let inits := match containerIndexByName inits (cn_Name initC) with
                            | Some i => <[i := initC]> inits
                            | None => inits ++ [initC]
                            end in
               set_spec (set_init inits (p_Spec pod)) pod
           | inr None => remove
           end
  end.

(** The observation sidecar, and whether it was appended. *)
Definition injectSidecar (adapter : KVCacheRuntimeAdapter) (cache : CacheBackend) (pod : Pod) : Pod * bool :=
  match ad_ObservationSidecar adapter cache pod with
  | inr (Some sidecar) =>
      if hasContainer (psp_Containers (p_Spec pod)) (cn_Name sidecar) then (pod, false)
      else (set_spec (set_containers (psp_Containers (p_Spec pod) ++ [sidecar]) (p_Spec pod)) pod, true)
  | _ => (pod, false)
  end.

(** The stamps of a successful injection. *)
Definition stampAnnotations (cache : CacheBackend) (a : gmap string string) : gmap string string :=
  <[AnnotationInjectedGeneration := FormatInt (cb_Generation cache)]>
  (<[AnnotationInjectedByUID := cb_UID cache]>
  (<[AnnotationInjectedBy := cb_Namespace cache +:+ "/" +:+ cb_Name cache]>
  (delete AnnotationInjectSkipped a))).

Definition stampInjected (cache : CacheBackend) (pod : Pod) : Pod :=
  let pod := set_annotations (stampAnnotations cache (p_Annotations pod)) pod in
  match bs_LMCache (cb_Spec cache) with
  | Some lm => if str_eqb (lm_Topology lm) LMCacheTopologyPodLocal
               then set_labels (<[LabelLMCacheMPMetrics := "true"]> (p_Labels pod)) pod else pod
  | None => pod
  end.

(** The wired pod, or the reason it is left unwired. *)
Definition wirePod (h : EngineInjector) (cache : CacheBackend) (pod : Pod) : string + Pod :=
  let spec := cb_Spec cache in
  let runtimeID := ResolveRuntimeID cache in
  match ei_Registry h with
  | None => inl "runtime adapter registry is not configured (fail-open)"
  | Some registry =>
  match Select quote registry runtimeID cache with
  | inl err => inl ("no adapter for runtime=" +:+ quote runtimeID +:+ " backend=" +:+ quote (bs_Type spec) +:+ " (fail-open): " +:+ err)
  | inr adapter =>
  let typed := match bs_LMCache spec with
               | Some lm => if str_eqb (lm_Topology lm) "" then None else Some (lm_Topology lm)
               | None => None
               end in
  let compat : goError :=
    match typed, ad_ValidateMPEnginePod adapter with
    | None, _ => None
    | Some topology, None => Some ("runtime=" +:+ quote runtimeID +:+ " adapter does not implement typed LMCache topology=" +:+
        quote topology +:+ " (fail-open, no injection)")
    | Some _, Some validate =>
        err ← validate pod cache; Some ("typed LMCache MP compatibility check failed (fail-open): " +:+ err)
    end in
  match compat with
  | Some reason => inl reason
  | None =>
  let storage := EffectiveRemoteStorage spec in
  match ProtocolFor quote storage with
  | inl err => inl ("unsupported remote-storage provider (fail-open): " +:+ err)
  | inr protocol =>
  let binding := BindingFor storage protocol (effectiveEndpoint cache) in
  if negb (ad_SupportsBinding adapter binding) then
    inl ("adapter does not support remote-storage protocol " +:+ quote protocol +:+ " (fail-open)")
  else if match binding with Some b => str_eqb (b_Endpoint b) "" | None => false end && negb (IsEventsOnly spec) then
    let '(missingField, extra) :=
      match storage with
      | Some s =>
          if str_eqb (rs_Ownership s) OwnershipExternal then
            ("spec.remoteStorage.endpoint",
             match ValidateExternalEndpoint quote (rs_Provider s) (rs_Endpoint s) with Some err => ": " +:+ err | None => "" end)
          else ("status.remoteStorage.endpoint", "")
      | None => ("status.remoteStorage.endpoint", "")
      end in
    inl ("CacheBackend " +:+ missingField +:+ " not usable" +:+ extra +:+ " (fail-open)")
  else
  match injectEngine adapter cache binding pod with
  | inl err => inl ("adapter rejected pod (fail-open): " +:+ err)
  | inr mutated =>
      let '(mutated, appended) := injectSidecar adapter cache (injectKernelCheck adapter cache mutated) in
      if IsEventsOnly spec && negb appended then
        inl "events-only: no subscriber configured (fail-open, no wiring)"
      else inr (stampInjected cache mutated)
  end end end end end.

(** ** The handler *)

Definition Handle (h : EngineInjector) (req : Request) : Response :=
  if str_eqb (rq_Operation req) "" then Allowed "no operation"
  else match unmarshal (rq_Raw req) with
  | inl err => Allowed ("decode failed (fail-open): " +:+ err)
  | inr pod0 =>
      let pod := if str_eqb (p_Namespace pod0) "" then
                   mkPod (rq_Namespace req) (p_Name pod0) (p_UID pod0) (p_Labels pod0) (p_Annotations pod0) (p_Spec pod0)
                 else pod0 in
      if SkipAnnotationOptsOut (strGet (p_Annotations pod) AnnotationSkip) then skipInjection (rq_Raw req) pod
      else match selectCacheBackend h pod with
      | Ambiguous names => Denied (ambiguityError (p_Namespace pod) names)
      | LookupFailed err => failOpen (rq_Raw req) pod ("backend lookup failed (fail-open): " +:+ err)
      | NoBackend => failOpen (rq_Raw req) pod "no matching CacheBackend"
      | OneBackend cache =>
          match wirePod h cache pod with
          | inl reason => failOpen (rq_Raw req) pod reason
          | inr mutated =>
              match marshal mutated with
              | inl err => Allowed ("re-encode failed (fail-open): " +:+ err)
              | inr new => Patched (rq_Raw req) new
              end
          end
      end
  end.
End injector.
