(* ===== verification/PodEvents.v ===== *)
(** * Engine pod events (controller/engine_pod_events_controller.go)

    One reconcile of a Pod: the events it records, or an error that is retried. *)

From S2P Require Import Prelude Ordering GoRuntime GoText K8s CoreV1 BackendApi.

Inductive PodEvent :=
  | InjectedByCacheBackend (pod : string) (ref : string)
  | SkippedByOperator (pod : string).

(** [ctrl.Result{}] with the recorded events, or the error controller-runtime retries. *)
Inductive ReconcileResult :=
  | Done (events : list PodEvent)
  | Retry.

Section events.
Context `{QO : QuantityOps} `{KV : KValidation}.

(** The peers: the Pod, the CacheBackend by name, and whether a recorder is wired. *)
Record Peers := mkPeers {
  pe_GetPod : GetResult Pod;
  pe_GetBackend : string * string → GetResult CacheBackend;
  pe_Recorder : bool
}.

(** [strings.SplitN(ref, "/", 3)] has two parts exactly when there is one slash. *)
Definition validCacheBackendRef (ref : string) : bool :=
  match Cut "/" ref with
  | None => false
  | Some (ns, name) =>
      negb (ContainsByte name "/") && negb (str_eqb ns "") && negb (str_eqb name "") &&
      bool_decide (IsDNS1123Label ns = []) && bool_decide (IsDNS1123Subdomain name = [])
  end.

Definition lookupCacheBackend (p : Peers) (ref : string) : GetResult CacheBackend :=
  match Cut "/" ref with
  | None => GetErr
  | Some (ns, name) => if str_eqb ns "" || str_eqb name "" then GetErr else pe_GetBackend p (ns, name)
  end.

Definition operatorSkipped (a : gmap string string) : bool :=
  SkipAnnotationOptsOut (strGet a AnnotationSkip) &&
  str_eqb (strGet a AnnotationInjectSkipped) InjectSkippedReasonSkipAnnotation.

Definition Reconcile (p : Peers) : ReconcileResult :=
  match pe_GetPod p with
  | GetNotFound => Done []
  | GetErr => Retry
  | GetOK pod =>
      let a := p_Annotations pod in
      let cbRef := strGet a AnnotationInjectedBy in
      if str_eqb cbRef "" then
        if operatorSkipped a then
          if pe_Recorder p then Done [SkippedByOperator (p_UID pod)] else Done []
        else Done []
      else if negb (pe_Recorder p) then Done []
      else if negb (validCacheBackendRef cbRef) then Done []
      else
        let uidRef := strGet a AnnotationInjectedByUID in
        if str_eqb uidRef "" then Done []
        else match lookupCacheBackend p cbRef with
        | GetNotFound => Done []
        | GetErr => Retry
        | GetOK cb =>
            if negb (str_eqb uidRef (cb_UID cb)) then Done []
            else Done [InjectedByCacheBackend (p_UID pod) cbRef]
        end
  end.

(** The predicate of the watch: Pod CREATEs with a decision of the webhook. *)
Definition enginePodEventCandidate (pod : Pod) : bool :=
  negb (str_eqb (strGet (p_Annotations pod) AnnotationInjectedBy) "") || operatorSkipped (p_Annotations pod).
End events.
