(* ===== verification/NodeLocalFacts.v ===== *)
(** * Reasoning about NodeLocal passes

    A triple for the pass monad: every call made satisfies [P], and the result, when there is one,
    satisfies [Q]. *)

From S2P Require Import Prelude Ordering GoRuntime GoText K8s Auth ControlPlane IndexPoller CoreV1 BackendApi.
From S2P Require Import Adapters Renderer EngineWire LiveObjects ReadinessGate ProbeGate EngineHealth.
From S2P Require Import ConnectorHealth NodeLocalPods NodeLocalServers.

Section triples.
Context `{QO : QuantityOps}.
Implicit Types (P : PodCall → Prop).

Definition passes {A : Type} P (m : Pass A) (Q : A → Prop) : Prop := Forall P m.1 ∧ ∀ a, m.2 = Some a → Q a.

Lemma passes_done {A} P (a : A) (Q : A → Prop) : Q a → passes P (done_ a) Q.
Proof. split; [done|]. by intros ? [= <-]. Qed.

Lemma passes_fail {A} P (Q : A → Prop) : passes P fail_ Q.
Proof. by split. Qed.

Lemma passes_ofOption {A} P (o : option A) (Q : A → Prop) : (∀ a, o = Some a → Q a) → passes P (ofOption o) Q.
Proof. by split. Qed.

Lemma passes_ofSum {A} P (s : string + A) (Q : A → Prop) : (∀ a, s = inr a → Q a) → passes P (ofSum s) Q.
Proof. intros H. split; [done|]. destruct s; simpl; [done|]. intros ? [= <-]. by apply H. Qed.

Lemma passes_bind {A B} P (m : Pass A) (k : A → Pass B) (Q : A → Prop) (R : B → Prop) :
  passes P m Q → (∀ a, Q a → passes P (k a) R) → passes P (andThen m k) R.
Proof.
  intros [Hm Hq] Hk. unfold andThen, passes. destruct m as [calls [a|]]; simpl in *; [|done].
  destruct (Hk a (Hq a eq_refl)) as [Hc Hr]. split; [|done]. by apply Forall_app.
Qed.

Lemma passes_read {A B} P (o : option A) (k : A → Pass B) (R : B → Prop) :
  (∀ a, o = Some a → passes P (k a) R) → passes P (andThen (ofOption o) k) R.
Proof. intros H. eapply passes_bind; [apply (passes_ofOption P o (λ a, o = Some a)); auto|done]. Qed.

Lemma passes_render {A B} P (s : string + A) (k : A → Pass B) (R : B → Prop) :
  (∀ a, s = inr a → passes P (k a) R) → passes P (andThen (ofSum s) k) R.
Proof. intros H. eapply passes_bind; [apply (passes_ofSum P s (λ a, s = inr a)); auto|done]. Qed.

Lemma passes_then {A B} P (m : Pass A) (k : A → Pass B) (R : B → Prop) :
  passes P m (λ _, True) → (∀ a, passes P (k a) R) → passes P (andThen m k) R.
Proof. intros Hm Hk. eapply passes_bind; [exact Hm|auto]. Qed.

Lemma passes_call {A} P (c : PodCall) (o : option A) (Q : A → Prop) : P c → (∀ a, o = Some a → Q a) → passes P ([c], o) Q.
Proof. split; [by apply Forall_singleton|done]. Qed.

Lemma passes_mono {A} P P' (m : Pass A) (Q Q' : A → Prop) :
  passes P m Q → (∀ c, P c → P' c) → (∀ a, Q a → Q' a) → passes P' m Q'.
Proof. intros [H1 H2] HP HQ. split; [by eapply Forall_impl|]. auto. Qed.

(** A fold keeps an invariant that may mention what is left. *)
Lemma passes_fold {A B} P (f : A → B → Pass A) (I : A → list B → Prop) (l : list B) (a : A) :
  I a l → (∀ a b l', I a (b :: l') → b ∈ l → passes P (f a b) (λ a', I a' l')) → passes P (passFold f a l) (λ a', I a' []).
Proof.
  intros Ha Hf. assert (∀ l1, l1 ⊆ l → ∀ a, I a l1 → passes P (passFold f a l1) (λ a', I a' [])) as H; [|by apply H].
  clear a Ha. induction l1 as [|b l1 IH]; intros Hsub a Ha; simpl; [by apply passes_done|].
  eapply passes_bind; [apply Hf; [done|set_solver]|]. intros a' Ha'. apply IH; [set_solver|done].
Qed.

Lemma passes_fold_simple {A B} P (f : A → B → Pass A) (I : A → Prop) (l : list B) (a : A) :
  I a → (∀ a b, I a → b ∈ l → passes P (f a b) I) → passes P (passFold f a l) I.
Proof. intros Ha Hf. apply (passes_fold P f (λ a _, I a)); [done|]. auto. Qed.
End triples.

(** One rule per constructor of a pass. *)
Ltac pass_step :=
  lazymatch goal with
  | |- passes _ (done_ _) _ => apply passes_done
  | |- passes _ fail_ _ => apply passes_fail
  | |- passes _ (ofOption _) _ => apply passes_ofOption; intros ? ?
  | |- passes _ (ofSum _) _ => apply passes_ofSum; intros ? ?
  | |- passes _ (if ?b then _ else _) _ => destruct b eqn:?
  | |- passes _ (match ?x with Some _ => _ | None => _ end) _ => destruct x eqn:?
  end.

(** ** What a pass may do *)

Section safety.
Context `{QO : QuantityOps}.
Variables (quoteRune : string → string) (sha256 : string → string).
Implicit Types (cb : CacheBackend) (pod : LivePod) (node : string).

(** No pod of the cluster-wide listing uses the directory of the backend on the node. *)
Definition quiescent (ans : NodeLocalAnswers) cb node : Prop :=
  ∃ path pods, NodeLocalServerShmHostPath quoteRune cb = inr path ∧ na_Consumers ans node = ListOK pods ∧
    ∀ p, p ∈ pods → consumes cb path node p = false.

(** The gate of a cleanup comes off only when it is this backend's valid cleanup pod, still gated
    and not being deleted, on a quiescent node; pods of others are never touched; what is created is
    owned, and a cleanup pod or [justified]. *)
Definition callSafe (justified : LivePod → Prop) (ans : NodeLocalAnswers) (image : string) cb (c : PodCall) : Prop :=
  match c with
  | CreatePod p =>
      IsControlledBy p cb = true ∧ p_Namespace (lp_Pod p) = cb_Namespace cb ∧
      (lpLabel p LabelLMCacheNodeLocalCleanup = "true" ∨ justified p)
  | DeletePod p | PatchIdle p _ => IsControlledBy p cb = true
  | ReleaseGate p =>
      IsLMCacheNodeLocalCleanupPod quoteRune sha256 p cb (targetOf p) image = true ∧ LMCacheNodeLocalCleanupIsGated p = true ∧
      lp_Deleting p = false ∧ quiescent ans cb (targetOf p)
  end.

Context (justified : LivePod → Prop) (ans : NodeLocalAnswers) (image : string) (scheduling : option PodScheduling) (cb : CacheBackend).
Notation safe := (callSafe justified ans image cb).

Lemma owned_controlled p : IsControlledBy (owned cb p) cb = true.
Proof. unfold IsControlledBy, owned. simpl. by apply str_eqb_eq. Qed.

Lemma deletePod_safe pod (Q : unit → Prop) : IsControlledBy pod cb = true → Q tt → passes safe (deletePod ans pod) Q.
Proof. intros. apply passes_call; [done|]. by intros []. Qed.

Lemma deleteLive_safe pod (Q : unit → Prop) : IsControlledBy pod cb = true → Q tt → passes safe (deleteLive ans pod) Q.
Proof. intros. unfold deleteLive. pass_step; [by apply passes_done|by apply deletePod_safe]. Qed.

Lemma deleteThen_safe pod (s : CleanupState) :
  IsControlledBy pod cb = true → passes safe (andThen (deleteLive ans pod) (λ _, done_ s)) (λ _, True).
Proof. intros. apply passes_then; [by apply deleteLive_safe|intros; by apply passes_done]. Qed.

Lemma createPod_safe p ok (Q : unit → Prop) :
  p_Namespace (lp_Pod p) = cb_Namespace cb → lpLabel p LabelLMCacheNodeLocalCleanup = "true" ∨ justified (owned cb p) → Q tt →
  passes safe (createPod ans (owned cb p) ok) Q.
Proof. intros. apply passes_call; [|by intros []]. split_and!; [apply owned_controlled|done|done]. Qed.

Lemma cleanup_rendered node img src p :
  RenderLMCacheNodeLocalCleanupPod quoteRune sha256 cb (pullSecrets scheduling cb) node img src = inr p →
  p_Namespace (lp_Pod p) = cb_Namespace cb ∧ lpLabel p LabelLMCacheNodeLocalCleanup = "true".
Proof.
  unfold RenderLMCacheNodeLocalCleanupPod. destruct (_ || _); [done|]. destruct (NodeLocalServerShmHostPath quoteRune cb); simpl; [done|].
  by intros [= <-].
Qed.

Lemma ensureForNode_safe node src :
  passes safe (ensureLMCacheNodeLocalCleanupForNode quoteRune sha256 ans image scheduling cb node src) (λ _, True).
Proof.
  unfold ensureLMCacheNodeLocalCleanupForNode. apply passes_read. intros cleanups _.
  destruct (List.find _ cleanups) as [c|] eqn:Ef.
  - apply List.find_some in Ef as [_ [Hc _]%andb_true_iff]. pass_step; [by apply passes_done|].
    apply passes_then; [by apply deletePod_safe|intros; apply passes_fail].
  - apply passes_render. intros p [? ?]%cleanup_rendered. apply createPod_safe; auto.
Qed.

Lemma ensureCleanupPod_safe server :
  passes safe (ensureLMCacheNodeLocalCleanupPod quoteRune sha256 ans image scheduling cb server) (λ _, True).
Proof. unfold ensureLMCacheNodeLocalCleanupPod. pass_step; [apply passes_fail|apply ensureForNode_safe]. Qed.

Lemma ensureForConsumers_safe :
  passes safe (ensureLMCacheNodeLocalCleanupForConsumers quoteRune sha256 ans image scheduling cb) (λ _, True).
Proof.
  unfold ensureLMCacheNodeLocalCleanupForConsumers. pass_step; [by apply passes_done|].
  apply passes_render. intros path _. apply passes_read. intros pods _.
  apply passes_fold_simple; [done|]. intros [] p _ _. pass_step; [by apply passes_done|].
  pass_step; [apply ensureForNode_safe|by apply passes_done].
Qed.

(** ** Cleanup pods *)

Notation valid := (λ p, IsControlledBy p cb = true → IsLMCacheNodeLocalCleanupPod quoteRune sha256 p cb (targetOf p) image = true).

Lemma checkCleanups_safe pods :
  passes safe (checkCleanups quoteRune sha256 ans image cb pods) (λ _, ∀ p, p ∈ pods → valid p).
Proof.
  unfold checkCleanups.
  eapply passes_mono; [apply (passes_fold _ _ (λ _ rest, ∀ p, p ∈ pods → p ∈ rest ∨ valid p))|done|].
  - auto.
  - intros [] p rest Hrest Hp. destruct (IsControlledBy p cb) eqn:Ec; cbn [negb orb].
    + unfold isCleanup. destruct (IsLMCacheNodeLocalCleanupPod _ _ p cb _ image) eqn:Ev.
      * apply passes_done. intros q Hq. destruct (Hrest q Hq) as [[->|?]%elem_of_cons|?]; auto.
      * apply passes_then; [by apply deleteLive_safe|intros; apply passes_fail].
    + apply passes_done. intros q Hq. destruct (Hrest q Hq) as [[->|?]%elem_of_cons|?]; auto. right. congruence.
  - intros [] H p Hp. destruct (H p Hp) as [?%elem_of_nil|?]; done.
Qed.

Lemma cleanup_label pod node : IsLMCacheNodeLocalCleanupPod quoteRune sha256 pod cb node image = true →
  lpLabel pod LabelLMCacheNodeLocalCleanup = "true".
Proof. unfold IsLMCacheNodeLocalCleanupPod. rewrite !andb_true_iff. intros H. apply str_eqb_eq. tauto. Qed.

Lemma retryCleanup_safe n failed :
  lpLabel failed LabelLMCacheNodeLocalCleanup = "true" → passes safe (retryCleanup sha256 ans cb n failed) (λ _, True).
Proof.
  intros Hl. unfold retryCleanup. apply passes_render. intros p Hp.
  assert (p_Namespace (lp_Pod p) = cb_Namespace cb ∧ p_Labels (lp_Pod p) = p_Labels (lp_Pod failed)) as [Hn Hlab].
  { revert Hp. unfold RenderLMCacheNodeLocalCleanupRetryPod. destruct (_ || _); [done|]. destruct (str_eqb _ _); [done|]. by intros [= <-]. }
  apply createPod_safe; [done| |done]. left. rewrite <-Hl. unfold lpLabel. simpl. by rewrite Hlab.
Qed.

Lemma advanceFailed_safe succeeded s pod : IsControlledBy pod cb = true → lpLabel pod LabelLMCacheNodeLocalCleanup = "true" →
  passes safe (advanceFailed sha256 ans cb succeeded s pod) (λ _, True).
Proof.
  intros Hc Hl. pose proof (λ s', deleteThen_safe pod s' Hc) as Hdel. unfold advanceFailed. pass_step; [apply Hdel|]. destruct (retryCount pod) as [n|]; [|by apply passes_done].
  pass_step; [apply Hdel|]. apply passes_then; [by apply retryCleanup_safe|]. intros. apply Hdel.
Qed.

Lemma consumers_quiescent node : nodeLocalShmConsumers quoteRune ans cb node = Some [] → quiescent ans cb node.
Proof.
  unfold nodeLocalShmConsumers, quiescent. destruct (NodeLocalServerShmHostPath quoteRune cb) as [|path]; [done|].
  destruct (na_Consumers ans node) as [pods| |]; [|done..]. intros [= Hn]. exists path, pods. split_and!; [done..|].
  intros p Hp. apply fmap_nil_inv in Hn. destruct (consumes cb path node p) eqn:Ec; [|done].
  assert (p ∈ List.filter (consumes cb path node) pods) as Hin by (apply list_elem_of_In, List.filter_In; by rewrite <-list_elem_of_In).
  rewrite Hn in Hin. by apply elem_of_nil in Hin.
Qed.

Lemma gated_of_valid pod : IsLMCacheNodeLocalCleanupPod quoteRune sha256 pod cb (targetOf pod) image = true →
  lp_SchedulingGates pod ≠ [] → LMCacheNodeLocalCleanupIsGated pod = true.
Proof.
  unfold IsLMCacheNodeLocalCleanupPod. intros [[_ [H|H]%orb_true_iff]%andb_true_iff _]%andb_true_iff Hg; [|done].
  by apply bool_decide_eq_true in H.
Qed.

Lemma advanceCleanup_safe demand cancel succeeded s pod : valid pod →
  passes safe (advanceCleanup quoteRune sha256 ans cb demand cancel succeeded s pod) (λ _, True).
Proof.
  intros Hv. unfold advanceCleanup. destruct (IsControlledBy pod cb) eqn:Hc; cbn [negb]; [|by apply passes_done]. specialize (Hv Hc).
  pose proof (λ s', deleteThen_safe pod s' Hc) as Hdel.
  pass_step; [apply Hdel|]. pass_step; [apply advanceFailed_safe; [done|by eapply cleanup_label]|]. pass_step; [apply Hdel|].
  case_bool_decide as Hg; cbn [negb orb]; [by apply passes_done|].
  destruct (lp_Deleting pod) eqn:Ed; [by apply passes_done|]. apply passes_read. intros consumers Hcon.
  destruct (bool_decide (consumers = [])) eqn:Hn; cbn [negb]; [|by apply passes_done]. apply bool_decide_eq_true in Hn. subst consumers.
  apply passes_call; [|done]. simpl. split_and!; [done|by apply gated_of_valid|done|by apply consumers_quiescent].
Qed.

(** A cleanup of this backend whose gate is off and that has not succeeded: it may be clearing the
    directory, or has failed half way. *)
Definition clearing pod : Prop :=
  IsControlledBy pod cb = true ∧ LMCacheNodeLocalCleanupSucceeded pod (targetOf pod) = false ∧ lp_SchedulingGates pod = [].

Lemma advanceCleanup_blocks demand cancel succeeded s pod :
  passes (λ _, True) (advanceCleanup quoteRune sha256 ans cb demand cancel succeeded s pod)
    (λ s', cl_blocked s ⊆ cl_blocked s' ∧ (clearing pod → targetOf pod ∈ cl_blocked s')).
Proof.
  unfold advanceCleanup. destruct (IsControlledBy pod cb) eqn:Hc; cbn [negb]; last first.
  { apply passes_done. split; [done|]. intros [? _]. congruence. }
  assert (Hdel : ∀ (s' : CleanupState) (Q : CleanupState → Prop), Q s' → passes (λ _, True) (andThen (deleteLive ans pod) (λ _, done_ s')) Q).
  { intros. apply passes_then; [|intros; by apply passes_done]. unfold deleteLive. pass_step; [by apply passes_done|by apply passes_call]. }
  pass_step; [apply Hdel; split; [done|]; intros (_ & ? & _); congruence|].
  pass_step.
  { unfold advanceFailed. pass_step; [apply Hdel; simpl; set_solver|]. destruct (retryCount pod) as [n|]; [|apply passes_done; simpl; set_solver].
    pass_step; [apply Hdel; simpl; set_solver|]. apply passes_then; [|intros; apply Hdel; simpl; set_solver].
    unfold retryCleanup. apply passes_render. intros p _. by apply passes_call. }
  destruct (decide (lp_SchedulingGates pod = [])) as [Hg|Hg].
  - rewrite bool_decide_true by done. cbn [negb andb orb]. apply passes_done. simpl. set_solver.
  - rewrite bool_decide_false by done. cbn [negb andb orb].
    assert (∀ s', cl_blocked s ⊆ cl_blocked s' → cl_blocked s ⊆ cl_blocked s' ∧ (clearing pod → targetOf pod ∈ cl_blocked s')) as Hs.
    { intros s' Hs. split; [done|]. by intros (_ & _ & ?). }
    pass_step; [by apply Hdel, Hs|]. pass_step; [apply passes_done, Hs; simpl; set_solver|].
    apply passes_read. intros consumers _. pass_step; [apply passes_done, Hs; simpl; set_solver|].
    apply passes_call; [done|]. intros s'. destruct (na_Patch ans pod); [|done]. intros [= <-]. apply Hs. simpl. set_solver.
Qed.

Lemma passes_both {A} P (m : Pass A) (Q Q' : A → Prop) :
  passes P m Q → passes (λ _, True) m Q' → passes P m (λ a, Q a ∧ Q' a).
Proof. intros [H1 H2] [_ H3]. split; auto. Qed.

(** The nodes on which a cleanup may be clearing the directory are all reported. *)
Lemma cleanupPods_safe demand cancel :
  passes safe (reconcileLMCacheNodeLocalCleanupPods quoteRune sha256 ans image cb demand cancel)
    (λ blocked, cb_UID cb ≠ "" → ∀ pods p, listIn (na_Cleanups ans) (cb_Namespace cb) (cleanupLabels cb) = Some pods →
       p ∈ pods → clearing p → targetOf p ∈ blocked).
Proof.
  unfold reconcileLMCacheNodeLocalCleanupPods. pass_step; [apply passes_done; intros Hu; by apply str_eqb_eq in Heqb|].
  apply passes_read. intros pods ->.
  eapply passes_bind; [apply checkCleanups_safe|]. intros [] Hv.
  eapply passes_bind; [apply (passes_fold _ _ (λ s rest, ∀ p, p ∈ pods → p ∈ rest ∨ (clearing p → targetOf p ∈ cl_blocked s)))|].
  - auto.
  - intros s p rest Hrest Hp. eapply passes_mono; [apply passes_both; [by apply advanceCleanup_safe, Hv|apply advanceCleanup_blocks]|done|].
    intros s' (_ & Hsub & Hb) q Hq. destruct (Hrest q Hq) as [[->|?]%elem_of_cons|?]; auto.
  - intros s Hs. apply passes_done. intros _ pods' p [= <-] Hp Hclr. destruct (Hs p Hp) as [?%elem_of_nil|?]; [done|auto].
Qed.

(** ** Server pods *)

Lemma cleanupServers_safe :
  passes safe (cleanupLMCacheNodeLocalServerPods quoteRune sha256 ans image scheduling cb) (λ _, True).
Proof.
  unfold cleanupLMCacheNodeLocalServerPods. pass_step; [by apply passes_done|]. apply passes_read. intros pods _.
  apply passes_render. intros path _. apply passes_then; [|intros; eapply passes_bind; [apply cleanupPods_safe|intros; by apply passes_done]].
  apply passes_fold_simple; [done|]. intros [] p _ _. destruct (IsControlledBy p cb) eqn:Hc; cbn [negb orb]; [|by apply passes_done].
  pass_step; [by apply passes_done|]. apply passes_then; [|intros; by apply deletePod_safe].
  pass_step; [apply ensureCleanupPod_safe|by apply passes_done].
Qed.

(** time.Parse. *)
Variables (parseTime : string → option Time).

Lemma reviewServer_safe path retention demand s pod :
  passes safe (reviewServer quoteRune sha256 parseTime ans image scheduling cb path retention demand s pod) (λ _, True).
Proof.
  unfold reviewServer. destruct (IsControlledBy pod cb) eqn:Hc; cbn [negb]; [|by apply passes_done].
  assert (Hdel : ∀ s' : ServerState, passes safe (andThen (deletePod ans pod) (λ _, done_ s')) (λ _, True)).
  { intros s'. apply passes_then; [by apply deletePod_safe|intros; by apply passes_done]. }
  pass_step.
  { unfold retireStale. pass_step; [by apply passes_done|]. apply passes_then; [|intros; apply Hdel].
    pass_step; [|by apply passes_done]. apply passes_then; [apply ensureCleanupPod_safe|intros; by apply passes_done]. }
  pass_step.
  { unfold retireIdle. assert (passes safe (andThen (ensureLMCacheNodeLocalCleanupPod quoteRune sha256 ans image scheduling cb pod)
      (λ _, andThen (deletePod ans pod) (λ _, done_ s))) (λ _, True)) as Hr.
    { apply passes_then; [apply ensureCleanupPod_safe|intros; apply Hdel]. }
    pass_step; [pass_step; [by apply passes_done|done]|]. pass_step; [|by apply passes_call].
    pass_step; [done|by apply passes_done]. }
  unfold keepServer. apply passes_then.
  - pass_step; [by apply passes_call|by apply passes_done].
  - intros _. pass_step; [|by apply passes_done]. apply passes_then; [by apply deleteLive_safe|intros; by apply passes_done].
Qed.

End safety.
