(* ===== verification/NodeLocalTheorems.v ===== *)
(** * Guarantees of the NodeLocal lifecycle

    What a pass may do to the cluster, which servers it leaves, when the finalizer goes, and that
    the pods the controller renders are the pods it recognises. *)

From S2P Require Import Prelude Ordering GoRuntime GoText GoNumbers K8s Auth ControlPlane IndexPoller CoreV1.
From S2P Require Import BackendApi Adapters Renderer EngineWire LiveObjects ReadinessGate ProbeGate.
From S2P Require Import EngineHealth ConnectorHealth NodeLocalPods NodeLocalServers UpsertFacts.
From S2P Require Import NodeLocalFacts.

(** ** Demand *)

Section demand.
Context `{QO : QuantityOps}.
Implicit Types (cb : CacheBackend) (pod : LivePod) (node : string).

(** An engine this backend wired, running or starting on the node. *)
Definition engineOn (ans : NodeLocalAnswers) cb node (e : LivePod) : Prop :=
  ∃ engines, listIn (na_Engines ans) (cb_Namespace cb) (matchLabels cb) = Some engines ∧ e ∈ engines ∧
    activePod e = true ∧ node ≠ "" ∧ lp_NodeName e = node ∧ lpAnnotation e AnnotationInjectedBy = backendKey cb ∧
    lpAnnotation e AnnotationInjectedByUID = cb_UID cb.

Definition engineStep cb (out : gmap string LivePod) (p : LivePod) : gmap string LivePod :=
  if activePod p && negb (str_eqb (lp_NodeName p) "") &&
     str_eqb (lpAnnotation p AnnotationInjectedBy) (backendKey cb) &&
     str_eqb (lpAnnotation p AnnotationInjectedByUID) (cb_UID cb)
  then match out !! lp_NodeName p with Some _ => out | None => <[lp_NodeName p := p]> out end
  else out.

Lemma engineStep_lookup cb pods out node :
  is_Some (foldl (engineStep cb) out pods !! node) ↔
  is_Some (out !! node) ∨ ∃ e, e ∈ pods ∧ activePod e = true ∧ node ≠ "" ∧ lp_NodeName e = node ∧
    lpAnnotation e AnnotationInjectedBy = backendKey cb ∧ lpAnnotation e AnnotationInjectedByUID = cb_UID cb.
Proof.
  revert out. induction pods as [|p pods IH]; intros out; simpl; [set_solver|]. rewrite IH. clear IH.
  setoid_rewrite elem_of_cons.
  assert (is_Some (engineStep cb out p !! node) ↔ is_Some (out !! node) ∨ (activePod p = true ∧ node ≠ "" ∧ lp_NodeName p = node ∧
    lpAnnotation p AnnotationInjectedBy = backendKey cb ∧ lpAnnotation p AnnotationInjectedByUID = cb_UID cb)) as ->; [|naive_solver].
  unfold engineStep. destruct (_ && _) eqn:E.
  - rewrite !andb_true_iff, negb_true_iff, str_eqb_neq, !str_eqb_eq in E. destruct E as (((Ha & Hn) & H1) & H2).
    destruct (out !! lp_NodeName p) eqn:El; [|destruct (decide (lp_NodeName p = node)) as [<-|]; [rewrite lookup_insert_eq|rewrite lookup_insert_ne by done]]; naive_solver.
  - split; [auto|]. intros [?|(Ha & Hn & Hnode & H1 & H2)]; [done|]. exfalso. revert E. rewrite Ha, Hnode, H1, H2.
    rewrite (proj2 (str_eqb_neq _ _) Hn), !(proj2 (str_eqb_eq _ _) eq_refl). done.
Qed.

Lemma engineStep_sound cb pods out node e :
  foldl (engineStep cb) out pods !! node = Some e →
  out !! node = Some e ∨ e ∈ pods ∧ activePod e = true ∧ node ≠ "" ∧ lp_NodeName e = node ∧
    lpAnnotation e AnnotationInjectedBy = backendKey cb ∧ lpAnnotation e AnnotationInjectedByUID = cb_UID cb.
Proof.
  revert out. induction pods as [|p pods IH]; intros out; simpl; [auto|]. intros [H|H]%IH; [|set_solver].
  revert H. unfold engineStep. destruct (_ && _) eqn:E; [|auto].
  rewrite !andb_true_iff, negb_true_iff, str_eqb_neq, !str_eqb_eq in E. destruct E as (((Ha & Hn) & H1) & H2).
  destruct (out !! lp_NodeName p) eqn:El; [auto|]. intros [[<- <-]|[_ ?]]%lookup_insert_Some; [|auto]. right. set_solver.
Qed.

Lemma demand_sound ans cb demand node e :
  nodeLocalEngineDemand ans cb = Some demand → demand !! node = Some e → engineOn ans cb node e.
Proof.
  unfold nodeLocalEngineDemand. case_bool_decide; [intros [= <-]; by rewrite lookup_empty|].
  destruct (listIn _ _ _) as [pods|] eqn:El; simpl; [|done]. intros [= <-].
  intros [Hl|(Hin & ?)]%(engineStep_sound cb); [by rewrite lookup_empty in Hl|]. exists pods. split_and!; [done| |naive_solver..].
  by rewrite (go_sort_Permutation _ pods) in Hin.
Qed.
End demand.

(** ** Servers *)

Section servers.
Context `{QO : QuantityOps}.
Variables (quote quoteRune : string → string) (sha256 : string → string).
Variables (parseTime : string → option Time).
Context (ans : NodeLocalAnswers) (image : string) (scheduling : option PodScheduling) (cb : CacheBackend).
Implicit Types (pod : LivePod) (node : string) (demand : gmap string LivePod) (servers : list LivePod).

(** A server that the pass keeps: of this backend, generation and profile, on a node with engines. *)
Definition kept (path : string) demand pod : Prop :=
  IsControlledBy pod cb = true ∧ currentFor sha256 cb path pod = true ∧ is_Some (demand !! nodeLocalServerTargetNode pod).

(** A server of this backend that is not the current one and is not being deleted yet. *)
Definition retiring (path : string) pod : Prop :=
  IsControlledBy pod cb = true ∧ currentFor sha256 cb path pod = false ∧ lp_Deleting pod = false.

Lemma deleting_passes {A : Type} pod (a : A) (Q : A → Prop) : Q a → passes (λ _, True) (andThen (deletePod ans pod) (λ _, done_ a)) Q.
Proof. intros. apply passes_then; [by apply passes_call|intros; by apply passes_done]. Qed.

Lemma any_passes {A : Type} (m : Pass A) : passes (λ _, True) m (λ _, True).
Proof. split; [by apply Forall_true|done]. Qed.

Lemma reviewServer_state path retention demand s pod :
  passes (λ _, True) (reviewServer quoteRune sha256 parseTime ans image scheduling cb path retention demand s pod)
    (λ s', (∀ n, n ∈ sv_live s' ↔ n ∈ sv_live s ∨ kept path demand pod ∧ nodeLocalServerTargetNode pod = n) ∧
           sv_cleanup s ⊆ sv_cleanup s' ∧
           (∀ n, n ∈ sv_cleanup s' → n ∈ sv_cleanup s ∨ retiring path pod ∧ nodeLocalServerTargetNode pod = n)).
Proof.
  assert (Hsame : ¬ kept path demand pod → (∀ n, n ∈ sv_live s ↔ n ∈ sv_live s ∨ kept path demand pod ∧ nodeLocalServerTargetNode pod = n) ∧
    sv_cleanup s ⊆ sv_cleanup s ∧ (∀ n, n ∈ sv_cleanup s → n ∈ sv_cleanup s ∨ retiring path pod ∧ nodeLocalServerTargetNode pod = n)) by naive_solver.
  unfold reviewServer. destruct (IsControlledBy pod cb) eqn:Hc; cbn [negb]; last first.
  { apply passes_done, Hsame. intros [? _]. congruence. }
  destruct (currentFor sha256 cb path pod) eqn:Hcur; cbn [negb]; last first.
  { assert (¬ kept path demand pod) as Hk by (intros (_ & ? & _); congruence). unfold retireStale.
    destruct (lp_Deleting pod) eqn:Hd; [by apply passes_done, Hsame|].
    eapply passes_bind with (Q := λ s', sv_live s' = sv_live s ∧ (s' = s ∨ sv_cleanup s' = {[nodeLocalServerTargetNode pod]} ∪ sv_cleanup s)).
    - pass_step; [|apply passes_done; auto]. apply passes_then; [apply any_passes|intros; by apply passes_done; auto].
    - intros s' [Hl Hs]. apply deleting_passes. rewrite Hl. split; [naive_solver|]. destruct Hs as [->|Hs]; [naive_solver|].
      rewrite Hs. split; [set_solver|]. intros n [?%elem_of_singleton|?]%elem_of_union; [|auto]. subst. right. by split. }
  destruct (decide (is_Some (demand !! nodeLocalServerTargetNode pod))) as [Hw|Hw].
  - rewrite bool_decide_true by done. cbn [negb]. unfold keepServer. apply passes_then; [apply any_passes|]. intros _.
    assert (kept path demand pod) as Hk by done.
    pass_step; [apply bool_decide_eq_true in Heqb|apply bool_decide_eq_false in Heqb].
    + apply passes_then; [apply any_passes|]. intros _. apply passes_done. naive_solver.
    + apply passes_done. simpl. split; [|naive_solver]. intros n. rewrite elem_of_union, elem_of_singleton. naive_solver.
  - rewrite bool_decide_false by done. cbn [negb]. assert (¬ kept path demand pod) as Hk by (intros (_ & _ & ?); done).
    assert (Hr : passes (λ _, True) (andThen (ensureLMCacheNodeLocalCleanupPod quoteRune sha256 ans image scheduling cb pod)
      (λ _, andThen (deletePod ans pod) (λ _, done_ s))) (λ s', s' = s)).
    { apply passes_then; [apply any_passes|]. intros _. by apply deleting_passes. }
    assert (passes (λ _, True) (retireIdle quoteRune sha256 parseTime ans image scheduling cb retention s pod) (λ s', s' = s)) as Hi.
    { unfold retireIdle. pass_step; [pass_step; [by apply passes_done|done]|]. pass_step.
      - pass_step; [done|by apply passes_done].
      - apply passes_call; [done|]. intros s'. destruct (na_Patch ans pod); [by intros [= <-]|done]. }
    eapply passes_mono; [exact Hi|done|]. intros s' ->. by apply Hsame.
Qed.

Lemma reviewServers_state path retention demand servers blocked :
  passes (λ _, True)
    (passFold (reviewServer quoteRune sha256 parseTime ans image scheduling cb path retention demand) (mkServerState ∅ blocked) servers)
    (λ s, (∀ n, n ∈ sv_live s ↔ ∃ p, p ∈ servers ∧ kept path demand p ∧ nodeLocalServerTargetNode p = n) ∧ blocked ⊆ sv_cleanup s ∧
          (∀ n, n ∈ sv_cleanup s → n ∈ blocked ∨ ∃ p, p ∈ servers ∧ retiring path p ∧ nodeLocalServerTargetNode p = n)).
Proof.
  assert (∀ s, passes (λ _, True) (passFold (reviewServer quoteRune sha256 parseTime ans image scheduling cb path retention demand) s servers)
    (λ s', (∀ n, n ∈ sv_live s' ↔ n ∈ sv_live s ∨ ∃ p, p ∈ servers ∧ kept path demand p ∧ nodeLocalServerTargetNode p = n) ∧
          sv_cleanup s ⊆ sv_cleanup s' ∧
          (∀ n, n ∈ sv_cleanup s' → n ∈ sv_cleanup s ∨ ∃ p, p ∈ servers ∧ retiring path p ∧ nodeLocalServerTargetNode p = n))) as H.
  { induction servers as [|p servers IH]; intros s; simpl; [apply passes_done; set_solver|].
    eapply passes_bind; [apply reviewServer_state|]. intros s1 (H1 & H2 & H3). eapply passes_mono; [apply IH|done|].
    intros s2 (H4 & H5 & H6). split_and!; [|by trans (sv_cleanup s1)|].
    - intros n. rewrite H4, H1. setoid_rewrite elem_of_cons. naive_solver.
    - intros n [Hn|(q & Hq & Hr)]%H6; [destruct (H3 n Hn) as [?|Hr]; [by left|]|]; right; [exists p|exists q]; set_solver. }
  eapply passes_mono; [apply H|done|]. simpl. intros s (H1 & H2 & H3). split_and!; [|done|done]. intros n. rewrite H1. set_solver.
Qed.

(** Why a server is created: an engine of this backend runs on its node, no kept server and no
    cleanup that may be clearing the directory. *)
Definition serverJustified (binding : option Binding) (p : LivePod) : Prop :=
  ∃ node e rendered path demand servers,
    engineOn ans cb node e ∧ p = owned cb rendered ∧
    RenderLMCacheNodeLocalServerPod quote quoteRune sha256 cb scheduling binding node (Some e) = inr rendered ∧
    nodeLocalEngineDemand ans cb = Some demand ∧ demand !! node = Some e ∧ NodeLocalServerShmHostPath quoteRune cb = inr path ∧
    listIn (na_Servers ans) (cb_Namespace cb) (nodeLocalServerLabels cb) = Some servers ∧
    (∀ s, s ∈ servers → kept path demand s → nodeLocalServerTargetNode s ≠ node) ∧
    (∀ cleanups c, listIn (na_Cleanups ans) (cb_Namespace cb) (cleanupLabels cb) = Some cleanups → c ∈ cleanups → clearing cb c →
       targetOf c ≠ node).

Lemma server_rendered binding node src p :
  RenderLMCacheNodeLocalServerPod quote quoteRune sha256 cb scheduling binding node src = inr p →
  p_Namespace (lp_Pod p) = cb_Namespace cb ∧ cb_UID cb ≠ "" ∧ is_Some src.
Proof.
  unfold RenderLMCacheNodeLocalServerPod. destruct (_ ≫= _) as [server|]; [|done]. destruct (str_eqb (cb_UID cb) "") eqn:Eu; [done|].
  apply str_eqb_neq in Eu. destruct src as [src|]; [|done]. destruct (_ || _); [done|].
  destruct (echeck _); simpl; [done|]. destruct (renderLMCacheMPL2Binding _ _) as [|[l2 env]]; simpl; [done|].
  destruct (quantityAsGiB _); simpl; [done|]. destruct (NodeLocalServerShmHostPath _ _); simpl; [done|]. by intros [= <-].
Qed.

Lemma servers_safe hasFinalizer binding :
  passes (callSafe quoteRune sha256 (serverJustified binding) ans image cb)
    (reconcileLMCacheNodeLocalServerPods quote quoteRune sha256 parseTime ans image scheduling cb hasFinalizer binding) (λ _, True).
Proof.
  unfold reconcileLMCacheNodeLocalServerPods. pass_step.
  { apply passes_then; [|intros; apply cleanupServers_safe]. pass_step; [apply ensureForConsumers_safe|by apply passes_done]. }
  apply passes_read. intros demand Hd. apply passes_render. intros path Hpath. apply passes_read. intros servers Hs.
  eapply passes_bind; [apply cleanupPods_safe|]. intros blocked Hb.
  eapply passes_bind; [apply passes_both; [apply (passes_fold_simple _ _ (λ _, True)); [done|intros; apply reviewServer_safe]|apply reviewServers_state]|].
  intros s (_ & Hlive & Hsub & _).
  apply passes_fold_simple; [done|]. intros [] node _ _. unfold createServer.
  destruct (bool_decide (node ∈ sv_live s)) eqn:El; [by apply passes_done|].
  destruct (bool_decide (node ∈ sv_cleanup s)) eqn:Ec; [by apply passes_done|]. apply bool_decide_eq_false in El, Ec. cbn [orb].
  apply passes_render. intros p Hp. destruct (server_rendered _ _ _ _ Hp) as (Hns & Huid & [e He]). rewrite He in Hp.
  apply createPod_safe; [done| |done]. right. exists node, e, p, path, demand, servers.
  split_and!; [by eapply demand_sound|done..| |].
  - intros q Hq Hk Hn. apply El, Hlive. eauto.
  - intros cleanups c Hc Hin Hcl Hn. apply Ec, Hsub. rewrite <-Hn. by eapply Hb.
Qed.
End servers.

(** ** Guarantees *)

Section guarantees.
Context `{QO : QuantityOps}.
Variables (quote quoteRune : string → string) (sha256 : string → string).
Variables (parseTime : string → option Time).
Implicit Types (cb : CacheBackend) (pod : LivePod) (node : string).

Lemma andThen_inv {A B : Type} (m : Pass A) (k : A → Pass B) b :
  (andThen m k).2 = Some b → ∃ a, m.2 = Some a ∧ (k a).2 = Some b ∧ (andThen m k).1 = m.1 ++ (k a).1.
Proof. unfold andThen. destruct m as [calls [a|]]; simpl; [eauto|done]. Qed.

(** C13: Every write of a NodeLocal pass is safe.  A pod is deleted or annotated only when this
    backend controls it.  A pod is created only in the backend's namespace, controlled by it, and is
    either a cleanup pod or the server of a node on which an engine wired by this backend is active,
    on which the pass keeps no other server, and on which no cleanup of this backend may be clearing
    the directory.  The gate of a cleanup pod is released only on a pod that passes the identity
    check in full, that is still gated and not being deleted, and only when no other pod of the whole
    cluster on that node uses the directory. *)
Theorem nodelocal_calls_safe (ans : NodeLocalAnswers) (image : string) (scheduling : option PodScheduling) cb
    (hasFinalizer : bool) (binding : option Binding) (c : PodCall) :
  c ∈ (reconcileLMCacheNodeLocalServerPods quote quoteRune sha256 parseTime ans image scheduling cb hasFinalizer binding).1 →
  callSafe quoteRune sha256 (serverJustified quote quoteRune sha256 ans scheduling cb binding) ans image cb c.
Proof.
  intros Hc. destruct (servers_safe quote quoteRune sha256 parseTime ans image scheduling cb hasFinalizer binding) as [H _].
  by apply (proj1 (Forall_forall _ _) H).
Qed.

Lemma createServers_cover ans scheduling cb binding demand s nodes :
  let pass := passFold (createServer quote quoteRune sha256 ans scheduling cb binding demand s) tt nodes in
  pass.2 = Some tt → ∀ n, n ∈ nodes → n ∈ sv_live s ∨ n ∈ sv_cleanup s ∨
    ∃ rendered, RenderLMCacheNodeLocalServerPod quote quoteRune sha256 cb scheduling binding n (demand !! n) = inr rendered ∧
      CreatePod (owned cb rendered) ∈ pass.1.
Proof.
  cbv zeta. induction nodes as [|node nodes IH]; cbn [passFold]; intros Hp n Hn; [by apply elem_of_nil in Hn|].
  apply andThen_inv in Hp as ([] & H1 & H2 & Hcalls). rewrite Hcalls. clear Hcalls.
  apply elem_of_cons in Hn as [->|Hn]; last first.
  { destruct (IH H2 n Hn) as [?|[?|(r & Hr & Hin)]]; auto. right. right. exists r. split; [done|]. by apply elem_of_app; right. }
  unfold createServer in *. destruct (bool_decide (node ∈ sv_live s)) eqn:El; [left; by apply bool_decide_eq_true in El|].
  destruct (bool_decide (node ∈ sv_cleanup s)) eqn:Ec; [right; left; by apply bool_decide_eq_true in Ec|]. cbn [orb] in *.
  apply andThen_inv in H1 as (r & Hr & _ & ->). right. right. exists r. unfold ofSum in *. cbn [fst snd] in *.
  split; [by destruct (RenderLMCacheNodeLocalServerPod _ _ _ _ _ _ _ _); simplify_eq|].
  apply elem_of_app. left. simpl. set_solver.
Qed.

(** C25: A pass that succeeds leaves no engine without a server on its way: every node with an active
    engine of this backend has a current server that the pass keeps, or the pass created the server
    rendered for it, or the pass is waiting for the shared-memory directory to be cleared there (a
    pending cleanup, or an outdated server being retired). *)
Theorem nodelocal_demand_covered (ans : NodeLocalAnswers) (image : string) (scheduling : option PodScheduling) cb
    (hasFinalizer : bool) (binding : option Binding) node (e : LivePod) :
  let pass := reconcileLMCacheNodeLocalServerPods quote quoteRune sha256 parseTime ans image scheduling cb hasFinalizer binding in
  isTypedLMCacheNodeLocal cb = true → matchLabels cb ≠ ∅ → pass.2 = Some tt → engineOn ans cb node e →
  ∃ path demand servers blocked,
    NodeLocalServerShmHostPath quoteRune cb = inr path ∧ nodeLocalEngineDemand ans cb = Some demand ∧
    listIn (na_Servers ans) (cb_Namespace cb) (nodeLocalServerLabels cb) = Some servers ∧
    (reconcileLMCacheNodeLocalCleanupPods quoteRune sha256 ans image cb demand true).2 = Some blocked ∧
    ((∃ s, s ∈ servers ∧ kept sha256 cb path demand s ∧ nodeLocalServerTargetNode s = node) ∨
     (∃ src rendered, RenderLMCacheNodeLocalServerPod quote quoteRune sha256 cb scheduling binding node src = inr rendered ∧
        CreatePod (owned cb rendered) ∈ pass.1) ∨
     node ∈ blocked ∨ (∃ s, s ∈ servers ∧ retiring sha256 cb path s ∧ nodeLocalServerTargetNode s = node)).
Proof.
  intros pass Ht Hm Hp Hon. subst pass. unfold reconcileLMCacheNodeLocalServerPods in *. rewrite Ht in *. cbn [negb] in *.
  apply andThen_inv in Hp as (demand & Hd & Hp & ->). unfold ofOption in Hd. cbn [snd fst] in *.
  apply andThen_inv in Hp as (path & Hpath & Hp & ->). cbn [ofSum snd fst app] in *.
  assert (NodeLocalServerShmHostPath quoteRune cb = inr path) as Hpath' by (destruct (NodeLocalServerShmHostPath quoteRune cb); by simplify_eq).
  apply andThen_inv in Hp as (servers & Hs & Hp & ->). cbn [ofOption snd fst app] in *.
  apply andThen_inv in Hp as (blocked & Hb & Hp & ->). apply andThen_inv in Hp as (s & Hrev & Hp & ->).
  destruct (reviewServers_state quote quoteRune sha256 parseTime ans image scheduling cb path (idleRetention cb) demand servers blocked) as [_ Hst].
  destruct (Hst s Hrev) as (Hlive & _ & Hcl).
  assert (node ∈ go_sort str_lt (map_to_list demand).*1) as Hin.
  { rewrite go_sort_Permutation. apply list_elem_of_fmap.
    assert (is_Some (demand !! node)) as [x Hx]; [|exists (node, x); split; [done|by apply elem_of_map_to_list]].
    destruct Hon as (engines & He & Hin & ?). revert Hd. unfold nodeLocalEngineDemand. rewrite bool_decide_false, He by done. simpl.
    intros [= <-]. apply (engineStep_lookup cb). right. exists e. split; [by rewrite go_sort_Permutation|naive_solver]. }
  exists path, demand, servers, blocked. split_and!; [done..|].
  destruct (createServers_cover ans scheduling cb binding demand s _ Hp node Hin) as [Hl|[Hc|(r & Hr & Hcall)]].
  - left. by apply Hlive.
  - right. right. destruct (Hcl node Hc); auto.
  - right. left. exists (demand !! node), r. split; [done|]. rewrite !elem_of_app. auto.
Qed.

Lemma ofOption_inv {A : Type} (o : option A) a : (ofOption o).2 = Some a → o = Some a.
Proof. done. Qed.

(** C30: The finalizer of a deleted backend goes only when everything it kept on nodes is gone: the
    managed workload was shed, the last look lists no server and no cleanup pod of the backend, and
    no other pod anywhere in the cluster uses its directory.  Every call of the finalization is safe
    in the sense of the pass that made it, and no server is created. *)
Theorem finalizer_removed_when_clean (ans1 ans2 ans3 : NodeLocalAnswers) (image : string) (scheduling : option PodScheduling) cb
    (workloadGone patchFinalizer : bool) :
  let pass := finalizeLMCacheNodeLocal quoteRune sha256 ans1 ans2 ans3 image scheduling cb workloadGone patchFinalizer in
  (∀ delay, pass.2 = Some (delay, true) →
     workloadGone = true ∧ patchFinalizer = true ∧
     listIn (na_Servers ans3) (cb_Namespace cb) (nodeLocalServerLabels cb) = Some [] ∧
     listIn (na_Cleanups ans3) (cb_Namespace cb) (cleanupLabels cb) = Some [] ∧ quiescent quoteRune ans3 cb "") ∧
  (∀ c, c ∈ pass.1 → callSafe quoteRune sha256 (λ _, False) ans1 image cb c ∨ callSafe quoteRune sha256 (λ _, False) ans2 image cb c).
Proof.
  cbv zeta. split.
  - intros delay. unfold finalizeLMCacheNodeLocal. destruct workloadGone; [|done]. cbn [negb].
    intros ([] & _ & H & _)%andThen_inv. apply andThen_inv in H as ([] & _ & H & _). apply andThen_inv in H as (b & _ & H & _).
    apply andThen_inv in H as (servers & Hs%ofOption_inv & H & _). apply andThen_inv in H as (cleanups & Hc%ofOption_inv & H & _).
    destruct (bool_decide (servers = [])) eqn:E1; [|done]. destruct (bool_decide (cleanups = [])) eqn:E2; [|done]. cbn [negb orb] in H.
    apply bool_decide_eq_true in E1, E2. subst. apply andThen_inv in H as (consumers & Hcon%ofOption_inv & H & _).
    destruct (bool_decide (consumers = [])) eqn:E3; [|done]. apply bool_decide_eq_true in E3. subst. cbn [negb] in H.
    destruct patchFinalizer; [|done]. split_and!; [done..|]. by apply consumers_quiescent.
  - set (P c := callSafe quoteRune sha256 (λ _, False) ans1 image cb c ∨ callSafe quoteRune sha256 (λ _, False) ans2 image cb c).
    enough (passes P (finalizeLMCacheNodeLocal quoteRune sha256 ans1 ans2 ans3 image scheduling cb workloadGone patchFinalizer) (λ _, True)) as [H _].
    { intros c Hc. by apply (proj1 (Forall_forall _ _) H). }
    unfold finalizeLMCacheNodeLocal. pass_step; [apply passes_fail|].
    apply passes_then; [eapply passes_mono; [apply ensureForConsumers_safe|by left|done]|]. intros _.
    apply passes_then; [eapply passes_mono; [apply cleanupServers_safe|by left|done]|]. intros _.
    apply passes_then; [eapply passes_mono; [apply cleanupPods_safe|by right|done]|]. intros _.
    apply passes_read. intros servers _. apply passes_read. intros cleanups _. pass_step; [by apply passes_done|].
    apply passes_read. intros consumers _. pass_step; [by apply passes_done|]. pass_step; [by apply passes_done|apply passes_fail].
Qed.
End guarantees.

(** ** Retries end *)

Section retries.
Context `{QO : QuantityOps}.
Variables (sha256 : string → string).
Implicit Types (cb : CacheBackend) (pod : LivePod).

(** [next] is a pod created to retry [failed], as it is observed later: its annotations are those it
    was created with. *)
Definition retryOf cb (failed next : LivePod) : Prop :=
  ∃ ans succeeded s created, CreatePod created ∈ (advanceFailed sha256 ans cb succeeded s failed).1 ∧
    p_Annotations (lp_Pod next) = p_Annotations (lp_Pod created).

(** Successive retries of a pod. *)
Fixpoint retryChain cb pod (retries : list LivePod) : Prop :=
  match retries with
  | [] => True
  | next :: retries => retryOf cb pod next ∧ retryChain cb next retries
  end.

Lemma retryOf_count cb failed next :
  retryOf cb failed next → ∃ n, retryCount failed = Some n ∧ lpAnnotation next nodeLocalShmCleanupRetryAnnotation = FormatInt (n + 1).
Proof.
  intros (ans & succeeded & s & created & Hc & Ha). revert Hc.
  assert (Hdel : ∀ s' : CleanupState, CreatePod created ∉ (andThen (deleteLive ans failed) (λ _, done_ s')).1).
  { intros s'. unfold andThen, deleteLive. destruct (lp_Deleting failed); simpl; [set_solver|]. destruct (na_Delete ans failed); simpl; set_solver. }
  unfold advanceFailed. destruct (bool_decide _); [by intros ?%Hdel|]. destruct (retryCount failed) as [n|]; [|simpl; set_solver].
  destruct (bool_decide _); [by intros ?%Hdel|]. intros Hc. exists n. split; [done|].
  assert (CreatePod created ∈ (retryCleanup sha256 ans cb n failed).1) as Hr.
  { revert Hc. unfold andThen at 1. destruct ((retryCleanup sha256 ans cb n failed).2); [|done]. cbn [fst].
    intros [?|?%Hdel]%elem_of_app; done. }
  revert Hr. unfold retryCleanup, andThen, ofSum. destruct (RenderLMCacheNodeLocalCleanupRetryPod sha256 cb failed) as [|p]; simpl; [set_solver|].
  intros [= ->]%list_elem_of_singleton. unfold lpAnnotation. rewrite Ha. simpl. unfold strGet. by rewrite lookup_insert_eq.
Qed.

Lemma retryCount_range pod n : retryCount pod = Some n → 0 ≤ n < nodeLocalShmCleanupMaxRetryAttempts.
Proof.
  unfold retryCount. destruct (if str_eqb _ _ then _ else _) as [k|]; simpl; [|done].
  destruct (k <? 0) eqn:E1; [done|]. destruct (nodeLocalShmCleanupMaxRetryAttempts <=? k) eqn:E2; [done|]. intros [= <-]. lia.
Qed.

Lemma retryCount_next pod n : 0 ≤ n < nodeLocalShmCleanupMaxRetryAttempts →
  lpAnnotation pod nodeLocalShmCleanupRetryAnnotation = FormatInt (n + 1) → ∀ m, retryCount pod = Some m → m = n + 1.
Proof.
  intros Hn Ha m. unfold retryCount. rewrite Ha. assert (n = 0 ∨ n = 1 ∨ n = 2) as [->|[->| ->]] by (unfold nodeLocalShmCleanupMaxRetryAttempts in *; lia);
    vm_compute; by intros [= <-].
Qed.

(** C36: Retries of a failed cleanup end: whatever the passes observe and whatever the apiserver
    answers, at most three pods are created one after the other to retry a cleanup pod, however its
    own count reads (absent, malformed or negative counts included).  A pod whose count is malformed,
    negative or exhausted is not retried at all. *)
Theorem cleanup_retries_end cb pod (retries : list LivePod) :
  retryChain cb pod retries →
  Z.of_nat (length retries) ≤ nodeLocalShmCleanupMaxRetryAttempts ∧ (retryCount pod = None → retries = []).
Proof.
  assert (∀ retries pod n, retryChain cb pod retries → retryCount pod = Some n →
    Z.of_nat (length retries) ≤ nodeLocalShmCleanupMaxRetryAttempts - n) as H.
  { clear. induction retries as [|next retries IH]; intros pod n Hch Hn; simpl in *; [pose proof (retryCount_range _ _ Hn); lia|].
    destruct Hch as [Hr Hch]. destruct (retryOf_count _ _ _ Hr) as (k & Hk & Ha). assert (k = n) as -> by congruence.
    pose proof (retryCount_range _ _ Hn) as Hrange. destruct (retryCount next) as [m|] eqn:Em.
    - rewrite (retryCount_next _ _ Hrange Ha m Em) in Em. pose proof (IH next _ Hch Em). lia.
    - destruct retries as [|x retries]; [simpl; lia|]. destruct Hch as [(j & Hj & _)%retryOf_count _]. congruence. }
  intros Hch. destruct (retryCount pod) as [n|] eqn:En.
  - pose proof (H _ _ _ Hch En). pose proof (retryCount_range _ _ En). split; [lia|done].
  - destruct retries as [|next retries]; [done|]. destruct Hch as [(j & Hj & _)%retryOf_count _]. congruence.
Qed.
End retries.
