(* ===== verification/NodeLocalRoundtrip.v ===== *)
(** * Rendered NodeLocal pods are recognised

    The identity checks of the controller accept the pods its own renderers produce. *)

From S2P Require Import Prelude Ordering GoRuntime GoText GoNumbers Floats K8s Auth ControlPlane IndexPoller.
From S2P Require Import CoreV1 BackendApi Endpoints Adapters Renderer EngineWire LiveObjects ReadinessGate.
From S2P Require Import ProbeGate EngineHealth ConnectorHealth NodeLocalPods NodeLocalServers UpsertFacts.
From S2P Require Import NodeLocalFacts NodeLocalTheorems.

(** ** Values that are no flags *)

Definition noFlag (s : string) : Prop := HasPrefix s "--" = false.

Lemma noFlag_head a s : a ≠ "-"%char → noFlag (String a s).
Proof. intros Ha. unfold noFlag, HasPrefix. cbn [CutPrefix]. by rewrite (bool_decide_false ("-"%char = a)) by congruence. Qed.

Lemma noFlag_dash s : (∀ a r, s = String a r → a ≠ "-"%char) → noFlag (String "-" s).
Proof.
  intros Hs. unfold noFlag, HasPrefix. cbn [CutPrefix]. rewrite (bool_decide_true ("-"%char = "-"%char)) by done.
  destruct s as [|a r]; [done|]. rewrite (bool_decide_false ("-"%char = a)); [done|]. intros <-. by eapply Hs.
Qed.

Lemma noFlag_ne s f : noFlag s → str_eqb s ("--" +:+ f) = false ∧ HasPrefix s ("--" +:+ f +:+ "=") = false.
Proof.
  unfold noFlag, HasPrefix. rewrite bool_decide_eq_false. intros Hs. split.
  - apply str_eqb_neq. intros ->. apply Hs. exists f. by apply CutPrefix_spec.
  - apply bool_decide_eq_false. intros [r Hr%CutPrefix_spec]. apply Hs. exists (f +:+ "=" +:+ r). apply CutPrefix_spec.
    rewrite Hr. simpl. by rewrite !str_app_assoc.
Qed.

Lemma digit_not_dash a : is_Some (digitOf a) → a ≠ "-"%char.
Proof. intros [? H] ->. done. Qed.

Lemma FormatInt_plain z : noFlag (FormatInt z).
Proof.
  destruct (FormatInt_cases z) as [(_ & s & (a & r & -> & Ha) & -> & _)|(_ & (a & r & -> & Ha) & _)].
  - apply noFlag_dash. intros ? ? [= <- _]. by apply digit_not_dash.
  - by apply noFlag_head, digit_not_dash.
Qed.

Lemma digitChar_not_dash d : 0 ≤ d < 10 → digitChar d ≠ "-"%char.
Proof.
  intros Hd. assert (d ∈ [0;1;2;3;4;5;6;7;8;9]) as Hin by (rewrite !elem_of_cons; lia).
  rewrite !elem_of_cons in Hin. destruct_or!; subst; try done. by apply elem_of_nil in Hin.
Qed.

(** A text that does not start with a dash. *)
Definition plainHead (s : string) : Prop := ∀ a r, s = String a r → a ≠ "-"%char.

Lemma plainHead_noFlag s : plainHead s → noFlag s.
Proof. destruct s; [done|]. intros H. by eapply noFlag_head, H. Qed.

Lemma decDigits_head n z s : plainHead s → plainHead (decDigits n z +:+ s).
Proof.
  destruct n; [done|]. intros _ a r [= <- _]. apply digitChar_not_dash. apply Z.mod_pos_bound. lia.
Qed.

Lemma fixedText_head n d e : plainHead (fixedText n d e).
Proof.
  unfold fixedText. destruct (0 <=? e).
  - apply decDigits_head. rewrite <-(str_app_nil_r (zeros _)). by apply decDigits_head.
  - destruct (_ <=? 0); [by intros ? ? [= <- _]|]. apply decDigits_head. by intros ? ? [= <- _].
Qed.

Lemma FormatFloat64_noFlag f : noFlag (FormatFloat64 f).
Proof.
  destruct f as [[]|[]| |s m x]; [done..|]. unfold FormatFloat64. set (t := match shortest64 m x 1 17 with Some _ => _ | None => _ end).
  assert (plainHead t) as Ht by (subst t; destruct (shortest64 m x 1 17) as [[d e]|]; [apply fixedText_head|done]).
  clearbody t. destruct s; simpl; [by apply noFlag_dash|by apply plainHead_noFlag].
Qed.

(** ** The profile of a rendered server *)

Lemma argValues_other a rest f :
  str_eqb a f = false → HasPrefix a (f +:+ "=") = false → argValues (a :: rest) f = argValues rest f.
Proof. intros H1 H2. by rewrite argValues_cons, H1, H2. Qed.

Lemma filter_other a rest f : str_eqb a f = false → List.filter (str_eqb f) (a :: rest) = List.filter (str_eqb f) rest.
Proof. intros H. cbn [List.filter]. apply str_eqb_neq in H. by rewrite (proj2 (str_eqb_neq f a)). Qed.

Lemma filter_same f rest : List.filter (str_eqb f) (f :: rest) = f :: List.filter (str_eqb f) rest.
Proof. cbn [List.filter]. by rewrite str_eqb_refl. Qed.

(** Steps over an argument that is a value, or a literal other than the flag. *)
Ltac skip_args f :=
  repeat first [rewrite argValues_other by (first [by apply (noFlag_ne _ f) | reflexivity])
               |rewrite filter_other by (first [by apply (noFlag_ne _ f) | reflexivity])].

Lemma server_profile id host port hport chunk l1 gw cw (l2 : list string) :
  noFlag id → noFlag host → noFlag port → noFlag hport → noFlag chunk → noFlag l1 → noFlag gw → noFlag cw →
  l2 = [] ∨ (∃ a, l2 = ["--l2-adapter"; a] ∧ noFlag a) →
  IsLMCacheMPCUDAServerProfile
    (["server"; "--instance-id"; id; lmCacheMPTransferModeArg; lmCacheMPTransferModeLMCacheDriven; lmCacheMPL1NonLazyArg;
      lmCacheMPShmNameArg; ""; "--host"; host; "--port"; port; "--http-host"; host; "--http-port"; hport; "--chunk-size"; chunk;
      "--l1-size-gb"; l1; "--eviction-policy"; "LRU"; "--max-gpu-workers"; gw; "--max-cpu-workers"; cw] ++ l2) = true.
Proof.
  intros Hid Hh Hp Hhp Hc Hl Hg Hw Hl2.
  assert (∀ f, f ∈ [lmCacheMPTransferModeArg; lmCacheMPShmNameArg] → argValues l2 f = ([], false)) as Hv.
  { intros f Hf. destruct Hl2 as [->|(a & -> & Ha)]; [done|]. rewrite !elem_of_cons in Hf. destruct Hf as [->|[->|?%elem_of_nil]]; [| |done].
    - by skip_args "supported-transfer-mode".
    - by skip_args "shm-name". }
  assert (∀ f, f ∈ [lmCacheMPL1NonLazyArg; lmCacheMPL1LazyArg] → List.filter (str_eqb f) l2 = []) as Hf.
  { intros f Hf. destruct Hl2 as [->|(a & -> & Ha)]; [done|]. rewrite !elem_of_cons in Hf. destruct Hf as [->|[->|?%elem_of_nil]]; [| |done].
    - by skip_args "no-l1-use-lazy".
    - by skip_args "l1-use-lazy". }
  unfold IsLMCacheMPCUDAServerProfile. cbn [app].
  match goal with |- context [argValues ?l lmCacheMPTransferModeArg] => set (args := l) end.
  assert (argValues args lmCacheMPTransferModeArg = ([lmCacheMPTransferModeLMCacheDriven], false)) as ->.
  { subst args. skip_args "supported-transfer-mode". rewrite argValues_cons. change (str_eqb lmCacheMPTransferModeArg lmCacheMPTransferModeArg) with true. cbn iota beta.
    change (HasPrefix lmCacheMPTransferModeLMCacheDriven "--") with false. cbn iota. skip_args "supported-transfer-mode".
    rewrite Hv by set_solver. done. }
  assert (argValues args lmCacheMPShmNameArg = ([EmptyString], false)) as ->.
  { subst args. skip_args "shm-name". rewrite argValues_cons. change (str_eqb lmCacheMPShmNameArg lmCacheMPShmNameArg) with true. cbn iota beta.
    change (HasPrefix "" "--") with false. cbn iota. skip_args "shm-name". rewrite Hv by set_solver. done. }
  assert (List.filter (str_eqb lmCacheMPL1NonLazyArg) args = [lmCacheMPL1NonLazyArg]) as ->.
  { subst args. skip_args "no-l1-use-lazy". rewrite filter_same. f_equal. skip_args "no-l1-use-lazy". apply Hf. set_solver. }
  assert (List.filter (str_eqb lmCacheMPL1LazyArg) args = []) as ->.
  { subst args. skip_args "l1-use-lazy". apply Hf. set_solver. }
  done.
Qed.

(** A lookup in a map written out with literal keys. *)
Ltac literal_lookup :=
  unfold lpAnnotation, lpLabel, strGet, owned; cbn [lp_Pod p_Annotations p_Labels];
  repeat first [rewrite lookup_insert_eq | rewrite lookup_insert_ne by (apply str_eqb_neq; reflexivity) | rewrite lookup_singleton_eq];
  reflexivity.

Section roundtrip.
Context `{QO : QuantityOps}.
Variables (quote quoteRune : string → string) (sha256 : string → string).
Implicit Types (cb : CacheBackend) (pod : LivePod) (node : string).

Lemma quantityAsGiB_noFlag q s : quantityAsGiB q = inr s → noFlag s.
Proof.
  unfold quantityAsGiB. destruct (_ <=? 0); [done|]. destruct (_ =? 0); intros [= <-]; [apply FormatInt_plain|apply FormatFloat64_noFlag].
Qed.

Lemma l2_noFlag binding l2 env : renderLMCacheMPL2Binding quote binding = inr (l2, env) → noFlag l2.
Proof.
  unfold renderLMCacheMPL2Binding. destruct binding as [b|]; [|by intros [= <- _]]. destruct (negb _); [done|].
  destruct (bool_decide _); [done|]. destruct (bool_decide _); [done|]. destruct (splitLMCacheHostPort _) as [[host port] ok].
  destruct (_ || _ || _); [done|]. destruct (ParseInt32 port) as [z|]; [|done]. destruct (_ || _); [done|]. by intros [= <- _].
Qed.

Lemma instanceID_noFlag cb : HasPrefix (cb_Namespace cb) "-" = false → noFlag (lmCacheNodeLocalInstanceID cb).
Proof.
  unfold lmCacheNodeLocalInstanceID, HasPrefix. destruct (cb_Namespace cb) as [|a s]; [done|]. intros H.
  apply noFlag_head. intros ->. cbn [CutPrefix] in H. by rewrite (bool_decide_true ("-"%char = "-"%char)) in H.
Qed.

Lemma hostPath_nonempty cb path : NodeLocalServerShmHostPath quoteRune cb = inr path → str_eqb path "" = false.
Proof. unfold NodeLocalServerShmHostPath. destruct (nodeLocalBackendUID _ _); simpl; [done|]. by intros [= <-]. Qed.

Lemma rendered_identity cb server l1 l2 env path pod :
  noFlag (lmCacheNodeLocalInstanceID cb) → noFlag l1 → noFlag l2 → str_eqb path "" = false →
  p_Spec (lp_Pod pod) = mkPodSpec [] [nodeLocalServerContainer cb server l1 l2 env] [shmVolume path] →
  nodeLocalServerHasRuntimeIdentity pod path = true.
Proof.
  intros Hid Hl1 Hl2 Hne Hspec. unfold nodeLocalServerHasRuntimeIdentity. rewrite Hne, Hspec. cbn [psp_Containers psp_Volumes List.find].
  change (str_eqb (cn_Name (nodeLocalServerContainer cb server l1 l2 env)) lmCacheMPServerStatusContainerName) with true. cbn iota.
  cbn [cn_VolumeMounts nodeLocalServerContainer List.find].
  change (str_eqb (vm_MountPath _) "/dev/shm" && _ && _ && _) with true. cbn iota. cbn [vm_Name existsb].
  change (str_eqb lmCacheNodeLocalShmVolumeName "") with false. change (str_eqb (vol_Name (shmVolume path)) lmCacheNodeLocalShmVolumeName) with true.
  rewrite bool_decide_true by done. cbn [negb andb orb cn_Args nodeLocalServerContainer]. unfold nodeLocalServerArgs.
  apply server_profile; try apply FormatInt_plain; try done. destruct (str_eqb l2 ""); [by left|right; eauto].
Qed.

(** C35: The controller recognises the servers it creates: the pod rendered for a node carries the
    labels the controller lists by, targets that node, and passes the identity checks both of the
    lifecycle (so the next pass at the same generation keeps it and creates no second one) and of the
    connector status (so it counts towards ConnectorReady), whatever the sizes, ports, worker counts
    and binding.  The namespace is assumed not to start with a dash, as Kubernetes requires. *)
Theorem server_recognised cb (scheduling : option PodScheduling) (binding : option Binding) node (src : option LivePod) (p : LivePod)
    (path : string) :
  HasPrefix (cb_Namespace cb) "-" = false →
  RenderLMCacheNodeLocalServerPod quote quoteRune sha256 cb scheduling binding node src = inr p →
  NodeLocalServerShmHostPath quoteRune cb = inr path →
  currentFor sha256 cb path (owned cb p) = true ∧ currentServer cb path (owned cb p) = true ∧
  nodeLocalServerTargetNode (owned cb p) = node ∧ targets (owned cb p) node = true ∧
  p_Namespace (lp_Pod p) = cb_Namespace cb ∧ selectorMatches (nodeLocalServerLabels cb) (p_Labels (lp_Pod p)) = true.
Proof.
  intros Hns Hr Hpath. pose proof (instanceID_noFlag cb Hns) as Hid. pose proof (hostPath_nonempty _ _ Hpath) as Hne.
  revert Hr. unfold RenderLMCacheNodeLocalServerPod. rewrite Hpath.
  destruct (_ ≫= _) as [server|]; [|done]. destruct (str_eqb (cb_UID cb) "") eqn:Eu; [done|].
  destruct src as [src|]; [|done]. destruct (str_eqb (TrimSpace node) "") eqn:Et; [done|].
  destruct (negb _); [done|]. cbn [orb].
  destruct (echeck _); simpl; [done|]. destruct (renderLMCacheMPL2Binding quote binding) as [|[l2 env]] eqn:El; simpl; [done|].
  destruct (quantityAsGiB _) as [|gib] eqn:Eg; simpl; [done|]. intros [= <-].
  set (pod := mkLivePod _ _ _ _ _ _ _ _ _ _ _ _ _ _ _).
  assert (nodeLocalServerHasRuntimeIdentity (owned cb pod) path = true) as Hident.
  { eapply (rendered_identity cb server gib l2 env); [done|by eapply quantityAsGiB_noFlag|by eapply l2_noFlag|done|done]. }
  assert (lpAnnotation (owned cb pod) AnnotationNodeLocalTargetNode = node) as Htarget by literal_lookup.
  assert (lpAnnotation (owned cb pod) AnnotationNodeLocalOwner = backendKey cb) as Howner by literal_lookup.
  assert (lpAnnotation (owned cb pod) AnnotationNodeLocalOwnerUID = cb_UID cb) as Huid by literal_lookup.
  assert (lpAnnotation (owned cb pod) AnnotationNodeLocalGeneration = FormatInt (cb_Generation cb)) as Hgen
    by literal_lookup.
  assert (nodeLocalServerTargetNode (owned cb pod) = node) as Hnode.
  { unfold nodeLocalServerTargetNode. rewrite Htarget. destruct (str_eqb node "") eqn:En; [|done]. apply str_eqb_eq in En. by rewrite En in Et. }
  unfold currentFor, currentServer, targets. rewrite Hident, Htarget, Howner, Huid, Hgen, Hnode, owned_controlled, !str_eqb_refl.
  split_and!; [done..|]. unfold selectorMatches, nodeLocalServerLabels. apply bool_decide_eq_true.
  rewrite map_Forall_insert, map_Forall_singleton by (by rewrite lookup_singleton_ne). split; literal_lookup.
Qed.

End roundtrip.

(** ** Cleanup pods *)

Section cleanups.
Context `{QO : QuantityOps}.
Variables (quoteRune : string → string) (sha256 : string → string).
Implicit Types (cb : CacheBackend) (pod : LivePod) (node : string).
Hypothesis sha256_length : ∀ data, String.length (sha256 data) = 32%nat.

Lemma hexDigit_lower n : 0 ≤ n < 16 → lowerHex (hexDigit n) = true.
Proof.
  intros Hn. assert (n ∈ [0;1;2;3;4;5;6;7;8;9;10;11;12;13;14;15]) as Hin by (rewrite !elem_of_cons; lia).
  rewrite !elem_of_cons in Hin. destruct_or!; subst; try done. by apply elem_of_nil in Hin.
Qed.

Lemma hexEncode_lower s : str_forallb lowerHex (hexEncode s) = true ∧ String.length (hexEncode s) = (2 * String.length s)%nat.
Proof.
  induction s as [|a s [IH1 IH2]]; [done|]. cbn [hexEncode String.length]. rewrite !str_forallb_cons, IH1, IH2.
  pose proof (N_ascii_bounded a) as Ha. assert (0 ≤ Z_of_byte a < 256) as Hb by (unfold Z_of_byte; lia).
  rewrite !hexDigit_lower; [split; [done|lia]|..].
  - apply Z.mod_pos_bound. lia.
  - split; [apply Z.div_pos; lia|]. apply Z.div_lt_upper_bound; lia.
Qed.

Lemma substring_length n s : (n ≤ String.length s)%nat → String.length (String.substring 0 n s) = n.
Proof. revert s. induction n as [|n IH]; intros [|a s] Hn; simpl in *; try lia. by rewrite IH by lia. Qed.

Lemma retry_name_recognised uid node failed : IsNodeLocalCleanupPodName sha256 uid node (NodeLocalCleanupRetryPodName sha256 uid node failed) = true.
Proof.
  unfold IsNodeLocalCleanupPodName, NodeLocalCleanupRetryPodName. destruct (str_eqb _ _); [done|].
  rewrite (proj2 (CutPrefix_spec _ _ (hexPrefix sha256 6 failed))); [|by rewrite str_app_assoc].
  unfold hexPrefix. destruct (hexEncode_lower (String.substring 0 6 (sha256 failed))) as [-> ->].
  rewrite substring_length by (rewrite sha256_length; lia). done.
Qed.

Lemma base_name_recognised uid node : IsNodeLocalCleanupPodName sha256 uid node (NodeLocalCleanupPodName sha256 uid node) = true.
Proof. unfold IsNodeLocalCleanupPodName. by rewrite str_eqb_refl. Qed.

(** The container, volume and mount the check requires. *)
Definition cleanupBody cb (image : string) pod : Prop :=
  ∃ c v path, psp_Containers (p_Spec (lp_Pod pod)) = [c] ∧ psp_Volumes (p_Spec (lp_Pod pod)) = [v] ∧
    NodeLocalServerShmHostPath quoteRune cb = inr path ∧ vol_Name v = lmCacheNodeLocalShmVolumeName ∧
    vs_HostPath (vol_Source v) = Some (path, "DirectoryOrCreate") ∧ cn_Name c = lmCacheNodeLocalShmCleanupName ∧
    cn_Image c = TrimSpace image ∧ cn_Command c = ["/node-local-shm-cleanup"] ∧ cn_Args c = [lmCacheNodeLocalShmCleanupPath] ∧
    cn_VolumeMounts c = [mkVolumeMount lmCacheNodeLocalShmVolumeName lmCacheNodeLocalShmCleanupPath "" "" false] ∧
    lp_MountPropagation pod = false.

(** Who the pod belongs to and where it runs. *)
Definition cleanupIdentity cb node (image : string) pod : Prop :=
  cb_UID cb ≠ "" ∧ TrimSpace node ≠ "" ∧ TrimSpace image ≠ "" ∧ p_Namespace (lp_Pod pod) = cb_Namespace cb ∧
  IsControlledBy pod cb = true ∧ IsNodeLocalCleanupPodName sha256 (cb_UID cb) node (p_Name (lp_Pod pod)) = true ∧
  lpLabel pod LabelLMCacheNodeLocalCleanup = "true" ∧ lpLabel pod LabelCacheBackendUID = cb_UID cb ∧
  lpAnnotation pod AnnotationNodeLocalOwnerUID = cb_UID cb ∧ lpAnnotation pod AnnotationNodeLocalTargetNode = node ∧
  (lp_NodeName pod = "" ∨ lp_NodeName pod = node) ∧ lp_Affinity pod = Some (exactNodeAffinity node) ∧
  lp_RestartPolicy pod = "Never" ∧ psp_InitContainers (p_Spec (lp_Pod pod)) = [] ∧ lp_EphemeralContainers pod = 0%nat ∧
  (lp_SchedulingGates pod = [] ∨ LMCacheNodeLocalCleanupIsGated pod = true).

Lemma cleanup_check_iff cb node image pod :
  IsLMCacheNodeLocalCleanupPod quoteRune sha256 pod cb node image = true ↔ cleanupIdentity cb node image pod ∧ cleanupBody cb image pod.
Proof.
  unfold IsLMCacheNodeLocalCleanupPod, cleanupIdentity.
  assert (match psp_Containers (p_Spec (lp_Pod pod)), psp_Volumes (p_Spec (lp_Pod pod)) with
    | [c], [v] => match NodeLocalServerShmHostPath quoteRune cb with
        | inl _ => false
        | inr wantPath =>
          bool_decide (vol_Name v = lmCacheNodeLocalShmVolumeName) &&
          bool_decide (vs_HostPath (vol_Source v) = Some (wantPath, "DirectoryOrCreate")) &&
          str_eqb (cn_Name c) lmCacheNodeLocalShmCleanupName && str_eqb (cn_Image c) (TrimSpace image) &&
          bool_decide (cn_Command c = ["/node-local-shm-cleanup"]) && bool_decide (cn_Args c = [lmCacheNodeLocalShmCleanupPath]) &&
          bool_decide (cn_VolumeMounts c = [mkVolumeMount lmCacheNodeLocalShmVolumeName lmCacheNodeLocalShmCleanupPath "" "" false]) &&
          negb (lp_MountPropagation pod)
        end
    | _, _ => false end = true ↔ cleanupBody cb image pod) as Hbody.
  { unfold cleanupBody. destruct (psp_Containers _) as [|c []], (psp_Volumes _) as [|v []]; try (split; [done|]; by intros (? & ? & ? & ? & ? & _)).
    destruct (NodeLocalServerShmHostPath quoteRune cb) as [|path]; [split; [done|]; by intros (? & ? & ? & _ & _ & ? & _)|].
    rewrite !andb_true_iff, !bool_decide_eq_true, negb_true_iff, !str_eqb_eq. split.
    - intros H. exists c, v, path. tauto.
    - intros (? & ? & ? & [= <-] & [= <-] & [= <-] & H). tauto. }
  rewrite !andb_true_iff, Hbody, !orb_true_iff, !negb_true_iff, !bool_decide_eq_true, !str_eqb_neq, !str_eqb_eq, Nat.eqb_eq. tauto.
Qed.

(** The controller recognises the cleanup pods it creates: a pod rendered for a node passes the
    full identity check for that node and is gated, and so does the pod rendered to retry a pod that
    passes the check, under whatever count it carries; so the next pass neither refuses nor deletes
    them.  The check covers namespace, owner, name, labels, annotations, placement, image, command and
    the single volume and mount. *)
Theorem cleanup_recognised cb (secrets : list string) node (image : string) (src p failed retry : LivePod) (n : Z) :
  (RenderLMCacheNodeLocalCleanupPod quoteRune sha256 cb secrets node image src = inr p →
   IsLMCacheNodeLocalCleanupPod quoteRune sha256 (owned cb p) cb node image = true ∧ LMCacheNodeLocalCleanupIsGated (owned cb p) = true ∧
   targetOf (owned cb p) = node) ∧
  (IsLMCacheNodeLocalCleanupPod quoteRune sha256 failed cb (targetOf failed) image = true →
   RenderLMCacheNodeLocalCleanupRetryPod sha256 cb failed = inr retry →
   let next := owned cb (withRetryCount n retry) in
   IsLMCacheNodeLocalCleanupPod quoteRune sha256 next cb (targetOf failed) image = true ∧ LMCacheNodeLocalCleanupIsGated next = true ∧
   targetOf next = targetOf failed).
Proof.
  split.
  - unfold RenderLMCacheNodeLocalCleanupPod. destruct (str_eqb (cb_UID cb) "") eqn:E1; [done|]. destruct (str_eqb (TrimSpace image) "") eqn:E2; [done|].
    destruct (str_eqb (TrimSpace node) "") eqn:E3; [done|]. cbn [orb]. apply str_eqb_neq in E1, E2, E3.
    destruct (NodeLocalServerShmHostPath quoteRune cb) as [|path] eqn:Ep; simpl; [done|].
    intros [= <-]. set (pod := mkLivePod _ _ _ _ _ _ _ _ _ _ _ _ _ _ _).
    assert (lpAnnotation (owned cb pod) AnnotationNodeLocalTargetNode = node) as Ht by literal_lookup.
    split; [|by split]. apply cleanup_check_iff. split.
    + split_and!; try done; [apply owned_controlled|apply base_name_recognised|literal_lookup..|by left|by right].
    + eexists _, _, path. by split_and!.
  - unfold RenderLMCacheNodeLocalCleanupRetryPod. intros [Hid Hb]%cleanup_check_iff. destruct (_ || _); [done|].
    destruct (str_eqb _ _); [done|]. intros [= <-]. cbv zeta. set (next := owned cb _).
    assert (∀ k, k ≠ nodeLocalShmCleanupRetryAnnotation → lpAnnotation next k = lpAnnotation failed k) as Ha.
    { intros k Hk. unfold lpAnnotation, strGet. simpl. by rewrite lookup_insert_ne. }
    split; [|by split; [|apply Ha]]. apply cleanup_check_iff. split; [|exact Hb].
    unfold cleanupIdentity in *. rewrite !Ha by done. destruct Hid as (? & ? & ? & ? & ? & ? & ? & ? & ? & ? & ? & ? & ? & ? & ? & ?).
    split_and!; try done; [apply owned_controlled|apply retry_name_recognised|by left|by right].
Qed.
End cleanups.
