(* ===== verification/BackendReconciler.v ===== *)
(** * The CacheBackend reconciler (controller/cachebackend_reconciler.go, cachebackend_dispatch.go,
      cachebackend_managed.go and the transition events of cachebackend_status.go)

    One reconcile of a backend: dispatch by mode and storage ownership, the refreshes that follow
    it, the requeue and the events.  The answers of the apiserver are inputs ([ReconcileInputs]);
    the writes to other objects are returned in order ([Write]).  The object a reconcile reads is
    the one the previous one left (no stale cache). *)

From S2P Require Import Prelude Ordering GoRuntime GoText GoNumbers K8s Auth ControlPlane IndexPoller CoreV1.
From S2P Require Import BackendApi Endpoints Adapters Renderer EngineWire LiveObjects ReadinessGate ProbeGate.
From S2P Require Import EngineHealth ConnectorHealth StatusPublish ManagedWorkload NodeLocalPods.
From S2P Require Import NodeLocalServers PodEvents.

Definition eventReasonBackendDegraded : string := "BackendDegraded".
Definition eventReasonBackendRecovered : string := "BackendRecovered".
Definition eventReasonFailClosedEnabled : string := "FailClosedEnabled".
Definition eventReasonFailOpenRestored : string := "FailOpenRestored".
Definition DefaultMatchedEnginePodsRequeueInterval : Duration := 30 * Second.
Definition DefaultMatchedEnginePodsChurnRequeueInterval : Duration := 5 * Second.

(** ** Transition events *)

Section events.
Context `{QO : QuantityOps} `{CO : ConditionOps}.
Implicit Types (cb : CacheBackend) (st : CacheBackendStatus).

Record conditionSnapshot := mkCondSnapshot {
  sn_present : bool;
  sn_status : string;
  sn_reason : string;
  sn_observedGeneration : Z
}.

#[export] Instance conditionSnapshot_eq_dec : EqDecision conditionSnapshot.
Proof. solve_decision. Defined.

Record stateSnapshot := mkSnapshotState {
  ss_ready : bool;
  ss_degraded : bool;
  ss_failOpen : bool;
  ss_readyReason : string;
  ss_firstEventLatched : bool;
  ss_connector : conditionSnapshot;
  ss_remoteStorage : conditionSnapshot
}.

Definition snapshotCondition st (typ : string) : conditionSnapshot :=
  match find st typ with
  | None => mkCondSnapshot false "" "" 0
  | Some c => mkCondSnapshot true (cd_Status c) (cd_Reason c) (cd_ObservedGeneration c)
  end.

Definition conditionIsTrue st (typ : string) : bool :=
  match find st typ with Some c => str_eqb (cd_Status c) ConditionTrue | None => false end.

Definition isReady st : bool := conditionIsTrue st conditionTypeReady.
Definition isDegraded st : bool := conditionIsTrue st conditionTypeDegraded.
Definition statusFailOpen (v : option bool) : bool := default true v.

Definition snapshotState st : stateSnapshot :=
  mkSnapshotState (isReady st) (isDegraded st) (statusFailOpen (st_FailOpen st)) (readyConditionReason st)
    (bool_decide (is_Some (st_FirstKVEventObservedAt st))) (snapshotCondition st conditionTypeConnectorReady)
    (snapshotCondition st conditionTypeRemoteStorageReady).

Definition degradedMessageOf st : string :=
  match find st conditionTypeReady with
  | Some c => if str_eqb (cd_Message c) "" then "backend workload not available" else cd_Message c
  | None => "backend workload not available"
  end.

Definition emitMPConditionTransition st (before after : conditionSnapshot) (typ : string) : list Event :=
  if negb (sn_present after) ||
     (sn_present before && str_eqb (sn_status before) (sn_status after) && str_eqb (sn_reason before) (sn_reason after) &&
      (sn_observedGeneration before =? sn_observedGeneration after))
  then []
  else match find st typ with
       | None => []
       | Some c => [mkEvent (if str_eqb (cd_Status c) ConditionTrue then EventTypeNormal else EventTypeWarning) (cd_Reason c) (cd_Message c)]
       end.

Definition emitTransitionEvents (recorder : bool) cb (before : stateSnapshot) st : list Event :=
  if negb recorder then []
  else
    let after := snapshotState st in
    let when (b : bool) e := if b then [e] else [] in
    emitMPConditionTransition st (ss_connector before) (ss_connector after) conditionTypeConnectorReady ++
    emitMPConditionTransition st (ss_remoteStorage before) (ss_remoteStorage after) conditionTypeRemoteStorageReady ++
    when (negb (ss_degraded before) && ss_degraded after && negb (str_eqb (ss_readyReason after) reasonNoKVEventsObserved))
      (mkEvent EventTypeWarning eventReasonBackendDegraded ("cache backend is degraded: " +:+ degradedMessageOf st)) ++
    when (ss_degraded before && ss_ready after && negb (str_eqb (ss_readyReason before) reasonNoKVEventsObserved))
      (mkEvent EventTypeNormal eventReasonBackendRecovered "cache backend recovered to Ready") ++
    when (negb (str_eqb (ss_readyReason before) reasonAwaitingFirstKVEvent) &&
          str_eqb (ss_readyReason after) reasonAwaitingFirstKVEvent)
      (mkEvent EventTypeNormal reasonAwaitingFirstKVEvent
         ((if IsEventsOnly (cb_Spec cb) then "events-only backend is wired but no KV events observed yet"
           else "cache-backend workload is Available but no KV events observed yet") +:+
          "; backend stays Ready=False/AwaitingFirstKVEvent until the first event (check that engine pods are attached and their --kv-events-config is healthy if none arrive)")) ++
    when (negb (ss_firstEventLatched before) && ss_firstEventLatched after)
      (mkEvent EventTypeNormal reasonKVEventsObserved "first KV event observed; backend is Ready") ++
    when (negb (str_eqb (ss_readyReason before) reasonNoKVEventsObserved) &&
          str_eqb (ss_readyReason after) reasonNoKVEventsObserved)
      (mkEvent EventTypeWarning reasonNoKVEventsObserved
         ("no KV events observed within " +:+ durationString (firstEventTimeout cb) +:+ " of " +:+
          (if IsEventsOnly (cb_Spec cb) then "the events-only backend being wired" else "the workload becoming Available") +:+
          "; no engine pods are attached, or the engine's KV-event publisher is mis-configured (--kv-events-config / ZMQ bind)")) ++
    when (ss_failOpen before && negb (ss_failOpen after))
      (mkEvent EventTypeWarning eventReasonFailClosedEnabled
         "fail-closed mode enabled — cache is now a serving dependency; engine requests will fail when the cache is unreachable") ++
    when (negb (ss_failOpen before) && ss_failOpen after)
      (mkEvent EventTypeNormal eventReasonFailOpenRestored
         "fail-open mode restored — cache is again an optimization, not a serving dependency").
End events.

(** ** Dispatch *)

Section reconcile.
Context `{QO : QuantityOps} `{CO : ConditionOps} `{KV : KValidation}.
Variables (quote quoteRune : string → string) (sha256 : string → string).
Variables (parseTime : string → option Time).
Implicit Types (cb : CacheBackend) (st : CacheBackendStatus).

Definition matchedEnginePodsRequeueInterval (r : Reconciler) : Duration :=
  if 0 <? rc_MatchedEnginePodsRequeueInterval r then rc_MatchedEnginePodsRequeueInterval r
  else DefaultMatchedEnginePodsRequeueInterval.

Definition matchedEnginePodsChurnRequeueInterval (r : Reconciler) : Duration :=
  if 0 <? rc_MatchedEnginePodsChurnRequeueInterval r then rc_MatchedEnginePodsChurnRequeueInterval r
  else DefaultMatchedEnginePodsChurnRequeueInterval.

(** What a reconcile sees: the status pass, the workload, the NodeLocal pods, and the two
    refreshes.  [ri_Workload] and [ri_Scheduling] are blocks of the spec that are only copied. *)
Record ReconcileInputs := mkReconcileInputs {
  ri_Status : StatusInputs;
  ri_Workload : option WorkloadFields;
  ri_Scheduling : option PodScheduling;
  ri_Cleanup : CleanupAnswers;                     (* the first cleanup of the pass *)
  ri_CleanupAgain : CleanupAnswers;                (* that of reconcileUnmanaged after it *)
  ri_ApplyDeployment : nat → Attempt DeploymentSpec;
  ri_ApplyService : nat → Attempt ServiceSpec;
  ri_GetDeployment : GetResult Deployment;
  ri_GetService : GetResult ServiceObject;
  ri_NodeLocalTop : NodeLocalAnswers;              (* shedding when not NodeLocal *)
  ri_NodeLocal : NodeLocalAnswers;
  ri_MatchedPods : ListResult LivePod;
  ri_MatchedDeployments : ListResult Deployment;
  ri_PatchMatched : bool;
  ri_ConnectorEngines : ListResult LivePod;
  ri_ConnectorServers : ListResult LivePod;
  ri_PatchConnector : bool
}.

(** A write to another object, as issued. *)
Inductive Write :=
  | DeleteDeployment
  | DeleteService
  | WriteDeployment (d : option DeploymentSpec)    (* [None]: found as desired *)
  | WriteService (s : option ServiceSpec)
  | PodWrite (c : PodCall).

Definition shedWrites (shed : bool * bool * bool) : list Write :=
  (if shed.1.1 then [DeleteDeployment] else []) ++ (if shed.1.2 then [DeleteService] else []).

Definition failWith st (limiter : probeRateLimiter) : Outcome := mkOutcome st limiter [] [] 0 true.

(** [if err := r.cleanupOwnedWorkload(...); err != nil { return err }]. *)
Definition afterCleanup cb (a : CleanupAnswers) st (limiter : probeRateLimiter) (k : list Write * Outcome) : list Write * Outcome :=
  let shed := cleanupOwnedWorkload cb a in
  if shed.2 then (shedWrites shed ++ k.1, k.2) else (shedWrites shed, failWith st limiter).

(** The same for a pass over the NodeLocal pods. *)
Definition afterPass {A : Type} (p : @Pass QO A) st (limiter : probeRateLimiter) (k : list Write * Outcome) : list Write * Outcome :=
  match p.2 with
  | Some _ => ((PodWrite <$> p.1) ++ k.1, k.2)
  | None => (PodWrite <$> p.1, failWith st limiter)
  end.

Definition unmanaged cb (a : CleanupAnswers) (inp : ReconcileInputs) st (limiter : probeRateLimiter) : list Write * Outcome :=
  let shed := cleanupOwnedWorkload cb a in
  (shedWrites shed, reconcileUnmanaged cb shed.2 (si_PatchOK (ri_Status inp)) st limiter).

Definition reconcileManaged (r : Reconciler) cb (rendered : RenderedStorage) (inp : ReconcileInputs) st (limiter : probeRateLimiter) :
    list Write * Outcome :=
  match rst_PodSpec rendered, rst_Service rendered with
  | Some podSpec, Some svcSpec =>
      let dep := applyDeployment cb (buildDeployment cb (ri_Workload inp) podSpec) (ri_ApplyDeployment inp) in
      let svc := match dep with
                 | Some _ => applyService cb (buildService cb svcSpec) (ri_ApplyService inp)
                 | None => None
                 end in
      let writes := match dep with Some d => [WriteDeployment d] | None => [] end ++
                    match svc with Some s => [WriteService s] | None => [] end in
      let applyOK := bool_decide (is_Some dep) && bool_decide (is_Some svc) in
      match ri_GetDeployment inp with
      | GetNotFound | GetErr => (writes, failWith st limiter)
      | GetOK live =>
          if negb (controlledBy (dp_Controller live) cb) then (writes, failWith st limiter)
          else
            match ri_GetService inp with
            | GetErr => (writes, failWith st limiter)
            | found =>
                let endpoint :=
                  match found with
                  | GetOK s => if controlledBy (so_Controller s) cb then serviceEndpoint (so_Name s) (so_Namespace s) (so_Ports s) else ""
                  | _ => ""
                  end in
                let o := updateManagedStatus quote r cb endpoint live applyOK (ri_Status inp) st limiter in
                let failed := negb applyOK || oc_Err o in
                (writes, mkOutcome (oc_Status o) (oc_Limiter o) (oc_Events o) (oc_Metrics o)
                   (if failed then 0 else minNonZero (oc_RequeueAfter o) (matchedEnginePodsRequeueInterval r)) failed)
            end
      end
  | _, _ => unmanaged cb (ri_Cleanup inp) inp st limiter
  end.

Definition nodeLocalServers (r : Reconciler) cb (hasFinalizer : bool) (binding : option Binding) (inp : ReconcileInputs) : Pass unit :=
  reconcileLMCacheNodeLocalServerPods quote quoteRune sha256 parseTime (ri_NodeLocal inp) (rc_NodeLocalShmCleanupImage r)
    (ri_Scheduling inp) cb hasFinalizer binding.

(** The endpoint of the Service a provider asks for. *)
Definition desiredEndpoint cb (svc : RenderedService) : string :=
  serviceEndpoint (cb_Name cb) (cb_Namespace cb) ((λ p : string * Z * string * string, p.1.1.2) <$> svc_Ports svc).

Definition dispatchManaged (r : Reconciler) (providers : list Provider) (adapter : KVCacheRuntimeAdapter) cb (hasFinalizer : bool)
    (storage : CacheBackendRemoteStorageSpec) (inp : ReconcileInputs) st (limiter : probeRateLimiter) : list Write * Outcome :=
  match SelectProvider quote providers (Some storage) with
  | inl _ => unmanaged cb (ri_Cleanup inp) inp st limiter
  | inr provider =>
      match pv_Render provider cb with
      | inl _ => ([], failWith st limiter)
      | inr rendered =>
          let endpoint := match rst_Service rendered with Some svc => desiredEndpoint cb svc | None => "" end in
          let binding := BindingFor (Some storage) (rst_Protocol rendered) endpoint in
          if negb (ad_SupportsBinding adapter binding) then unmanaged cb (ri_Cleanup inp) inp st limiter
          else afterPass (nodeLocalServers r cb hasFinalizer binding inp) st limiter (reconcileManaged r cb rendered inp st limiter)
      end
  end.

Definition dispatchExternal (r : Reconciler) (adapter : KVCacheRuntimeAdapter) cb (hasFinalizer : bool)
    (storage : CacheBackendRemoteStorageSpec) (inp : ReconcileInputs) st (limiter : probeRateLimiter) : list Write * Outcome :=
  match ProtocolFor quote (Some storage) with
  | inl _ => unmanaged cb (ri_Cleanup inp) inp st limiter
  | inr protocol =>
      let binding := BindingFor (Some storage) protocol (rs_Endpoint storage) in
      if negb (ad_SupportsBinding adapter binding) then unmanaged cb (ri_Cleanup inp) inp st limiter
      else afterCleanup cb (ri_Cleanup inp) st limiter
        (afterPass (nodeLocalServers r cb hasFinalizer binding inp) st limiter
           ([], reconcileExternal quote cb (si_Now (ri_Status inp)) (si_PatchOK (ri_Status inp)) st limiter))
  end.

Definition dispatchHostOnly (r : Reconciler) (adapter : KVCacheRuntimeAdapter) cb (hasFinalizer : bool) (inp : ReconcileInputs)
    st (limiter : probeRateLimiter) : list Write * Outcome :=
  afterCleanup cb (ri_Cleanup inp) st limiter
    (if negb (ad_SupportsBinding adapter None) || str_eqb (EffectiveCacheType (cb_Spec cb)) CacheBackendTypeSGLangHiCache
     then unmanaged cb (ri_CleanupAgain inp) inp st limiter
     else afterPass (nodeLocalServers r cb hasFinalizer None inp) st limiter
            ([], reconcileHostOnly quote r cb (ri_Status inp) st limiter)).

Definition dispatch (r : Reconciler) cb (hasFinalizer : bool) (inp : ReconcileInputs) st (limiter : probeRateLimiter) :
    list Write * Outcome :=
  match rc_Registry r, rc_BackendRegistry r with
  | Some registry, Some providers =>
      afterPass (if isTypedLMCacheNodeLocal cb then done_ tt
                 else cleanupLMCacheNodeLocalServerPods quoteRune sha256 (ri_NodeLocalTop inp) (rc_NodeLocalShmCleanupImage r)
                        (ri_Scheduling inp) cb) st limiter
        (match Select quote registry (ResolveRuntimeID cb) cb with
         | inl _ => unmanaged cb (ri_Cleanup inp) inp st limiter
         | inr adapter =>
             if IsEventsOnly (cb_Spec cb) then
               if negb (ad_SupportsBinding adapter None) then unmanaged cb (ri_Cleanup inp) inp st limiter
               else afterCleanup cb (ri_Cleanup inp) st limiter ([], reconcileEventsOnly quote r cb (ri_Status inp) st limiter)
             else
               match EffectiveRemoteStorage (cb_Spec cb) with
               | None => dispatchHostOnly r adapter cb hasFinalizer inp st limiter
               | Some storage =>
                   if str_eqb (rs_Ownership storage) OwnershipExternal then dispatchExternal r adapter cb hasFinalizer storage inp st limiter
                   else dispatchManaged r providers adapter cb hasFinalizer storage inp st limiter
               end
         end)
  | _, _ => ([], failWith st limiter)
  end.

(** ** Reconcile *)

(** The object as read: the backend, its status and the metadata the controller owns. *)
Record BackendObject := mkBackendObject {
  bo_Backend : CacheBackend;
  bo_Status : CacheBackendStatus;
  bo_Deleting : bool;
  bo_HasFinalizer : bool
}.

(** The answers of a finalization, and to the patches of the finalizer. *)
Record FinalizeInputs := mkFinalizeInputs {
  fi_AddFinalizer : bool;
  fi_Cleanup : CleanupAnswers;
  fi_Answers : NodeLocalAnswers * NodeLocalAnswers * NodeLocalAnswers;
  fi_RemoveFinalizer : bool
}.

(** What a reconcile leaves: the writes, the outcome, and whether the finalizer is set. *)
Record ReconcileOutcome := mkReconcileOutcome {
  ro_Writes : list Write;
  ro_Outcome : Outcome;
  ro_HasFinalizer : bool
}.

Definition requeueSooner (needs : bool) (cadence requeue : Duration) : Duration :=
  if needs && ((requeue =? 0) || (cadence <? requeue)) then cadence else requeue.

(** The part after the finalizer is settled. *)
Definition reconcileLive (r : Reconciler) cb (hasFinalizer : bool) (inp : ReconcileInputs) st (limiter : probeRateLimiter) :
    list Write * Outcome :=
  let before := snapshotState st in
  let '(writes, o) := dispatch r cb hasFinalizer inp st limiter in
  let '(st1, matchedEvents, churn) :=
    refreshMatchedEnginePods cb (rc_Recorder r) (ri_MatchedPods inp) (ri_MatchedDeployments inp) (ri_PatchMatched inp) (oc_Status o) in
  let st2 := refreshLMCacheMPConnectorStatus quoteRune cb (si_Now (ri_Status inp)) (ri_ConnectorEngines inp) (ri_ConnectorServers inp)
               (ri_PatchConnector inp) st1 in
  let needs := negb (bool_decide (matchLabels cb = ∅)) || bool_decide (is_Some (st_MatchedEnginePods st2)) in
  let cadence := if churn : bool then matchedEnginePodsChurnRequeueInterval r else matchedEnginePodsRequeueInterval r in
  (writes, mkOutcome st2 (oc_Limiter o) (oc_Events o ++ matchedEvents ++ emitTransitionEvents (rc_Recorder r) cb before st2)
             (oc_Metrics o) (requeueSooner needs cadence (oc_RequeueAfter o)) (oc_Err o)).

Definition Reconcile (r : Reconciler) (key : string) (got : GetResult BackendObject) (fin : FinalizeInputs) (inp : ReconcileInputs)
    (limiter : probeRateLimiter) : ReconcileOutcome :=
  match got with
  | GetNotFound => mkReconcileOutcome [] (mkOutcome emptyStatus (forget limiter key) [] [] 0 false) false
  | GetErr => mkReconcileOutcome [] (failWith emptyStatus limiter) false
  | GetOK obj =>
      let cb := bo_Backend obj in
      let st := bo_Status obj in
      if bo_Deleting obj then
        if bo_HasFinalizer obj then
          let shed := cleanupOwnedWorkload cb (fi_Cleanup fin) in
          let '(a1, a2, a3) := fi_Answers fin in
          let p := finalizeLMCacheNodeLocal quoteRune sha256 a1 a2 a3 (rc_NodeLocalShmCleanupImage r) (ri_Scheduling inp) cb shed.2
                     (fi_RemoveFinalizer fin) in
          let writes := shedWrites shed ++ (PodWrite <$> p.1) in
          match p.2 with
          | None => mkReconcileOutcome writes (failWith st limiter) true
          | Some (requeue, removed) => mkReconcileOutcome writes (mkOutcome st limiter [] [] requeue false) (negb removed)
          end
        else mkReconcileOutcome [] (mkOutcome st limiter [] [] 0 false) false
      else if isTypedLMCacheNodeLocal cb && negb (bo_HasFinalizer obj) && negb (fi_AddFinalizer fin) then
        mkReconcileOutcome [] (failWith st limiter) false
      else
        let hasFinalizer := isTypedLMCacheNodeLocal cb || bo_HasFinalizer obj in
        let '(writes, o) := reconcileLive r cb hasFinalizer inp st limiter in
        mkReconcileOutcome writes o hasFinalizer
  end.

(** ** The watch on pods *)

(** The backend the webhook stamped on an engine pod. *)
Definition injectedRequest (pod : LivePod) : list NamespacedName :=
  let ref := lpAnnotation pod AnnotationInjectedBy in
  if negb (validCacheBackendRef ref) || str_eqb (lpAnnotation pod AnnotationInjectedByUID) "" then []
  else match Cut "/" ref with Some nn => [nn] | None => [] end.

Definition cacheBackendRequestForPod (pod : LivePod) : list NamespacedName :=
  match lp_Controller pod with
  | Some o =>
      if str_eqb (or_Kind o) "CacheBackend" && str_eqb (or_APIVersion o) "inferencecache.io/v1alpha1"
      then [(p_Namespace (lp_Pod pod), or_Name o)]
      else injectedRequest pod
  | None => injectedRequest pod
  end.
End reconcile.
