(* ===== verification/StatusFacts.v ===== *)
(** * What the status writers change

    How each part of a status pass reads through [seen], and which fields it leaves alone. *)

From S2P Require Import Prelude Ordering GoRuntime GoText GoNumbers K8s ControlPlane IndexPoller CoreV1.
From S2P Require Import BackendApi Endpoints Adapters LiveObjects ReadinessGate ProbeGate EngineHealth.
From S2P Require Import ConnectorHealth StatusPublish.

Section facts.
Context `{QO : QuantityOps} `{CO : ConditionOps} {CL : ConditionLaws}.
Variable quote : string → string.
Implicit Types (cb : CacheBackend) (st : CacheBackendStatus) (t : string).

(** ** Fields other than the conditions *)

Lemma seen_same s s' t : st_Conditions s = st_Conditions s' → seen s t = seen s' t.
Proof. intros H. unfold seen, find. by rewrite H. Qed.

Lemma seen_set_Connector c s t : seen (set_Connector c s) t = seen s t.
Proof. done. Qed.
Lemma seen_set_RemoteStorage c s t : seen (set_RemoteStorage c s) t = seen s t.
Proof. done. Qed.
Lemma seen_set_Matched n m s t : seen (set_Matched n m s) t = seen s t.
Proof. done. Qed.
Lemma seen_set_FailOpen b s t : seen (set_FailOpen b s) t = seen s t.
Proof. done. Qed.
Lemma seen_set_ObservedGeneration g s t : seen (set_ObservedGeneration g s) t = seen s t.
Proof. done. Qed.
Lemma seen_set_FirstKVEventObservedAt x s t : seen (set_FirstKVEventObservedAt x s) t = seen s t.
Proof. done. Qed.
Lemma seen_set_FirstAvailableAt x s t : seen (set_FirstAvailableAt x s) t = seen s t.
Proof. done. Qed.
Lemma seen_set_IndexParticipation x s t : seen (set_IndexParticipation x s) t = seen s t.
Proof. done. Qed.
Lemma seen_storedStatus s t : seen (storedStatus s) t = seen s t.
Proof. done. Qed.
Lemma seen_latchFirstEvent s t : seen (latchFirstEvent s) t = seen s t.
Proof. unfold latchFirstEvent. destruct (st_FirstKVEventObservedAt s), (currentLastEventAt s); done. Qed.

Lemma seen_latchFirstAvailable now b s t : seen (latchFirstAvailable now b s) t = seen s t.
Proof. unfold latchFirstAvailable. destruct (st_FirstAvailableAt s), (str_eqb b ConditionTrue); done. Qed.
Lemma seen_anchorAvailability now c x s t : seen (anchorAvailability now c x s) t = seen s t.
Proof. unfold anchorAvailability. destruct (_ && _); [done|]. by destruct (_ && _). Qed.

(** ** The parts of a pass *)

Lemma seen_setVerdict_eq now typ v g s : seen (setVerdict now typ v g s) typ = Some (v, g).
Proof. destruct v as [[a b] c]. apply seen_set_eq. Qed.

Lemma seen_setVerdict_ne now typ v g s t : t ≠ typ → seen (setVerdict now typ v g s) t = seen s t.
Proof. destruct v as [[a b] c]. apply seen_set_ne. Qed.

Lemma seen_publishVerdict_eq now typ w v rm g s :
  seen (publishVerdict now typ w v rm g s) typ = if w then Some (v, g) else if rm then None else seen s typ.
Proof. unfold publishVerdict. destruct w; [apply seen_setVerdict_eq|]. destruct rm; [apply seen_remove_eq|done]. Qed.

Lemma seen_publishVerdict_ne now typ w v rm g s t : t ≠ typ → seen (publishVerdict now typ w v rm g s) t = seen s t.
Proof. intros. unfold publishVerdict. destruct w; [by apply seen_setVerdict_ne|]. destruct rm; [by apply seen_remove_ne|done]. Qed.

Lemma seen_publishReadiness_ready now gate g s :
  seen (publishReadiness now gate g s) conditionTypeReady = Some (readyStatus gate, readyReason gate, readyMessage gate, g).
Proof. unfold publishReadiness. rewrite seen_setVerdict_ne, seen_set_ne by done. apply seen_set_eq. Qed.

Lemma seen_publishReadiness_degraded now gate g s :
  seen (publishReadiness now gate g s) conditionTypeDegraded = Some (degradedStatus gate, degradedReason gate, degradedMessage gate, g).
Proof. unfold publishReadiness. rewrite seen_setVerdict_ne by done. apply seen_set_eq. Qed.

Lemma seen_publishReadiness_progressing now gate g s :
  seen (publishReadiness now gate g s) conditionTypeProgressing =
  Some (progressingFromReady (readyStatus gate) (readyReason gate) (readyMessage gate), g).
Proof. apply seen_setVerdict_eq. Qed.

Lemma seen_publishReadiness_ne now gate g s t :
  t ≠ conditionTypeReady → t ≠ conditionTypeDegraded → t ≠ conditionTypeProgressing →
  seen (publishReadiness now gate g s) t = seen s t.
Proof. intros. unfold publishReadiness. by rewrite seen_setVerdict_ne, !seen_set_ne. Qed.

Lemma seen_setRemoteStorageStatus_ne cb now e r re m g s t :
  t ≠ conditionTypeRemoteStorageReady → seen (setRemoteStorageStatus cb now e r re m g s) t = seen s t.
Proof.
  intros. unfold setRemoteStorageStatus.
  destruct (if isTypedLMCacheMP cb then _ else _); [by rewrite seen_set_ne|by rewrite seen_remove_ne].
Qed.

Lemma seen_setRemoteStorageStatus_eq cb now e r re m g s :
  seen (setRemoteStorageStatus cb now e r re m g s) conditionTypeRemoteStorageReady =
  if isTypedLMCacheMP cb then (λ _, (r, re, m, g)) <$> EffectiveRemoteStorage (cb_Spec cb) else None.
Proof.
  unfold setRemoteStorageStatus. destruct (isTypedLMCacheMP cb); [|by rewrite seen_remove_eq].
  destruct (EffectiveRemoteStorage _); simpl; [by rewrite seen_set_eq|by rewrite seen_remove_eq].
Qed.

Lemma seen_publishT2_ne now g s t : t ≠ conditionTypeT2Degraded → seen (publishT2 now g s) t = seen s t.
Proof.
  intros. unfold publishT2. destruct (_ ≫= _); [destruct (str_eqb _ _); by rewrite seen_set_ne|by rewrite seen_remove_ne].
Qed.

Lemma seen_publishEngineCompatibility_ne now d g s t :
  t ≠ conditionTypeEngineCompatibility → seen (publishEngineCompatibility now d g s) t = seen s t.
Proof.
  intros. unfold publishEngineCompatibility. destruct d as [m|]; [|done].
  destruct (str_eqb m ""); [by rewrite seen_remove_ne|by rewrite seen_set_ne].
Qed.

Lemma seen_removeConds types s t : seen (removeConds types s) t = if bool_decide (t ∈ types) then None else seen s t.
Proof.
  unfold removeConds. revert s. induction types as [|x types IH]; intros s; [done|]. cbn [foldl]. rewrite IH. case_bool_decide as H1; case_bool_decide as H2; [done|set_solver| |].
  - apply elem_of_cons in H2 as [->|?]; [apply seen_remove_eq|done].
  - apply seen_remove_ne. set_solver.
Qed.

(** ** The rest of the status *)

(** Everything but the conditions. *)
Definition rest st : CacheBackendStatus := set_Conditions [] st.

Lemma rest_setCond now typ a b c g s : rest (setCond now typ a b c g s) = rest s.
Proof. done. Qed.
Lemma rest_removeCond typ s : rest (removeCond typ s) = rest s.
Proof. done. Qed.
Lemma rest_setVerdict now typ v g s : rest (setVerdict now typ v g s) = rest s.
Proof. by destruct v as [[a b] c]. Qed.
Lemma rest_publishVerdict now typ w v rm g s : rest (publishVerdict now typ w v rm g s) = rest s.
Proof. unfold publishVerdict. destruct w; [apply rest_setVerdict|]. by destruct rm. Qed.
Lemma rest_publishReadiness now gate g s : rest (publishReadiness now gate g s) = rest s.
Proof. unfold publishReadiness. by rewrite rest_setVerdict, !rest_setCond. Qed.
Lemma rest_publishT2 now g s : rest (publishT2 now g s) = rest s.
Proof. unfold publishT2. destruct (_ ≫= _); [|done]. by destruct (str_eqb _ _). Qed.
Lemma rest_publishEngineCompatibility now d g s : rest (publishEngineCompatibility now d g s) = rest s.
Proof. unfold publishEngineCompatibility. destruct d as [m|]; [|done]. by destruct (str_eqb m ""). Qed.
Lemma rest_removeConds types s : rest (removeConds types s) = rest s.
Proof. unfold removeConds. revert s. induction types as [|x types IH]; intros s; [done|]. cbn [foldl]. by rewrite IH. Qed.
Lemma rest_setRemoteStorageStatus cb now e r re m g s :
  ∃ x, rest (setRemoteStorageStatus cb now e r re m g s) = rest (set_RemoteStorage x s).
Proof. unfold setRemoteStorageStatus. destruct (if isTypedLMCacheMP cb then _ else _); eauto. Qed.

(** Writers that look only at the rest. *)
Lemma rest_latchFirstEvent s : rest (latchFirstEvent s) = latchFirstEvent (rest s).
Proof. unfold latchFirstEvent, currentLastEventAt. simpl. by repeat case_match. Qed.
Lemma rest_latchFirstAvailable now b s : rest (latchFirstAvailable now b s) = latchFirstAvailable now b (rest s).
Proof. unfold latchFirstAvailable. simpl. by repeat case_match. Qed.
Lemma rest_anchorAvailability now c x s : rest (anchorAvailability now c x s) = anchorAvailability now c x (rest s).
Proof. unfold anchorAvailability. simpl. by repeat case_match. Qed.

(** ** Readers *)

Lemma find_seen s t : match find s t with Some c => seen s t = Some (cd_Status c, cd_Reason c, cd_Message c, cd_ObservedGeneration c) | None => seen s t = None end.
Proof. unfold seen. by destruct (find s t). Qed.

Lemma readyConditionReason_seen st : readyConditionReason st = match seen st conditionTypeReady with Some (_, r, _, _) => r | None => "" end.
Proof. unfold readyConditionReason, seen. by destruct (find st _). Qed.

Lemma find_Some_seen st t : bool_decide (is_Some (find st t)) = bool_decide (is_Some (seen st t)).
Proof. unfold seen. by destruct (find st t). Qed.

(** ** A status write *)

(** The mutation with the fail-open echo. *)
Definition echoed cb (mutate : CacheBackendStatus → CacheBackendStatus) st : CacheBackendStatus :=
  set_FailOpen (Some (IntegrationFailOpen (bs_Integration (cb_Spec cb)))) (mutate st).

(** Either the mutation is what the apiserver holds, up to the resolution of its times, or nothing
    changed. *)
Lemma patchStatus_cases cb ok mutate st :
  (patchStatus cb ok mutate st).2 = false ∧ (patchStatus cb ok mutate st).1 = st ∧ ok = false ∨
  (patchStatus cb ok mutate st).2 = true ∧
  ((patchStatus cb ok mutate st).1 = echoed cb mutate st ∧ echoed cb mutate st = st ∨
   (patchStatus cb ok mutate st).1 = storedStatus (echoed cb mutate st)).
Proof. unfold patchStatus, echoed. case_bool_decide; [right; auto|]. destruct ok; simpl; auto. Qed.

Lemma patchStatus_seen cb ok mutate st t :
  (patchStatus cb ok mutate st).2 = true → seen (patchStatus cb ok mutate st).1 t = seen (mutate st) t.
Proof. destruct (patchStatus_cases cb ok mutate st) as [(-> & _)|[_ [[-> _]| ->]]]; done. Qed.

Lemma patchStatus_ok cb mutate st : (patchStatus cb true mutate st).2 = true.
Proof. unfold patchStatus. by case_bool_decide. Qed.
End facts.

#[export] Hint Rewrite @seen_set_Connector @seen_set_RemoteStorage @seen_set_Matched @seen_set_FailOpen
  @seen_set_ObservedGeneration @seen_set_FirstKVEventObservedAt @seen_set_FirstAvailableAt @seen_set_IndexParticipation
  @seen_storedStatus @seen_latchFirstEvent @seen_latchFirstAvailable @seen_anchorAvailability : conditions.
#[export] Hint Rewrite @seen_setVerdict_eq @seen_publishVerdict_eq @seen_publishReadiness_ready @seen_publishReadiness_degraded
  @seen_publishReadiness_progressing @seen_setRemoteStorageStatus_eq using typeclasses eauto : conditions.
#[export] Hint Rewrite @seen_setVerdict_ne @seen_publishVerdict_ne @seen_setRemoteStorageStatus_ne @seen_publishT2_ne
  @seen_publishEngineCompatibility_ne @seen_publishReadiness_ne using first [done | typeclasses eauto] : conditions.

#[export] Hint Rewrite @rest_setCond @rest_removeCond @rest_setVerdict @rest_publishVerdict @rest_publishReadiness @rest_publishT2
  @rest_publishEngineCompatibility @rest_removeConds @rest_latchFirstEvent @rest_latchFirstAvailable @rest_anchorAvailability : conditions.

(** Reads a condition through the writes around it. *)
Ltac seen_simpl := autorewrite with conditions.

(** ** Whole passes *)

Section passes.
Context `{QO : QuantityOps} `{CO : ConditionOps} {CL : ConditionLaws}.
Variable quote : string → string.
Implicit Types (cb : CacheBackend) (st : CacheBackendStatus) (t : string).

Section managed.
Context cb (now : Time) (endpoint : string) (remote base : Verdict) (gate : kvReadiness) (probe : functionalProbeVerdict) (kernel : kernelHealthVerdict) (diagnosis : option string) (gen : Z) st.
Notation M := (mutateManaged cb now endpoint remote base gate probe kernel diagnosis gen st).

Lemma seen_managed_ready : seen M conditionTypeReady = Some (readyStatus gate, readyReason gate, readyMessage gate, gen).
Proof. unfold mutateManaged. destruct remote as [[a b] c]. by seen_simpl. Qed.

Lemma seen_managed_degraded : seen M conditionTypeDegraded = Some (degradedStatus gate, degradedReason gate, degradedMessage gate, gen).
Proof. unfold mutateManaged. destruct remote as [[a b] c]. by seen_simpl. Qed.

Lemma seen_managed_progressing :
  seen M conditionTypeProgressing = Some (progressingFromReady (readyStatus gate) (readyReason gate) (readyMessage gate), gen).
Proof. unfold mutateManaged. destruct remote as [[a b] c]. by seen_simpl. Qed.

Lemma seen_managed_probe :
  seen M conditionTypeFunctionalProbeOK =
  if fv_shouldWriteCondition probe then Some (fv_condition probe, gen)
  else if fv_removeCondition probe then None else seen st conditionTypeFunctionalProbeOK.
Proof. unfold mutateManaged. destruct remote as [[a b] c]. by seen_simpl. Qed.

Lemma seen_managed_kernel :
  seen M conditionTypeEngineKernelsHealthy =
  if kv_shouldWriteCondition kernel then Some (kv_condition kernel, gen)
  else if kv_removeCondition kernel then None else seen st conditionTypeEngineKernelsHealthy.
Proof. unfold mutateManaged. destruct remote as [[a b] c]. by seen_simpl. Qed.

Lemma seen_managed_connector : seen M conditionTypeConnectorReady = seen st conditionTypeConnectorReady.
Proof. unfold mutateManaged. destruct remote as [[a b] c]. by seen_simpl. Qed.

(** The first event observed so far. *)
Lemma managed_latch :
  st_FirstKVEventObservedAt M = match st_FirstKVEventObservedAt st with Some t => Some t | None => currentLastEventAt st end.
Proof.
  change (st_FirstKVEventObservedAt M) with (st_FirstKVEventObservedAt (rest M)).
  unfold mutateManaged. destruct remote as [[a b] c]. seen_simpl.
  change (rest (set_ObservedGeneration gen ?x)) with (set_ObservedGeneration gen (rest x)).
  destruct (rest_setRemoteStorageStatus cb now endpoint a b c gen st) as [x ->].
  unfold latchFirstAvailable, latchFirstEvent, currentLastEventAt. simpl. by repeat case_match; simplify_eq/=.
Qed.

(** The start of the first availability. *)
Lemma managed_anchor :
  st_FirstAvailableAt M =
  match st_FirstAvailableAt st with Some t => Some t | None => if str_eqb base.1.1 ConditionTrue then Some now else None end.
Proof.
  change (st_FirstAvailableAt M) with (st_FirstAvailableAt (rest M)).
  unfold mutateManaged. destruct remote as [[a b] c]. seen_simpl.
  change (rest (set_ObservedGeneration gen ?x)) with (set_ObservedGeneration gen (rest x)).
  destruct (rest_setRemoteStorageStatus cb now endpoint a b c gen st) as [x ->].
  unfold latchFirstAvailable, latchFirstEvent, currentLastEventAt. simpl. by repeat case_match; simplify_eq/=.
Qed.
End managed.
End passes.
