(* ===== verification/ReconcileTheorems.v ===== *)
(** * Runs of the CacheBackend reconciler

    What every reconcile keeps of a status, in every mode, and that the first KV event is latched
    and reported once. *)

From S2P Require Import Prelude Ordering GoRuntime GoText GoNumbers K8s Auth ControlPlane IndexPoller CoreV1.
From S2P Require Import BackendApi Endpoints Adapters Renderer EngineWire LiveObjects ReadinessGate ProbeGate.
From S2P Require Import EngineHealth ConnectorHealth StatusPublish ManagedWorkload NodeLocalPods.
From S2P Require Import NodeLocalServers PodEvents BackendReconciler StatusFacts.

Section frame.
Context `{QO : QuantityOps} `{CO : ConditionOps} {CL : ConditionLaws}.
Variables (quote quoteRune : string → string) (sha256 : string → string).
Variables (parseTime : string → option Time).
Implicit Types (cb : CacheBackend) (st : CacheBackendStatus) (limiter : probeRateLimiter).

(** ** What a status keeps *)

Definition latched st : bool := bool_decide (is_Some (st_FirstKVEventObservedAt st)).

(** The first event stays where it is, up to the resolution of stored times. *)
Definition keepsFirstEvent st st' : Prop :=
  ∀ t, st_FirstKVEventObservedAt st = Some t →
    st_FirstKVEventObservedAt st' = Some t ∨ st_FirstKVEventObservedAt st' = Some (storedTime t).

(** A condition stays, goes, or is written with a reason of its own. *)
Definition keepsReason (typ : string) st st' : Prop :=
  seen st' typ = seen st typ ∨ seen st' typ = None ∨ ∃ s r m g, seen st' typ = Some (s, r, m, g) ∧ r ≠ reasonKVEventsObserved.

Definition framed st st' : Prop :=
  keepsFirstEvent st st' ∧ keepsReason conditionTypeConnectorReady st st' ∧ keepsReason conditionTypeRemoteStorageReady st st'.

#[export] Instance framed_refl : Reflexive framed.
Proof. intros st. split_and!; [by left|by left|by left]. Qed.

#[export] Instance framed_trans : Transitive framed.
Proof.
  intros s1 s2 s3 (A1 & A2 & A3) (B1 & B2 & B3).
  assert (∀ typ, keepsReason typ s1 s2 → keepsReason typ s2 s3 → keepsReason typ s1 s3) as Hk.
  { unfold keepsReason. intros typ HA [->|[?|?]]; [done|right; by left|right; by right]. }
  split_and!; [|by eapply Hk..]. intros t Ht.
  destruct (A1 t Ht) as [H|H]; destruct (B1 _ H) as [H'|H']; auto. rewrite storedTime_idem in H'. auto.
Qed.

Lemma framed_seen st st' :
  st_FirstKVEventObservedAt st' = st_FirstKVEventObservedAt st → seen st' conditionTypeConnectorReady = seen st conditionTypeConnectorReady →
  seen st' conditionTypeRemoteStorageReady = seen st conditionTypeRemoteStorageReady → framed st st'.
Proof. intros H1 H2 H3. split_and!; [intros t Ht; left; congruence|by left|by left]. Qed.

Lemma framed_stored st : framed st (storedStatus st).
Proof. split_and!; [|by left|by left]. intros t Ht. right. simpl. by rewrite Ht. Qed.

Lemma framed_patch cb ok mutate st : framed st (mutate st) → framed st (patchStatus cb ok mutate st).1.
Proof.
  intros H. assert (framed st (echoed cb mutate st)) as He by (etrans; [exact H|by apply framed_seen]).
  destruct (patchStatus_cases cb ok mutate st) as [(_ & -> & _)|[_ [[-> _]| ->]]]; [done|done|]. etrans; [exact He|apply framed_stored].
Qed.

(** ** The writers *)

Lemma latchFirstEvent_keeps st : keepsFirstEvent st (latchFirstEvent st).
Proof. intros t Ht. unfold latchFirstEvent. rewrite Ht. by left. Qed.

Lemma framed_setRemote cb now e r re m g st : re ≠ reasonKVEventsObserved → framed st (setRemoteStorageStatus cb now e r re m g st).
Proof.
  intros Hre. split_and!.
  - intros t Ht. left. unfold setRemoteStorageStatus. destruct (if isTypedLMCacheMP cb then _ else _); by simpl.
  - left. by seen_simpl.
  - unfold keepsReason. rewrite seen_setRemoteStorageStatus_eq. destruct (isTypedLMCacheMP cb); [|by right; left].
    destruct (EffectiveRemoteStorage _); simpl; [|by right; left]. right. right. eauto 8.
Qed.

(** Whatever a later writer does to other conditions, given the rest. *)
Lemma framed_rest st st' st'' :
  framed st st' → st_FirstKVEventObservedAt st'' = st_FirstKVEventObservedAt st' →
  seen st'' conditionTypeConnectorReady = seen st' conditionTypeConnectorReady →
  seen st'' conditionTypeRemoteStorageReady = seen st' conditionTypeRemoteStorageReady → framed st st''.
Proof. intros H ???. etrans; [exact H|by apply framed_seen]. Qed.

Lemma framed_latch st : framed st (latchFirstEvent st).
Proof. split_and!; [apply latchFirstEvent_keeps|left; by seen_simpl..]. Qed.

Lemma first_of_rest st : st_FirstKVEventObservedAt st = st_FirstKVEventObservedAt (rest st).
Proof. done. Qed.
Lemma first_available now b st : st_FirstKVEventObservedAt (latchFirstAvailable now b st) = st_FirstKVEventObservedAt st.
Proof. unfold latchFirstAvailable. by destruct (st_FirstAvailableAt st), (str_eqb b ConditionTrue). Qed.
Lemma first_anchor now c x st : st_FirstKVEventObservedAt (anchorAvailability now c x st) = st_FirstKVEventObservedAt st.
Proof. unfold anchorAvailability. destruct (_ && _); [done|]. by destruct (_ && _). Qed.

(** The first event, read through writers of other things. *)
Ltac first_simpl := rewrite first_of_rest; seen_simpl; rewrite ?first_available, ?first_anchor, <-?rest_latchFirstEvent; done.

Lemma remoteVerdict_reason dep e : (remoteVerdict dep e).1.2 ≠ reasonKVEventsObserved.
Proof.
  unfold remoteVerdict. destruct (managedReadiness dep) as [[a b] c]. destruct (str_eqb b _); [done|]. destruct (str_eqb e ""); [done|].
  by destruct (str_eqb a _).
Qed.

Lemma framed_managed cb now e dep base gate pv kv d gen st :
  framed st (mutateManaged cb now e (remoteVerdict dep e) base gate pv kv d gen st).
Proof.
  unfold mutateManaged. pose proof (remoteVerdict_reason dep e) as Hr. destruct (remoteVerdict dep e) as [[a b] c]. simpl in Hr.
  set (s1 := setRemoteStorageStatus _ _ _ _ _ _ _ _).
  assert (framed st (latchFirstEvent (set_ObservedGeneration gen s1))) as H1.
  { etrans; [by apply (framed_setRemote cb now e a b c gen)|]. fold s1. etrans; [|apply framed_latch]. by apply framed_seen. }
  eapply framed_rest; [exact H1|..]; [|by seen_simpl..].
  first_simpl.
Qed.

Lemma framed_external cb now st : framed st (mutateExternal quote cb now st).
Proof.
  unfold mutateExternal. set (v := externalVerdict _ _ _). 
  assert ((if str_eqb v.1.1 ConditionTrue then (ConditionTrue, reasonRemoteStorageReady,
    "external remote-storage binding was accepted; reachability is owned by the operator") else v).1.2 ≠ reasonKVEventsObserved) as Hr.
  { subst v. unfold externalVerdict. destruct (str_eqb _ ""); [done|]. by destruct (ValidateExternalEndpoint _ _ _). }
  destruct (if str_eqb v.1.1 ConditionTrue then _ else v) as [[a b] c]. simpl in Hr.
  set (s1 := setRemoteStorageStatus _ _ _ _ _ _ _ _).
  assert (framed st s1) as H1 by (etrans; [|by apply framed_setRemote]; by apply framed_seen).
  destruct (if isTypedLMCacheMP cb then _ else _) as [[x y] z].
  eapply framed_rest; [exact H1|..]; [|rewrite seen_removeConds; by seen_simpl..].
  first_simpl.
Qed.

Lemma framed_serverless cb now base tr gate kv d st : framed st (mutateServerless cb now base tr gate kv d st).
Proof.
  unfold mutateServerless. set (s1 := if IsEventsOnly _ then removeCond conditionTypeRemoteStorageReady _ else _).
  assert (framed st s1) as H1.
  { subst s1. destruct (IsEventsOnly (cb_Spec cb)).
    - split_and!; [intros t Ht; by left|left; by seen_simpl|right; left; by seen_simpl].
    - etrans; [|by apply framed_setRemote]. by apply framed_seen. }
  assert (framed st (latchFirstEvent s1)) as H2 by (etrans; [exact H1|apply framed_latch]).
  eapply framed_rest; [exact H2|..]; [|destruct (IsEventsOnly (cb_Spec cb)); by seen_simpl..].
  destruct (IsEventsOnly (cb_Spec cb)); first_simpl.
Qed.

Lemma removed_managed typ st : typ ∈ managedConditions → seen (removeConds managedConditions st) typ = None.
Proof. intros H. by rewrite seen_removeConds, bool_decide_true. Qed.

Lemma first_removed types st : st_FirstKVEventObservedAt (removeConds types st) = st_FirstKVEventObservedAt st.
Proof. by rewrite first_of_rest, rest_removeConds. Qed.

Lemma framed_shed cb st :
  framed st (removeConds managedConditions (set_ObservedGeneration (cb_Generation cb) (set_RemoteStorage None (set_Connector None st)))).
Proof.
  split_and!.
  - intros t Ht. left. rewrite first_removed. exact Ht.
  - right. left. apply removed_managed. unfold managedConditions. rewrite !elem_of_cons. tauto.
  - right. left. apply removed_managed. unfold managedConditions. rewrite !elem_of_cons. tauto.
Qed.

Lemma framed_unavailable st st' : framed st st' → framed st (set_FirstAvailableAt None st').
Proof. intros H. etrans; [exact H|by apply framed_seen]. Qed.

Lemma framed_unmanaged cb st : framed st (mutateUnmanaged cb st).
Proof. apply framed_unavailable, framed_shed. Qed.

(** ** Dispatch *)

(** The outcome of a part of a reconcile: a framed status, and no event of the first KV event. *)
Definition framedOutcome st (o : Outcome) : Prop :=
  framed st (oc_Status o) ∧ Forall (λ e, evt_Reason e ≠ reasonKVEventsObserved) (oc_Events o).

Lemma framed_fail st limiter : framedOutcome st (failWith st limiter).
Proof. by split. Qed.

Lemma crashLoop_reason rec ok d st : Forall (λ e, evt_Reason e ≠ reasonKVEventsObserved) (crashLoopEvent rec ok d st).
Proof. unfold crashLoopEvent. destruct d; [|done]. destruct (_ && _ && _ && _); [|done]. by constructor. Qed.

Lemma framed_updateManaged r cb e dep ok inp st limiter : framedOutcome st (updateManagedStatus quote r cb e dep ok inp st limiter).
Proof. split; [apply framed_patch, framed_managed|apply crashLoop_reason]. Qed.

Lemma framed_reconcileExternal cb now ok st limiter : framedOutcome st (reconcileExternal quote cb now ok st limiter).
Proof. split; [apply framed_patch, framed_external|done]. Qed.

Lemma framed_reconcileServerless r cb reason msg inp st limiter : framedOutcome st (reconcileServerless quote r cb reason msg inp st limiter).
Proof. split; [apply framed_patch, framed_serverless|apply crashLoop_reason]. Qed.

Lemma framed_reconcileUnmanaged cb shed ok st limiter : framedOutcome st (reconcileUnmanaged cb shed ok st limiter).
Proof. unfold reconcileUnmanaged. destruct shed; [|by split]. split; [apply framed_patch, framed_unmanaged|done]. Qed.

Lemma framed_afterCleanup cb a st limiter k : framedOutcome st k.2 → framedOutcome st (afterCleanup cb a st limiter k).2.
Proof. intros H. unfold afterCleanup. by destruct (cleanupOwnedWorkload cb a).2. Qed.

Lemma framed_afterPass {A : Type} (p : @Pass QO A) st limiter k : framedOutcome st k.2 → framedOutcome st (afterPass p st limiter k).2.
Proof. intros H. unfold afterPass. by destruct p.2. Qed.

Lemma framed_reconcileManaged r cb rendered inp st limiter : framedOutcome st (reconcileManaged quote r cb rendered inp st limiter).2.
Proof.
  unfold reconcileManaged. destruct (rst_PodSpec rendered); [|apply framed_reconcileUnmanaged].
  destruct (rst_Service rendered); [|apply framed_reconcileUnmanaged].
  destruct (ri_GetDeployment inp) as [live| |]; [|apply framed_fail..]. destruct (negb _); [apply framed_fail|].
  destruct (ri_GetService inp); [|..|apply framed_fail]; cbn [snd]; apply framed_updateManaged.
Qed.

Lemma framed_dispatch r cb fin inp st limiter : framedOutcome st (dispatch quote quoteRune sha256 parseTime r cb fin inp st limiter).2.
Proof.
  pose proof (framed_reconcileUnmanaged cb) as Hu.
  unfold dispatch. destruct (rc_Registry r) as [registry|]; [|apply framed_fail]. destruct (rc_BackendRegistry r) as [providers|]; [|apply framed_fail].
  apply framed_afterPass. destruct (Select _ _ _ _) as [|adapter]; [apply Hu|].
  destruct (IsEventsOnly _).
  { destruct (negb _); [apply Hu|]. apply framed_afterCleanup, framed_reconcileServerless. }
  destruct (EffectiveRemoteStorage _) as [storage|].
  - destruct (str_eqb _ _).
    + unfold dispatchExternal. destruct (ProtocolFor _ _); [apply Hu|]. destruct (negb _); [apply Hu|].
      apply framed_afterCleanup, framed_afterPass, framed_reconcileExternal.
    + unfold dispatchManaged. destruct (SelectProvider _ _ _); [apply Hu|]. destruct (pv_Render _ _); [apply framed_fail|].
      destruct (negb _); [apply Hu|]. apply framed_afterPass, framed_reconcileManaged.
  - unfold dispatchHostOnly. apply framed_afterCleanup. destruct (_ || _); [apply Hu|]. apply framed_afterPass, framed_reconcileServerless.
Qed.

(** ** The refreshes *)

Lemma framed_matched cb rec pods deps ok st :
  let o := refreshMatchedEnginePods cb rec pods deps ok st in
  framed st o.1.1 ∧ Forall (λ e, evt_Reason e ≠ reasonKVEventsObserved) o.1.2.
Proof.
  unfold refreshMatchedEnginePods. destruct (matchedObservation _ _ _ _) as [[[[count msg] reliable] churn]|]; [|done].
  destruct (_ && _); [done|]. destruct (negb ok); [done|]. cbn [fst snd]. split; [by apply framed_seen|]. destruct (_ && _ && _ && _ && _); [|done]. by constructor.
Qed.

Lemma framed_write ok st st' : framed st st' → framed st (writeStatus ok st st').
Proof. intros H. unfold writeStatus. destruct (bool_decide _); [done|]. destruct ok; [|done]. etrans; [exact H|apply framed_stored]. Qed.

Lemma framed_publishConnector cb now c ok st : c.2.1.2 ≠ reasonKVEventsObserved → framed st (publishConnector cb now c ok st).
Proof.
  destruct c as [c [[s r] m]]. simpl. intros Hr. apply framed_write. split_and!.
  - intros t Ht. by left.
  - right. right. eexists _, _, _, _. split; [by seen_simpl|done].
  - left. by seen_simpl.
Qed.

Lemma podLocal_reason cb pods : (podLocalConnector cb pods).2.1.2 ≠ reasonKVEventsObserved.
Proof. unfold podLocalConnector. cbn [snd]. by repeat (destruct (_ =? _); cbn [negb andb fst snd]; try done). Qed.

Lemma nodeLocal_reason cb path w servers engines : (nodeLocalConnector cb path w servers engines).2.1.2 ≠ reasonKVEventsObserved.
Proof.
  unfold nodeLocalConnector. cbn [snd]. destruct (_ =? 0); [done|]. destruct (negb _); [done|]. destruct (_ =? 0); [done|].
  destruct (existsb _ (elements _)); [done|]. destruct (existsb _ _); [done|]. destruct (existsb _ _); [done|]. by destruct (_ && _ && _).
Qed.

Lemma framed_connector cb now engines servers ok st :
  framed st (refreshLMCacheMPConnectorStatus quoteRune cb now engines servers ok st).
Proof.
  unfold refreshLMCacheMPConnectorStatus. destruct (negb _).
  { destruct (_ && _); [done|]. destruct ok; [|done]. etrans; [|apply framed_stored].
    split_and!; [intros t Ht; by left|right; left; by seen_simpl|left; by seen_simpl]. }
  destruct (isTypedLMCacheNodeLocal cb).
  - unfold refreshLMCacheNodeLocalConnectorStatus. destruct (_ ≫= _) as [server|]; [|done]. destruct (selectedEngines cb engines); [|done].
    destruct (listIn _ _ _); [|done]. destruct (NodeLocalServerShmHostPath _ _); [done|]. apply framed_publishConnector, nodeLocal_reason.
  - destruct (selectedEngines cb engines); [|done]. apply framed_publishConnector, podLocal_reason.
Qed.

(** ** Events of the first KV event *)

Definition firstEventReports (events : list Event) : nat :=
  length (List.filter (λ e, str_eqb (evt_Reason e) reasonKVEventsObserved) events).

Lemma reports_app l l' : firstEventReports (l ++ l') = (firstEventReports l + firstEventReports l')%nat.
Proof. unfold firstEventReports. by rewrite List.filter_app, length_app. Qed.

Lemma reports_none l : Forall (λ e, evt_Reason e ≠ reasonKVEventsObserved) l → firstEventReports l = 0%nat.
Proof.
  unfold firstEventReports. induction 1 as [|e l He _ IH]; [done|]. cbn [List.filter]. by rewrite (proj2 (str_eqb_neq _ _) He).
Qed.

Lemma snapshotCondition_seen s s' typ : seen s typ = seen s' typ → snapshotCondition s typ = snapshotCondition s' typ.
Proof. unfold snapshotCondition, seen. destruct (find s typ), (find s' typ); simpl; [|done..]. intros [= -> -> _ ->]. done. Qed.

Lemma emitMP_none st st' typ : keepsReason typ st st' →
  firstEventReports (emitMPConditionTransition st' (snapshotCondition st typ) (snapshotCondition st' typ) typ) = 0%nat.
Proof.
  intros Hk. unfold emitMPConditionTransition. destruct Hk as [Hs|[Hn|(s & r & m & g & Hs & Hr)]].
  - rewrite (snapshotCondition_seen _ _ _ Hs). destruct (snapshotCondition st typ) as [[] a b c]; simpl; [|done].
    by rewrite !str_eqb_refl, Z.eqb_refl.
  - assert (find st' typ = None) as Hf by (unfold seen in Hn; by destruct (find st' typ)).
    assert (sn_present (snapshotCondition st' typ) = false) as -> by (unfold snapshotCondition; by rewrite Hf). done.
  - unfold seen in Hs. destruct (_ || _); [done|]. destruct (find st' typ) as [c|]; [|done]. simpl in Hs. simplify_eq.
    unfold firstEventReports. cbn [List.filter evt_Reason]. by rewrite (proj2 (str_eqb_neq _ _) Hr).
Qed.

Lemma reports_when (b : bool) e : evt_Reason e ≠ reasonKVEventsObserved → firstEventReports (if b then [e] else []) = 0%nat.
Proof. intros He. destruct b; [|done]. apply reports_none. by constructor. Qed.

Lemma emit_reports recorder cb st st' : framed st st' →
  (firstEventReports (emitTransitionEvents recorder cb (snapshotState st) st') ≤ if negb (latched st) && latched st' then 1 else 0)%nat.
Proof.
  intros (_ & Hc & Hr). unfold emitTransitionEvents. destruct recorder; cbn [negb]; [|apply Nat.le_0_l].
  rewrite !reports_app. cbn [ss_connector ss_remoteStorage snapshotState]. rewrite !emitMP_none by done.
  repeat match goal with |- context [firstEventReports (if ?b then [?e] else [])] => rewrite (reports_when b e) by done end.
  cbn [ss_firstEventLatched snapshotState]. fold (latched st) (latched st').
  destruct (negb (latched st) && latched st'); simpl; lia.
Qed.

(** ** Runs *)

(** One reconcile of a live backend: as read, and after what the poller wrote since the last one. *)
Record ReconcileStep := mkReconcileStep {
  rst_Backend : CacheBackend;
  rst_HasFinalizer : bool;
  rst_Inputs : ReconcileInputs;
  rst_Participation : option CacheBackendIndexParticipation
}.

Fixpoint reconcileRun (r : Reconciler) (steps : list ReconcileStep) st limiter : CacheBackendStatus * list Event :=
  match steps with
  | [] => (st, [])
  | p :: steps =>
      let o := (reconcileLive quote quoteRune sha256 parseTime r (rst_Backend p) (rst_HasFinalizer p) (rst_Inputs p)
                  (set_IndexParticipation (rst_Participation p) st) limiter).2 in
      let rest := reconcileRun r steps (oc_Status o) (oc_Limiter o) in
      (rest.1, oc_Events o ++ rest.2)
  end.

Lemma latched_mono st st' : keepsFirstEvent st st' → latched st = true → latched st' = true.
Proof.
  intros H. unfold latched. rewrite !bool_decide_eq_true. intros [t Ht]. destruct (H t Ht) as [->| ->]; eauto.
Qed.

Lemma reconcileLive_framed r cb fin inp st limiter :
  let o := (reconcileLive quote quoteRune sha256 parseTime r cb fin inp st limiter).2 in
  framed st (oc_Status o) ∧ (firstEventReports (oc_Events o) ≤ if negb (latched st) && latched (oc_Status o) then 1 else 0)%nat.
Proof.
  unfold reconcileLive. pose proof (framed_dispatch r cb fin inp st limiter) as [H1 E1].
  destruct (dispatch _ _ _ _ _ _ _ _ _ _) as [writes o]. cbn [snd] in H1, E1.
  pose proof (framed_matched cb (rc_Recorder r) (ri_MatchedPods inp) (ri_MatchedDeployments inp) (ri_PatchMatched inp) (oc_Status o)) as [H2 E2].
  destruct (refreshMatchedEnginePods _ _ _ _ _ _) as [[st1 ev] churn]. cbn [fst snd oc_Status oc_Events] in *.
  pose proof (framed_connector cb (si_Now (ri_Status inp)) (ri_ConnectorEngines inp) (ri_ConnectorServers inp) (ri_PatchConnector inp) st1) as H3.
  assert (framed st (refreshLMCacheMPConnectorStatus quoteRune cb (si_Now (ri_Status inp)) (ri_ConnectorEngines inp) (ri_ConnectorServers inp)
    (ri_PatchConnector inp) st1)) as H by (etrans; [exact H1|etrans; [exact H2|exact H3]]).
  split; [done|]. rewrite !reports_app, (reports_none _ E1), (reports_none _ E2). by apply emit_reports.
Qed.

(** C18: Over any run of reconciles of a backend, through any changes of its mode, spec, workload and
    pods and any failures of the apiserver, interleaved with the poller's writes: the observation of
    the first KV event is reported at most once, never again once it is recorded, and the recorded
    time never changes (times are recorded in whole seconds). *)
Theorem first_event_reported_once (r : Reconciler) (steps : list ReconcileStep) st limiter :
  let run := reconcileRun r steps st limiter in
  (firstEventReports run.2 ≤ if latched st then 0 else 1)%nat ∧
  ∀ t, st_FirstKVEventObservedAt st = Some t → storedTime t = t → st_FirstKVEventObservedAt run.1 = Some t.
Proof.
  cbv zeta. revert st limiter. induction steps as [|p steps IH]; intros st limiter; [split; [apply Nat.le_0_l|by intros ? ? ?]|].
  cbn [reconcileRun]. set (st0 := set_IndexParticipation (rst_Participation p) st).
  pose proof (reconcileLive_framed r (rst_Backend p) (rst_HasFinalizer p) (rst_Inputs p) st0 limiter) as [(Hf & _) He].
  set (o := (reconcileLive _ _ _ _ _ _ _ _ _ _).2) in *. destruct (IH (oc_Status o) (oc_Limiter o)) as [IH1 IH2].
  cbn [fst snd]. change (latched st0) with (latched st) in He. split.
  - rewrite reports_app. destruct (latched st) eqn:El; cbn [negb andb] in He.
    + rewrite (latched_mono _ _ Hf El) in IH1. lia.
    + destruct (latched (oc_Status o)); lia.
  - intros t Ht Hs. apply IH2; [|done]. destruct (Hf t Ht) as [->| ->]; by rewrite ?Hs.
Qed.
End frame.
