(* ===== verification/ConnectorTheorems.v ===== *)
(** * When the connector of a backend is Ready *)

From S2P Require Import Prelude Ordering GoRuntime GoText GoNumbers K8s ControlPlane IndexPoller CoreV1.
From S2P Require Import BackendApi Endpoints Adapters Renderer EngineWire LiveObjects ReadinessGate ProbeGate.
From S2P Require Import EngineHealth ConnectorHealth StatusPublish StatusFacts.

Section counts.
Context {A : Type}.
Implicit Types (p : A → bool) (l : list A).

Lemma filter_length p l : (length (List.filter p l) ≤ length l)%nat.
Proof. induction l as [|a l IH]; simpl; [done|]. destruct (p a); simpl; lia. Qed.

Lemma elem_filter p l a : a ∈ List.filter p l ↔ a ∈ l ∧ p a = true.
Proof. by rewrite !list_elem_of_In, List.filter_In. Qed.

Lemma filter_length_all p l : length (List.filter p l) = length l ↔ ∀ a, a ∈ l → p a = true.
Proof.
  induction l as [|a l IH]; simpl; [split; [by intros _ a ?%elem_of_nil|done]|].
  pose proof (filter_length p l). destruct (p a) eqn:E; simpl.
  - rewrite Nat.succ_inj_wd, IH. setoid_rewrite elem_of_cons. split; [intros H' b [->|?]; auto|auto].
  - split; [lia|]. intros H'. rewrite (H' a) in E; [done|by apply elem_of_cons; left].
Qed.

(** With fewer elements than an int32 counts, counters are exact. *)
Lemma count32_exact p l : Z.of_nat (length l) < 2 ^ 31 → count32 p l = Z.of_nat (length (List.filter p l)).
Proof. intros H. unfold count32. pose proof (filter_length p l). apply wrap32_id. unfold is_int32. lia. Qed.

Lemma count32_all p l : Z.of_nat (length l) < 2 ^ 31 → (count32 p l =? Z.of_nat (length l)) = true ↔ ∀ a, a ∈ l → p a = true.
Proof. intros H. rewrite count32_exact, Z.eqb_eq, Nat2Z.inj_iff by done. apply filter_length_all. Qed.

Lemma count32_true l : Z.of_nat (length l) < 2 ^ 31 → count32 (λ _, true) l = Z.of_nat (length l).
Proof. intros H. rewrite count32_exact by done. f_equal. by apply filter_length_all. Qed.

Lemma existsb_false p l : existsb p l = false ↔ ∀ a, a ∈ l → p a = false.
Proof.
  induction l as [|a l IH]; simpl; [split; [by intros _ a ?%elem_of_nil|done]|].
  rewrite orb_false_iff, IH. setoid_rewrite elem_of_cons. split; [intros [? ?] b [->|?]; auto|auto].
Qed.
End counts.

Lemma size_nodes_le (l : list string) : (size (list_to_set l : gset string) ≤ length l)%nat.
Proof.
  induction l as [|a l IH]; [done|]. cbn [length].
  assert (size ({[a]} ∪ list_to_set l : gset string) ≤ 1 + size (list_to_set l : gset string))%nat; [|rewrite list_to_set_cons; lia].
  rewrite size_union_alt, size_singleton.
  assert (list_to_set l ∖ {[a]} ⊆ (list_to_set l : gset string)) as Hsub%subseteq_size by set_solver. lia.
Qed.

Section connector.
Context `{QO : QuantityOps} `{CO : ConditionOps} {CL : ConditionLaws}.
Variable quoteRune : string → string.
Implicit Types (cb : CacheBackend) (st : CacheBackendStatus) (pod : LivePod) (pods : list LivePod).

Lemma podLocal_ready cb pods :
  Z.of_nat (length pods) < 2 ^ 31 →
  (podLocalConnector cb pods).2.1.1 = ConditionTrue ↔
  List.filter activePod pods ≠ [] ∧
  ∀ p, p ∈ List.filter activePod pods → injectedNow cb p = true ∧ sidecarReady cb p = true ∧ podReady p = true.
Proof.
  intros Hlen. pose proof (filter_length activePod pods) as Hle. unfold podLocalConnector. cbn [snd].
  set (active := List.filter activePod pods) in *. assert (Z.of_nat (length active) < 2 ^ 31) as Hact by lia.
  pose proof (count32_all (injectedNow cb) active Hact) as Hv. pose proof (count32_all (sidecarReady cb) active Hact) as Hs.
  pose proof (count32_all (λ p, sidecarReady cb p && podReady p) active Hact) as Hr.
  rewrite !count32_true by done. destruct (Z.of_nat (length active) =? 0) eqn:E0.
  { apply Z.eqb_eq in E0. split; [done|]. intros [Hne _]. destruct active; [done|simpl in E0; lia]. }
  assert (active ≠ []) as Hne by (intros ->; simpl in E0; lia).
  destruct (count32 (injectedNow cb) active =? _) eqn:Ev; cbn [negb]; last first.
  { split; [done|]. intros [_ H]. assert (false = true) as ?; [|done]. apply Hv. intros a Ha. by apply H. }
  destruct (count32 (sidecarReady cb) active =? _) eqn:Es; cbn [andb]; last first.
  { split; [done|]. intros [_ H]. assert (false = true) as ?; [|done]. apply Hs. intros a Ha. by apply H. }
  destruct (count32 (λ p, sidecarReady cb p && podReady p) active =? _) eqn:Er; last first.
  { split; [done|]. intros [_ H]. assert (false = true) as ?; [|done]. apply Hr. intros a Ha. destruct (H a Ha) as (_ & -> & ->). done. }
  split; [|done]. intros _. split; [done|]. intros p Hp. split_and!; [by apply Hv|by apply Hs|].
  pose proof (proj1 Hr eq_refl p Hp) as [_ ?]%andb_true_iff. done.
Qed.

(** ** NodeLocal *)

Section nodeLocal.
Context cb (path : string) (workers : Z) (servers engines : list LivePod).
Notation active := (activeEngines engines).
Notation ready := (readyByNode cb path servers).

(** The node has one healthy current server and no conflict on its ports, and no more engines of this
    backend than the server has workers. *)
Definition nodeServed (node : string) : Prop :=
  node ≠ "" ∧ ready node = 1 ∧ conflictByNode cb path servers node = false ∧
  0 < engineCountByNode cb engines node ≤ workers.

Lemma injectedNow_by p : injectedNow cb p = true → injectedBy cb p = true.
Proof. unfold injectedNow. by intros [? _]%andb_true_iff. Qed.

Lemma desiredNodes_spec node :
  node ∈ desiredNodes cb engines ↔ ∃ p, p ∈ active ∧ injectedBy cb p = true ∧ lp_NodeName p = node ∧ node ≠ "".
Proof.
  assert (∀ p, ownedScheduled cb p = true ↔ injectedBy cb p = true ∧ lp_NodeName p ≠ "") as Ho.
  { intros p. unfold ownedScheduled. by rewrite andb_true_iff, negb_true_iff, str_eqb_neq. }
  unfold desiredNodes. rewrite elem_of_list_to_set, list_elem_of_fmap. split.
  - intros (p & -> & [Hp [Hi Hn]%Ho]%elem_filter). exists p. tauto.
  - intros (p & Hp & Hi & <- & Hn). exists p. split; [done|]. apply elem_filter. split; [done|]. by apply Ho.
Qed.

Lemma withinWorkers_spec node :
  withinWorkers cb workers engines node = true ↔ node ≠ "" ∧ 0 < engineCountByNode cb engines node ≤ workers.
Proof. unfold withinWorkers. rewrite !andb_true_iff, negb_true_iff, str_eqb_neq, Z.ltb_lt, Z.leb_le. tauto. Qed.

Lemma desired_small : Z.of_nat (length engines) < 2 ^ 31 → Z.of_nat (size (desiredNodes cb engines)) < 2 ^ 31.
Proof.
  intros H. unfold desiredNodes. pose proof (size_nodes_le (lp_NodeName <$> List.filter (ownedScheduled cb) active)) as Hs.
  rewrite length_fmap in Hs. pose proof (filter_length (ownedScheduled cb) active). pose proof (filter_length activePod engines). unfold activeEngines in *. lia.
Qed.

Lemma covered_spec p : isCovered cb path workers servers engines p = true ↔
  injectedNow cb p = true ∧ withinWorkers cb workers engines (lp_NodeName p) = true ∧ ready (lp_NodeName p) = 1.
Proof. unfold isCovered. rewrite !andb_true_iff, Z.eqb_eq. tauto. Qed.

Hypothesis few_engines : Z.of_nat (length engines) < 2 ^ 31.
Notation nactive := (Z.of_nat (length active)).
Notation nnodes := (Z.of_nat (size (desiredNodes cb engines))).
Notation allServed := (active ≠ [] ∧ ∀ p, p ∈ active → injectedNow cb p = true ∧ podReady p = true ∧ nodeServed (lp_NodeName p)).

Lemma active_small : nactive < 2 ^ 31.
Proof. pose proof (filter_length activePod engines) as Hle. fold (activeEngines engines) in Hle. lia. Qed.

Lemma served_engines : allServed →
  (∀ p, p ∈ active → isCovered cb path workers servers engines p = true) ∧
  (∀ node, node ∈ desiredNodes cb engines → nodeServed node) ∧ nnodes ≠ 0 ∧ nactive ≠ 0.
Proof.
  intros [Hne Hall]. assert (∃ p, p ∈ active) as [p Hp] by (destruct active as [|p l]; [done|exists p; by apply elem_of_cons; left]).
  split_and!.
  - intros q Hq. destruct (Hall q Hq) as (Hi & _ & Hn & Hone & _ & Hw). apply covered_spec. split_and!; [done| |done]. by apply withinWorkers_spec.
  - intros node (q & Hq & _ & <- & _)%desiredNodes_spec. by apply Hall.
  - intros H0. assert (desiredNodes cb engines ≡ ∅) as He by (apply size_empty_iff; lia).
    apply (not_elem_of_empty (C := gset string) (lp_NodeName p)). rewrite <-He. apply desiredNodes_spec. exists p.
    destruct (Hall p Hp) as (Hi & _ & Hn & _). split_and!; [done|by apply injectedNow_by|done|done].
  - intros H0. destruct active; [by apply elem_of_nil in Hp|simpl in H0; lia].
Qed.

Lemma nodeLocal_ready : (nodeLocalConnector cb path workers servers engines).2.1.1 = ConditionTrue ↔ allServed.
Proof.
  pose proof active_small as Hact. pose proof (desired_small few_engines) as Hdes.
  unfold nodeLocalConnector. cbn [snd]. rewrite !(wrap32_id (Z.of_nat _)) by (unfold is_int32; lia). split.
  - destruct (nactive =? 0) eqn:E0; [done|]. destruct (count32 (injectedNow cb) active =? nactive) eqn:Ev; [|done]. cbn [negb].
    destruct (nnodes =? 0); [done|]. destruct (existsb (conflictByNode cb path servers) _) eqn:Ec; [done|].
    destruct (existsb (overCapacity cb workers engines) active); [done|]. destruct (existsb (ambiguous _ _ _ _ _) active); [done|].
    destruct (_ =? nnodes); [|done]. destruct (count32 (isCovered cb path workers servers engines) active =? nactive); [|done]. cbn [andb].
    destruct (count32 (λ p, isCovered cb path workers servers engines p && podReady p) active =? nactive) eqn:Er; [|done]. intros _. split.
    + intros He. apply Z.eqb_neq in E0. apply E0. by rewrite He.
    + intros p Hp. apply (proj1 (count32_all _ active Hact)) with p in Er; [|done]. cbn beta in Er. apply andb_true_iff in Er as [Hcv Hrd].
      apply covered_spec in Hcv as (Hi & Hw & Hone). apply withinWorkers_spec in Hw as [Hn Hw]. split_and!; [done|done|]. split_and!; [done|done| |lia..].
      apply (proj1 (existsb_false _ _) Ec). apply elem_of_elements, desiredNodes_spec. exists p. split_and!; [done|by apply injectedNow_by|done|done].
  - intros Hall. destruct (served_engines Hall) as (Hcov & Hnode & Hn0 & Ha0). destruct Hall as [_ Hall].
    rewrite (proj2 (Z.eqb_neq _ _) Ha0), (proj2 (Z.eqb_neq _ _) Hn0), (proj2 (count32_all (injectedNow cb) active Hact)) by (intros q Hq; by apply Hall).
    rewrite (proj2 (existsb_false (conflictByNode cb path servers) _)) by (intros node Hn%elem_of_elements; by apply Hnode).
    rewrite (proj2 (existsb_false (overCapacity cb workers engines) _)), (proj2 (existsb_false (ambiguous cb path workers servers engines) _)).
    + rewrite (proj2 (count32_all _ (elements (desiredNodes cb engines)) Hdes)) by (intros node Hn%elem_of_elements; apply Z.eqb_eq; by apply Hnode).
      rewrite (proj2 (count32_all (isCovered cb path workers servers engines) active Hact)) by done.
      rewrite (proj2 (count32_all _ active Hact)); [done|]. intros q Hq. rewrite (Hcov q Hq). by apply Hall.
    + intros q Hq. unfold ambiguous. rewrite (proj2 (proj2 (proj1 (covered_spec q) (Hcov q Hq)))). by rewrite andb_false_r.
    + intros q Hq. unfold overCapacity. rewrite (proj1 (proj2 (proj1 (covered_spec q) (Hcov q Hq)))). by rewrite andb_false_r.
Qed.
End nodeLocal.

Definition connectorReady st : Prop := ∃ r m g, seen st conditionTypeConnectorReady = Some (ConditionTrue, r, m, g).

Lemma writeStatus_seen st st' t : seen (writeStatus true st st') t = seen st' t.
Proof. unfold writeStatus. by case_bool_decide. Qed.

Lemma publishConnector_ready cb now c st : connectorReady (publishConnector cb now c true st) ↔ c.2.1.1 = ConditionTrue.
Proof.
  unfold connectorReady, publishConnector. destruct c as [c [[s r] m]]. rewrite writeStatus_seen. seen_simpl. simpl. split.
  - by intros (? & ? & ? & [= -> _ _]).
  - intros ->. eauto.
Qed.

(** C24: For the typed LMCache connector, a refresh that lists the engine pods publishes
    ConnectorReady=True exactly when there is an active selected engine pod and every one of them:
    carries the injection record of this backend, UID and generation; and, PodLocal, has its native
    sidecar running and Ready and is Ready itself; or, NodeLocal, is Ready itself on a node with
    exactly one healthy server of this backend, generation and profile, no port conflict, and no more
    engines of this backend than the server has GPU workers.  (Fewer than 2^31 pods: the counters are
    int32.) *)
Theorem connector_ready_exact cb (now : Time) (engineAnswer serverAnswer : ListResult LivePod) st (engines servers : list LivePod) :
  let st' := refreshLMCacheMPConnectorStatus quoteRune cb now engineAnswer serverAnswer true st in
  let active := activeEngines engines in
  selectedEngines cb engineAnswer = Some engines → Z.of_nat (length engines) < 2 ^ 31 →
  (isTypedLMCachePodLocal cb = true → isTypedLMCacheNodeLocal cb = false →
   connectorReady st' ↔ active ≠ [] ∧ ∀ p, p ∈ active → injectedNow cb p = true ∧ sidecarReady cb p = true ∧ podReady p = true) ∧
  (isTypedLMCacheNodeLocal cb = true → Z.of_nat (length servers) < 2 ^ 31 →
   ∀ server path, (l ← bs_LMCache (cb_Spec cb); n ← lm_NodeLocal l; nl_Server n) = Some server →
   NodeLocalServerShmHostPath quoteRune cb = inr path → listIn serverAnswer (cb_Namespace cb) (nodeLocalServerLabels cb) = Some servers →
   connectorReady st' ↔ active ≠ [] ∧ ∀ p, p ∈ active →
     let node := lp_NodeName p in
     injectedNow cb p = true ∧ podReady p = true ∧ node ≠ "" ∧
     length (List.filter (serverReadyOn node) (currentServers cb path servers)) = 1%nat ∧
     conflictByNode cb path servers node = false ∧
     0 < engineCountByNode cb engines node ≤ nls_MaxGPUWorkers server).
Proof.
  cbv zeta. intros Hsel Hlen. unfold refreshLMCacheMPConnectorStatus, isTypedLMCacheMP. split.
  - intros Hp Hn. rewrite Hp, Hn, Hsel. cbn [orb negb]. rewrite publishConnector_ready. by apply podLocal_ready.
  - intros Hn Hs server path Hserver Hpath Hlist. rewrite Hn, orb_true_r. cbn [negb]. unfold refreshLMCacheNodeLocalConnectorStatus.
    rewrite Hserver, Hsel, Hlist, Hpath, publishConnector_ready, nodeLocal_ready by done.
    assert (∀ node, readyByNode cb path servers node = 1 ↔ length (List.filter (serverReadyOn node) (currentServers cb path servers)) = 1%nat) as Hone.
    { intros node. unfold readyByNode. pose proof (filter_length (currentServer cb path) servers). unfold currentServers in *.
      rewrite count32_exact by lia. lia. }
    unfold nodeServed. setoid_rewrite Hone. done.
Qed.
End connector.
