(* ===== verification/ReadinessTheorems.v ===== *)
(** * Readiness of a managed backend

    When Ready is published, how a failed probe holds it down, how far apart probes are, and when a
    backend without KV events is reported Degraded. *)

From S2P Require Import Prelude Ordering GoRuntime GoText GoNumbers K8s ControlPlane IndexPoller Probe CoreV1.
From S2P Require Import BackendApi Endpoints Adapters LiveObjects ReadinessGate ProbeGate EngineHealth.
From S2P Require Import ConnectorHealth StatusPublish StatusFacts.

(** ** The kernel check *)

Section kernels.
Context `{QO : QuantityOps} `{CO : ConditionOps}.

(** The engine pod is held in Init by a failed check. *)
Definition strictFailure (p : LivePod) : Prop :=
  kernelCheckInSpec p = true ∧ kernelCheckAdmittedStrict p = true ∧ ∃ msg, kernelOutcome p = KernelFailed msg.

Lemma kernelTally_strict pods t :
  kt_strictFail (foldl kernelStep t pods) = true ↔ kt_strictFail t = true ∨ ∃ p, p ∈ pods ∧ strictFailure p.
Proof.
  revert t. induction pods as [|p pods IH]; intros t; simpl.
  { split; [auto|]. intros [?|(p & Hp & _)]; [done|by apply elem_of_nil in Hp]. }
  rewrite IH.
  assert (kt_strictFail (kernelStep t p) = true ↔ kt_strictFail t = true ∨ strictFailure p) as ->.
  { unfold kernelStep, strictFailure. destruct (kernelCheckInSpec p); simpl; [|naive_solver].
    destruct (kernelOutcome p); simpl; rewrite ?orb_true_iff; naive_solver. }
  setoid_rewrite elem_of_cons. naive_solver.
Qed.

Lemma kernelTally_failed pods t :
  0 ≤ kt_nFail t → 0 < kt_nFail (foldl kernelStep t pods) ↔
  0 < kt_nFail t ∨ ∃ p, p ∈ pods ∧ kernelCheckInSpec p = true ∧ ∃ msg, kernelOutcome p = KernelFailed msg.
Proof.
  revert t. induction pods as [|p pods IH]; intros t Ht; simpl.
  { split; [auto|]. intros [?|(p & Hp & _)]; [done|by apply elem_of_nil in Hp]. }
  assert (0 ≤ kt_nFail (kernelStep t p) ∧ (0 < kt_nFail (kernelStep t p) ↔
    0 < kt_nFail t ∨ kernelCheckInSpec p = true ∧ ∃ msg, kernelOutcome p = KernelFailed msg)) as [H0 H1].
  { unfold kernelStep. destruct (kernelCheckInSpec p); simpl; [|naive_solver].
    destruct (kernelOutcome p); simpl; split; try lia; naive_solver lia. }
  rewrite IH by done. rewrite H1. setoid_rewrite elem_of_cons. naive_solver.
Qed.

Lemma kernelTally_seen pods t p : p ∈ pods → kernelCheckInSpec p = true → kt_seen (foldl kernelStep t pods) = true.
Proof.
  revert t. induction pods as [|q pods IH]; intros t; simpl; [by intros ?%elem_of_nil|].
  intros [->|Hin]%elem_of_cons Hp; [|by apply IH].
  assert (kt_seen (kernelStep t q) = true) as Hs by (unfold kernelStep; rewrite Hp; by destruct (kernelOutcome q)).
  clear Hp IH. revert Hs. generalize (kernelStep t q). induction pods as [|q' pods IH]; intros t' Ht; simpl; [done|].
  apply IH. unfold kernelStep. destruct (kernelCheckInSpec q'); [|done]. by destruct (kernelOutcome q').
Qed.

(** Ready is held down exactly when a pod admitted in strict mode failed. *)
Lemma kernel_downgrade_iff st pods ok :
  kv_downgradeReady (evaluateEngineKernelHealth st pods ok) = true ↔ ok = true ∧ ∃ p, p ∈ pods ∧ strictFailure p.
Proof.
  unfold evaluateEngineKernelHealth. destruct ok; simpl; [|naive_solver].
  unfold aggregateKernelHealth, kernelTally. set (t0 := mkTally _ _ _ _ _ _ _ _).
  pose proof (kernelTally_strict pods t0) as Hs. pose proof (kernelTally_failed pods t0 (Z.le_refl 0)) as Hf.
  pose proof (λ p, kernelTally_seen pods t0 p) as Hseen. destruct (kt_seen (foldl kernelStep t0 pods)) eqn:Es; simpl; last first.
  { split; [by case_bool_decide|]. intros (_ & p & Hp & Hi & _). by pose proof (Hseen p Hp Hi). }
  destruct (0 <? kt_nFail (foldl kernelStep t0 pods)) eqn:En.
  - cbn [fst snd]. change (str_eqb ConditionFalse ConditionFalse) with true.
    destruct (kt_strictFail (foldl kernelStep t0 pods)); simpl in *; naive_solver.
  - assert (¬ ∃ p, p ∈ pods ∧ strictFailure p) as Hno.
    { intros (p & Hp & Hi & _ & Hm). apply Z.ltb_ge in En. enough (0 < kt_nFail (foldl kernelStep t0 pods)) by lia. apply Hf. eauto. }
    destruct (0 <? kt_nErr _); [|destruct (0 <? kt_nPending _)]; cbn [fst snd];
      [change (str_eqb ConditionUnknown ConditionFalse) with false..|change (str_eqb ConditionTrue ConditionFalse) with false];
      simpl; naive_solver.
Qed.
End kernels.

(** ** The probe *)

Section probes.
Context `{QO : QuantityOps} `{CO : ConditionOps} {CL : ConditionLaws}.
Variable quote : string → string.
Implicit Types (cb : CacheBackend) (st : CacheBackendStatus).

(** The last completed probe found a broken stage. *)
Definition probeFailing st : Prop := ∃ r m g, seen st conditionTypeFunctionalProbeOK = Some (ConditionFalse, r, m, g).

Definition probeEnabled (c : option ProbeClient) : bool :=
  match c with Some c => negb (str_eqb (pcl_ProbeURL c) "") | None => false end.

(** The probe does not hold Ready down: it is off, bypassed, its call passed every stage, or there is
    no answer and no failure to remember. *)
Definition probePermits cb st (client : option ProbeClient) (io : ProbeIO) (limiter : probeRateLimiter) (rateLimit : Duration)
    (now : Time) : Prop :=
  probeEnabled client = false ∨ isProbeBypassed cb = true ∨
  match (if allow limiter (backendKey cb) now rateLimit then RunProbe quote client io (probeRequestFor cb) else inl (ErrProbe EmptyString)) with
  | inr result => wireAllPassed result = true
  | inl _ => ¬ probeFailing st
  end.

Lemma RunProbe_enabled client io req : probeEnabled client = true → RunProbe quote client io req ≠ inl ErrProbeClientDisabled.
Proof.
  destruct client as [c|]; [|done]. simpl. intros Hc%negb_true_iff. rewrite Hc. unfold checkProbeAnswer.
  repeat case_match; congruence.
Qed.

Lemma inheritDowngrade_spec st rq :
  match inheritDowngrade st rq with
  | Some v => probeFailing st ∧ fv_downgradeReady v = true ∧ fv_shouldWriteCondition v = false ∧
              fv_removeCondition v = false ∧ fv_commitMark v = None ∧ fv_requeueAfter v = rq
  | None => ¬ probeFailing st
  end.
Proof.
  unfold inheritDowngrade, probeFailing, seen. destruct (find st _) as [c|]; simpl; last (by intros (? & ? & ? & ?)).
  destruct (str_eqb (cd_Status c) ConditionFalse) eqn:E; simpl.
  - apply str_eqb_eq in E. rewrite E. split_and!; eauto.
  - apply str_eqb_neq in E. intros (? & ? & ? & [= ? _ _ _]). done.
Qed.

(** The disabled check of the gate, in words. *)
Lemma disabled_enabled (client : option ProbeClient) :
  match client with None => true | Some c => str_eqb (pcl_ProbeURL c) "" end = negb (probeEnabled client).
Proof. destruct client; simpl; [by rewrite negb_involutive|done]. Qed.

Lemma probe_downgrade_iff cb st upstream client io limiter rl now :
  readyStatus upstream = ConditionTrue →
  fv_downgradeReady (evaluateFunctionalProbe quote cb st upstream client io limiter rl now).1 = false ↔
  probePermits cb st client io limiter rl now.
Proof.
  intros Hup. unfold evaluateFunctionalProbe, probePermits. rewrite disabled_enabled, Hup.
  change (str_eqb ConditionTrue ConditionTrue) with true.
  destruct (probeEnabled client) eqn:Ec; cbn [negb]; [|destruct (find st _); simpl; naive_solver].
  destruct (isProbeBypassed cb); simpl; [naive_solver|].
  assert (Hin : ∀ dflt rq, fv_downgradeReady dflt = false →
    fv_downgradeReady (default dflt (inheritDowngrade st rq)) = false ↔ ¬ probeFailing st).
  { intros dflt rq Hd. pose proof (inheritDowngrade_spec st rq) as H. destruct (inheritDowngrade st rq) as [v|]; simpl; [|tauto].
    destruct H as (H1 & H2 & _). rewrite H2. split; [done|by intros []]. }
  destruct (allow limiter (backendKey cb) now rl); simpl; [|rewrite Hin by done; naive_solver].
  pose proof (RunProbe_enabled client io (probeRequestFor cb) Ec) as Hd.
  destruct (RunProbe quote client io (probeRequestFor cb)) as [[|msg]|result]; cbn [fst]; [done|rewrite Hin by done; naive_solver|].
  destruct (wireAllPassed result); [naive_solver|]. destruct (stageReasonAndMessage quote result); naive_solver.
Qed.

(** The gate speaks only when everything below it is Ready. *)
Lemma probe_silent cb st upstream client io limiter rl now :
  readyStatus upstream ≠ ConditionTrue →
  let v := (evaluateFunctionalProbe quote cb st upstream client io limiter rl now).1 in
  fv_downgradeReady v = false ∧ fv_shouldWriteCondition v = false ∧ fv_commitMark v = None ∧
  fv_removeCondition v = negb (probeEnabled client) && bool_decide (is_Some (find st conditionTypeFunctionalProbeOK)).
Proof.
  intros Hup. unfold evaluateFunctionalProbe. rewrite disabled_enabled, (proj2 (str_eqb_neq _ _) Hup).
  destruct (probeEnabled client); simpl; [done|]. by destruct (find st _).
Qed.
End probes.

(** ** When Ready is published *)

Section ready.
Context `{QO : QuantityOps} `{CO : ConditionOps} {CL : ConditionLaws}.
Variable quote : string → string.
Implicit Types (cb : CacheBackend) (st : CacheBackendStatus) (dep : Deployment).

Definition publishesReady st : Prop := ∃ r m g, seen st conditionTypeReady = Some (ConditionTrue, r, m, g).

(** The current generation of the workload is rolled out with enough replicas. *)
Definition workloadAvailable dep : Prop :=
  desiredReplicas dep ≠ 0 ∧ dp_Generation dep ≤ dp_ObservedGeneration dep ∧
  desiredReplicas dep ≤ dp_UpdatedReplicas dep ∧ desiredReplicas dep ≤ dp_AvailableReplicas dep.

(** What must serve below the gates: the workload; for the LMCache connector, the connector at this
    generation, and the workload behind a live endpoint only when the backend fails closed. *)
Definition backendServing cb st (endpoint : string) dep : Prop :=
  if isTypedLMCacheMP cb then
    (∃ r m, seen st conditionTypeConnectorReady = Some (ConditionTrue, r, m, cb_Generation cb)) ∧
    (is_Some (EffectiveRemoteStorage (cb_Spec cb)) → IntegrationFailOpen (bs_Integration (cb_Spec cb)) = false →
     workloadAvailable dep ∧ endpoint ≠ "")
  else workloadAvailable dep.

Lemma remoteVerdict_true dep endpoint :
  (remoteVerdict dep endpoint).1.1 = ConditionTrue ↔ workloadAvailable dep ∧ endpoint ≠ "".
Proof.
  unfold remoteVerdict, workloadAvailable. rewrite <-managedReadiness_true.
  assert ((managedReadiness dep).1.1 = ConditionTrue → (managedReadiness dep).1.2 = conditionReasonBackendReady) as Hb.
  { unfold managedReadiness. by repeat case_match. }
  destruct (managedReadiness dep) as [[s re] m]. simpl in *.
  destruct (str_eqb re conditionReasonRolloutInProgress) eqn:E1.
  { apply str_eqb_eq in E1 as ->. simpl. split; [done|]. intros [Hs%Hb _]. done. }
  destruct (str_eqb endpoint "") eqn:E2; simpl.
  { apply str_eqb_eq in E2. split; [done|]. intros [_ ?]. congruence. }
  apply str_eqb_neq in E2. destruct (str_eqb s ConditionTrue); simpl; split; auto; by intros [].
Qed.

Lemma managedBase_true cb st endpoint dep :
  (managedBase cb st endpoint dep).1.1 = ConditionTrue ↔ backendServing cb st endpoint dep.
Proof.
  unfold managedBase, backendServing. destruct (isTypedLMCacheMP cb) eqn:Et; [|apply managedReadiness_true].
  pose proof (remoteVerdict_true dep endpoint) as Hr. destruct (remoteVerdict dep endpoint) as [[s re] m]. simpl in Hr.
  unfold lmCacheMPReadyBase. rewrite Et. cbn [negb]. pose proof (find_seen st conditionTypeConnectorReady) as Hf.
  destruct (find st conditionTypeConnectorReady) as [c|]; rewrite Hf; clear Hf; simpl; last first.
  { split; [done|]. by intros [(? & ? & ?) _]. }
  destruct (cd_ObservedGeneration c =? cb_Generation cb) eqn:Eg; simpl; last first.
  { apply Z.eqb_neq in Eg. split; [done|]. by intros [(? & ? & [= _ _ _ ?]) _]. }
  apply Z.eqb_eq in Eg. rewrite Eg. destruct (str_eqb (cd_Status c) ConditionTrue) eqn:Es; simpl; last first.
  { apply str_eqb_neq in Es. split; [done|]. by intros [(? & ? & [= ? _ _]) _]. }
  apply str_eqb_eq in Es. rewrite Es.
  destruct (EffectiveRemoteStorage (cb_Spec cb)) as [x|]; simpl; [|split; [|done]; intros _; split; [eauto|by intros [? ?]]].
  destruct (IntegrationFailOpen _); cbn [negb andb].
  { destruct (str_eqb s ConditionTrue); simpl; (split; [|done]); intros _; (split; [eauto|intros _ [=]]). }
  destruct (str_eqb s ConditionTrue) eqn:Er; simpl.
  - apply str_eqb_eq in Er. split; [|done]. intros _. split; [eauto|]. intros _ _. by apply Hr.
  - apply str_eqb_neq in Er. split; [done|]. intros [_ H]. exfalso. apply Er, Hr, H; eauto.
Qed.

Lemma and_iff_under (A B C : Prop) : (A → B ↔ C) → A ∧ B ↔ A ∧ C.
Proof. tauto. Qed.

Section pass.
Context (r : Reconciler) cb (endpoint : string) dep (applyOK : bool) (inp : StatusInputs) st (limiter : probeRateLimiter).
Notation o := (updateManagedStatus quote r cb endpoint dep applyOK inp st limiter).
Notation kvGate := (managedGate cb st (managedBase cb st endpoint dep) (si_Now inp)).
Notation probe := (evaluateFunctionalProbe quote cb st kvGate (rc_ProbeClient r) (si_Probe inp) limiter (probeRateLimit r) (si_Now inp)).1.

Lemma managed_seen t : oc_Err o = false →
  ∃ now e rv base gate pv kv d gen,
    seen (oc_Status o) t = seen (mutateManaged cb now e rv base gate pv kv d gen st) t ∧
    gate = downgradeKernelReadyVerdict (downgradeReadyVerdict kvGate probe) (engineKernels cb inp st) ∧ pv = probe.
Proof.
  intros Herr. unfold updateManagedStatus in *. cbn [oc_Err oc_Status] in *. apply negb_false_iff in Herr.
  repeat eexists. by rewrite patchStatus_seen.
Qed.

Lemma kvGate_ready :
  readyStatus kvGate = ConditionTrue ↔
  backendServing cb st endpoint dep ∧ (kvEventGateEnabled cb = true → lastKVEventSeen st = true).
Proof.
  unfold managedGate. rewrite <-managedBase_true. destruct (managedBase cb st endpoint dep) as [[s re] m]. apply gate_ready.
Qed.

Lemma finalGate_ready :
  readyStatus (downgradeKernelReadyVerdict (downgradeReadyVerdict kvGate probe) (engineKernels cb inp st)) = ConditionTrue ↔
  readyStatus kvGate = ConditionTrue ∧ fv_downgradeReady probe = false ∧ kv_downgradeReady (engineKernels cb inp st) = false.
Proof.
  unfold downgradeKernelReadyVerdict, downgradeReadyVerdict.
  destruct (kv_downgradeReady _), (fv_downgradeReady probe); simpl; naive_solver.
Qed.
End pass.

(** C12: A managed pass that writes the status publishes Ready=True exactly when what the backend
    needs is serving (the rolled-out workload, or for the typed LMCache connector a connector
    observed Ready at this generation, plus the remote storage when the backend fails closed), a KV
    event has ever been seen unless the gate is opted out, the functional probe does not hold it
    down (off, bypassed, all stages passed, or no answer and no remembered failure), and no engine
    pod admitted in strict mode failed its kernel check. *)
Theorem managed_ready_exact (r : Reconciler) cb (endpoint : string) dep (applyOK : bool) (inp : StatusInputs) st limiter :
  let o := updateManagedStatus quote r cb endpoint dep applyOK inp st limiter in
  oc_Err o = false →
  publishesReady (oc_Status o) ↔
  backendServing cb st endpoint dep ∧
  (kvEventGateEnabled cb = true → lastKVEventSeen st = true) ∧
  probePermits quote cb st (rc_ProbeClient r) (si_Probe inp) limiter (probeRateLimit r) (si_Now inp) ∧
  (∀ p, p ∈ default [] (listMatchedEnginePods cb (si_KernelPods inp)) → ¬ strictFailure p).
Proof.
  intros o Herr. unfold publishesReady.
  destruct (managed_seen r cb endpoint dep applyOK inp st limiter conditionTypeReady Herr) as
    (now & e & rv & base & gate & pv & kv & d & gen & Hseen & Hgate & _).
  fold o in Hseen. rewrite Hseen, seen_managed_ready, Hgate.
  trans (readyStatus (downgradeKernelReadyVerdict (downgradeReadyVerdict (managedGate cb st (managedBase cb st endpoint dep) (si_Now inp))
    (evaluateFunctionalProbe quote cb st (managedGate cb st (managedBase cb st endpoint dep) (si_Now inp)) (rc_ProbeClient r)
       (si_Probe inp) limiter (probeRateLimit r) (si_Now inp)).1) (engineKernels cb inp st)) = ConditionTrue).
  { split; [by intros (? & ? & ? & [= ? _ _ _])|]. intros ->. eauto. }
  rewrite finalGate_ready, (and_assoc (backendServing _ _ _ _)), <-kvGate_ready.
  apply and_iff_under. intros Hup. rewrite (probe_downgrade_iff quote _ _ _ _ _ _ _ _ Hup). apply and_iff_compat_l.
  unfold engineKernels. rewrite <-not_true_iff_false, kernel_downgrade_iff.
  destruct (listMatchedEnginePods cb (si_KernelPods inp)); simpl; [naive_solver|].
  split; [|naive_solver]. intros _ p Hp. by apply elem_of_nil in Hp.
Qed.
End ready.
