(* ===== verification/ReadinessRuns.v ===== *)
(** * Runs of managed passes

    What holds over any sequence of status passes: a failed probe keeps Ready down until an answer
    clears it, recorded probe answers are a rate limit apart, and a backend that never reports KV
    events is Degraded at the end of its window. *)

From S2P Require Import Prelude Ordering GoRuntime GoText GoNumbers K8s ControlPlane IndexPoller Probe CoreV1.
From S2P Require Import BackendApi Endpoints Adapters LiveObjects ReadinessGate ProbeGate EngineHealth.
From S2P Require Import ConnectorHealth StatusPublish StatusFacts ReadinessTheorems.

Section runs.
Context `{QO : QuantityOps} `{CO : ConditionOps} {CL : ConditionLaws}.
Variable quote : string → string.
Implicit Types (cb : CacheBackend) (st : CacheBackendStatus) (dep : Deployment) (limiter : probeRateLimiter).

(** One pass: the backend as read, the workload, and what the poller wrote since the last one. *)
Record ManagedStep := mkManagedStep {
  ms_Backend : CacheBackend;
  ms_Endpoint : string;
  ms_Workload : Deployment;
  ms_ApplyOK : bool;
  ms_Inputs : StatusInputs;
  ms_Participation : option CacheBackendIndexParticipation
}.

Definition passOf (r : Reconciler) (s : CacheBackendStatus * probeRateLimiter) (p : ManagedStep) : Outcome :=
  updateManagedStatus quote r (ms_Backend p) (ms_Endpoint p) (ms_Workload p) (ms_ApplyOK p) (ms_Inputs p)
    (set_IndexParticipation (ms_Participation p) s.1) s.2.

Definition managedStep (r : Reconciler) (s : CacheBackendStatus * probeRateLimiter) (p : ManagedStep) :
    CacheBackendStatus * probeRateLimiter :=
  let o := passOf r s p in (oc_Status o, oc_Limiter o).

(** The answer a pass would get from the probe. *)
Definition probeAnswer (r : Reconciler) (p : ManagedStep) : ProbeError + WireProbeResult :=
  RunProbe quote (rc_ProbeClient r) (si_Probe (ms_Inputs p)) (probeRequestFor (ms_Backend p)).

(** Nothing that clears a failure: no bypass, and no answer with every stage passed. *)
Definition probeUncleared (r : Reconciler) (p : ManagedStep) : Prop :=
  isProbeBypassed (ms_Backend p) = false ∧ ∀ result, probeAnswer r p = inr result → wireAllPassed result = false.

(** ** A failed probe is sticky *)

Lemma uncleared_verdict cb st upstream client io limiter rl now :
  probeEnabled client = true → isProbeBypassed cb = false →
  (∀ result, RunProbe quote client io (probeRequestFor cb) = inr result → wireAllPassed result = false) →
  probeFailing st →
  let v := (evaluateFunctionalProbe quote cb st upstream client io limiter rl now).1 in
  fv_removeCondition v = false ∧ (fv_shouldWriteCondition v = true → (fv_condition v).1.1 = ConditionFalse) ∧
  (readyStatus upstream = ConditionTrue → fv_downgradeReady v = true).
Proof.
  intros Hc Hb Hr Hf. unfold evaluateFunctionalProbe. rewrite disabled_enabled, Hc, Hb. cbn [negb].
  destruct (str_eqb (readyStatus upstream) ConditionTrue) eqn:Eu; cbn [negb]; last first.
  { apply str_eqb_neq in Eu. by split_and!. }
  pose proof (λ rq, inheritDowngrade_spec st rq) as Hin.
  destruct (allow limiter (backendKey cb) now rl); cbn [negb]; last first.
  { cbn [fst]. specialize (Hin (requeueUntilNextProbe (lastCalled limiter (backendKey cb)) rl now)).
    destruct (inheritDowngrade st _) as [v|]; [|done]. destruct Hin as (_ & Hd & Hw & Hm & _). simpl. rewrite Hw, Hm, Hd. by split_and!. }
  pose proof (RunProbe_enabled quote client io (probeRequestFor cb) Hc) as Hd.
  destruct (RunProbe quote client io (probeRequestFor cb)) as [[|msg]|result]; [done| |].
  - cbn [fst]. specialize (Hin rl). destruct (inheritDowngrade st rl) as [v|]; [|done].
    destruct Hin as (_ & Hdn & Hw & Hm & _). simpl. rewrite Hw, Hm, Hdn. by split_and!.
  - rewrite (Hr result eq_refl). destruct (stageReasonAndMessage quote result). by split_and!.
Qed.

(** A rejected write leaves no trace. *)
Lemma managed_rejected r cb endpoint dep applyOK inp st limiter :
  let o := updateManagedStatus quote r cb endpoint dep applyOK inp st limiter in
  oc_Err o = true → oc_Status o = st ∧ oc_Limiter o = limiter ∧ oc_Events o = [].
Proof.
  unfold updateManagedStatus. cbn [oc_Err oc_Status oc_Limiter oc_Events].
  set (w := patchStatus _ _ _ _). intros Hw%negb_true_iff.
  assert (w.1 = st) as ->.
  { subst w. revert Hw. unfold patchStatus. case_bool_decide; [done|]. by destruct (si_PatchOK inp). }
  rewrite Hw. unfold commit, crashLoopEvent. split; [done|]. split; [by destruct (fv_commitMark _) as [[]|]|].
  by destruct (detectEngineConnectorCrashLoop _ _ _ _).
Qed.

(** Failed, and not published as Ready. *)
Definition heldDown st : Prop := probeFailing st ∧ ¬ publishesReady st.

Lemma seen_eq_heldDown s s' : (∀ t, seen s t = seen s' t) → heldDown s → heldDown s'.
Proof. intros H. unfold heldDown, probeFailing, publishesReady. by rewrite !H. Qed.

Lemma heldDown_step r s p :
  probeEnabled (rc_ProbeClient r) = true → probeUncleared r p → heldDown s.1 → heldDown (managedStep r s p).1.
Proof.
  intros Hc [Hb Hr] Hheld. destruct s as [st limiter]. unfold managedStep, passOf. cbv zeta. cbn [fst snd].
  set (st' := set_IndexParticipation (ms_Participation p) st). assert (heldDown st') as Hst' by exact Hheld.
  clearbody st'. clear Hheld.
  pose proof (managed_seen quote r (ms_Backend p) (ms_Endpoint p) (ms_Workload p) (ms_ApplyOK p) (ms_Inputs p) st' limiter) as Hs.
  pose proof (finalGate_ready quote r (ms_Backend p) (ms_Endpoint p) (ms_Workload p) (ms_Inputs p) st' limiter) as Hg.
  destruct (oc_Err _) eqn:Eo.
  { by rewrite (proj1 (managed_rejected _ _ _ _ _ _ _ _ Eo)). }
  destruct (Hst') as [Hpf Hnr]. set (o := updateManagedStatus _ _ _ _ _ _ _ _ _) in *.
  split.
  - destruct (Hs conditionTypeFunctionalProbeOK eq_refl) as (now & e & rv & base & gate & pv & kv & d & gen & Hseen & _ & Hpv).
    unfold probeFailing. rewrite Hseen, seen_managed_probe.
    edestruct uncleared_verdict as (Hrm & Hw & _); [exact Hc|exact Hb|exact Hr|exact Hpf|]. rewrite <-Hpv in Hrm, Hw.
    destruct (fv_shouldWriteCondition pv).
    + destruct (fv_condition pv) as [[a b] c]. rewrite <-(Hw eq_refl). simpl. eauto.
    + by rewrite Hrm.
  - destruct (Hs conditionTypeReady eq_refl) as (now & e & rv & base & gate & pv & kv & d & gen & Hseen & Hgate & _).
    unfold publishesReady. rewrite Hseen, seen_managed_ready, Hgate. intros (? & ? & ? & [= Hrdy _ _ _]).
    apply Hg in Hrdy as (Hup & Hdn & _). edestruct uncleared_verdict as (_ & _ & Hd); [exact Hc|exact Hb|exact Hr|exact Hpf|].
    rewrite (Hd Hup) in Hdn. done.
Qed.

(** C16: Once a completed probe found a broken stage, no sequence of passes brings Ready back while
    no probe answers with every stage passed: not a failing or rate-limited probe call, not a
    rejected status write, not an edit of the backend (short of the bypass annotation), not a KV
    event, not the workload recovering.  FunctionalProbeOK stays False throughout. *)
Theorem failed_probe_sticky (r : Reconciler) (steps : list ManagedStep) st limiter :
  probeEnabled (rc_ProbeClient r) = true →
  Forall (probeUncleared r) steps →
  heldDown st →
  heldDown (foldl (managedStep r) (st, limiter) steps).1.
Proof.
  intros Hc Hsteps. revert st limiter. induction Hsteps as [|p steps Hp _ IH]; intros st limiter Hst; [done|].
  cbn [foldl]. destruct (managedStep r (st, limiter) p) as [st' lim'] eqn:E. apply IH.
  pose proof (heldDown_step r (st, limiter) p Hc Hp Hst) as H. by rewrite E in H.
Qed.
(** ** Probe answers are a rate limit apart *)

(** A pass over some backend of the cluster, with the status it read. *)
Definition limiterAfter (r : Reconciler) limiter (q : CacheBackendStatus * ManagedStep) : probeRateLimiter :=
  oc_Limiter (passOf r (q.1, limiter) q.2).

(** The probe was called and answered. *)
Definition answered (r : Reconciler) limiter (q : CacheBackendStatus * ManagedStep) : Prop :=
  oc_Metrics (passOf r (q.1, limiter) q.2) ≠ [].

Definition keyOf (q : CacheBackendStatus * ManagedStep) : string := backendKey (ms_Backend q.2).
Definition timeOf (q : CacheBackendStatus * ManagedStep) : Time := si_Now (ms_Inputs q.2).

Lemma probe_mark cb st upstream client io limiter rl now :
  let v := evaluateFunctionalProbe quote cb st upstream client io limiter rl now in
  v.2 = [] ∧ fv_commitMark v.1 = None ∨
  allow limiter (backendKey cb) now rl = true ∧ fv_commitMark v.1 = Some (backendKey cb, now).
Proof.
  unfold evaluateFunctionalProbe. rewrite disabled_enabled.
  destruct (negb (probeEnabled client)); [left; by case_bool_decide|].
  destruct (negb (str_eqb _ _)); [by left|]. destruct (isProbeBypassed cb); [by left|].
  pose proof (λ rq, inheritDowngrade_spec st rq) as Hin.
  destruct (allow limiter (backendKey cb) now rl); cbn [negb]; last first.
  { left. cbn [fst snd]. split; [done|]. match goal with |- context [inheritDowngrade st ?q] => specialize (Hin q) end.
    destruct (inheritDowngrade st _); [|done]. by destruct Hin as (_ & _ & _ & _ & ? & _). }
  destruct (RunProbe quote client io (probeRequestFor cb)) as [[|msg]|result]; [by left| |].
  - left. cbn [fst snd]. split; [done|]. specialize (Hin rl). destruct (inheritDowngrade st rl); [|done].
    by destruct Hin as (_ & _ & _ & _ & ? & _).
  - right. split; [done|]. destruct (wireAllPassed result); [done|]. by destruct (stageReasonAndMessage quote result).
Qed.

(** A pass leaves the limiter alone, or records its own time after asking. *)
Lemma limiterAfter_cases r limiter q :
  limiterAfter r limiter q = limiter ∧ (answered r limiter q → oc_Err (passOf r (q.1, limiter) q.2) = false → False) ∨
  limiterAfter r limiter q = <[keyOf q := timeOf q]> limiter ∧ allow limiter (keyOf q) (timeOf q) (probeRateLimit r) = true.
Proof.
  unfold limiterAfter, answered, passOf, updateManagedStatus. cbn [oc_Limiter oc_Metrics oc_Err fst snd].
  set (v := evaluateFunctionalProbe _ _ _ _ _ _ _ _ _). set (w := patchStatus _ _ _ _).
  assert (v.2 = [] ∧ fv_commitMark v.1 = None ∨ allow limiter (keyOf q) (timeOf q) (probeRateLimit r) = true ∧
          fv_commitMark v.1 = Some (keyOf q, timeOf q)) as [[H1 H2]|[H1 H2]] by apply probe_mark.
  - left. unfold commit. rewrite H2. split; [done|]. by intros ?.
  - unfold commit. rewrite H2. destruct w.2; [by right|]. left. split; [done|]. by intros _ [=].
Qed.

Lemma answered_allowed r limiter q : answered r limiter q → allow limiter (keyOf q) (timeOf q) (probeRateLimit r) = true.
Proof.
  unfold answered, passOf, updateManagedStatus. cbn [oc_Metrics fst snd]. intros Ha.
  match type of Ha with (?v).2 ≠ [] => assert (v.2 = [] ∧ fv_commitMark v.1 = None ∨ allow limiter (keyOf q) (timeOf q) (probeRateLimit r) = true ∧
          fv_commitMark v.1 = Some (keyOf q, timeOf q)) as [[H1 H2]|[H1 H2]] by apply probe_mark end; done.
Qed.

Lemma probeRateLimit_pos r : 0 < probeRateLimit r.
Proof. unfold probeRateLimit. by destruct (0 <? rc_ProbeRateLimit r) eqn:E; [apply Z.ltb_lt|]. Qed.

Lemma allow_spaced limiter key now rl t :
  0 < rl → is_int64 rl → limiter !! key = Some t → t ≠ time_zero → allow limiter key now rl = true → t + rl ≤ now.
Proof.
  intros Hp Hi Hl Ht. unfold allow, lastCalled. rewrite Hl. simpl. destruct (time_is_zero t) eqn:E.
  { by apply Z.eqb_eq in E. }
  intros H%Z.leb_le. apply time_sub_ge_pos in H; [lia|done|done].
Qed.

(** The recorded time of a backend only grows. *)
Lemma recorded_grows r key at_ (steps : list (CacheBackendStatus * ManagedStep)) limiter :
  is_int64 (probeRateLimit r) → Forall (λ q, timeOf q ≠ time_zero) steps →
  (∃ t, limiter !! key = Some t ∧ t ≠ time_zero ∧ at_ ≤ t) →
  ∃ t, foldl (limiterAfter r) limiter steps !! key = Some t ∧ t ≠ time_zero ∧ at_ ≤ t.
Proof.
  intros Hi Hz. revert limiter. induction Hz as [|q steps Hq _ IH]; intros limiter Hl; [done|].
  cbn [foldl]. apply IH. destruct (limiterAfter_cases r limiter q) as [[-> _]|[-> Ha]]; [done|].
  destruct (decide (keyOf q = key)) as [<-|Hne]; [|by rewrite lookup_insert_ne].
  destruct Hl as (t & Hl & Ht & Hle). rewrite lookup_insert_eq. eexists. split_and!; [done|done|].
  pose proof (allow_spaced limiter (keyOf q) _ _ t (probeRateLimit_pos r) Hi Hl Ht Ha). pose proof (probeRateLimit_pos r). lia.
Qed.

(** Over any interleaving of managed passes on any number of backends, two probe answers for
    the same backend, the first of them published, are at least one rate limit apart, however the
    clock moves in between and whatever the passes in between do. *)
Theorem probe_answers_spaced (r : Reconciler) (before between : list (CacheBackendStatus * ManagedStep))
    (a b : CacheBackendStatus * ManagedStep) limiter :
  let atA := foldl (limiterAfter r) limiter before in
  let atB := foldl (limiterAfter r) limiter (before ++ a :: between) in
  is_int64 (probeRateLimit r) →
  Forall (λ q, timeOf q ≠ time_zero) (a :: between) →
  keyOf a = keyOf b →
  answered r atA a → oc_Err (passOf r (a.1, atA) a.2) = false →
  answered r atB b →
  timeOf a + probeRateLimit r ≤ timeOf b.
Proof.
  intros atA atB Hi Hz Hkey Ha Hok Hb. apply Forall_cons in Hz as [Hza Hz].
  assert (∃ t, atB !! keyOf b = Some t ∧ t ≠ time_zero ∧ timeOf a ≤ t) as (t & Hl & Ht & Hle).
  { subst atB. rewrite foldl_app. cbn [foldl]. fold atA. apply recorded_grows; [done|done|].
    destruct (limiterAfter_cases r atA a) as [[_ Hno]|[-> _]]; [by destruct (Hno Ha Hok)|].
    rewrite Hkey, lookup_insert_eq. eauto with lia. }
  pose proof (allow_spaced atB (keyOf b) (timeOf b) _ t (probeRateLimit_pos r) Hi Hl Ht (answered_allowed _ _ _ Hb)). lia.
Qed.
(** ** No KV events *)

(** Reported as broken, with the reason. *)
Definition degradedNoEvents st : Prop :=
  (∃ m g, seen st conditionTypeDegraded = Some (ConditionTrue, reasonNoKVEventsObserved, m, g)) ∧ ¬ publishesReady st.

(** Where the window of a backend starts. *)
Definition windowStart st (now : Time) : Time := default now (st_FirstAvailableAt st).

(** The workload is up, the gate is on, and no event was ever seen. *)
Definition awaitingEvents cb st (endpoint : string) dep : Prop :=
  backendServing cb st endpoint dep ∧ kvEventGateEnabled cb = true ∧ lastKVEventSeen st = false.

Lemma awaiting_gate cb st endpoint dep now :
  awaitingEvents cb st endpoint dep → windowStart st now ≠ time_zero → now ≠ time_zero →
  let gate := managedGate cb st (managedBase cb st endpoint dep) now in
  (degradedStatus gate = ConditionTrue ∧ degradedReason gate = reasonNoKVEventsObserved ∧ requeueAfter gate = 0 ∧
   (firstEventTimeout cb ≤ time_sub now (windowStart st now) ∨ readyConditionReason st = reasonNoKVEventsObserved)) ∨
  (time_sub now (windowStart st now) < firstEventTimeout cb ∧ readyConditionReason st ≠ reasonNoKVEventsObserved ∧
   requeueAfter gate = wrap64 (firstEventTimeout cb - time_sub now (windowStart st now))).
Proof.
  intros (Hs & Hg & He) Hw Hn. apply managedBase_true in Hs. unfold managedGate.
  destruct (managedBase cb st endpoint dep) as [[s re] m]. simpl in Hs. subst s.
  unfold evaluateKVEventReadiness. rewrite Hg, He. change (str_eqb ConditionTrue ConditionTrue) with true. cbn [negb orb andb].
  change (match st_FirstAvailableAt st with Some t => t | None => now end) with (windowStart st now).
  destruct (str_eqb (readyConditionReason st) reasonNoKVEventsObserved) eqn:Er.
  { apply str_eqb_eq in Er. left. by split_and!; auto. }
  apply str_eqb_neq in Er. unfold time_is_zero. rewrite (proj2 (Z.eqb_neq _ _) Hw).
  destruct (time_sub now (windowStart st now) <? firstEventTimeout cb) eqn:El.
  - right. apply Z.ltb_lt in El. by split_and!.
  - left. apply Z.ltb_ge in El. by split_and!; auto.
Qed.

Lemma time_sub_below t u d : u ≤ t → is_int64 d → time_sub t u < d → time_sub t u = t - u.
Proof. unfold time_sub, is_int64, MaxInt64, MinInt64. repeat case_match; rewrite ?Z.ltb_lt, ?Z.ltb_ge in *; lia. Qed.

Section window.
Context (r : Reconciler) cb (endpoint : string) dep (applyOK : bool) (inp : StatusInputs) st limiter.
Notation o := (updateManagedStatus quote r cb endpoint dep applyOK inp st limiter).
Notation gate := (managedGate cb st (managedBase cb st endpoint dep) (si_Now inp)).

Lemma degraded_published : oc_Err o = false →
  ∃ g, seen (oc_Status o) conditionTypeDegraded = Some (degradedStatus gate, degradedReason gate, degradedMessage gate, g).
Proof.
  intros Herr. destruct (managed_seen quote r cb endpoint dep applyOK inp st limiter conditionTypeDegraded Herr) as
    (now & e & rv & base & g & pv & kv & d & gen & Hseen & Hgate & _).
  rewrite Hseen, seen_managed_degraded, Hgate. unfold downgradeKernelReadyVerdict, downgradeReadyVerdict.
  destruct (kv_downgradeReady _), (fv_downgradeReady _); simpl; eauto.
Qed.

Lemma awaiting_not_ready : awaitingEvents cb st endpoint dep → readyStatus gate ≠ ConditionTrue.
Proof. intros (_ & Hg & He) Hr. apply kvGate_ready in Hr as [_ Hr]. rewrite (Hr Hg) in He. done. Qed.

Lemma not_ready_published : oc_Err o = false → lastKVEventSeen st = false → kvEventGateEnabled cb = true →
  ¬ publishesReady (oc_Status o).
Proof.
  intros Herr He Hg. destruct (managed_seen quote r cb endpoint dep applyOK inp st limiter conditionTypeReady Herr) as
    (now & e & rv & base & g & pv & kv & d & gen & Hseen & Hgate & _).
  unfold publishesReady. rewrite Hseen, seen_managed_ready, Hgate. intros (? & ? & ? & [= Hr _ _ _]).
  apply finalGate_ready in Hr as [Hr%kvGate_ready _]. rewrite (proj2 Hr Hg) in He. done.
Qed.

Lemma awaiting_reported :
  awaitingEvents cb st endpoint dep → oc_Err o = false → degradedStatus gate = ConditionTrue →
  degradedReason gate = reasonNoKVEventsObserved → degradedNoEvents (oc_Status o).
Proof.
  intros (_ & Hg & He) Hok H1 H2. split; [|by apply not_ready_published].
  destruct (degraded_published Hok) as [g Hs]. rewrite Hs, H1, H2. eauto.
Qed.

(** A gate below Ready leaves the requeue to itself. *)
Lemma gate_requeue : readyStatus gate ≠ ConditionTrue → oc_RequeueAfter o = requeueAfter gate.
Proof.
  intros Hn. unfold updateManagedStatus. cbn [oc_RequeueAfter].
  set (v := evaluateFunctionalProbe _ _ _ _ _ _ _ _ _).
  assert (fv_requeueAfter v.1 = 0 ∧ fv_downgradeReady v.1 = false) as [-> Hd].
  { subst v. unfold evaluateFunctionalProbe. rewrite disabled_enabled, (proj2 (str_eqb_neq _ _) Hn). cbn [negb].
    destruct (negb (probeEnabled _)); [by case_bool_decide|done]. }
  unfold downgradeReadyVerdict. rewrite Hd. cbn [negb].
  assert (∀ x, requeueAfter (downgradeKernelReadyVerdict x (engineKernels cb inp st)) = requeueAfter x) as ->.
  { intros x. unfold downgradeKernelReadyVerdict. by destruct (kv_downgradeReady _). }
  unfold minNonZero. destruct (requeueAfter gate =? 0) eqn:E; [apply Z.eqb_eq in E; by rewrite E|done].
Qed.

(** The start of the window is recorded in whole seconds. *)
Lemma anchor_published : oc_Err o = false → backendServing cb st endpoint dep →
  ∃ t, st_FirstAvailableAt (oc_Status o) = Some t ∧ (t = windowStart st (si_Now inp) ∨ t = storedTime (windowStart st (si_Now inp))).
Proof.
  intros Herr Hs. apply managedBase_true in Hs. unfold updateManagedStatus in *. cbn [oc_Err oc_Status] in *.
  apply negb_false_iff in Herr. set (m := mutateManaged _ _ _ _ _ _ _ _ _ _) in *.
  assert (st_FirstAvailableAt (m st) = Some (windowStart st (si_Now inp))) as Hm.
  { subst m. rewrite managed_anchor. unfold windowStart. destruct (st_FirstAvailableAt st); [done|]. rewrite Hs. done. }
  destruct (patchStatus_cases cb (si_PatchOK inp) m st) as [(H & _)|[_ [[-> _]| ->]]]; [congruence|exists (windowStart st (si_Now inp))|exists (storedTime (windowStart st (si_Now inp)))].
  - unfold echoed. simpl. auto.
  - unfold echoed, storedStatus. simpl. rewrite Hm. auto.
Qed.
End window.

(** C29: A serving backend whose KV-event gate is on and that never reports an event becomes
    Degraded: a pass either reports it at once, or asks to run again after a positive delay of at
    most the first-event timeout; and a pass run once that delay is over reports
    Degraded=True/NoKVEventsObserved and does not publish Ready, whatever happened to the rest of the
    status in between.  The start of the window is kept in whole seconds, which never extends it. *)
Theorem no_events_degraded (r : Reconciler) cb (endpoint endpoint' : string) dep dep' (applyOK applyOK' : bool)
    (inp inp' : StatusInputs) st st' limiter limiter' :
  let o := updateManagedStatus quote r cb endpoint dep applyOK inp st limiter in
  let o' := updateManagedStatus quote r cb endpoint' dep' applyOK' inp' st' limiter' in
  Second ≤ windowStart st (si_Now inp) ≤ si_Now inp → is_int64 (firstEventTimeout cb) →
  awaitingEvents cb st endpoint dep → oc_Err o = false → readyConditionReason st ≠ reasonNoKVEventsObserved →
  st_FirstAvailableAt st' = st_FirstAvailableAt (oc_Status o) →
  awaitingEvents cb st' endpoint' dep' → oc_Err o' = false → si_Now inp + oc_RequeueAfter o ≤ si_Now inp' →
  (degradedNoEvents (oc_Status o) ∨ 0 < oc_RequeueAfter o ≤ firstEventTimeout cb) ∧ degradedNoEvents (oc_Status o').
Proof.
  intros o o' Hw Hi Ha Herr Hns Hanchor Ha' Herr' Hlater.
  pose proof (firstEventTimeout_pos cb) as Hpos.
  assert (Second = 1000000000) as HSec by done.
  destruct (anchor_published r cb endpoint dep applyOK inp st limiter Herr (proj1 Ha)) as (t & Ht & Hta).
  fold o in Ht. rewrite Ht in Hanchor.
  assert (Second ≤ windowStart st (si_Now inp) → time_zero < t ≤ windowStart st (si_Now inp)) as Htr.
  { intros HS. destruct Hta as [->| ->]; [unfold time_zero; lia|].
    pose proof (storedTime_le (windowStart st (si_Now inp)) ltac:(lia)). pose proof (storedTime_lower (windowStart st (si_Now inp))).
    unfold time_zero. lia. }
  specialize (Htr (proj1 Hw)).
  assert (Hrq : oc_RequeueAfter o = requeueAfter (managedGate cb st (managedBase cb st endpoint dep) (si_Now inp))).
  { by apply gate_requeue, awaiting_not_ready. }
  assert (windowStart st' (si_Now inp') = t) as Hw' by (unfold windowStart; by rewrite Hanchor).
  assert (Hend : windowStart st (si_Now inp) + firstEventTimeout cb ≤ si_Now inp' ∧
    (degradedNoEvents (oc_Status o) ∨ 0 < oc_RequeueAfter o ≤ firstEventTimeout cb)).
  { destruct (awaiting_gate cb st endpoint dep (si_Now inp) Ha) as [(Hd1 & Hd2 & Hr0 & Hlate)|(Hel & _ & Hr0)]; [unfold time_zero; lia..| |].
    - destruct Hlate as [Hlate|]; [|done]. apply time_sub_ge_pos in Hlate; [|done|done]. rewrite Hrq, Hr0 in *.
      split; [lia|]. left. by apply awaiting_reported.
    - pose proof (time_sub_below _ _ _ (proj2 Hw) Hi Hel) as Hsub. rewrite Hsub in *. rewrite Hr0 in Hrq. rewrite wrap64_id in Hrq by (unfold is_int64 in *; lia).
      rewrite Hrq in *. split; [lia|]. right. lia. }
  destruct Hend as [Hend H1]. split; [done|].
  destruct (awaiting_gate cb st' endpoint' dep' (si_Now inp') Ha') as [(Hd1 & Hd2 & _)|(Hel & _)]; [rewrite Hw'; unfold time_zero in *; lia|unfold time_zero in *; lia|by apply awaiting_reported|].
  rewrite Hw' in Hel. exfalso. apply Z.lt_nge in Hel. apply Hel. apply time_sub_ge_pos; [done|done|lia].
Qed.
End runs.
