(* ===== verification/BackendTheorems.v ===== *)
(** * What CacheBackend admission guarantees *)

From Stdlib Require Import SpecFloat.
From S2P Require Import Prelude Ordering GoRuntime GoText GoNumbers K8s Admission CoreV1 BackendApi Endpoints.
From S2P Require Import Adapters Overrides BackendAdmission BackendValidator.

(** ** Lists of errors *)

Lemma errWhen_nil b e : errWhen b e = [] ↔ b = false.
Proof. by destruct b. Qed.

Lemma eachIndexed_nil {A : Type} path (f : string → A → list FieldError) l (P : A → Prop) :
  (∀ p e, f p e = [] ↔ P e) → eachIndexed path f l = [] ↔ Forall P l.
Proof.
  intros Hf. unfold eachIndexed. assert (∀ g : nat → string, mjoin (imap (λ i e, f (g i) e) l) = [] ↔ Forall P l) as H; [|apply H].
  induction l as [|x l IH]; intros g; [done|].
  rewrite imap_cons. cbn [mjoin list_join]. rewrite app_nil, Forall_cons, Hf. f_equiv. apply (IH (g ∘ S)).
Qed.

Section theorems.
Context `{QO : QuantityOps} `{KV : KValidation}.
Context (quote : string → string).

Lemma eachResource_nil rl f :
  eachResource rl f = [] ↔ ∀ name q, rl !! name = Some q → f name q = [].
Proof.
  unfold eachResource. split.
  - intros H name q Hq. apply elem_of_map_to_list in Hq. apply list_elem_of_split in Hq as (l1 & l2 & E).
    rewrite E, bind_app, bind_cons in H. by apply app_eq_nil in H as [_ [H _]%app_eq_nil].
  - intros H. assert (Forall (λ nq, f nq.1 nq.2 = []) (map_to_list rl)) as Hall.
    { apply Forall_forall. intros [name q] Hin%elem_of_map_to_list. by apply H. }
    induction Hall as [|nq l Hnq _ IH]; [done|]. rewrite bind_cons, Hnq. done.
Qed.

Lemma bothLists_nil r path f :
  bothLists r path f = [] ↔
  ∀ name q, (rr_Requests r !! name = Some q → f (child path "requests") name q = []) ∧
            (rr_Limits r !! name = Some q → f (child path "limits") name q = []).
Proof.
  unfold bothLists. rewrite app_nil, !eachResource_nil. naive_solver.
Qed.

(** ** Resource blocks *)

(** A container resource name: a standard one, hugepages of a positive page size, or a
    vendor-qualified name outside the reserved domains. *)
Definition resourceNameOK (name : string) : Prop :=
  name ∈ ["cpu"; "memory"; "ephemeral-storage"] ∨
  (HasPrefix name hugePagesPrefix = true ∧
     ∃ page, ParseQuantity (TrimPrefix name hugePagesPrefix) = Some page ∧ 0 < qSign page) ∨
  (HasPrefix name hugePagesPrefix = false ∧ ContainsByte name "/" = true ∧
     HasPrefix name "kubernetes.io/" = false ∧ HasPrefix name "requests.kubernetes.io/" = false ∧
     IsQualifiedName name = []).

Lemma resource_name_exact name : validateContainerResourceName quote name = None ↔ resourceNameOK name.
Proof.
  unfold validateContainerResourceName, resourceNameOK, isOvercommittableResource.
  destruct (bool_decide (name ∈ _)) eqn:Eo; [apply bool_decide_eq_true in Eo; tauto|apply bool_decide_eq_false in Eo].
  destruct (HasPrefix name hugePagesPrefix) eqn:Eh.
  - destruct (ParseQuantity _) as [q|]; [destruct (Z.leb_spec (qSign q) 0)|]; split; try done.
    + intros [?|[(_ & page & [= <-] & ?)|[? _]]]; [done|lia|done].
    + intros _. right; left. eauto.
    + intros [?|[(_ & page & [=] & ?)|[? _]]]; done.
  - destruct (ContainsByte name "/") eqn:Ec; cbn [negb].
    + destruct (HasPrefix name "kubernetes.io/"), (HasPrefix name "requests.kubernetes.io/"); cbn [orb];
        [split; [done|]; naive_solver..|].
      destruct (IsQualifiedName name) eqn:Eq; split; try done; naive_solver.
    + split; [done|]. naive_solver.
Qed.

(** What one quantity must satisfy, and a request next to its limit. *)
Definition quantityOK (name : string) (q : Quantity) : Prop :=
  0 ≤ qSign q ∧
  (name ∉ ["cpu"; "memory"; "ephemeral-storage"] → HasPrefix name hugePagesPrefix = false → is_Some (qAsInt64 q)) ∧
  (∀ page, HasPrefix name hugePagesPrefix = true → ParseQuantity (TrimPrefix name hugePagesPrefix) = Some page →
     0 < qSign page → 0 < qSign q → (qValue page | qValue q)).

Definition pairOK (name : string) (request : Quantity) (limit : option Quantity) : Prop :=
  if bool_decide (name ∈ ["cpu"; "memory"; "ephemeral-storage"])
  then ∀ l, limit = Some l → 0 ≤ qCmp l request
  else ∃ l, limit = Some l ∧ qCmp l request = 0.

(** A resource block the kubelet can serve. *)
Record resources_ok (r : ResourceRequirements) : Prop := {
  ro_claims : rr_Claims r = [];
  ro_quantities : ∀ name q, rr_Requests r !! name = Some q ∨ rr_Limits r !! name = Some q →
    resourceNameOK name ∧ quantityOK name q;
  ro_pairs : ∀ name q, rr_Requests r !! name = Some q → pairOK name q (rr_Limits r !! name)
}.

(** The seven rules on the provider's block. *)
Definition providerRules : list (CacheBackend → list FieldError) :=
  [rejectResourceLimitsBelowRequests quote; rejectRequestsOnlyForNonOvercommittableResources quote;
   rejectResourceClaims; rejectNegativeResourceQuantities; rejectInvalidResourceNames quote;
   rejectFractionalExtendedResources quote; rejectMisalignedHugepageQuantities].

Lemma overcommittable_true name :
  isOvercommittableResource name = bool_decide (name ∈ ["cpu"; "memory"; "ephemeral-storage"]).
Proof. done. Qed.

Lemma divides_rem v p : 0 < p → Z.rem v p = 0 ↔ (p | v).
Proof. intros Hp. rewrite Z.rem_divide by lia. done. Qed.

Section laws.
Context `{QL : !QuantityLaws}.

(** One quantity, as the provider's rules and as the MP server's checks read it. *)
Lemma provider_quantity name q (e1 e2 e3 : FieldError) :
  errWhen (qSign q <? 0) e1 = [] ∧
  (if isOvercommittableResource name then []
   else if HasPrefix name hugePagesPrefix then []
   else match qAsInt64 q with Some _ => [] | None => [e2] end) = [] ∧
  (if negb (HasPrefix name hugePagesPrefix) then []
   else match ParseQuantity (TrimPrefix name hugePagesPrefix) with
        | None => []
        | Some page =>
            if qSign page <=? 0 then []
            else if qValue q <=? 0 then []
            else errWhen (negb (Z.rem (qValue q) (qValue page) =? 0)) e3
        end) = [] ↔ quantityOK name q.
Proof.
  unfold quantityOK. rewrite errWhen_nil, Z.ltb_ge, overcommittable_true. f_equiv. f_equiv.
  - destruct (bool_decide _) eqn:Eo.
    + apply bool_decide_eq_true in Eo. naive_solver.
    + apply bool_decide_eq_false in Eo. destruct (HasPrefix name _); [naive_solver|].
      destruct (qAsInt64 q); [naive_solver|]. split; [done|]. intros H. by destruct (H Eo eq_refl).
  - destruct (HasPrefix name _); cbn [negb]; [|naive_solver].
    destruct (ParseQuantity _) as [page|]; [|naive_solver].
    destruct (Z.leb_spec (qSign page) 0) as [Hp|Hp]; [naive_solver lia|].
    pose proof (proj2 (q_value_pos page) Hp) as Hvp.
    destruct (Z.leb_spec (qValue q) 0) as [Hq|Hq].
    + split; [|done]. intros _ page' _ [= <-] _ Hs. apply q_value_pos in Hs. lia.
    + rewrite errWhen_nil, negb_false_iff, Z.eqb_eq, divides_rem by done. split.
      * by intros H page' _ [= <-] _ _.
      * intros H. apply H; [done..|]. by apply q_value_pos.
Qed.

Lemma mp_quantity name q (e1 e2 : FieldError) (e3 : Quantity → FieldError) :
  errWhen (qSign q <? 0) e1 ++
  (if negb (isOvercommittableResource name) && negb (HasPrefix name hugePagesPrefix) then
     match qAsInt64 q with Some _ => [] | None => [e2] end
   else []) ++
  (if HasPrefix name hugePagesPrefix && (0 <? qSign q) then
     match ParseQuantity (TrimPrefix name hugePagesPrefix) with
     | Some page => errWhen ((0 <? qSign page) && negb (Z.rem (qValue q) (qValue page) =? 0)) (e3 page)
     | None => []
     end
   else []) = [] ↔ quantityOK name q.
Proof.
  rewrite !app_nil, <-(provider_quantity name q e1 e2 (e3 q)). f_equiv. f_equiv.
  - by destruct (isOvercommittableResource name), (HasPrefix name hugePagesPrefix).
  - destruct (HasPrefix name hugePagesPrefix); cbn [negb andb]; [|done].
    destruct (ParseQuantity _) as [page|]; [|by destruct (0 <? qSign q)].
    pose proof (q_value_pos q) as Hq.
    destruct (Z.ltb_spec 0 (qSign q)), (Z.leb_spec (qValue q) 0), (Z.leb_spec (qSign page) 0); try (by auto || lia).
    + rewrite errWhen_nil. destruct (Z.ltb_spec 0 (qSign page)); [lia|]. done.
    + rewrite !errWhen_nil. destruct (Z.ltb_spec 0 (qSign page)); [done|lia].
Qed.

(** Requests next to limits, as the provider's two rules and as the MP server's one. *)
Lemma provider_pair name q limit (e1 e2 : Quantity → FieldError) (e3 : FieldError) :
  match limit with
  | None => []
  | Some lim =>
      if isOvercommittableResource name then errWhen (qCmp lim q <? 0) (e1 lim)
      else errWhen (negb (qCmp lim q =? 0)) (e2 lim)
  end = [] ∧
  (if isOvercommittableResource name then [] else match limit with Some _ => [] | None => [e3] end) = [] ↔
  pairOK name q limit.
Proof.
  unfold pairOK. rewrite overcommittable_true.
  destruct (bool_decide _), limit as [l|]; rewrite ?errWhen_nil.
  - rewrite Z.ltb_ge. naive_solver.
  - naive_solver.
  - rewrite negb_false_iff, Z.eqb_eq. naive_solver.
  - naive_solver.
Qed.

Lemma mp_pair name q limit (e1 e2 : Quantity → FieldError) (e3 : FieldError) :
  match limit with
  | None => errWhen (negb (isOvercommittableResource name)) e3
  | Some l =>
      errWhen (isOvercommittableResource name && (qCmp l q <? 0)) (e1 l) ++
      errWhen (negb (isOvercommittableResource name) && negb (qCmp l q =? 0)) (e2 l)
  end = [] ↔ pairOK name q limit.
Proof.
  rewrite <-(provider_pair name q limit e1 e2 e3).
  destruct (isOvercommittableResource name), limit as [l|]; cbn [negb andb]; rewrite ?app_nil, ?errWhen_nil; naive_solver.
Qed.

Lemma provider_resources_exact cb r path :
  selectedProviderResources cb = Some (r, path) →
  Forall (λ rule, rule cb = []) providerRules ↔ resources_ok r.
Proof.
  intros Hsel. unfold providerRules. rewrite !Forall_cons, Forall_nil.
  unfold rejectResourceLimitsBelowRequests, rejectRequestsOnlyForNonOvercommittableResources, rejectResourceClaims,
    rejectNegativeResourceQuantities, rejectInvalidResourceNames, rejectFractionalExtendedResources,
    rejectMisalignedHugepageQuantities, onResources. rewrite Hsel.
  unfold limitsBelowRequests, requestsOnly, negativeQuantities, invalidNames, fractionalExtended, misalignedHugepages.
  rewrite !eachResource_nil, !bothLists_nil. split.
  - intros (H1 & H2 & H3 & H4 & H5 & H6 & H7 & _). split.
    + by destruct (rr_Claims r).
    + intros name q [Hq|Hq]; (split; [apply resource_name_exact|eapply provider_quantity; split_and!];
        [apply (H5 name q) in Hq|apply (H4 name q) in Hq; exact Hq|apply (H6 name q) in Hq; exact Hq|
         apply (H7 name q) in Hq; exact Hq]; by destruct (validateContainerResourceName quote name)).
    + intros name q Hq. eapply provider_pair. split; [by apply (H1 name q)|by apply (H2 name q)].
  - intros [H1 H2 H3].
    assert (∀ name q, rr_Requests r !! name = Some q ∨ rr_Limits r !! name = Some q →
      validateContainerResourceName quote name = None ∧ quantityOK name q) as Hq.
    { intros name q H. destruct (H2 name q H). split; [by apply resource_name_exact|done]. }
    split_and!; [..|done].
    + intros name q H. by apply (provider_pair name q _ _ _ (errRequired "" "")), H3.
    + intros name q H. by eapply (provider_pair name q _ (λ _, errRequired "" "") (λ _, errRequired "" "")), H3.
    + by rewrite H1.
    + intros name q. split; intros H; eapply (provider_quantity name q _ (errRequired "" "") (errRequired "" "")); apply Hq; auto.
    + intros name q. split; intros H; [rewrite (proj1 (Hq name q (or_introl H)))|rewrite (proj1 (Hq name q (or_intror H)))]; done.
    + intros name q. split; intros H; eapply (provider_quantity name q (errRequired "" "") _ (errRequired "" "")); apply Hq; auto.
    + intros name q. split; intros H; eapply (provider_quantity name q (errRequired "" "") (errRequired "" "")); apply Hq; auto.
Qed.

Lemma mp_resources_exact r path : validateMPServerResourceRequirements quote r path = [] ↔ resources_ok r.
Proof.
  unfold validateMPServerResourceRequirements. rewrite !app_nil, bothLists_nil, eachResource_nil. split.
  - intros (H1 & H2 & H3). split.
    + by destruct (rr_Claims r).
    + intros name q [Hq|Hq]; apply (H2 name q) in Hq;
        (destruct (validateContainerResourceName quote name) eqn:E; [done|]);
        (split; [by apply resource_name_exact|]); by apply mp_quantity in Hq.
    + intros name q Hq. apply (H3 name q), mp_pair in Hq. done.
  - intros [H1 H2 H3]. split_and!; [by rewrite H1|..].
    + intros name q. split; intros H; (destruct (H2 name q ltac:(auto)) as [Hn Hq]);
        rewrite (proj2 (resource_name_exact name) Hn); by apply mp_quantity.
    + intros name q H. by apply mp_pair, H3.
Qed.
End laws.

(** ** Ownership of engine pods *)

(** Selectors name one cache domain and nothing else. *)
Definition domainSelector (cb : CacheBackend) : Prop :=
  matchLabels cb = ∅ ∨ ∃ d, d ≠ "" ∧ matchLabels cb = {[CacheBackendDomainLabel := d]}.

Lemma domain_rule_exact cb : validateEngineSelectorDomain quote cb = [] → domainSelector cb.
Proof.
  unfold validateEngineSelectorDomain, domainSelector. case_bool_decide as E; [by left|].
  set (d := strGet _ _). destruct (str_eqb d "") eqn:Ed; [done|]. apply str_eqb_neq in Ed.
  destruct (IsValidLabelValue d); [|done]. destruct (Nat.eqb_spec (size (matchLabels cb)) 1) as [Hs|]; [|done].
  intros _. right. exists d. split; [done|].
  assert (matchLabels cb !! CacheBackendDomainLabel = Some d) as Hd.
  { unfold d, strGet in Ed |- *. by destruct (_ !! _). }
  apply map_eq. intros k. destruct (decide (k = CacheBackendDomainLabel)) as [->|Hk].
  - by rewrite Hd, lookup_singleton_eq.
  - rewrite lookup_singleton_ne by done. destruct (matchLabels cb !! k) as [v|] eqn:Ek; [|done].
    assert (size (delete CacheBackendDomainLabel (matchLabels cb)) = 0%nat) as H0.
    { rewrite map_size_delete_Some by eauto. lia. }
    apply map_size_empty_inv in H0.
    assert (delete CacheBackendDomainLabel (matchLabels cb) !! k = Some v) as Hx by (by rewrite lookup_delete_ne).
    by rewrite H0, lookup_empty in Hx.
Qed.

(** Two objects of a namespace never own one domain. *)
Definition overlap (a b : CacheBackend) : Prop :=
  cb_Namespace a = cb_Namespace b ∧ matchLabels a ≠ ∅ ∧ matchLabels a = matchLabels b.

Record backends_ok (c : list CacheBackend) : Prop := {
  bo_keys : NoDup (cbKey <$> c);
  bo_domains : Forall domainSelector c;
  bo_disjoint : ∀ a b, a ∈ c → b ∈ c → overlap a b → a = b
}.

(** The overlap check accepts only an object that overlaps none of the stored ones. *)
Lemma overlap_check rules registry c cb other :
  checkOverlappingEngineSelectors quote (liveBackends rules registry c) cb = Some [] →
  domainSelector cb → other ∈ c → overlap cb other → cb_Name other = cb_Name cb.
Proof.
  unfold checkOverlappingEngineSelectors, liveBackends. cbn [bv_Reader]. intros H Hd Ho (Hns & Hne & Heq).
  rewrite bool_decide_false in H by done. injection H as H.
  destruct (List.find _ _) as [x|] eqn:E; [done|]. pose proof (find_none _ _ E other) as Hf.
  rewrite <-list_elem_of_In, elem_of_go_sort, elem_of_List_filter in Hf.
  assert (ownsDomain cb other = false) as Hof by (apply Hf; split; [by apply str_eqb_eq|done]).
  unfold ownsDomain in Hof. destruct (str_eqb (cb_Name other) (cb_Name cb)) eqn:En; [by apply str_eqb_eq|].
  rewrite <-Heq, bool_decide_false in Hof by done.
  destruct Hd as [?|(d & Hd & Hcb)]; [done|]. assert (strGet (matchLabels cb) CacheBackendDomainLabel = d) as Hg
    by (unfold strGet; by rewrite Hcb, lookup_singleton_eq).
  rewrite Hg, str_eqb_refl in Hof. apply str_eqb_neq in Hd. by rewrite Hd in Hof.
Qed.

Lemma collect_domain registry c cb :
  collectErrors quote (liveBackends [] registry c) cb = [] → validateEngineSelectorDomain quote cb = [].
Proof.
  unfold collectErrors, collectSpecErrors. cbn [bv_Rules liveBackends length Nat.eqb].
  rewrite app_nil. intros [H _]. unfold DefaultValidationRules in H. rewrite bind_cons in H.
  by apply app_nil in H as [H _].
Qed.

Lemma backends_ok_step registry c c' :
  backends_ok c → backendStep quote [] registry c c' → backends_ok c'.
Proof.
  intros [Hk Hd Hx] Hstep. destruct Hstep as [c cb Hkey Ha|l1 l2 old new Hkk Ha|l1 l2 cb _].
  - unfold ValidateCreate in Ha. destruct (checkOverlappingEngineSelectors _ _ cb) as [errs|] eqn:Ec; [|done].
    apply verdictOf_admitted, app_nil in Ha as [Ha ->]. apply collect_domain in Ha. apply domain_rule_exact in Ha.
    assert (∀ other, other ∈ c → overlap cb other → False) as Hno.
    { intros other Ho Hov. pose proof (overlap_check _ _ _ _ _ Ec Ha Ho Hov) as Hn. apply Hkey.
      apply list_elem_of_fmap. exists other. split; [|done]. unfold cbKey. destruct Hov as [-> _]. by rewrite Hn. }
    split; [by apply NoDup_cons|by apply Forall_cons|].
    intros a b [->|Ha']%elem_of_cons [->|Hb']%elem_of_cons Hov; [done|by destruct (Hno b)| |auto].
    destruct (Hno a Ha'). destruct Hov as (? & ? & ?). unfold overlap. split_and!; congruence.
  - assert (checkOverlappingEngineSelectors quote (liveBackends [] registry (l1 ++ old :: l2)) new = Some [] ∧
      validateEngineSelectorDomain quote new = []) as [Ec Hdom].
    { unfold ValidateUpdate in Ha. destruct (checkOverlappingEngineSelectors _ _ new) as [errs|]; [|done].
      destruct (_ && _) eqn:E.
      - apply andb_true_iff in E as [E1%Nat.eqb_eq E2%Nat.eqb_eq]. apply nil_length_inv in E1, E2. subst errs.
        split; [done|]. by eapply collect_domain.
      - apply verdictOf_admitted, app_nil in Ha as [[Hi Hv]%app_nil ->]. split; [done|].
        rewrite Hi, filterIntroduced_valid in Hv. done. }
    apply domain_rule_exact in Hdom.
    assert (∀ other, other ∈ l1 ++ l2 → overlap new other → False) as Hno.
    { intros other Ho Hov. assert (other ∈ l1 ++ old :: l2) as Ho' by (rewrite elem_of_app, elem_of_cons; apply elem_of_app in Ho; tauto).
      pose proof (overlap_check _ _ _ _ _ Ec Hdom Ho' Hov) as Hn.
      rewrite fmap_app, fmap_cons, <-Permutation_middle in Hk. apply NoDup_cons in Hk as [Hk _]. apply Hk.
      rewrite <-fmap_app. apply list_elem_of_fmap. exists other. split; [|done]. rewrite <-Hkk. unfold cbKey.
      destruct Hov as [-> _]. by rewrite Hn. }
    rewrite Forall_app, Forall_cons in Hd. split.
    + by rewrite fmap_app, fmap_cons, Hkk, <-fmap_cons, <-fmap_app.
    + rewrite Forall_app, Forall_cons. tauto.
    + assert (∀ x, x ∈ l1 ++ new :: l2 ↔ x = new ∨ x ∈ l1 ++ l2) as Hin by set_solver.
      intros a b Ha' Hb' Hov. apply Hin in Ha', Hb'. destruct Ha' as [->|Ha'], Hb' as [->|Hb']; [done|..].
      * by destruct (Hno b).
      * destruct (Hno a Ha'). destruct Hov as (? & ? & ?). unfold overlap. split_and!; congruence.
      * apply Hx; [set_solver..|done].
  - rewrite Forall_app, Forall_cons in Hd. split.
    + rewrite fmap_app, fmap_cons, <-Permutation_middle in Hk. apply NoDup_cons in Hk as [_ Hk]. by rewrite fmap_app.
    + rewrite Forall_app. tauto.
    + intros a b Ha' Hb'. apply Hx; set_solver.
Qed.

Lemma backends_reachable_ok registry c : rtc (backendStep quote [] registry) [] c → backends_ok c.
Proof.
  apply rtc_ind_r.
  - split; [constructor|constructor|by intros a b ?%elem_of_nil].
  - intros ? ? _ ? ?. by eapply backends_ok_step.
Qed.
End theorems.
