(* ===== verification/HiCacheTheorems.v ===== *)
(** * SGLang HiCache: admission and the adapter agree, and injection is stable *)

From Stdlib Require Import SpecFloat.
From S2P Require Import Prelude Ordering GoRuntime GoText GoNumbers K8s CoreV1 BackendApi Endpoints Adapters.
From S2P Require Import Renderer EngineWire EngineAdapters UpsertFacts AdapterTheorems Admission Overrides.
From S2P Require Import BackendAdmission BackendValidator BackendTheorems.

Section hicache.
Context `{QO : QuantityOps} `{KV : KValidation}.
Variable quote : string → string.

(** ** Admission accepts what the adapter accepts *)

Lemma ratio_rules s : HiCache.ratioRefused s = badRatio s.
Proof. unfold HiCache.ratioRefused, badRatio. destruct (ParseFloat64 s) as [r|]; [|done]. by destruct (SFleb _ _), (is_nan r), (is_inf r). Qed.

Lemma block_agree hc : validateHiCacheBlock quote hc = [] ↔ ∃ cfg, HiCache.resolveBlock quote hc = inr cfg.
Proof.
  unfold validateHiCacheBlock, HiCache.resolveBlock. rewrite !app_nil, !errWhen_nil, !negb_false_iff, ratio_rules.
  change (validHiCacheWritePolicy (hc_WritePolicy hc)) with (HiCache.validWritePolicy (hc_WritePolicy hc)).
  change (validHiCacheIOBackend (hc_IOBackend hc)) with (HiCache.validIOBackend (hc_IOBackend hc)).
  change (validHiCacheMemoryLayout (hc_MemoryLayout hc)) with (HiCache.validMemoryLayout (hc_MemoryLayout hc)).
  unfold HiCache.fail. destruct (HiCache.validWritePolicy _), (HiCache.validIOBackend _), (HiCache.validMemoryLayout _),
    (str_eqb (hc_Ratio hc) ""), (badRatio (hc_Ratio hc)), (hc_SizeGB hc) as [p|]; cbn [negb andb orb];
    rewrite ?errWhen_nil; try destruct (ptr_val p <? 1); repeat case_bool_decide; naive_solver eauto.
Qed.

(** Overrides are refused for the same arguments. *)
Lemma overrides_agree subscriber runtimeID o :
  reservedErrors quote (HiCache.sglangHiCacheAdapter quote subscriber) runtimeID o = [] ↔ HiCache.checkOverrides quote o = inr tt.
Proof.
  unfold reservedErrors. cbn [ad_ReservedArgs ad_ReservedEnv HiCache.sglangHiCacheAdapter].
  rewrite !app_nil.
  rewrite (eachIndexed_nil _ _ (eo_Args o) (λ e, argFlagToken e ∉ HiCache.hiCacheReservedArgs)); last first.
  { intros p e. rewrite errWhen_nil, andb_false_iff, negb_false_iff, str_eqb_eq, bool_decide_eq_false.
    split; [intros [->|?]; [set_solver|done]|by right]. }
  rewrite (eachIndexed_nil _ _ (eo_SuppressArgs o) (λ e, e ∉ HiCache.hiCacheReservedArgs)) by (intros; by rewrite errWhen_nil, bool_decide_eq_false).
  rewrite (eachIndexed_nil _ _ (eo_Env o) (λ e, True)) by (intros; rewrite errWhen_nil, bool_decide_eq_false; set_solver).
  rewrite (eachIndexed_nil _ _ (eo_SuppressEnv o) (λ e, True)) by (intros; rewrite errWhen_nil, bool_decide_eq_false; set_solver).
  unfold HiCache.checkOverrides, HiCache.fail.
  destruct (List.find _ (eo_Args o)) as [a|] eqn:Ea.
  { apply find_some in Ea as [Hin Ha%bool_decide_eq_true]. split; [|done]. intros [Hall _]. rewrite Forall_forall in Hall.
    destruct (Hall a); [by apply list_elem_of_In|done]. }
  destruct (List.find _ (eo_SuppressArgs o)) as [f|] eqn:Ef.
  { apply find_some in Ef as [Hin Hf%bool_decide_eq_true]. split; [|done]. intros (_ & Hall & _). rewrite Forall_forall in Hall.
    destruct (Hall f); [by apply list_elem_of_In|done]. }
  split; [done|]. intros _. split_and!; apply Forall_forall; [|..|done|done].
  - intros x Hx%list_elem_of_In Hr. apply (find_none _ _ Ea) in Hx. by rewrite bool_decide_eq_false in Hx.
  - intros x Hx%list_elem_of_In Hr. apply (find_none _ _ Ef) in Hx. by rewrite bool_decide_eq_false in Hx.
Qed.

Lemma integration_agree cb :
  match bs_Integration (cb_Spec cb) with
  | None => []
  | Some i =>
      errWhen (negb (str_eqb (in_Role i) "") && negb (str_eqb (in_Role i) RoleReadWrite))
        (errNotSupported quote "spec.integration.role" (BadString (in_Role i)) [RoleReadWrite]) ++
      errWhen (negb (IntegrationFailOpen (Some i)))
        (errNotSupported quote "spec.integration.failOpen" (BadBool false) ["true"])
  end = [] ↔ HiCache.checkIntegration cb = inr tt.
Proof.
  unfold HiCache.checkIntegration, HiCache.fail. destruct (bs_Integration (cb_Spec cb)) as [i|]; [|done].
  rewrite app_nil, !errWhen_nil. destruct (negb _ && negb _), (negb _); naive_solver.
Qed.

Lemma resolve_agree cb :
  bs_Type (cb_Spec cb) = CacheBackendTypeSGLangHiCache →
  HiCache.ValidateHiCacheBackend quote cb = None ↔
  validateSGLangHiCache quote cb = [] ∧
  ∀ o, engineOverridesFor cb = Some o → HiCache.checkOverrides quote o = inr tt.
Proof.
  intros Ht. assert (HiCache.ValidateHiCacheBackend quote cb = None ↔ ∃ cfg, HiCache.resolveHiCacheConfig quote cb = inr cfg) as ->.
  { unfold HiCache.ValidateHiCacheBackend. destruct (HiCache.resolveHiCacheConfig _ _); naive_solver. }
  unfold validateSGLangHiCache, HiCache.resolveHiCacheConfig. rewrite Ht, str_eqb_refl. cbn [negb].
  rewrite !app_nil, !errWhen_nil, integration_agree.
  destruct (str_eqb (ResolveRuntimeID cb) RuntimeSGLang); cbn [negb]; [|unfold HiCache.fail; naive_solver].
  destruct (str_eqb (IntegrationMode _) ModeOffload); cbn [negb]; [|unfold HiCache.fail; naive_solver].
  destruct (HiCache.checkIntegration cb) as [e|[]]; cbn [ebind]; [naive_solver|].
  destruct (bool_decide (matchLabels cb = ∅)); [unfold HiCache.fail; naive_solver|].
  unfold engineOverridesFor. destruct (bs_Integration (cb_Spec cb) ≫= in_EngineOverrides) as [o|]; cbn [ebind].
  - destruct (HiCache.checkOverrides quote o) as [e|[]] eqn:Eo; cbn [ebind]; [split; [by intros [? ?]|]; intros [_ H]; by rewrite (H o) in Eo|].
    destruct (bs_HiCache (cb_Spec cb)) as [hc|]; [rewrite <-block_agree|unfold HiCache.fail; naive_solver].
    split; [intros ->; split_and!; naive_solver|naive_solver].
  - destruct (bs_HiCache (cb_Spec cb)) as [hc|]; [rewrite <-block_agree|unfold HiCache.fail; naive_solver].
    split; [intros ->; split_and!; naive_solver|naive_solver].
Qed.

(** ** Injecting again *)

Definition hiFlags : list string :=
  [HiCache.SGLangHiCacheSizeArg; HiCache.SGLangHiCacheRatioArg; HiCache.SGLangHiCacheWritePolicyArg;
   HiCache.SGLangHiCacheIOBackendArg; HiCache.SGLangHiCacheMemoryLayoutArg].

Definition flat (ds : list HiCache.desiredArg) : list string := ds ≫= λ d, [HiCache.da_flag d; HiCache.da_value d].

Lemma flat_cons d ds : flat (d :: ds) = HiCache.da_flag d :: HiCache.da_value d :: flat ds.
Proof. done. Qed.

(** A value an engine cannot take for a flag. *)
Definition plainValue (v : string) : Prop := HasPrefix v "--" = false.

Lemma plain_not v f : plainValue v → HasPrefix f "--" = true → str_eqb v f = false ∧ HasPrefix v (f +:+ "=") = false.
Proof.
  intros Hv Hf. split; [apply str_eqb_neq; intros ->; unfold plainValue in Hv; congruence|].
  destruct (HasPrefix v (f +:+ "=")) eqn:E; [|done]. apply HasPrefix_spec in E as [r ->]. apply HasPrefix_spec in Hf as [q ->].
  unfold plainValue in Hv. rewrite !str_app_assoc, HasPrefix_app in Hv. done.
Qed.

Lemma flag_other f g : f ∈ hiFlags → g ∈ hiFlags → f ≠ g → HasPrefix f (g +:+ "=") = false.
Proof. unfold hiFlags. intros Hf Hg. set_unfold. intros Hne. destruct_or!; subst; done. Qed.

Lemma flag_dashes f : f ∈ hiFlags → HasPrefix f "--" = true.
Proof. unfold hiFlags. intros Hf. set_unfold. destruct_or!; subst; done. Qed.

(** The arguments an edit appends. *)
Definition goodArg (d : HiCache.desiredArg) : Prop := HiCache.da_flag d ∈ hiFlags ∧ plainValue (HiCache.da_value d).

Lemma argValues_flat f ds :
  f ∈ hiFlags → Forall goodArg ds →
  argValues (flat ds) f = (HiCache.da_value <$> List.filter (λ d, str_eqb (HiCache.da_flag d) f) ds, false).
Proof.
  intros Hf. induction 1 as [|d ds [Hd Hv] _ IH]; [done|]. rewrite flat_cons. cbn [List.filter].
  rewrite argValues_cons. destruct (str_eqb (HiCache.da_flag d) f) eqn:E.
  - unfold plainValue in Hv. rewrite Hv. by rewrite IH.
  - rewrite flag_other by (done || by apply str_eqb_neq). rewrite argValues_cons.
    destruct (plain_not _ _ Hv (flag_dashes f Hf)) as [-> ->]. apply IH.
Qed.

(** What the injected list is: the template, and words the edits append. *)
Definition appended (ds : list HiCache.desiredArg) (e m : list string) : list string := e ++ flat ds ++ m.

Lemma argValues_appended args f ds e m :
  f ∈ hiFlags → Forall goodArg ds → e ∈ [[]; [HiCache.SGLangEnableHiCacheArg]] → m ∈ [[]; [SGLangEnableMetricsArg]] →
  (argValues args f).2 = false →
  argValues (args ++ appended ds e m) f =
    ((argValues args f).1 ++ (HiCache.da_value <$> List.filter (λ d, str_eqb (HiCache.da_flag d) f) ds), false).
Proof.
  intros Hf Hds He Hm Hwf. assert (argValues e f = ([], false) ∧ argValues m f = ([], false)) as [Ee Em].
  { unfold hiFlags in Hf. set_unfold. destruct_or!; subst; done. }
  unfold appended. rewrite argValues_app by done. rewrite argValues_app by (by rewrite Ee).
  rewrite argValues_app by (by rewrite argValues_flat). rewrite Ee, Em, argValues_flat by done. simpl. by rewrite app_nil_r.
Qed.

Lemma flat_words (p : string → bool) ds :
  (∀ f, f ∈ hiFlags → p f = false) → (∀ v, plainValue v → p v = false) → Forall goodArg ds → existsb p (flat ds) = false.
Proof.
  intros Hf Hv. induction 1 as [|d ds [Hd Hp] _ IH]; [done|]. rewrite flat_cons. cbn [existsb].
  by rewrite (Hf _ Hd), (Hv _ Hp).
Qed.

Lemma filter_existsb {A : Type} (p : A → bool) l : existsb p l = false → List.filter p l = [].
Proof. induction l as [|x l IH]; [done|]. simpl. destruct (p x); [done|]. auto. Qed.

(** Appending keeps the boolean flag single and without a value, and adds no LMCache flag. *)
Lemma enable_appended args ds m :
  Forall goodArg ds → m ∈ [[]; [SGLangEnableMetricsArg]] → HiCache.validateEnableArg args = None →
  ∃ e, e ∈ [[]; [HiCache.SGLangEnableHiCacheArg]] ∧ UpsertFlag args HiCache.SGLangEnableHiCacheArg = args ++ e ∧
    HiCache.SGLangEnableHiCacheArg ∈ args ++ e ∧ HiCache.validateEnableArg (args ++ appended ds e m) = None.
Proof.
  intros Hds Hm. unfold HiCache.validateEnableArg. destruct (existsb _ args) eqn:Ex; [done|].
  destruct (1 <? _)%nat eqn:Ec; [done|]. apply Nat.ltb_ge in Ec. intros _.
  set (en := HiCache.SGLangEnableHiCacheArg) in *.
  exists (if bool_decide (en ∈ args) then [] else [en]). split_and!.
  - case_bool_decide; set_solver.
  - unfold UpsertFlag. case_bool_decide; [by rewrite app_nil_r|done].
  - case_bool_decide; set_solver.
  - set (e := if bool_decide _ then _ else _).
    assert (existsb (λ a, HasPrefix a (en +:+ "=")) (args ++ appended ds e m) = false) as ->.
    { unfold appended. rewrite !existsb_app, Ex, (flat_words _ ds).
      - unfold e. case_bool_decide; set_unfold; destruct_or!; subst m; done.
      - intros f Hf. unfold hiFlags in Hf. set_unfold. destruct_or!; subst; done.
      - intros v Hv. by apply (plain_not v en).
      - done. }
    assert (length (List.filter (str_eqb en) (args ++ appended ds e m)) ≤ 1)%nat as Hl; [|apply Nat.ltb_ge in Hl; by rewrite Hl].
    unfold appended. rewrite !List.filter_app, !length_app.
    rewrite (filter_existsb (str_eqb en) (flat ds)); last first.
    { apply flat_words; [|intros v Hv|done].
      - intros f Hf. unfold hiFlags in Hf. set_unfold. destruct_or!; subst; done.
      - apply str_eqb_neq. intros <-. done. }
    assert (length (List.filter (str_eqb en) m) = 0%nat) as -> by (set_unfold; destruct_or!; by subst m).
    unfold e. case_bool_decide as Hin; cbn [length List.filter]; [lia|].
    rewrite (filter_existsb (str_eqb en) args); [by rewrite str_eqb_refl; simpl; lia|].
    destruct (existsb (str_eqb en) args) eqn:E; [|done]. apply existsb_exists in E as (x & Hx & Hex%str_eqb_eq). subst x.
    by destruct Hin; apply list_elem_of_In.
Qed.

(** *** What is missing *)

(** The template's word for a wanted argument: absent, or one equivalent value. *)
Definition settled (args : list string) (d : HiCache.desiredArg) : Prop :=
  argValues args (HiCache.da_flag d) = ([], false) ∨
  ∃ v, argValues args (HiCache.da_flag d) = ([v], false) ∧ HiCache.da_equivalent d v (HiCache.da_value d) = true.

Definition absent (args : list string) (d : HiCache.desiredArg) : bool :=
  bool_decide ((argValues args (HiCache.da_flag d)).1 = []).

Lemma missing_spec args ds ms :
  HiCache.missingArgs quote args ds = inr ms → Forall (settled args) ds ∧ ms = List.filter (absent args) ds.
Proof.
  revert ms. induction ds as [|d ds IH]; intros ms; cbn [HiCache.missingArgs List.filter]; [by intros [= <-]|].
  destruct (argValues args (HiCache.da_flag d)) as [vs [|]] eqn:E; [done|]. cbn [orb]. destruct (1 <? length vs)%nat eqn:El; [done|].
  unfold absent at 1. rewrite E. cbn [fst]. destruct vs as [|v vs].
  - intros (more & (Hs & ->)%IH & [= <-])%ebind_inr. split; [constructor; [by left|done]|]. by rewrite bool_decide_true.
  - destruct (HiCache.da_equivalent d v _) eqn:Ee; [|done]. intros (Hs & ->)%IH. rewrite bool_decide_false by done.
    split; [|done]. constructor; [|done]. right. exists v. destruct vs; [done|]. apply Nat.ltb_ge in El. simpl in El. lia.
Qed.

Lemma missing_none args ds :
  Forall (λ d, ∃ v, argValues args (HiCache.da_flag d) = ([v], false) ∧ HiCache.da_equivalent d v (HiCache.da_value d) = true) ds →
  HiCache.missingArgs quote args ds = inr [].
Proof. induction 1 as [|d ds (v & E & Ee) _ IH]; [done|]. cbn [HiCache.missingArgs]. rewrite E. simpl. by rewrite Ee. Qed.

Lemma filter_flag ds d :
  NoDup (HiCache.da_flag <$> ds) → d ∈ ds → List.filter (λ d', str_eqb (HiCache.da_flag d') (HiCache.da_flag d)) ds = [d].
Proof.
  induction ds as [|x ds IH]; [by intros _ ?%elem_of_nil|]. rewrite fmap_cons. intros [Hx Hnd]%NoDup_cons [->|Hd]%elem_of_cons; cbn [List.filter].
  - rewrite str_eqb_refl. f_equal. destruct (List.filter _ ds) as [|y ys] eqn:E; [done|]. exfalso. apply Hx.
    assert (y ∈ List.filter (λ d', str_eqb (HiCache.da_flag d') (HiCache.da_flag x)) ds) as Hy by (rewrite E; left).
    apply elem_of_List_filter in Hy as [Hf%str_eqb_eq Hy]. rewrite <-Hf. by apply list_elem_of_fmap_2.
  - replace (str_eqb (HiCache.da_flag x) (HiCache.da_flag d)) with false; [by apply IH|].
    symmetry. apply str_eqb_neq. intros E. apply Hx. rewrite E. by apply list_elem_of_fmap_2.
Qed.

(** After the edit every wanted argument has one equivalent value, and a flag nobody wants
    keeps the values it had. *)
Lemma values_after args ds e m f :
  f ∈ hiFlags → Forall goodArg ds → NoDup (HiCache.da_flag <$> ds) → Forall (settled args) ds →
  e ∈ [[]; [HiCache.SGLangEnableHiCacheArg]] → m ∈ [[]; [SGLangEnableMetricsArg]] → (argValues args f).2 = false →
  let after := argValues (args ++ appended (List.filter (absent args) ds) e m) f in
  (∀ d, d ∈ ds → HiCache.da_flag d = f → (∀ v, v = HiCache.da_value d → HiCache.da_equivalent d v v = true) →
     ∃ v, after = ([v], false) ∧ HiCache.da_equivalent d v (HiCache.da_value d) = true) ∧
  (f ∉ HiCache.da_flag <$> ds → after = argValues args f).
Proof.
  intros Hf Hg Hnd Hs He Hm Hwf after.
  assert (Forall goodArg (List.filter (absent args) ds)) as Hg'.
  { rewrite Forall_forall in *. intros d [_ ?]%elem_of_List_filter. auto. }
  unfold after. rewrite argValues_appended by done. split.
  - intros d Hd <- Hr. rewrite Forall_forall in Hs. destruct (Hs d Hd) as [E|(v & E & Ev)]; rewrite E; cbn [fst app].
    + exists (HiCache.da_value d). split; [|by apply Hr].
      rewrite (filter_flag _ d); [done| |].
      * by apply NoDup_fmap_filter.
      * apply elem_of_List_filter. split; [|done]. unfold absent. by rewrite E.
    + exists v. split; [|done].
      assert (List.filter (λ d', str_eqb (HiCache.da_flag d') (HiCache.da_flag d)) (List.filter (absent args) ds) = []) as ->; [|done].
      destruct (List.filter _ (List.filter _ _)) as [|y ys] eqn:Ef; [done|]. exfalso.
      assert (y ∈ y :: ys) as Hy by left. rewrite <-Ef in Hy. apply elem_of_List_filter in Hy as [Hyf%str_eqb_eq Hy].
      apply elem_of_List_filter in Hy as [Hab _]. unfold absent in Hab. rewrite Hyf, E in Hab. done.
  - intros Hno. destruct (List.filter _ (List.filter _ _)) as [|y ys] eqn:Ef.
    + rewrite app_nil_r. destruct (argValues args f). simpl in *. by subst.
    + exfalso. apply Hno. assert (y ∈ y :: ys) as Hy by left. rewrite <-Ef in Hy.
      apply elem_of_List_filter in Hy as [Hyf%str_eqb_eq [_ Hy]%elem_of_List_filter]. subst f. by apply list_elem_of_fmap_2.
Qed.

(** *** The arguments a configuration asks for *)

Lemma ParseFloat64_dashes r : ParseFloat64 ("--" +:+ r) = None.
Proof.
  change ("--" +:+ r) with (String "-" (String "-" r)). unfold ParseFloat64.
  assert (specialFloat (String "-" (String "-" r)) = None) as -> by done. done.
Qed.

Lemma equivalentNumber_refl v : HiCache.ratioRefused v = false → HiCache.equivalentNumber v v = true.
Proof.
  unfold HiCache.ratioRefused, HiCache.equivalentNumber. destruct (ParseFloat64 v) as [x|]; [|done].
  rewrite !orb_false_iff. intros [[H0 Hn] Hi]. rewrite Hn, Hi. cbn [negb andb].
  unfold SFeqb, SFcompare. destruct x as [| | |[] m e]; try done; by rewrite Z.compare_refl, Pos.compare_cont_refl.
Qed.

(** A stored size fits an int32. *)
Definition sizeInt32 (hc : SGLangHiCacheSpec) : Prop := ∀ p, hc_SizeGB hc = Some p → - 2 ^ 31 ≤ ptr_val p < 2 ^ 31.

Lemma enum_plain v l : bool_decide (v ∈ l) = true → Forall plainValue l → plainValue v.
Proof. rewrite bool_decide_eq_true, Forall_forall. auto. Qed.

Lemma optional_good f v l :
  f ∈ hiFlags → bool_decide (v ∈ l) = true → Forall plainValue l →
  Forall (λ d, goodArg d ∧ HiCache.da_equivalent d (HiCache.da_value d) (HiCache.da_value d) = true)
    (if str_eqb v "" then [] else [HiCache.mkDesired f v str_eqb]).
Proof.
  intros Hf Hv Hl. destruct (str_eqb v ""); [done|]. apply Forall_singleton.
  split; [split; [done|by eapply enum_plain]|apply str_eqb_refl].
Qed.

Lemma desired_good hc cfg :
  sizeInt32 hc → HiCache.resolveBlock quote hc = inr cfg →
  Forall (λ d, goodArg d ∧ HiCache.da_equivalent d (HiCache.da_value d) (HiCache.da_value d) = true) (HiCache.desiredArgs cfg).
Proof.
  intros Hsz. unfold HiCache.resolveBlock, HiCache.fail. destruct (_ || _) eqn:Eone; [done|].
  destruct (match hc_SizeGB hc with Some _ => _ | None => _ end); [done|]. destruct (negb _ && HiCache.ratioRefused _) eqn:Er; [done|].
  destruct (HiCache.validWritePolicy (hc_WritePolicy hc)) eqn:Ew; cbn [negb]; [|done].
  destruct (HiCache.validIOBackend (hc_IOBackend hc)) eqn:Ei; cbn [negb]; [|done].
  destruct (HiCache.validMemoryLayout (hc_MemoryLayout hc)) eqn:Em; cbn [negb]; [|done]. intros [= <-].
  unfold HiCache.desiredArgs. cbn [HiCache.rc_sizeGB HiCache.rc_ratio HiCache.rc_writePolicy HiCache.rc_ioBackend HiCache.rc_memoryLayout].
  rewrite !Forall_app. split_and!; [|by eapply optional_good; [set_solver|done|repeat constructor]..].
  destruct (hc_SizeGB hc) as [p|] eqn:Es; cbn [fmap option_fmap option_map]; apply Forall_singleton.
  - split; [split; [set_solver|apply FormatInt_noFlag]|]. cbn [HiCache.da_equivalent HiCache.da_value].
    unfold HiCache.equivalentInteger. specialize (Hsz p Es).
    rewrite ParseInt64_FormatInt by (unfold MinInt64, MaxInt64; lia). apply Z.eqb_refl.
  - destruct (str_eqb (hc_Ratio hc) ""); [by rewrite bool_decide_true in Eone|]. cbn [negb andb] in Er.
    split; [split; [set_solver|]|by apply equivalentNumber_refl]. cbn [HiCache.da_value].
    unfold plainValue. destruct (HasPrefix (hc_Ratio hc) "--") eqn:E; [|done]. apply HasPrefix_spec in E as [r E].
    unfold HiCache.ratioRefused in Er. by rewrite E, ParseFloat64_dashes in Er.
Qed.

Lemma desired_NoDup cfg : NoDup (HiCache.da_flag <$> HiCache.desiredArgs cfg).
Proof.
  unfold HiCache.desiredArgs. destruct (HiCache.rc_sizeGB cfg), (str_eqb (HiCache.rc_writePolicy cfg) ""),
    (str_eqb (HiCache.rc_ioBackend cfg) ""), (str_eqb (HiCache.rc_memoryLayout cfg) ""); simpl;
    rewrite <-(bool_decide_eq_true (NoDup _)); vm_compute; done.
Qed.

(** *** The adapter *)

Lemma lmcache_appended args ds e m :
  Forall goodArg ds → e ∈ [[]; [HiCache.SGLangEnableHiCacheArg]] → m ∈ [[]; [SGLangEnableMetricsArg]] →
  ∀ f, f ∈ [SGLangEnableLMCacheArg; SGLangConfigFileArg] → hasArg args f = false → hasArg (args ++ appended ds e m) f = false.
Proof.
  intros Hg He Hm f Hf Hno. unfold hasArg, appended. rewrite !existsb_app. unfold hasArg in Hno. rewrite Hno.
  assert (HasPrefix f "--" = true) as Hdash by (set_unfold; destruct_or!; by subst f).
  rewrite flat_words; [|..|done].
  - set_unfold; destruct_or!; subst; done.
  - intros g Hg'. unfold hiFlags in Hg'. set_unfold; destruct_or!; subst; done.
  - intros v Hv. by destruct (plain_not v f Hv Hdash) as [-> ->].
Qed.

(** The flag that must stay away is no wanted one. *)
Lemma size_ratio_exclusive cfg :
  (if HiCache.rc_sizeGB cfg then HiCache.SGLangHiCacheRatioArg else HiCache.SGLangHiCacheSizeArg) ∉ HiCache.da_flag <$> HiCache.desiredArgs cfg.
Proof.
  unfold HiCache.desiredArgs. destruct (HiCache.rc_sizeGB cfg), (str_eqb (HiCache.rc_writePolicy cfg) ""),
    (str_eqb (HiCache.rc_ioBackend cfg) ""), (str_eqb (HiCache.rc_memoryLayout cfg) ""); simpl;
    rewrite !not_elem_of_cons; split_and?; try done; by intros ?%elem_of_nil.
Qed.

(** What the edits append to a template whose switch is well formed. *)
Lemma upsert_shape args ms :
  Forall goodArg ms → HiCache.validateEnableArg args = None →
  ∃ e m, e ∈ [[]; [HiCache.SGLangEnableHiCacheArg]] ∧ m ∈ [[]; [SGLangEnableMetricsArg]] ∧
    UpsertFlag (UpsertFlag args HiCache.SGLangEnableHiCacheArg ++ flat ms) SGLangEnableMetricsArg = args ++ appended ms e m ∧
    HiCache.SGLangEnableHiCacheArg ∈ args ++ e ∧ HiCache.validateEnableArg (args ++ appended ms e m) = None.
Proof.
  intros Hg Hen. destruct (enable_appended args ms [] Hg (ltac:(set_solver)) Hen) as (e & He & Eu & Hin & _).
  rewrite Eu. exists e, (if bool_decide (SGLangEnableMetricsArg ∈ (args ++ e) ++ flat ms) then [] else [SGLangEnableMetricsArg]).
  set (m := if bool_decide _ then _ else _). assert (m ∈ [[]; [SGLangEnableMetricsArg]]) as Hm by (unfold m; case_bool_decide; set_solver).
  split_and!; [done|done| |done|].
  - unfold UpsertFlag, appended, m. case_bool_decide; by rewrite ?app_nil_r, <-?app_assoc.
  - destruct (enable_appended args ms m Hg Hm Hen) as (e' & _ & Eu' & _ & Hv).
    assert (e' = e) as -> by (apply (inj (app args)); congruence). done.
Qed.

Lemma hiCacheArgs_stable args cfg args' :
  Forall (λ d, goodArg d ∧ HiCache.da_equivalent d (HiCache.da_value d) (HiCache.da_value d) = true) (HiCache.desiredArgs cfg) →
  HiCache.hiCacheArgs quote args cfg = inr args' → HiCache.hiCacheArgs quote args' cfg = inr args'.
Proof.
  intros [Hg Hr]%Forall_and. unfold HiCache.hiCacheArgs at 1.
  intros ([] & H1 & ([] & H2 & ([] & H3 & ([] & H4 & (ms & [Hs ->]%missing_spec & [= <-])%ebind_inr)%ebind_inr)%ebind_inr)%ebind_inr)%ebind_inr.
  fold (flat (List.filter (absent args) (HiCache.desiredArgs cfg))). set (ds := HiCache.desiredArgs cfg) in *.
  assert (NoDup (HiCache.da_flag <$> ds)) as Hnd by apply desired_NoDup.
  assert (Forall goodArg (List.filter (absent args) ds)) as Hg'.
  { rewrite Forall_forall in Hg |- *. intros d [_ ?]%elem_of_List_filter. auto. }
  destruct (HiCache.validateEnableArg args) eqn:Hen; [done|].
  destruct (upsert_shape args _ Hg' Hen) as (e & m & He & Hm & E & Hin & Hen').
  assert (SGLangEnableMetricsArg ∈ args ++ appended (List.filter (absent args) ds) e m) as Hmet by (rewrite <-E; apply UpsertFlag_in).
  rewrite E. set (out := args ++ _) in *.
  assert (∀ f, f ∈ hiFlags → (argValues args f).2 = false → f ∉ HiCache.da_flag <$> ds → argValues out f = argValues args f) as Hkeep.
  { intros f Hf Hwf. by apply values_after. }
  assert (∀ d, d ∈ ds → ∃ v, argValues out (HiCache.da_flag d) = ([v], false) ∧ HiCache.da_equivalent d v (HiCache.da_value d) = true) as Hgot.
  { intros d Hd. rewrite Forall_forall in Hr. rewrite Forall_forall in Hg, Hs. eapply values_after; [| | |..|done|done|]; try done.
    - by apply Hg.
    - by apply Forall_forall.
    - by apply Forall_forall.
    - destruct (Hs d Hd) as [-> | (v & -> & _)]; done.
    - intros v ->. by apply Hr. }
  unfold HiCache.hiCacheArgs.
  assert (hasArg out SGLangEnableLMCacheArg || hasArg out SGLangConfigFileArg = false) as ->.
  { destruct (_ || _) eqn:Elm in H1; [done|]. apply orb_false_iff in Elm as [? ?]. apply orb_false_iff.
    split; apply lmcache_appended; try done; set_solver. }
  cbn [echeck ebind]. rewrite Hen'. cbn [echeck ebind].
  assert (∀ f, f ∈ hiFlags → atMostOnce args f = true → atMostOnce out f = true) as Hamo.
  { intros f Hf Ha. destruct (decide (f ∈ HiCache.da_flag <$> ds)) as [(d & -> & Hd)%list_elem_of_fmap|Hno].
    - destruct (Hgot d Hd) as (v & Ev & _). unfold atMostOnce. by rewrite Ev.
    - unfold atMostOnce in *. rewrite Hkeep; [done..| |done]. by destruct (argValues args f) as [vs []]. }
  destruct (List.find _ _) as [f|] eqn:Ef in H3; [done|].
  destruct (List.find (λ f, negb (atMostOnce out f)) _) as [f|] eqn:Ef'.
  { apply find_some in Ef' as [Hin' Hbad]. pose proof (find_none _ _ Ef f Hin') as Hok. simpl in Hok. apply negb_false_iff in Hok.
    rewrite Hamo in Hbad; [done| |done]. unfold hiFlags. apply list_elem_of_In in Hin'. set_solver. }
  cbn [option_bind mbind echeck ebind].
  assert (∀ flag reason, flag ∈ hiFlags → flag ∉ HiCache.da_flag <$> ds → HiCache.rejectPresentArg args flag reason = None →
    HiCache.rejectPresentArg out flag reason = None) as Hrej.
  { intros flag reason Hf Hno. unfold HiCache.rejectPresentArg. destruct (argValues args flag) as [vs []] eqn:Ea; [done|].
    rewrite Hkeep; [by rewrite Ea|done|by rewrite Ea|done]. }
  pose proof (size_ratio_exclusive cfg) as Hex. fold ds in Hex.
  assert ((match HiCache.rc_sizeGB cfg with
     | Some _ => HiCache.rejectPresentArg out HiCache.SGLangHiCacheRatioArg "conflicts with spec.hiCache.sizeGB"
     | None => HiCache.rejectPresentArg out HiCache.SGLangHiCacheSizeArg "conflicts with spec.hiCache.ratio" end) = None) as ->.
  { destruct (HiCache.rc_sizeGB cfg); (apply Hrej; [set_solver|done|]);
      [destruct (HiCache.rejectPresentArg args HiCache.SGLangHiCacheRatioArg _)|destruct (HiCache.rejectPresentArg args HiCache.SGLangHiCacheSizeArg _)]; done. }
  cbn [echeck ebind]. fold ds. rewrite missing_none by (by apply Forall_forall). cbn [ebind mbind list_bind].
  rewrite app_nil_r, !UpsertFlag_id; [done|unfold out, appended; rewrite app_assoc; set_solver|].
  rewrite UpsertFlag_id; [done|unfold out, appended; rewrite app_assoc; set_solver].
Qed.

Lemma resolved_block cache cfg :
  HiCache.resolveHiCacheConfig quote cache = inr cfg →
  ∃ hc, bs_HiCache (cb_Spec cache) = Some hc ∧ HiCache.resolveBlock quote hc = inr cfg.
Proof.
  unfold HiCache.resolveHiCacheConfig, HiCache.fail. do 3 (destruct (negb _); [done|]).
  intros ([] & _ & H)%ebind_inr. destruct (bool_decide _); [done|]. apply ebind_inr in H as ([] & _ & H).
  destruct (bs_HiCache _) as [hc|]; [eauto|done].
Qed.

(** Injecting into a pod that was injected changes nothing. *)
Lemma hicache_idempotent pod binding cache pod' :
  (∀ hc, bs_HiCache (cb_Spec cache) = Some hc → sizeInt32 hc) →
  HiCache.InjectEngineConfig quote pod binding cache = inr pod' →
  HiCache.InjectEngineConfig quote pod' binding cache = inr pod'.
Proof.
  intros Hsz. unfold HiCache.InjectEngineConfig. destruct binding as [b|]; [done|].
  intros (cfg & Hc & ([] & Hne & (i & Hi & (args' & Ha & [= <-])%ebind_inr)%ebind_inr)%ebind_inr)%ebind_inr.
  rewrite Hc. cbn [ebind].
  set (f := λ c, set_engine args' (cn_Env c) c).
  assert (EngineContainerIndexNamed quote (updateEngine f i pod) SGLangEngineContainerName = inr i) as Hi'.
  { rewrite <-Hi. apply index_names. by apply updateEngine_names. }
  destruct (index_lookup _ _ _ _ Hi) as [c Hl]. rewrite Hl in Ha.
  assert (psp_Containers (updateEngine f i pod) !! i = Some (f c)) as Hl'.
  { unfold updateEngine. cbn [psp_Containers set_containers]. by rewrite list_lookup_alter_eq, Hl. }
  destruct (psp_Containers (updateEngine f i pod)) as [|c0 cs] eqn:Ecs; [done|]. rewrite <-Ecs in Hl'. cbn [echeck ebind].
  rewrite Hi'. cbn [ebind]. rewrite <-Ecs, Hl'.
  assert (HiCache.hiCacheArgs quote (cn_Args (f c)) cfg = inr args') as ->.
  { apply (hiCacheArgs_stable (cn_Args c)); [|done]. destruct (resolved_block _ _ Hc) as (hc & Hb & Hrb). eapply desired_good; eauto. }
  cbn [ebind]. f_equal. apply updateEngine_idemp. intros c'. by destruct c'.
Qed.
End hicache.
