(* ===== verification/InjectionTheorems.v ===== *)
(** * From admission to a wired pod

    The composition of CacheBackend admission, the pod injector, the override merge and the
    event controller. *)

From S2P Require Import Prelude Ordering GoRuntime GoText K8s Admission CoreV1 BackendApi Endpoints Adapters.
From S2P Require Import Overrides BackendAdmission BackendValidator BackendTheorems PodInjector PodEvents.

Section injection.
Context `{QO : QuantityOps} `{KV : KValidation}.
Context (quote : string → string).

(** ** One owner per pod *)

(** The injector's reader lists the cluster. *)
Definition reads (h : EngineInjector) (c : list CacheBackend) : Prop :=
  ∀ ns, ei_Reader h ns = inr (List.filter (λ cb, str_eqb (cb_Namespace cb) ns) c).

(** A selector of one domain claims the pods labelled with it. *)
Lemma claims_domain pod cb d :
  matchLabels cb = {[CacheBackendDomainLabel := d]} →
  claims pod cb = true ↔ p_Labels pod !! CacheBackendDomainLabel = Some d.
Proof.
  intros Hl. unfold claims, selectorMatches. rewrite Hl, bool_decide_false.
  - cbn [negb andb]. by rewrite bool_decide_eq_true, map_Forall_singleton.
  - intros E. apply (f_equal (.!! CacheBackendDomainLabel)) in E. by rewrite lookup_singleton_eq, lookup_empty in E.
Qed.

Lemma claimed_overlap pod a b :
  domainSelector a → domainSelector b → cb_Namespace a = cb_Namespace b →
  claims pod a = true → claims pod b = true → overlap a b.
Proof.
  intros Ha Hb Hns Hca Hcb.
  assert (∀ cb, domainSelector cb → claims pod cb = true →
    ∃ d, matchLabels cb = {[CacheBackendDomainLabel := d]} ∧ p_Labels pod !! CacheBackendDomainLabel = Some d) as H.
  { intros cb [He|(d & _ & Hl)] Hc; [unfold claims in Hc; by rewrite He, bool_decide_true in Hc|].
    exists d. split; [done|]. by apply (claims_domain pod cb). }
  destruct (H a Ha Hca) as (d & Hla & Hpa), (H b Hb Hcb) as (d' & Hlb & Hpb).
  assert (d' = d) as -> by congruence. split_and!; [done| |congruence].
  rewrite Hla. intros E. apply (f_equal (.!! CacheBackendDomainLabel)) in E. by rewrite lookup_singleton_eq, lookup_empty in E.
Qed.

Lemma NoDup_same {A : Type} (P : A → bool) (l : list A) a b rest :
  NoDup l → List.filter P l = a :: b :: rest → a ≠ b.
Proof.
  intros Hnd E. assert (NoDup (List.filter P l)) as H.
  { pose proof (NoDup_fmap_filter id P l) as H. rewrite !list_fmap_id in H. by apply H. }
  rewrite E in H. apply NoDup_cons in H as [H _]. set_solver.
Qed.

(** A pod's owner is the object whose cache domain it is labelled with, and there is at most
    one when the objects were accepted one after another. *)
Lemma owner_exact registry h c pod :
  rtc (backendStep quote [] registry) [] c → reads h c →
  (∀ names, selectCacheBackend h pod ≠ Ambiguous names) ∧
  (∀ cb, selectCacheBackend h pod = OneBackend cb ↔
     cb ∈ c ∧ cb_Namespace cb = p_Namespace pod ∧ claims pod cb = true).
Proof.
  intros Hr Hread. destruct (backends_reachable_ok quote registry c Hr) as [Hk Hd Hx].
  unfold selectCacheBackend. rewrite Hread.
  set (items := List.filter _ c). set (sorted := go_sort _ items).
  assert (∀ cb, cb ∈ List.filter (claims pod) sorted ↔
    cb ∈ c ∧ cb_Namespace cb = p_Namespace pod ∧ claims pod cb = true) as Hin.
  { intros cb. rewrite elem_of_List_filter. unfold sorted. rewrite elem_of_go_sort. unfold items.
    rewrite elem_of_List_filter, str_eqb_eq. tauto. }
  assert (∀ a b, a ∈ List.filter (claims pod) sorted → b ∈ List.filter (claims pod) sorted → a = b) as Huniq.
  { intros a b (Ha & Hna & Hca)%Hin (Hb & Hnb & Hcb)%Hin. rewrite Forall_forall in Hd.
    apply Hx; [done..|]. apply (claimed_overlap pod); [auto..|congruence|done|done]. }
  assert (NoDup sorted) as Hnd.
  { unfold sorted. rewrite go_sort_Permutation. unfold items. apply (NoDup_fmap_1 cbKey). by apply NoDup_fmap_filter. }
  destruct (List.filter (claims pod) sorted) as [|x [|y rest]] eqn:E.
  - split; [done|]. intros cb. rewrite <-Hin. split; [done|]. by intros ?%elem_of_nil.
  - split; [done|]. intros cb. rewrite <-Hin, list_elem_of_singleton. split; [by intros [= ->]|by intros ->].
  - exfalso. apply (NoDup_same _ _ _ _ _ Hnd E), Huniq; set_solver.
Qed.

(** ** What the response persists *)

Context (unmarshal : string → string + Pod) (marshal : Pod → string + string).

(** The document the apiserver stores after the response; none when it is refused. *)
Definition persisted (req : Request) (resp : Response) : option string :=
  match resp with
  | Allowed _ => Some (rq_Raw req)
  | Denied _ => None
  | Patched _ new => Some new
  end.

(** A codec that encodes every pod and reads back what it wrote. *)
Definition codec : Prop := ∀ p, ∃ s, marshal p = inr s ∧ unmarshal s = inr p.

(** The pod as the handler sees it: the request's namespace when it has none. *)
Definition admittedPod (req : Request) (pod : Pod) : Pod :=
  if str_eqb (p_Namespace pod) "" then
    mkPod (rq_Namespace req) (p_Name pod) (p_UID pod) (p_Labels pod) (p_Annotations pod) (p_Spec pod)
  else pod.

Lemma clearStamps_lookup ks a k :
  clearStamps ks a !! k = if bool_decide (k ∈ ks) then None else a !! k.
Proof.
  unfold clearStamps. revert a. induction ks as [|x ks IH]; intros a; cbn [foldl]; [done|]. rewrite IH.
  destruct (decide (k = x)) as [->|Hne].
  - rewrite (bool_decide_true (x ∈ x :: ks)) by left. case_bool_decide; [done|]. by rewrite lookup_delete_eq.
  - rewrite lookup_delete_ne by done. by rewrite (bool_decide_ext (k ∈ ks) (k ∈ x :: ks)) by set_solver.
Qed.

Lemma strGet_clear ks a k : k ∈ ks → strGet (clearStamps ks a) k = "".
Proof. intros Hk. unfold strGet. by rewrite clearStamps_lookup, bool_decide_true. Qed.

Lemma strGet_keep ks a k : k ∉ ks → strGet (clearStamps ks a) k = strGet a k.
Proof. intros Hk. unfold strGet. by rewrite clearStamps_lookup, bool_decide_false. Qed.

(** Every pod left unwired loses the stamps it came with. *)
Lemma failOpen_unstamped req pod reason doc pod' :
  codec → unmarshal (rq_Raw req) = inr pod →
  persisted req (failOpen marshal (rq_Raw req) (admittedPod req pod) reason) = Some doc →
  unmarshal doc = inr pod' → ∀ k, k ∈ injectionStamps → strGet (p_Annotations pod') k = "".
Proof.
  intros Hc Hraw. unfold failOpen.
  assert (p_Annotations (admittedPod req pod) = p_Annotations pod) as Ha by (unfold admittedPod; by destruct (str_eqb _ _)).
  rewrite Ha. destruct (forallb _ _) eqn:E.
  - intros [= <-] Hd k Hk. rewrite Hraw in Hd. injection Hd as <-.
    rewrite forallb_forall in E. apply str_eqb_eq, E. by apply list_elem_of_In.
  - destruct (Hc (set_annotations (clearStamps injectionStamps (p_Annotations pod)) (admittedPod req pod))) as (s & -> & Hs).
    intros [= <-] Hd k Hk. rewrite Hs in Hd. apply (inj inr) in Hd as <-. cbn [p_Annotations set_annotations]. by apply strGet_clear.
Qed.

(** What the injector decides about a pod. *)
Inductive Decision := Wired (cache : CacheBackend) | OptedOut | Unwired | Refused.

Definition decision (h : EngineInjector) (pod : Pod) : Decision :=
  if SkipAnnotationOptsOut (strGet (p_Annotations pod) AnnotationSkip) then OptedOut
  else match selectCacheBackend h pod with
       | Ambiguous _ => Refused
       | OneBackend cache => match wirePod quote h cache pod with inr _ => Wired cache | inl _ => Unwired end
       | _ => Unwired
       end.

(** The stamps that tell the decision. *)
Definition stampsOf (d : Decision) (a : gmap string string) : Prop :=
  match d with
  | Wired cache =>
      strGet a AnnotationInjectedBy = cb_Namespace cache +:+ "/" +:+ cb_Name cache ∧
      strGet a AnnotationInjectedByUID = cb_UID cache ∧
      strGet a AnnotationInjectedGeneration = FormatInt (cb_Generation cache) ∧
      strGet a AnnotationInjectSkipped = ""
  | OptedOut => (∀ k, k ∈ identityStamps → strGet a k = "") ∧ strGet a AnnotationInjectSkipped = InjectSkippedReasonSkipAnnotation
  | Unwired => ∀ k, k ∈ injectionStamps → strGet a k = ""
  | Refused => False
  end.

Lemma stampAnnotations_wired cache a : stampsOf (Wired cache) (stampAnnotations cache a).
Proof.
  unfold stampsOf, stampAnnotations, strGet. split_and!;
    repeat first [rewrite lookup_insert_eq | rewrite lookup_insert_ne by done | rewrite lookup_delete_eq]; done.
Qed.

Lemma skipInjection_stamps req pod doc pod' :
  codec → unmarshal (rq_Raw req) = inr pod →
  persisted req (skipInjection marshal (rq_Raw req) (admittedPod req pod)) = Some doc →
  unmarshal doc = inr pod' → stampsOf OptedOut (p_Annotations pod').
Proof.
  intros Hc Hraw. unfold skipInjection.
  assert (p_Annotations (admittedPod req pod) = p_Annotations pod) as Ha by (unfold admittedPod; by destruct (str_eqb _ _)).
  rewrite Ha. destruct (_ && forallb _ _) eqn:E.
  - intros [= <-] Hd. rewrite Hraw in Hd. injection Hd as <-. apply andb_true_iff in E as [E1 E2].
    rewrite forallb_forall in E2. split; [|by apply str_eqb_eq].
    intros k Hk. apply str_eqb_eq, E2. by apply list_elem_of_In.
  - set (m := set_annotations _ _). destruct (Hc m) as (s & -> & Hs).
    intros [= <-] Hd. rewrite Hs in Hd. apply (inj inr) in Hd as <-. unfold m. cbn [p_Annotations set_annotations].
    split; [|unfold strGet; by rewrite lookup_insert_eq].
    intros k Hk. unfold strGet. rewrite lookup_insert_ne by (intros <-; set_solver).
    rewrite clearStamps_lookup. by rewrite bool_decide_true.
Qed.

(** What a successful wiring went through. *)
Lemma wirePod_inv h cache pod pod' :
  wirePod quote h cache pod = inr pod' →
  ∃ registry adapter protocol mutated,
    let binding := BindingFor (EffectiveRemoteStorage (cb_Spec cache)) protocol (effectiveEndpoint quote cache) in
    let '(mutated', appended) := injectSidecar adapter cache (injectKernelCheck adapter cache mutated) in
    ei_Registry h = Some registry ∧ Select quote registry (ResolveRuntimeID cache) cache = inr adapter ∧
    ProtocolFor quote (EffectiveRemoteStorage (cb_Spec cache)) = inr protocol ∧
    ad_SupportsBinding adapter binding = true ∧
    (IsEventsOnly (cb_Spec cache) = false → ∀ b, binding = Some b → b_Endpoint b ≠ "") ∧
    injectEngine adapter cache binding pod = inr mutated ∧
    (IsEventsOnly (cb_Spec cache) = true → appended = true) ∧
    pod' = stampInjected cache mutated'.
Proof.
  unfold wirePod. destruct (ei_Registry h) as [registry|]; [|done].
  destruct (Select quote registry _ cache) as [|adapter] eqn:Es; [done|].
  set (compat := match match bs_LMCache _ with Some _ => _ | None => _ end with Some _ => _ | None => _ end).
  destruct compat; [done|]. destruct (ProtocolFor quote _) as [|protocol] eqn:Ep; [done|].
  set (binding := BindingFor _ _ _). destruct (ad_SupportsBinding adapter binding) eqn:Eb; [|done]. cbn [negb].
  destruct (_ && negb _) eqn:Ee.
  { destruct (EffectiveRemoteStorage _) as [s|]; [destruct (str_eqb (rs_Ownership s) _)|]; done. }
  destruct (injectEngine adapter cache binding pod) as [|mutated] eqn:Ei; [done|].
  intros H. exists registry, adapter, protocol, mutated. cbn zeta. fold binding.
  destruct (injectSidecar _ _ _) as [mutated' appended]. destruct (IsEventsOnly (cb_Spec cache)).
  - destruct appended; [|done]. injection H as <-. split_and!; done.
  - injection H as <-. split_and!; try done. intros _ b Hb. rewrite Hb, andb_true_r in Ee. by apply str_eqb_neq.
Qed.

(** Wiring adds stamps and leaves the other annotations alone. *)
Lemma wirePod_annotations h cache pod pod' :
  wirePod quote h cache pod = inr pod' → p_Annotations pod' = stampAnnotations cache (p_Annotations pod).
Proof.
  intros (registry & adapter & protocol & mutated & H)%wirePod_inv.
  destruct (injectSidecar adapter cache (injectKernelCheck adapter cache mutated)) as [mutated' appended] eqn:Esc.
  destruct H as (_ & _ & _ & _ & _ & Hen & _ & ->).
  assert (p_Annotations mutated = p_Annotations pod) as <-.
  { revert Hen. unfold injectEngine. destruct (IsEventsOnly _); [by intros [= <-]|].
    destruct (ad_InjectEngineConfig _ _ _ _); [done|]. by intros [= <-]. }
  assert (p_Annotations (injectKernelCheck adapter cache mutated) = p_Annotations mutated) as <-.
  { unfold injectKernelCheck. destruct (ad_KernelCheckInitContainer adapter) as [icp|]; [|done].
    destruct (IsEventsOnly _); [done|]. by destruct (icp cache mutated) as [|[|]]. }
  assert (p_Annotations mutated' = p_Annotations (injectKernelCheck adapter cache mutated)) as <-.
  { revert Esc. unfold injectSidecar. destruct (ad_ObservationSidecar _ _ _) as [|[sc|]]; [|destruct (hasContainer _ _)|];
      by intros [= <- <-]. }
  unfold stampInjected. destruct (bs_LMCache _) as [lm|]; [destruct (str_eqb _ _)|]; done.
Qed.

(** The stamps of the stored pod tell the decision, whatever stamps the pod came with. *)
Lemma stamps_truthful h req pod doc pod' :
  codec → rq_Operation req ≠ "" → unmarshal (rq_Raw req) = inr pod →
  persisted req (Handle quote unmarshal marshal h req) = Some doc → unmarshal doc = inr pod' →
  stampsOf (decision h (admittedPod req pod)) (p_Annotations pod').
Proof.
  intros Hc Hop Hraw. unfold Handle. apply str_eqb_neq in Hop as ->. rewrite Hraw. fold (admittedPod req pod).
  unfold decision. destruct (SkipAnnotationOptsOut _); [by apply skipInjection_stamps|].
  destruct (selectCacheBackend h _) as [|cache|names|err]; [intros ? ?; cbn [stampsOf]; intros ? ?; by eapply failOpen_unstamped| |done|intros ? ?; cbn [stampsOf]; intros ? ?; by eapply failOpen_unstamped].
  destruct (wirePod quote h cache _) as [reason|mutated] eqn:Ew; [intros ? ?; cbn [stampsOf]; intros ? ?; by eapply failOpen_unstamped|].
  destruct (Hc mutated) as (s & -> & Hs). intros [= <-] Hd. rewrite Hs in Hd. apply (inj inr) in Hd as <-.
  rewrite (wirePod_annotations _ _ _ _ Ew). apply stampAnnotations_wired.
Qed.
End injection.
