(* ===== verification/WiringTheorems.v ===== *)
(** * Admission, injection and events: the theorems

    What a CacheBackend that passed admission does to an engine pod: which backend owns it,
    what is injected, what overrides cannot touch and what the stamps and events say. *)

From S2P Require Import Prelude Ordering GoRuntime GoText K8s Admission CoreV1 BackendApi Endpoints Adapters.
From S2P Require Import Renderer EngineWire EngineAdapters BackendSamples UpsertFacts AdapterTheorems.
From S2P Require Import Overrides BackendAdmission BackendValidator BackendTheorems PodInjector PodEvents.
From S2P Require Import HiCacheTheorems InjectionTheorems.

Section wiring.
Context `{QO : QuantityOps} `{KV : KValidation}.
Context (quote : string → string).

(** ** Ownership *)

(** C14: Whatever sequence of creates, updates and deletes the validating webhook let through,
    the injector finds at most one owner for every pod, and it is the stored CacheBackend of
    the pod's namespace whose cache domain the pod is labelled with. *)
Theorem pod_has_one_owner registry h c pod :
  rtc (backendStep quote [] registry) [] c → reads h c →
  (∀ names, selectCacheBackend h pod ≠ Ambiguous names) ∧
  (∀ cb, selectCacheBackend h pod = OneBackend cb ↔
     cb ∈ c ∧ cb_Namespace cb = p_Namespace pod ∧ claims pod cb = true).
Proof. intros. by eapply owner_exact. Qed.

(** ** Stamps and events *)

Lemma one_slash ns name a b :
  Cut "/" (ns +:+ "/" +:+ name) = Some (a, b) → ContainsByte b "/" = false → a = ns ∧ b = name.
Proof.
  intros [E Ha]%Cut_spec Hb. change (ns +:+ "/" +:+ name) with (ns +:+ String "/" name) in E. revert a E Ha. induction ns as [|x ns IH]; intros [|y a] E Ha; cbn [String.append] in E.
  - by injection E as <-.
  - by injection E as <- E.
  - injection E as -> E. exfalso. rewrite <-E in Hb. unfold ContainsByte in Hb. rewrite str_existsb_app in Hb.
    simpl in Hb. by rewrite orb_true_r in Hb.
  - injection E as -> E. unfold ContainsByte in Ha. simpl in Ha. apply orb_false_iff in Ha as [_ Ha].
    destruct (IH a E Ha) as [-> ->]. done.
Qed.

Lemma ref_nonempty (cache : CacheBackend) : str_eqb (cb_Namespace cache +:+ "/" +:+ cb_Name cache) "" = false.
Proof. apply str_eqb_neq. by destruct (cb_Namespace cache). Qed.

(** What an event about a pod claims of the decision taken for it. *)
Definition eventTrue (p : Peers) (d : Decision) (e : PodEvent) : Prop :=
  match e with
  | InjectedByCacheBackend _ ref =>
      ∃ cache cb, d = Wired cache ∧ ref = cb_Namespace cache +:+ "/" +:+ cb_Name cache ∧
        pe_GetBackend p (cbKey cache) = GetOK cb ∧ cb_UID cb = cb_UID cache
  | SkippedByOperator _ => d = OptedOut
  end.

Lemma reconcile_events p pod d evs :
  pe_GetPod p = GetOK pod → stampsOf d (p_Annotations pod) → Reconcile p = Done evs → Forall (eventTrue p d) evs.
Proof.
  intros Hp Hd. unfold Reconcile. rewrite Hp. set (a := p_Annotations pod) in *.
  destruct d as [cache| | |]; cbn [stampsOf] in Hd; [destruct Hd as (-> & -> & _ & Hs)|destruct Hd as [Hi Hs]|..|done].
  - rewrite ref_nonempty. destruct (negb (pe_Recorder p)); [by intros [= <-]|].
    unfold validCacheBackendRef, lookupCacheBackend. destruct (Cut "/" _) as [[ns name]|] eqn:Ec; [|by intros [= <-]].
    destruct (ContainsByte name "/") eqn:Esl; [by intros [= <-]|].
    destruct (one_slash _ _ _ _ Ec Esl) as [-> ->]. destruct (negb _); [by intros [= <-]|].
    destruct (str_eqb (cb_UID cache) ""); [by intros [= <-]|]. destruct (_ || _); [done|].
    destruct (pe_GetBackend p _) as [cb| |] eqn:Eg; [|by intros [= <-]|done].
    destruct (str_eqb (cb_UID cache) (cb_UID cb)) eqn:Eu; [|by intros [= <-]]. apply str_eqb_eq in Eu.
    intros [= <-]. apply Forall_singleton. exists cache, cb. split_and!; done.
  - rewrite (Hi AnnotationInjectedBy) by (unfold identityStamps; set_solver). rewrite str_eqb_refl.
    destruct (operatorSkipped a), (pe_Recorder p); intros [= <-]; repeat constructor.
  - rewrite (Hd AnnotationInjectedBy) by (unfold injectionStamps; set_solver). rewrite str_eqb_refl.
    unfold operatorSkipped. rewrite (Hd AnnotationInjectSkipped) by (unfold injectionStamps; set_solver).
    change (str_eqb "" InjectSkippedReasonSkipAnnotation) with false. rewrite andb_false_r. by intros [= <-].
Qed.

(** C17: The document the apiserver stores after the injector carries stamps that tell what
    was decided (wired by which backend at which generation, opted out, or neither), whatever
    stamps the submitted pod had; and every event the controller later records for that pod
    is true of the decision, the backend it names being still the same object. *)
Theorem stamps_and_events_truthful unmarshal marshal h req pod doc pod' p :
  codec unmarshal marshal → rq_Operation req ≠ "" → unmarshal (rq_Raw req) = inr pod →
  persisted req (Handle quote unmarshal marshal h req) = Some doc → unmarshal doc = inr pod' →
  let d := decision quote h (admittedPod req pod) in
  stampsOf d (p_Annotations pod') ∧
  (pe_GetPod p = GetOK pod' → ∀ evs, Reconcile p = Done evs → Forall (eventTrue p d) evs).
Proof.
  intros Hc Hop Hraw Hper Hdoc d. assert (stampsOf d (p_Annotations pod')) as Hs by (by eapply stamps_truthful).
  split; [done|]. intros Hp evs. by apply reconcile_events with pod'.
Qed.

(** ** Overrides *)

Lemma reserved_spared adapter runtimeID o :
  reservedErrors quote adapter runtimeID o = [] →
  (∀ r, r ≠ "" → r ∈ ad_ReservedArgs adapter → Forall (λ e, argFlagToken e ≠ r) (eo_Args o) ∧ r ∉ eo_SuppressArgs o) ∧
  (∀ n, n ∈ ad_ReservedEnv adapter → Forall (λ e, ev_Name e ≠ n) (eo_Env o) ∧ n ∉ eo_SuppressEnv o).
Proof.
  unfold reservedErrors. rewrite !app_nil. intros (Ha & Hsa & He & Hse).
  apply (eachIndexed_nil _ _ _ (λ e, argFlagToken e = "" ∨ argFlagToken e ∉ ad_ReservedArgs adapter)) in Ha; last first.
  { intros p e. by rewrite errWhen_nil, andb_false_iff, negb_false_iff, str_eqb_eq, bool_decide_eq_false. }
  apply (eachIndexed_nil _ _ _ (λ e, e ∉ ad_ReservedArgs adapter)) in Hsa; [|intros; by rewrite errWhen_nil, bool_decide_eq_false].
  apply (eachIndexed_nil _ _ _ (λ e, ev_Name e ∉ ad_ReservedEnv adapter)) in He; [|intros; by rewrite errWhen_nil, bool_decide_eq_false].
  apply (eachIndexed_nil _ _ _ (λ e, e ∉ ad_ReservedEnv adapter)) in Hse; [|intros; by rewrite errWhen_nil, bool_decide_eq_false].
  rewrite Forall_forall in Hsa, Hse. split; [intros r Hr Hin|intros n Hn]; split.
  - apply (Forall_impl _ _ _ Ha). intros e [?|?] <-; done.
  - intros ?. by apply (Hsa r).
  - apply (Forall_impl _ _ _ He). by intros e Hne <-.
  - intros ?. by apply (Hse n).
Qed.

(** The arguments the operator's overrides bring. *)
Definition overrideEntries (cache : CacheBackend) : list string :=
  from_option eo_Args [] (engineOverridesFor cache).

(** C22: For a backend whose overrides passed admission, merging them keeps what the adapter
    reserves, in every container.  The arguments that spell a reserved flag are the rendered
    ones, verbatim and in order, and none is added; a reserved flag with a value keeps that
    value.  A reserved flag rendered without a value (a bare toggle) stays, and the only thing
    that can come to stand where its value would be is a positional argument that now follows
    it, since positionals are no flags to admission and are appended.  The variables of a
    reserved name are exactly the rendered ones. *)
Theorem reserved_wiring_survives v registry adapter cache binding pod pod' :
  bv_Registry v = Some registry → bs_Type (cb_Spec cache) ≠ "" →
  checkEngineOverrides quote v cache = [] → Select quote registry (ResolveRuntimeID cache) cache = inr adapter →
  IsEventsOnly (cb_Spec cache) = false → injectEngine adapter cache binding pod = inr pod' →
  ∃ rendered, ad_InjectEngineConfig adapter (p_Spec pod) binding cache = inr rendered ∧
    ∀ j, (∀ r, r ≠ "" → r ∈ ad_ReservedArgs adapter →
            flagKept (overrideEntries cache) (engineArgs j rendered) (engineArgs j (p_Spec pod')) r) ∧
         (∀ n, n ∈ ad_ReservedEnv adapter → named n (engineEnv j (p_Spec pod')) = named n (engineEnv j rendered)).
Proof.
  intros Hreg Hty Hadm Hsel Hev. unfold injectEngine. rewrite Hev.
  destruct (ad_InjectEngineConfig adapter (p_Spec pod) binding cache) as [|rendered]; [done|]. intros [= <-].
  exists rendered. split; [done|]. intros j. cbn [p_Spec set_spec]. unfold applyOverrides.
  assert (∀ l r, flagKept (overrideEntries cache) l l r) as Hrefl by (intros; apply flagKept_refl).
  destruct (overrideTarget adapter cache pod) as [[[o i] pre]|] eqn:Et; [|done].
  assert (engineOverridesFor cache = Some o) as Ho.
  { unfold overrideTarget in Et. destruct (engineOverridesFor cache); [|done]. cbn in Et.
    destruct (overrideTargetIndex _ _); [|done]. cbn in Et. destruct (_ !! _); [|done]. by injection Et as ->. }
  unfold checkEngineOverrides in Hadm. rewrite Ho, Hreg, Hsel, (proj2 (str_eqb_neq _ _) Hty) in Hadm.
  apply app_nil in Hadm as [_ Hadm]. destruct (reserved_spared _ _ _ Hadm) as [Hargs Henv].
  unfold engineArgs, engineEnv, overrideEntries in *. rewrite Ho in *.
  cbn [psp_Containers set_containers from_option] in *.
  destruct (decide (j = i)) as [->|Hj]; [rewrite list_lookup_alter_eq|by rewrite list_lookup_alter_ne].
  destruct (psp_Containers rendered !! i) as [c|]; cbn [fmap option_fmap option_map]; [|done].
  pose proof (merge_keeps_flag (cn_Args pre) (cn_Args c) (cn_Env pre) (cn_Env c) o) as HA.
  pose proof (merge_keeps_env (cn_Args pre) (cn_Args c) (cn_Env pre) (cn_Env c) o) as HE.
  destruct (applyEngineInjectionOverrides _ _ _ _ _) as [args env]. cbn [fst snd cn_Args cn_Env set_engine] in HA, HE |- *. split.
  - intros r Hr Hin. apply HA; [done|]. left. by apply Hargs.
  - intros n Hn. apply HE. left. by apply Henv.
Qed.

(** ** What is rendered *)

(** A pod template the rendering has not met: the names it reserves for its volumes are free,
    SGLang's config flag has a value, and a HiCache size fits its type. *)
Definition freshTemplate (name : string) (pod : PodSpec) (cache : CacheBackend) : Prop :=
  reservedFree quote name pod ∧
  (∀ i, EngineContainerIndexNamed quote pod SGLangEngineContainerName = inr i →
     (argValues (engineArgs i pod) SGLangConfigFileArg).2 = false) ∧
  (∀ hc, bs_HiCache (cb_Spec cache) = Some hc → sizeInt32 hc).

(** C23: Every adapter of the build is idempotent on fresh templates: when the engine container
    of the template mounts nothing under the volume names the rendering reserves, when SGLang's
    --lmcache-config-file, if the template has it, carries a value, and when a HiCache size fits
    its int32, injecting the engine configuration into the spec the adapter wired succeeds and
    changes nothing, for vLLM and SGLang over LMCache in both topologies and for SGLang HiCache.
    A template with a bare --lmcache-config-file is outside: the SGLang adapter may take the
    argument behind it for its value (see [config_flag_swallows_switch]). *)
Theorem injection_idempotent quoteRune subscriber adapter pod binding cache pod' :
  adapter ∈ newRegistry quote quoteRune subscriber → freshTemplate (ad_EngineContainerName adapter) pod cache →
  ad_InjectEngineConfig adapter pod binding cache = inr pod' →
  ad_InjectEngineConfig adapter pod' binding cache = inr pod'.
Proof.
  unfold newRegistry, Register. cbn [app]. intros Ha (Hf & Hc & Hs).
  rewrite !elem_of_cons, elem_of_nil in Ha. destruct Ha as [->|[->|[->|[]]]]; cbn in *.
  - by apply vllm_idempotent.
  - by apply sglang_idempotent.
  - by apply hicache_idempotent.
Qed.

(** ** Admission against the consumers *)

(** C38: For a HiCache backend, admission (its own rules and the reserved overrides of the
    HiCache adapter) accepts exactly the specs the adapter later resolves at injection time. *)
Theorem hicache_admission_exact subscriber cb :
  bs_Type (cb_Spec cb) = CacheBackendTypeSGLangHiCache →
  HiCache.ValidateHiCacheBackend quote cb = None ↔
  validateSGLangHiCache quote cb = [] ∧
  ∀ o, engineOverridesFor cb = Some o →
    reservedErrors quote (HiCache.sglangHiCacheAdapter quote subscriber) (ResolveRuntimeID cb) o = [].
Proof. intros Ht. rewrite (resolve_agree _ _ Ht). split; intros [? H]; (split; [done|]); intros o Ho; eapply overrides_agree, H, Ho. Qed.

(** The seven rules for the resources of a managed provider and the one combined rule for
    an MP server accept the same requirements, those Kubernetes accepts for a container: no
    claims, legal names, non-negative whole quantities, requests within limits. *)
Theorem resource_rules_exact `{QL : !QuantityLaws} cb r path path' :
  selectedProviderResources cb = Some (r, path) →
  (Forall (λ rule, rule cb = []) (providerRules quote) ↔ resources_ok r) ∧
  (validateMPServerResourceRequirements quote r path' = [] ↔ resources_ok r).
Proof. intros H. split; [by eapply provider_resources_exact|by eapply mp_resources_exact]. Qed.

(** An external endpoint that names a Service by its cluster DNS name, in any letter case,
    with or without the cluster domain, the root dot and a port, passes the cross-namespace
    rule exactly when it is in the backend's namespace or the backend opted in. *)
Theorem foreign_service_needs_opt_in cb storage pre ns (cluster dot : bool) p :
  bs_RemoteStorage (cb_Spec cb) = Some storage →
  ToLower (TrimSpace (rs_Endpoint storage)) =
    (pre +:+ String "." ns +:+ ".svc" +:+ (if cluster then ".cluster.local" else "") +:+ (if dot then "." else "")) +:+ p →
  str_forallb dnsChar pre = true → str_forallb labelChar ns = true → ns ≠ "" → portSuffix p →
  rejectCrossNamespaceEndpointWithoutOptIn quote cb = [] ↔
  ns = cb_Namespace cb ∨ bs_AllowCrossNamespace (cb_Spec cb) = true.
Proof.
  intros Hs He Hpre Hns Hne Hp. unfold rejectCrossNamespaceEndpointWithoutOptIn.
  rewrite Hs, (serviceDNS_detects _ pre ns cluster dot p) by done.
  destruct (str_eqb ns (cb_Namespace cb)) eqn:E; [apply str_eqb_eq in E; naive_solver|]. apply str_eqb_neq in E.
  destruct (bs_AllowCrossNamespace _); naive_solver.
Qed.
End wiring.

(** ** Witnesses *)

Section witnesses.
Import MilliQuantity.

Definition sampleInjector (c : list CacheBackend) : EngineInjector :=
  mkInjector (λ ns, inr (List.filter (λ cb, str_eqb (cb_Namespace cb) ns) c)) (Some sampleRegistry).

Definition sampleLabels (domain : string) : gmap string string := {[CacheBackendDomainLabel := domain]}.

Lemma pod_has_one_owner_witness :
  selectCacheBackend (sampleInjector [mpBackend None; hiBackend])
    (samplePod (sampleLabels "team-b") ∅ (plainContainer "sglang" [] [])) = OneBackend hiBackend.
Proof.
  apply (pod_has_one_owner sampleQuote (Some sampleRegistry) _ [mpBackend None; hiBackend]).
  - eapply rtc_l; [|apply rtc_once].
    + apply (backend_create sampleQuote [] (Some sampleRegistry) [] hiBackend); [set_solver|by vm_compute].
    + apply backend_create; [set_solver|by vm_compute].
  - done.
  - split_and!; [set_solver|done|by vm_compute].
Defined.

(** The result of a call that succeeds. *)
Definition resultOf {A : Type} (r : string + A) (d : A) : A := match r with inr a => a | inl _ => d end.

Lemma resultOf_inr {A : Type} (r : string + A) d : (if r then false else true) = true → r = inr (resultOf r d).
Proof. by destruct r. Qed.

(** The pod a stored document holds. *)
Definition storedPod (doc : string) : Pod := resultOf (PodCodec.unmarshal doc) (samplePod ∅ ∅ (plainContainer "" [] [])).

Definition storedDoc (req : Request) (resp : Response) : string := default "" (persisted req resp).

(** A pod that comes with the stamps of another backend. *)
Definition stampedPod : Pod :=
  samplePod (sampleLabels "team-b") {[AnnotationInjectedBy := "other/backend"]} (plainContainer "sglang" [] []).

Definition stampedRequest : Request :=
  mkRequest "CREATE" "team" (match PodCodec.marshal stampedPod with inr s => s | inl _ => "" end).

Definition stampedResponse : Response :=
  Handle sampleQuote PodCodec.unmarshal PodCodec.marshal (sampleInjector [hiBackend]) stampedRequest.

Definition stampedPeers : Peers :=
  mkPeers (GetOK (storedPod (storedDoc stampedRequest stampedResponse))) (λ _, GetOK hiBackend) true.

Lemma stored_some req resp : (if persisted req resp then true else false) = true → persisted req resp = Some (storedDoc req resp).
Proof. unfold storedDoc. by destruct (persisted req resp). Qed.

Lemma stamps_and_events_truthful_witness :
  Reconcile stampedPeers = Done [InjectedByCacheBackend "pod-uid" "team/hicache"] ∧
  Forall (eventTrue stampedPeers (decision sampleQuote (sampleInjector [hiBackend]) (admittedPod stampedRequest stampedPod)))
    [InjectedByCacheBackend "pod-uid" "team/hicache"].
Proof.
  assert (Reconcile stampedPeers = Done [InjectedByCacheBackend "pod-uid" "team/hicache"]) as Er by (vm_compute; reflexivity).
  split; [exact Er|].
  refine (proj2 (stamps_and_events_truthful sampleQuote PodCodec.unmarshal PodCodec.marshal (sampleInjector [hiBackend])
    stampedRequest stampedPod (storedDoc stampedRequest stampedResponse)
    (storedPod (storedDoc stampedRequest stampedResponse)) stampedPeers _ _ _ _ _) eq_refl _ Er).
  - exact PodCodec.unmarshal_marshal.
  - done.
  - destruct (PodCodec.unmarshal_marshal stampedPod) as (raw & Em & Eu). unfold stampedRequest. rewrite Em. exact Eu.
  - apply stored_some. vm_compute. reflexivity.
  - apply resultOf_inr. vm_compute. reflexivity.
Defined.

(** Overrides that add a flag, replace a user's variable and suppress a flag. *)
Definition sampleOverrides : EngineInjectionOverrides :=
  mkOverrides ["--max-num-seqs=64"] ["--enforce-eager"] [mkEnvVar "HF_HOME" "/models" None] ["DEBUG"].

Definition vllmPod : Pod :=
  samplePod (sampleLabels "team-a") ∅ (plainContainer "vllm" ["--model"; "m"; "--enforce-eager"] [mkEnvVar "HF_HOME" "/tmp" None]).

Definition vllmAdapter : KVCacheRuntimeAdapter :=
  VLLM.vllmLMCacheMPAdapter sampleQuote sampleQuote (mkSubscriberConfig "subscriber:v1" "server:9090").

Definition vllmWired : Pod :=
  resultOf (injectEngine vllmAdapter (mpBackend (Some sampleOverrides)) None vllmPod) vllmPod.

Definition wiredSpec : PodSpec :=
  resultOf (ad_InjectEngineConfig vllmAdapter (p_Spec vllmPod) None (mpBackend None)) (p_Spec vllmPod).

(** The vLLM toggle is the last argument rendered; a positional override lands behind it. *)
Definition positionalOverrides : EngineInjectionOverrides := mkOverrides ["false"] [] [] [].

Definition toggleWired : Pod :=
  resultOf (injectEngine vllmAdapter (mpBackend (Some positionalOverrides)) None vllmPod) vllmPod.

Lemma reserved_wiring_survives_witness :
  (∃ rendered, ad_InjectEngineConfig vllmAdapter (p_Spec vllmPod) None (mpBackend (Some sampleOverrides)) = inr rendered ∧
    ∀ j, (∀ r, r ≠ "" → r ∈ ad_ReservedArgs vllmAdapter →
            flagKept (overrideEntries (mpBackend (Some sampleOverrides))) (engineArgs j rendered)
              (engineArgs j (p_Spec vllmWired)) r) ∧
         (∀ n, n ∈ ad_ReservedEnv vllmAdapter → named n (engineEnv j (p_Spec vllmWired)) = named n (engineEnv j rendered))) ∧
  checkEngineOverrides sampleQuote (liveBackends [] (Some sampleRegistry) []) (mpBackend (Some positionalOverrides)) = [] ∧
  argsByFlag (engineArgs 0 wiredSpec) ∅ !! VLLM.vllmDisableHybridKVCacheArg = Some "" ∧
  argsByFlag (engineArgs 0 (p_Spec toggleWired)) ∅ !! VLLM.vllmDisableHybridKVCacheArg = Some "false".
Proof.
  split; [|by vm_compute].
  apply (reserved_wiring_survives sampleQuote (liveBackends [] (Some sampleRegistry) []) sampleRegistry vllmAdapter
    (mpBackend (Some sampleOverrides)) None vllmPod vllmWired); done.
Defined.

Lemma injection_idempotent_witness :
  ad_InjectEngineConfig vllmAdapter wiredSpec None (mpBackend None) = inr wiredSpec ∧ length (psp_InitContainers wiredSpec) = 1%nat.
Proof.
  split; [|by vm_compute].
  apply (injection_idempotent sampleQuote sampleQuote (mkSubscriberConfig "subscriber:v1" "server:9090") vllmAdapter (p_Spec vllmPod)).
  - unfold newRegistry, Register. cbn [app]. left.
  - split_and!; [|intros i Hi; by injection Hi as <-|done].
    intros i Hi. injection Hi as <-. split; [by intros _; constructor|done].
  - apply resultOf_inr. vm_compute. reflexivity.
Defined.

Lemma hicache_admission_exact_witness :
  HiCache.ValidateHiCacheBackend sampleQuote hiBackend = None ∧ validateSGLangHiCache sampleQuote hiBackend = [].
Proof.
  assert (HiCache.ValidateHiCacheBackend sampleQuote hiBackend = None) as H by (vm_compute; reflexivity).
  split; [exact H|].
  apply (hicache_admission_exact sampleQuote (mkSubscriberConfig "" "") hiBackend) in H; [|done]. by destruct H.
Defined.

(** A managed Redis with a memory limit below its request. *)
Definition badResources : ResourceRequirements := mkResources {["memory" := 2000]} {["memory" := 1000]} [].

Definition redisBackend (ownership endpoint : string) (r : option ResourceRequirements) : CacheBackend :=
  mkCacheBackend "team" "cache" "uid-3" 1 ∅
    (mkBackendSpec CacheBackendRuntimeVLLM CacheBackendTypeLMCache None
       (Some (mkRemoteStorage CacheBackendRemoteStorageProviderRedis ownership endpoint false (Some (mkRedis "" r None None None))))
       None None None None false) None.

Lemma resource_rules_exact_witness :
  ¬ Forall (λ rule, rule (redisBackend OwnershipManaged "" (Some badResources)) = []) (providerRules sampleQuote) ∧
  validateMPServerResourceRequirements sampleQuote badResources "r" ≠ [].
Proof.
  destruct (resource_rules_exact sampleQuote (redisBackend OwnershipManaged "" (Some badResources)) badResources
    "spec.remoteStorage.redis.resources" "r" eq_refl) as [Hp Hm].
  assert (¬ resources_ok badResources) as Hbad.
  { intros [_ _ H]. pose proof (H "memory" 2000 eq_refl : ∀ l, Some 1000 = Some l → 0 ≤ qCmp l 2000) as H'. by destruct (H' 1000 eq_refl). }
  split; [by intros H%Hp|by intros H%Hm].
Defined.

Lemma foreign_service_needs_opt_in_witness :
  rejectCrossNamespaceEndpointWithoutOptIn sampleQuote (redisBackend OwnershipExternal "Redis.Other.svc.cluster.local:6379" None) ≠ [].
Proof.
  intros H. apply (foreign_service_needs_opt_in sampleQuote _ (mkRemoteStorage CacheBackendRemoteStorageProviderRedis OwnershipExternal
    "Redis.Other.svc.cluster.local:6379" false (Some (mkRedis "" None None None None))) "redis" "other" true false ":6379") in H.
  - by destruct H.
  - done.
  - by vm_compute.
  - done.
  - done.
  - done.
  - right. exists "6379". split; reflexivity.
Defined.

(** ** Where the code and its intent part *)

(** A bracketed host is accepted as an endpoint and dialled without its brackets, but the
    cross-namespace rule does not see the Service it names. *)
Lemma bracketed_endpoint_unseen :
  ValidateExternalEndpoint sampleQuote CacheBackendRemoteStorageProviderRedis "[redis.other.svc]:6379" = None ∧
  splitLMCacheHostPort "[redis.other.svc]:6379" = ("redis.other.svc", "6379", true) ∧
  rejectCrossNamespaceEndpointWithoutOptIn sampleQuote (redisBackend OwnershipExternal "[redis.other.svc]:6379" None) = [] ∧
  rejectCrossNamespaceEndpointWithoutOptIn sampleQuote (redisBackend OwnershipExternal "redis.other.svc:6379" None) ≠ [].
Proof. split_and!; by vm_compute. Qed.

(** A stored HiCache backend with both a size and a ratio; [addr] is where the decoder put the
    size. *)
Definition bothSizes (addr : Z) : CacheBackend :=
  mkCacheBackend "team" "hicache" "uid-2" 1 ∅
    (mkBackendSpec CacheBackendRuntimeSGLang CacheBackendTypeSGLangHiCache None None None
       (Some (mkIntegration "" "" None None)) (Some {[CacheBackendDomainLabel := "team-b"]})
       (Some (mkHiCache (Some (mkInt32Ptr addr 16)) "2.0" "" "" "")) false) None.

(** An update that leaves the spec as it is gets refused for the error the object already
    had: the error prints the address of the pointer. *)
Lemma stored_exclusive_error_refused :
  ValidateUpdate sampleQuote (liveBackends [] (Some sampleRegistry) []) (bothSizes 1) (bothSizes 2) ≠ Accepted ∧
  ValidateUpdate sampleQuote (liveBackends [] (Some sampleRegistry) []) (bothSizes 1) (bothSizes 1) = Accepted.
Proof. split; [by vm_compute|vm_compute; reflexivity]. Qed.

Definition sglangBackend : CacheBackend :=
  mkCacheBackend "team" "cache" "uid-1" 7 ∅
    (mkBackendSpec CacheBackendRuntimeSGLang CacheBackendTypeLMCache
       (Some (mkLMCache LMCacheTopologyPodLocal (Some (Some mpServer)) None None))
       None None None (Some {[CacheBackendDomainLabel := "team-a"]}) None false) None.

(** A template whose config flag lost its value: the switch is taken for the value and
    overwritten, and the engine starts without LMCache. *)
Lemma config_flag_swallows_switch :
  (cn_Args <$> psp_Containers (resultOf (SGLangLMCache.InjectEngineConfig sampleQuote sampleQuote (mkSubscriberConfig "" "")
     (mkPodSpec [] [plainContainer "sglang" [SGLangConfigFileArg; SGLangEnableLMCacheArg] []] []) None sglangBackend)
     (mkPodSpec [] [] []))) = [[SGLangConfigFileArg; "/var/run/inference-cache/lmcache/client.yaml"]].
Proof. vm_compute. reflexivity. Qed.

Definition observedBackend : CacheBackend :=
  mkCacheBackend "team" "cache" "uid-1" 7 ∅
    (mkBackendSpec CacheBackendRuntimeVLLM CacheBackendTypeLMCache
       (Some (mkLMCache LMCacheTopologyPodLocal (Some (Some mpServer)) None None))
       None (Some (mkObservation "m" None)) None (Some {[CacheBackendDomainLabel := "team-a"]}) None false) None.

(** A pod with one container that is not called vllm is wired, gets the subscriber sidecar,
    and is refused when it is admitted again. *)
Lemma readmission_refused :
  let h := sampleInjector [observedBackend] in
  let wired := wirePod sampleQuote h observedBackend (samplePod (sampleLabels "team-a") ∅ (plainContainer "engine" [] [])) in
  (if wired then false else true) = true ∧
  (if wirePod sampleQuote h observedBackend (resultOf wired (samplePod ∅ ∅ (plainContainer "" [] []))) then true else false) = true.
Proof. split; vm_compute; reflexivity. Qed.
End witnesses.
