(* ===== verification/DoctorTheorems.v ===== *)
(** * The doctor command: the theorems

    The exit code against an independent account of what the doctor must find, what the report
    shows of its findings, and the audit of a pod against the decision the injector took. *)

From S2P Require Import Prelude Ordering GoRuntime GoText GoNumbers K8s ControlPlane IndexPoller Admission CoreV1 BackendApi LiveObjects.
From S2P Require Import Endpoints Adapters BackendAdmission BackendValidator BackendTheorems Overrides PodInjector InjectionTheorems BackendSamples WiringTheorems Doctor.

(** ** Severities *)

(** Nothing worse than INFO; something at FAIL. *)
Definition quiet (r : Report) : Prop := Forall (λ f, rank (fd_Status f) ≤ 1) r.
Definition fails (r : Report) : Prop := Exists (λ f, fd_Status f = StatusFail) r.

Lemma Worst_le r k : 0 ≤ k → rank (Worst r) ≤ k ↔ Forall (λ f, rank (fd_Status f) ≤ k) r.
Proof.
  intros Hk. unfold Worst. assert (rank StatusOK ≤ k) as H0 by done. revert H0. generalize StatusOK as w.
  induction r as [|f r IH]; intros w Hw; cbn [foldl]; [by rewrite Forall_nil|].
  rewrite Forall_cons. destruct (rank w <? rank (fd_Status f)) eqn:E.
  - destruct (Z.le_gt_cases (rank (fd_Status f)) k) as [Hf|Hf]; [rewrite IH by done; tauto|].
    split; [|intros [? _]; lia]. intros H. exfalso.
    assert (∀ r w, rank w ≤ rank (foldl (λ worst f, if rank worst <? rank (fd_Status f) then fd_Status f else worst) w r)) as Hm.
    { clear. induction r as [|f r IH]; intros w; cbn [foldl]; [done|]. etrans; [|apply IH]. destruct (rank w <? _) eqn:E; lia. }
    specialize (Hm r (fd_Status f)). lia.
  - rewrite IH by done. split; [intros; split; [lia|done]|tauto].
Qed.

Lemma ExitCode_quiet r : ExitCode r = 0 ↔ quiet r.
Proof. unfold quiet. rewrite <-Worst_le by lia. unfold ExitCode. by destruct (Worst r). Qed.

Lemma ExitCode_fails r : ExitCode r = 2 ↔ fails r.
Proof.
  trans (¬ rank (Worst r) ≤ 2); [unfold ExitCode; destruct (Worst r); cbn [rank]; split; lia|].
  rewrite Worst_le by lia. unfold fails. split.
  - intros H. apply not_Forall_Exists in H; [|intros f; apply _].
    apply (Exists_impl _ _ _ H). intros f. cbn. destruct (fd_Status f); cbn [rank]; done || lia.
  - intros H Hall. apply Exists_exists in H as (f & Hin & Hf). rewrite Forall_forall in Hall. specialize (Hall f Hin).
    rewrite Hf in Hall. cbn [rank] in Hall. lia.
Qed.

Lemma quiet_app a b : quiet (a ++ b) ↔ quiet a ∧ quiet b.
Proof. unfold quiet. by rewrite Forall_app. Qed.
Lemma fails_app a b : fails (a ++ b) ↔ fails a ∨ fails b.
Proof. unfold fails. by rewrite Exists_app. Qed.
Lemma quiet_nil : quiet [] ↔ True.
Proof. unfold quiet. by rewrite Forall_nil. Qed.
Lemma fails_nil : fails [] ↔ False.
Proof. unfold fails. by rewrite Exists_nil. Qed.
Lemma quiet_one c s k ref m : quiet [mkFinding c s k ref m] ↔ rank s ≤ 1.
Proof. unfold quiet. by rewrite Forall_singleton. Qed.
Lemma fails_one c s k ref m : fails [mkFinding c s k ref m] ↔ s = StatusFail.
Proof. unfold fails. rewrite Exists_cons, Exists_nil. cbn. tauto. Qed.
Lemma quiet_cons f l : quiet (f :: l) ↔ rank (fd_Status f) ≤ 1 ∧ quiet l.
Proof. unfold quiet. by rewrite Forall_cons. Qed.
Lemma fails_cons f l : fails (f :: l) ↔ fd_Status f = StatusFail ∨ fails l.
Proof. unfold fails. by rewrite Exists_cons. Qed.

Lemma quiet_bind {A : Type} (f : A → list Finding) l : quiet (mjoin (f <$> l)) ↔ ∀ x, x ∈ l → quiet (f x).
Proof.
  induction l as [|a l IH]; cbn [fmap list_fmap]; [rewrite quiet_nil; set_solver|]. cbn [mjoin list_join].
  rewrite quiet_app, IH. set_solver.
Qed.
Lemma fails_bind {A : Type} (f : A → list Finding) l : fails (mjoin (f <$> l)) ↔ ∃ x, x ∈ l ∧ fails (f x).
Proof.
  induction l as [|a l IH]; cbn [fmap list_fmap]; [rewrite fails_nil; set_solver|]. cbn [mjoin list_join].
  rewrite fails_app, IH. set_solver.
Qed.
Lemma quiet_fmap {A : Type} (f : A → Finding) l : quiet (f <$> l) ↔ ∀ x, x ∈ l → rank (fd_Status (f x)) ≤ 1.
Proof. unfold quiet. rewrite Forall_fmap, Forall_forall. done. Qed.
Lemma fails_fmap {A : Type} (f : A → Finding) l : fails (f <$> l) ↔ ∃ x, x ∈ l ∧ fd_Status (f x) = StatusFail.
Proof. unfold fails. rewrite Exists_fmap, Exists_exists. done. Qed.

Create HintDb report.
#[export] Hint Rewrite quiet_app fails_app quiet_nil fails_nil quiet_one fails_one @quiet_bind @fails_bind @quiet_fmap @fails_fmap : report.

Ltac report := autorewrite with report; cbn [rank].

(** A finding of a known severity against what the exchange is said to bring. *)
Ltac verdict :=
  report; split; intros; repeat match goal with H : ex _ |- _ => destruct H end; destruct_and?; destruct_or?; simplify_eq; try lia;
  first [by eauto | by eexists _, _ | by naive_solver | set_solver | congruence].

(** ** The endpoints *)

Section doctor.
Context `{QO : QuantityOps}.
Context (quote : string → string) (jsonValid : string → bool) (align : string → string).

(** What a request brings back, when anything. *)
Definition exchange (doer : option HTTPDoer) (method url : string) (auth : option string) : option (Z * (string + string)) :=
  doer ≫= λ d, if str_eqb url "" then None else
    match hd_NewRequest d url with
    | Some _ => None
    | None => match hd_Do d (mkDoctorRequest method url auth) with inl _ => None | inr a => Some a end
    end.

Definition bearer (token : string) : option string := if str_eqb token "" then None else Some ("Bearer " +:+ token).

Lemma server_quiet health target : quiet (ServerReachability health target) ↔ health = Some (inr "SERVING").
Proof.
  unfold ServerReachability. destruct health as [[err|s]|]; report; [split; [lia|done]| |split; [lia|done]].
  destruct (str_eqb s "SERVING") eqn:E; cbn [negb]; report.
  - apply str_eqb_eq in E as ->. split; [done|lia].
  - apply str_eqb_neq in E. split; [lia|]. by intros [= ->].
Qed.

Lemma server_fails health target : fails (ServerReachability health target) ↔ health ≠ Some (inr "SERVING").
Proof.
  unfold ServerReachability. destruct health as [[err|s]|]; report; [done| |done].
  destruct (str_eqb s "SERVING") eqn:E; cbn [negb]; report.
  - apply str_eqb_eq in E as ->. done.
  - apply str_eqb_neq in E. split; [|tauto]. intros _. by intros [= ->].
Qed.

Lemma wired_not_404 : routeStatusWired 404 = false.
Proof. done. Qed.

Lemma route_quiet doer url check name codes :
  quiet (routeReachability doer url check name codes) ↔
  ∃ code body, exchange doer "HEAD" url None = Some (code, body) ∧ routeStatusWired code = true.
Proof.
  unfold routeReachability, exchange. destruct doer as [d|]; cbn [mbind option_bind]; [|verdict].
  destruct (str_eqb url ""); [verdict|].
  destruct (hd_NewRequest d url); [verdict|].
  destruct (hd_Do d _) as [err|[code body]]; [verdict|].
  destruct (code =? 404) eqn:E; [apply Z.eqb_eq in E as ->; verdict|].
  destruct (routeStatusWired code) eqn:Ew; verdict.
Qed.

Lemma route_fails doer url check name codes :
  fails (routeReachability doer url check name codes) ↔
  ∀ code body, exchange doer "HEAD" url None = Some (code, body) → code = 404.
Proof.
  unfold routeReachability, exchange. destruct doer as [d|]; cbn [mbind option_bind]; [|verdict].
  destruct (str_eqb url ""); [verdict|].
  destruct (hd_NewRequest d url); [verdict|].
  destruct (hd_Do d _) as [err|[code body]]; [verdict|].
  destruct (code =? 404) eqn:E; [apply Z.eqb_eq in E as ->; verdict|]. apply Z.eqb_neq in E.
  destruct (routeStatusWired code) eqn:Ew; verdict.
Qed.

Lemma snapshot_quiet doer url token :
  quiet (SnapshotReachability jsonValid doer url token) ↔
  ∃ body, exchange doer "GET" url (bearer token) = Some (200, inr body) ∧ jsonValid (limitBytes snapshotBodyLimit body) = true.
Proof.
  unfold SnapshotReachability, exchange. fold (bearer token). destruct doer as [d|]; cbn [mbind option_bind]; [|verdict].
  destruct (str_eqb url ""); [verdict|].
  destruct (hd_NewRequest d url); [verdict|].
  destruct (hd_Do d _) as [err|[code body]]; [verdict|].
  destruct (code =? 401) eqn:E1; [apply Z.eqb_eq in E1 as ->; cbn [orb]; verdict|].
  destruct (code =? 403) eqn:E2; [apply Z.eqb_eq in E2 as ->; cbn [orb]; verdict|]. cbn [orb].
  destruct (code =? 200) eqn:E3; cbn [negb]; [|apply Z.eqb_neq in E3; verdict].
  apply Z.eqb_eq in E3 as ->. unfold snapshotBody. destruct body as [err|body]; [verdict|].
  destruct (jsonValid _) eqn:Ej; cbn [negb]; [|verdict].
  rewrite quiet_cons. destruct (str_eqb token ""); verdict.
Qed.

Lemma snapshot_fails doer url token :
  fails (SnapshotReachability jsonValid doer url token) ↔
  ∀ code body, exchange doer "GET" url (bearer token) = Some (code, body) → code ∉ [200; 401; 403].
Proof.
  unfold SnapshotReachability, exchange. fold (bearer token). destruct doer as [d|]; cbn [mbind option_bind]; [|verdict].
  destruct (str_eqb url ""); [verdict|].
  destruct (hd_NewRequest d url); [verdict|].
  destruct (hd_Do d _) as [err|[code body]]; [verdict|].
  destruct (code =? 401) eqn:E1; [apply Z.eqb_eq in E1 as ->; cbn [orb]; verdict|].
  destruct (code =? 403) eqn:E2; [apply Z.eqb_eq in E2 as ->; cbn [orb]; verdict|]. cbn [orb].
  apply Z.eqb_neq in E1, E2.
  destruct (code =? 200) eqn:E3; cbn [negb]; [|apply Z.eqb_neq in E3; verdict].
  apply Z.eqb_eq in E3 as ->. assert (∀ l, (l = [] ∨ ∃ f l', l = f :: l' ∧ fd_Status f ≠ StatusFail ∧ (l' = [] ∨ ∃ g, l' = [g] ∧ fd_Status g ≠ StatusFail)) → ¬ fails l) as Hno.
  { intros l [->|(f & l' & -> & Hf & [->|(g & -> & Hg)])]; rewrite ?fails_cons, ?fails_nil; tauto. }
  split; [|set_solver]. intros H. exfalso. revert H. apply Hno. unfold snapshotBody.
  destruct body as [err|body]; [right; eexists _, _; split_and!; [done..|by left]|].
  destruct (jsonValid _); cbn [negb]; [|right; eexists _, _; split_and!; [done..|by left]].
  right. eexists _, _. split_and!; [done..|]. destruct (str_eqb token ""); [right|by left]. by eexists.
Qed.

(** ** The backends *)

Definition lastEvent (st : CacheBackendStatus) : option Time := st_IndexParticipation st ≫= ip_LastEventAt.

(** A backend that passes every axis that applies to it. *)
Definition backendHealthy (pods : Listed Pod) (now : Time) (window : Duration) (dial : option (string → option string))
    (b : StoredBackend) : Prop :=
  let '(cb, st) := b in
  cd_Status <$> findCondition (st_Conditions st) conditionReady = Some ConditionTrue ∧
  (isExternal cb = false →
     (matchLabels cb ≠ ∅ → ∃ n, matchedEnginePodCount pods cb st = inr n ∧ n ≠ 0) ∧
     (is_Some (st_FirstKVEventObservedAt st) ∨ is_Some (lastEvent st)) ∧
     (∀ t, lastEvent st = Some t → time_sub now t ≤ window) ∧
     (∀ c, findCondition (st_Conditions st) conditionFunctionalProbeOK = Some c → cd_Status c = ConditionTrue)) ∧
  (is_Some (EffectiveRemoteStorage (cb_Spec cb)) →
     ∃ r, st_RemoteStorage st = Some r ∧ rss_Endpoint r ≠ "" ∧ ∀ d, dial = Some d → d (rss_Endpoint r) = None).

(** The pods of a backend could not be counted. *)
Definition backendUnreadable (pods : Listed Pod) (b : StoredBackend) : Prop :=
  let '(cb, st) := b in
  isExternal cb = false ∧ matchLabels cb ≠ ∅ ∧ st_MatchedEnginePods st = None ∧ ∃ err, pods (cb_Namespace cb) = inl err.

(** An axis notes nothing exactly when [P], and at FAIL exactly when [F]. *)
Record axis (o : option Finding) (P F : Prop) : Prop := {
  ax_silent : o = None ↔ P;
  ax_loud f : o = Some f → 2 ≤ rank (fd_Status f);
  ax_fail : (∃ f, o = Some f ∧ fd_Status f = StatusFail) ↔ F
}.

Lemma axis_none (P F : Prop) : P → ¬ F → axis None P F.
Proof. intros HP HF. split; [done|done|]. split; [by intros (? & ? & _)|done]. Qed.

Lemma axis_warn (P F : Prop) c k ref m : ¬ P → ¬ F → axis (Some (mkFinding c StatusWarn k ref m)) P F.
Proof. intros HP HF. split; [by split|by intros f [= <-]|]. split; [by intros (? & [= <-] & ?)|done]. Qed.

Lemma axis_broken (P F : Prop) c k ref m : ¬ P → F → axis (Some (mkFinding c StatusFail k ref m)) P F.
Proof. intros HP HF. split; [by split|by intros f [= <-]|]. split; [done|]. intros _. by eexists. Qed.

Lemma hasEngineSelector_spec cb : hasEngineSelector cb = true ↔ matchLabels cb ≠ ∅.
Proof. unfold hasEngineSelector. by rewrite negb_true_iff, bool_decide_eq_false. Qed.

Lemma ready_axis st ref : axis (readyFinding st ref) (cd_Status <$> findCondition (st_Conditions st) conditionReady = Some ConditionTrue) False.
Proof. unfold readyFinding. cbn zeta. case_bool_decide as E; [apply axis_none; [done|tauto]|apply axis_warn; [done|tauto]]. Qed.

Lemma selector_axis pods cb st ref :
  axis (selectorFinding pods cb st ref)
    (matchLabels cb ≠ ∅ → ∃ n, matchedEnginePodCount pods cb st = inr n ∧ n ≠ 0)
    (matchLabels cb ≠ ∅ ∧ st_MatchedEnginePods st = None ∧ ∃ err, pods (cb_Namespace cb) = inl err).
Proof.
  unfold selectorFinding. destruct (hasEngineSelector cb) eqn:E; last first.
  { apply not_true_iff_false in E. rewrite hasEngineSelector_spec in E. apply axis_none; (naive_solver || tauto). }
  apply hasEngineSelector_spec in E. unfold matchedEnginePodCount. destruct (st_MatchedEnginePods st) as [n|].
  - destruct (n =? 0) eqn:En; [apply Z.eqb_eq in En as ->; apply axis_warn|apply Z.eqb_neq in En; apply axis_none]; (naive_solver || tauto).
  - destruct (pods (cb_Namespace cb)) as [err|l]; [apply axis_broken; naive_solver|].
    destruct (_ =? 0) eqn:En; [apply Z.eqb_eq in En; rewrite En; apply axis_warn|apply Z.eqb_neq in En; apply axis_none]; (naive_solver || tauto).
Qed.

Lemma participation_axis ip first ref now window :
  axis (participationFinding ip first ref now window)
    ((is_Some first ∨ is_Some (ip ≫= ip_LastEventAt)) ∧ ∀ t, ip ≫= ip_LastEventAt = Some t → time_sub now t ≤ window) False.
Proof.
  unfold participationFinding. set (last := ip ≫= ip_LastEventAt). destruct (_ || _) eqn:E; cbn [negb].
  - rewrite orb_true_iff, !bool_decide_eq_true in E. destruct last as [t|] eqn:El; [|apply axis_none; (naive_solver || tauto)].
    destruct (window <? _) eqn:Ew; [apply Z.ltb_lt in Ew; apply axis_warn; [|tauto]; intros [_ H]; specialize (H t eq_refl); lia|].
    apply Z.ltb_ge in Ew. apply axis_none; (naive_solver || tauto).
  - rewrite orb_false_iff, !bool_decide_eq_false in E. apply axis_warn; tauto.
Qed.

Lemma functional_axis st ref :
  axis (functionalFinding st ref)
    (∀ c, findCondition (st_Conditions st) conditionFunctionalProbeOK = Some c → cd_Status c = ConditionTrue) False.
Proof.
  unfold functionalFinding. destruct (findCondition _ _) as [c|]; [|apply axis_none; (done || tauto)].
  destruct (str_eqb _ _) eqn:E; [apply str_eqb_eq in E; apply axis_none; (naive_solver || tauto)|].
  apply str_eqb_neq in E. apply axis_warn; [|tauto]. intros H. by apply E, H.
Qed.

Lemma endpoint_axis st ref dial :
  axis (endpointFinding quote st ref dial)
    (∃ r, st_RemoteStorage st = Some r ∧ rss_Endpoint r ≠ "" ∧ ∀ d, dial = Some d → d (rss_Endpoint r) = None) False.
Proof.
  unfold endpointFinding. destruct (st_RemoteStorage st) as [r|]; cbn [str_eqb]; [|rewrite str_eqb_refl; apply axis_warn; (naive_solver || tauto)].
  destruct (str_eqb (rss_Endpoint r) "") eqn:E; [apply str_eqb_eq in E; apply axis_warn; (naive_solver || tauto)|]. apply str_eqb_neq in E.
  destruct dial as [d|]; [|apply axis_none; (naive_solver || tauto)].
  destruct (d (rss_Endpoint r)) eqn:Ed; [|apply axis_none; (naive_solver || tauto)].
  apply axis_warn; [|tauto]. intros (r' & [= <-] & _ & H). by rewrite (H d eq_refl) in Ed.
Qed.

(** The same of the findings of several axes. *)
Record noted (l : list (option Finding)) (P F : Prop) : Prop := {
  nt_silent : omap id l = [] ↔ P;
  nt_loud : Forall (λ f, 2 ≤ rank (fd_Status f)) (omap id l);
  nt_fail : fails (omap id l) ↔ F
}.

Lemma noted_nil : noted [] True False.
Proof. split; simpl; [done|constructor|apply fails_nil]. Qed.

Lemma noted_cons o l P F Q G : axis o P F → noted l Q G → noted (o :: l) (P ∧ Q) (F ∨ G).
Proof.
  intros [Hs Hl Hf] [Hs' Hl' Hf']. destruct o as [f|]; split; simpl; rewrite <-?Hs, <-?Hs', <-?Hf, <-?Hf'.
  - naive_solver.
  - constructor; [by apply Hl|done].
  - rewrite fails_cons. naive_solver.
  - tauto.
  - done.
  - naive_solver.
Qed.

Lemma noted_app l l' P F Q G : noted l P F → noted l' Q G → noted (l ++ l') (P ∧ Q) (F ∨ G).
Proof.
  intros [Hs Hl Hf] [Hs' Hl' Hf']. split; rewrite omap_app.
  - by rewrite app_nil, Hs, Hs'.
  - by apply Forall_app.
  - by rewrite fails_app, Hf, Hf'.
Qed.

Lemma noted_if (c : bool) l P F : noted l P F → noted (if c then l else []) (c = true → P) (c = true ∧ F).
Proof. intros [Hs Hl Hf]. destruct c; split; simpl; rewrite ?fails_nil; naive_solver. Qed.

Lemma backendNotes_noted pods now window dial b :
  noted (
    let '(cb, st) := b in
    let ref := resourceRef "CacheBackend" (cb_Namespace cb) (cb_Name cb) in
    [readyFinding st ref] ++
    (if isExternal cb then []
     else [selectorFinding pods cb st ref;
           participationFinding (st_IndexParticipation st) (st_FirstKVEventObservedAt st) ref now window;
           functionalFinding st ref]) ++
    (if bool_decide (is_Some (EffectiveRemoteStorage (cb_Spec cb))) then [endpointFinding quote st ref dial] else []))
    (backendHealthy pods now window dial b) (backendUnreadable pods b).
Proof.
  destruct b as [cb st]. cbn zeta. set (ref := resourceRef _ _ _).
  pose proof (noted_if (negb (isExternal cb)) _ _ _
    (noted_cons _ _ _ _ _ _ (selector_axis pods cb st ref)
      (noted_cons _ _ _ _ _ _ (participation_axis (st_IndexParticipation st) (st_FirstKVEventObservedAt st) ref now window)
        (noted_cons _ _ _ _ _ _ (functional_axis st ref) noted_nil)))) as H2.
  pose proof (noted_if (bool_decide (is_Some (EffectiveRemoteStorage (cb_Spec cb)))) _ _ _
    (noted_cons _ _ _ _ _ _ (endpoint_axis st ref dial) noted_nil)) as H3.
  pose proof (noted_app _ _ _ _ _ _ (noted_cons _ _ _ _ _ _ (ready_axis st ref) noted_nil) (noted_app _ _ _ _ _ _ H2 H3)) as H.
  rewrite if_negb in H. unfold backendHealthy, backendUnreadable, lastEvent. destruct H as [Hs Hl Hf]. split; [|done|].
  - rewrite Hs, negb_true_iff, bool_decide_eq_true. naive_solver.
  - rewrite Hf, negb_true_iff. naive_solver.
Qed.

Lemma backend_quiet pods now window dial b :
  quiet (backendFindings quote pods now window dial b) ↔ backendHealthy pods now window dial b.
Proof.
  destruct (backendNotes_noted pods now window dial b) as [Hs Hl _]. unfold backendFindings, backendNotes. destruct b as [cb st].
  rewrite <-Hs. destruct (omap id _) as [|f l]; [report; split; [done|lia]|]. apply Forall_cons in Hl as [Hf _].
  rewrite quiet_cons. split; [lia|done].
Qed.

Lemma backend_fails pods now window dial b :
  fails (backendFindings quote pods now window dial b) ↔ backendUnreadable pods b.
Proof.
  destruct (backendNotes_noted pods now window dial b) as [_ _ Hf]. unfold backendFindings, backendNotes. destruct b as [cb st].
  rewrite <-Hf. destruct (omap id _) as [|f l]; [|tauto]. by report.
Qed.

(** ** The pods *)

(** The backend selects the pod, as the audit reads selectors. *)
Definition selects (pod : Pod) (cb : CacheBackend) : bool :=
  str_eqb (cb_Namespace cb) (p_Namespace pod) && labelsMatch (matchLabels cb) (p_Labels pod).

(** At most one backend selects the pod, and that one left a marker. *)
Definition podHealthy (items : list CacheBackend) (uids : gset string) (pod : Pod) : Prop :=
  (length (List.filter (selects pod) items) ≤ 1)%nat ∧
  ∀ cb, cb ∈ items → selects pod cb = true → stampedBy pod (selOf cb) = true ∨ p_UID pod ∈ uids.

Lemma filter_fmap_List {A B : Type} (f : A → B) (P : B → bool) l : List.filter P (f <$> l) = f <$> List.filter (λ x, P (f x)) l.
Proof. induction l as [|a l IH]; [done|]. cbn [fmap list_fmap List.filter]. destruct (P (f a)); cbn [fmap list_fmap]; by rewrite <-IH. Qed.

Lemma filter_filter_List {A : Type} (P Q : A → bool) l : List.filter P (List.filter Q l) = List.filter (λ x, Q x && P x) l.
Proof. induction l as [|a l IH]; simpl; [done|]. destruct (Q a); simpl; by rewrite IH. Qed.

Lemma filter_List_Permutation {A : Type} (P : A → bool) l l' : l ≡ₚ l' → List.filter P l ≡ₚ List.filter P l'.
Proof.
  induction 1 as [|x l l' _ IH|x y l|l1 l2 l3 _ IH1 _ IH2]; simpl; [done| | |by etrans].
  - destruct (P x); [by constructor|done].
  - destruct (P x), (P y); done || constructor.
Qed.

Lemma matched_perm items pod :
  List.filter (λ s, labelsMatch (sel_labels s) (p_Labels pod)) (byNamespace items (p_Namespace pod)) ≡ₚ selOf <$> List.filter (selects pod) items.
Proof.
  unfold byNamespace. rewrite (filter_List_Permutation _ _ _ (go_sort_Permutation _ _)).
  rewrite filter_fmap_List, filter_filter_List. apply Permutation_map, reflexive_eq, List.filter_ext. intros cb. cbn [selOf sel_labels].
  unfold selects, hasEngineSelector, labelsMatch. destruct (bool_decide (matchLabels cb = ∅)), (str_eqb _ _); done.
Qed.

(** What the audit says of a pod, by the backends that select it. *)
Lemma auditPod_cases items uids pod :
  match List.filter (selects pod) items with
  | [] => auditPod quote items uids pod = []
  | [cb] => ∃ code status msg,
      auditPod quote items uids pod = [mkFinding code status checkEnginePodInjection (resourceRef "Pod" (p_Namespace pod) (p_Name pod)) msg] ∧
      (code, status) = (if stampedBy pod (selOf cb) || bool_decide (p_UID pod ∈ uids)
                        then (CodeEnginePodInjected, StatusOK) else (CodeEnginePodNotInjected, StatusWarn))
  | _ => ∃ msg, auditPod quote items uids pod =
      [mkFinding CodeEngineSelectorAmbiguous StatusWarn checkEnginePodInjection (resourceRef "Pod" (p_Namespace pod) (p_Name pod)) msg]
  end.
Proof.
  unfold auditPod. pose proof (matched_perm items pod) as Hp. set (m := List.filter _ (byNamespace _ _)) in *.
  destruct (List.filter (selects pod) items) as [|cb [|cb' rest]]; cbn [fmap list_fmap] in Hp.
  - apply Permutation_nil_r in Hp as ->. done.
  - apply Permutation_singleton_r in Hp as ->. destruct (stampedBy _ _); cbn [orb]; [by eexists _, _, _|]. case_bool_decide; by eexists _, _, _.
  - assert (2 ≤ length m)%nat as Hl by (rewrite Hp; simpl; lia). destruct m as [|? [|? m]]; simpl in Hl; [lia|lia|]. by eexists.
Qed.

Lemma audit_quiet items uids pod : quiet (auditPod quote items uids pod) ↔ podHealthy items uids pod.
Proof.
  pose proof (auditPod_cases items uids pod) as H. unfold podHealthy.
  assert (∀ cb, cb ∈ List.filter (selects pod) items ↔ selects pod cb = true ∧ cb ∈ items) as Hin by (intros; apply elem_of_List_filter).
  destruct (List.filter (selects pod) items) as [|cb [|cb' rest]].
  - rewrite H. report. split; [|done]. intros _. split; [simpl; lia|]. intros cb Hcb Hs.
    assert (cb ∈ @nil CacheBackend) as Hn by (by apply Hin). by apply elem_of_nil in Hn.
  - destruct H as (code & status & msg & -> & Hs). report. assert (cb ∈ [cb]) as Hcb by left. apply Hin in Hcb as [Hsel Hcb].
    trans (stampedBy pod (selOf cb) = true ∨ p_UID pod ∈ uids).
    + destruct (stampedBy _ _); cbn [orb] in Hs; [injection Hs as -> ->; cbn [rank]; split; [by left|lia]|].
      case_bool_decide; injection Hs as -> ->; cbn [rank]; split; try lia; try tauto. intros [?|?]; done.
    + split; [|intros [_ Hx]; by apply Hx]. intros Hx. split; [simpl; lia|]. intros c Hc Hsc.
      assert (c ∈ [cb]) as Hcc by (by apply Hin). apply list_elem_of_singleton in Hcc as ->. done.
  - destruct H as (msg & ->). report. split; [lia|]. intros [Hl _]. simpl in Hl. lia.
Qed.

Lemma audit_not_fails items uids pod : ¬ fails (auditPod quote items uids pod).
Proof.
  pose proof (auditPod_cases items uids pod) as H. destruct (List.filter (selects pod) items) as [|cb [|cb' rest]].
  - rewrite H. report. tauto.
  - destruct H as (code & status & msg & -> & Hs). report. intros ->. by destruct (_ || _).
  - destruct H as (msg & ->). report. done.
Qed.

(** ** The whole run *)

(** A NoMatchingCacheBackend event about a pod, inside the window. *)
Definition orphanEvent (now : Time) (window : Duration) (e : normalizedEvent) : Prop :=
  ne_Reason e = eventNoMatchingCacheBackend ∧ ne_Kind e = "Pod" ∧ now - window ≤ ne_When e.

Definition overQuota (ct : CacheTenant) : Prop :=
  ∃ c, findCondition (tst_Conditions (ct_Status ct)) conditionQuotaExceeded = Some c ∧ cd_Status c = ConditionTrue.

Definition policiesIn (policies : list CachePolicy) (n : string) : nat := length (List.filter (λ p, str_eqb (cp_Namespace p) n) policies).

(** Everything the doctor looks at is as it should be. *)
Record healthy (d : Deps) : Prop := {
  hl_endpoints : dp_SkipEndpointChecks d = true ∨
    dp_EndpointDiscoveryErr d = None ∧ dp_Health d = Some (inr "SERVING") ∧
    (∃ body, exchange (dp_HTTP d) "GET" (dp_SnapshotURL d) (bearer (dp_Token d)) = Some (200, inr body) ∧
       jsonValid (limitBytes snapshotBodyLimit body) = true) ∧
    (∃ code body, exchange (dp_HTTP d) "HEAD" (dp_PolicyURL d) None = Some (code, body) ∧ routeStatusWired code = true) ∧
    (∃ code body, exchange (dp_HTTP d) "HEAD" (dp_ProbeURL d) None = Some (code, body) ∧ routeStatusWired code = true);
  hl_backends : ∃ items, kc_HealthBackends (dp_K8s d) (dp_Namespace d) = inr items ∧
    ∀ b, b ∈ items → backendHealthy (kc_HealthPods (dp_K8s d)) (dp_Now d) (staleWindow d) (dp_DialTCP d) b;
  hl_pods : ∃ items, kc_AuditBackends (dp_K8s d) (dp_Namespace d) = inr items ∧
    ((∃ b, b ∈ items ∧ matchLabels b.1 ≠ ∅) →
     ∃ pods es, kc_AuditPods (dp_K8s d) (dp_Namespace d) = inr pods ∧
       listAllEvents (kc_AuditLegacy (dp_K8s d)) (kc_AuditModern (dp_K8s d)) (dp_Namespace d) = inr es ∧
       ∀ pod, pod ∈ pods → podHealthy items.*1 (injectedPodUIDs es) pod);
  hl_orphans : ∃ es, listAllEvents (kc_OrphanLegacy (dp_K8s d)) (kc_OrphanModern (dp_K8s d)) (dp_Namespace d) = inr es ∧
    ∀ e, e ∈ es → ¬ orphanEvent (dp_Now d) (orphanWindow d) e;
  hl_tenants : ∃ items, kc_Tenants (dp_K8s d) (dp_Namespace d) = inr items ∧ ∀ ct, ct ∈ items → ¬ overQuota ct;
  hl_policies : ∃ items, kc_CoverageBackends (dp_K8s d) (dp_Namespace d) = inr items ∧
    (items ≠ [] → ∃ policies, kc_Policies (dp_K8s d) (dp_Namespace d) = inr policies ∧
       ∀ b, b ∈ items → (policiesIn policies (cb_Namespace b.1) ≤ 1)%nat)
}.

(** Something cannot be reached or read. *)
Definition broken (d : Deps) : Prop :=
  let k := dp_K8s d in
  let ns := dp_Namespace d in
  (dp_SkipEndpointChecks d = false ∧
   (is_Some (dp_EndpointDiscoveryErr d) ∨ dp_Health d ≠ Some (inr "SERVING") ∨
    (∀ code body, exchange (dp_HTTP d) "GET" (dp_SnapshotURL d) (bearer (dp_Token d)) = Some (code, body) → code ∉ [200; 401; 403]) ∨
    (∀ code body, exchange (dp_HTTP d) "HEAD" (dp_PolicyURL d) None = Some (code, body) → code = 404) ∨
    (∀ code body, exchange (dp_HTTP d) "HEAD" (dp_ProbeURL d) None = Some (code, body) → code = 404))) ∨
  (∃ err, kc_HealthBackends k ns = inl err) ∨
  (∃ items b, kc_HealthBackends k ns = inr items ∧ b ∈ items ∧ backendUnreadable (kc_HealthPods k) b) ∨
  (∃ err, kc_AuditBackends k ns = inl err) ∨
  (∃ items b err, kc_AuditBackends k ns = inr items ∧ b ∈ items ∧ matchLabels b.1 ≠ ∅ ∧
     (kc_AuditPods k ns = inl err ∨ listAllEvents (kc_AuditLegacy k) (kc_AuditModern k) ns = inl err)) ∨
  (∃ err, listAllEvents (kc_OrphanLegacy k) (kc_OrphanModern k) ns = inl err) ∨
  (∃ err, kc_Tenants k ns = inl err) ∨
  (∃ err, kc_CoverageBackends k ns = inl err) ∨
  (∃ items err, kc_CoverageBackends k ns = inr items ∧ items ≠ [] ∧ kc_Policies k ns = inl err).

Lemma health_verdict backends pods ns now window dial :
  (quiet (CacheBackendHealth quote backends pods ns now window dial) ↔
   ∃ items, backends ns = inr items ∧ ∀ b, b ∈ items → backendHealthy pods now window dial b) ∧
  (fails (CacheBackendHealth quote backends pods ns now window dial) ↔
   (∃ err, backends ns = inl err) ∨ ∃ items b, backends ns = inr items ∧ b ∈ items ∧ backendUnreadable pods b).
Proof.
  unfold CacheBackendHealth, listError. destruct (backends ns) as [err|items]; report; [split; split; naive_solver lia|].
  setoid_rewrite backend_quiet. setoid_rewrite backend_fails. naive_solver.
Qed.

Lemma selector_exists (items : list StoredBackend) :
  existsb hasEngineSelector items.*1 = true ↔ ∃ b, b ∈ items ∧ matchLabels b.1 ≠ ∅.
Proof.
  rewrite existsb_exists. setoid_rewrite hasEngineSelector_spec. setoid_rewrite <-list_elem_of_In. setoid_rewrite list_elem_of_fmap. naive_solver.
Qed.

Lemma audit_verdict backends pods legacy modern ns :
  (quiet (EnginePodInjectionAudit quote backends pods legacy modern ns) ↔
   ∃ items, backends ns = inr items ∧
     ((∃ b, b ∈ items ∧ matchLabels b.1 ≠ ∅) →
      ∃ ps es, pods ns = inr ps ∧ listAllEvents legacy modern ns = inr es ∧ ∀ pod, pod ∈ ps → podHealthy items.*1 (injectedPodUIDs es) pod)) ∧
  (fails (EnginePodInjectionAudit quote backends pods legacy modern ns) ↔
   (∃ err, backends ns = inl err) ∨
   ∃ items b err, backends ns = inr items ∧ b ∈ items ∧ matchLabels b.1 ≠ ∅ ∧ (pods ns = inl err ∨ listAllEvents legacy modern ns = inl err)).
Proof.
  unfold EnginePodInjectionAudit, listError. destruct (backends ns) as [err|items]; report; [split; split; naive_solver lia|].
  pose proof (selector_exists items) as Hsel. destruct (existsb _ _); cbn [negb]; report; last first.
  { assert (¬ ∃ b, b ∈ items ∧ matchLabels b.1 ≠ ∅) as Hno by (intros H; by apply Hsel in H). split; split; naive_solver. }
  destruct (proj1 Hsel eq_refl) as (b & Hb & Hl). clear Hsel. destruct (pods ns) as [err|ps]; report; [split; split; naive_solver lia|].
  destruct (listAllEvents legacy modern ns) as [err|es]; report; [split; split; naive_solver lia|].
  setoid_rewrite audit_quiet. split; [naive_solver|]. split; [|naive_solver]. intros (pod & _ & H). by apply audit_not_fails in H.
Qed.

Lemma orphaned_spec now window e : orphaned (now - window) e = true ↔ orphanEvent now window e.
Proof.
  unfold orphaned, orphanEvent. rewrite !andb_true_iff, !str_eqb_eq, negb_true_iff. unfold time_before. rewrite Z.ltb_ge. tauto.
Qed.

Lemma orphan_verdict legacy modern ns now window :
  (quiet (OrphanPods legacy modern ns now window) ↔
   ∃ es, listAllEvents legacy modern ns = inr es ∧ ∀ e, e ∈ es → ¬ orphanEvent now window e) ∧
  (fails (OrphanPods legacy modern ns now window) ↔ ∃ err, listAllEvents legacy modern ns = inl err).
Proof.
  unfold OrphanPods, listError. destruct (listAllEvents legacy modern ns) as [err|es]; report; [split; split; naive_solver lia|].
  setoid_rewrite elem_of_List_filter. setoid_rewrite orphaned_spec. cbn [fd_Status rank]. split; split.
  - intros H. exists es. split; [done|]. intros e He Ho. specialize (H e (conj Ho He)). lia.
  - intros (es' & [= <-] & H) e [Ho He]. by destruct (H e He).
  - by intros (e & _ & ?).
  - by intros [].
Qed.

Lemma tenant_verdict tenants ns :
  (quiet (CacheTenantHealth quote tenants ns) ↔ ∃ items, tenants ns = inr items ∧ ∀ ct, ct ∈ items → ¬ overQuota ct) ∧
  (fails (CacheTenantHealth quote tenants ns) ↔ ∃ err, tenants ns = inl err).
Proof.
  unfold CacheTenantHealth, listError. destruct (tenants ns) as [err|items]; report; [split; split; naive_solver lia|].
  assert (∀ ct, (rank (fd_Status (tenantFinding quote ct)) ≤ 1 ↔ ¬ overQuota ct) ∧ fd_Status (tenantFinding quote ct) ≠ StatusFail) as H.
  { intros ct. unfold tenantFinding, overQuota. destruct (findCondition _ _) as [c|]; cbn; [|split; [split; [by intros _ (? & ? & _)|lia]|done]].
    destruct (str_eqb (cd_Status c) ConditionTrue) eqn:E; cbn; [apply str_eqb_eq in E|apply str_eqb_neq in E]; (split; [|done]).
    - split; [lia|]. intros Hn. destruct Hn. by exists c.
    - split; [|lia]. by intros _ (c' & [= <-] & ?). }
  split; split; [intros Hq; exists items; split; [done|]; intros ct Hct; by apply H, Hq|naive_solver|intros (ct & _ & Hf); by destruct (H ct)|by intros []].
Qed.

Lemma backendNamespaces_spec items n : n ∈ backendNamespaces items ↔ ∃ b : StoredBackend, b ∈ items ∧ cb_Namespace b.1 = n.
Proof. unfold backendNamespaces. rewrite elem_of_list_to_set, list_elem_of_fmap. naive_solver. Qed.

Lemma coverage_verdict backends policies ns :
  (quiet (CachePolicyCoverage quote backends policies ns) ↔
   ∃ items, backends ns = inr items ∧
     (items ≠ [] → ∃ ps, policies ns = inr ps ∧ ∀ b, b ∈ items → (policiesIn ps (cb_Namespace b.1) ≤ 1)%nat)) ∧
  (fails (CachePolicyCoverage quote backends policies ns) ↔
   (∃ err, backends ns = inl err) ∨ ∃ items err, backends ns = inr items ∧ items ≠ [] ∧ policies ns = inl err).
Proof.
  unfold CachePolicyCoverage, listError. destruct (backends ns) as [err|items]; report; [split; split; naive_solver lia|].
  case_bool_decide as He.
  { destruct items as [|b items]; [|exfalso; assert (cb_Namespace b.1 ∈ backendNamespaces (b :: items)) by (apply backendNamespaces_spec; exists b; split; [left|done]); set_solver].
    report. split; split; naive_solver. }
  assert (items ≠ []) as Hne by (intros ->; by apply He). destruct (policies ns) as [err|ps]; report; [split; split; naive_solver lia|].
  setoid_rewrite elem_of_go_sort. setoid_rewrite elem_of_elements. setoid_rewrite backendNamespaces_spec.
  assert (∀ n, (rank (fd_Status (coverageFinding quote ps n)) ≤ 1 ↔ (policiesIn ps n ≤ 1)%nat) ∧ fd_Status (coverageFinding quote ps n) ≠ StatusFail) as H.
  { intros n. unfold coverageFinding. fold (policiesIn ps n). cbv zeta. destruct (_ =? 0) eqn:E0; cbn [fd_Status rank]; [split; [lia|done]|].
    destruct (1 <? _) eqn:E1; cbn [fd_Status rank]; split; [lia|done|lia|done]. }
  split; split.
  - intros Hq. exists items. split; [done|]. intros _. exists ps. split; [done|]. intros b Hb. apply H, Hq. by exists b.
  - intros (items' & [= <-] & Hq) n (b & Hb & <-). destruct (Hq Hne) as (ps' & [= <-] & Hps). by apply H, Hps.
  - intros (n & _ & Hf). by destruct (H n).
  - by intros [[]|(? & ? & _ & _ & ?)].
Qed.

Lemma endpoints_verdict d :
  (quiet (endpointChecks jsonValid d) ↔
   dp_SkipEndpointChecks d = true ∨
    dp_EndpointDiscoveryErr d = None ∧ dp_Health d = Some (inr "SERVING") ∧
    (∃ body, exchange (dp_HTTP d) "GET" (dp_SnapshotURL d) (bearer (dp_Token d)) = Some (200, inr body) ∧
       jsonValid (limitBytes snapshotBodyLimit body) = true) ∧
    (∃ code body, exchange (dp_HTTP d) "HEAD" (dp_PolicyURL d) None = Some (code, body) ∧ routeStatusWired code = true) ∧
    (∃ code body, exchange (dp_HTTP d) "HEAD" (dp_ProbeURL d) None = Some (code, body) ∧ routeStatusWired code = true)) ∧
  (fails (endpointChecks jsonValid d) ↔
   dp_SkipEndpointChecks d = false ∧
   (is_Some (dp_EndpointDiscoveryErr d) ∨ dp_Health d ≠ Some (inr "SERVING") ∨
    (∀ code body, exchange (dp_HTTP d) "GET" (dp_SnapshotURL d) (bearer (dp_Token d)) = Some (code, body) → code ∉ [200; 401; 403]) ∨
    (∀ code body, exchange (dp_HTTP d) "HEAD" (dp_PolicyURL d) None = Some (code, body) → code = 404) ∨
    (∀ code body, exchange (dp_HTTP d) "HEAD" (dp_ProbeURL d) None = Some (code, body) → code = 404))).
Proof.
  unfold endpointChecks. destruct (dp_SkipEndpointChecks d); [report; split; split; naive_solver|].
  destruct (dp_EndpointDiscoveryErr d) as [err|]; report; [split; split; [lia|by intros [?|[? _]]|intros _; split; [done|left; by eexists]|done]|].
  unfold PolicyReachability, ProbeReachability.
  rewrite server_quiet, server_fails, snapshot_quiet, snapshot_fails, !route_quiet, !route_fails.
  split; [naive_solver|]. split; [tauto|]. intros [_ [[? ?]|H]]; [done|tauto].
Qed.

Lemma run_verdict d :
  (ExitCode (Run quote jsonValid d) = 0 ↔ healthy d) ∧ (ExitCode (Run quote jsonValid d) = 2 ↔ broken d).
Proof.
  rewrite ExitCode_quiet, ExitCode_fails. unfold Run. cbv zeta. report.
  destruct (endpoints_verdict d) as [-> ->], (health_verdict (kc_HealthBackends (dp_K8s d)) (kc_HealthPods (dp_K8s d)) (dp_Namespace d)
    (dp_Now d) (staleWindow d) (dp_DialTCP d)) as [-> ->], (audit_verdict (kc_AuditBackends (dp_K8s d)) (kc_AuditPods (dp_K8s d))
    (kc_AuditLegacy (dp_K8s d)) (kc_AuditModern (dp_K8s d)) (dp_Namespace d)) as [-> ->],
    (orphan_verdict (kc_OrphanLegacy (dp_K8s d)) (kc_OrphanModern (dp_K8s d)) (dp_Namespace d) (dp_Now d) (orphanWindow d)) as [-> ->],
    (tenant_verdict (kc_Tenants (dp_K8s d)) (dp_Namespace d)) as [-> ->],
    (coverage_verdict (kc_CoverageBackends (dp_K8s d)) (kc_Policies (dp_K8s d)) (dp_Namespace d)) as [-> ->].
  split; [split; [intros (H1 & H2 & H3 & H4 & H5 & H6); by split|intros [H1 H2 H3 H4 H5 H6]; by split_and!]|].
  unfold broken. cbv zeta. tauto.
Qed.

(** ** The command *)

(** The invocation ran the checks on [deps] and printed the report. *)
Definition reported (w : World) (opts : doctorOptions) (deps : Deps) : Prop :=
  ∃ format, ParseFormat quote (do_outputFormat opts) = inr format ∧ wd_RestConfig w = None ∧ wd_Client w = None ∧
    depsOf quote w opts = inr deps ∧
    (Render quote align (wd_Stdout w) (Run quote jsonValid deps) format
       (str_eqb format FormatHuman && negb (do_noColor opts) && wd_Terminal w)).2 = None.

Lemma ExitCode_range r : ExitCode r = 0 ∨ ExitCode r = 1 ∨ ExitCode r = 2.
Proof. unfold ExitCode. destruct (Worst r); tauto. Qed.

(** A run either reports, and exits with the code of the report, or exits with 1. *)
Lemma run_reported w opts :
  (∃ deps, reported w opts deps ∧ (run quote jsonValid align w opts).2 = ExitCode (Run quote jsonValid deps)) ∨
  (¬ ∃ deps, reported w opts deps) ∧ (run quote jsonValid align w opts).2 = 1.
Proof.
  unfold run, runDoctor, reported. destruct (ParseFormat quote _) as [err|format] eqn:Ef; [right; naive_solver|].
  destruct (wd_RestConfig w); [right; naive_solver|]. destruct (wd_Client w); [right; naive_solver|].
  destruct (depsOf quote w opts) as [err|deps]; [right; naive_solver|]. cbv zeta.
  destruct (Render quote align _ _ _ _) as [text [err|]] eqn:Er.
  - right. split; [|done]. intros (d & f & [= <-] & _ & _ & [= <-] & Hr). by rewrite Er in Hr.
  - left. exists deps. split; [|done]. exists format. split_and!; [done..|]. by rewrite Er.
Qed.

Lemma reported_unique w opts d d' : reported w opts d → reported w opts d' → d = d'.
Proof. intros (f & _ & _ & _ & H & _) (f' & _ & _ & _ & H' & _). congruence. Qed.

(** C19: The doctor exits 0 exactly when it could report and everything it looks at is as it should be:
    the server serves, its routes are mounted and the snapshot parses, every backend passes every axis
    that applies to it, every engine pod has one owner that left a marker, no pod is orphaned, no tenant
    over quota and no namespace has two policies.  It exits 2 exactly when it could report that an
    endpoint or a read it needs failed.  Every other run exits 1. *)
Theorem doctor_exit_exact w opts :
  let code := (run quote jsonValid align w opts).2 in
  (code = 0 ↔ ∃ deps, reported w opts deps ∧ healthy deps) ∧
  (code = 2 ↔ ∃ deps, reported w opts deps ∧ broken deps) ∧
  (code = 0 ∨ code = 1 ∨ code = 2).
Proof.
  cbv zeta. destruct (run_reported w opts) as [(deps & Hd & ->)|[Hno ->]]; last first.
  { split_and!; [split; [lia|naive_solver]..|tauto]. }
  destruct (run_verdict deps) as [H0 H2].
  split_and!; [rewrite H0|rewrite H2|apply ExitCode_range]; (split; [naive_solver|]);
    intros (d & Hd' & ?); by rewrite (reported_unique w opts deps d).
Qed.

(** ** What the report shows *)

Lemma Counts_spec r s : count r (statusString s) = Z.of_nat (length (FindingsByStatus r s)).
Proof.
  unfold count, Counts, FindingsByStatus.
  assert (∀ m : gmap string Z, default 0 (foldl (λ (m : gmap string Z) f, <[statusString (fd_Status f) := default 0 (m !! statusString (fd_Status f)) + 1]> m) m r !! statusString s)
    = default 0 (m !! statusString s) + Z.of_nat (length (List.filter (λ f, bool_decide (fd_Status f = s)) r))) as H.
  { induction r as [|f r IH]; intros m; cbn [foldl List.filter]; [simpl; lia|]. rewrite IH.
    destruct (decide (fd_Status f = s)) as [<-|Hne].
    - rewrite bool_decide_true, lookup_insert_eq by done. simpl. lia.
    - rewrite bool_decide_false, lookup_insert_ne; [done| |done]. destruct (fd_Status f), s; done. }
  rewrite H. by destruct s.
Qed.

(** The sections of the human output hold every finding once, the most severe first, and the
    summary counts them. *)
Lemma human_sections_complete r :
  mjoin (FindingsByStatus r <$> OrderedStatuses) ≡ₚ r ∧ ∀ s, count r (statusString s) = Z.of_nat (length (FindingsByStatus r s)).
Proof.
  split; [|intros s; apply Counts_spec]. unfold OrderedStatuses, FindingsByStatus. cbn [fmap list_fmap mjoin list_join].
  induction r as [|f r IH]; [done|]. cbn [List.filter]. rewrite app_nil_r in *.
  destruct (fd_Status f); repeat first [rewrite bool_decide_true by done | rewrite bool_decide_false by done]; cbn [app];
    rewrite <-?Permutation_middle, ?app_assoc, <-?Permutation_middle, <-?app_assoc; by rewrite IH.
Qed.
End doctor.

(** ** The audit and the injector *)

Section agreement.
Context `{QO : QuantityOps} `{KV : KValidation}.
Context (quote : string → string) (unmarshal : string → string + Pod) (marshal : Pod → string + string).

(** Wiring keeps the namespace and the label that names the cache domain. *)
Definition samePlace (p q : Pod) : Prop :=
  p_Namespace p = p_Namespace q ∧ p_Labels p !! CacheBackendDomainLabel = p_Labels q !! CacheBackendDomainLabel.

Lemma wirePod_place h cache pod pod' : wirePod quote h cache pod = inr pod' → samePlace pod' pod.
Proof.
  intros (registry & adapter & protocol & mutated & H)%wirePod_inv.
  destruct (injectSidecar adapter cache (injectKernelCheck adapter cache mutated)) as [mutated' appended] eqn:Esc.
  destruct H as (_ & _ & _ & _ & _ & Hen & _ & ->). unfold samePlace.
  assert (p_Namespace mutated = p_Namespace pod ∧ p_Labels mutated = p_Labels pod) as [<- <-].
  { revert Hen. unfold injectEngine. destruct (IsEventsOnly _); [by intros [= <-]|].
    destruct (ad_InjectEngineConfig _ _ _ _); [done|]. by intros [= <-]. }
  assert (p_Namespace mutated' = p_Namespace mutated ∧ p_Labels mutated' = p_Labels mutated) as [<- <-].
  { revert Esc. unfold injectSidecar, injectKernelCheck.
    destruct (ad_KernelCheckInitContainer adapter) as [icp|]; [destruct (IsEventsOnly _); [|destruct (icp cache mutated) as [|[|]]]|];
      (destruct (ad_ObservationSidecar _ _ _) as [|[sc|]]; [|destruct (hasContainer _ _)|]); by intros [= <- <-]. }
  unfold stampInjected. destruct (bs_LMCache _) as [lm|]; [destruct (str_eqb _ _)|]; cbn; [|done..].
  split; [done|]. by rewrite lookup_insert_ne.
Qed.

Lemma ref_not_empty ns name : str_eqb (ns +:+ "/" +:+ name) "" = false.
Proof. apply str_eqb_neq. by destruct ns. Qed.

Lemma admitted_labels req p : p_Labels (admittedPod req p) = p_Labels p.
Proof. unfold admittedPod. by destruct (str_eqb _ _). Qed.

Lemma admitted_namespace req p :
  p_Namespace (admittedPod req p) = if str_eqb (p_Namespace p) "" then rq_Namespace req else p_Namespace p.
Proof. unfold admittedPod. by destruct (str_eqb _ _). Qed.

Lemma admitted_place req p q : samePlace p (admittedPod req q) → samePlace (admittedPod req p) (admittedPod req q).
Proof.
  unfold samePlace. rewrite !admitted_labels, !admitted_namespace. intros [-> ->]. split; [|done].
  destruct (str_eqb (p_Namespace q) "") eqn:E; [by destruct (str_eqb (rq_Namespace req) "")|by rewrite E].
Qed.

Lemma same_place_annotations req a pod : samePlace (set_annotations a (admittedPod req pod)) (admittedPod req pod).
Proof. by split. Qed.

(** What the apiserver stores after the handler is in the place the handler saw. *)
Lemma handled_place h req pod doc pod' :
  codec unmarshal marshal → rq_Operation req ≠ "" → unmarshal (rq_Raw req) = inr pod →
  persisted req (Handle quote unmarshal marshal h req) = Some doc → unmarshal doc = inr pod' →
  samePlace (admittedPod req pod') (admittedPod req pod).
Proof.
  intros Hc Hop Hraw. unfold Handle. apply str_eqb_neq in Hop as ->. rewrite Hraw. fold (admittedPod req pod).
  assert (∀ m, samePlace m (admittedPod req pod) → ∀ s, marshal m = inr s → unmarshal s = inr pod' →
    samePlace (admittedPod req pod') (admittedPod req pod)) as Hnew.
  { intros m Hm s Es Hu. destruct (Hc m) as (s' & Es' & Hu'). assert (s' = s) as -> by congruence.
    rewrite Hu in Hu'. injection Hu' as ->. by apply admitted_place. }
  assert (unmarshal (rq_Raw req) = inr pod' → samePlace (admittedPod req pod') (admittedPod req pod)) as Hsame.
  { rewrite Hraw. by intros [= ->]. }
  assert (∀ reason, persisted req (failOpen marshal (rq_Raw req) (admittedPod req pod) reason) = Some doc → unmarshal doc = inr pod' →
    samePlace (admittedPod req pod') (admittedPod req pod)) as Hfail.
  { intros reason. unfold failOpen. destruct (forallb _ _); [by intros [= <-]|].
    destruct (marshal _) as [err|s] eqn:Em; [by intros [= <-]|]. intros [= <-]. eapply Hnew; [|exact Em]. apply same_place_annotations. }
  destruct (SkipAnnotationOptsOut _).
  { unfold skipInjection. destruct (_ && forallb _ _); [by intros [= <-]|].
    destruct (marshal _) as [err|s] eqn:Em; [by intros [= <-]|]. intros [= <-]. eapply Hnew; [|exact Em]. apply same_place_annotations. }
  destruct (selectCacheBackend h _) as [|cache|names|err]; [apply Hfail| |done|apply Hfail].
  destruct (wirePod quote h cache _) as [reason|mutated] eqn:Ew; [apply Hfail|].
  destruct (marshal mutated) as [err|s] eqn:Em; [by intros [= <-]|]. intros [= <-]. eapply Hnew; [|exact Em]. by eapply wirePod_place.
Qed.

(** On the selectors admission lets through, the audit and the injector agree. *)
Lemma selects_claims p q cb :
  domainSelector cb → samePlace p q → selects p cb = str_eqb (cb_Namespace cb) (p_Namespace q) && claims q cb.
Proof.
  intros Hd [Hn Hl]. unfold selects. rewrite Hn. f_equal. destruct Hd as [He|(d & Hne & He)].
  - unfold labelsMatch, claims. by rewrite He, bool_decide_true.
  - apply eq_true_iff_eq. rewrite (claims_domain q cb d He), <-Hl. unfold labelsMatch. rewrite He, bool_decide_false.
    + cbn [negb andb]. rewrite bool_decide_eq_true, map_Forall_singleton. unfold strGet.
      destruct (p_Labels p !! CacheBackendDomainLabel) as [x|]; cbn [default]; [naive_solver|]. split; [by intros <-|done].
    + intros E. apply (f_equal (.!! CacheBackendDomainLabel)) in E. by rewrite lookup_singleton_eq, lookup_empty in E.
Qed.

(** The backends the audit finds for a pod are the injector's selection. *)
Lemma selects_selection registry h c p q :
  rtc (backendStep quote [] registry) [] c → reads h c → samePlace p q →
  match List.filter (selects p) c with
  | [] => selectCacheBackend h q = NoBackend
  | [cb] => selectCacheBackend h q = OneBackend cb
  | _ => False
  end.
Proof.
  intros Hr Hread Hpq. destruct (owner_exact quote registry h c q Hr Hread) as [Hamb Hone].
  pose proof (backends_reachable_ok quote registry c Hr) as [_ Hd _]. rewrite Forall_forall in Hd.
  assert (List.filter (selects p) c = List.filter (λ cb, str_eqb (cb_Namespace cb) (p_Namespace q) && claims q cb) c) as ->.
  { apply List.filter_ext_in. intros cb Hcb%list_elem_of_In. apply selects_claims; auto. }
  rewrite <-filter_filter_List. revert Hamb. unfold selectCacheBackend. rewrite Hread.
  set (items := List.filter _ c). intros Hamb.
  pose proof (filter_List_Permutation (claims q) _ _ (go_sort_Permutation (λ a b, str_lt (cb_Name a) (cb_Name b)) items)) as Hp.
  destruct (List.filter (claims q) items) as [|a [|b rest]].
  - apply Permutation_nil_r in Hp as ->. done.
  - apply Permutation_singleton_r in Hp as ->. done.
  - assert (2 ≤ length (List.filter (claims q) (go_sort (λ a b, str_lt (cb_Name a) (cb_Name b)) items)))%nat as Hl by (rewrite Hp; simpl; lia).
    destruct (List.filter (claims q) _) as [|? [|? ?]]; simpl in Hl; [lia|lia|]. by eapply Hamb.
Qed.

(** The stamps of the stored pod are those the audit validates exactly when the backend wired it. *)
Lemma stampedBy_decision h q cb a p :
  selectCacheBackend h q = OneBackend cb → stampsOf (decision quote h q) a → p_Annotations p = a →
  cb_Namespace cb = p_Namespace p →
  stampedBy p (selOf cb) = match decision quote h q with Wired _ => negb (str_eqb (cb_UID cb) "") | _ => false end.
Proof.
  intros Hsel Hst Ha Hns. unfold stampedBy. rewrite Ha. cbn [selOf sel_backend sel_uid]. revert Hst.
  change annotationInjectedBy with AnnotationInjectedBy. change annotationInjectedByUID with AnnotationInjectedByUID.
  unfold decision. rewrite Hsel. destruct (SkipAnnotationOptsOut _); cbn [stampsOf].
  { intros [H _]. by rewrite (H AnnotationInjectedBy) by (unfold identityStamps; set_solver). }
  destruct (wirePod quote h cb q); cbn [stampsOf].
  - intros H. by rewrite (H AnnotationInjectedBy) by (unfold injectionStamps; set_solver).
  - intros (-> & -> & _ & _). by rewrite Hns, !str_eqb_refl, ref_not_empty, andb_true_r.
Qed.

(** C20: For a cluster whose backends the validating webhook let through one by one, the doctor's
    audit of a pod the injector handled says what the injector did: nothing when no backend owns the
    pod, injected when the owner wired it, and not injected when it was left unwired or opted out,
    unless an injection event for its UID is on record.  It never reports an ambiguous selector. *)
Theorem audit_agrees_with_injector registry h c req pod doc pod' uids :
  rtc (backendStep quote [] registry) [] c → reads h c → codec unmarshal marshal →
  rq_Operation req ≠ "" → unmarshal (rq_Raw req) = inr pod →
  persisted req (Handle quote unmarshal marshal h req) = Some doc → unmarshal doc = inr pod' →
  let seen := admittedPod req pod in
  let stored := admittedPod req pod' in
  let marked wired := if wired || bool_decide (p_UID stored ∈ uids)
                      then [(CodeEnginePodInjected, StatusOK)] else [(CodeEnginePodNotInjected, StatusWarn)] in
  (λ f, (fd_Code f, fd_Status f)) <$> auditPod quote c uids stored =
    match selectCacheBackend h seen, decision quote h seen with
    | OneBackend _, Wired cache => marked (negb (str_eqb (cb_UID cache) ""))
    | OneBackend _, _ => marked false
    | _, _ => []
    end.
Proof.
  intros Hr Hread Hc Hop Hraw Hper Hdoc seen stored marked.
  assert (samePlace stored seen) as Hpl by (by eapply handled_place).
  assert (stampsOf (decision quote h seen) (p_Annotations stored)) as Hst.
  { assert (p_Annotations stored = p_Annotations pod') as -> by (unfold stored, admittedPod; by destruct (str_eqb _ _)).
    by eapply stamps_truthful. }
  pose proof (auditPod_cases quote c uids stored) as Hcases. pose proof (selects_selection registry h c stored seen Hr Hread Hpl) as Hsel.
  destruct (List.filter (selects stored) c) as [|cb [|? ?]] eqn:Ef; [by rewrite Hsel, Hcases| |done].
  assert (cb ∈ List.filter (selects stored) c) as Hin by (rewrite Ef; left). apply elem_of_List_filter in Hin as [Hs _].
  apply andb_true_iff in Hs as [Hns%str_eqb_eq _]. destruct Hcases as (code & status & msg & -> & Hv). rewrite Hsel.
  cbn [fmap list_fmap fd_Code fd_Status]. rewrite (stampedBy_decision h seen cb _ stored Hsel Hst eq_refl Hns) in Hv.
  unfold marked. rewrite Hv. revert Hst. unfold decision. rewrite Hsel.
  destruct (SkipAnnotationOptsOut _); [|destruct (wirePod quote h cb seen)]; intros _; generalize (bool_decide (p_UID stored ∈ uids));
    intros [|]; [done|done|done|done|by rewrite !orb_true_r|]. rewrite !orb_false_r. by destruct (negb _).
Qed.
End agreement.

(** ** Witnesses and samples *)

Section samples.
Import MilliQuantity.

(** The pod of a request that came with another backend's stamps, wired by its owner. *)
Definition auditedPod : Pod := admittedPod stampedRequest (storedPod (storedDoc stampedRequest stampedResponse)).

Lemma audit_agrees_with_injector_witness :
  (λ f, (fd_Code f, fd_Status f)) <$> auditPod sampleQuote [hiBackend] ∅ auditedPod = [("EP002", StatusOK)].
Proof.
  refine (eq_trans (audit_agrees_with_injector sampleQuote PodCodec.unmarshal PodCodec.marshal (Some sampleRegistry) (sampleInjector [hiBackend])
    [hiBackend] stampedRequest stampedPod (storedDoc stampedRequest stampedResponse)
    (storedPod (storedDoc stampedRequest stampedResponse)) ∅ _ _ _ _ _ _ _) _).
  - apply rtc_once, backend_create; [set_solver|by vm_compute].
  - done.
  - exact PodCodec.unmarshal_marshal.
  - done.
  - destruct (PodCodec.unmarshal_marshal stampedPod) as (raw & Em & Eu). unfold stampedRequest. rewrite Em. exact Eu.
  - apply stored_some. vm_compute. reflexivity.
  - apply resultOf_inr. vm_compute. reflexivity.
  - vm_compute. reflexivity.
Defined.

(** The audit reads an absent label as the empty string, the controller's selector does not. *)
Example absent_label_selects :
  labelsMatch {["tier" := ""]} ∅ = true ∧ selectorMatches {["tier" := ""]} ∅ = false.
Proof. by vm_compute. Qed.

(** A healthy installation: the server answers, one backend is Ready, and the injected pod has its
    event. *)
Definition answersOnce {A : Type} (l : list A) : Listed A := λ _, inr l.

Definition readyStatus : CacheBackendStatus :=
  set_Conditions [mkCondition "Ready" ConditionTrue "Ready" "ok" 1 0]
    (set_IndexParticipation (Some (mkParticipation 7 (Some (50 * Second)) None None))
       (set_Matched (Some 1) "" emptyStatus)).

Definition healthyCluster : Cluster :=
  let backends := answersOnce [(hiBackend, readyStatus)] in
  mkCluster backends (answersOnce []) backends (answersOnce [auditedPod]) (answersOnce []) (answersOnce []) (answersOnce []) (answersOnce [])
    (answersOnce []) backends (answersOnce []).

Definition sampleServer : HTTPDoer :=
  mkDoer (λ _, None) (λ r, if str_eqb (dr_Method r) "GET" then inr (200, inr "{}") else inr (405, inr "")).

Definition sampleWorld (server : HTTPDoer) : World :=
  mkWorld None None healthyCluster (mkServiceReads (inr true) (inr [])) (λ _, None) (λ _, inr "SERVING") server (λ _, None) (λ _, FileMissing)
    (100 * Second) false (mkWriter 100 "write failed").

Definition plainOptions : doctorOptions := mkOptions "" "" "" "human" false false.

Definition runSample (server : HTTPDoer) : string * Z := run sampleQuote (λ _, true) id (sampleWorld server) plainOptions.

Example healthy_exits_zero : (runSample sampleServer).2 = 0.
Proof. vm_compute. reflexivity. Qed.

(** A server that knows neither route. *)
Example missing_routes_exit_two : (runSample (mkDoer (λ _, None) (λ _, inr (404, inr "")))).2 = 2.
Proof. vm_compute. reflexivity. Qed.

(** The report of the tests of the formatters and its human rendering. *)
Definition sampleFindings : Report :=
  [mkFinding "SV001" StatusFail "ServerReachability" "host:9090" "gRPC health check failed: connection refused";
   mkFinding "CB002" StatusWarn "CacheBackendHealth" "cachebackend/ns1/bad" "status.matchedEnginePods is 0 (LikelySelectorMismatch)";
   mkFinding "CP001" StatusInfo "CachePolicyCoverage" "namespace/ns1" "no CachePolicy — server defaults apply";
   mkFinding "SV003" StatusOK "ServerReachability" "host:9090" "gRPC health check reports SERVING";
   mkFinding "EP000" StatusOK "Summary" "" "cluster-wide note with no resource"].

Example human_golden : renderHuman (mkWriter 100 "") sampleFindings false = ("inferencecache doctor

FAIL
  FAIL SV001  host:9090
      gRPC health check failed: connection refused

WARN
  WARN CB002  cachebackend/ns1/bad
      status.matchedEnginePods is 0 (LikelySelectorMismatch)

INFO
  INFO CP001  namespace/ns1
      no CachePolicy — server defaults apply

OK
  OK   SV003  host:9090
      gRPC health check reports SERVING
  OK   EP000
      cluster-wide note with no resource

Summary: 2 OK, 1 INFO, 1 WARN, 1 FAIL  (exit 2)
", None).
Proof. vm_compute. reflexivity. Qed.
End samples.
