(* ===== verification/HttpTheorems.v ===== *)
(** * The HTTP listeners: the theorems

    Every handler of the controller-facing listener runs behind a token review for its own audience,
    the policy store is what the admitted pushes made it, and the doctor's probes of a live server
    change nothing. *)

From Stdlib Require Import SpecFloat.
From S2P Require Import Prelude Ordering GoRuntime Floats GoText IndexTypes IndexAccounting IndexIngest IndexSnapshot IndexSystem.
From S2P Require Import Policy Service Probe Server Auth IndexPoller Doctor HttpServer.

Section http.
Context (sha256 : string → string) (range : gmap string Time → list (string * Time)).
Hypothesis Hrange : ∀ m, range m ≡ₚ map_to_list m.

(** ** The middleware's log *)

Lemma authStep_log a ev : as_log a ⊆ as_log (authStep sha256 range a ev).
Proof.
  destruct ev as [id header now|id o now]; simpl.
  - destruct (as_flight a !! id); [done|]. destruct (mwBegin _ _ _ _) as [[a' recs] [resp|spec]]; simpl; [|done]. by apply list_subseteq_cons.
  - destruct (as_flight a !! id) as [spec|]; [|done]. destruct (mwReview _ _ _ _ _ _) as [[a' recs] resp]. simpl.
    by do 2 apply list_subseteq_cons.
Qed.

Lemma arrive_served a id header now :
  as_flight a !! id = None → arrivalOutcome sha256 a header now = Some ServedNext →
  LServe (default "" (extractBearer header)) now ∈ as_log (authStep sha256 range a (Arrive id header now)).
Proof.
  unfold arrivalOutcome. simpl. intros ->. destruct (mwBegin _ _ _ _) as [[a' recs] [resp|spec]]; simpl; [|done].
  intros [= ->]. left.
Qed.

Lemma review_served a id spec o now :
  as_flight a !! id = Some spec → reviewOutcome sha256 range a (tr_Token spec) o now = ServedNext →
  LServe (tr_Token spec) now ∈ as_log (authStep sha256 range a (Reviewed id o now)).
Proof.
  unfold reviewOutcome. simpl. intros ->. destruct (mwReview _ _ _ _ _ _) as [[a' recs] resp]. simpl. intros ->. left.
Qed.

Lemma arrive_flight a id header now j spec :
  as_flight (authStep sha256 range a (Arrive id header now)) !! j = Some spec →
  as_flight a !! j = Some spec ∨ j = id ∧ as_flight a !! id = None ∧ arrivalOutcome sha256 a header now = None.
Proof.
  unfold arrivalOutcome. simpl. destruct (as_flight a !! id) eqn:Ef; [by left|].
  destruct (mwBegin _ _ _ _) as [[a' recs] [resp|spec']]; simpl; [by left|].
  intros [[<- _]|[_ H]]%lookup_insert_Some; [by right|by left].
Qed.

Lemma review_flight a id o now j spec :
  as_flight (authStep sha256 range a (Reviewed id o now)) !! j = Some spec → as_flight a !! j = Some spec ∧ j ≠ id.
Proof.
  simpl. destruct (as_flight a !! id) eqn:Ef; [|intros H; split; [done|by intros ->; rewrite Ef in H]].
  destruct (mwReview _ _ _ _ _ _) as [[a' recs] resp]. simpl. intros [Hne H]%lookup_delete_Some. by split.
Qed.

(** ** Every state of the service *)

(** The policy store after the admitted requests. *)
Definition pushed (served : list Served) : PolicyStore :=
  foldr (λ sd ps, if decide (sd_Endpoint sd = EpPolicy) then (policyHandler (hq_Method (sd_Request sd)) (hq_Policy (sd_Request sd)) ps).2 else ps)
    NewPolicyStore served.

Record http_inv (base : Endpoint → Authenticator) (s : HttpSys) : Prop := {
  hi_auth ep : ∃ a, hy_auth s ep = Some a ∧ auth_inv sha256 (base ep) a;
  hi_flight ep a id spec : hy_auth s ep = Some a → as_flight a !! id = Some spec → ∃ req, hy_pending s !! id = Some (ep, req);
  hi_served sd a : sd ∈ hy_served s → hy_auth s (sd_Endpoint sd) = Some a → LServe (sd_Token sd) (sd_Time sd) ∈ as_log a;
  hi_policies : sv_policies (hy_server s) = pushed (hy_served s)
}.

Lemma handler_policies ep req env s :
  sv_policies (endpointHandler sha256 ep req env s).2 =
    if decide (ep = EpPolicy) then (policyHandler (hq_Method req) (hq_Policy req) (sv_policies s)).2 else sv_policies s.
Proof.
  destruct ep; simpl; [done|by destruct (policyHandler _ _ _)|]. by destruct (probeHandler _ _ _ _ _ _ _) as [|[? ?]].
Qed.

(** A handler that runs behind an admission in the log of its endpoint keeps the invariant. *)
Lemma serveNext_inv base s ep req token now env :
  http_inv base s → (∀ a, hy_auth s ep = Some a → LServe token now ∈ as_log a) →
  http_inv base (serveNext sha256 ep req token now env s).
Proof.
  intros [Ha Hf Hs Hp] Hnew. unfold serveNext. pose proof (handler_policies ep req env (hy_server s)) as Hh.
  destruct (endpointHandler _ _ _ _ _) as [resp srv]. cbn [snd] in Hh. split; cbn [hy_server hy_auth hy_pending hy_served]; [done|done| |].
  - intros sd a [->|Hin]%elem_of_cons; [apply Hnew|by apply Hs].
  - cbn [pushed foldr sd_Endpoint sd_Request]. fold (pushed (hy_served s)). by rewrite Hh, Hp.
Qed.

(** A step of one middleware keeps it, when its flight is accounted for. *)
Lemma setAuth_inv base s ep a ev pending :
  http_inv base s → hy_auth s ep = Some a → 0 < a_cacheMax (base ep) → 0 < a_cacheTTL (base ep) →
  (∀ ep' id spec a', setAuth ep (authStep sha256 range a ev) (hy_auth s) ep' = Some a' → as_flight a' !! id = Some spec →
     ∃ req, pending !! id = Some (ep', req)) →
  http_inv base (mkHttpSys (hy_server s) (setAuth ep (authStep sha256 range a ev) (hy_auth s)) pending (hy_served s)).
Proof.
  intros [Ha Hf Hs Hp] Hep Hmax Httl Hpend. split; cbn [hy_server hy_auth hy_pending hy_served]; [| |..|done].
  - intros ep'. unfold setAuth. destruct (decide (ep' = ep)) as [->|]; [|apply Ha]. eexists. split; [done|].
    destruct (Ha ep) as (a' & Ea & Hi). rewrite Hep in Ea. injection Ea as <-.
    destruct ev; [by apply arrive_inv|by apply review_inv].
  - intros ep' a' id spec H1 H2. by eapply Hpend.
  - intros sd a' Hin. unfold setAuth. destruct (decide (sd_Endpoint sd = ep)) as [<-|]; [|by apply Hs].
    intros [= <-]. apply authStep_log. by apply Hs.
Qed.

Lemma arrive_keeps base s id req now env :
  (∀ ep, 0 < a_cacheMax (base ep) ∧ 0 < a_cacheTTL (base ep)) →
  hy_pending s !! id = None → http_inv base s → http_inv base (arrive sha256 range id req now env s).
Proof.
  intros Hb Hid Hinv. unfold arrive. destruct (route _ _ _) as [ep| |]; [|done|done].
  destruct (hi_auth _ _ Hinv ep) as (a & Ha & _). rewrite Ha. cbv zeta.
  assert (as_flight a !! id = None) as Hfl.
  { destruct (as_flight a !! id) eqn:E; [|done]. destruct (hi_flight _ _ Hinv _ _ _ _ Ha E) as (r & Hr). by rewrite Hid in Hr. }
  set (outcome := arrivalOutcome _ _ _ _). set (s' := mkHttpSys _ _ _ _).
  assert (http_inv base s') as Hinv'.
  { apply (setAuth_inv base s ep a); [done|done|apply Hb|apply Hb|].
    intros ep' j spec a' Hset Hj. assert (∀ r : HttpRequest, hy_pending s !! j = Some (ep', r) → j ≠ id) as Hne by (intros r Hr ->; by rewrite Hid in Hr).
    assert (hy_auth s ep' = Some a' ∨ ep' = ep ∧ a' = authStep sha256 range a (Arrive id (hq_Authorization req) now)) as [Hold|[-> ->]].
    { unfold setAuth in Hset. destruct (decide (ep' = ep)) as [->|]; [right; split; [done|by injection Hset]|by left]. }
    - destruct (hi_flight _ _ Hinv _ _ _ _ Hold Hj) as (r & Hr). exists r. destruct outcome; [done|]. rewrite lookup_insert_ne; [done|]. by apply not_eq_sym, (Hne r).
    - apply arrive_flight in Hj as [Hj|(-> & _ & Ho)].
      + destruct (hi_flight _ _ Hinv _ _ _ _ Ha Hj) as (r & Hr). exists r. destruct outcome; [done|]. rewrite lookup_insert_ne; [done|]. by apply not_eq_sym, (Hne r).
      + exists req. unfold outcome. rewrite Ho. apply lookup_insert_eq. }
  unfold serveIf. destruct outcome as [[|code]|] eqn:Eo; [|done|done]. apply serveNext_inv; [done|].
  intros a'. unfold s', setAuth. cbn [hy_auth]. rewrite decide_True by done. intros [= <-]. by apply arrive_served.
Qed.

Lemma reviewed_keeps base s id o now env :
  (∀ ep, 0 < a_cacheMax (base ep) ∧ 0 < a_cacheTTL (base ep)) →
  http_inv base s → http_inv base (reviewed sha256 range id o now env s).
Proof.
  intros Hb Hinv. unfold reviewed. destruct (hy_pending s !! id) as [[ep req]|] eqn:Hid; [|done].
  destruct (hi_auth _ _ Hinv ep) as (a & Ha & _). rewrite Ha. cbn [mbind option_bind].
  destruct (as_flight a !! id) as [spec|] eqn:Hfl; [|done]. cbn [fmap option_fmap option_map]. set (s' := mkHttpSys _ _ _ _).
  assert (http_inv base s') as Hinv'.
  { apply (setAuth_inv base s ep a); [done|done|apply Hb|apply Hb|].
    intros ep' j spec' a' Hset Hj. assert (∀ r, hy_pending s !! j = Some (ep', r) → j ≠ id → delete id (hy_pending s) !! j = Some (ep', r)) as Hkeep.
    { intros r Hr Hne. by rewrite lookup_delete_ne. }
    unfold setAuth in Hset. destruct (decide (ep' = ep)) as [->|Hep].
    - injection Hset as <-. apply review_flight in Hj as [Hj Hne]. destruct (hi_flight _ _ Hinv _ _ _ _ Ha Hj) as (r & Hr). eauto.
    - destruct (hi_flight _ _ Hinv _ _ _ _ Hset Hj) as (r & Hr). exists r. apply Hkeep; [done|]. intros ->. rewrite Hid in Hr. by injection Hr as ->. }
  unfold serveIf. destruct (reviewOutcome _ _ _ _ _ _) as [|code] eqn:Eo; [|done]. apply serveNext_inv; [done|].
  intros a'. unfold s', setAuth. cbn [hy_auth]. rewrite decide_True by done. intros [= <-]. by eapply review_served.
Qed.

Lemma traffic_policies s op : isTraffic op = true → sv_policies (serverStep s op) = sv_policies s.
Proof. by destruct op. Qed.

Lemma httpStep_keeps base s ev :
  (∀ ep, 0 < a_cacheMax (base ep) ∧ 0 < a_cacheTTL (base ep)) → http_inv base s → http_inv base (httpStep sha256 range s ev).
Proof.
  intros Hb Hinv. destruct ev as [id req now env|id o now env|op]; cbn [httpStep].
  - case_bool_decide as Hp; [done|]. apply arrive_keeps; [done| |done]. by apply eq_None_not_Some.
  - by apply reviewed_keeps.
  - destruct (isTraffic op) eqn:Et; [|done]. destruct Hinv as [Ha Hf Hs Hp]. split; cbn [hy_server hy_auth hy_pending hy_served]; [done..|].
    by rewrite traffic_policies.
Qed.

(** The authenticators of a service with authentication. *)
Lemma newAuthenticators_spec {Tok : Type} (o : ServiceOptions Tok) c r :
  so_controllerAuth o = Some c → newAuthenticators o = inr r →
  ∃ auths, r = Some auths ∧ ∀ ep, NewAuthenticator (authOptions c (audienceOf o c ep)) = inr (authenticatorOf auths ep).
Proof.
  unfold newAuthenticators. intros ->. repeat case_match; try done. intros [= <-]. eexists. split; [done|]. by intros [].
Qed.

Lemma NewAuthenticator_fields c audience a :
  NewAuthenticator (authOptions c audience) = inr a →
  a = mkAuthenticator (cac_saName c) audience true DefaultCacheTTL DefaultCacheMaxEntries ∅.
Proof. unfold NewAuthenticator, authOptions. cbn. by repeat case_match; intros; simplify_eq/=. Qed.

Lemma http_run_inv {Tok : Type} (o : ServiceOptions Tok) c s0 evs :
  so_controllerAuth o = Some c → NewService o = inr s0 →
  http_inv (λ ep, mkAuthenticator (cac_saName c) (audienceOf o c ep) true DefaultCacheTTL DefaultCacheMaxEntries ∅) (httpRun sha256 range s0 evs).
Proof.
  intros Hc. unfold NewService. destruct (newAuthenticators o) as [|r] eqn:En; [done|]. intros [= <-].
  destruct (newAuthenticators_spec o c r Hc En) as (auths & -> & Hauth). unfold httpRun. apply foldl_inv.
  - split; cbn [hy_server hy_auth hy_pending hy_served]; [| |by intros sd a ?%elem_of_nil|done].
    + intros ep. eexists. split; [done|]. rewrite <-(NewAuthenticator_fields _ _ _ (Hauth ep)). exact (authRun_inv sha256 range Hrange _ _ [] (Hauth ep)).
    + intros ep a id spec [= <-]. cbn [as_flight]. by rewrite lookup_empty.
  - intros s ev _. apply httpStep_keeps. by vm_compute.
Qed.
End http.

(** ** The theorems *)

(** C26: Whatever requests arrive on the controller-facing listener and however they interleave with
    each other, with the apiserver's answers and with gRPC traffic, each handler that ran did so
    behind a TokenReview sent for the audience of that endpoint, of a token with the same hash,
    answered earlier as the configured service account, and less than a cache TTL before.  The policy
    store is exactly what the admitted /policy requests made it. *)
Theorem controller_endpoints_gated sha256 range {Tok : Type} (o : ServiceOptions Tok) c s0 evs :
  (∀ m, range m ≡ₚ map_to_list m) → so_controllerAuth o = Some c → NewService o = inr s0 →
  let s := httpRun sha256 range s0 evs in
  (∀ sd, sd ∈ hy_served s → ∃ a post pre spec t0,
     hy_auth s (sd_Endpoint sd) = Some a ∧ as_log a = post ++ LServe (sd_Token sd) (sd_Time sd) :: pre ∧
     LReview spec (ReviewStatus true (cac_saName c)) t0 ∈ pre ∧
     tr_Audiences spec = (let aud := audienceOf o c (sd_Endpoint sd) in if str_eqb aud "" then [] else [aud]) ∧
     sha256Hex sha256 (tr_Token spec) = sha256Hex sha256 (sd_Token sd) ∧ sd_Time sd < t0 + DefaultCacheTTL) ∧
  sv_policies (hy_server s) = pushed (hy_served s).
Proof.
  intros Hrange Hc Hnew. cbv zeta. pose proof (http_run_inv sha256 range Hrange o c s0 evs Hc Hnew) as Hinv.
  split; [|apply (hi_policies _ _ _ Hinv)]. intros sd Hsd. destruct (hi_auth _ _ _ Hinv (sd_Endpoint sd)) as (a & Ha & Hi).
  pose proof (hi_served _ _ _ Hinv sd a Hsd Ha) as Hl. apply list_elem_of_split in Hl as (post & pre & Hl).
  destruct (inv_served _ _ _ Hi post pre _ _ Hl) as (e & (spec & t0 & Hin & Haud & Hh & ->) & Ht).
  exists a, post, pre, spec, t0. split_and!; [done..| |done|done]. rewrite Haud. unfold audiencesOf. cbn [a_audience].
  by destruct (str_eqb _ "").
Qed.

(** ** The doctor against a live server *)

Section live.
Context (sha256 : string → string) (range : gmap string Time → list (string * Time)) (urlPath : string → string).
Context (review : TokenReviewSpec → ReviewOutcome).

(** A request of the doctor as the server gets it, and the server as the doctor sees it. *)
Definition received (r : DoctorRequest) : HttpRequest :=
  mkHttpRequest (dr_Method r) (urlPath (dr_URL r)) (default "" (dr_Authorization r)) None None.

Definition liveServer (encode : HttpResponse → string) (now : Time) (env : HandlerEnv) (s : HttpSys) : HTTPDoer :=
  mkDoer (λ _, None) (λ r, let a := answer sha256 range review (received r) now env s in inr (httpCode a, inr (encode a))).

Lemma head_answer url ep now env s :
  route snapshotRoutes "HEAD" (urlPath url) = Found ep → ep ≠ EpSnapshot →
  routeStatusWired (httpCode (answer sha256 range review (received (mkDoctorRequest "HEAD" url None)) now env s)) = true.
Proof.
  intros Hr Hep. unfold answer. cbn [received hq_Method hq_Path hq_Authorization dr_Method dr_URL dr_Authorization default].
  rewrite Hr. destruct (hy_auth s ep); [done|]. by destruct ep.
Qed.

(** The doctor's probe of a mounted route that rejects HEAD or asks for a token. *)
Lemma route_live url ep check name codes encode now env s :
  url ≠ "" → route snapshotRoutes "HEAD" (urlPath url) = Found ep → ep ≠ EpSnapshot →
  ∃ msg, routeReachability (Some (liveServer encode now env s)) url check name codes = [mkFinding (rt_wired codes) StatusOK check url msg].
Proof.
  intros Hu%str_eqb_neq Hr Hep. unfold routeReachability. rewrite Hu. cbn [liveServer hd_NewRequest hd_Do].
  pose proof (head_answer url ep now env s Hr Hep) as Hw. rewrite Hw.
  destruct (httpCode _ =? 404) eqn:E; [apply Z.eqb_eq in E; by rewrite E in Hw|]. by eexists.
Qed.

(** A method that neither /policy nor /probe acts on. *)
Definition readOnly (req : HttpRequest) : Prop := hq_Method req ≠ "POST" ∧ hq_Method req ≠ "PUT".

Lemma readOnly_handler ep req env srv : readOnly req → (endpointHandler sha256 ep req env srv).2 = srv.
Proof.
  intros [H1%str_eqb_neq H2%str_eqb_neq]. destruct ep; cbn [endpointHandler]; [done| |].
  - unfold policyHandler. rewrite H1, H2. by destruct srv.
  - unfold probeHandler. by rewrite H1.
Qed.

Lemma readOnly_serve ep req token now env s : readOnly req → hy_server (serveNext sha256 ep req token now env s) = hy_server s.
Proof.
  intros H. unfold serveNext. pose proof (readOnly_handler ep req env (hy_server s) H) as Hh. by destruct (endpointHandler _ _ _ _ _).
Qed.

Lemma readOnly_serveIf r ep req token now env s : readOnly req → hy_server (serveIf sha256 r ep req token now env s) = hy_server s.
Proof. intros H. unfold serveIf. destruct r as [[]|]; [by apply readOnly_serve|done|done]. Qed.

Lemma readOnly_arrive id req now env s : readOnly req → hy_server (httpStep sha256 range s (HttpArrive id req now env)) = hy_server s.
Proof.
  intros H. cbn [httpStep]. case_bool_decide; [done|]. unfold arrive. destruct (route _ _ _) as [ep| |]; [|done|done].
  destruct (hy_auth s ep); [|by apply readOnly_serve]. cbv zeta. by rewrite readOnly_serveIf.
Qed.

Lemma readOnly_reviewed id ep req o now env s :
  hy_pending s !! id = Some (ep, req) → readOnly req → hy_server (httpStep sha256 range s (HttpReviewed id o now env)) = hy_server s.
Proof.
  intros Hp H. cbn [httpStep]. unfold reviewed. rewrite Hp. destruct (_ ≫= _) as [[a spec]|]; [|done]. by rewrite readOnly_serveIf.
Qed.

(** The three requests of the doctor. *)
Definition doctorRequests (snapshotURL policyURL probeURL token : string) : list DoctorRequest :=
  [mkDoctorRequest "GET" snapshotURL (if str_eqb token "" then None else Some ("Bearer " +:+ token));
   mkDoctorRequest "HEAD" policyURL None; mkDoctorRequest "HEAD" probeURL None].

(** C21: Against a running server in any state, with or without authentication, the doctor's route
    probes report /policy and /probe as mounted, and none of its three requests changes the policies
    or the index, neither when it arrives nor when the review it waited for is answered. *)
Theorem doctor_probes_live encode now env s snapshotURL policyURL probeURL token :
  policyURL ≠ "" → probeURL ≠ "" → urlPath policyURL = "/policy" → urlPath probeURL = "/probe" →
  let doer := Some (liveServer encode now env s) in
  (∃ msg, PolicyReachability doer policyURL = [mkFinding CodePolicyRouteWired StatusOK checkPolicyReachability policyURL msg]) ∧
  (∃ msg, ProbeReachability doer probeURL = [mkFinding CodeProbeRouteWired StatusOK checkProbeReachability probeURL msg]) ∧
  ∀ r id, r ∈ doctorRequests snapshotURL policyURL probeURL token →
    hy_server (httpStep sha256 range s (HttpArrive id (received r) now env)) = hy_server s ∧
    ∀ ep o, hy_pending s !! id = Some (ep, received r) →
      hy_server (httpStep sha256 range s (HttpReviewed id o now env)) = hy_server s.
Proof.
  intros Hu1 Hu2 Hp1 Hp2 doer. split_and!.
  - apply (route_live _ EpPolicy); [done|by rewrite Hp1|done].
  - apply (route_live _ EpProbe); [done|by rewrite Hp2|done].
  - intros r id Hr. assert (readOnly (received r)) as Hro.
    { unfold doctorRequests in Hr. by repeat (apply elem_of_cons in Hr as [->|Hr]; [by split|]); apply elem_of_nil in Hr. }
    split; [by apply readOnly_arrive|]. intros ep o Hp. by eapply readOnly_reviewed.
Qed.
End live.

(** ** Construction and listeners *)

(** New panics exactly when authentication is asked for without a reviewer or a service account. *)
Lemma NewService_panics {Tok : Type} (o : ServiceOptions Tok) :
  (∃ msg, NewService o = inl msg) ↔ ∃ c, so_controllerAuth o = Some c ∧ (cac_reviewer c = false ∨ cac_saName c = "").
Proof.
  unfold NewService, newAuthenticators. destruct (so_controllerAuth o) as [c|]; [|split; [by intros []|by intros (? & ? & _)]].
  unfold NewAuthenticator, authOptions. cbn. destruct (cac_reviewer c) eqn:Er; cbn [negb].
  - destruct (str_eqb (cac_saName c) "") eqn:Es; [apply str_eqb_eq in Es|apply str_eqb_neq in Es].
    + split; [|by eexists]. intros _. exists c. auto.
    + split; [by intros []|]. by intros (c' & [= <-] & [?|?]); [congruence|].
  - split; [|by eexists]. intros _. exists c. auto.
Qed.

(** No listener is left open when one of them cannot be opened. *)
Lemma openListeners_closed listen opened closed err : openListeners listen = (opened, closed, Some err) → closed = opened.
Proof. unfold openListeners. by repeat case_match; intros; simplify_eq. Qed.

(** ** Witnesses and samples *)

Definition gatedOptions : ServiceOptions unit :=
  applyOptions [WithControllerAuth true "sa" ControllerAudience; WithPolicyAudience PolicyAudience].

Definition freshService (o : ServiceOptions unit) : HttpSys :=
  match NewService o with inr s => s | inl _ => mkHttpSys NewServer (λ _, None) ∅ [] end.

Definition quietEnv : HandlerEnv := mkHandlerEnv [] (mkProbeEnv 0 0 [] 0 [] 0 [] [] 0 0).

Definition pushRequest : HttpRequest :=
  mkHttpRequest "PUT" "/policy" "Bearer tok" (Some (mkPolicySnapshot 7 [] [mkTenant "a" 1 ""])) None.

(** A push that waits for its review, one with a foreign token, and a read that reuses neither. *)
Definition gatedEvents : list HttpEvent :=
  [HttpArrive 1 pushRequest 100 quietEnv; HttpReviewed 1 (ReviewStatus true "sa") 101 quietEnv;
   HttpArrive 2 (mkHttpRequest "GET" "/snapshot" "Bearer tok" None None) 102 quietEnv;
   HttpReviewed 2 (ReviewStatus false "") 103 quietEnv].

Definition gatedRun : HttpSys := httpRun id map_to_list (freshService gatedOptions) gatedEvents.

Lemma controller_endpoints_gated_witness :
  hy_served gatedRun = [mkServed EpPolicy pushRequest "tok" 101 HNoContent] ∧
  ∃ a post pre spec t0, hy_auth gatedRun EpPolicy = Some a ∧ as_log a = post ++ LServe "tok" 101 :: pre ∧
    LReview spec (ReviewStatus true "sa") t0 ∈ pre ∧ tr_Audiences spec = [PolicyAudience] ∧
    sha256Hex id (tr_Token spec) = sha256Hex id "tok" ∧ 101 < t0 + DefaultCacheTTL.
Proof.
  assert (hy_served gatedRun = [mkServed EpPolicy pushRequest "tok" 101 HNoContent]) as Hs by (vm_compute; reflexivity).
  split; [exact Hs|].
  apply (proj1 (controller_endpoints_gated id map_to_list gatedOptions (mkControllerAuth true "sa" ControllerAudience) (freshService gatedOptions)
    gatedEvents (λ _, reflexivity _) eq_refl eq_refl) (mkServed EpPolicy pushRequest "tok" 101 HNoContent)).
  fold gatedRun. rewrite Hs. left.
Defined.

(** The path of an in-cluster URL of the doctor. *)
Definition samplePath (url : string) : string := TrimPrefix url "http://server.svc:8081".

Lemma doctor_probes_live_witness :
  ∃ msg, PolicyReachability (Some (liveServer id map_to_list samplePath (λ _, ReviewFailed) (λ _, "") 200 quietEnv gatedRun))
           "http://server.svc:8081/policy"
         = [mkFinding CodePolicyRouteWired StatusOK checkPolicyReachability "http://server.svc:8081/policy" msg].
Proof.
  apply (proj1 (doctor_probes_live id map_to_list samplePath (λ _, ReviewFailed) (λ _, "") 200 quietEnv gatedRun
    "http://server.svc:8081/snapshot" "http://server.svc:8081/policy" "http://server.svc:8081/probe" "" ltac:(done) ltac:(done) eq_refl eq_refl)).
Defined.

(** Paths that are not clean are redirected, whatever they would clean to. *)
Example unclean_paths_redirected :
  (cleanPath <$> ["/x/../policy"; "//policy"; "policy/"; "/./a//b/.."; ""] = ["/policy"; "/policy"; "/policy/"; "/a"; "/"]) ∧
  route snapshotRoutes "POST" "//policy" = Redirected ∧ route snapshotRoutes "POST" "/policy/" = NotFound.
Proof. by vm_compute. Qed.

(** A report stamped in the year 10000, and one stamped now. *)
Definition stampedReport (replica : string) (us : Z) : CacheStateUpdate :=
  mkCacheStateUpdate replica "m" "a" "vllm" "" us [mkPrefixEntry "p" 16 [] [] "" 1] None.

Definition year10000 : Z := 253402300800 * 1000000.

Definition getSnapshot (s : Server) : Z := httpCode (snapshotHandler "GET" quietEnv s).

(** The rates are sanitised so that /snapshot always encodes; the timestamps are not.  One report
    from the year 10000 makes /snapshot answer 500, and as it never expires neither the other
    replicas' reports nor the sweeps of the next day bring it back. *)
Example far_future_report_breaks_snapshot :
  let now := unix_epoch + 1700000000 * Second in
  let good := serverStep NewServer (SrvReport now (stampedReport "r1" 1700000000000000)) in
  let bad := serverStep good (SrvReport now (stampedReport "r2" year10000)) in
  let later := foldl serverStep bad
    [SrvSweep (now + 86400 * Second); SrvReport (now + 86400 * Second) (stampedReport "r1" 1700086400000000)] in
  getSnapshot good = 200 ∧ getSnapshot bad = 500 ∧ getSnapshot later = 500.
Proof. vm_compute. by split_and!. Qed.
