(* ===== verification/ControllerWitnesses.v ===== *)
(** * Concrete runs of the CacheBackend controller

    A list of conditions with the documented behaviour, sample backends, pods and answers, and the
    controller's guarantees at those inputs. *)

From S2P Require Import Prelude Ordering GoRuntime GoText GoNumbers K8s Auth ControlPlane IndexPoller Probe.
From S2P Require Import CoreV1 BackendApi Endpoints Adapters Renderer EngineWire EngineAdapters LiveObjects.
From S2P Require Import ReadinessGate ProbeGate EngineHealth ConnectorHealth StatusPublish ManagedWorkload.
From S2P Require Import NodeLocalPods NodeLocalServers BackendSamples NodeLocalFacts NodeLocalTheorems.
From S2P Require Import NodeLocalRoundtrip BackendReconciler StatusFacts ReconcileTheorems ConnectorTheorems ReadinessTheorems ReadinessRuns.
Import MilliQuantity.

(** ** Conditions *)

Definition findCond (cs : list Condition) (t : string) : option Condition := List.find (λ c, str_eqb (cd_Type c) t) cs.

Definition condTime (now : Time) (cs : list Condition) (c : Condition) : Time :=
  match findCond cs (cd_Type c) with
  | Some old => if str_eqb (cd_Status old) (cd_Status c) then cd_LastTransitionTime old else now
  | None => now
  end.

Definition stamped (now : Time) (cs : list Condition) (c : Condition) : Condition :=
  mkCondition (cd_Type c) (cd_Status c) (cd_Reason c) (cd_Message c) (cd_ObservedGeneration c) (condTime now cs c).

(** The first condition of the type is replaced, or the new one appended. *)
Fixpoint replaceCond (c : Condition) (cs : list Condition) : list Condition :=
  match cs with
  | [] => [c]
  | d :: cs => if str_eqb (cd_Type d) (cd_Type c) then c :: cs else d :: replaceCond c cs
  end.

#[export] Instance listConditions : ConditionOps := {
  FindStatusCondition := findCond;
  SetStatusCondition now cs c := replaceCond (stamped now cs c) cs;
  RemoveStatusCondition cs t := List.filter (λ c, negb (str_eqb (cd_Type c) t)) cs;
  transitionTime := condTime
}.

#[export] Instance listConditionLaws : ConditionLaws.
Proof.
  split.
  - intros now cs c. cbn [FindStatusCondition SetStatusCondition listConditions]. change (published now cs c) with (stamped now cs c).
    change (cd_Type c) with (cd_Type (stamped now cs c)). generalize (stamped now cs c). clear. intros c.
    induction cs as [|d cs IH]; cbn; [by rewrite str_eqb_refl|]. destruct (str_eqb (cd_Type d) (cd_Type c)) eqn:E; cbn; [by rewrite str_eqb_refl|by rewrite E].
  - intros now cs c t Ht. cbn [FindStatusCondition SetStatusCondition listConditions]. change (cd_Type c) with (cd_Type (stamped now cs c)) in Ht.
    revert Ht. generalize (stamped now cs c). clear. intros c Ht. assert (str_eqb (cd_Type c) t = false) as Hc by (apply str_eqb_neq; congruence).
    induction cs as [|d cs IH]; cbn; [by rewrite Hc|]. destruct (str_eqb (cd_Type d) (cd_Type c)) eqn:E; cbn.
    + apply str_eqb_eq in E. by rewrite E, Hc.
    + by destruct (str_eqb (cd_Type d) t).
  - intros cs t. cbn. induction cs as [|d cs IH]; cbn; [done|]. destruct (str_eqb (cd_Type d) t) eqn:E; cbn; [done|by rewrite E].
  - intros cs t t' Ht. cbn. induction cs as [|d cs IH]; cbn; [done|]. destruct (str_eqb (cd_Type d) t) eqn:E; cbn.
    + apply str_eqb_eq in E. rewrite (proj2 (str_eqb_neq _ _)) by congruence. done.
    + by destruct (str_eqb (cd_Type d) t').
  - intros cs t c. cbn. intros [_ H]%List.find_some. by apply str_eqb_eq in H.
Qed.

(** ** Passes *)

Definition seconds (n : Z) : Time := n * Second.

(** A probe that answers with [ingest] for the ingest stage. *)
Definition sampleIO (cb : CacheBackend) (ingest : string) : ProbeIO :=
  mkProbeIO (λ _, None) (λ _, FileMissing) "missing"
    (λ _, Answered 200 "" (inr (mkWireProbe (backendKey cb) ingest stageOK stageSkipped []))).

Definition sampleReconciler (probe : option ProbeClient) : Reconciler := mkBackendReconciler None None true probe 0 0 0 "cleanup:v1".
Definition probing : Reconciler := sampleReconciler (Some (mkProbeClient "http://server/probe" "")).

Definition readyDeployment : Deployment := mkDeployment 1 None ∅ (Some 1) 1 1 1.

Definition inputsAt (cb : CacheBackend) (now : Z) (ingest : string) : StatusInputs :=
  mkStatusInputs (seconds now) (sampleIO cb ingest) (ListOK []) (ListOK []) true.

(** A backend whose index participation reports an event. *)
Definition withEvents : CacheBackendStatus :=
  set_IndexParticipation (Some (mkParticipation 1 (Some (seconds 50)) None None)) emptyStatus.

Lemma managed_accepted r cb e dep ok inp st limiter :
  si_PatchOK inp = true → oc_Err (updateManagedStatus sampleQuote r cb e dep ok inp st limiter) = false.
Proof. intros H. unfold updateManagedStatus. cbn [oc_Err]. rewrite H. apply negb_false_iff, patchStatus_ok. Qed.

Lemma managed_ready_exact_witness :
  publishesReady (oc_Status (updateManagedStatus sampleQuote probing hiBackend "cache.team:6379" readyDeployment true
                               (inputsAt hiBackend 100 stageOK) withEvents ∅)).
Proof.
  apply (managed_ready_exact sampleQuote probing hiBackend "cache.team:6379" readyDeployment true (inputsAt hiBackend 100 stageOK) withEvents ∅).
  - by apply managed_accepted.
  - split_and!.
    + change (workloadAvailable readyDeployment). by split_and!.
    + done.
    + right. right. reflexivity.
    + intros p Hp. by apply elem_of_nil in Hp.
Defined.

(** The backend after a probe that found the ingest path broken. *)
Definition probeFailed : CacheBackendStatus :=
  set_Conditions [mkCondition conditionTypeFunctionalProbeOK ConditionFalse reasonProbeIngestFailed "broken" 1 (seconds 90)] withEvents.

Definition brokenPass : ManagedStep :=
  mkManagedStep hiBackend "cache.team:6379" readyDeployment true (inputsAt hiBackend 200 stageFailed) (st_IndexParticipation withEvents).

Lemma failed_probe_sticky_witness :
  heldDown probeFailed ∧ heldDown (foldl (managedStep sampleQuote probing) (probeFailed, ∅) [brokenPass; brokenPass]).1.
Proof.
  assert (heldDown probeFailed) as H by (split; [by eexists _, _, _|by intros (? & ? & ? & ?)]).
  split; [exact H|]. apply (failed_probe_sticky sampleQuote probing [brokenPass; brokenPass] probeFailed ∅); [done| |exact H].
  assert (probeUncleared sampleQuote probing brokenPass) as Hu; [|by repeat apply List.Forall_cons; try apply List.Forall_nil].
  split; [done|]. intros result [= <-]. done.
Defined.

(** Two passes over the same backend, 100 seconds apart. *)
Definition passAt (now : Z) : CacheBackendStatus * ManagedStep :=
  (withEvents, mkManagedStep hiBackend "cache.team:6379" readyDeployment true (inputsAt hiBackend now stageOK) (st_IndexParticipation withEvents)).

Lemma probe_answers_spaced_witness :
  probeRateLimit probing = 30 * Second ∧ timeOf (passAt 100) + probeRateLimit probing ≤ timeOf (passAt 200).
Proof.
  split; [done|].
  apply (probe_answers_spaced sampleQuote probing [] [passAt 110] (passAt 100) (passAt 200) ∅).
  - done.
  - repeat constructor; done.
  - done.
  - vm_compute. discriminate.
  - by apply managed_accepted.
  - vm_compute. discriminate.
Defined.

(** A serving backend without events, at second 1000 and when its window is over. *)
Definition silentOutcome : Outcome :=
  updateManagedStatus sampleQuote probing hiBackend "e" readyDeployment true (inputsAt hiBackend 1000 stageOK) emptyStatus ∅.

Lemma silent_awaiting st : lastKVEventSeen st = false → awaitingEvents hiBackend st "e" readyDeployment.
Proof. intros H. split_and!; [change (workloadAvailable readyDeployment); by split_and!|done|done]. Qed.

Lemma no_events_degraded_witness :
  degradedNoEvents (oc_Status (updateManagedStatus sampleQuote probing hiBackend "e" readyDeployment true
                                 (inputsAt hiBackend 1300 stageOK) (oc_Status silentOutcome) ∅)).
Proof.
  apply (no_events_degraded sampleQuote probing hiBackend "e" "e" readyDeployment readyDeployment true true
           (inputsAt hiBackend 1000 stageOK) (inputsAt hiBackend 1300 stageOK) emptyStatus (oc_Status silentOutcome) ∅ ∅).
  - done.
  - done.
  - by apply silent_awaiting.
  - by apply managed_accepted.
  - done.
  - done.
  - apply silent_awaiting. vm_compute. reflexivity.
  - by apply managed_accepted.
  - vm_compute. discriminate.
Defined.

(** The backend with a first-event timeout of [n] seconds. *)
Definition waiting (n : Z) : CacheBackend :=
  mkCacheBackend "team" "hicache" "uid-2" 1 ∅
    (mkBackendSpec CacheBackendRuntimeSGLang CacheBackendTypeSGLangHiCache None None (Some (mkObservation "" (Some (n * Second))))
       (Some (mkIntegration "" "" None None)) (Some {[CacheBackendDomainLabel := "team-a"]}) None false) None.

(** An engine of that backend whose strict kernel check failed. *)
Definition brokenEngine : LivePod :=
  let check := plainContainer LMCacheKernelCheckContainerName [] [mkEnvVar EnvKernelCheckStrict "1" None] in
  mkLivePod (mkPod "team" "engine-0" "pod-uid" {[CacheBackendDomainLabel := "team-a"]}
      {[AnnotationInjectedBy := "team/hicache"; AnnotationInjectedByUID := "uid-2"]} (mkPodSpec [check] [] []))
    None false "node-a" [] None (mkPodScheduling [] [] "" None "" "" None None) (mkHostSettings false "" None None) "Always" 0 false "Pending" []
    [mkContainerStatus LMCacheKernelCheckContainerName false false None (Some (mkTerminated 1 "" (KernelCheckMsgFailPrefix +:+ "c_ops"))) None] [].

Definition passOver (cb : CacheBackend) (now : Z) (engines : list LivePod) (st : CacheBackendStatus) : CacheBackendStatus :=
  oc_Status (updateManagedStatus sampleQuote (sampleReconciler None) cb "e" readyDeployment true
               (mkStatusInputs (seconds now) (sampleIO cb stageOK) (ListOK engines) (ListOK []) true) st ∅).

(** The reason that keeps a backend Degraded is that of the stored Ready condition.  Raising the
    timeout after the window was breached leaves the backend Degraded; but once a strict kernel
    failure has replaced the reason in between, the same edit reports it as waiting again, with no
    event ever seen and the workload available throughout. *)
Lemma raised_timeout_after_kernel_failure :
  let breached := passOver (waiting 60) 1300 [] (passOver (waiting 60) 1000 [] emptyStatus) in
  let downgraded := passOver (waiting 60) 1305 [brokenEngine] breached in
  let raised := passOver (waiting 600) 1310 [] in
  let degraded st := (λ '(status, reason, _, _), (status, reason)) <$> seen st conditionTypeDegraded in
  degraded breached = Some (ConditionTrue, reasonNoKVEventsObserved) ∧
  degraded (raised breached) = Some (ConditionTrue, reasonNoKVEventsObserved) ∧
  degraded downgraded = Some (ConditionTrue, reasonNoKVEventsObserved) ∧
  degraded (raised downgraded) = Some (ConditionFalse, reasonNotDegraded) ∧
  readyConditionReason (raised downgraded) = reasonAwaitingFirstKVEvent.
Proof. vm_compute. by split_and!. Qed.

(** ** NodeLocal *)

Definition nodeBackend : CacheBackend :=
  mkCacheBackend "team" "cache" "uid-3" 5 ∅
    (mkBackendSpec CacheBackendRuntimeVLLM CacheBackendTypeLMCache
       (Some (mkLMCache LMCacheTopologyNodeLocal None
          (Some (mkNodeLocal (Some (mkNodeLocalServer "lmcache:v1" 5555 8080 (1000 * 2 ^ 31) 2 2 noResources)) 600)) None))
       None None (Some (mkIntegration "" "" None None)) (Some {[CacheBackendDomainLabel := "team-a"]}) None false) None.

Definition plainScheduling : PodScheduling := mkPodScheduling [] [] "" None "" "" None None.
Definition plainHost : HostSettings := mkHostSettings false "" None None.

(** An engine wired by [cb], Ready on node-a, with the statuses of its init containers. *)
Definition wiredEngine (cb : CacheBackend) (inits : list ContainerStatus) : LivePod :=
  mkLivePod (samplePod {[CacheBackendDomainLabel := "team-a"]}
      {[AnnotationInjectedBy := backendKey cb; AnnotationInjectedByUID := cb_UID cb; AnnotationInjectedGeneration := FormatInt (cb_Generation cb)]}
      (plainContainer "engine" [] []))
    None false "node-a" [] None plainScheduling plainHost "Always" 0 false "Running" [mkPodCondition "Ready" ConditionTrue "" ""] inits [].

Definition sampleSHA (_ : string) : string := "0123456789abcdef0123456789abcdef".

Definition nodeAnswers : NodeLocalAnswers :=
  mkNodeLocalAnswers (seconds 1000) (ListOK [wiredEngine nodeBackend []]) (ListOK []) (ListOK []) (λ _, ListOK []) (λ _, ListOK [])
    (ListOK []) (λ _, CreateOK) (λ _, true) (λ _, true).

Definition nodePass : Pass unit :=
  reconcileLMCacheNodeLocalServerPods sampleQuote sampleQuote sampleSHA (λ _, None) nodeAnswers "cleanup:v1" None nodeBackend true None.

Definition isCreate (c : PodCall) : bool := match c with CreatePod _ => true | _ => false end.

Lemma head_call (l : list PodCall) : match l with c :: _ => isCreate c | [] => false end = true → ∃ p, CreatePod p ∈ l.
Proof. destruct l as [|[p| | |] l]; [done| |done..]. intros _. exists p. left. Qed.

(** The one call of the pass creates the server of node-a. *)
Lemma nodelocal_calls_safe_witness :
  ∃ p, CreatePod p ∈ nodePass.1 ∧
    callSafe sampleQuote sampleSHA (serverJustified sampleQuote sampleQuote sampleSHA nodeAnswers None nodeBackend None) nodeAnswers
      "cleanup:v1" nodeBackend (CreatePod p).
Proof.
  destruct (head_call nodePass.1) as [p Hp]; [vm_compute; reflexivity|]. exists p. split; [exact Hp|].
  exact (nodelocal_calls_safe sampleQuote sampleQuote sampleSHA (λ _, None) nodeAnswers "cleanup:v1" None nodeBackend true None (CreatePod p) Hp).
Defined.

Lemma nodelocal_demand_covered_witness :
  engineOn nodeAnswers nodeBackend "node-a" (wiredEngine nodeBackend []) ∧
  ∃ path demand servers blocked,
    NodeLocalServerShmHostPath sampleQuote nodeBackend = inr path ∧ nodeLocalEngineDemand nodeAnswers nodeBackend = Some demand ∧
    listIn (na_Servers nodeAnswers) (cb_Namespace nodeBackend) (nodeLocalServerLabels nodeBackend) = Some servers ∧
    (reconcileLMCacheNodeLocalCleanupPods sampleQuote sampleSHA nodeAnswers "cleanup:v1" nodeBackend demand true).2 = Some blocked ∧
    ((∃ s, s ∈ servers ∧ kept sampleSHA nodeBackend path demand s ∧ nodeLocalServerTargetNode s = "node-a") ∨
     (∃ src rendered, RenderLMCacheNodeLocalServerPod sampleQuote sampleQuote sampleSHA nodeBackend None None "node-a" src = inr rendered ∧
        CreatePod (owned nodeBackend rendered) ∈ nodePass.1) ∨
     "node-a" ∈ blocked ∨ (∃ s, s ∈ servers ∧ retiring sampleSHA nodeBackend path s ∧ nodeLocalServerTargetNode s = "node-a")).
Proof.
  assert (engineOn nodeAnswers nodeBackend "node-a" (wiredEngine nodeBackend [])) as Hon.
  { eexists. split; [reflexivity|]. split_and!; [|done..]. apply elem_filter. split; [left|vm_compute; reflexivity]. }
  split; [exact Hon|].
  apply (nodelocal_demand_covered sampleQuote sampleQuote sampleSHA (λ _, None) nodeAnswers "cleanup:v1" None nodeBackend true None "node-a"
           (wiredEngine nodeBackend [])).
  - vm_compute. reflexivity.
  - done.
  - vm_compute. reflexivity.
  - exact Hon.
Defined.

(** The result of a call that succeeds. *)
Definition rendered (r : string + LivePod) : LivePod := match r with inr p => p | inl _ => wiredEngine nodeBackend [] end.
Definition succeeds {A : Type} (r : string + A) : bool := match r with inr _ => true | inl _ => false end.

Lemma rendered_inr r : succeeds r = true → r = inr (rendered r).
Proof. by destruct r. Qed.

Definition sampleServer : LivePod :=
  rendered (RenderLMCacheNodeLocalServerPod sampleQuote sampleQuote sampleSHA nodeBackend None None "node-a" (Some (wiredEngine nodeBackend []))).

Definition sampleShm : string := match NodeLocalServerShmHostPath sampleQuote nodeBackend with inr p => p | inl _ => "" end.

Lemma server_recognised_witness :
  currentFor sampleSHA nodeBackend sampleShm (owned nodeBackend sampleServer) = true ∧
  currentServer nodeBackend sampleShm (owned nodeBackend sampleServer) = true.
Proof.
  destruct (server_recognised sampleQuote sampleQuote sampleSHA nodeBackend None None "node-a" (Some (wiredEngine nodeBackend [])) sampleServer sampleShm)
    as (H1 & H2 & _); [done|apply rendered_inr; vm_compute; reflexivity|vm_compute; reflexivity|].
  split; [exact H1|exact H2].
Defined.

Definition sampleCleanup : LivePod :=
  rendered (RenderLMCacheNodeLocalCleanupPod sampleQuote sampleSHA nodeBackend [] "node-a" "cleanup:v1" (wiredEngine nodeBackend [])).
Definition ownedCleanup : LivePod := owned nodeBackend sampleCleanup.
Definition sampleRetry : LivePod := rendered (RenderLMCacheNodeLocalCleanupRetryPod sampleSHA nodeBackend ownedCleanup).

Lemma cleanup_recognised_witness :
  IsLMCacheNodeLocalCleanupPod sampleQuote sampleSHA ownedCleanup nodeBackend "node-a" "cleanup:v1" = true ∧
  IsLMCacheNodeLocalCleanupPod sampleQuote sampleSHA (owned nodeBackend (withRetryCount 1 sampleRetry)) nodeBackend "node-a" "cleanup:v1" = true.
Proof.
  destruct (cleanup_recognised sampleQuote sampleSHA (λ _, eq_refl) nodeBackend [] "node-a" "cleanup:v1" (wiredEngine nodeBackend [])
    sampleCleanup ownedCleanup sampleRetry 1) as [H1 H2].
  destruct H1 as (H1 & _ & Ht); [apply rendered_inr; vm_compute; reflexivity|]. split; [exact H1|].
  fold ownedCleanup in H1, Ht. rewrite Ht in H2. destruct H2 as (H2 & _); [exact H1|apply rendered_inr; vm_compute; reflexivity|exact H2].
Defined.

(** A failed cleanup and its first retry. *)
Lemma sample_retried : retryOf sampleSHA nodeBackend ownedCleanup (owned nodeBackend (withRetryCount 1 sampleRetry)).
Proof.
  exists nodeAnswers, ∅, (mkCleanupState ∅ ∅), (owned nodeBackend (withRetryCount 1 sampleRetry)). split; [|done].
  unfold advanceFailed. rewrite bool_decide_false by set_solver.
  assert (retryCount ownedCleanup = Some 0) as -> by (vm_compute; reflexivity).
  rewrite bool_decide_false by (simpl; set_solver). unfold retryCleanup.
  rewrite (rendered_inr (RenderLMCacheNodeLocalCleanupRetryPod sampleSHA nodeBackend ownedCleanup)) by (vm_compute; reflexivity).
  fold sampleRetry. left.
Qed.

Lemma cleanup_retries_end_witness :
  Z.of_nat (length [owned nodeBackend (withRetryCount 1 sampleRetry)]) ≤ nodeLocalShmCleanupMaxRetryAttempts.
Proof.
  apply (cleanup_retries_end sampleSHA nodeBackend ownedCleanup [owned nodeBackend (withRetryCount 1 sampleRetry)]).
  split; [apply sample_retried|done].
Defined.

(** ** The connector *)

Definition readySidecar : ContainerStatus := mkContainerStatus lmCacheMPServerStatusContainerName true true None None None.

Definition podLocalEngine : LivePod := wiredEngine (mpBackend None) [readySidecar].

Lemma connector_ready_exact_witness :
  connectorReady (refreshLMCacheMPConnectorStatus sampleQuote (mpBackend None) (seconds 10) (ListOK [podLocalEngine]) (ListOK []) true emptyStatus).
Proof.
  apply (proj1 (connector_ready_exact sampleQuote (mpBackend None) (seconds 10) (ListOK [podLocalEngine]) (ListOK []) emptyStatus
                  [podLocalEngine] [] eq_refl eq_refl)).
  - vm_compute. reflexivity.
  - vm_compute. reflexivity.
  - split; [discriminate|]. intros p Hp. apply elem_filter in Hp as [Hp _]. apply list_elem_of_singleton in Hp as ->.
    split_and!; vm_compute; reflexivity.
Defined.

(** ** Two reconciles of a host-only backend *)

Definition hostReconciler : Reconciler := mkBackendReconciler (Some sampleRegistry) (Some []) true None 0 0 0 "cleanup:v1".

Definition quietAnswers : NodeLocalAnswers :=
  mkNodeLocalAnswers (seconds 1000) (ListOK []) (ListOK []) (ListOK []) (λ _, ListOK []) (λ _, ListOK []) (ListOK [])
    (λ _, CreateOK) (λ _, true) (λ _, true).

(** Nothing else in the namespace, and every write accepted. *)
Definition quietInputs (now : Z) : ReconcileInputs :=
  let gone := mkCleanupAnswers GetNotFound GetNotFound GetNotFound GetNotFound in
  mkReconcileInputs (inputsAt (mpBackend None) now stageOK) None None gone gone (λ _, mkAttempt GetNotFound WriteOK) (λ _, mkAttempt GetNotFound WriteOK)
    GetNotFound GetNotFound quietAnswers quietAnswers (ListOK []) (ListOK []) true (ListOK []) (ListOK []) true.

Definition reconcileAt (now : Z) : ReconcileStep :=
  mkReconcileStep (mpBackend None) true (quietInputs now) (st_IndexParticipation withEvents).

Definition twoReconciles : CacheBackendStatus * list Event :=
  reconcileRun sampleQuote sampleQuote sampleSHA (λ _, None) hostReconciler [reconcileAt 100; reconcileAt 200] emptyStatus ∅.

(** The first of the two reports the event, the second does not. *)
Lemma first_event_reported_once_witness :
  firstEventReports twoReconciles.2 = 1%nat ∧ st_FirstKVEventObservedAt twoReconciles.1 = Some (seconds 50) ∧
  (firstEventReports twoReconciles.2 ≤ 1)%nat.
Proof.
  split; [vm_compute; reflexivity|]. split; [vm_compute; reflexivity|].
  exact (proj1 (first_event_reported_once sampleQuote sampleQuote sampleSHA (λ _, None) hostReconciler [reconcileAt 100; reconcileAt 200] emptyStatus ∅)).
Defined.
